(* ===== verification/_CoqProject ===== *)
-Q . S2P
Prelude.v
Bytes.v
Effects.v
Calls.v
Text.v
Dot11.v
Netlink.v
Nl80211.v
Rtnl.v
Wiphy.v
NlMsg.v
Links.v
Ipc.v
Crypto.v
Sae.v
Eapol.v
Eap.v
FourWay.v
Dot1x.v
Pem.v
Mschapv2.v
Tunnel.v
TlsMethods.v
TlsSafe.v
Profile.v
Policy.v
DhcpOptions.v
Ipv6.v
DhcpMessage.v
DhcpClient.v
Conn.v
Enterprise.v
ConnProps.v
Timers.v
Auth.v
Server.v
ConnAsks.v
Engine.v
EngineProps.v
EngineClients.v
Reactor.v
DaemonDemo.v
ReactorProps.v
ReactorClients.v
Startup.v
System.v
Loop.v
LoopProps.v
Words.v
Render.v
Prompt.v
Cli.v
CliProps.v
TestsDot11.v
TestsNetlink.v
TestsDhcp.v
TestsEap.v
TestsCore.v
TestsDaemon.v
Primitives.v
TestsCrypto.v
TestsSae.v
