(* ===== verification/Prelude.v ===== *)
(** * CAW: a verification library for Corvus Access Wifi

    CAW is a Wi-Fi supplicant: a daemon ([cawd]) that scans, authenticates,
    runs the WPA key handshakes, configures an address and remembers networks.
    Its layers below the daemon are sans-IO: a state machine takes one input
    (a command, a kernel event, a frame, a lease, a timer) and returns the
    actions the daemon performs.  The daemon is the loop around them: it turns
    actions into system calls, answers and events into inputs, and serves its
    clients.  The command line ([caw]) is one of those clients: it writes requests to the
    daemon's socket, shows what comes back and asks for secrets at a terminal.
    This library models all three: the state machines as functions with explicit
    state, the codecs as functions on octets, the daemon's engine and reactor and
    the commands as functions over a kernel that answers as it likes.

    ** The parts, and where each is modelled

    - [Prelude]: machine integers as [Z], Rust results with panics ([exec]:
      [Ok], [Err] and [Panic], the latter for a failed [expect] or an index out
      of range), iterators with enough fuel ([items], [items_eq]), lists.
    - [Bytes]: slices, little-, big- and host-endian codecs.
    - [Effects]: methods [&mut self] that push onto a [Vec<Action>], as a monad
      [act] over state and output with [None] for a panic, and its weakest
      preconditions [wp].  [Calls]: methods [&mut self] that return a [Result]
      and keep what they wrote when they fail, as the monad [call].
    - [Text]: [String::from_utf8_lossy], [char::escape_debug], trimming, lines and
      decimal numbers over octets.
    - [Dot11] (crates/caw-80211/src/lib.rs): information elements, RSN and WPA
      elements, suites, the classification of a network's security.
    - [Netlink] (crates/caw-netlink/src/lib.rs): messages, attributes, the
      builder, and the exchange loop [Socket::request] over the datagrams the
      kernel delivers.
    - [Nl80211] (crates/caw-nl80211/src: consts.rs, attr.rs, event.rs, bss.rs):
      suite numbers, attribute streams, the events and scan entries.
    - [Wiphy] (wiphy.rs, family.rs) and [NlMsg] (msg.rs, sock.rs): radios and
      interfaces, the family and its groups; every request, and the event
      socket.
    - [Rtnl] (crates/caw-rtnl/src/lib.rs): links, addresses and routes over the
      netlink exchange.
    - [Crypto] (crates/caw-crypto/src: kdf.rs, mic.rs, keywrap.rs, psk.rs and
      the trait of lib.rs): the key hierarchy over the primitives of the crates
      it calls, which are the class [CryptoPrims]; [PmkProvider] is the trait.
    - [Sae] (crates/caw-crypto/src/sae.rs): the WPA3 exchange -- hash-to-element,
      commits, confirms, tokens, retransmission -- over the operations of the
      curve it calls, the class [SaeCurve]; [SafeSae] is the provider.
    - [Eapol] (crates/caw-eapol/src: lib.rs, key.rs): EAPOL and EAPOL-Key
      frames, key data, the GTK and RSN elements inside it.
    - [FourWay] (crates/caw-eapol/src/lib.rs, [FourWay]): the 4-way handshake
      and the group rekeys of the supplicant, every branch of [poll].
    - [Eap] (crates/caw-eapol/src/eap: packet.rs, frag.rs): EAP packets, the
      fragments of a TLS message, and the lock-step that exchanges them.
    - [Dot1x] (eap/dot1x.rs, eap/mod.rs, the trait [EapMethod] of lib.rs): the
      802.1X provider, generic in its method.
    - [Mschapv2] (eap/mschapv2.rs), [Pem] and [Tunnel] (eap/tls: pem.rs, mod.rs,
      export.rs, provider.rs), [TlsMethods] (EAP-TLS in tls/mod.rs, peap.rs,
      ttls.rs): the methods, over a TLS connection ([TlsStack]); [TlsSafe], that
      they never panic over one that keeps its bounds.
    - [Profile] (crates/caw-core/src/profile.rs): saved networks, the file name
      of an SSID, the store on a file system with a crash at any step.
    - [Policy] (crates/caw-core/src: policy.rs, rsn.rs): which BSS, which suites,
      the security floor, roaming, the RSN element of the association request.
    - [DhcpOptions], [DhcpMessage], [DhcpClient] (crates/caw-dhcp/src:
      options.rs, message.rs, client.rs, lib.rs): the DHCPv4 codec and client.
    - [Ipv6] (crates/caw-dhcp/src/ipv6.rs): router advertisements, and the
      addresses formed from them.
    - [Conn] (crates/caw-core/src: conn.rs, auth.rs): [Connection], the machine
      that ties the others together, every handler of [Connection::poll].
    - [Enterprise] (auth.rs, [enterprise]): what an Enterprise profile becomes, as
      the build the connection asks for.
    - [ConnProps]: the connection's invariants and behaviour, and the machine
      in its daemon ([reaches]): inputs in any order, the timers and the state
      the daemon keeps, the profile store changing under it.  [ConnAsks]: which
      actions lead to further inputs.
    - [Ipc] (crates/caw-ipc/src: lib.rs, frame.rs): the requests, and the framing
      of the stream they arrive on.
    - The daemon (crates/cawd/src): [Timers] (timers.rs), [Links] (links.rs),
      [Auth] (auth.rs), [Server] (ipc.rs), and
      [Engine] (engine.rs): every action of the connection performed, every
      request of a client; [EngineProps] its invariant and that its loop
      settles, [EngineClients] the ledger of what its clients are owed.
    - [Reactor] (crates/cawd/src/reactor.rs): the handlers, the turn of the loop,
      start-up and shutdown, on the engine's operations lent its own fields
      ([lend], [with_engine]).  [DaemonDemo] is a kernel to run it on,
      [ReactorProps] the refinement, [ReactorClients] what clients can rely on.
    - [Startup] (cawd/src: main.rs, log.rs, signals.rs, the binding in ipc.rs, and
      caw-dhcp/src/socket.rs): the arguments and the sockets, as the calls made.
    - [System] (caw-netlink/src/lib.rs, caw-nl80211/src/sock.rs, cawd/src: links.rs,
      signals.rs, timers.rs, engine.rs; caw-eapol/src: socket.rs, lib.rs;
      caw-dhcp/src/lib.rs, caw-crypto/src/sae.rs): the other descriptors and the
      calls on them, the EAPOL socket, the loops that draw random octets, and the
      writing of resolv.conf step by step.
    - [Loop] (cawd/src: reactor.rs, ipc.rs, main.rs): the daemon on its
      descriptors -- the poll set, what is done with what poll reports, the octets
      of the clients, every way the loop ends -- and [main] around it.
      [LoopProps]: it plays histories of [Reactor].
    - [Words]: the [Display] of the crates' names and errors.
    - The command line (crates/caw/src): [Render] (table.rs, render.rs), [Prompt]
      (prompt.rs), [Cli] (ipc.rs, wireless.rs, port.rs, main.rs) from the parsed
      arguments to the exit code, and [CliProps], its exchange with the daemon.
    - The sources' own unit tests, translated and evaluated on these definitions:
      [TestsDot11], [TestsNetlink] (caw-netlink, caw-nl80211, caw-rtnl and the
      daemon's links.rs), [TestsDhcp], [TestsEap] (caw-eapol/src/eap), [TestsCore]
      (profile.rs, policy.rs, rsn.rs), [TestsDaemon] (cawd, caw and caw-ipc),
      [TestsCrypto] (caw-crypto and mschapv2.rs) and [TestsSae].  [Primitives] are
      the hashes and ciphers as their standards publish them, instances of
      [CryptoPrims] and [MschapPrims] with their laws, for the published vectors.

    The engine promises the reactor two things, stated as interfaces:
    [EngineProps.keeps] (no operation panics or breaks the invariant that ties
    the table of deadlines to the connection) and [EngineClients.Leaves] (what
    no operation does behind a client's back).  The reactor's theorems use
    these and not the engine's definitions.

    The 802.1X provider is a client of one interface and an implementation of
    another: it is proved against [EapMethod] and [EapMethodSafe], and is itself
    a [PmkProvider] ([SafeDot1x]), so the connection's theorems hold over it;
    [SafeSae] is another.  Under it [TlsSafe] is what the tunnel asks of rustls,
    and its instances make every method an [EapMethodSafe].

    Names follow the source; a method [T::m] is [T_m] where [m] alone would be
    ambiguous, and one file per crate or module keeps the rest apart.

    ** What the theorems show

    - No panic: [connection_never_panics] and [fourway_never_panics] cover every
      reachable state and every input; [Message_decode_no_panic] and the lemmas
      of [Eapol] and [Dot11] cover the parsers.
    - Keys: pairwise keys come only from an authenticated message 3
      ([complete_is_authenticated]), no frame is accepted twice
      ([no_frame_twice]), keys are installed again only after a new message 1
      ([reinstall_needs_msg1]), the handshake completes against an
      authenticator built from the same codec ([handshake_completes]).
    - SAE: both ends with the password reach one key ([sae_both_ends_agree]); a key
      comes only from a confirm under the keys of a checked, foreign commit
      ([sae_key_is_confirmed]); nothing makes it panic but a password whose token
      is the point at infinity ([sae_never_panics]); which frames are errors or
      ignored, and what comes of each that is due ([sae_frames_sorted]); silence is answered
      five times and then reported ([sae_retransmits_then_stops]); a token is
      echoed ([sae_token_echoed]).
    - Enterprise: the whole stack never panics ([enterprise_never_panics]); an
      EAP-Success alone yields nothing
      ([pmk_only_from_the_method]); over PEAP a key is handed out only after the
      server proved it knows the password, inside the tunnel
      ([enterprise_key_needs_the_password], [server_knows_the_password]); TTLS
      lets the password out only into a finished tunnel
      ([password_waits_for_the_tunnel]); no tunnel without a trust anchor
      ([no_tunnel_without_anchor], [enterprise_is_anchored]).  Fragments arrive
      whole within bounds ([message_arrives_whole], [reassembly_bounded], [reassembled_exactly]); a
      repeated request is answered as before ([duplicate_is_replayed]); silence
      ends a conversation ([silence_ends_it]).
    - The link: nothing is configured over an unkeyed link, but for a lease
      that comes when none is waited for
      ([keyed_before_configured]), no association below the profile's floor
      ([no_downgrade]), the order of keys and address ([keys_then_address]).
    - Time: at most one timer runs and it is the state's own
      ([daemon_sees_the_machine]); scanning, associating and backing off are
      timed, and only the user is waited for without an end ([waits_are_timed]);
      DHCP gives up ([exchange_gives_up]).
    - DHCP: only an ACK to this client's request configures an address
      ([configured_only_by_ack]), the interface follows the lease, but for a start
      while one is held ([interface_follows_lease]), and a lease is the server's
      message, its mask and its router among it ([lease_coherent]).  IPv6: the advertisement decoder accepts exactly
      the advertisements and finds the rest malformed ([advert_decoded_exactly]) and an address lies in its
      prefix and gives its MAC back ([slaac_exact]).
    - Storage: a crash at any point of [save] leaves the old or the new profile
      ([save_crash_atomic]); names are injective and safe
      ([file_name_roundtrip], [file_name_safe]).
    - Codecs: round trips for EAPOL-Key frames, DHCP messages, information
      elements, RSN elements, netlink messages, the connect request
      ([connect_request_exact]) and the clients' stream ([stream_roundtrip]);
      the kernel's dumps and notifications are read exactly ([links_exact],
      [wiphys_exact], [mask_exact], [events_exact]).
    - The daemon: over any turns it does not panic, its connection is in a state
      of the connection's own machine and its deadlines are that connection's
      ([daemon_refines_connection]); its loop settles ([feed_settles]); it
      sleeps through no deadline ([no_deadline_slept_through],
      [expired_exact]); it stops idle ([shutdown_leaves_idle]).
    - Its clients: one response for each request, and none for a secret that
      was asked for ([one_response_each]); nothing
      is changed for those the files do not admit ([may_change_state_exact],
      [outsider_changes_nothing]); a secret is taken from whom it was asked
      ([secret_from_whom_was_asked]); what is sent arrives in order or the
      client is dropped ([outbox_in_order]).
    - Its sockets: whatever poll reports and however the octets are cut, the
      daemon plays a history of the reactor whose requests are those heard in
      the octets -- an unfinished line beyond the limit at a pause is thrown away and
      refused -- and whose answers are written in order ([daemon_on_its_sockets]); it
      watches exactly what is open ([watched_exactly], [wait_exact]).
    - Starting and ending: the socket of a daemon that is listening is never taken
      ([live_socket_kept]); the program panics only on an argument that is not
      UTF-8 or a write that standard output or standard error refuses, succeeds only
      idle, and removes the socket of a server it bound ([program_ends]).
    - The system: resolv.conf is replaced at once or not at all
      ([resolv_conf_atomic]); a frame is sent to whoever spoke last
      ([eapol_answers_last_peer]); random octets are drawn whole ([fill_exact]).
    - The command line: [connect] is a dialogue over the daemon's messages however
      the stream is cut ([connect_is_dialogue]), as are the commands that only wait
      ([request_replies]); the prompt edits characters
      ([prompt_edits_characters]), puts the terminal back and shows nothing of a
      secret ([prompt_leaves_no_trace]); a scan lists each name once, and each
      hidden network by its address, at its strongest ([scan_listed]), in columns that line up ([table_columns]).
    - That the definitions are the code's: what its unit tests assert is what is
      computed here, captured frames and the vectors of RFC 2202, 2759, 3394
      and 4493 and of IEEE 802.11i among them ([keys_tests_pass],
      [mschapv2_tests_pass], [dhcp_tests_pass] and the lemmas like them).
    - Where the code does not do what its comments or the protocols say, a
      theorem states what it does: a repeated message 1 re-installs the same
      key ([msg1_rearms_same_key]); a NAK in the first exchange stalls
      ([nak_stalls_configuration]); an SAE exchange that gave up is still open
      ([gives_up_stays_open]); an identity longer than a packet panics
      ([oversized_identity_panics]); a username is echoed twice
      ([shown_is_echoed_twice]); the wait for message 1 has no deadline
      ([handshake_wait_untimed]); a transition network whose WPA2 profile is
      saved refuses its own network ([mixed_network_locked_out]); a client that
      has ended keeps the loop awake ([ended_still_polled]); an error of poll ends
      the program still joined ([stopped_and_failed]); a lease dropped by a start
      keeps its address ([start_keeps_address]); a socket whose mode or listening
      fails is left behind ([failed_bind_leaves_socket]).

    ** Assumptions

    Cryptographic primitives are arguments ([CryptoPrims]); what is used of
    them ([CryptoLaws]) is the lengths of their outputs, which the published
    algorithms have ([Primitives]).  JSON is an argument
    ([Json]), which may refuse a profile it cannot spell; what is used of it is that
    it reads back what it wrote of a network's profile.  The
    connection's theorems hold for every [PmkProvider] that does not panic
    ([PmkProviderSafe]), which the pre-shared key provider is shown to be, 802.1X
    over a method that does not panic, and SAE.  The curve of SAE is the class
    [SaeCurve]; what is used of it ([SaeCurveLaws]) is a group of prime order with
    its encodings, the point at infinity having none.  That a password token is not
    that point ([TokenIsPoint]) is asked only where SAE is used as a provider that
    does not panic ([SafeSae]).  rustls is the class [TlsStack]; what is used of it is that
    writing and reading drain what it holds ([TlsLaws]), and that it keeps to its
    buffer's bound and exports the size asked for ([TlsSafe]).  MD4, SHA-1 and DES are
    [MschapPrims], with the lengths of their outputs.  [HostEndian] ranges over both
    byte orders.  Arithmetic wraps, as in a release build
    (SAE's [sync] among it).
    The engine's kernel is the class [Kernel]: every system call is a value of
    [sys], and any may fail; what is used of it ([KernelOk]) is that a nonce has
    the length asked for.  A command's [World] gives what each read of its socket
    and terminal delivers and what each write takes.  The loop's [Wake] is what poll
    reports and what the reads behind it find; [Wires] is JSON and what the
    sockets take, of which [WiresOk] asks that a write takes at least an octet and
    at most what is offered.  [Console] is whether standard output and standard error
    take what the program writes, and the arguments are any octets.  [System] answers the calls that open
    descriptors.  The theorems about a radio's packets ask that what
    the packet socket delivers is octets ([source_ok]).

    ** Fuel

    Iterators and decoding loops take the length of their input as fuel, and
    consume at least one octet per turn ([items_eq] shows that more fuel
    changes nothing).  [Socket::request] takes its fuel from the datagrams
    given to it.  The loops over rustls' buffers take what those hold
    ([tunnel_drains_end]).  The IPv6 options take the message's length, and running out
    would be a panic the decoder is shown not to have.  The command line's loop takes
    the octets still to come, at least one to a message, and the prompt the keys.
    The engine's loop has the code's own bound of 32 turns, which
    [feed_settles] shows it never needs.

    ** Not modelled

    What the kernel does behind poll, the sockets and the timer is an argument, as
    is what signal-hook's handler writes to its pipe; the log lines
    other than those of start-up and the end are left out, and taken as written.  The texts the engine
    sends with its errors are values that name them ([Cause]).  The parsing of the command line's arguments
    is clap's.  The arithmetic of P-256 is its crate's, and what rustls does with
    certificates and records is its own.  The daemon does not call the IPv6 part
    yet, so nothing connects it to the engine.  Of the unit tests, those are left out
    that only PBKDF2's 4096 rounds, the arithmetic of P-256, the text of serde and
    clap, or a real descriptor decide, and the scenarios of caw-core's and
    caw-eapol's tests.rs, whose ground the theorems about the same machines cover. *)
From stdpp Require Export base tactics option list numbers strings gmap.
From Stdlib Require Export ZArith Lia.

#[global] Open Scope Z_scope.

(** ** Machine integers

    A [w]-bit unsigned Rust integer is a [Z] in [[0, 2^w)].  The operations
    below are the ones the sources use, with their wrap-around or saturation
    written out. *)

Abbreviation bytes := (list Z).

Definition is_uint (w v : Z) : Prop := 0 <= v < 2 ^ w.
Abbreviation is_u8 := (is_uint 8).
Abbreviation is_u16 := (is_uint 16).
Abbreviation is_u32 := (is_uint 32).
Abbreviation is_u64 := (is_uint 64).

#[global] Instance is_uint_dec w v : Decision (is_uint w v).
Proof. unfold is_uint. apply _. Defined.

(** A well-formed buffer: every element is an octet. *)
Abbreviation is_bytes := (Forall (is_uint 8)).

Definition wrap (w v : Z) : Z := v mod 2 ^ w.
Definition sat_add (w a b : Z) : Z := Z.min (2 ^ w - 1) (a + b).
Definition sat_sub (a b : Z) : Z := Z.max 0 (a - b).
Definition sat_mul (w a b : Z) : Z := Z.min (2 ^ w - 1) (a * b).

(** [x & mask != 0], the idiom of every flag test. *)
Definition has_flag (x mask : Z) : bool := negb (Z.land x mask =? 0).

(** Nothing above a value's width. *)
Lemma is_uint_testbit w v i : 0 <= w -> is_uint w v -> w <= i -> Z.testbit v i = false.
Proof.
  intros Hw [H0 Hv] Hi. destruct (Z.eq_dec v 0) as [->|]; [apply Z.bits_0|].
  apply Z.bits_above_log2; [done|]. pose proof (proj1 (Z.log2_lt_pow2 v w ltac:(lia)) Hv). lia.
Qed.

(** A one-bit mask tests that bit. *)
Lemma has_flag_bit x n : 0 <= n -> has_flag x (Z.shiftl 1 n) = Z.testbit x n.
Proof.
  intros Hn. unfold has_flag. rewrite Z.shiftl_mul_pow2, Z.mul_1_l by lia.
  assert (H : Z.land x (2 ^ n) = if Z.testbit x n then 2 ^ n else 0).
  { apply Z.bits_inj'. intros i Hi. rewrite Z.land_spec, Z.pow2_bits_eqb by lia.
    destruct (Z.eqb_spec n i) as [->|Hne].
    - rewrite andb_true_r. destruct (Z.testbit x i); [by rewrite Z.pow2_bits_true by lia|by rewrite Z.bits_0].
    - rewrite andb_false_r. destruct (Z.testbit x n); [|by rewrite Z.bits_0].
      symmetry. apply Z.pow2_bits_false. lia. }
  rewrite H. pose proof (Z.pow_pos_nonneg 2 n ltac:(lia) Hn).
  destruct (Z.testbit x n); [|done]. by rewrite (proj2 (Z.eqb_neq _ _)) by lia.
Qed.

Definition len (l : bytes) : Z := Z.of_nat (length l).

(** ** Results with panics

    [Ok]/[Err] are Rust's [Result]; [Panic] is the third way a call can end:
    an index out of range, a failed [expect].  Keeping it explicit is what
    makes "this never panics" a theorem instead of a convention. *)
Inductive exec (E A : Type) : Type :=
| Ok (a : A)
| Err (e : E)
| Panic.
Arguments Ok {_ _} _.
Arguments Err {_ _} _.
Arguments Panic {_ _}.

#[global] Instance exec_ret {E} : MRet (exec E) := fun A a => Ok a.
#[global] Instance exec_bind {E} : MBind (exec E) := fun A B k m =>
  match m with Ok a => k a | Err e => Err e | Panic => Panic end.
#[global] Instance exec_fmap {E} : FMap (exec E) := fun A B f m =>
  match m with Ok a => Ok (f a) | Err e => Err e | Panic => Panic end.

#[global] Instance exec_eq_dec `{EqDecision E, EqDecision A} : EqDecision (exec E A).
Proof. solve_decision. Defined.

Definition ok_or {E A} (e : E) (o : option A) : exec E A :=
  match o with Some a => Ok a | None => Err e end.
Definition expect {E A} (o : option A) : exec E A :=
  match o with Some a => Ok a | None => Panic end.
(** Early return: [if !b { return Err(e) }]. *)
Definition ensure {E} (b : bool) (e : E) : exec E unit :=
  if b then Ok tt else Err e.
Definition map_err {E F A} (f : E -> F) (m : exec E A) : exec F A :=
  match m with Ok a => Ok a | Err e => Err (f e) | Panic => Panic end.
(** [Result::ok]: a panic is not caught by it. *)
Definition to_option {E A} (m : exec E A) : option A :=
  match m with Ok a => Some a | _ => None end.
Definition is_err {E A} (m : exec E A) : bool :=
  match m with Err _ => true | _ => false end.

Definition no_panic {E A} (m : exec E A) : Prop :=
  match m with Panic => False | _ => True end.

(** ** Laws of the result monad *)
Section exec_laws.
Context {E : Type}.

Lemma bind_ok {A B} (m : exec E A) (k : A -> exec E B) b :
  m ≫= k = Ok b <-> exists a, m = Ok a /\ k a = Ok b.
Proof. destruct m; naive_solver. Qed.

(** Step over a call known to succeed. *)
Lemma bind_Ok {A B} (m : exec E A) (k : A -> exec E B) a : m = Ok a -> m ≫= k = k a.
Proof. by intros ->. Qed.

Lemma ensure_true {A} (b : bool) (e : E) (k : unit -> exec E A) :
  b = true -> ensure b e ≫= k = k tt.
Proof. by intros ->. Qed.

Lemma bind_err {A B} (m : exec E A) (k : A -> exec E B) e :
  m ≫= k = Err e <-> m = Err e \/ exists a, m = Ok a /\ k a = Err e.
Proof. destruct m; naive_solver. Qed.

Lemma ok_or_ok {A} (e : E) (o : option A) a : ok_or e o = Ok a <-> o = Some a.
Proof. destruct o; naive_solver. Qed.

Lemma expect_ok {A} (o : option A) (a : A) : @expect E A o = Ok a <-> o = Some a.
Proof. destruct o; naive_solver. Qed.

Lemma ensure_ok b (e : E) u : ensure b e = Ok u <-> b = true.
Proof. destruct b, u; naive_solver. Qed.

Lemma no_panic_bind {A B} (m : exec E A) (k : A -> exec E B) :
  no_panic m -> (forall a, m = Ok a -> no_panic (k a)) -> no_panic (m ≫= k).
Proof. destruct m; cbn; auto. Qed.

Lemma no_panic_ok_or {A} (e : E) (o : option A) : no_panic (ok_or e o).
Proof. by destruct o. Qed.

Lemma no_panic_ensure b (e : E) : no_panic (ensure b e).
Proof. by destruct b. Qed.

Lemma no_panic_expect {A} (o : option A) : is_Some o -> no_panic (@expect E A o).
Proof. intros [a ->]. done. Qed.

Lemma no_panic_map_err {F A} (f : E -> F) (m : exec E A) :
  no_panic m -> no_panic (map_err f m).
Proof. by destruct m. Qed.

Lemma fmap_ok {A B} (f : A -> B) (m : exec E A) b : f <$> m = Ok b <-> exists a, m = Ok a /\ b = f a.
Proof. destruct m; naive_solver. Qed.

Lemma map_err_ok {F A} (f : E -> F) (m : exec E A) a :
  map_err f m = Ok a <-> m = Ok a.
Proof. destruct m; naive_solver. Qed.
End exec_laws.

Create HintDb caw discriminated.
Create HintDb len.
#[export] Hint Resolve no_panic_ok_or no_panic_ensure : caw.

(** Take a chain of binds that returned [Ok] apart, one equation per step. *)
Ltac inv_ok :=
  repeat match goal with
  | H : _ ≫= _ = Ok _ |- _ =>
      apply bind_ok in H; let x := fresh "x" in let Hx := fresh "Hx" in
      destruct H as (x & Hx & H)
  | H : ok_or _ _ = Ok _ |- _ => apply ok_or_ok in H
  | H : expect _ = Ok _ |- _ => apply expect_ok in H
  | H : ensure _ _ = Ok _ |- _ => apply ensure_ok in H
  | H : map_err _ _ = Ok _ |- _ => apply map_err_ok in H
  | H : mret _ = Ok _ |- _ => injection H as H
  | H : Ok _ = Ok _ |- _ => injection H as H
  | H : Err _ = Ok _ |- _ => discriminate H
  | H : Panic = Ok _ |- _ => discriminate H
  end; simplify_eq.

(** A list of tests, each evaluated. *)
Ltac run_tests := repeat (apply Forall_cons; split; [vm_compute; repeat split; fail|]); apply Forall_nil; exact I.

(** Turn boolean tests into propositions. *)
Ltac bool_prop :=
  repeat match goal with
  | H : _ && _ = true |- _ => apply andb_true_iff in H as [? ?]
  | H : _ || _ = false |- _ => apply orb_false_iff in H as [? ?]
  | H : negb _ = true |- _ => apply negb_true_iff in H
  | H : negb _ = false |- _ => apply negb_false_iff in H
  | H : (_ =? _)%Z = true |- _ => apply Z.eqb_eq in H
  | H : (_ =? _)%Z = false |- _ => apply Z.eqb_neq in H
  | H : (_ <? _)%Z = true |- _ => apply Z.ltb_lt in H
  | H : (_ <? _)%Z = false |- _ => apply Z.ltb_ge in H
  | H : (_ <=? _)%Z = true |- _ => apply Z.leb_le in H
  | H : (_ <=? _)%Z = false |- _ => apply Z.leb_gt in H
  | H : (_ =? _)%nat = true |- _ => apply Nat.eqb_eq in H
  | H : (_ =? _)%nat = false |- _ => apply Nat.eqb_neq in H
  | H : (_ <? _)%nat = true |- _ => apply Nat.ltb_lt in H
  | H : (_ <? _)%nat = false |- _ => apply Nat.ltb_ge in H
  | H : (_ <=? _)%nat = true |- _ => apply Nat.leb_le in H
  | H : (_ <=? _)%nat = false |- _ => apply Nat.leb_gt in H
  | H : bool_decide _ = true |- _ => apply bool_decide_eq_true in H
  | H : bool_decide _ = false |- _ => apply bool_decide_eq_false in H
  end.

(** ** Option and list helpers *)

Definition is_some {A} (o : option A) : bool := match o with Some _ => true | None => false end.
Definition is_none {A} (o : option A) : bool := negb (is_some o).

(** [Iterator::find] *)
Fixpoint find_first {A} (p : A -> bool) (l : list A) : option A :=
  match l with
  | [] => None
  | x :: l => if p x then Some x else find_first p l
  end.

(** [Iterator::find_map] *)
Fixpoint find_map {A B} (f : A -> option B) (l : list A) : option B :=
  match l with
  | [] => None
  | x :: l => match f x with Some b => Some b | None => find_map f l end
  end.

(** [Iterator::max_by_key] over an integer key: the {e last} of the maxima. *)
Definition max_by_key {A} (key : A -> Z) (l : list A) : option A :=
  fold_left (fun acc x =>
    match acc with
    | None => Some x
    | Some y => if key y <=? key x then Some x else Some y
    end) l None.

Section list_helpers.
Context {A : Type}.

Lemma find_first_Some (p : A -> bool) l x :
  find_first p l = Some x -> x ∈ l /\ p x = true.
Proof.
  induction l as [|y l IH]; cbn; [done|]. destruct (p y) eqn:Hy.
  - intros [= ->]. split; [left|done].
  - intros [??]%IH. split; [by right|done].
Qed.

Lemma find_first_None (p : A -> bool) l :
  find_first p l = None <-> forall x, x ∈ l -> p x = false.
Proof.
  induction l as [|y l IH]; cbn; [set_solver|]. destruct (p y) eqn:Hy.
  - split; [done|]. intros H. rewrite H in Hy; [done|left].
  - rewrite IH. set_solver.
Qed.

Lemma find_first_is_Some (p : A -> bool) l x :
  x ∈ l -> p x = true -> is_Some (find_first p l).
Proof.
  intros Hx Hp. destruct (find_first p l) eqn:Hf; [done|].
  apply find_first_None with (x := x) in Hf; congruence.
Qed.

Lemma find_map_Some {B} (f : A -> option B) l b :
  find_map f l = Some b -> exists x, x ∈ l /\ f x = Some b.
Proof.
  induction l as [|y l IH]; cbn; [done|]. destruct (f y) eqn:Hy.
  - intros [= ->]. exists y. split; [left|done].
  - intros (x & ? & ?)%IH. exists x. split; [by right|done].
Qed.

Lemma max_by_key_fold (key : A -> Z) l y :
  exists m, fold_left (fun acc x =>
    match acc with
    | None => Some x
    | Some y => if key y <=? key x then Some x else Some y
    end) l (Some y) = Some m
    /\ (m = y \/ m ∈ l) /\ key y <= key m /\ Forall (fun x => key x <= key m) l.
Proof.
  revert y. induction l as [|x l IH]; intros y; cbn.
  - exists y. split_and!; [done|by left|lia|constructor].
  - destruct (Z.leb_spec (key y) (key x)).
    + destruct (IH x) as (m & -> & Hin & Hle & Hall). exists m.
      split_and!; [done| |lia|by constructor]. right. set_solver.
    + destruct (IH y) as (m & -> & Hin & Hle & Hall). exists m.
      split_and!; [done|set_solver|lia|]. constructor; [lia|done].
Qed.

(** The maximum is an element and bounds every other. *)
Lemma max_by_key_Some (key : A -> Z) l m :
  max_by_key key l = Some m ->
  m ∈ l /\ Forall (fun x => key x <= key m) l.
Proof.
  destruct l as [|y l]; cbn; [done|].
  destruct (max_by_key_fold key l y) as (m' & -> & Hin & Hle & Hall).
  intros [= ->]. split; [|by constructor]. set_solver.
Qed.

Lemma max_by_key_None (key : A -> Z) l : max_by_key key l = None <-> l = [].
Proof.
  destruct l as [|y l]; cbn; [done|].
  by destruct (max_by_key_fold key l y) as (m' & -> & _).
Qed.
End list_helpers.

(** [slice::sort_by_key], which is stable: an element goes behind its equals. *)
Section sorting.
Context {A : Type} (key : A -> Z).

Fixpoint insert_by_key (x : A) (l : list A) : list A :=
  match l with
  | [] => [x]
  | y :: l' => if key x <? key y then x :: l else y :: insert_by_key x l'
  end.
Definition sort_by_key (l : list A) : list A := fold_left (fun acc x => insert_by_key x acc) l [].

Inductive ascending : list A -> Prop :=
| asc_nil : ascending []
| asc_cons x l : ascending l -> Forall (fun y => key x <= key y) l -> ascending (x :: l).

Lemma insert_by_key_perm x l : insert_by_key x l ≡ₚ x :: l.
Proof.
  induction l as [|y l IH]; cbn; [done|]. destruct (_ <? _); [done|]. rewrite IH. apply Permutation_swap.
Qed.

Lemma insert_by_key_ascending x l : ascending l -> ascending (insert_by_key x l).
Proof.
  induction 1 as [|y l Hl IH Hy]; cbn; [by repeat constructor|]. destruct (Z.ltb_spec (key x) (key y)).
  - constructor; [by constructor|]. constructor; [lia|]. eapply Forall_impl; [exact Hy|]. cbn. lia.
  - constructor; [done|]. rewrite insert_by_key_perm. by constructor.
Qed.

Lemma sort_by_key_perm l : sort_by_key l ≡ₚ l.
Proof.
  unfold sort_by_key. rewrite <- (app_nil_r l) at 2. generalize (@nil A) as acc.
  induction l as [|x l IH]; intros acc; cbn; [done|]. rewrite IH, insert_by_key_perm. by rewrite Permutation_middle.
Qed.

Lemma sort_by_key_ascending l : ascending (sort_by_key l).
Proof.
  unfold sort_by_key. assert (Hn : ascending []) by constructor. revert Hn. generalize (@nil A) as acc.
  induction l as [|x l IH]; intros acc Ha; cbn; [done|]. by apply IH, insert_by_key_ascending.
Qed.

Lemma insert_by_key_last x l : Forall (fun y => key y <= key x) l -> insert_by_key x l = l ++ [x].
Proof.
  induction 1 as [|y l Hy _ IH]; [done|]. cbn. rewrite (proj2 (Z.ltb_ge _ _)) by done. by rewrite IH.
Qed.

(** What is sorted stays as it is. *)
Lemma sort_by_key_id l : ascending l -> sort_by_key l = l.
Proof.
  intros Hl. unfold sort_by_key. change l with ([] ++ l) at 2.
  assert (Hacc : Forall (fun y => Forall (fun z => key y <= key z) l) []) by constructor.
  revert Hacc. generalize (@nil A) as acc. induction Hl as [|x l Hl IH Hx]; intros acc Hacc; cbn.
  - by rewrite app_nil_r.
  - rewrite insert_by_key_last.
    + rewrite IH; [by rewrite <- app_assoc|]. apply Forall_app; split.
      * eapply Forall_impl; [exact Hacc|]. cbn. by intros y [_ ?]%Forall_cons.
      * by repeat constructor.
    + eapply Forall_impl; [exact Hacc|]. cbn. by intros y [? _]%Forall_cons.
Qed.
End sorting.

(** ** Iterators

    A Rust [Iterator] is a [next] function on a cursor.  [items] collects it;
    the fuel is the size of the cursor, and [items_eq] says that it is enough
    whenever [next] consumes something: the loop terminates and no element is
    lost to the fuel. *)
Section iterators.
Context {S A : Type} (next : S -> option (A * S)) (size : S -> nat).

Fixpoint collect (fuel : nat) (s : S) : list A :=
  match fuel with
  | O => []
  | Datatypes.S fuel =>
      match next s with
      | None => []
      | Some (a, s') => a :: collect fuel s'
      end
  end.

Definition items (s : S) : list A := collect (Datatypes.S (size s)) s.

Hypothesis next_consumes : forall s a s', next s = Some (a, s') -> (size s' < size s)%nat.

Lemma collect_enough f1 f2 s :
  (size s < f1)%nat -> (size s < f2)%nat -> collect f1 s = collect f2 s.
Proof using next_consumes.
  revert f2 s. induction f1 as [|f1 IH]; intros f2 s H1 H2; [lia|].
  destruct f2 as [|f2]; [lia|]. cbn. destruct (next s) as [[a s']|] eqn:Hn; [|done].
  apply next_consumes in Hn. f_equal. apply IH; lia.
Qed.

Lemma items_eq s :
  items s = match next s with None => [] | Some (a, s') => a :: items s' end.
Proof using next_consumes.
  unfold items at 1. cbn [collect]. destruct (next s) as [[a s']|] eqn:Hn; [|done].
  apply next_consumes in Hn. f_equal. apply collect_enough; lia.
Qed.

(** Induction along the iteration. *)
Lemma items_ind (P : S -> Prop) :
  (forall s, next s = None -> P s) ->
  (forall s a s', next s = Some (a, s') -> P s' -> P s) ->
  forall s, P s.
Proof using next_consumes.
  intros H0 H1 s. remember (size s) as n eqn:Hn. revert s Hn.
  induction n as [n IH] using lt_wf_ind. intros s ->.
  destruct (next s) as [[a s']|] eqn:Hs; [|by apply H0].
  eapply H1; [done|]. eapply IH; [by eapply next_consumes|done].
Qed.
End iterators.
