(* ===== verification/Bytes.v ===== *)
(** * Byte buffers: slices, and fixed-width integers on the wire

    The codecs every crate of the repository shares.  [slice] is Rust's
    [buf[i..j]] and panics out of range; [get_range] is [buf.get(i..j)] and
    answers [None].  Integers cross the wire big-endian (EAPOL, DHCP),
    little-endian (802.11 elements) or native-endian (netlink); the last is a
    parameter, so the netlink results hold on either kind of host. *)
From S2P Require Import Prelude.

(** ** Slices *)

(** [buf.get(i..j)] *)
Definition get_range (i j : nat) (l : bytes) : option bytes :=
  if bool_decide (i <= j <= length l)%nat then Some (take (j - i) (drop i l)) else None.
(** [buf[i..j]] *)
Definition slice {E} (i j : nat) (l : bytes) : exec E bytes := expect (get_range i j l).
(** [buf[i]] *)
Definition idx {E} (i : nat) (l : bytes) : exec E Z := expect (l !! i).
(** [buf.get(i..)] *)
Definition get_from (i : nat) (l : bytes) : option bytes :=
  if bool_decide (i <= length l)%nat then Some (drop i l) else None.
(** [buf[i..]] *)
Definition slice_from {E} (i : nat) (l : bytes) : exec E bytes := expect (get_from i l).

(** [buf.resize(buf.len().max(n), fill)] *)
Definition pad_to (n : nat) (fill : Z) (l : bytes) : bytes :=
  l ++ replicate (n - length l) fill.

(** ** Integers *)

Fixpoint le_encode (n : nat) (v : Z) : bytes :=
  match n with
  | O => []
  | S n => v mod 256 :: le_encode n (v / 256)
  end.

Fixpoint le_decode (l : bytes) : Z :=
  match l with
  | [] => 0
  | b :: l => b + 256 * le_decode l
  end.

Definition be_encode (n : nat) (v : Z) : bytes := rev (le_encode n v).
Definition be_decode (l : bytes) : Z := le_decode (rev l).

(** The byte order of the host, which netlink inherits. *)
Class HostEndian := host_big_endian : bool.

Definition ne_encode `{HostEndian} (n : nat) (v : Z) : bytes :=
  if host_big_endian then be_encode n v else le_encode n v.
Definition ne_decode `{HostEndian} (l : bytes) : Z :=
  if host_big_endian then be_decode l else le_decode l.

(** [i32::from_ne_bytes] and [v as i32]: two's complement. *)
Definition to_signed (w v : Z) : Z := if v <? 2 ^ (w - 1) then v else v - 2 ^ w.

(** ** Lemmas *)

(** Bits put together that do not overlap. *)
Lemma lor_split i x y :
  0 <= i -> 0 <= y < 2 ^ i -> Z.lor (x * 2 ^ i) y = x * 2 ^ i + y.
Proof.
  intros Hi Hy. rewrite <- Z.shiftl_mul_pow2 by done.
  rewrite Z.add_nocarry_lxor, Z.lxor_lor; [done| |]; apply Z.bits_inj'; intros n Hn;
    rewrite Z.land_spec, Z.bits_0, Z.shiftl_spec by done.
  all: destruct (Z.ltb_spec n i);
    [rewrite (Z.testbit_neg_r x) by lia; done
    |rewrite (is_uint_testbit i y n) by (unfold is_uint; lia); by rewrite andb_false_r].
Qed.

Lemma length_le_encode n v : length (le_encode n v) = n.
Proof. revert v. induction n as [|n IH]; intros v; cbn; auto. Qed.

Lemma length_be_encode n v : length (be_encode n v) = n.
Proof. unfold be_encode. rewrite length_rev. apply length_le_encode. Qed.

Lemma length_ne_encode `{HostEndian} n v : length (ne_encode n v) = n.
Proof. unfold ne_encode. case_match; auto using length_be_encode, length_le_encode. Qed.

Lemma mod256_u8 v : is_u8 (v mod 256).
Proof. unfold is_uint. pose proof (Z.mod_pos_bound v 256). lia. Qed.

Lemma le_encode_bytes n v : is_bytes (le_encode n v).
Proof. revert v. induction n as [|n IH]; intros v; cbn; constructor; auto using mod256_u8. Qed.

Lemma rev_bytes l : is_bytes l -> is_bytes (rev l).
Proof. intros. by apply Forall_rev. Qed.

Lemma be_encode_bytes n v : is_bytes (be_encode n v).
Proof. apply rev_bytes, le_encode_bytes. Qed.

Lemma ne_encode_bytes `{HostEndian} n v : is_bytes (ne_encode n v).
Proof. unfold ne_encode. case_match; auto using be_encode_bytes, le_encode_bytes. Qed.

Lemma pow_8_S n : 2 ^ (8 * Z.of_nat (S n)) = 256 * 2 ^ (8 * Z.of_nat n).
Proof.
  replace (8 * Z.of_nat (S n)) with (8 + 8 * Z.of_nat n) by lia.
  rewrite Z.pow_add_r by lia. reflexivity.
Qed.

Lemma le_decode_encode n v : is_uint (8 * Z.of_nat n) v -> le_decode (le_encode n v) = v.
Proof.
  unfold is_uint. revert v. induction n as [|n IH]; intros v Hv.
  - cbn in *. lia.
  - rewrite pow_8_S in Hv. cbn [le_encode le_decode]. rewrite IH.
    + rewrite (Z.div_mod v 256) at 3 by lia. lia.
    + split; [apply Z.div_pos; lia|]. apply Z.div_lt_upper_bound; lia.
Qed.

Lemma le_decode_bound l : is_bytes l -> is_uint (8 * Z.of_nat (length l)) (le_decode l).
Proof.
  unfold is_uint. induction 1 as [|b l Hb Hl IH]; [cbn; lia|].
  cbn [length le_decode]. rewrite pow_8_S. change (2 ^ 8) with 256 in Hb. lia.
Qed.

Lemma le_encode_decode l : is_bytes l -> le_encode (length l) (le_decode l) = l.
Proof.
  induction 1 as [|b l Hb Hl IH]; [done|]. cbn. unfold is_uint in Hb.
  change (2 ^ 8) with 256 in Hb.
  replace (b + 256 * le_decode l) with (b + le_decode l * 256) by lia. f_equal.
  - rewrite Z_mod_plus_full. apply Z.mod_small. lia.
  - rewrite Z.div_add, Z.div_small by lia. cbn. apply IH.
Qed.

Lemma be_decode_encode n v : is_uint (8 * Z.of_nat n) v -> be_decode (be_encode n v) = v.
Proof. unfold be_decode, be_encode. rewrite rev_involutive. apply le_decode_encode. Qed.

Lemma be_decode_bound l : is_bytes l -> is_uint (8 * Z.of_nat (length l)) (be_decode l).
Proof.
  intros Hl. unfold be_decode. rewrite <- length_rev.
  apply le_decode_bound, rev_bytes, Hl.
Qed.

Lemma be_encode_decode l : is_bytes l -> be_encode (length l) (be_decode l) = l.
Proof.
  intros Hl. unfold be_encode, be_decode. rewrite <- length_rev.
  rewrite le_encode_decode by by apply rev_bytes. apply rev_involutive.
Qed.

Lemma ne_decode_encode `{HostEndian} n v :
  is_uint (8 * Z.of_nat n) v -> ne_decode (ne_encode n v) = v.
Proof.
  unfold ne_decode, ne_encode. case_match; auto using be_decode_encode, le_decode_encode.
Qed.

(** Fixed widths, as the codecs use them. *)
Lemma be16_roundtrip v : is_u16 v -> be_decode (be_encode 2 v) = v.
Proof. apply (be_decode_encode 2). Qed.
Lemma be32_roundtrip v : is_u32 v -> be_decode (be_encode 4 v) = v.
Proof. apply (be_decode_encode 4). Qed.
Lemma be64_roundtrip v : is_u64 v -> be_decode (be_encode 8 v) = v.
Proof. apply (be_decode_encode 8). Qed.
Lemma le16_roundtrip v : is_u16 v -> le_decode (le_encode 2 v) = v.
Proof. apply (le_decode_encode 2). Qed.

#[export] Hint Rewrite length_le_encode length_be_encode @length_ne_encode : len.
#[export] Hint Rewrite @length_app @length_cons @length_nil @length_replicate
  @length_take @length_drop @length_rev : len.

(** Normalise the lengths of concrete encodings, then [lia]. *)
Ltac len_lia := autorewrite with len in *; cbn [length] in *; lia.

(** *** Slices of concatenations *)

Lemma get_range_Some i j (l : bytes) r :
  get_range i j l = Some r <-> (i <= j <= length l)%nat /\ r = take (j - i) (drop i l).
Proof. unfold get_range. case_bool_decide; naive_solver. Qed.

Lemma get_range_length i j (l : bytes) r : get_range i j l = Some r -> length r = (j - i)%nat.
Proof. intros [? ->]%get_range_Some. rewrite length_take, length_drop. lia. Qed.

Lemma get_range_is_Some i j (l : bytes) : (i <= j <= length l)%nat -> is_Some (get_range i j l).
Proof. intros. unfold get_range. rewrite bool_decide_true by done. by eexists. Qed.

Lemma get_range_bytes i j (l : bytes) r : is_bytes l -> get_range i j l = Some r -> is_bytes r.
Proof. intros ? [? ->]%get_range_Some. by apply Forall_take, Forall_drop. Qed.

(** The middle piece of a concatenation, found by length arithmetic alone. *)
Lemma get_range_mid (a b c : bytes) i j :
  i = length a -> j = (length a + length b)%nat -> get_range i j (a ++ b ++ c) = Some b.
Proof.
  intros -> ->. apply get_range_Some. rewrite !length_app. split; [lia|].
  rewrite drop_app_length. rewrite take_app_length'; [done|lia].
Qed.

Lemma get_range_prefix (b c : bytes) j : j = length b -> get_range 0 j (b ++ c) = Some b.
Proof. intros. by apply (get_range_mid []). Qed.

(** *** Fields at an offset

    [wire_field] finds a field of a wire layout: it skips the pieces in front of the
    offset by their lengths and lands on the one that is there. *)
Lemma get_range_skip (a b : bytes) i j :
  (length a <= i <= j)%nat ->
  get_range i j (a ++ b) = get_range (i - length a) (j - length a) b.
Proof.
  intros Hi. unfold get_range. rewrite length_app, drop_app_ge by lia.
  replace (j - length a - (i - length a))%nat with (j - i)%nat by lia.
  repeat case_bool_decide; try done; lia.
Qed.

Lemma get_range_here (a b : bytes) j : j = length a -> get_range 0 j (a ++ b) = Some a.
Proof. intros ->. by apply get_range_prefix. Qed.

(** The same with the offset still an expression. *)
Lemma get_range_at (a b : bytes) i j :
  i = 0%nat -> j = length a -> get_range i j (a ++ b) = Some a.
Proof. intros -> ->. by apply get_range_prefix. Qed.

Lemma get_range_all_at (a : bytes) i j : i = 0%nat -> j = length a -> get_range i j a = Some a.
Proof. intros -> ->. rewrite <- (app_nil_r a) at 2. by apply get_range_prefix. Qed.

Lemma get_range_all (a : bytes) j : j = length a -> get_range 0 j a = Some a.
Proof. intros ->. rewrite <- (app_nil_r a) at 2. by apply get_range_prefix. Qed.

Lemma get_range_cons (x : Z) (l : bytes) i j :
  get_range (S i) (S j) (x :: l) = get_range i j l.
Proof. unfold get_range. cbn. repeat case_bool_decide; try done; lia. Qed.

Lemma lookup_skip (a b : bytes) i :
  (length a <= i)%nat -> (a ++ b) !! i = b !! (i - length a)%nat.
Proof. apply lookup_app_r. Qed.

Lemma lookup_idx_Some {E} i (l : bytes) x : l !! i = Some x -> @idx E i l = Ok x.
Proof. intros H. unfold idx. by rewrite H. Qed.

Lemma no_panic_idx {E} i (l : bytes) : (i < length l)%nat -> no_panic (@idx E i l).
Proof. intros. by apply no_panic_expect, lookup_lt_is_Some. Qed.

Lemma no_panic_slice {E} i j (l : bytes) : (i <= j <= length l)%nat -> no_panic (@slice E i j l).
Proof. intros. by apply no_panic_expect, get_range_is_Some. Qed.

Lemma no_panic_slice_from {E} i (l : bytes) : (i <= length l)%nat -> no_panic (@slice_from E i l).
Proof.
  intros. apply no_panic_expect. unfold get_from. rewrite bool_decide_true by done. by eexists.
Qed.

Lemma pad_to_length n f l : length (pad_to n f l) = Nat.max n (length l).
Proof. unfold pad_to. rewrite length_app, length_replicate. lia. Qed.

Lemma is_bytes_app (a b : bytes) : is_bytes (a ++ b) <-> is_bytes a /\ is_bytes b.
Proof. apply Forall_app. Qed.

(** A concrete byte list is well formed when each literal is in range. *)
Lemma is_bytes_dec_true (l : bytes) : forallb (fun b => bool_decide (is_u8 b)) l = true -> is_bytes l.
Proof.
  intros H. apply Forall_forall. intros x Hx. rewrite forallb_forall in H.
  eapply bool_decide_eq_true_1, H. by apply list_elem_of_In.
Qed.

(** A boolean property of an octet, checked on all 256. *)
Lemma all_octets (p : Z -> bool) :
  forallb p (map Z.of_nat (seq 0 256)) = true -> forall b, is_u8 b -> p b = true.
Proof.
  intros Hall b Hb. unfold is_uint in Hb. change (2 ^ 8) with 256 in Hb.
  rewrite forallb_forall in Hall. apply Hall. rewrite <- (Z2Nat.id b) by lia.
  apply in_map, in_seq. lia.
Qed.

Ltac wire_skip :=
  match goal with
  | |- get_range (S ?i) (S ?j) (?x :: ?l) = _ => rewrite (get_range_cons x l i j)
  | |- get_range ?i ?j (?x :: ?l) = _ =>
      change (x :: l) with ([x] ++ l);
      rewrite (get_range_skip [x] l i j) by len_lia; cbn [length Nat.sub Nat.add]
  | |- get_range ?i ?j (?a ++ ?b) = _ =>
      rewrite (get_range_skip a b i j) by len_lia;
      autorewrite with len; cbn [length Nat.sub Nat.add]
  end.
Ltac wire_field :=
  first [ reflexivity
        | apply get_range_here; len_lia
        | apply get_range_all; len_lia
        | apply get_range_at; len_lia
        | apply get_range_all_at; len_lia
        | wire_skip; wire_field ].

Lemma slice_field {E} i j (l : bytes) r : get_range i j l = Some r -> @slice E i j l = Ok r.
Proof. intros H. unfold slice. by rewrite H. Qed.
