(* ===== verification/Effects.v ===== *)
(** * Stateful handlers: state, emitted actions and panics in one monad

    The daemon's state machines are written as methods [&mut self] that push
    onto an [out: &mut Vec<Action>].  [act S W A] is that shape: a computation
    over a state [S] and an action list [list W], where [None] is a panic
    (a failed [expect]).  [wp] is its weakest precondition; proving
    [wp m Q s out] proves that [m] does not panic and that it ends in [Q]. *)
From S2P Require Import Prelude.

Section act.
Context {S W : Type}.

Definition act (A : Type) : Type := S -> list W -> option (A * S * list W).

#[global] Instance act_ret : MRet act := fun A a s out => Some (a, s, out).
#[global] Instance act_bind : MBind act := fun A B k m s out =>
  match m s out with
  | Some (a, s', out') => k a s' out'
  | None => None
  end.

Definition emit (w : W) : act unit := fun s out => Some (tt, s, out ++ [w]).
Definition get_state : act S := fun s out => Some (s, s, out).
Definition modify (f : S -> S) : act unit := fun s out => Some (tt, f s, out).
Definition panics {A} : act A := fun _ _ => None.
(** [o.expect(..)] *)
Definition expect_act {A} (o : option A) : act A :=
  match o with Some a => mret a | None => panics end.
Definition when (b : bool) (m : act unit) : act unit := if b then m else mret tt.
(** [if let Some(a) = o { k(a) }], and [let Some(a) = o else { return }]. *)
Definition with_some {A} (o : option A) (k : A -> act unit) : act unit :=
  match o with Some a => k a | None => mret tt end.
Fixpoint for_each {A} (l : list A) (k : A -> act unit) : act unit :=
  match l with
  | [] => mret tt
  | a :: l => _ ← k a; for_each l k
  end.

(** ** Weakest preconditions *)
Definition wp {A} (m : act A) (Q : A -> S -> list W -> Prop) (s : S) (out : list W) : Prop :=
  match m s out with
  | Some (a, s', out') => Q a s' out'
  | None => False
  end.

Lemma wp_ret {A} (a : A) Q s out : Q a s out -> wp (mret a) Q s out.
Proof. done. Qed.

Lemma wp_bind {A B} (m : act A) (k : A -> act B) Q s out :
  wp m (fun a s' out' => wp (k a) Q s' out') s out -> wp (m ≫= k) Q s out.
Proof. unfold wp, mbind, act_bind. by destruct (m s out) as [[[??]?]|]. Qed.

Lemma wp_mono {A} (m : act A) (Q Q' : A -> S -> list W -> Prop) s out :
  wp m Q s out -> (forall a s' out', Q a s' out' -> Q' a s' out') -> wp m Q' s out.
Proof. unfold wp. destruct (m s out) as [[[??]?]|]; auto. Qed.

Lemma wp_emit w Q s out : Q tt s (out ++ [w]) -> wp (emit w) Q s out.
Proof. done. Qed.

Lemma wp_get Q s out : Q s s out -> wp get_state Q s out.
Proof. done. Qed.

Lemma wp_modify f Q s out : Q tt (f s) out -> wp (modify f) Q s out.
Proof. done. Qed.

Lemma wp_expect {A} (o : option A) Q s out :
  (exists a, o = Some a /\ Q a s out) -> wp (expect_act o) Q s out.
Proof. by intros (a & -> & ?). Qed.

Lemma wp_when b m Q s out :
  (b = true -> wp m Q s out) -> (b = false -> Q tt s out) -> wp (when b m) Q s out.
Proof. destruct b; cbn; auto. Qed.

Lemma wp_with_some {A} (o : option A) k Q s out :
  (forall a, o = Some a -> wp (k a) Q s out) -> (o = None -> Q tt s out) ->
  wp (with_some o k) Q s out.
Proof. destruct o; cbn; auto. Qed.

(** Rule for a loop with an invariant on the state and the actions. *)
Lemma wp_for_each {A} (l : list A) k (I : S -> list W -> Prop) s out :
  I s out ->
  (forall a s' out', a ∈ l -> I s' out' -> wp (k a) (fun _ => I) s' out') ->
  wp (for_each l k) (fun _ => I) s out.
Proof.
  revert s out. induction l as [|a l IH]; intros s out HI Hk; cbn; [done|].
  apply wp_bind. eapply wp_mono; [apply Hk; [left|done]|].
  intros [] s' out' HI'. apply IH; [done|]. intros. apply Hk; [by right|done].
Qed.

(** ** What a computation may emit

    [emits P m]: if [m] returns, what it added satisfies [P] -- a bound on the
    actions of a handler that needs no precondition. *)
Section emits.
Context (P : W -> Prop).

Definition emits {A} (m : act A) : Prop :=
  forall s out, Forall P out -> match m s out with Some (_, _, out') => Forall P out' | None => True end.

Lemma emits_ret {A} (a : A) : emits (mret a).
Proof. by intros s out Ho. Qed.

Lemma emits_bind {A B} (m : act A) (k : A -> act B) : emits m -> (forall a, emits (k a)) -> emits (m ≫= k).
Proof.
  intros Hm Hk s out Ho. unfold mbind, act_bind. specialize (Hm s out Ho).
  destruct (m s out) as [[[a s'] out']|]; [by apply Hk|done].
Qed.

Lemma emits_get {B} (k : S -> act B) : (forall s, emits (k s)) -> emits (get_state ≫= k).
Proof. intros Hk. apply emits_bind; [by intros s out Ho|done]. Qed.

Lemma emits_emit w : P w -> emits (emit w).
Proof. intros Hw s out Ho. cbn. apply Forall_app. split; [done|by constructor]. Qed.

Lemma emits_modify f : emits (modify f).
Proof. by intros s out Ho. Qed.

Lemma emits_panics {A} : emits (@panics A).
Proof. done. Qed.

Lemma emits_expect {A} (o : option A) : emits (expect_act o).
Proof. destruct o; [apply emits_ret|apply emits_panics]. Qed.

Lemma emits_when b m : emits m -> emits (when b m).
Proof. intros Hm. destruct b; [exact Hm|apply emits_ret]. Qed.

Lemma emits_with_some {A} (o : option A) k : (forall a, emits (k a)) -> emits (with_some o k).
Proof. intros Hk. destruct o; [apply Hk|apply emits_ret]. Qed.

Lemma emits_for_each {A} (l : list A) k : (forall a, emits (k a)) -> emits (for_each l k).
Proof. intros Hk. induction l; [apply emits_ret|by apply emits_bind]. Qed.
End emits.

(** ** Drifting

    [drifts R m]: if [m] returns, state and output together moved along the
    preorder [R]; no precondition. *)
Section drifts.
Context (R : S * list W -> S * list W -> Prop) `{!PreOrder R}.

Definition drifts_at {A} (m : act A) (s : S) (out : list W) : Prop :=
  match m s out with Some (_, s', out') => R (s, out) (s', out') | None => True end.
Definition drifts {A} (m : act A) : Prop := forall s out, drifts_at m s out.

Lemma drifts_ret {A} (a : A) : drifts (mret a).
Proof. intros s out. unfold drifts_at. cbn. reflexivity. Qed.
Lemma drifts_bind {A B} (m : act A) (k : A -> act B) : drifts m -> (forall a, drifts (k a)) -> drifts (m ≫= k).
Proof.
  intros Hm Hk s out. specialize (Hm s out). unfold drifts_at, mbind, act_bind in *.
  destruct (m s out) as [[[a s'] out']|]; [|done]. specialize (Hk a s' out'). unfold drifts_at in Hk.
  destruct (k a s' out') as [[[b s2] out2]|]; [|done]. by etrans.
Qed.
Lemma drifts_get {B} (k : S -> act B) : (forall s, drifts (k s)) -> drifts (get_state ≫= k).
Proof. intros Hk. apply drifts_bind; [|done]. intros s out. unfold drifts_at. cbn. reflexivity. Qed.
(** Read, then write what was computed from it. *)
Lemma drifts_update (f : S -> S -> S) :
  (forall s out, R (s, out) (f s s, out)) -> drifts (s ← get_state; modify (f s)).
Proof. intros Hf s out. apply Hf. Qed.
Lemma drifts_emit w : (forall s out, R (s, out) (s, out ++ [w])) -> drifts (emit w).
Proof. intros Hw s out. apply Hw. Qed.
Lemma drifts_modify f : (forall s out, R (s, out) (f s, out)) -> drifts (modify f).
Proof. intros Hf s out. apply Hf. Qed.
Lemma drifts_expect {A} (o : option A) : drifts (expect_act o).
Proof. destruct o; [apply drifts_ret|by intros s out]. Qed.
Lemma drifts_when b m : (b = true -> drifts m) -> drifts (when b m).
Proof. intros Hm. destruct b; [by apply Hm|apply drifts_ret]. Qed.
Lemma drifts_with_some {A} (o : option A) k : (forall a, o = Some a -> drifts (k a)) -> drifts (with_some o k).
Proof. intros Hk. destruct o; [by apply Hk|apply drifts_ret]. Qed.
Lemma drifts_for_each {A} (l : list A) k : (forall a, drifts (k a)) -> drifts (for_each l k).
Proof. intros Hk. induction l; [apply drifts_ret|by apply drifts_bind]. Qed.
End drifts.

Lemma wp_and {A} (m : act A) (Q Q' : A -> S -> list W -> Prop) s out :
  wp m Q s out -> wp m Q' s out -> wp m (fun a s' out' => Q a s' out' /\ Q' a s' out') s out.
Proof. unfold wp. by destruct (m s out) as [[[??]?]|]. Qed.

(** ** Partial correctness: what holds if a computation returns *)
Definition wlp {A} (m : act A) (Q : A -> S -> list W -> Prop) (s : S) (out : list W) : Prop :=
  match m s out with Some (a, s', out') => Q a s' out' | None => True end.

Lemma wlp_ret {A} (a : A) (Q : A -> S -> list W -> Prop) s out : Q a s out -> wlp (mret a) Q s out.
Proof. done. Qed.
Lemma wlp_true {A} (m : act A) s out : wlp m (fun _ _ _ => True) s out.
Proof. unfold wlp. by destruct (m s out) as [[[? ?] ?]|]. Qed.
Lemma wlp_bind {A B} (m : act A) (k : A -> act B) Q s out :
  wlp m (fun a s' out' => wlp (k a) Q s' out') s out -> wlp (m ≫= k) Q s out.
Proof. unfold wlp, mbind, act_bind. destruct (m s out) as [[[a s'] out']|]; auto. Qed.
Lemma wlp_mono {A} (m : act A) (Q Q' : A -> S -> list W -> Prop) s out :
  wlp m Q s out -> (forall a s' out', Q a s' out' -> Q' a s' out') -> wlp m Q' s out.
Proof. unfold wlp. destruct (m s out) as [[[a s'] out']|]; auto. Qed.
Lemma wlp_get {B} (k : S -> act B) Q s out : wlp (k s) Q s out -> wlp (get_state ≫= k) Q s out.
Proof. done. Qed.
Lemma wlp_modify f (Q : unit -> S -> list W -> Prop) s out : Q tt (f s) out -> wlp (modify f) Q s out.
Proof. done. Qed.
Lemma wlp_for_each {A} (l : list A) k (I : list A -> S -> list W -> Prop) s out :
  I l s out ->
  (forall a l s' out', I (a :: l) s' out' -> wlp (k a) (fun _ => I l) s' out') ->
  wlp (for_each l k) (fun _ => I []) s out.
Proof.
  intros HI Hk. revert s out HI. induction l as [|a l IH]; intros s out HI; cbn [for_each]; [exact HI|].
  apply wlp_bind. eapply wlp_mono; [by apply Hk|]. intros [] s' out'. apply IH.
Qed.

(** ** Moves

    [moves R m s]: from [s], [m] does not panic and only moves along [R], a
    preorder.  What most of a large handler leaves alone is proved this way,
    rule by rule, without describing what it does. *)
Section moves.
Context (R : S -> S -> Prop) `{!PreOrder R}.

Definition moves {A} (m : act A) (s : S) : Prop := forall out, wp m (fun _ s' _ => R s s') s out.

Lemma moves_ret {A} (a : A) s : moves (mret a) s.
Proof. intros out. apply wp_ret. reflexivity. Qed.

Lemma moves_bind {A B} (m : act A) (k : A -> act B) s :
  moves m s -> (forall a s', R s s' -> moves (k a) s') -> moves (m ≫= k) s.
Proof.
  intros Hm Hk out. apply wp_bind. eapply wp_mono; [apply Hm|]. cbn. intros a s' out' Hs.
  eapply wp_mono; [by apply Hk|]. cbn. intros _ s2 _ H2. by etrans.
Qed.

Lemma moves_get {B} (k : S -> act B) s : moves (k s) s -> moves (get_state ≫= k) s.
Proof. intros Hk out. apply wp_bind, wp_get, Hk. Qed.

Lemma moves_emit w s : moves (emit w) s.
Proof. intros out. apply wp_emit. reflexivity. Qed.

Lemma moves_modify f s : R s (f s) -> moves (modify f) s.
Proof. intros Hf out. by apply wp_modify. Qed.

Lemma moves_when b m s : (b = true -> moves m s) -> moves (when b m) s.
Proof. intros Hm out. apply wp_when; intros; [by apply Hm|reflexivity]. Qed.

Lemma moves_with_some {A} (o : option A) k s : (forall a, o = Some a -> moves (k a) s) -> moves (with_some o k) s.
Proof. intros Hk out. apply wp_with_some; intros; [by apply Hk|reflexivity]. Qed.

Lemma moves_for_each {A} (l : list A) k s :
  (forall a s', R s s' -> a ∈ l -> moves (k a) s') -> moves (for_each l k) s.
Proof.
  intros Hk out. apply (wp_for_each _ _ (fun s' _ => R s s')); [reflexivity|].
  intros a s' out' Ha Hs. eapply wp_mono; [by apply Hk|]. cbn. intros. by etrans.
Qed.

Lemma moves_wp {A} (m : act A) s out (Q : A -> S -> list W -> Prop) :
  moves m s -> (forall a s' out', R s s' -> Q a s' out') -> wp m Q s out.
Proof. intros Hm HQ. eapply wp_mono; [apply Hm|]. cbn. auto. Qed.
End moves.

Lemma moves_mono {A} (R R' : S -> S -> Prop) (m : act A) s :
  (forall s', R s s' -> R' s s') -> moves R m s -> moves R' m s.
Proof. intros HR Hm out. eapply wp_mono; [apply Hm|]. cbn. auto. Qed.
End act.
Arguments act : clear implicits.

(** Step through a computation with the rules above. *)
Ltac wp_step :=
  lazymatch goal with
  | |- wp (mret _) _ _ _ => apply wp_ret
  | |- wp (_ ≫= _) _ _ _ => apply wp_bind
  | |- wp (emit _) _ _ _ => apply wp_emit
  | |- wp get_state _ _ _ => apply wp_get
  | |- wp (modify _) _ _ _ => apply wp_modify
  | |- wp (when _ _) _ _ _ => apply wp_when; intros
  | |- wp (with_some _ _) _ _ _ => apply wp_with_some; intros
  end.
Ltac wp_steps := repeat (wp_step; cbn beta).

(** One rule for the shape of the computation; the leaves are left. *)
Ltac moves_step :=
  lazymatch goal with
  | |- moves _ (mret _) _ => apply moves_ret
  | |- moves _ (get_state ≫= _) _ => apply moves_get
  | |- moves _ (_ ≫= _) _ => apply moves_bind; [exact _| |intros ? ? ?]
  | |- moves _ (emit _) _ => apply moves_emit
  | |- moves _ (modify _) _ => apply moves_modify
  | |- moves _ (when _ _) _ => apply moves_when; intros
  | |- moves _ (with_some _ _) _ => apply moves_with_some; intros
  | |- moves _ (for_each _ _) _ => apply moves_for_each; intros
  | |- moves _ (match ?x with _ => _ end) _ => destruct x eqn:?
  end; cbn beta; try exact _.

(** A handler's bound on what it emits, the handlers it calls by [caw]. *)
Ltac emits_step :=
  lazymatch goal with
  | |- emits _ (mret _) => apply emits_ret
  | |- emits _ (get_state ≫= _) => apply emits_get; intros ?
  | |- emits _ (_ ≫= _) => apply emits_bind; [|intros ?]
  | |- emits _ (emit _) => apply emits_emit
  | |- emits _ (modify _) => apply emits_modify
  | |- emits _ panics => apply emits_panics
  | |- emits _ (expect_act _) => apply emits_expect
  | |- emits _ (when _ _) => apply emits_when
  | |- emits _ (with_some _ _) => apply emits_with_some; intros ?
  | |- emits _ (for_each _ _) => apply emits_for_each; intros ?
  | |- emits _ (match ?x with _ => _ end) => destruct x
  | |- emits _ ?m => solve [eauto with caw]
  | |- _ => solve [done | eauto with caw]
  end; cbv beta zeta.
Ltac solve_emits := repeat emits_step.

Ltac drifts_step :=
  lazymatch goal with
  | |- drifts _ (mret _) => apply drifts_ret, _
  | |- drifts _ (get_state ≫= _) => apply drifts_get; [exact _|intros ?]
  | |- drifts _ (_ ≫= _) => apply drifts_bind; [exact _| |intros ?]
  | |- drifts _ (emit _) => apply drifts_emit; intros ? ?
  | |- drifts _ (modify _) => apply drifts_modify; intros ? ?
  | |- drifts _ (expect_act _) => apply drifts_expect, _
  | |- drifts _ (when _ _) => apply drifts_when; [exact _|intros ?]
  | |- drifts _ (with_some _ _) => apply drifts_with_some; [exact _|intros ? ?]
  | |- drifts _ (for_each _ _) => apply drifts_for_each; [exact _|intros ?]
  | |- drifts _ (match ?x with _ => _ end) => destruct x eqn:?
  end; cbv beta zeta.
