(* ===== verification/Calls.v ===== *)
(** * Methods that change [self] and may fail

    [call S E A] is the shape of [fn m(&mut self) -> Result<A, E>] : the state
    it leaves behind and how it ended.  Unlike [act], an error does not undo the
    changes made before it: what a method wrote stays written when [?] returns
    early, and callers see it.  [after m s Q] states what holds of both. *)
From S2P Require Import Prelude.

Definition call (S E A : Type) : Type := S -> S * exec E A.

Section call.
Context {S E : Type}.

#[global] Instance call_ret : MRet (call S E) := fun A a s => (s, Ok a).
#[global] Instance call_bind : MBind (call S E) := fun A B k m s =>
  match m s with
  | (s', Ok a) => k a s'
  | (s', Err e) => (s', Err e)
  | (s', Panic) => (s', Panic)
  end.

#[global] Instance call_fmap : FMap (call S E) := fun A B f m => a ← m; mret (f a).

Definition self : call S E S := fun s => (s, Ok s).
Definition update (f : S -> S) : call S E unit := fun s => (f s, Ok tt).
Definition throw {A} (e : E) : call S E A := fun s => (s, Err e).
(** A call that does not touch [self]. *)
Definition lift {A} (m : exec E A) : call S E A := fun s => (s, m).
(** [if b { return Err(e) }] *)
Definition throw_if (b : bool) (e : E) : call S E unit := if b then throw e else mret tt.
End call.

(** A call of a method of one field of [self]. *)
Definition zoom {S T E A} (get : S -> T) (set : T -> S -> S) (m : call T E A) : call S E A :=
  fun s => let (t, r) := m (get s) in (set t s, r).

(** ** What holds after a call *)
Definition after {S E A} (m : call S E A) (s : S) (Q : S -> exec E A -> Prop) : Prop :=
  Q (fst (m s)) (snd (m s)).

(** The outcomes of a call that is followed by another: an early exit is the
    exit of the whole. *)
Definition and_then {S E A B} (k : A -> S -> Prop) (Q : S -> exec E B -> Prop)
    (s : S) (r : exec E A) : Prop :=
  match r with Ok a => k a s | Err e => Q s (Err e) | Panic => Q s Panic end.

Section after.
Context {S E : Type}.

Lemma after_mono {A} (m : call S E A) s (Q Q' : S -> exec E A -> Prop) :
  after m s Q -> (forall s' r, Q s' r -> Q' s' r) -> after m s Q'.
Proof. unfold after. auto. Qed.

Lemma after_and {A} (m : call S E A) s (Q Q' : S -> exec E A -> Prop) :
  after m s Q -> after m s Q' -> after m s (fun s' r => Q s' r /\ Q' s' r).
Proof. done. Qed.

Lemma after_ret {A} (a : A) s (Q : S -> exec E A -> Prop) : Q s (Ok a) -> after (mret a) s Q.
Proof. done. Qed.

Lemma after_bind {A B} (m : call S E A) (k : A -> call S E B) s (Q : S -> exec E B -> Prop) :
  after m s (and_then (fun a s' => after (k a) s' Q) Q) -> after (m ≫= k) s Q.
Proof. unfold after, and_then, mbind, call_bind. by destruct (m s) as [s' []]. Qed.

Lemma after_self {B} (k : S -> call S E B) s (Q : S -> exec E B -> Prop) :
  after (k s) s Q -> after (self ≫= k) s Q.
Proof. done. Qed.

Lemma after_update {B} f (k : unit -> call S E B) s (Q : S -> exec E B -> Prop) :
  after (k tt) (f s) Q -> after (update f ≫= k) s Q.
Proof. done. Qed.

Lemma after_lift {A} (m : exec E A) s (Q : S -> exec E A -> Prop) : Q s m -> after (lift m) s Q.
Proof. done. Qed.

Lemma after_lift_bind {A B} (m : exec E A) (k : A -> call S E B) s (Q : S -> exec E B -> Prop) :
  and_then (fun a s' => after (k a) s' Q) Q s m -> after (lift m ≫= k) s Q.
Proof. intros. by apply after_bind. Qed.

Lemma after_throw_if {B} b e (k : unit -> call S E B) s (Q : S -> exec E B -> Prop) :
  (b = true -> Q s (Err e)) -> (b = false -> after (k tt) s Q) -> after (throw_if b e ≫= k) s Q.
Proof. destruct b; intros Ht Hf; [exact (Ht eq_refl)|exact (Hf eq_refl)]. Qed.

Lemma after_zoom {T A} (get : S -> T) set (m : call T E A) s (Q : S -> exec E A -> Prop) :
  after m (get s) (fun t r => Q (set t s) r) -> after (zoom get set m) s Q.
Proof. unfold after, zoom. by destruct (m (get s)). Qed.

(** The same, keeping how the field's call ended. *)
Lemma after_zoom_bind {T A B} (get : S -> T) set (m : call T E A) (k : A -> call S E B) s
    (Q : S -> exec E B -> Prop) :
  (forall t r, m (get s) = (t, r) -> and_then (fun a s' => after (k a) s' Q) Q (set t s) r) ->
  after (zoom get set m ≫= k) s Q.
Proof.
  intros H. apply after_bind. unfold after, zoom. destruct (m (get s)) as [t r]. by apply H.
Qed.
End after.

(** Whatever a call returned, by equation. *)
Lemma after_eq {S E A} (m : call S E A) s (Q : S -> exec E A -> Prop) s' r :
  after m s Q -> m s = (s', r) -> Q s' r.
Proof. unfold after. intros H He. by rewrite He in H. Qed.

Lemma call_bind_ok {S E A B} (m : call S E A) (k : A -> call S E B) s s' a :
  m s = (s', Ok a) -> (m ≫= k) s = k a s'.
Proof. intros H. unfold mbind, call_bind. by rewrite H. Qed.

(** Unfold a call and look at every way it can end. *)
Ltac run_call :=
  unfold after, zoom, mbind, call_bind, self, update, lift, throw_if, throw, mret, call_ret in *;
  repeat first [ case_match | progress cbn in * | progress simplify_eq ].
