(* ===== verification/Text.v ===== *)
(** * Text: UTF-8 the way the standard library reads it

    A Rust [String] is modelled by its UTF-8 octets.  [utf8_lossy] is
    [String::from_utf8_lossy], which DHCP's text fields and the display of an
    SSID go through: every maximal ill-formed subsequence becomes U+FFFD.
    [utf8_step] is one turn of [core::str::lossy::Utf8Chunks]: whether the
    next sequence is well formed, and how many octets it takes. *)
From S2P Require Import Prelude Bytes.

Definition in_range (lo hi b : Z) : bool := (lo <=? b) && (b <=? hi).
Definition is_cont (b : Z) : bool := Z.land b 192 =? 128.

Definition utf8_char_width (b : Z) : Z :=
  if b <? 0x80 then 1
  else if in_range 0xC2 0xDF b then 2
  else if in_range 0xE0 0xEF b then 3
  else if in_range 0xF0 0xF4 b then 4
  else 0.

(** The octet at [i], or zero past the end: [safe_get]. *)
Definition safe_get (l : bytes) (i : nat) : Z := default 0 (l !! i).

(** The second octet of a three- or four-octet sequence. *)
Definition second_ok (b c : Z) : bool :=
  if b =? 0xE0 then in_range 0xA0 0xBF c
  else if b =? 0xED then in_range 0x80 0x9F c
  else if b =? 0xF0 then in_range 0x90 0xBF c
  else if b =? 0xF4 then in_range 0x80 0x8F c
  else in_range 0x80 0xBF c.

(** [(valid, n)]: the next [n >= 1] octets form one character, or do not. *)
Definition utf8_step (b : Z) (l : bytes) : bool * nat :=
  let w := utf8_char_width b in
  if w =? 1 then (true, 1%nat)
  else if w =? 2 then
    if is_cont (safe_get l 0) then (true, 2%nat) else (false, 1%nat)
  else if w =? 3 then
    if second_ok b (safe_get l 0) then
      if is_cont (safe_get l 1) then (true, 3%nat) else (false, 2%nat)
    else (false, 1%nat)
  else if w =? 4 then
    if second_ok b (safe_get l 0) then
      if is_cont (safe_get l 1) then
        if is_cont (safe_get l 2) then (true, 4%nat) else (false, 3%nat)
      else (false, 2%nat)
    else (false, 1%nat)
  else (false, 1%nat).

(** U+FFFD REPLACEMENT CHARACTER *)
Definition replacement : bytes := [0xEF; 0xBF; 0xBD].

(** One chunk, and what is left. *)
Definition utf8_next (l : bytes) : option (bytes * bytes) :=
  match l with
  | [] => None
  | b :: rest =>
      let '(valid, n) := utf8_step b rest in
      Some (if valid then take n l else replacement, drop n l)
  end.

(** The characters of the lossy decoding, each as its octets. *)
Definition utf8_chars_lossy (l : bytes) : list bytes := items utf8_next length l.
Definition utf8_lossy (l : bytes) : bytes := concat (utf8_chars_lossy l).

(** [str::from_utf8]: exactly the octets the lossy decoding leaves alone. *)
Definition from_utf8 (l : bytes) : option bytes :=
  if bool_decide (utf8_lossy l = l) then Some l else None.


Lemma utf8_step_pos b l : (1 <= snd (utf8_step b l))%nat.
Proof. unfold utf8_step. repeat case_match; cbn; lia. Qed.

Lemma utf8_next_consumes l a r : utf8_next l = Some (a, r) -> (length r < length l)%nat.
Proof.
  destruct l as [|b l]; cbn [utf8_next]; [done|].
  pose proof (utf8_step_pos b l) as Hp. destruct (utf8_step b l) as [v n]. cbn in Hp.
  intros [= <- <-]. rewrite length_drop. cbn. lia.
Qed.

Lemma utf8_chars_lossy_eq l :
  utf8_chars_lossy l =
  match utf8_next l with None => [] | Some (c, r) => c :: utf8_chars_lossy r end.
Proof. apply items_eq, utf8_next_consumes. Qed.

(** ASCII is its own decoding. *)
Lemma utf8_lossy_ascii l : Forall (fun b => 0 <= b < 128) l -> utf8_lossy l = l.
Proof.
  unfold utf8_lossy. induction 1 as [|b l Hb Hl IH]; [done|].
  rewrite utf8_chars_lossy_eq. cbn [utf8_next].
  assert (utf8_step b l = (true, 1%nat)) as ->.
  { unfold utf8_step, utf8_char_width. by rewrite (proj2 (Z.ltb_lt b 0x80)) by lia. }
  cbn [take drop concat app]. by rewrite take_0, drop_0, IH.
Qed.

(** ** Control characters

    [char::is_control] is the category Cc: U+0000..U+001F and
    U+007F..U+009F.  [escape_debug] prints those as an escape. *)
Definition char_is_control (c : bytes) : bool :=
  match c with
  | [b] => (b <? 0x20) || (b =? 0x7F)
  | [0xC2; b] => in_range 0x80 0x9F b
  | _ => false
  end.

Definition hex_digit (n : Z) : Z := if n <? 10 then 48 + n else 87 + n.

(** [\u{..}] for the code point [v < 256], no leading zero. *)
Definition escape_unicode (v : Z) : bytes :=
  [92; 117; 123]
    ++ (if v <? 16 then [] else [hex_digit (v / 16)])
    ++ [hex_digit (v mod 16); 125].

Definition escape_debug (c : bytes) : bytes :=
  match c with
  | [0] => [92; 48]
  | [9] => [92; 116]
  | [10] => [92; 110]
  | [13] => [92; 114]
  | [b] => escape_unicode b
  | [_; b] => escape_unicode b
  | _ => c
  end.

Definition ascii_of (s : string) : bytes :=
  map (fun c => Z.of_N (Ascii.N_of_ascii c)) (String.list_ascii_of_string s).

(** ** Re-decoding

    The lossy decoding is made of well-formed characters, and a concatenation
    of well-formed characters decodes to exactly those. *)
Definition valid_char (c : bytes) : Prop := utf8_next c = Some (c, []).

Lemma safe_get_take (l : bytes) i n : (i < n)%nat -> safe_get (take n l) i = safe_get l i.
Proof. intros. unfold safe_get. by rewrite lookup_take_lt. Qed.

Lemma safe_get_app (a b : bytes) i : (i < length a)%nat -> safe_get (a ++ b) i = safe_get a i.
Proof. intros. unfold safe_get. by rewrite lookup_app_l. Qed.

Lemma safe_get_cont (l : bytes) i : is_cont (safe_get l i) = true -> (i < length l)%nat.
Proof.
  unfold safe_get. destruct (l !! i) eqn:Hl; [intros _; by eapply lookup_lt_Some|]. done.
Qed.

Lemma safe_get_second (b : Z) (l : bytes) : second_ok b (safe_get l 0) = true -> (0 < length l)%nat.
Proof.
  unfold safe_get. destruct l; cbn; [|lia]. unfold second_ok. by repeat case_match.
Qed.

(** A valid step looks at its own octets only, and they are all there. *)
Lemma utf8_step_valid b l n :
  utf8_step b l = (true, n) ->
  (n <= S (length l))%nat
  /\ forall l', (forall i, (i < n - 1)%nat -> safe_get l' i = safe_get l i) ->
       utf8_step b l' = (true, n).
Proof.
  unfold utf8_step. intros Hs.
  destruct (utf8_char_width b =? 1) eqn:E1; [simplify_eq; split; [lia|done]|].
  destruct (utf8_char_width b =? 2) eqn:E2.
  { destruct (is_cont (safe_get l 0)) eqn:C0; simplify_eq. apply safe_get_cont in C0 as ?.
    split; [lia|]. intros l' Hl. by rewrite Hl, C0 by lia. }
  destruct (utf8_char_width b =? 3) eqn:E3.
  { destruct (second_ok b (safe_get l 0)) eqn:C0; [|done].
    destruct (is_cont (safe_get l 1)) eqn:C1; simplify_eq. apply safe_get_cont in C1 as ?.
    split; [lia|]. intros l' Hl. by rewrite !Hl, C0, C1 by lia. }
  destruct (utf8_char_width b =? 4) eqn:E4; [|done].
  destruct (second_ok b (safe_get l 0)) eqn:C0; [|done].
  destruct (is_cont (safe_get l 1)) eqn:C1; [|done].
  destruct (is_cont (safe_get l 2)) eqn:C2; simplify_eq. apply safe_get_cont in C2 as ?.
  split; [lia|]. intros l' Hl. by rewrite !Hl, C0, C1, C2 by lia.
Qed.

Lemma utf8_next_valid l c r : utf8_next l = Some (c, r) -> valid_char c.
Proof.
  destruct l as [|b l]; cbn [utf8_next]; [done|].
  destruct (utf8_step b l) as [[] n] eqn:Hs; intros [= <- <-]; [|reflexivity].
  pose proof (utf8_step_pos b l) as Hp. rewrite Hs in Hp. cbn in Hp.
  apply utf8_step_valid in Hs as [Hn Hl]. destruct n as [|n]; [lia|]. cbn [take].
  unfold valid_char. cbn [utf8_next]. rewrite (Hl (take n l)).
  - rewrite take_ge, drop_ge by (cbn [length]; rewrite length_take; lia). done.
  - intros i Hi. apply safe_get_take. lia.
Qed.

Lemma valid_char_app c r : valid_char c -> utf8_next (c ++ r) = Some (c, r).
Proof.
  unfold valid_char. destruct c as [|b c]; [done|]. cbn [utf8_next app].
  destruct (utf8_step b c) as [[] n] eqn:Hs.
  - intros [= Ht Hd]. apply utf8_step_valid in Hs as [Hn Hl].
    assert (n = S (length c)) as ->.
    { assert (length (drop n (b :: c)) = 0%nat) as Hz by by rewrite Hd.
      rewrite length_drop in Hz. cbn [length] in Hz. lia. }
    rewrite Hl by (intros i Hi; apply safe_get_app; lia). cbn [take drop].
    by rewrite take_app_length, drop_app_length.
  - intros [= <- <- _]. discriminate Hs.
Qed.

Lemma utf8_chars_concat cs : Forall valid_char cs -> utf8_chars_lossy (concat cs) = cs.
Proof.
  induction 1 as [|c cs Hc _ IH]; [done|]. cbn [concat].
  rewrite utf8_chars_lossy_eq, valid_char_app by done. by rewrite IH.
Qed.

Lemma utf8_chars_valid l : Forall valid_char (utf8_chars_lossy l).
Proof.
  induction l as [s Hs|s a s' Hs IH] using (items_ind _ _ utf8_next_consumes).
  - rewrite utf8_chars_lossy_eq, Hs. constructor.
  - rewrite utf8_chars_lossy_eq, Hs. constructor; [|done]. by eapply utf8_next_valid.
Qed.

(** The lossy decoding is well formed whatever the octets: decoding it
    again finds the same characters and changes nothing. *)
Theorem utf8_lossy_idempotent l :
  utf8_chars_lossy (utf8_lossy l) = utf8_chars_lossy l /\ utf8_lossy (utf8_lossy l) = utf8_lossy l.
Proof.
  assert (utf8_chars_lossy (utf8_lossy l) = utf8_chars_lossy l) as He
    by apply utf8_chars_concat, utf8_chars_valid.
  split; [done|]. unfold utf8_lossy at 1. by rewrite He.
Qed.

Lemma ascii_valid b : 0 <= b < 128 -> valid_char [b].
Proof.
  intros Hb. unfold valid_char. cbn [utf8_next]. unfold utf8_step, utf8_char_width.
  by rewrite (proj2 (Z.ltb_lt b 0x80)) by lia.
Qed.

(** The characters a printable ASCII string splits into. *)
Definition printable (b : Z) : bool := (0x20 <=? b) && (b <? 0x7F).

Lemma printable_chars s :
  forallb printable s = true ->
  Forall (fun c => valid_char c /\ char_is_control c = false) (map (fun b => [b]) s).
Proof.
  intros Hs. apply Forall_map, Forall_forall. intros b Hb.
  rewrite forallb_forall in Hs. apply list_elem_of_In, Hs in Hb. pose proof Hb as Hp.
  unfold printable in Hb. bool_prop. split; [apply ascii_valid; lia|].
  pose proof (all_octets (fun b => negb (printable b) || negb (char_is_control [b])) eq_refl b) as Ho.
  cbn beta in Ho. rewrite Hp in Ho. apply negb_true_iff, Ho. unfold is_uint. lia.
Qed.

Lemma escape_debug_printable c :
  is_bytes c -> char_is_control c = true -> forallb printable (escape_debug c) = true.
Proof.
  destruct c as [|a [|b [|]]]; intros Hc Hk; try done.
  - rewrite Forall_cons in Hc. destruct Hc as [Ha _].
    pose proof (all_octets (fun a => negb (char_is_control [a]) || forallb printable (escape_debug [a]))
      eq_refl a Ha) as Hall. cbn beta in Hall. by rewrite Hk in Hall.
  - rewrite !Forall_cons in Hc. destruct Hc as (_ & Hb & _).
    assert (Ha : a = 0xC2) by (by cbn in Hk; repeat case_match). subst a.
    pose proof (all_octets (fun b => negb (char_is_control [0xC2; b]) || forallb printable (escape_debug [0xC2; b]))
      eq_refl b Hb) as Hall. cbn beta in Hall. by rewrite Hk in Hall.
  - exfalso. cbn in Hk. by repeat case_match.
Qed.

(** ** Trimming *)

Fixpoint drop_while {A} (p : A -> bool) (l : list A) : list A :=
  match l with [] => [] | x :: l' => if p x then drop_while p l' else l end.

Lemma drop_while_none {A} (p : A -> bool) l : Forall (fun x => p x = false) l -> drop_while p l = l.
Proof. intros Hl. destruct l as [|x l]; [done|]. apply Forall_cons in Hl as [Hx _]. cbn. by rewrite Hx. Qed.

(** [char::is_whitespace], on the character's octets *)
Definition is_whitespace (c : bytes) : bool :=
  match c with
  | [b] => in_range 9 13 b || (b =? 32)
  | [a; b] => (a =? 0xC2) && ((b =? 0x85) || (b =? 0xA0))
  | [a; b; c] =>
      (a =? 0xE1) && (b =? 0x9A) && (c =? 0x80)
      || (a =? 0xE2) && (b =? 0x80) && (in_range 0x80 0x8A c || (c =? 0xA8) || (c =? 0xA9) || (c =? 0xAF))
      || (a =? 0xE2) && (b =? 0x81) && (c =? 0x9F)
      || (a =? 0xE3) && (b =? 0x80) && (c =? 0x80)
  | _ => false
  end.

(** [str::trim] *)
Definition trim (l : bytes) : bytes :=
  concat (rev (drop_while is_whitespace (rev (drop_while is_whitespace (utf8_chars_lossy l))))).

Lemma chars_ascii l : Forall (fun b => 0 <= b < 128) l -> utf8_chars_lossy l = map (fun b => [b]) l.
Proof.
  induction 1 as [|b l Hb _ IH]; [done|]. rewrite utf8_chars_lossy_eq. cbn [utf8_next].
  assert (utf8_step b l = (true, 1%nat)) as ->.
  { unfold utf8_step, utf8_char_width. by rewrite (proj2 (Z.ltb_lt b 0x80)) by lia. }
  cbn [take drop map]. by rewrite take_0, drop_0, IH.
Qed.

(** ** Decimal numbers, as [Display] writes them *)

Fixpoint decimal_aux (fuel : nat) (n : Z) : bytes :=
  match fuel with
  | O => []
  | S fuel => (if n <? 10 then [] else decimal_aux fuel (n / 10)) ++ [48 + n mod 10]
  end.
(** Ten digits hold any [u32]. *)
Definition decimal (n : Z) : bytes := decimal_aux 10 n.

(** [[..].join(sep)] *)
Fixpoint join (sep : bytes) (l : list bytes) : bytes :=
  match l with [] => [] | [x] => x | x :: l => x ++ sep ++ join sep l end.
(** [Display] of [Ipv4Addr] *)
Definition ipv4_text (octets : bytes) : bytes := join [46] (map decimal octets).

(** ** Lines *)

(** [BufRead::read_line]: through the newline, or all there is; what is left,
    and whether there was a newline. *)
Fixpoint take_line (l : bytes) : bytes * bytes * bool :=
  match l with
  | [] => ([], [], false)
  | b :: l => if b =? 10 then ([b], l, true)
              else let '(line, rest, ended) := take_line l in (b :: line, rest, ended)
  end.
