(* ===== verification/Dot11.v ===== *)
(** * 802.11 elements: the crate [caw-80211] (src/crates/caw-80211/src/lib.rs)

    Suite selectors, the RSN and WPA1 elements, the element walk of a beacon,
    and the classification of a network's security. *)
From S2P Require Import Prelude Bytes Text.

Definition EID_SSID : Z := 0.
Definition EID_DS_PARAMS : Z := 3.
Definition EID_RSN : Z := 48.
Definition EID_VENDOR : Z := 221.

(** [type Selector = [u8; 4]] *)
Definition selector : Type := Z * Z * Z * Z.
Definition oui : Type := Z * Z * Z.
Definition OUI_IEEE : oui := (0x00, 0x0f, 0xac).
Definition OUI_MICROSOFT : oui := (0x00, 0x50, 0xf2).
Definition WPA1_VENDOR_TYPE : Z := 1.
Definition RSN_CAP_MFPC : Z := Z.shiftl 1 6.
Definition RSN_CAP_MFPR : Z := Z.shiftl 1 7.

(** [sel[..3]] and [sel[3]] *)
Definition sel_oui (s : selector) : oui := let '(a, b, c, _) := s in (a, b, c).
Definition sel_type (s : selector) : Z := let '(_, _, _, t) := s in t.

Definition selector_bytes (s : selector) : bytes := let '(a, b, c, d) := s in [a; b; c; d].
Definition selector_wf (s : selector) : Prop := is_bytes (selector_bytes s).

(** ** Suites *)

Inductive Cipher :=
| UseGroup | Wep40 | Tkip | Ccmp128 | Wep104 | BipCmac128
| Gcmp128 | Gcmp256 | Ccmp256
| CipherUnknown (s : selector).
#[export] Instance Cipher_eq_dec : EqDecision Cipher.
Proof. solve_decision. Defined.

Definition Cipher_from_selector (sel : selector) : Cipher :=
  if bool_decide (sel_oui sel <> OUI_IEEE) && bool_decide (sel_oui sel <> OUI_MICROSOFT)
  then CipherUnknown sel
  else match sel_type sel with
  | 0 => UseGroup
  | 1 => Wep40
  | 2 => Tkip
  | 4 => Ccmp128
  | 5 => Wep104
  | 6 => BipCmac128
  | 8 => Gcmp128
  | 9 => Gcmp256
  | 10 => Ccmp256
  | _ => CipherUnknown sel
  end.

Inductive Akm :=
| Psk | PskSha256 | Sae | Dot1x | Dot1xSha256 | Owe
| FtPsk | FtSae | FtDot1x | Dot1xSuiteB192
| AkmUnknown (s : selector).
#[export] Instance Akm_eq_dec : EqDecision Akm.
Proof. solve_decision. Defined.

Definition Akm_from_selector (sel : selector) : Akm :=
  if bool_decide (sel_oui sel <> OUI_IEEE) && bool_decide (sel_oui sel <> OUI_MICROSOFT)
  then AkmUnknown sel
  else match sel_type sel with
  | 1 => Dot1x
  | 2 => Psk
  | 3 => FtDot1x
  | 4 => FtPsk
  | 5 => Dot1xSha256
  | 6 => PskSha256
  | 8 => Sae
  | 9 => FtSae
  | 12 => Dot1xSuiteB192
  | 18 => Owe
  | _ => AkmUnknown sel
  end.

Definition is_psk (a : Akm) : bool :=
  match a with Psk | PskSha256 | FtPsk => true | _ => false end.
Definition is_sae (a : Akm) : bool :=
  match a with Sae | FtSae => true | _ => false end.
Definition is_enterprise (a : Akm) : bool :=
  match a with Dot1x | Dot1xSha256 | FtDot1x | Dot1xSuiteB192 => true | _ => false end.

(** ** Security levels *)

Inductive Security :=
| Open | Wep | Wpa1Personal | Wpa1Enterprise | Wpa2Personal | Wpa3Personal
| Wpa2Wpa3Personal | Wpa2Enterprise | Wpa3Enterprise | SecOwe.
#[export] Instance Security_eq_dec : EqDecision Security.
Proof. solve_decision. Defined.

Definition Security_as_str (s : Security) : string :=
  match s with
  | Open => "open"
  | Wep => "WEP"
  | Wpa1Personal => "WPA1-Personal"
  | Wpa1Enterprise => "WPA1-Enterprise"
  | Wpa2Personal => "WPA2-Personal"
  | Wpa3Personal => "WPA3-Personal"
  | Wpa2Wpa3Personal => "WPA2/WPA3-Personal"
  | Wpa2Enterprise => "WPA2-Enterprise"
  | Wpa3Enterprise => "WPA3-Enterprise"
  | SecOwe => "OWE"
  end.

Definition Security_is_open (s : Security) : bool :=
  match s with Open | SecOwe => true | _ => false end.

(** ** SSIDs *)

Definition ssid_is_hidden (ssid : bytes) : bool :=
  match ssid with [] => true | _ => forallb (fun b => b =? 0) ssid end.

(** [impl Display for Ssid], as the octets written to the terminal. *)
Definition ssid_display (ssid : bytes) : bytes :=
  if ssid_is_hidden ssid then ascii_of "<hidden>"
  else concat (map (fun c => if char_is_control c then escape_debug c else c)
                   (utf8_chars_lossy ssid)).

(** ** The element walk *)

Record Element := { el_id : Z; el_payload : bytes; el_raw : bytes }.

(** [Iterator::next] for [Ies]: the element and the rest of the body.  A
    length that lies ends the walk for good. *)
Definition Ies_next (rest : bytes) : option (Element * bytes) :=
  match rest with
  | id :: l :: _ =>
      let total := (2 + Z.to_nat l)%nat in
      if bool_decide (length rest < total)%nat then None
      else
        let raw := take total rest in
        Some ({| el_id := id; el_payload := drop 2 raw; el_raw := raw |}, drop total rest)
  | _ => None
  end.

Definition Ies (body : bytes) : list Element := items Ies_next length body.

(** ** The cursor over an RSN or WPA element *)

(** [Cursor::take]: nothing is consumed when too little is left. *)
Definition cur_take (n : nat) (cur : bytes) : option bytes * bytes :=
  if bool_decide (length cur < n)%nat then (None, cur) else (Some (take n cur), drop n cur).

Definition cur_skip (n : nat) (cur : bytes) : option unit * bytes :=
  let '(r, cur) := cur_take n cur in ((fun _ => tt) <$> r, cur).

Definition cur_u16le (cur : bytes) : option Z * bytes :=
  let '(r, cur) := cur_take 2 cur in (le_decode <$> r, cur).

Definition to_selector (b : bytes) : selector :=
  (nth 0 b 0, nth 1 b 0, nth 2 b 0, nth 3 b 0).

Definition cur_selector (cur : bytes) : option selector * bytes :=
  let '(r, cur) := cur_take 4 cur in (to_selector <$> r, cur).

(** The loop of [Cursor::suite_list]. *)
Fixpoint cur_selectors (count : nat) (cur : bytes) : list selector * bytes :=
  match count with
  | O => ([], cur)
  | S count =>
      match cur_selector cur with
      | (Some sel, cur) => let '(l, cur) := cur_selectors count cur in (sel :: l, cur)
      | (None, cur) => ([], cur)
      end
  end.

Definition cur_suite_list (cur : bytes) : option (list selector) * bytes :=
  match cur_u16le cur with
  | (Some count, cur) =>
      let '(l, cur) := cur_selectors (Z.to_nat count) cur in (Some l, cur)
  | (None, cur) => (None, cur)
  end.

(** ** The RSN element *)

Inductive Error := Truncated | Malformed.
#[export] Instance Error_eq_dec : EqDecision Error.
Proof. solve_decision. Defined.

Record RsnIe := {
  rsn_version : Z;
  rsn_group_cipher : Cipher;
  rsn_pairwise_ciphers : list Cipher;
  rsn_akms : list Akm;
  rsn_capabilities : Z;
  rsn_mfp_capable : bool;
  rsn_mfp_required : bool;
  rsn_group_mgmt_cipher : option Cipher;
  rsn_raw : bytes;
}.
#[export] Instance RsnIe_eq_dec : EqDecision RsnIe.
Proof. solve_decision. Defined.

Definition RsnIe_parse_body (body : bytes) : exec Error RsnIe :=
  let '(version, cur) := cur_u16le body in
  version ← ok_or Truncated version;
  if negb (version =? 1) then Err Malformed else
  let '(group, cur) := cur_selector cur in
  let '(pairwise, cur) := cur_suite_list cur in
  let '(akms, cur) := cur_suite_list cur in
  let '(capabilities, cur) := cur_u16le cur in
  let capabilities := default 0 capabilities in
  let '(pmkids, cur) := cur_u16le cur in
  let pmkids := Z.to_nat (default 0 pmkids) in
  let '(skipped, cur) := cur_skip (pmkids * 16) cur in
  let group_mgmt := match skipped with
                    | Some _ => fst (cur_selector cur)
                    | None => None
                    end in
  Ok {| rsn_version := version;
        rsn_group_cipher := from_option Cipher_from_selector Ccmp128 group;
        rsn_pairwise_ciphers :=
          match pairwise with Some l => map Cipher_from_selector l | None => [Ccmp128] end;
        rsn_akms := match akms with Some l => map Akm_from_selector l | None => [Dot1x] end;
        rsn_capabilities := capabilities;
        rsn_mfp_capable := has_flag capabilities RSN_CAP_MFPC;
        rsn_mfp_required := has_flag capabilities RSN_CAP_MFPR;
        rsn_group_mgmt_cipher := Cipher_from_selector <$> group_mgmt;
        rsn_raw := [] |}.

(** [[id, len, rest @ ..] if rest.len() >= len => &rest[..len]] *)
Definition element_payload (eid : Z) (element : bytes) : exec Error bytes :=
  match element with
  | id :: l :: rest =>
      if (id =? eid) && bool_decide (Z.to_nat l <= length rest)%nat
      then Ok (take (Z.to_nat l) rest) else Err Truncated
  | _ => Err Truncated
  end.

Definition RsnIe_parse (element : bytes) : exec Error RsnIe :=
  payload ← element_payload EID_RSN element;
  ie ← RsnIe_parse_body payload;
  Ok {| rsn_version := rsn_version ie;
        rsn_group_cipher := rsn_group_cipher ie;
        rsn_pairwise_ciphers := rsn_pairwise_ciphers ie;
        rsn_akms := rsn_akms ie;
        rsn_capabilities := rsn_capabilities ie;
        rsn_mfp_capable := rsn_mfp_capable ie;
        rsn_mfp_required := rsn_mfp_required ie;
        rsn_group_mgmt_cipher := rsn_group_mgmt_cipher ie;
        rsn_raw := take (2 + length payload) element |}.

(** ** The WPA1 vendor element *)

Record WpaIe := {
  wpa_version : Z;
  wpa_group_cipher : Cipher;
  wpa_pairwise_ciphers : list Cipher;
  wpa_akms : list Akm;
  wpa_raw : bytes;
}.

Definition WpaIe_parse (element : bytes) : exec Error WpaIe :=
  payload ← element_payload EID_VENDOR element;
  body ← match payload with
         | a :: b :: c :: t :: rest =>
             if (t =? WPA1_VENDOR_TYPE) && bool_decide ((a, b, c) = OUI_MICROSOFT)
             then Ok rest else Err Malformed
         | _ => Err Malformed
         end;
  let '(version, cur) := cur_u16le body in
  version ← ok_or Truncated version;
  if negb (version =? 1) then Err Malformed else
  let '(group, cur) := cur_selector cur in
  let '(pairwise, cur) := cur_suite_list cur in
  let '(akms, cur) := cur_suite_list cur in
  Ok {| wpa_version := version;
        wpa_group_cipher := from_option Cipher_from_selector Tkip group;
        wpa_pairwise_ciphers :=
          match pairwise with Some l => map Cipher_from_selector l | None => [Tkip] end;
        wpa_akms := match akms with Some l => map Akm_from_selector l | None => [Dot1x] end;
        wpa_raw := take (2 + length payload) element |}.

(** ** Classification *)

Definition akms_contain (akms : list Akm) (a : Akm) : bool := bool_decide (a ∈ akms).

Definition from_akms (akms : list Akm) (mfp_required : bool) : option Security :=
  let sae := existsb is_sae akms in
  let psk := existsb is_psk akms in
  let enterprise := existsb is_enterprise akms in
  let owe := akms_contain akms Owe in
  if sae && psk then Some Wpa2Wpa3Personal
  else if sae then Some Wpa3Personal
  else if owe then Some SecOwe
  else if enterprise then
    if mfp_required || akms_contain akms Dot1xSuiteB192
    then Some Wpa3Enterprise else Some Wpa2Enterprise
  else if psk then Some Wpa2Personal
  else None.

Definition classify (rsn : option RsnIe) (wpa : option WpaIe) (privacy : bool) : Security :=
  match (rsn ≫= fun r => from_akms (rsn_akms r) (rsn_mfp_required r)) with
  | Some security => security
  | None =>
      match wpa with
      | Some wpa =>
          if existsb is_enterprise (wpa_akms wpa) then Wpa1Enterprise else Wpa1Personal
      | None => if privacy then Wep else Open
      end
  end.

(** ** Beacons *)

Record BeaconIes := {
  b_ssid : option bytes;
  b_channel : option Z;
  b_rsn : option RsnIe;
  b_wpa : option WpaIe;
}.

Definition BeaconIes_default : BeaconIes :=
  {| b_ssid := None; b_channel := None; b_rsn := None; b_wpa := None |}.

(** One turn of the loop in [BeaconIes::parse]. *)
Definition BeaconIes_step (out : BeaconIes) (el : Element) : BeaconIes :=
  let id := el_id el in
  if (id =? EID_SSID) && is_none (b_ssid out) then
    {| b_ssid := Some (el_payload el); b_channel := b_channel out;
       b_rsn := b_rsn out; b_wpa := b_wpa out |}
  else if (id =? EID_DS_PARAMS) && is_none (b_channel out) then
    {| b_ssid := b_ssid out; b_channel := el_payload el !! 0%nat;
       b_rsn := b_rsn out; b_wpa := b_wpa out |}
  else if (id =? EID_RSN) && is_none (b_rsn out) then
    {| b_ssid := b_ssid out; b_channel := b_channel out;
       b_rsn := to_option (RsnIe_parse (el_raw el)); b_wpa := b_wpa out |}
  else if (id =? EID_VENDOR) && is_none (b_wpa out) then
    {| b_ssid := b_ssid out; b_channel := b_channel out;
       b_rsn := b_rsn out; b_wpa := to_option (WpaIe_parse (el_raw el)) |}
  else out.

Definition BeaconIes_parse (body : bytes) : BeaconIes :=
  fold_left BeaconIes_step (Ies body) BeaconIes_default.

Definition BeaconIes_security (b : BeaconIes) (privacy : bool) : Security :=
  classify (b_rsn b) (b_wpa b) privacy.

(** ** The element walk *)

Lemma Ies_next_consumes s a s' : Ies_next s = Some (a, s') -> (length s' < length s)%nat.
Proof.
  unfold Ies_next. destruct s as [|id [|l s]]; [done|done|]. case_bool_decide; [done|].
  intros [= _ <-]. rewrite length_drop. cbn [length]. lia.
Qed.

Lemma Ies_eq s : Ies s = match Ies_next s with None => [] | Some (a, s') => a :: Ies s' end.
Proof. apply items_eq, Ies_next_consumes. Qed.

(** One element on the air. *)
Definition element_wire (id : Z) (payload : bytes) : bytes := [id; len payload] ++ payload.

Lemma Ies_next_element id payload rest :
  Ies_next (element_wire id payload ++ rest)
  = Some ({| el_id := id; el_payload := payload; el_raw := element_wire id payload |}, rest).
Proof.
  unfold element_wire, Ies_next, len. cbn [app]. rewrite Nat2Z.id.
  rewrite bool_decide_false by (cbn [length]; rewrite length_app; lia).
  change (id :: Z.of_nat (length payload) :: payload ++ rest)
    with ((id :: Z.of_nat (length payload) :: payload) ++ rest).
  rewrite take_app_length', drop_app_length' by done. done.
Qed.

(** The walk is exact: a body of complete elements yields those elements in
    order, each with its octets as received, and a length that lies about what
    follows ends the walk there. *)
Theorem Ies_exact els tail :
  Ies_next tail = None ->
  Ies (concat (map (fun e => element_wire (fst e) (snd e)) els) ++ tail)
  = map (fun e => {| el_id := fst e; el_payload := snd e;
                     el_raw := element_wire (fst e) (snd e) |}) els.
Proof.
  intros Ht. induction els as [|e els IH]; cbn [map concat app].
  - by rewrite Ies_eq, Ht.
  - rewrite <- app_assoc, Ies_eq, Ies_next_element. by rewrite IH.
Qed.

(** Whatever the octets, the elements are consecutive pieces of the body
    from its start: the walk never reads past the body, never overlaps and
    never skips. *)
Theorem Ies_prefix body : exists rest, body = concat (map el_raw (Ies body)) ++ rest.
Proof.
  induction body as [s Hs|s a s' Hs (rest & IH)] using (items_ind _ _ Ies_next_consumes).
  - exists s. by rewrite Ies_eq, Hs.
  - exists rest. rewrite Ies_eq, Hs. cbn [map concat]. rewrite <- app_assoc, <- IH.
    unfold Ies_next in Hs. destruct s as [|id [|l s]]; [done|done|].
    case_bool_decide; [done|]. injection Hs as <- <-. cbn [el_raw app]. by rewrite take_drop.
Qed.

(** ** The cursor *)

Lemma cur_take_app n a rest : length a = n -> cur_take n (a ++ rest) = (Some a, rest).
Proof.
  intros <-. unfold cur_take. rewrite bool_decide_false by (rewrite length_app; lia).
  by rewrite take_app_length, drop_app_length.
Qed.

Lemma cur_u16le_app v rest : is_u16 v -> cur_u16le (le_encode 2 v ++ rest) = (Some v, rest).
Proof.
  intros Hv. unfold cur_u16le. rewrite cur_take_app by apply length_le_encode.
  cbn [fmap option_fmap option_map]. by rewrite le16_roundtrip.
Qed.

Lemma to_selector_bytes s : to_selector (selector_bytes s) = s.
Proof. by destruct s as [[[? ?] ?] ?]. Qed.

Lemma length_selector_bytes s : length (selector_bytes s) = 4%nat.
Proof. by destruct s as [[[? ?] ?] ?]. Qed.

Lemma cur_selector_app s rest : cur_selector (selector_bytes s ++ rest) = (Some s, rest).
Proof.
  unfold cur_selector. rewrite cur_take_app by apply length_selector_bytes.
  cbn [fmap option_fmap option_map]. by rewrite to_selector_bytes.
Qed.

Lemma cur_selectors_app l rest :
  cur_selectors (length l) (concat (map selector_bytes l) ++ rest) = (l, rest).
Proof.
  induction l as [|s l IH]; [done|]. cbn [length cur_selectors map concat].
  rewrite <- app_assoc, cur_selector_app. by rewrite IH.
Qed.

Definition suite_list_wire (l : list selector) : bytes :=
  le_encode 2 (Z.of_nat (length l)) ++ concat (map selector_bytes l).

Lemma cur_suite_list_app l rest :
  is_u16 (Z.of_nat (length l)) -> cur_suite_list (suite_list_wire l ++ rest) = (Some l, rest).
Proof.
  intros Hl. unfold cur_suite_list, suite_list_wire. rewrite <- app_assoc.
  rewrite cur_u16le_app, Nat2Z.id by done. by rewrite cur_selectors_app.
Qed.

(** ** The RSN element *)

Lemma element_payload_wire eid payload rest :
  element_payload eid (element_wire eid payload ++ rest) = Ok payload.
Proof.
  unfold element_wire, element_payload, len. cbn [app]. rewrite Z.eqb_refl, Nat2Z.id.
  rewrite bool_decide_true by (rewrite length_app; lia). cbn [andb]. by rewrite take_app_length.
Qed.

(** The fields an element may carry, in order; each tail may be missing. *)
Definition rsn_wire (group : selector) (pairwise akms : list selector) (caps : Z)
    (pmkids : list bytes) (group_mgmt : option selector) : bytes :=
  le_encode 2 1 ++ selector_bytes group ++ suite_list_wire pairwise ++ suite_list_wire akms
  ++ le_encode 2 caps
  ++ match pmkids, group_mgmt with
     | [], None => []
     | _, _ => le_encode 2 (Z.of_nat (length pmkids)) ++ concat pmkids
               ++ from_option selector_bytes [] group_mgmt
     end.

Definition rsn_of (group : selector) (pairwise akms : list selector) (caps : Z)
    (group_mgmt : option selector) (raw : bytes) : RsnIe :=
  {| rsn_version := 1; rsn_group_cipher := Cipher_from_selector group;
     rsn_pairwise_ciphers := map Cipher_from_selector pairwise;
     rsn_akms := map Akm_from_selector akms; rsn_capabilities := caps;
     rsn_mfp_capable := has_flag caps RSN_CAP_MFPC; rsn_mfp_required := has_flag caps RSN_CAP_MFPR;
     rsn_group_mgmt_cipher := Cipher_from_selector <$> group_mgmt; rsn_raw := raw |}.

Lemma cur_skip_app n a rest : length a = n -> cur_skip n (a ++ rest) = (Some tt, rest).
Proof. intros Ha. unfold cur_skip. by rewrite cur_take_app. Qed.

Lemma length_concat_pmkids (pmkids : list bytes) :
  Forall (fun p => length p = 16%nat) pmkids -> length (concat pmkids) = (length pmkids * 16)%nat.
Proof. induction 1 as [|p l Hp _ IH]; cbn [concat length]; [done|]. rewrite length_app, Hp, IH. lia. Qed.

Lemma RsnIe_parse_body_wire group pairwise akms caps pmkids group_mgmt :
  is_u16 (Z.of_nat (length pairwise)) -> is_u16 (Z.of_nat (length akms)) -> is_u16 caps ->
  is_u16 (Z.of_nat (length pmkids)) -> Forall (fun p => length p = 16%nat) pmkids ->
  RsnIe_parse_body (rsn_wire group pairwise akms caps pmkids group_mgmt)
  = Ok (rsn_of group pairwise akms caps group_mgmt []).
Proof.
  intros Hp Ha Hc Hn Hk. unfold RsnIe_parse_body, rsn_wire.
  rewrite cur_u16le_app by done. cbn [ok_or mbind exec_bind negb Z.eqb Pos.eqb].
  rewrite cur_selector_app, !cur_suite_list_app, cur_u16le_app by done. cbn [default from_option id].
  assert (Htail : forall gm, let '(n, cur) := cur_u16le
      (le_encode 2 (Z.of_nat (length pmkids)) ++ concat pmkids ++ from_option selector_bytes [] gm) in
    cur_skip (Z.to_nat (default 0 n) * 16) cur = (Some tt, from_option selector_bytes [] gm)).
  { intros gm. rewrite cur_u16le_app by done. cbn [default from_option id].
    rewrite Nat2Z.id, <- length_concat_pmkids by done. by apply cur_skip_app. }
  assert (Hgm : forall gm, fst (cur_selector (from_option selector_bytes [] gm)) = gm).
  { intros [s|]; cbn [from_option]; [|done]. rewrite <- (app_nil_r (selector_bytes s)).
    by rewrite cur_selector_app. }
  destruct pmkids as [|p pmkids], group_mgmt as [gm|]; try done;
    match goal with |- context [from_option selector_bytes [] ?o] =>
      specialize (Htail o); specialize (Hgm o) end;
    destruct (cur_u16le _) as [n cur]; rewrite Htail, Hgm; done.
Qed.

Lemma RsnIe_parse_wire group pairwise akms caps pmkids group_mgmt rest :
  is_u16 (Z.of_nat (length pairwise)) -> is_u16 (Z.of_nat (length akms)) -> is_u16 caps ->
  is_u16 (Z.of_nat (length pmkids)) -> Forall (fun p => length p = 16%nat) pmkids ->
  let w := element_wire EID_RSN (rsn_wire group pairwise akms caps pmkids group_mgmt) in
  RsnIe_parse (w ++ rest) = Ok (rsn_of group pairwise akms caps group_mgmt w).
Proof.
  intros. subst w. unfold RsnIe_parse. rewrite element_payload_wire. cbn [mbind exec_bind].
  rewrite RsnIe_parse_body_wire by done. cbn [mbind exec_bind]. f_equal.
  unfold rsn_of. cbn. f_equal. unfold element_wire. cbn [app length take]. f_equal. f_equal.
  by rewrite take_app_length.
Qed.

(** ** SSIDs on a terminal *)

(** The characters an SSID is displayed as. *)
Definition display_chars (ssid : bytes) : list bytes :=
  if ssid_is_hidden ssid then map (fun b => [b]) (ascii_of "<hidden>")
  else concat (map (fun c => if char_is_control c then map (fun b => [b]) (escape_debug c) else [c])
                   (utf8_chars_lossy ssid)).

Lemma concat_singletons (l : bytes) : concat (map (fun b => [b]) l) = l.
Proof. induction l as [|b l IH]; cbn; [done|by rewrite IH]. Qed.

Lemma ssid_display_chars ssid : ssid_display ssid = concat (display_chars ssid).
Proof.
  unfold ssid_display, display_chars. destruct (ssid_is_hidden ssid); [done|].
  induction (utf8_chars_lossy ssid) as [|c cs IH]; [done|]. cbn [map concat].
  rewrite concat_app, IH. f_equal. destruct (char_is_control c); [by rewrite concat_singletons|].
  cbn. by rewrite app_nil_r.
Qed.

Lemma chars_lossy_bytes l : is_bytes l -> Forall is_bytes (utf8_chars_lossy l).
Proof.
  induction l as [s Hs|s a s' Hs IH] using (items_ind _ _ utf8_next_consumes); intros Hb.
  - rewrite utf8_chars_lossy_eq, Hs. constructor.
  - rewrite utf8_chars_lossy_eq, Hs. destruct s as [|b s]; [done|]. cbn [utf8_next] in Hs.
    destruct (utf8_step b s) as [v n]. injection Hs as <- <-. constructor.
    + destruct v; [by apply Forall_take|]. apply (bool_decide_unpack _). vm_compute. exact I.
    + by apply IH, Forall_drop.
Qed.

(** An SSID cannot reach the terminal as a control sequence: whatever
    octets an access point puts in it, the characters displayed are well-formed
    UTF-8 and none of them is a control character. *)
Theorem ssid_display_no_control ssid :
  is_bytes ssid ->
  utf8_chars_lossy (ssid_display ssid) = display_chars ssid
  /\ Forall (fun c => char_is_control c = false) (utf8_chars_lossy (ssid_display ssid)).
Proof.
  intros Hb.
  assert (Hall : Forall (fun c => valid_char c /\ char_is_control c = false) (display_chars ssid)).
  { unfold display_chars. destruct (ssid_is_hidden ssid); [by apply printable_chars|].
    pose proof (chars_lossy_bytes ssid Hb) as Hcb. pose proof (utf8_chars_valid ssid) as Hv.
    induction Hcb as [|c cs Hc _ IH]; [constructor|]. apply Forall_cons in Hv as [Hvc Hv].
    cbn [map concat]. apply Forall_app. split; [|by apply IH].
    destruct (char_is_control c) eqn:Hk; [by apply printable_chars, escape_debug_printable|].
    by constructor. }
  assert (utf8_chars_lossy (ssid_display ssid) = display_chars ssid) as He.
  { rewrite ssid_display_chars. apply utf8_chars_concat. eapply Forall_impl; [exact Hall|]. by intros ? []. }
  split; [done|]. rewrite He. eapply Forall_impl; [exact Hall|]. by intros ? [].
Qed.

(** ** Witnesses *)

Lemma Ies_exact_witness :
  Ies (concat (map (fun e => element_wire (fst e) (snd e)) [(0, [67; 97]); (3, [6])]) ++ [48; 20; 1])
  = map (fun e => {| el_id := fst e; el_payload := snd e;
                     el_raw := element_wire (fst e) (snd e) |}) [(0, [67; 97]); (3, [6])].
Proof. apply Ies_exact. reflexivity. Defined.

Definition hostile_ssid : bytes := [27; 91; 50; 74; 194; 155; 255].

Lemma ssid_display_no_control_witness :
  utf8_chars_lossy (ssid_display hostile_ssid) = display_chars hostile_ssid
  /\ Forall (fun c => char_is_control c = false) (utf8_chars_lossy (ssid_display hostile_ssid)).
Proof. apply ssid_display_no_control. apply (bool_decide_unpack _). vm_compute. exact I. Defined.
