(* ===== verification/Netlink.v ===== *)
(** * The netlink codec: the crate [caw-netlink] (src/crates/caw-netlink/src/lib.rs)

    Message headers, attributes, the request builder and the reply loop.  The
    socket itself is the kernel's: [request_run] is the loop of
    [Socket::request] over the datagrams a receive returned. *)
From S2P Require Import Prelude Bytes.
From S2P Require Text.

Definition HDR_LEN : nat := 16.
Definition ATTR_HDR_LEN : nat := 4.

(** [(len + 3) & !3] *)
Definition align (n : nat) : nat := Z.to_nat (Z.land (Z.of_nat n + 3) (Z.lnot 3)).

Definition NLMSG_NOOP : Z := 1.
Definition NLMSG_ERROR : Z := 2.
Definition NLMSG_DONE : Z := 3.
Definition NLMSG_OVERRUN : Z := 4.
Definition NLM_F_REQUEST : Z := 0x001.
Definition NLM_F_MULTI : Z := 0x002.
Definition NLM_F_ACK : Z := 0x004.
Definition NLM_F_DUMP : Z := 0x300.
Definition NLM_F_REPLACE : Z := 0x100.
Definition NLM_F_CREATE : Z := 0x400.

Inductive Error :=
| ErrIo (errno : Z)
| ErrTruncated
| ErrShortSend
| ErrOverrun
| ErrKernel (errno : Z).
#[export] Instance Error_eq_dec : EqDecision Error.
Proof. solve_decision. Defined.

(** [Socket::next_seq] on the counter alone. *)
Definition next_seq (seq : Z) : Z := wrap 32 (seq + 1).

Section codec.
Context {he : HostEndian}.

(** ** Messages *)

Record Message := {
  msg_len : Z; msg_kind : Z; msg_flags : Z; msg_seq : Z; msg_pid : Z;
  msg_payload : bytes;
}.

(** [T::from_ne_bytes([buf[i], ..])] for the [n] octets at [i]. *)
Definition ne_at {E} (i n : nat) (buf : bytes) : exec E Z :=
  b ← slice i (i + n) buf; Ok (ne_decode b).

Definition Message_parse (buf : bytes) : exec Error Message :=
  if bool_decide (length buf < HDR_LEN)%nat then Err ErrTruncated else
  len ← ne_at 0 4 buf;
  let n := Z.to_nat len in
  if bool_decide (n < HDR_LEN)%nat || bool_decide (length buf < n)%nat
  then Err ErrTruncated else
  kind ← ne_at 4 2 buf;
  flags ← ne_at 6 2 buf;
  seq ← ne_at 8 4 buf;
  pid ← ne_at 12 4 buf;
  payload ← slice HDR_LEN n buf;
  Ok {| msg_len := len; msg_kind := kind; msg_flags := flags; msg_seq := seq;
        msg_pid := pid; msg_payload := payload |}.

(** ** Attributes *)

Record Attr := { attr_kind : Z; attr_payload : bytes }.

Definition attr_u32_of (a : Attr) : option Z := ne_decode <$> get_range 0 4 (attr_payload a).
Definition attr_u8_of (a : Attr) : option Z := attr_payload a !! 0%nat.
(** The octets before the first NUL, [None] without one. *)
Fixpoint until_nul (l : bytes) : option bytes :=
  match l with
  | [] => None
  | b :: l => if b =? 0 then Some [] else cons b <$> until_nul l
  end.
Definition attr_str_of (a : Attr) : option bytes := until_nul (attr_payload a) ≫= Text.from_utf8.

(** [Iterator::next] for [Attrs]. *)
Definition Attrs_next (rest : bytes) : option (Attr * bytes) :=
  if bool_decide (length rest < ATTR_HDR_LEN)%nat then None else
  let n := Z.to_nat (ne_decode (take 2 rest)) in
  let kind := ne_decode (take 2 (drop 2 rest)) in
  if bool_decide (n < ATTR_HDR_LEN)%nat || bool_decide (length rest < n)%nat then None else
  Some ({| attr_kind := kind;
           attr_payload := take (n - ATTR_HDR_LEN) (drop ATTR_HDR_LEN rest) |},
        drop (Nat.min (align n) (length rest)) rest).

Definition Attrs (rest : bytes) : list Attr := items Attrs_next length rest.

(** [Message::attrs] *)
Definition Message_attrs (m : Message) (family_header_len : nat) : list Attr :=
  Attrs (drop (Nat.min (align family_header_len) (length (msg_payload m))) (msg_payload m)).

(** ** The request builder *)

Definition pad (buf : bytes) : bytes := buf ++ replicate ((4 - length buf mod 4) mod 4) 0.

Definition MsgBuilder_new (kind flags seq : Z) : bytes :=
  ne_encode 4 0 ++ ne_encode 2 kind ++ ne_encode 2 flags ++ ne_encode 4 seq ++ ne_encode 4 0.
Definition MsgBuilder_header (buf hdr : bytes) : bytes := pad (buf ++ hdr).
Definition MsgBuilder_attr (buf : bytes) (kind : Z) (data : bytes) : bytes :=
  let n := (ATTR_HDR_LEN + length data)%nat in
  pad (buf ++ ne_encode 2 (wrap 16 (Z.of_nat n)) ++ ne_encode 2 kind ++ data).
Definition MsgBuilder_attr_u32 (buf : bytes) (kind value : Z) : bytes :=
  MsgBuilder_attr buf kind (ne_encode 4 value).
Definition MsgBuilder_attr_str (buf : bytes) (kind : Z) (value : bytes) : bytes :=
  MsgBuilder_attr buf kind (value ++ [0]).
Definition MsgBuilder_finish (buf : bytes) : bytes :=
  ne_encode 4 (wrap 32 (len buf)) ++ drop 4 buf.

(** ** The reply loop *)

Section request.
Context {T : Type} (handler : T -> Message -> exec Error T).

(** What one message, or one datagram, did to the exchange. *)
Inductive reply :=
| Return (r : exec Error T)
| Continue (h : T).

(** The body of the inner loop, for a message already matched on [seq]. *)
Definition on_message (h : T) (m : Message) : reply :=
  if msg_kind m =? NLMSG_DONE then Return (Ok h)
  else if msg_kind m =? NLMSG_ERROR then
    match get_range 0 4 (msg_payload m) with
    | None => Return (Err ErrTruncated)
    | Some b =>
        let code := to_signed 32 (ne_decode b) in
        if code =? 0 then Return (Ok h) else Return (Err (ErrKernel (- code)))
    end
  else if msg_kind m =? NLMSG_NOOP then Continue h
  else if msg_kind m =? NLMSG_OVERRUN then Return (Err ErrOverrun)
  else
    let multi := has_flag (msg_flags m) NLM_F_MULTI in
    match handler h m with
    | Ok h => if multi then Continue h else Return (Ok h)
    | Err e => Return (Err e)
    | Panic => Return Panic
    end.

(** [while rest.len() >= HDR_LEN { .. }]; the fuel bounds the messages one
    datagram can hold, each at least a header long. *)
Fixpoint drain (fuel : nat) (want_seq : Z) (h : T) (rest : bytes) : reply :=
  match fuel with
  | O => Continue h
  | S fuel =>
      if bool_decide (length rest < HDR_LEN)%nat then Continue h else
      match Message_parse rest with
      | Err e => Return (Err e)
      | Panic => Return Panic
      | Ok m =>
          let advance := Nat.min (align (Z.to_nat (msg_len m))) (length rest) in
          if negb (msg_seq m =? want_seq) then drain fuel want_seq h (drop advance rest)
          else match on_message h m with
               | Return r => Return r
               | Continue h => drain fuel want_seq h (drop advance rest)
               end
      end
  end.

(** A receive: the octets delivered, and the datagram's actual length. *)
Record Datagram := { dg_bytes : bytes; dg_actual : nat }.

(** The outer loop over what the kernel delivers; [None] when it has
    delivered nothing that ends the exchange and the call still waits. *)
Fixpoint request_run (want_seq : Z) (h : T) (dgs : list Datagram) : option (exec Error T) :=
  match dgs with
  | [] => None
  | dg :: dgs =>
      if bool_decide (length (dg_bytes dg) < dg_actual dg)%nat then Some (Err ErrOverrun) else
      match drain (S (length (dg_bytes dg))) want_seq h (dg_bytes dg) with
      | Return r => Some r
      | Continue h => request_run want_seq h dgs
      end
  end.

(** [Socket::request], given what the kernel answers. *)
Definition request (msg : bytes) (h : T) (dgs : list Datagram) : option (exec Error T) :=
  match get_range 8 12 msg with
  | None => Some (Err ErrTruncated)
  | Some b => request_run (ne_decode b) h dgs
  end.
End request.

(** A call on a socket takes the next sequence number.  The handler's
    accumulator is what the closure writes to. *)
Definition ask {T} (sock : Z) (req : Z -> bytes) (handler : T -> Message -> exec Error T) (h : T)
  (dgs : list Datagram) : Z * option (exec Error T) :=
  let seq := next_seq sock in (seq, request handler (req seq) h dgs).
(** [|_| Ok(())] *)
Definition ignore (_ : unit) (_ : Message) : exec Error unit := Ok tt.

(** ** Notifications

    The inner loop of both event sockets (sock.rs of caw-nl80211, links.rs of
    cawd): every message of a datagram, as its type and payload, up to the
    first malformed one.  The fuel bounds the messages a datagram can hold. *)
Fixpoint walk (fuel : nat) (rest : bytes) : list (Z * bytes) :=
  match fuel with
  | O => []
  | S fuel =>
      if bool_decide (length rest < HDR_LEN)%nat then [] else
      let n := Z.to_nat (ne_decode (take 4 rest)) in
      if bool_decide (n < HDR_LEN)%nat || bool_decide (length rest < n)%nat then [] else
      let kind := ne_decode (take 2 (drop 4 rest)) in
      (kind, take (n - HDR_LEN) (drop HDR_LEN rest)) :: walk fuel (drop (Nat.min (align n) (length rest)) rest)
  end.

(** What a non-blocking receive may answer. *)
Inductive Recv := Got (dg : Datagram) | Again | Interrupted | RecvFailed (errno : Z).
Definition notifications (dg : Datagram) : list (Z * bytes) :=
  if bool_decide (length (dg_bytes dg) < dg_actual dg)%nat then []
  else walk (S (length (dg_bytes dg))) (dg_bytes dg).
End codec.

(** ** Alignment *)

Lemma align_eq n : align n = ((n + 3) / 4 * 4)%nat.
Proof.
  unfold align. rewrite <- Z.ldiff_land. change 3 with (Z.ones 2) at 2.
  rewrite Z.ldiff_ones_r by lia. rewrite Z.shiftl_mul_pow2, Z.shiftr_div_pow2 by lia.
  change (2 ^ 2) with 4. replace (Z.of_nat n + 3) with (Z.of_nat (n + 3)) by lia.
  change 4 with (Z.of_nat 4). rewrite <- Nat2Z.inj_div, <- Nat2Z.inj_mul. apply Nat2Z.id.
Qed.

(** [align] is the least multiple of four not below its argument. *)
Lemma align_spec n : (n <= align n < n + 4)%nat /\ (align n mod 4 = 0)%nat.
Proof.
  rewrite align_eq. pose proof (Nat.div_mod_eq (n + 3) 4).
  pose proof (Nat.mod_upper_bound (n + 3) 4). split; [lia|].
  apply Nat.Div0.mod_mul.
Qed.

Lemma align_aligned n : (n mod 4 = 0)%nat -> align n = n.
Proof.
  intros Hn. destruct (align_spec n) as [Hr Ha].
  pose proof (Nat.div_mod_eq n 4). pose proof (Nat.div_mod_eq (align n) 4). lia.
Qed.

Lemma pad_length l : length (pad l) = align (length l).
Proof.
  unfold pad. rewrite length_app, length_replicate.
  destruct (align_spec (length l)) as [Hr Ha].
  pose proof (Nat.div_mod_eq (length l) 4) as H1.
  pose proof (Nat.mod_upper_bound (length l) 4) as H2.
  pose proof (Nat.div_mod_eq (align (length l)) 4) as H3.
  destruct (length l mod 4)%nat as [|[|[|[|]]]]; cbn; lia.
Qed.

Lemma pad_app (a b : bytes) : (length a mod 4 = 0)%nat -> pad (a ++ b) = a ++ pad b.
Proof.
  intros Ha. unfold pad. rewrite <- app_assoc.
  replace (length (a ++ b) mod 4)%nat with (length b mod 4)%nat; [done|].
  by rewrite length_app, Nat.Div0.add_mod, Ha, Nat.add_0_l, Nat.Div0.mod_mod.
Qed.

Section codec_laws.
Context {he : HostEndian}.

(** ** The attribute stream *)

Lemma Attrs_next_consumes l a r : Attrs_next l = Some (a, r) -> (length r < length l)%nat.
Proof.
  unfold Attrs_next, ATTR_HDR_LEN. intros H. repeat case_match; simplify_eq. bool_prop.
  rewrite length_drop.
  pose proof (proj1 (align_spec (Z.to_nat (ne_decode (take 2 l))))). lia.
Qed.

Lemma Attrs_eq l :
  Attrs l = match Attrs_next l with None => [] | Some (a, r) => a :: Attrs r end.
Proof. apply items_eq, Attrs_next_consumes. Qed.

Definition attr_wf (a : Attr) : Prop :=
  is_u16 (attr_kind a) /\ is_u16 (Z.of_nat (ATTR_HDR_LEN + length (attr_payload a))).
#[global] Instance attr_wf_dec a : Decision (attr_wf a).
Proof. unfold attr_wf. apply _. Defined.

Definition attr_wire (a : Attr) : bytes :=
  pad (ne_encode 2 (wrap 16 (Z.of_nat (ATTR_HDR_LEN + length (attr_payload a))))
       ++ ne_encode 2 (attr_kind a) ++ attr_payload a).

Lemma MsgBuilder_attr_wire buf a :
  (length buf mod 4 = 0)%nat ->
  MsgBuilder_attr buf (attr_kind a) (attr_payload a) = buf ++ attr_wire a.
Proof. apply pad_app. Qed.

Lemma attr_wire_length a :
  length (attr_wire a) = align (ATTR_HDR_LEN + length (attr_payload a)).
Proof.
  unfold attr_wire. rewrite pad_length, !length_app, !length_ne_encode. f_equal.
Qed.

Lemma attr_wire_aligned a : (length (attr_wire a) mod 4 = 0)%nat.
Proof. rewrite attr_wire_length. apply align_spec. Qed.

Lemma Attrs_next_wire a rest : attr_wf a -> Attrs_next (attr_wire a ++ rest) = Some (a, rest).
Proof.
  intros [Hk Hp]. destruct a as [k d]; cbn in Hk, Hp.
  pose proof (attr_wire_length {| attr_kind := k; attr_payload := d |}) as Hl.
  cbn [attr_payload] in Hl.
  pose proof (proj1 (align_spec (ATTR_HDR_LEN + length d))) as Ha.
  set (n := (ATTR_HDR_LEN + length d)%nat) in *.
  assert (Hn4 : n = (4 + length d)%nat) by reflexivity. clearbody n.
  assert (Hp' : is_u16 (Z.of_nat n)) by (rewrite Hn4; exact Hp).
  assert (Hn : ne_decode (ne_encode 2 (wrap 16 (Z.of_nat n))) = Z.of_nat n).
  { unfold wrap. rewrite Z.mod_small by exact Hp'. by apply (ne_decode_encode 2). }
  assert (Hw : attr_wire {| attr_kind := k; attr_payload := d |}
    = ne_encode 2 (wrap 16 (Z.of_nat n)) ++ ne_encode 2 k ++ d
      ++ replicate (align n - n) 0).
  { rewrite Hn4 in Hl |- *. unfold attr_wire, pad in *. cbn [attr_payload attr_kind] in *.
    rewrite !length_app, !length_ne_encode, length_replicate in Hl.
    rewrite !length_app, !length_ne_encode, <- !app_assoc. unfold ATTR_HDR_LEN in *.
    do 4 f_equal. cbn [Nat.add] in *. lia. }
  unfold Attrs_next, ATTR_HDR_LEN. rewrite length_app, Hl.
  rewrite bool_decide_false by lia.
  rewrite Hw, <- !app_assoc.
  rewrite (take_app_length' (ne_encode 2 _)) by by rewrite length_ne_encode.
  rewrite (drop_app_length' (ne_encode 2 _)) by by rewrite length_ne_encode.
  rewrite (take_app_length' (ne_encode 2 k)) by by rewrite length_ne_encode.
  rewrite Hn, Nat2Z.id, (ne_decode_encode 2) by done.
  rewrite !bool_decide_false by lia. cbn [orb]. rewrite Nat.min_l by lia.
  change (drop 4) with (drop (A := Z) (2 + 2)). rewrite <- drop_drop.
  rewrite (drop_app_length' (ne_encode 2 _)) by by rewrite length_ne_encode.
  rewrite (drop_app_length' (ne_encode 2 k)) by by rewrite length_ne_encode.
  rewrite take_app_length' by lia.
  rewrite !app_assoc, drop_app_length'; [done|].
  rewrite !length_app, !length_ne_encode, length_replicate. lia.
Qed.

Lemma Attrs_wire l : Forall attr_wf l -> Attrs (concat (map attr_wire l)) = l.
Proof.
  induction 1 as [|a l Ha Hl IH]; [done|]. cbn [map concat].
  rewrite Attrs_eq, Attrs_next_wire by done.
  by rewrite IH.
Qed.

(** ** Whole messages *)

(** The request the call sites build: a family header, then attributes. *)
Definition build (kind flags seq : Z) (hdr : bytes) (attrs : list Attr) : bytes :=
  MsgBuilder_finish
    (fold_left (fun buf a => MsgBuilder_attr buf (attr_kind a) (attr_payload a)) attrs
       (MsgBuilder_header (MsgBuilder_new kind flags seq) hdr)).

Lemma MsgBuilder_new_length kind flags seq : length (MsgBuilder_new kind flags seq) = 16%nat.
Proof. unfold MsgBuilder_new. by rewrite !length_app, !length_ne_encode. Qed.

Lemma builder_attrs_wire attrs buf :
  (length buf mod 4 = 0)%nat ->
  fold_left (fun buf a => MsgBuilder_attr buf (attr_kind a) (attr_payload a)) attrs buf
  = buf ++ concat (map attr_wire attrs).
Proof.
  revert buf. induction attrs as [|a attrs IH]; intros buf Hb; cbn [fold_left map concat].
  { by rewrite app_nil_r. }
  rewrite MsgBuilder_attr_wire by done. rewrite IH, app_assoc; [done|].
  rewrite length_app, Nat.Div0.add_mod, Hb, attr_wire_aligned. done.
Qed.

Lemma build_eq kind flags seq hdr attrs :
  build kind flags seq hdr attrs =
  MsgBuilder_finish (MsgBuilder_new kind flags seq ++ pad hdr ++ concat (map attr_wire attrs)).
Proof.
  unfold build. rewrite builder_attrs_wire.
  - unfold MsgBuilder_header. rewrite pad_app by by rewrite MsgBuilder_new_length.
    by rewrite app_assoc.
  - unfold MsgBuilder_header. rewrite pad_length. apply align_spec.
Qed.

Lemma build_length kind flags seq hdr attrs :
  length (build kind flags seq hdr attrs) = (16 + length (pad hdr) + length (concat (map attr_wire attrs)))%nat.
Proof.
  rewrite build_eq. unfold MsgBuilder_finish.
  rewrite length_app, length_ne_encode, length_drop, !length_app, MsgBuilder_new_length. lia.
Qed.

(** The sequence number [Socket::request] reads back out of it. *)
Lemma finish_seq kind flags seq rest :
  get_range 8 12 (MsgBuilder_finish (MsgBuilder_new kind flags seq ++ rest)) = Some (ne_encode 4 seq).
Proof.
  unfold MsgBuilder_finish, MsgBuilder_new. rewrite <- !app_assoc.
  rewrite drop_app_length' by by rewrite length_ne_encode. wire_field.
Qed.
Lemma build_seq kind flags seq hdr attrs : get_range 8 12 (build kind flags seq hdr attrs) = Some (ne_encode 4 seq).
Proof. rewrite build_eq. apply finish_seq. Qed.

Lemma ne_at_field {E} i n (buf : bytes) v :
  get_range i (i + n) buf = Some (ne_encode n v) -> is_uint (8 * Z.of_nat n) v ->
  @ne_at _ E i n buf = Ok v.
Proof. intros H Hv. unfold ne_at, slice. rewrite H. cbn. by rewrite ne_decode_encode. Qed.

(** A header laid out field by field parses back, whatever follows it. *)
Lemma Message_parse_wire n kind flags seq pid payload rest :
  is_u32 n -> is_u16 kind -> is_u16 flags -> is_u32 seq -> is_u32 pid ->
  n = Z.of_nat (16 + length payload) ->
  Message_parse (ne_encode 4 n ++ ne_encode 2 kind ++ ne_encode 2 flags
                 ++ ne_encode 4 seq ++ ne_encode 4 pid ++ payload ++ rest)
  = Ok {| msg_len := n; msg_kind := kind; msg_flags := flags; msg_seq := seq;
          msg_pid := pid; msg_payload := payload |}.
Proof.
  intros Hn Hk Hf Hs Hp Hlen. unfold Message_parse, HDR_LEN.
  assert (Hn' : Z.to_nat n = (16 + length payload)%nat) by lia.
  rewrite bool_decide_false by len_lia.
  erewrite (ne_at_field 0 4); [|wire_field|done]. cbn [mbind exec_bind]. rewrite Hn'.
  rewrite !bool_decide_false by len_lia. cbn [orb].
  erewrite (ne_at_field 4 2); [|wire_field|done]. cbn [mbind exec_bind].
  erewrite (ne_at_field 6 2); [|wire_field|done]. cbn [mbind exec_bind].
  erewrite (ne_at_field 8 4); [|wire_field|done]. cbn [mbind exec_bind].
  erewrite (ne_at_field 12 4); [|wire_field|done]. cbn [mbind exec_bind].
  erewrite slice_field by wire_field. done.
Qed.

(** A request built by [MsgBuilder] parses back to the kind, flags, sequence
    number, length and attributes it was built from, whatever follows it in
    the datagram and whatever the host's byte order. *)
Theorem netlink_build_parse kind flags seq hdr attrs rest :
  is_u16 kind -> is_u16 flags -> is_u32 seq -> Forall attr_wf attrs ->
  is_u32 (len (build kind flags seq hdr attrs)) ->
  exists m, Message_parse (build kind flags seq hdr attrs ++ rest) = Ok m
    /\ msg_kind m = kind /\ msg_flags m = flags /\ msg_seq m = seq
    /\ msg_len m = len (build kind flags seq hdr attrs)
    /\ Message_attrs m (length hdr) = attrs
    /\ msg_payload m = pad hdr ++ concat (map attr_wire attrs).
Proof.
  intros Hk Hf Hs Ha. rewrite build_eq.
  set (payload := pad hdr ++ concat (map attr_wire attrs)).
  assert (Hl : len (MsgBuilder_new kind flags seq ++ payload) = Z.of_nat (16 + length payload)).
  { unfold len. by rewrite length_app, MsgBuilder_new_length. }
  assert (Hfin : MsgBuilder_finish (MsgBuilder_new kind flags seq ++ payload)
    = ne_encode 4 (wrap 32 (Z.of_nat (16 + length payload))) ++ ne_encode 2 kind
      ++ ne_encode 2 flags ++ ne_encode 4 seq ++ ne_encode 4 0 ++ payload).
  { unfold MsgBuilder_finish. rewrite Hl. unfold MsgBuilder_new. rewrite <- !app_assoc.
    rewrite drop_app_length' by by rewrite length_ne_encode. done. }
  assert (Hfl : len (MsgBuilder_finish (MsgBuilder_new kind flags seq ++ payload))
                = Z.of_nat (16 + length payload)).
  { rewrite Hfin. unfold len. by rewrite !length_app, !length_ne_encode. }
  rewrite Hfl, Hfin. intros Hu. unfold wrap. rewrite Z.mod_small by exact Hu.
  rewrite <- !app_assoc. eexists. split; [apply Message_parse_wire; done|].
  cbn. split_and!; try done. unfold Message_attrs. cbn [msg_payload]. unfold payload.
  rewrite length_app, pad_length, Nat.min_l by lia. rewrite <- pad_length, drop_app_length.
  by apply Attrs_wire.
Qed.

(** ** The reply loop *)

Definition message_wf (m : Message) : Prop :=
  is_u32 (msg_len m) /\ is_u16 (msg_kind m) /\ is_u16 (msg_flags m) /\ is_u32 (msg_seq m)
  /\ is_u32 (msg_pid m) /\ msg_len m = Z.of_nat (HDR_LEN + length (msg_payload m)).
#[global] Instance message_wf_dec m : Decision (message_wf m).
Proof. unfold message_wf. apply _. Defined.

Definition message_wire (m : Message) : bytes :=
  ne_encode 4 (msg_len m) ++ ne_encode 2 (msg_kind m) ++ ne_encode 2 (msg_flags m)
  ++ ne_encode 4 (msg_seq m) ++ ne_encode 4 (msg_pid m) ++ pad (msg_payload m).

Section loop.
Context {T : Type} (handler : T -> Message -> exec Error T).

(** What the exchange does, message by message: strays are skipped, the
    handler sees the rest in order, and the first message that ends the
    exchange ends it. *)
Fixpoint exchange (want_seq : Z) (h : T) (ms : list Message) : reply (T := T) :=
  match ms with
  | [] => Continue h
  | m :: ms =>
      if msg_seq m =? want_seq
      then match on_message handler h m with
           | Return r => Return r
           | Continue h => exchange want_seq h ms
           end
      else exchange want_seq h ms
  end.

Lemma message_wire_length m :
  message_wf m -> length (message_wire m) = align (Z.to_nat (msg_len m)).
Proof.
  intros (_ & _ & _ & _ & _ & Hl). unfold message_wire.
  rewrite !length_app, !length_ne_encode, pad_length, Hl, Nat2Z.id, !align_eq. unfold HDR_LEN.
  replace (16 + length (msg_payload m) + 3)%nat with (4 * 4 + (length (msg_payload m) + 3))%nat by lia.
  rewrite (Nat.add_comm (4 * 4)), Nat.div_add by lia. lia.
Qed.

Lemma Message_parse_message_wire m rest :
  message_wf m -> Message_parse (message_wire m ++ rest) = Ok m.
Proof.
  intros (Hn & Hk & Hf & Hs & Hp & Hl). unfold message_wire, pad. rewrite <- !app_assoc.
  rewrite Message_parse_wire by done. by destruct m.
Qed.

Lemma drain_step fuel want_seq h m rest :
  message_wf m ->
  drain handler (S fuel) want_seq h (message_wire m ++ rest) =
  if msg_seq m =? want_seq
  then match on_message handler h m with
       | Return r => Return r
       | Continue h => drain handler fuel want_seq h rest
       end
  else drain handler fuel want_seq h rest.
Proof.
  intros Hm. cbn [drain]. pose proof (message_wire_length m Hm) as Hl.
  pose proof Hm as (_ & _ & _ & _ & _ & Hlen).
  pose proof (proj1 (align_spec (Z.to_nat (msg_len m)))) as Ha. unfold HDR_LEN in *.
  rewrite bool_decide_false by (rewrite length_app; lia).
  rewrite Message_parse_message_wire by done.
  rewrite Nat.min_l by (rewrite length_app; lia).
  rewrite <- Hl, drop_app_length. by destruct (msg_seq m =? want_seq).
Qed.

Lemma drain_exchange fuel want_seq h ms :
  Forall message_wf ms -> (length (concat (map message_wire ms)) < fuel)%nat ->
  drain handler fuel want_seq h (concat (map message_wire ms)) = exchange want_seq h ms.
Proof.
  intros Hms. revert fuel h. induction Hms as [|m ms Hm Hms IH]; intros fuel h Hf.
  { destruct fuel; [lia|]. done. }
  destruct fuel as [|fuel]; [lia|]. cbn [map concat exchange] in *.
  rewrite length_app in Hf. pose proof (message_wire_length m Hm) as Hl.
  pose proof Hm as (_ & _ & _ & _ & _ & Hlen).
  pose proof (proj1 (align_spec (Z.to_nat (msg_len m)))) as Ha. unfold HDR_LEN in *.
  rewrite drain_step by done. case_match.
  - destruct (on_message handler h m); [done|]. apply IH. lia.
  - apply IH. lia.
Qed.

(** A datagram that carries these messages, whole. *)
Definition delivered (ms : list Message) : Datagram :=
  let b := concat (map message_wire ms) in {| dg_bytes := b; dg_actual := length b |}.

Lemma request_exchange msg want_seq h (dgs : list (list Message)) :
  get_range 8 12 msg = Some (ne_encode 4 want_seq) -> is_u32 want_seq ->
  Forall (Forall message_wf) dgs ->
  request handler msg h
    (map delivered dgs)
  = match exchange want_seq h (concat dgs) with
    | Return r => Some r
    | Continue _ => None
    end.
Proof.
  intros Hseq Hu Hd. unfold request. rewrite Hseq, (ne_decode_encode 4) by done. clear Hseq.
  revert h. induction Hd as [|ms dgs Hms Hd IH]; intros h; [done|].
  cbn [map request_run concat delivered dg_bytes dg_actual]. rewrite bool_decide_false by lia.
  rewrite drain_exchange by (done || lia).
  assert (Happ : exchange want_seq h (ms ++ concat dgs) =
    match exchange want_seq h ms with
    | Return r => Return r
    | Continue h => exchange want_seq h (concat dgs)
    end).
  { clear. revert h. induction ms as [|m ms IH]; intros h; cbn; [done|].
    case_match; [case_match; [done|]|]; apply IH. }
  rewrite Happ. destruct (exchange want_seq h ms) as [r|h']; [done|]. apply IH.
Qed.
(** A request over well-formed datagrams does exactly what the
    message-level exchange says: messages of another sequence number are
    invisible, and replies reach the handler in order until the one that
    ends the exchange. *)
Theorem netlink_request_exchange msg want_seq h (dgs : list (list Message)) :
  get_range 8 12 msg = Some (ne_encode 4 want_seq) -> is_u32 want_seq ->
  Forall (Forall message_wf) dgs ->
  request handler msg h
    (map delivered dgs)
  = match exchange want_seq h (concat dgs) with
    | Return r => Some r
    | Continue _ => None
    end.
Proof. apply request_exchange. Qed.

(** A dump: parts that are neither control messages nor the last, then the
    end.  The handler sees the parts in order and stops at its first error. *)
Fixpoint all_parts (h : T) (ms : list Message) : exec Error T :=
  match ms with
  | [] => Ok h
  | m :: ms => h ← handler h m; all_parts h ms
  end.
Definition is_part (want_seq : Z) (m : Message) : Prop :=
  msg_seq m = want_seq /\ msg_kind m ∉ [NLMSG_NOOP; NLMSG_ERROR; NLMSG_DONE; NLMSG_OVERRUN]
  /\ has_flag (msg_flags m) NLM_F_MULTI = true.
#[global] Instance is_part_dec want_seq m : Decision (is_part want_seq m).
Proof. unfold is_part. apply _. Defined.

Lemma exchange_dump want_seq h ms fin :
  Forall (is_part want_seq) ms -> msg_seq fin = want_seq -> msg_kind fin = NLMSG_DONE ->
  exchange want_seq h (ms ++ [fin]) = Return (all_parts h ms).
Proof.
  intros Hms Hs Hk. revert h. induction Hms as [|m ms (Hm & Hc & Hf) _ IH]; intros h.
  - cbn. unfold on_message. by rewrite Hs, Hk, Z.eqb_refl.
  - cbn [app exchange all_parts]. rewrite Hm, Z.eqb_refl. unfold on_message.
    rewrite !elem_of_cons, elem_of_nil in Hc.
    rewrite !(proj2 (Z.eqb_neq (msg_kind m) _)) by tauto. rewrite Hf.
    destruct (handler h m); [apply IH|done..].
Qed.

(** The kernel's answer to a request that asked for an acknowledgement. *)
Lemma exchange_ack want_seq h m code :
  msg_seq m = want_seq -> msg_kind m = NLMSG_ERROR ->
  get_range 0 4 (msg_payload m) = Some (ne_encode 4 (wrap 32 (- code))) -> 0 <= code < 4096 ->
  exchange want_seq h [m] = Return (if code =? 0 then Ok h else Err (ErrKernel code)).
Proof.
  intros Hs Hk Hp Hc. cbn. unfold on_message. rewrite Hs, Hk, Hp, Z.eqb_refl. cbn.
  unfold wrap. rewrite (ne_decode_encode 4) by (apply Z.mod_pos_bound; lia).
  unfold to_signed. destruct (Z.eqb_spec code 0) as [->|Hn]; [done|].
  rewrite Z_mod_nz_opp_full by (rewrite Z.mod_small; lia).
  rewrite Z.mod_small by lia.
  rewrite (proj2 (Z.ltb_ge _ _)) by lia.
  rewrite (proj2 (Z.eqb_neq _ _)) by lia. do 3 f_equal. lia.
Qed.
End loop.

Lemma next_seq_u32 s : is_u32 (next_seq s).
Proof. apply Z.mod_pos_bound. lia. Qed.

(** An acknowledged request: the kernel's code, and nothing else. *)
Lemma ask_ack r kind flags hdr attrs m code :
  let seq := next_seq r in
  message_wf m -> msg_seq m = seq -> msg_kind m = NLMSG_ERROR ->
  get_range 0 4 (msg_payload m) = Some (ne_encode 4 (wrap 32 (- code))) -> 0 <= code < 4096 ->
  ask r (fun seq => build kind flags seq hdr attrs) ignore tt [delivered [m]]
  = (seq, Some (if code =? 0 then Ok tt else Err (ErrKernel code))).
Proof.
  intros seq Hm Hs Hk Hp Hc. unfold ask. fold seq. f_equal.
  change [delivered [m]] with (map delivered [[m]]).
  rewrite (request_exchange _ _ seq) by
    (try apply build_seq; try apply next_seq_u32; repeat constructor; apply Hm).
  cbn [concat app]. by rewrite (exchange_ack _ _ _ _ code).
Qed.

(** A datagram of whole messages is walked to its end. *)
Lemma walk_messages fuel ms :
  Forall message_wf ms -> (length (concat (map message_wire ms)) < fuel)%nat ->
  walk fuel (concat (map message_wire ms)) = map (fun m => (msg_kind m, msg_payload m)) ms.
Proof.
  intros Hms. revert fuel. induction Hms as [|m ms Hm Hms IH]; intros fuel Hf.
  { destruct fuel; [lia|]. done. }
  destruct fuel as [|fuel]; [lia|]. cbn [map concat walk] in *. rewrite length_app in Hf.
  pose proof (message_wire_length m Hm) as Hl. pose proof Hm as (Hn & Hk & _ & _ & _ & Hlen).
  pose proof (proj1 (align_spec (Z.to_nat (msg_len m)))) as Ha. unfold HDR_LEN in *.
  set (rest := concat (map message_wire ms)) in *.
  assert (H0 : take 4 (message_wire m ++ rest) = ne_encode 4 (msg_len m)).
  { unfold message_wire. rewrite <- !app_assoc. by rewrite take_app_length' by by rewrite length_ne_encode. }
  assert (H1 : take 2 (drop 4 (message_wire m ++ rest)) = ne_encode 2 (msg_kind m)).
  { unfold message_wire. rewrite <- !app_assoc. rewrite drop_app_length' by by rewrite length_ne_encode.
    by rewrite take_app_length' by by rewrite length_ne_encode. }
  assert (H2 : take (length (msg_payload m)) (drop 16 (message_wire m ++ rest)) = msg_payload m).
  { unfold message_wire, pad. rewrite <- !app_assoc.
    change 16%nat with (4 + (2 + (2 + (4 + 4))))%nat. rewrite <- !drop_drop.
    rewrite 5!drop_app_length' by by rewrite length_ne_encode. apply take_app_length. }
  rewrite H0, H1, (ne_decode_encode 4), (ne_decode_encode 2) by done.
  rewrite !bool_decide_false by (rewrite ?length_app; lia). cbn [orb].
  replace (Z.to_nat (msg_len m) - 16)%nat with (length (msg_payload m)) by lia. rewrite H2.
  rewrite Nat.min_l by (rewrite length_app; lia). rewrite <- Hl, drop_app_length.
  by rewrite IH by lia.
Qed.

Lemma notifications_delivered ms :
  Forall message_wf ms -> notifications (delivered ms) = map (fun m => (msg_kind m, msg_payload m)) ms.
Proof.
  intros H. unfold notifications, delivered. cbn [dg_bytes dg_actual]. rewrite bool_decide_false by lia.
  apply walk_messages; [done|lia].
Qed.
End codec_laws.

(** ** Witnesses, on a little-endian host *)
Section witnesses.
#[local] Instance little : HostEndian := false.

Definition demo_attrs : list Attr :=
  [{| attr_kind := 3; attr_payload := [1; 2; 3; 4; 5] |}; {| attr_kind := 6; attr_payload := [] |}].

Lemma netlink_build_parse_witness :
  exists m, Message_parse (build 16 5 7 [8; 1; 0; 0] demo_attrs ++ [99]) = Ok m
    /\ msg_kind m = 16 /\ msg_flags m = 5 /\ msg_seq m = 7
    /\ msg_len m = len (build 16 5 7 [8; 1; 0; 0] demo_attrs)
    /\ Message_attrs m 4 = demo_attrs
    /\ msg_payload m = pad [8; 1; 0; 0] ++ concat (map attr_wire demo_attrs).
Proof.
  apply netlink_build_parse; apply (bool_decide_unpack _); vm_compute; exact I.
Defined.

(** A stray of another sequence number, one part of a dump, and its end. *)
Definition demo_reply : list (list Message) :=
  [[{| msg_len := 17; msg_kind := 16; msg_flags := 2; msg_seq := 9; msg_pid := 0; msg_payload := [1] |};
    {| msg_len := 17; msg_kind := 16; msg_flags := 2; msg_seq := 7; msg_pid := 0; msg_payload := [5] |}];
   [{| msg_len := 16; msg_kind := 3; msg_flags := 2; msg_seq := 7; msg_pid := 0; msg_payload := [] |}]].

Lemma netlink_request_exchange_witness :
  request (fun h m => Ok (h ++ msg_payload m)) (replicate 8 0 ++ ne_encode 4 7 ++ replicate 4 0) []
    (map delivered demo_reply)
  = Some (Ok [5]).
Proof.
  rewrite (netlink_request_exchange (fun h m => Ok (h ++ msg_payload m))
    (replicate 8 0 ++ ne_encode 4 7 ++ replicate 4 0) 7 [] demo_reply).
  - vm_compute. reflexivity.
  - vm_compute. reflexivity.
  - apply (bool_decide_unpack _). vm_compute. exact I.
  - apply (bool_decide_unpack _). vm_compute. exact I.
Defined.
End witnesses.
