(* ===== verification/Nl80211.v ===== *)
(** * nl80211 decoding: the crate [caw-nl80211]

    Suite selectors (consts.rs), the masked attribute walk and the nest
    builder (attr.rs), notifications (event.rs) and scan results (bss.rs).
    Radios and the family are in [Wiphy], requests and sockets in [NlMsg]. *)
From S2P Require Import Prelude Bytes Dot11 Netlink.

(** ** consts.rs *)

Definition NL80211_CMD_NEW_SCAN_RESULTS : Z := 34.
Definition NL80211_CMD_SCAN_ABORTED : Z := 35.
Definition NL80211_CMD_AUTHENTICATE : Z := 37.
Definition NL80211_CMD_CONNECT : Z := 46.
Definition NL80211_CMD_DISCONNECT : Z := 48.
Definition NL80211_CMD_FRAME : Z := 59.
Definition NL80211_CMD_EXTERNAL_AUTH : Z := 127.

Definition NL80211_ATTR_WIPHY : Z := 1.
Definition NL80211_ATTR_IFINDEX : Z := 3.
Definition NL80211_ATTR_MAC : Z := 6.
Definition NL80211_ATTR_FRAME : Z := 51.
Definition NL80211_ATTR_SSID : Z := 52.
Definition NL80211_ATTR_REASON_CODE : Z := 54.
Definition NL80211_ATTR_TIMED_OUT : Z := 65.
Definition NL80211_ATTR_DISCONNECTED_BY_AP : Z := 71.
Definition NL80211_ATTR_STATUS_CODE : Z := 72.
Definition NL80211_ATTR_BSSID : Z := 245.
Definition NL80211_ATTR_EXTERNAL_AUTH_ACTION : Z := 260.

Definition NL80211_BSS_BSSID : Z := 1.
Definition NL80211_BSS_FREQUENCY : Z := 2.
Definition NL80211_BSS_CAPABILITY : Z := 5.
Definition NL80211_BSS_INFORMATION_ELEMENTS : Z := 6.
Definition NL80211_BSS_SIGNAL_MBM : Z := 7.
Definition NL80211_BSS_SEEN_MS_AGO : Z := 10.
Definition NL80211_BSS_BEACON_IES : Z := 11.

Definition NL80211_WPA_VERSION_2 : Z := 2.
Definition NL80211_WPA_VERSION_3 : Z := 4.
Definition NL80211_AUTHTYPE_OPEN_SYSTEM : Z := 0.
Definition NL80211_AUTHTYPE_SAE : Z := 4.
Definition NL80211_MFP_NO : Z := 0.
Definition NL80211_MFP_REQUIRED : Z := 1.
Definition NL80211_MFP_OPTIONAL : Z := 2.
Definition NL80211_EXTERNAL_AUTH_ABORT : Z := 1.

(** [suite]: the kernel's SUITE() macro. *)
Definition suite (o : oui) (suite_type : Z) : Z :=
  let '(a, b, c) := o in be_decode [a; b; c; suite_type].
Definition ieee (suite_type : Z) : Z := suite OUI_IEEE suite_type.

Definition WLAN_CIPHER_SUITE_USE_GROUP : Z := ieee 0.
Definition WLAN_CIPHER_SUITE_CCMP : Z := ieee 4.

Definition cipher_suite (c : Cipher) : option Z :=
  match c with
  | UseGroup => None
  | Wep40 => Some (ieee 1)
  | Tkip => Some (ieee 2)
  | Ccmp128 => Some (ieee 4)
  | Wep104 => Some (ieee 5)
  | BipCmac128 => Some (ieee 6)
  | Gcmp128 => Some (ieee 8)
  | Gcmp256 => Some (ieee 9)
  | Ccmp256 => Some (ieee 10)
  | CipherUnknown sel => Some (be_decode (selector_bytes sel))
  end.

Definition akm_suite (a : Akm) : Z :=
  match a with
  | Psk => ieee 2
  | PskSha256 => ieee 6
  | Sae => ieee 8
  | Dot1x => ieee 1
  | Dot1xSha256 => ieee 5
  | Owe => ieee 18
  | FtPsk => ieee 4
  | FtSae => ieee 9
  | FtDot1x => ieee 3
  | Dot1xSuiteB192 => ieee 12
  | AkmUnknown sel => be_decode (selector_bytes sel)
  end.

(** ** attr.rs *)

Definition GENL_HDRLEN : nat := 4.
Definition NLA_TYPE_MASK : Z := Z.land (Z.lnot (Z.lor 0x8000 0x4000)) 0xffff.

Section decode.
Context {he : HostEndian}.

Definition genl_cmd (body : bytes) : option Z := body !! 0%nat.

(** [Iterator::next] of this crate's [Attrs]: as netlink's, with the flag
    bits of the type masked off. *)
Definition NAttrs_next (rest : bytes) : option (Attr * bytes) :=
  if bool_decide (length rest < ATTR_HDR_LEN)%nat then None else
  let n := Z.to_nat (ne_decode (take 2 rest)) in
  if bool_decide (n < ATTR_HDR_LEN)%nat || bool_decide (length rest < n)%nat then None else
  let kind := Z.land (ne_decode (take 2 (drop 2 rest))) NLA_TYPE_MASK in
  Some ({| attr_kind := kind;
           attr_payload := take (n - ATTR_HDR_LEN) (drop ATTR_HDR_LEN rest) |},
        drop (Nat.min (align n) (length rest)) rest).

Definition NAttrs (rest : bytes) : list Attr := items NAttrs_next length rest.
Definition NAttrs_of_body (body : bytes) : list Attr :=
  NAttrs (default [] (get_from GENL_HDRLEN body)).
(** [Attrs::find] *)
Definition attr_find (l : list Attr) (kind : Z) : option Attr :=
  find_first (fun a => attr_kind a =? kind) l.

Definition u16_of (a : Attr) : option Z := ne_decode <$> get_range 0 2 (attr_payload a).
Definition i32_of (a : Attr) : option Z := to_signed 32 <$> attr_u32_of a.
Definition mac_of (a : Attr) : option bytes := get_range 0 6 (attr_payload a).

(** [Nest::attr] *)
Definition Nest_attr (buf : bytes) (kind : Z) (data : bytes) : bytes :=
  let n := (ATTR_HDR_LEN + length data)%nat in
  pad (buf ++ ne_encode 2 (wrap 16 (Z.of_nat n)) ++ ne_encode 2 kind ++ data).

(** ** event.rs *)

Inductive ConnectStatus := Success | Refused (code : Z) | TimedOut.
#[global] Instance ConnectStatus_eq_dec : EqDecision ConnectStatus.
Proof. solve_decision. Defined.

Inductive Event :=
| ScanComplete (wiphy ifindex : Z)
| ScanAborted (wiphy ifindex : Z)
| Connected (bssid : option bytes) (status : ConnectStatus)
| Disconnected (reason : Z) (by_ap : bool)
| ExternalAuth (bssid ssid : bytes) (abort : bool)
| Frame (f : bytes)
| Authenticate (f : bytes)
| AuthTimedOut.

Definition Event_decode (body : bytes) : option Event :=
  cmd ← genl_cmd body;
  let find := attr_find (NAttrs_of_body body) in
  if (cmd =? NL80211_CMD_NEW_SCAN_RESULTS) || (cmd =? NL80211_CMD_SCAN_ABORTED) then
    let wiphy := default 0 (find NL80211_ATTR_WIPHY ≫= attr_u32_of) in
    let ifindex := default 0 (find NL80211_ATTR_IFINDEX ≫= attr_u32_of) in
    Some (if cmd =? NL80211_CMD_NEW_SCAN_RESULTS
          then ScanComplete wiphy ifindex else ScanAborted wiphy ifindex)
  else if cmd =? NL80211_CMD_CONNECT then
    Some (Connected (find NL80211_ATTR_MAC ≫= mac_of)
      (if is_some (find NL80211_ATTR_TIMED_OUT) then TimedOut
       else match find NL80211_ATTR_STATUS_CODE ≫= u16_of with
            | None | Some 0 => Success
            | Some code => Refused code
            end))
  else if cmd =? NL80211_CMD_DISCONNECT then
    Some (Disconnected (default 0 (find NL80211_ATTR_REASON_CODE ≫= u16_of))
                       (is_some (find NL80211_ATTR_DISCONNECTED_BY_AP)))
  else if cmd =? NL80211_CMD_EXTERNAL_AUTH then
    bssid ← find NL80211_ATTR_BSSID ≫= mac_of;
    ssid ← attr_payload <$> find NL80211_ATTR_SSID;
    Some (ExternalAuth bssid ssid
            (bool_decide (find NL80211_ATTR_EXTERNAL_AUTH_ACTION ≫= attr_u32_of
                          = Some NL80211_EXTERNAL_AUTH_ABORT)))
  else if cmd =? NL80211_CMD_FRAME then
    a ← find NL80211_ATTR_FRAME; Some (Frame (attr_payload a))
  else if cmd =? NL80211_CMD_AUTHENTICATE then
    if is_some (find NL80211_ATTR_TIMED_OUT) then Some AuthTimedOut
    else a ← find NL80211_ATTR_FRAME; Some (Authenticate (attr_payload a))
  else None.

(** ** bss.rs *)

Definition CAPABILITY_PRIVACY : Z := Z.shiftl 1 4.

Record Bss := {
  bss_bssid : bytes;
  bss_ssid : bytes;
  bss_freq_mhz : Z;
  bss_signal_dbm : Z;
  bss_last_seen_ms : Z;
  bss_capability : Z;
  bss_security : Security;
  bss_rsn : option RsnIe;
}.

(** [Bss::UNKNOWN_SIGNAL], i32::MIN *)
Definition UNKNOWN_SIGNAL : Z := - 2 ^ 31.

(** [(mbm + 50 * mbm.signum()) / 100] on i32: the addition wraps (a release
    build), the division truncates toward zero. *)
Definition mbm_to_dbm (mbm : Z) : Z :=
  Z.quot (to_signed 32 (wrap 32 (mbm + 50 * Z.sgn mbm))) 100.

(** The locals of [Bss::parse]. *)
Record BssLocals := {
  l_bssid : option bytes;
  l_freq_mhz : Z;
  l_signal_dbm : Z;
  l_last_seen_ms : Z;
  l_capability : Z;
  l_ies : bytes;
  l_beacon_ies : bytes;
}.

Definition BssLocals_init : BssLocals :=
  {| l_bssid := None; l_freq_mhz := 0; l_signal_dbm := UNKNOWN_SIGNAL;
     l_last_seen_ms := 0; l_capability := 0; l_ies := []; l_beacon_ies := [] |}.

(** One turn of the attribute loop. *)
Definition Bss_step (l : BssLocals) (a : Attr) : BssLocals :=
  let '(Build_BssLocals bssid freq signal seen cap ies bies) := l in
  let k := attr_kind a in
  if k =? NL80211_BSS_BSSID then
    Build_BssLocals (mac_of a) freq signal seen cap ies bies
  else if k =? NL80211_BSS_FREQUENCY then
    Build_BssLocals bssid (default 0 (attr_u32_of a)) signal seen cap ies bies
  else if k =? NL80211_BSS_CAPABILITY then
    Build_BssLocals bssid freq signal seen (default 0 (u16_of a)) ies bies
  else if k =? NL80211_BSS_SIGNAL_MBM then
    Build_BssLocals bssid freq (from_option mbm_to_dbm UNKNOWN_SIGNAL (i32_of a)) seen cap ies bies
  else if k =? NL80211_BSS_SEEN_MS_AGO then
    Build_BssLocals bssid freq signal (default 0 (attr_u32_of a)) cap ies bies
  else if k =? NL80211_BSS_INFORMATION_ELEMENTS then
    Build_BssLocals bssid freq signal seen cap (attr_payload a) bies
  else if k =? NL80211_BSS_BEACON_IES then
    Build_BssLocals bssid freq signal seen cap ies (attr_payload a)
  else l.

Definition Bss_parse (nested : bytes) : option Bss :=
  let l := fold_left Bss_step (NAttrs nested) BssLocals_init in
  let elements := match l_ies l with [] => l_beacon_ies l | ies => ies end in
  let parsed := BeaconIes_parse elements in
  bssid ← l_bssid l;
  Some {| bss_bssid := bssid;
          bss_ssid := default [] (b_ssid parsed);
          bss_freq_mhz := l_freq_mhz l;
          bss_signal_dbm := l_signal_dbm l;
          bss_last_seen_ms := l_last_seen_ms l;
          bss_capability := l_capability l;
          bss_security := BeaconIes_security parsed (has_flag (l_capability l) CAPABILITY_PRIVACY);
          bss_rsn := b_rsn parsed |}.
End decode.

#[export] Instance Event_eq_dec : EqDecision Event.
Proof. solve_decision. Defined.
#[export] Instance Bss_eq_dec : EqDecision Bss.
Proof. solve_decision. Defined.
