(* ===== verification/Rtnl.v ===== *)
(** * rtnetlink: the crate [caw-rtnl] (src/crates/caw-rtnl/src/lib.rs)

    The requests the daemon makes of the kernel's links, addresses and routes,
    as octets, and what it reads in the answers.  A handle is the socket's
    sequence counter; what the kernel answers to a request is an argument, the
    datagrams it delivers.  Whether an interface has a radio is read from
    sysfs: [sysfs] says whether the named path exists. *)
From S2P Require Import Prelude Bytes Text Netlink.

Definition RTM_NEWLINK : Z := 16.
Definition RTM_GETLINK : Z := 18.
Definition RTM_NEWADDR : Z := 20.
Definition RTM_DELADDR : Z := 21.
Definition RTM_GETADDR : Z := 22.
Definition RTM_NEWROUTE : Z := 24.
Definition RTM_DELROUTE : Z := 25.

Definition IFINFOMSG_LEN : nat := 16.
Definition IFADDRMSG_LEN : nat := 8.
Definition RTMSG_LEN : nat := 12.

Definition IFLA_ADDRESS : Z := 1.
Definition IFLA_IFNAME : Z := 3.
Definition IFLA_MTU : Z := 4.
Definition IFLA_OPERSTATE : Z := 16.
Definition IFA_ADDRESS : Z := 1.
Definition IFA_LOCAL : Z := 2.
Definition IFA_BROADCAST : Z := 4.
Definition RTA_DST : Z := 1.
Definition RTA_OIF : Z := 4.
Definition RTA_GATEWAY : Z := 5.
Definition RTA_PRIORITY : Z := 6.

Definition DHCP_PROBE_METRIC : Z := 0x00FFFFFF.
Definition RT_TABLE_MAIN : Z := 254.
Definition RTPROT_BOOT : Z := 3.
Definition RT_SCOPE_UNIVERSE : Z := 0.
Definition RT_SCOPE_LINK : Z := 253.
Definition RTN_UNICAST : Z := 1.
Definition IFF_UP : Z := 0x1.
Definition IFF_LOOPBACK : Z := 0x8.
Definition IFF_RUNNING : Z := 0x40.
Definition IFF_LOWER_UP : Z := 0x10000.
Definition AF_UNSPEC : Z := 0.
Definition AF_INET : Z := 2.
Definition AF_INET6 : Z := 10.
Definition ESRCH : Z := 3.

Inductive OperState := Unknown | NotPresent | Down | LowerLayerDown | Testing | Dormant | Up.
#[export] Instance OperState_eq_dec : EqDecision OperState.
Proof. solve_decision. Defined.

Definition OperState_from_raw (v : Z) : OperState :=
  match v with
  | 1 => NotPresent
  | 2 => Down
  | 3 => LowerLayerDown
  | 4 => Testing
  | 5 => Dormant
  | 6 => Up
  | _ => Unknown
  end.

Inductive Kind := Loopback | Ethernet | Wireless.
#[export] Instance Kind_eq_dec : EqDecision Kind.
Proof. solve_decision. Defined.

Record Link := {
  index : Z; name : bytes; mac : option bytes; mtu : Z; flags : Z; oper_state : OperState; kind : Kind;
}.
Definition is_up (l : Link) : bool := has_flag (flags l) IFF_UP.
Definition has_carrier (l : Link) : bool := has_flag (flags l) IFF_LOWER_UP || has_flag (flags l) IFF_RUNNING.

(** [std::net::IpAddr] *)
Inductive IpAddr := V4 (addr : Z) | V6 (octets : bytes).
#[export] Instance IpAddr_eq_dec : EqDecision IpAddr.
Proof. solve_decision. Defined.

Record Address := { a_index : Z; a_addr : IpAddr; a_prefix_len : Z }.

(** [format_mac] *)
Definition hex2 (b : Z) : bytes := [hex_digit (b / 16); hex_digit (b mod 16)].
Definition format_mac (mac : bytes) : bytes :=
  match mac with
  | [] => []
  | b :: mac => hex2 b ++ concat (map (fun b => 58 :: hex2 b) mac)
  end.

Section rtnl.
Context {he : HostEndian} (sysfs : bytes -> bool).

(** ** Family headers *)

(** The bits of an [i32] are those of the [u32] it was cast from. *)
Definition ifinfomsg (family index flags change : Z) : bytes :=
  [family; 0; 0; 0] ++ ne_encode 4 index ++ ne_encode 4 flags ++ ne_encode 4 change.
Definition ifaddrmsg (family prefix_len index : Z) : bytes := [family; prefix_len; 0; 0] ++ ne_encode 4 index.
Definition rtmsg (family dst_len scope : Z) : bytes :=
  [family; dst_len; 0; 0; RT_TABLE_MAIN; RTPROT_BOOT; scope; RTN_UNICAST; 0; 0; 0; 0].

(** ** Reading *)

Definition parse_ip (family : Z) (b : bytes) : option IpAddr :=
  if (family =? AF_INET) && (len b =? 4) then Some (V4 (be_decode b))
  else if (family =? AF_INET6) && (len b =? 16) then Some (V6 b)
  else None.

Definition classify (name : bytes) (flags : Z) : Kind :=
  if has_flag flags IFF_LOOPBACK then Loopback
  else if sysfs (ascii_of "/sys/class/net/" ++ name ++ ascii_of "/phy80211") then Wireless
  else Ethernet.

(** The locals of the closure in [links], and one turn of its loop. *)
Record LinkLocals := { l_name : bytes; l_mac : option bytes; l_mtu : Z; l_oper : OperState }.
Definition Link_step (l : LinkLocals) (a : Attr) : LinkLocals :=
  let '(Build_LinkLocals name mac mtu oper) := l in
  if attr_kind a =? IFLA_IFNAME then Build_LinkLocals (default [] (attr_str_of a)) mac mtu oper
  else if attr_kind a =? IFLA_MTU then Build_LinkLocals name mac (default 0 (attr_u32_of a)) oper
  else if attr_kind a =? IFLA_OPERSTATE then
    Build_LinkLocals name mac mtu (OperState_from_raw (default 0 (attr_u8_of a)))
  else if (attr_kind a =? IFLA_ADDRESS) && (len (attr_payload a) =? 6) then
    Build_LinkLocals name (Some (attr_payload a)) mtu oper
  else l.

Definition link_of (m : Message) : exec Error Link :=
  let body := msg_payload m in
  if bool_decide (length body < IFINFOMSG_LEN)%nat then Err ErrTruncated else
  index ← ne_at 4 4 body;
  flags ← ne_at 8 4 body;
  let l := fold_left Link_step (Message_attrs m IFINFOMSG_LEN)
             {| l_name := []; l_mac := None; l_mtu := 0; l_oper := Unknown |} in
  Ok {| index := index; name := l_name l; mac := l_mac l; mtu := l_mtu l; flags := flags;
        oper_state := l_oper l; kind := classify (l_name l) flags |}.

(** The same for [addresses]: [local] and [addr]. *)
Definition Address_step (family : Z) (l : option IpAddr * option IpAddr) (a : Attr)
  : option IpAddr * option IpAddr :=
  if attr_kind a =? IFA_LOCAL then (parse_ip family (attr_payload a), snd l)
  else if attr_kind a =? IFA_ADDRESS then (fst l, parse_ip family (attr_payload a))
  else l.

Definition address_of (m : Message) : exec Error (option Address) :=
  let body := msg_payload m in
  if bool_decide (length body < IFADDRMSG_LEN)%nat then Err ErrTruncated else
  family ← idx 0 body;
  prefix_len ← idx 1 body;
  index ← ne_at 4 4 body;
  let l := fold_left (Address_step family) (Message_attrs m IFADDRMSG_LEN) (None, None) in
  Ok ((fun ip => {| a_index := index; a_addr := ip; a_prefix_len := prefix_len |})
        <$> match fst l with Some ip => Some ip | None => snd l end).

(** ** Requests *)

Definition Rtnl : Type := Z.
Definition links_request (seq : Z) : bytes :=
  MsgBuilder_finish (MsgBuilder_header (MsgBuilder_new RTM_GETLINK (Z.lor NLM_F_REQUEST NLM_F_DUMP) seq)
    (ifinfomsg AF_UNSPEC 0 0 0)).
Definition push_link (l : list Link) (m : Message) : exec Error (list Link) :=
  link ← link_of m; Ok (l ++ [link]).
Definition links (r : Rtnl) (dgs : list Datagram) : Rtnl * option (exec Error (list Link)) :=
  let (r, res) := ask r links_request push_link [] dgs in
  (r, (fun res => l ← res; Ok (sort_by_key index l)) <$> res).
Definition link_by_name (r : Rtnl) (n : bytes) (dgs : list Datagram) : Rtnl * option (exec Error (option Link)) :=
  let (r, res) := links r dgs in
  (r, (fun res => l ← res; Ok (find_first (fun l => bool_decide (name l = n)) l)) <$> res).

Definition addresses_request (seq : Z) : bytes :=
  MsgBuilder_finish (MsgBuilder_header (MsgBuilder_new RTM_GETADDR (Z.lor NLM_F_REQUEST NLM_F_DUMP) seq)
    [AF_UNSPEC; 0; 0; 0; 0; 0; 0; 0]).
Definition push_address (l : list Address) (m : Message) : exec Error (list Address) :=
  a ← address_of m; Ok (l ++ option_list a).
Definition addresses (r : Rtnl) (dgs : list Datagram) : Rtnl * option (exec Error (list Address)) :=
  ask r addresses_request push_address [] dgs.

Definition set_up_request (index : Z) (up : bool) (seq : Z) : bytes :=
  MsgBuilder_finish (MsgBuilder_header (MsgBuilder_new RTM_NEWLINK (Z.lor NLM_F_REQUEST NLM_F_ACK) seq)
    (ifinfomsg AF_UNSPEC index (if up then IFF_UP else 0) IFF_UP)).
Definition set_up (r : Rtnl) (index : Z) (up : bool) := ask r (set_up_request index up) ignore tt.

Definition CREATE_OR_REPLACE : Z := Z.lor (Z.lor (Z.lor NLM_F_REQUEST NLM_F_ACK) NLM_F_CREATE) NLM_F_REPLACE.

(** [u32::MAX.checked_shr(prefix_len).unwrap_or(0)] *)
Definition hostmask (prefix_len : Z) : Z := if prefix_len <? 32 then Z.shiftr (2 ^ 32 - 1) prefix_len else 0.
Definition add_address_request (index addr prefix_len seq : Z) : bytes :=
  let brd := Z.lor addr (hostmask prefix_len) in
  let b := MsgBuilder_header (MsgBuilder_new RTM_NEWADDR CREATE_OR_REPLACE seq) (ifaddrmsg AF_INET prefix_len index) in
  let b := MsgBuilder_attr b IFA_LOCAL (be_encode 4 addr) in
  let b := MsgBuilder_attr b IFA_ADDRESS (be_encode 4 addr) in
  let b := MsgBuilder_attr b IFA_BROADCAST (be_encode 4 brd) in
  MsgBuilder_finish b.
Definition add_address (r : Rtnl) (index addr prefix_len : Z) :=
  ask r (add_address_request index addr prefix_len) ignore tt.

Definition del_address_request (index addr prefix_len seq : Z) : bytes :=
  let b := MsgBuilder_header (MsgBuilder_new RTM_DELADDR (Z.lor NLM_F_REQUEST NLM_F_ACK) seq)
             (ifaddrmsg AF_INET prefix_len index) in
  let b := MsgBuilder_attr b IFA_LOCAL (be_encode 4 addr) in
  let b := MsgBuilder_attr b IFA_ADDRESS (be_encode 4 addr) in
  MsgBuilder_finish b.
Definition del_address (r : Rtnl) (index addr prefix_len : Z) :=
  ask r (del_address_request index addr prefix_len) ignore tt.

Definition add_default_route_request (index gateway seq : Z) : bytes :=
  let b := MsgBuilder_header (MsgBuilder_new RTM_NEWROUTE CREATE_OR_REPLACE seq)
             (rtmsg AF_INET 0 RT_SCOPE_UNIVERSE) in
  let b := MsgBuilder_attr b RTA_GATEWAY (be_encode 4 gateway) in
  MsgBuilder_finish (MsgBuilder_attr_u32 b RTA_OIF index).
Definition add_default_route (r : Rtnl) (index gateway : Z) :=
  ask r (add_default_route_request index gateway) ignore tt.

Definition add_broadcast_route_request (index seq : Z) : bytes :=
  let b := MsgBuilder_header (MsgBuilder_new RTM_NEWROUTE CREATE_OR_REPLACE seq) (rtmsg AF_INET 32 RT_SCOPE_LINK) in
  let b := MsgBuilder_attr b RTA_DST [255; 255; 255; 255] in
  MsgBuilder_finish (MsgBuilder_attr_u32 b RTA_OIF index).
Definition add_broadcast_route (r : Rtnl) (index : Z) := ask r (add_broadcast_route_request index) ignore tt.

Definition add_dhcp_probe_route_request (index seq : Z) : bytes :=
  let b := MsgBuilder_header (MsgBuilder_new RTM_NEWROUTE CREATE_OR_REPLACE seq) (rtmsg AF_INET 0 RT_SCOPE_LINK) in
  let b := MsgBuilder_attr_u32 b RTA_OIF index in
  MsgBuilder_finish (MsgBuilder_attr_u32 b RTA_PRIORITY DHCP_PROBE_METRIC).
Definition add_dhcp_probe_route (r : Rtnl) (index : Z) := ask r (add_dhcp_probe_route_request index) ignore tt.

Definition del_dhcp_probe_route_request (index seq : Z) : bytes :=
  let b := MsgBuilder_header (MsgBuilder_new RTM_DELROUTE (Z.lor NLM_F_REQUEST NLM_F_ACK) seq)
             (rtmsg AF_INET 0 RT_SCOPE_LINK) in
  let b := MsgBuilder_attr_u32 b RTA_OIF index in
  MsgBuilder_finish (MsgBuilder_attr_u32 b RTA_PRIORITY DHCP_PROBE_METRIC).
Definition del_dhcp_probe_route (r : Rtnl) (index : Z) (dgs : list Datagram) : Rtnl * option (exec Error unit) :=
  let (r, res) := ask r (del_dhcp_probe_route_request index) ignore tt dgs in
  (r, (fun res => if bool_decide (res = Err (ErrKernel ESRCH)) then Ok tt else res) <$> res).
End rtnl.

(** ** What the requests say, as the kernel parses them *)
Section requests.
Context {he : HostEndian}.

(** ** The link table *)

(** The last attribute that satisfies a predicate. *)
Definition last_of (p : Attr -> bool) (l : list Attr) : option Attr := find_first p (rev l).
Lemma last_of_app p l a : last_of p (l ++ [a]) = if p a then Some a else last_of p l.
Proof. unfold last_of. by rewrite rev_app_distr. Qed.

Definition is_kind (k : Z) (a : Attr) : bool := attr_kind a =? k.
Definition is_mac (a : Attr) : bool := is_kind IFLA_ADDRESS a && (len (attr_payload a) =? 6).

Lemma Link_step_last l :
  fold_left Link_step l {| l_name := []; l_mac := None; l_mtu := 0; l_oper := Unknown |}
  = {| l_name := default [] (last_of (is_kind IFLA_IFNAME) l ≫= attr_str_of);
       l_mac := attr_payload <$> last_of is_mac l;
       l_mtu := default 0 (last_of (is_kind IFLA_MTU) l ≫= attr_u32_of);
       l_oper := OperState_from_raw (default 0 (last_of (is_kind IFLA_OPERSTATE) l ≫= attr_u8_of)) |}.
Proof.
  induction l as [|a l IH] using rev_ind; [done|].
  rewrite fold_left_app, IH, !last_of_app. cbn [fold_left]. unfold Link_step, is_mac, is_kind.
  destruct (Z.eqb_spec (attr_kind a) IFLA_IFNAME) as [->|_]; [done|].
  destruct (Z.eqb_spec (attr_kind a) IFLA_MTU) as [->|_]; [done|].
  destruct (Z.eqb_spec (attr_kind a) IFLA_OPERSTATE) as [->|_]; [done|].
  by destruct (_ && _).
Qed.

(** What a link message says: an attribute given more than once counts where
    it last stands, and an address counts only if it is six octets. *)
Definition link_info (sysfs : bytes -> bool) (m : Message) : Link :=
  let attrs := Message_attrs m IFINFOMSG_LEN in
  let attr k := last_of (is_kind k) attrs in
  let n := default [] (attr IFLA_IFNAME ≫= attr_str_of) in
  let f := ne_decode (take 4 (drop 8 (msg_payload m))) in
  {| index := ne_decode (take 4 (drop 4 (msg_payload m))); name := n;
     mac := attr_payload <$> last_of is_mac attrs;
     mtu := default 0 (attr IFLA_MTU ≫= attr_u32_of); flags := f;
     oper_state := OperState_from_raw (default 0 (attr IFLA_OPERSTATE ≫= attr_u8_of));
     kind := classify sysfs n f |}.

Lemma ne_at_drop {E} i n (l : bytes) : (i + n <= length l)%nat -> @ne_at _ E i n l = Ok (ne_decode (take n (drop i l))).
Proof.
  intros H. unfold ne_at, slice, get_range. rewrite bool_decide_true by lia. cbn.
  do 3 f_equal. lia.
Qed.

Lemma link_of_info sysfs m :
  (IFINFOMSG_LEN <= length (msg_payload m))%nat -> link_of sysfs m = Ok (link_info sysfs m).
Proof.
  unfold IFINFOMSG_LEN. intros H. unfold link_of, IFINFOMSG_LEN. rewrite bool_decide_false by lia.
  rewrite !ne_at_drop by lia. cbn [mbind exec_bind]. by rewrite Link_step_last.
Qed.

Lemma push_link_info sysfs l m :
  (IFINFOMSG_LEN <= length (msg_payload m))%nat -> push_link sysfs l m = Ok (l ++ [link_info sysfs m]).
Proof. intros H. unfold push_link. by rewrite link_of_info. Qed.

Lemma push_links sysfs ms l :
  Forall (fun m => IFINFOMSG_LEN <= length (msg_payload m))%nat ms ->
  all_parts (push_link sysfs) l ms = Ok (l ++ map (link_info sysfs) ms).
Proof.
  intros H. revert l. induction H as [|m ms Hm _ IH]; intros l; cbn [all_parts map].
  { by rewrite app_nil_r. }
  rewrite push_link_info by done. cbn [mbind exec_bind]. by rewrite IH, <- app_assoc.
Qed.

(** The link table the daemon works from is the kernel's: over any dump,
    split into datagrams anyhow, [links] returns exactly one entry per link
    message, the one [link_info] reads in it, in ascending order of index. *)
Theorem links_exact sysfs r (dgs : list (list Message)) ms fin :
  let seq := next_seq r in
  concat dgs = ms ++ [fin] -> Forall (Forall message_wf) dgs ->
  Forall (is_part seq) ms -> msg_seq fin = seq -> msg_kind fin = NLMSG_DONE ->
  Forall (fun m => IFINFOMSG_LEN <= length (msg_payload m))%nat ms ->
  exists l, links sysfs r (map delivered dgs) = (seq, Some (Ok l))
    /\ l ≡ₚ map (link_info sysfs) ms /\ ascending index l.
Proof.
  intros seq Hd Hwf Hp Hs Hk Hlen. exists (sort_by_key index (map (link_info sysfs) ms)).
  split_and!; [|apply sort_by_key_perm|apply sort_by_key_ascending].
  unfold links, ask. fold seq. cbv zeta.
  rewrite (request_exchange _ _ seq); [|apply (build_seq _ _ _ _ [])|apply next_seq_u32|done].
  rewrite Hd, exchange_dump by done. cbn [fmap option_fmap option_map].
  by rewrite push_links.
Qed.

(** ** Addresses and routes *)

(** The broadcast address of a subnet: the prefix of the address, then ones. *)
Lemma broadcast_bits addr prefix_len i :
  0 <= prefix_len <= 32 -> 0 <= i < 32 ->
  Z.testbit (Z.lor addr (hostmask prefix_len)) i = if i <? 32 - prefix_len then true else Z.testbit addr i.
Proof.
  intros Hp Hi. rewrite Z.lor_spec. unfold hostmask.
  destruct (Z.ltb_spec prefix_len 32).
  - rewrite Z.shiftr_spec by lia. change (2 ^ 32 - 1) with (Z.ones 32). rewrite Z.testbit_ones by lia.
    destruct (Z.ltb_spec i (32 - prefix_len)).
    + rewrite (proj2 (Z.leb_le 0 (i + prefix_len))), (proj2 (Z.ltb_lt (i + prefix_len) 32)) by lia.
      apply orb_true_r.
    + rewrite (proj2 (Z.ltb_ge (i + prefix_len) 32)) by lia. by rewrite andb_false_r, orb_false_r.
  - rewrite Z.bits_0, orb_false_r, (proj2 (Z.ltb_ge _ _)) by lia. done.
Qed.

Definition octets4 (k addr : Z) : Attr := {| attr_kind := k; attr_payload := be_encode 4 addr |}.
Definition word (k v : Z) : Attr := {| attr_kind := k; attr_payload := ne_encode 4 v |}.

Definition short (a : Attr) : Prop := is_u16 (attr_kind a) /\ length (attr_payload a) = 4%nat.
Lemma octets4_short k addr : is_u16 k -> short (octets4 k addr).
Proof. intros Hk. split; [done|]. apply length_be_encode. Qed.
Lemma word_short k v : is_u16 k -> short (word k v).
Proof. intros Hk. split; [done|]. apply length_ne_encode. Qed.
Lemma short_wf a : short a -> attr_wf a.
Proof. intros [Hk Hl]. split; [done|]. by rewrite Hl. Qed.
Lemma shorts_wire attrs : Forall short attrs -> length (concat (map attr_wire attrs)) = (8 * length attrs)%nat.
Proof.
  induction 1 as [|a attrs [_ Ha] _ IH]; [done|].
  cbn [map concat length]. rewrite length_app, attr_wire_length, IH, Ha.
  change (align (ATTR_HDR_LEN + 4)) with 8%nat. lia.
Qed.

(** A request of a few such attributes parses back to its parts. *)
Lemma request_shape kind flags seq hdr attrs :
  is_u16 kind -> is_u16 flags -> is_u32 seq -> Forall short attrs ->
  (length hdr <= 16)%nat -> (length attrs <= 4)%nat ->
  exists m, Message_parse (build kind flags seq hdr attrs) = Ok m
    /\ msg_kind m = kind /\ msg_flags m = flags /\ msg_seq m = seq
    /\ Message_attrs m (length hdr) = attrs
    /\ msg_payload m = pad hdr ++ concat (map attr_wire attrs).
Proof.
  intros Hk Hf Hs Ha Hh Hn.
  assert (Hl : is_u32 (len (build kind flags seq hdr attrs))).
  { unfold len. rewrite build_length, pad_length, shorts_wire by done.
    pose proof (proj1 (align_spec (length hdr))). unfold is_uint. lia. }
  destruct (netlink_build_parse kind flags seq hdr attrs [] Hk Hf Hs) as (m & Hm & Hk' & Hf' & Hs' & _ & Hrest).
  { eapply Forall_impl; [exact Ha|]. apply short_wf. }
  { exact Hl. }
  rewrite app_nil_r in Hm. by exists m.
Qed.

Lemma add_address_build index addr prefix_len seq :
  add_address_request index addr prefix_len seq
  = build RTM_NEWADDR CREATE_OR_REPLACE seq (ifaddrmsg AF_INET prefix_len index)
      [octets4 IFA_LOCAL addr; octets4 IFA_ADDRESS addr;
       octets4 IFA_BROADCAST (Z.lor addr (hostmask prefix_len))].
Proof. reflexivity. Qed.
Lemma probe_build index seq :
  add_dhcp_probe_route_request index seq
  = build RTM_NEWROUTE CREATE_OR_REPLACE seq (rtmsg AF_INET 0 RT_SCOPE_LINK)
      [word RTA_OIF index; word RTA_PRIORITY DHCP_PROBE_METRIC].
Proof. reflexivity. Qed.
Lemma unprobe_build index seq :
  del_dhcp_probe_route_request index seq
  = build RTM_DELROUTE (Z.lor NLM_F_REQUEST NLM_F_ACK) seq (rtmsg AF_INET 0 RT_SCOPE_LINK)
      [word RTA_OIF index; word RTA_PRIORITY DHCP_PROBE_METRIC].
Proof. reflexivity. Qed.
Lemma default_route_build index gateway seq :
  add_default_route_request index gateway seq
  = build RTM_NEWROUTE CREATE_OR_REPLACE seq (rtmsg AF_INET 0 RT_SCOPE_UNIVERSE)
      [octets4 RTA_GATEWAY gateway; word RTA_OIF index].
Proof. reflexivity. Qed.

(** The route a DHCP exchange borrows is given back, and nothing else with
    it: the request that removes it names the same table, scope and
    attributes as the one that added it, and the default route of a lease,
    which names no metric and another scope, is a different message whatever
    the gateway. *)
Lemma probe_route_returned index gateway s1 s2 s3 :
  is_u32 s1 -> is_u32 s2 -> is_u32 s3 ->
  exists added removed lease,
    Message_parse (add_dhcp_probe_route_request index s1) = Ok added
    /\ Message_parse (del_dhcp_probe_route_request index s2) = Ok removed
    /\ Message_parse (add_default_route_request index gateway s3) = Ok lease
    /\ msg_kind added = RTM_NEWROUTE /\ msg_kind removed = RTM_DELROUTE
    /\ msg_payload removed = msg_payload added
    /\ Message_attrs removed RTMSG_LEN = [word RTA_OIF index; word RTA_PRIORITY DHCP_PROBE_METRIC]
    /\ Message_attrs lease RTMSG_LEN = [octets4 RTA_GATEWAY gateway; word RTA_OIF index].
Proof.
  intros H1 H2 H3. rewrite probe_build, unprobe_build, default_route_build.
  assert (Hp : Forall short [word RTA_OIF index; word RTA_PRIORITY DHCP_PROBE_METRIC])
    by (repeat constructor; apply word_short; done).
  assert (Hl : Forall short [octets4 RTA_GATEWAY gateway; word RTA_OIF index])
    by (repeat constructor; first [apply word_short | apply octets4_short]; done).
  destruct (request_shape RTM_NEWROUTE CREATE_OR_REPLACE s1 (rtmsg AF_INET 0 RT_SCOPE_LINK) _
    ltac:(done) ltac:(done) H1 Hp ltac:(cbn; lia) ltac:(cbn; lia)) as (a & Ha & Hak & _ & _ & _ & Hap).
  destruct (request_shape RTM_DELROUTE (Z.lor NLM_F_REQUEST NLM_F_ACK) s2 (rtmsg AF_INET 0 RT_SCOPE_LINK) _
    ltac:(done) ltac:(done) H2 Hp ltac:(cbn; lia) ltac:(cbn; lia)) as (b & Hb & Hbk & _ & _ & Hba & Hbp).
  destruct (request_shape RTM_NEWROUTE CREATE_OR_REPLACE s3 (rtmsg AF_INET 0 RT_SCOPE_UNIVERSE) _
    ltac:(done) ltac:(done) H3 Hl ltac:(cbn; lia) ltac:(cbn; lia)) as (c & Hc & _ & _ & _ & Hca & _).
  exists a, b, c. split_and!; try done. congruence.
Qed.

(** Removing it twice is no error; any other refusal is reported. *)
Lemma probe_route_gone r m code :
  let seq := next_seq r in
  message_wf m -> msg_seq m = seq -> msg_kind m = NLMSG_ERROR ->
  get_range 0 4 (msg_payload m) = Some (ne_encode 4 (wrap 32 (- code))) -> 0 <= code < 4096 ->
  forall index, del_dhcp_probe_route r index [delivered [m]]
  = (seq, Some (if (code =? 0) || (code =? ESRCH) then Ok tt else Err (ErrKernel code))).
Proof.
  intros seq Hm Hs Hk Hp Hc index. unfold del_dhcp_probe_route.
  change (del_dhcp_probe_route_request index) with (fun seq =>
    build RTM_DELROUTE (Z.lor NLM_F_REQUEST NLM_F_ACK) seq (rtmsg AF_INET 0 RT_SCOPE_LINK)
      [word RTA_OIF index; word RTA_PRIORITY DHCP_PROBE_METRIC]).
  rewrite (ask_ack _ _ _ _ _ m code) by done. cbn [fmap option_fmap option_map]. do 2 f_equal.
  destruct (Z.eqb_spec code 0) as [->|]; [done|]. destruct (Z.eqb_spec code ESRCH) as [->|Hn]; [done|].
  by rewrite bool_decide_false by congruence.
Qed.

(** The address of a lease, and the broadcast of its subnet with it. *)
Lemma add_address_names index addr prefix_len seq :
  is_u32 seq ->
  exists m, Message_parse (add_address_request index addr prefix_len seq) = Ok m
    /\ msg_kind m = RTM_NEWADDR
    /\ Message_attrs m IFADDRMSG_LEN
       = [octets4 IFA_LOCAL addr; octets4 IFA_ADDRESS addr;
          octets4 IFA_BROADCAST (Z.lor addr (hostmask prefix_len))].
Proof.
  intros Hs. rewrite add_address_build.
  destruct (request_shape RTM_NEWADDR CREATE_OR_REPLACE seq (ifaddrmsg AF_INET prefix_len index)
    [octets4 IFA_LOCAL addr; octets4 IFA_ADDRESS addr; octets4 IFA_BROADCAST (Z.lor addr (hostmask prefix_len))])
    as (m & Hm & Hk & _ & _ & Ha & _); try done.
  - repeat constructor; apply octets4_short; done.
  - unfold ifaddrmsg. rewrite length_app, length_ne_encode. cbn. lia.
  - cbn. lia.
  - exists m. split_and!; try done. rewrite <- Ha. f_equal.
    unfold ifaddrmsg. by rewrite length_app, length_ne_encode.
Qed.

(** The hosts of a subnet share its broadcast address. *)
Lemma broadcast_of_subnet a b prefix_len :
  is_u32 a -> is_u32 b -> 0 <= prefix_len <= 32 ->
  Z.shiftr a (32 - prefix_len) = Z.shiftr b (32 - prefix_len) ->
  Z.lor a (hostmask prefix_len) = Z.lor b (hostmask prefix_len).
Proof.
  intros Ha Hb Hp Hab. apply Z.bits_inj'. intros i Hi.
  destruct (Z.lt_ge_cases i 32) as [Hlt|Hge].
  - rewrite !broadcast_bits by lia. destruct (Z.ltb_spec i (32 - prefix_len)); [done|].
    apply (f_equal (fun z => Z.testbit z (i - (32 - prefix_len)))) in Hab.
    rewrite !Z.shiftr_spec in Hab by lia. by rewrite !Z.sub_add in Hab.
  - by rewrite !Z.lor_spec, (is_uint_testbit 32 a), (is_uint_testbit 32 b) by (done || lia).
Qed.
End requests.

(** ** Witness, on a little-endian host *)
Section witnesses.
#[local] Instance little : HostEndian := false.

(** A loopback and a radio, the radio first. *)
Definition demo_link (index flags : Z) (name : bytes) (mac : bytes) (seq : Z) : Message :=
  let payload := ifinfomsg 0 index flags 0
    ++ concat (map attr_wire [{| attr_kind := IFLA_IFNAME; attr_payload := name ++ [0] |};
                              {| attr_kind := IFLA_ADDRESS; attr_payload := mac |}]) in
  {| msg_len := 16 + len payload; msg_kind := 16; msg_flags := 2; msg_seq := seq; msg_pid := 0;
     msg_payload := payload |}.
Definition demo_dump : list (list Message) :=
  [[demo_link 3 0x11043 (ascii_of "wlan0") [2; 0; 0; 0; 1; 0] 7]; [demo_link 1 0x10049 (ascii_of "lo") [] 7;
   {| msg_len := 16; msg_kind := 3; msg_flags := 2; msg_seq := 7; msg_pid := 0; msg_payload := [] |}]].

Lemma links_exact_witness :
  exists l, links (fun _ => true) 6 (map delivered demo_dump) = (7, Some (Ok l))
    /\ map (fun l => (index l, kind l, is_up l)) l = [(1, Loopback, true); (3, Wireless, true)].
Proof.
  destruct (links_exact (fun _ => true) 6 demo_dump (take 2 (concat demo_dump))
    {| msg_len := 16; msg_kind := 3; msg_flags := 2; msg_seq := 7; msg_pid := 0; msg_payload := [] |})
    as (l & Hl & _ & _); try reflexivity; try (apply (bool_decide_unpack _); vm_compute; exact I).
  vm_compute in Hl. injection Hl as <-. eexists. split; vm_compute; reflexivity.
Defined.
End witnesses.
