(* ===== verification/Wiphy.v ===== *)
(** * Radios and interfaces: wiphy.rs and family.rs of [caw-nl80211]

    What the kernel says of its radios under a split dump, of the interfaces
    on them, and of the nl80211 family itself: its message type and the
    multicast groups the event socket subscribes to. *)
From S2P Require Import Prelude Bytes Netlink Nl80211.

Definition NL80211_ATTR_WIPHY_NAME : Z := 2.
Definition NL80211_ATTR_IFNAME : Z := 4.
Definition NL80211_ATTR_IFTYPE : Z := 5.
Definition NL80211_ATTR_SUPPORTED_IFTYPES : Z := 32.
Definition NL80211_ATTR_EXT_FEATURES : Z := 217.
Definition NL80211_IFTYPE_AP : Z := 3.
Definition NL80211_EXT_FEATURE_4WAY_HANDSHAKE_STA_PSK : Z := 15.
Definition NL80211_EXT_FEATURE_4WAY_HANDSHAKE_STA_1X : Z := 16.
Definition NL80211_EXT_FEATURE_SAE_OFFLOAD : Z := 38.
Definition CTRL_ATTR_FAMILY_ID : Z := 1.
Definition CTRL_ATTR_MCAST_GROUPS : Z := 7.
Definition CTRL_ATTR_MCAST_GRP_NAME : Z := 1.
Definition CTRL_ATTR_MCAST_GRP_ID : Z := 2.

(** ** wiphy.rs *)

Record Wiphy := {
  w_index : Z; w_name : bytes; w_supports_ap : bool;
  w_offloads_4way_psk : bool; w_offloads_4way_1x : bool; w_offloads_sae : bool;
}.

(** [ExtFeatures::has]: a read past the end is "not supported". *)
Definition ExtFeatures_has (bitmap : bytes) (index : Z) : bool :=
  match bitmap !! Z.to_nat (index / 8) with
  | Some b => has_flag b (Z.shiftl 1 (index mod 8))
  | None => false
  end.

Record WiphyChunk := {
  ch_index : Z; ch_name : option bytes; ch_supports_ap : bool; ch_features : option bytes;
}.

Inductive IfType :=
| Unspecified | AdHoc | Station | Ap | Monitor | MeshPoint | P2pClient | P2pGo | P2pDevice | Other (v : Z).
#[export] Instance IfType_eq_dec : EqDecision IfType.
Proof. solve_decision. Defined.

Definition IfType_from_raw (v : Z) : IfType :=
  match v with
  | 0 => Unspecified
  | 1 => AdHoc
  | 2 => Station
  | 3 => Ap
  | 6 => Monitor
  | 7 => MeshPoint
  | 8 => P2pClient
  | 9 => P2pGo
  | 10 => P2pDevice
  | other => Other other
  end.

Record Interface := { i_ifindex : Z; i_wiphy : Z; i_name : bytes; i_iftype : IfType; i_mac : option bytes }.

Section wiphy.
Context {he : HostEndian}.

(** One turn of the attribute loop: the chunk, and whether it has an index.
    [None] is the [?] on the index. *)
Definition WiphyChunk_step (c : WiphyChunk * bool) (a : Attr) : option (WiphyChunk * bool) :=
  let '(Build_WiphyChunk index name ap features, seen) := c in
  if attr_kind a =? NL80211_ATTR_WIPHY then
    i ← attr_u32_of a; Some (Build_WiphyChunk i name ap features, true)
  else if attr_kind a =? NL80211_ATTR_WIPHY_NAME then
    Some (Build_WiphyChunk index (attr_str_of a) ap features, seen)
  else if attr_kind a =? NL80211_ATTR_SUPPORTED_IFTYPES then
    let ap := existsb (fun t => attr_kind t =? NL80211_IFTYPE_AP) (NAttrs (attr_payload a)) in
    Some (Build_WiphyChunk index name ap features, seen)
  else if attr_kind a =? NL80211_ATTR_EXT_FEATURES then
    Some (Build_WiphyChunk index name ap (Some (attr_payload a)), seen)
  else Some c.

Fixpoint try_fold {A B} (f : B -> A -> option B) (b : B) (l : list A) : option B :=
  match l with [] => Some b | a :: l => b ← f b a; try_fold f b l end.

Definition WiphyChunk_parse (m : Message) : option WiphyChunk :=
  '(c, seen) ← try_fold WiphyChunk_step
    ({| ch_index := 2 ^ 32 - 1; ch_name := None; ch_supports_ap := false; ch_features := None |}, false)
    (NAttrs_of_body (msg_payload m));
  if seen : bool then Some c else None.

Definition merge_into (c : WiphyChunk) (w : Wiphy) : Wiphy :=
  let has i := match ch_features c with Some f => ExtFeatures_has f i | None => false end in
  {| w_index := w_index w; w_name := default (w_name w) (ch_name c);
     w_supports_ap := w_supports_ap w || ch_supports_ap c;
     w_offloads_4way_psk := w_offloads_4way_psk w || has NL80211_EXT_FEATURE_4WAY_HANDSHAKE_STA_PSK;
     w_offloads_4way_1x := w_offloads_4way_1x w || has NL80211_EXT_FEATURE_4WAY_HANDSHAKE_STA_1X;
     w_offloads_sae := w_offloads_sae w || has NL80211_EXT_FEATURE_SAE_OFFLOAD |}.
Definition into_wiphy (c : WiphyChunk) : Wiphy :=
  merge_into c {| w_index := ch_index c; w_name := []; w_supports_ap := false;
                  w_offloads_4way_psk := false; w_offloads_4way_1x := false; w_offloads_sae := false |}.

(** The closure of [Nl80211::wiphys] (sock.rs): the first entry of the
    chunk's index takes it, or it starts one. *)
Fixpoint take_chunk (c : WiphyChunk) (l : list Wiphy) : list Wiphy :=
  match l with
  | [] => [into_wiphy c]
  | w :: l => if w_index w =? ch_index c then merge_into c w :: l else w :: take_chunk c l
  end.
Definition wiphys_of (chunks : list WiphyChunk) : list Wiphy :=
  sort_by_key w_index (fold_left (fun l c => take_chunk c l) chunks []).

(** [Interface::parse] *)
Definition Interface_step (c : Interface * bool) (a : Attr) : option (Interface * bool) :=
  let '(Build_Interface ifindex wiphy name iftype mac, seen) := c in
  if attr_kind a =? NL80211_ATTR_IFINDEX then
    i ← attr_u32_of a; Some (Build_Interface i wiphy name iftype mac, true)
  else if attr_kind a =? NL80211_ATTR_WIPHY then
    Some (Build_Interface ifindex (default 0 (attr_u32_of a)) name iftype mac, seen)
  else if attr_kind a =? NL80211_ATTR_IFNAME then
    Some (Build_Interface ifindex wiphy (default [] (attr_str_of a)) iftype mac, seen)
  else if attr_kind a =? NL80211_ATTR_IFTYPE then
    Some (Build_Interface ifindex wiphy name (IfType_from_raw (default 0 (attr_u32_of a))) mac, seen)
  else if attr_kind a =? NL80211_ATTR_MAC then
    Some (Build_Interface ifindex wiphy name iftype (mac_of a), seen)
  else Some c.
Definition Interface_parse (m : Message) : option Interface :=
  '(i, seen) ← try_fold Interface_step
    ({| i_ifindex := 0; i_wiphy := 0; i_name := []; i_iftype := Unspecified; i_mac := None |}, false)
    (NAttrs_of_body (msg_payload m));
  if seen : bool then Some i else None.

(** ** family.rs *)

Record Groups := { g_scan : option Z; g_mlme : option Z; g_config : option Z }.
Record Family := { f_id : Z; f_groups : Groups }.

(** [id.checked_sub(1).and_then(|bit| 1u32.checked_shl(bit))]; the error
    names the group. *)
Definition group_bit (id : Z) : option Z := if (1 <=? id) && (id - 1 <? 32) then Some (Z.shiftl 1 (id - 1)) else None.
Fixpoint mask_of (named : list (string * option Z)) (mask : Z) : exec (string * Z) Z :=
  match named with
  | [] => Ok mask
  | (_, None) :: named => mask_of named mask
  | (name, Some id) :: named => bit ← ok_or (name, id) (group_bit id); mask_of named (Z.lor mask bit)
  end.
Definition named (g : Groups) : list (string * option Z) :=
  [("scan", g_scan g); ("mlme", g_mlme g); ("config", g_config g)]%string.
Definition mask (g : Groups) : exec (string * Z) Z := mask_of (named g) 0.

Definition group_field (l : option bytes * option Z) (a : Attr) : option bytes * option Z :=
  if attr_kind a =? CTRL_ATTR_MCAST_GRP_NAME then (attr_str_of a, snd l)
  else if attr_kind a =? CTRL_ATTR_MCAST_GRP_ID then (fst l, attr_u32_of a)
  else l.
Definition group_step (g : Groups) (a : Attr) : Groups :=
  let (name, gid) := fold_left group_field (NAttrs (attr_payload a)) (None, None) in
  let '(Build_Groups scan mlme config) := g in
  if bool_decide (name = Some (Text.ascii_of "scan")) then Build_Groups gid mlme config
  else if bool_decide (name = Some (Text.ascii_of "mlme")) then Build_Groups scan gid config
  else if bool_decide (name = Some (Text.ascii_of "config")) then Build_Groups scan mlme gid
  else g.
Definition Family_step (f : option Z * Groups) (a : Attr) : option Z * Groups :=
  if attr_kind a =? CTRL_ATTR_FAMILY_ID then (u16_of a, snd f)
  else if attr_kind a =? CTRL_ATTR_MCAST_GROUPS then
    (fst f, fold_left group_step (NAttrs (attr_payload a)) (snd f))
  else f.
Definition Family_parse (body : bytes) : option Family :=
  let (id, groups) := fold_left Family_step (NAttrs_of_body body)
                        (None, {| g_scan := None; g_mlme := None; g_config := None |}) in
  id ← id; Some {| f_id := id; f_groups := groups |}.
End wiphy.

(** ** The feature bitmap *)

(** Feature [i] is bit [i] of the bitmap read as one little-endian number. *)
Lemma ExtFeatures_has_bit bitmap index :
  is_bytes bitmap -> 0 <= index -> ExtFeatures_has bitmap index = Z.testbit (le_decode bitmap) index.
Proof.
  intros Hb. revert index. induction Hb as [|b l Hb Hl IH]; intros i Hi.
  { unfold ExtFeatures_has. cbn. by rewrite Z.bits_0. }
  unfold ExtFeatures_has in *. cbn [le_decode]. unfold is_uint in Hb.
  destruct (Z.lt_ge_cases i 8) as [Hlt|Hge].
  - rewrite Z.div_small, Z.mod_small by lia. change ((b :: l) !! Z.to_nat 0) with (Some b).
    cbv iota. rewrite has_flag_bit by lia.
    rewrite <- (Z.mod_pow2_bits_low (b + _) 8 i) by lia. change (2 ^ 8) with 256.
    rewrite Z.mul_comm, Z.mod_add, Z.mod_small by lia. done.
  - assert (Hbit : Z.testbit (b + 256 * le_decode l) i = Z.testbit (le_decode l) (i - 8)).
    { pose proof (Z.div_pow2_bits (b + 256 * le_decode l) 8 (i - 8) ltac:(lia) ltac:(lia)) as Hd.
      rewrite Z.sub_add in Hd. rewrite <- Hd. change (2 ^ 8) with 256.
      by rewrite (Z.mul_comm 256), Z.div_add, Z.div_small, Z.add_0_l by lia. }
    rewrite Hbit, <- IH by lia.
    assert (Hq : i / 8 = (i - 8) / 8 + 1) by (rewrite <- Z.div_add by lia; f_equal; lia).
    assert (Hm : i mod 8 = (i - 8) mod 8) by (rewrite <- (Z.mod_add (i - 8) 1) by lia; f_equal; lia).
    assert (0 <= (i - 8) / 8) by (apply Z.div_pos; lia).
    rewrite Hq, Hm. by replace (Z.to_nat ((i - 8) / 8 + 1)) with (S (Z.to_nat ((i - 8) / 8))) by lia.
Qed.

(** ** Split dumps *)

(** What the chunks of one radio say together: a capability any of them
    established, and the last name given. *)
Definition of_radio (chunks : list WiphyChunk) (i : Z) : list WiphyChunk :=
  List.filter (fun c => ch_index c =? i) chunks.
Definition feature (i : Z) (c : WiphyChunk) : bool :=
  match ch_features c with Some f => ExtFeatures_has f i | None => false end.
Definition radio (chunks : list WiphyChunk) (i : Z) : Wiphy :=
  let mine := of_radio chunks i in
  {| w_index := i;
     w_name := default [] (find_map ch_name (rev mine));
     w_supports_ap := existsb ch_supports_ap mine;
     w_offloads_4way_psk := existsb (feature NL80211_EXT_FEATURE_4WAY_HANDSHAKE_STA_PSK) mine;
     w_offloads_4way_1x := existsb (feature NL80211_EXT_FEATURE_4WAY_HANDSHAKE_STA_1X) mine;
     w_offloads_sae := existsb (feature NL80211_EXT_FEATURE_SAE_OFFLOAD) mine |}.

Lemma of_radio_app chunks c i :
  of_radio (chunks ++ [c]) i = if ch_index c =? i then of_radio chunks i ++ [c] else of_radio chunks i.
Proof. unfold of_radio. rewrite List.filter_app. cbn. case_match; [done|]. apply app_nil_r. Qed.

Lemma radio_other chunks c i : ch_index c <> i -> radio (chunks ++ [c]) i = radio chunks i.
Proof. intros H. unfold radio. by rewrite of_radio_app, (proj2 (Z.eqb_neq _ _)). Qed.
Lemma radio_merge chunks c : merge_into c (radio chunks (ch_index c)) = radio (chunks ++ [c]) (ch_index c).
Proof.
  unfold radio, merge_into, feature. rewrite of_radio_app, Z.eqb_refl, !existsb_app, rev_app_distr.
  cbn. rewrite !orb_false_r. by destruct (ch_name c).
Qed.
Lemma radio_start chunks c : of_radio chunks (ch_index c) = [] -> into_wiphy c = radio (chunks ++ [c]) (ch_index c).
Proof. intros H. rewrite <- radio_merge. unfold into_wiphy, radio. by rewrite H. Qed.

Lemma take_chunk_radios chunks c idxs :
  NoDup idxs -> (ch_index c ∉ idxs -> of_radio chunks (ch_index c) = []) ->
  take_chunk c (map (radio chunks) idxs)
  = map (radio (chunks ++ [c])) (if bool_decide (ch_index c ∈ idxs) then idxs else idxs ++ [ch_index c]).
Proof.
  intros Hnd. induction Hnd as [|i idxs Hi Hnd IH]; intros Hnew.
  { rewrite bool_decide_false by apply not_elem_of_nil. cbn. f_equal.
    apply radio_start, Hnew, not_elem_of_nil. }
  cbn [map take_chunk]. change (w_index (radio chunks i)) with i.
  destruct (Z.eqb_spec i (ch_index c)) as [->|Hne].
  - rewrite bool_decide_true by left. cbn [map]. rewrite radio_merge. f_equal.
    apply map_ext_in. intros j Hj. apply list_elem_of_In in Hj. rewrite radio_other; [done|]. congruence.
  - rewrite IH by (intros Hn; apply Hnew; rewrite elem_of_cons; naive_solver).
    rewrite (bool_decide_ext (ch_index c ∈ i :: idxs) (ch_index c ∈ idxs)) by (rewrite elem_of_cons; naive_solver).
    case_bool_decide; cbn [map app]; by rewrite radio_other by congruence.
Qed.

Lemma of_radio_none chunks i : i ∉ map ch_index chunks -> of_radio chunks i = [].
Proof.
  intros Hi. induction chunks as [|c chunks IH]; [done|]. cbn in *. rewrite elem_of_cons in Hi.
  rewrite (proj2 (Z.eqb_neq _ _)) by naive_solver. apply IH. tauto.
Qed.

Lemma fold_take_chunk chunks :
  exists idxs, fold_left (fun l c => take_chunk c l) chunks [] = map (radio chunks) idxs /\ NoDup idxs
    /\ (forall i, i ∈ idxs <-> i ∈ map ch_index chunks).
Proof.
  induction chunks as [|c chunks (idxs & Heq & Hnd & Hmem)] using rev_ind.
  { exists []. split_and!; [done|constructor|done]. }
  exists (if bool_decide (ch_index c ∈ idxs) then idxs else idxs ++ [ch_index c]). split_and!.
  - rewrite fold_left_app, Heq. cbn [fold_left]. apply take_chunk_radios; [done|].
    rewrite Hmem. apply of_radio_none.
  - case_bool_decide; [done|]. apply NoDup_app. split_and!; [done| |apply NoDup_singleton].
    intros j Hj Hc. apply list_elem_of_singleton in Hc. congruence.
  - intros i. rewrite map_app, elem_of_app, <- Hmem. cbn [map]. rewrite list_elem_of_singleton.
    case_bool_decide; [naive_solver|]. rewrite elem_of_app, list_elem_of_singleton. done.
Qed.

(** A radio described over several messages is put together whole: the
    table has exactly one entry per radio the dump names, in ascending order,
    and its entry has a capability exactly when one of its messages
    established it, however the messages of different radios interleave. *)
Theorem wiphys_exact chunks :
  let l := wiphys_of chunks in
  (forall w, w ∈ l <-> w_index w ∈ map ch_index chunks /\ w = radio chunks (w_index w))
  /\ NoDup (map w_index l) /\ ascending w_index l.
Proof.
  cbv zeta. unfold wiphys_of. destruct (fold_take_chunk chunks) as (idxs & -> & Hnd & Hmem).
  split_and!; [|rewrite sort_by_key_perm, map_map, map_id; done|apply sort_by_key_ascending].
  intros w. rewrite sort_by_key_perm, list_elem_of_fmap. split.
  - intros (i & -> & Hi). change (w_index (radio chunks i)) with i. by rewrite <- Hmem.
  - intros [Hi Hw]. exists (w_index w). by rewrite Hmem.
Qed.

(** ** Group subscription *)

(** Bit [n - 1] for group [n], for every advertised group and no other. *)
Lemma mask_of_bits named m0 m :
  mask_of named m0 = Ok m ->
  (forall name id, (name, Some id) ∈ named -> 1 <= id <= 32)
  /\ (forall bit, 0 <= bit ->
       Z.testbit m bit = Z.testbit m0 bit || bool_decide (Exists (fun g => snd g = Some (bit + 1)) named)).
Proof.
  revert m0. induction named as [|[name [id|]] named IH]; intros m0; cbn [mask_of].
  - intros [= <-]. split; [by intros ?? ?%not_elem_of_nil|].
    intros bit _. rewrite bool_decide_false by (by intros ?%Exists_nil). by rewrite orb_false_r.
  - intros H. unfold group_bit in H. case_match eqn:Hid; [|done]. bool_prop. cbn [ok_or mbind exec_bind] in H.
    destruct (IH _ H) as [Hr Hb]. split.
    + intros n i [[= -> ->]|Hi]%elem_of_cons; [lia|by eapply Hr].
    + intros bit Hbit. rewrite (Hb bit Hbit), Z.lor_spec, <- orb_assoc. f_equal.
      rewrite Z.shiftl_spec by lia.
      destruct (Z.eq_dec (bit + 1) id) as [<-|Hne].
      * replace (bit - (bit + 1 - 1)) with 0 by lia. cbn. symmetry. apply bool_decide_eq_true. by left.
      * assert (Hz : Z.testbit 1 (bit - (id - 1)) = false).
        { destruct (Z.lt_ge_cases (bit - (id - 1)) 0); [by apply Z.testbit_neg_r|].
          apply (is_uint_testbit 1); unfold is_uint; lia. }
        rewrite Hz. cbn. apply bool_decide_ext. rewrite Exists_cons. cbn. naive_solver.
  - intros H. destruct (IH _ H) as [Hr Hb]. split.
    + intros n i [[=]|Hi]%elem_of_cons. by eapply Hr.
    + intros bit Hbit. rewrite (Hb bit Hbit). f_equal. apply bool_decide_ext.
      rewrite Exists_cons. cbn. naive_solver.
Qed.

Lemma mask_of_reachable named m0 :
  (forall name id, (name, Some id) ∈ named -> 1 <= id <= 32) -> exists m, mask_of named m0 = Ok m.
Proof.
  revert m0. induction named as [|[name [id|]] named IH]; intros m0 H; cbn [mask_of]; [by eexists| |].
  - assert (1 <= id <= 32) by (eapply H; left). unfold group_bit.
    rewrite (proj2 (Z.leb_le 1 id)), (proj2 (Z.ltb_lt (id - 1) 32)) by lia. cbn.
    apply IH. intros n i Hi. eapply H. by right.
  - apply IH. intros n i Hi. eapply H. by right.
Qed.

(** The event socket subscribes to exactly the groups the kernel
    advertised: the bind mask has bit [n - 1] set exactly for a group of id
    [n], and it exists exactly when every advertised id fits the 32 bits; a
    group out of reach is an error, never a silent omission. *)
Theorem mask_exact g :
  ((exists m, mask g = Ok m) <-> (forall name id, (name, Some id) ∈ named g -> 1 <= id <= 32))
  /\ (forall m bit, mask g = Ok m -> 0 <= bit ->
       (Z.testbit m bit = true <-> g_scan g = Some (bit + 1) \/ g_mlme g = Some (bit + 1) \/ g_config g = Some (bit + 1))).
Proof.
  unfold mask. split; [split|].
  - intros [m Hm]. by destruct (mask_of_bits _ _ _ Hm).
  - apply mask_of_reachable.
  - intros m bit Hm Hbit. destruct (mask_of_bits _ _ _ Hm) as [_ Hb].
    rewrite (Hb bit Hbit), Z.bits_0. cbn [orb]. rewrite bool_decide_eq_true. unfold named.
    rewrite !Exists_cons, Exists_nil. cbn. tauto.
Qed.
