(* ===== verification/NlMsg.v ===== *)
(** * Requests and notifications: msg.rs and sock.rs of [caw-nl80211]

    Every command the daemon gives a radio, as octets, what the command socket
    makes of the answers, and the drain of the event socket.  A handle is the
    socket's sequence counter and the family's message type. *)
From S2P Require Import Prelude Bytes Netlink Nl80211 Wiphy.

Definition GENL_ID_CTRL : Z := 0x10.
Definition CTRL_CMD_GETFAMILY : Z := 3.
Definition CTRL_ATTR_FAMILY_NAME : Z := 2.
Definition NL80211_CMD_GET_WIPHY : Z := 1.
Definition NL80211_CMD_GET_INTERFACE : Z := 5.
Definition NL80211_CMD_SET_KEY : Z := 10.
Definition NL80211_CMD_NEW_KEY : Z := 11.
Definition NL80211_CMD_GET_SCAN : Z := 32.
Definition NL80211_CMD_TRIGGER_SCAN : Z := 33.
Definition NL80211_CMD_ASSOCIATE : Z := 38.
Definition NL80211_CMD_SET_POWER_SAVE : Z := 61.
Definition NL80211_ATTR_KEY_DATA : Z := 7.
Definition NL80211_ATTR_KEY_IDX : Z := 8.
Definition NL80211_ATTR_KEY_CIPHER : Z := 9.
Definition NL80211_ATTR_KEY_SEQ : Z := 10.
Definition NL80211_ATTR_KEY_DEFAULT : Z := 11.
Definition NL80211_ATTR_WIPHY_FREQ : Z := 38.
Definition NL80211_ATTR_IE : Z := 42.
Definition NL80211_ATTR_SCAN_SSIDS : Z := 45.
Definition NL80211_ATTR_BSS : Z := 47.
Definition NL80211_ATTR_AUTH_TYPE : Z := 53.
Definition NL80211_ATTR_KEY_TYPE : Z := 55.
Definition NL80211_ATTR_USE_MFP : Z := 66.
Definition NL80211_ATTR_PRIVACY : Z := 70.
Definition NL80211_ATTR_CIPHER_SUITES_PAIRWISE : Z := 73.
Definition NL80211_ATTR_CIPHER_SUITE_GROUP : Z := 74.
Definition NL80211_ATTR_WPA_VERSIONS : Z := 75.
Definition NL80211_ATTR_AKM_SUITES : Z := 76.
Definition NL80211_ATTR_PS_STATE : Z := 93.
Definition NL80211_ATTR_KEY_DEFAULT_TYPES : Z := 110.
Definition NL80211_ATTR_AUTH_DATA : Z := 156.
Definition NL80211_ATTR_SPLIT_WIPHY_DUMP : Z := 174.
Definition NL80211_KEYTYPE_GROUP : Z := 0.
Definition NL80211_KEYTYPE_PAIRWISE : Z := 1.
Definition NL80211_KEY_DEFAULT_TYPE_UNICAST : Z := 1.
Definition NL80211_KEY_DEFAULT_TYPE_MULTICAST : Z := 2.
Definition NL80211_PS_DISABLED : Z := 0.
Definition NL80211_PS_ENABLED : Z := 1.
Definition ENOENT : Z := 2.
Definition EINTR : Z := 4.

(** [genlmsghdr] *)
Definition genlmsghdr (cmd version : Z) : bytes := [cmd; version; 0; 0].

(** [Connect] of msg.rs *)
Record Connect := {
  c_ssid : bytes; c_bssid : option bytes; c_freq_mhz : option Z; c_auth_type : Z; c_wpa_versions : Z;
  c_pairwise_ciphers : list Z; c_group_cipher : option Z; c_akms : list Z; c_mfp : option Z; c_ies : bytes;
}.
Inductive KeyScope := Unicast | Multicast | Both.
#[export] Instance KeyScope_eq_dec : EqDecision KeyScope.
Proof. solve_decision. Defined.

Section msg.
Context {he : HostEndian}.

(** ** msg.rs *)

Definition request_of (family flags seq cmd : Z) : bytes :=
  MsgBuilder_header (MsgBuilder_new family flags seq) (genlmsghdr cmd 0).
Definition ACKED : Z := Z.lor NLM_F_REQUEST NLM_F_ACK.
Definition DUMPED : Z := Z.lor NLM_F_REQUEST NLM_F_DUMP.

Definition get_family (seq : Z) (name : bytes) : bytes :=
  MsgBuilder_finish (MsgBuilder_attr_str
    (MsgBuilder_header (MsgBuilder_new GENL_ID_CTRL NLM_F_REQUEST seq) (genlmsghdr CTRL_CMD_GETFAMILY 1))
    CTRL_ATTR_FAMILY_NAME name).
Definition get_wiphy (family seq : Z) : bytes :=
  MsgBuilder_finish (MsgBuilder_attr (request_of family DUMPED seq NL80211_CMD_GET_WIPHY)
    NL80211_ATTR_SPLIT_WIPHY_DUMP []).
Definition get_interface (family seq : Z) : bytes :=
  MsgBuilder_finish (request_of family DUMPED seq NL80211_CMD_GET_INTERFACE).

(** [nest.attr(i as u16 + 1, ssid)]: the numbers do not wrap below 65535 of them. *)
Fixpoint ssid_nest (nest : bytes) (i : Z) (ssids : list bytes) : bytes :=
  match ssids with
  | [] => nest
  | ssid :: ssids => ssid_nest (Nest_attr nest (wrap 16 (wrap 16 i + 1)) ssid) (i + 1) ssids
  end.
Definition trigger_scan (family seq ifindex : Z) (ssids : list bytes) : bytes :=
  let nest := match ssids with [] => Nest_attr [] 1 [] | _ => [] end in
  let nest := ssid_nest nest 0 ssids in
  let b := request_of family ACKED seq NL80211_CMD_TRIGGER_SCAN in
  let b := MsgBuilder_attr_u32 b NL80211_ATTR_IFINDEX ifindex in
  MsgBuilder_finish (MsgBuilder_attr b NL80211_ATTR_SCAN_SSIDS nest).
Definition get_scan (family seq ifindex : Z) : bytes :=
  MsgBuilder_finish (MsgBuilder_attr_u32 (request_of family DUMPED seq NL80211_CMD_GET_SCAN)
    NL80211_ATTR_IFINDEX ifindex).

Definition suites (l : list Z) : bytes := concat (map (ne_encode 4) l).

Definition is_empty {A} (l : list A) : bool := match l with [] => true | _ => false end.

Definition crypto_settings (b : bytes) (r : Connect) : bytes :=
  let b := if negb (c_wpa_versions r =? 0) then MsgBuilder_attr_u32 b NL80211_ATTR_WPA_VERSIONS (c_wpa_versions r) else b in
  let b := if negb (is_empty (c_pairwise_ciphers r))
           then MsgBuilder_attr b NL80211_ATTR_CIPHER_SUITES_PAIRWISE (suites (c_pairwise_ciphers r)) else b in
  let b := match c_group_cipher r with
           | Some group => MsgBuilder_attr_u32 b NL80211_ATTR_CIPHER_SUITE_GROUP group
           | None => b
           end in
  let b := if negb (is_empty (c_akms r)) then MsgBuilder_attr b NL80211_ATTR_AKM_SUITES (suites (c_akms r)) else b in
  let b := match c_mfp r with Some mfp => MsgBuilder_attr_u32 b NL80211_ATTR_USE_MFP mfp | None => b end in
  if negb (is_empty (c_ies r)) then MsgBuilder_attr b NL80211_ATTR_IE (c_ies r) else b.

Definition bss_named (b : bytes) (r : Connect) : bytes :=
  let b := match c_bssid r with Some bssid => MsgBuilder_attr b NL80211_ATTR_MAC bssid | None => b end in
  match c_freq_mhz r with Some freq => MsgBuilder_attr_u32 b NL80211_ATTR_WIPHY_FREQ freq | None => b end.

Definition connect (family seq ifindex : Z) (r : Connect) : bytes :=
  let b := request_of family ACKED seq NL80211_CMD_CONNECT in
  let b := MsgBuilder_attr_u32 b NL80211_ATTR_IFINDEX ifindex in
  let b := MsgBuilder_attr b NL80211_ATTR_SSID (c_ssid r) in
  let b := MsgBuilder_attr_u32 b NL80211_ATTR_AUTH_TYPE (c_auth_type r) in
  let b := crypto_settings (bss_named b r) r in
  let b := if is_some (c_group_cipher r) || negb (is_empty (c_pairwise_ciphers r))
           then MsgBuilder_attr b NL80211_ATTR_PRIVACY [] else b in
  MsgBuilder_finish b.
Definition associate (family seq ifindex : Z) (r : Connect) : bytes :=
  let b := request_of family ACKED seq NL80211_CMD_ASSOCIATE in
  let b := MsgBuilder_attr_u32 b NL80211_ATTR_IFINDEX ifindex in
  let b := MsgBuilder_attr b NL80211_ATTR_SSID (c_ssid r) in
  MsgBuilder_finish (crypto_settings (bss_named b r) r).

Definition authenticate (family seq ifindex : Z) (ssid bssid : bytes) (freq_mhz auth_type : Z) (data : bytes) : bytes :=
  let b := request_of family ACKED seq NL80211_CMD_AUTHENTICATE in
  let b := MsgBuilder_attr_u32 b NL80211_ATTR_IFINDEX ifindex in
  let b := MsgBuilder_attr b NL80211_ATTR_MAC bssid in
  let b := MsgBuilder_attr_u32 b NL80211_ATTR_WIPHY_FREQ freq_mhz in
  let b := MsgBuilder_attr b NL80211_ATTR_SSID ssid in
  let b := MsgBuilder_attr_u32 b NL80211_ATTR_AUTH_TYPE auth_type in
  MsgBuilder_finish (MsgBuilder_attr b NL80211_ATTR_AUTH_DATA data).

Definition disconnect (family seq ifindex reason : Z) : bytes :=
  let b := request_of family ACKED seq NL80211_CMD_DISCONNECT in
  let b := MsgBuilder_attr_u32 b NL80211_ATTR_IFINDEX ifindex in
  MsgBuilder_finish (MsgBuilder_attr b NL80211_ATTR_REASON_CODE (ne_encode 2 reason)).

Definition set_power_save (family seq ifindex : Z) (enabled : bool) : bytes :=
  let b := request_of family ACKED seq NL80211_CMD_SET_POWER_SAVE in
  let b := MsgBuilder_attr_u32 b NL80211_ATTR_IFINDEX ifindex in
  MsgBuilder_finish (MsgBuilder_attr_u32 b NL80211_ATTR_PS_STATE
    (if enabled then NL80211_PS_ENABLED else NL80211_PS_DISABLED)).

Definition new_pairwise_key (family seq ifindex : Z) (peer : bytes) (cipher : Z) (key : bytes) : bytes :=
  let b := request_of family ACKED seq NL80211_CMD_NEW_KEY in
  let b := MsgBuilder_attr_u32 b NL80211_ATTR_IFINDEX ifindex in
  let b := MsgBuilder_attr b NL80211_ATTR_MAC peer in
  let b := MsgBuilder_attr b NL80211_ATTR_KEY_DATA key in
  let b := MsgBuilder_attr b NL80211_ATTR_KEY_IDX [0] in
  let b := MsgBuilder_attr_u32 b NL80211_ATTR_KEY_CIPHER cipher in
  MsgBuilder_finish (MsgBuilder_attr_u32 b NL80211_ATTR_KEY_TYPE NL80211_KEYTYPE_PAIRWISE).
Definition new_group_key (family seq ifindex idx cipher : Z) (key rsc : bytes) : bytes :=
  let b := request_of family ACKED seq NL80211_CMD_NEW_KEY in
  let b := MsgBuilder_attr_u32 b NL80211_ATTR_IFINDEX ifindex in
  let b := MsgBuilder_attr b NL80211_ATTR_KEY_DATA key in
  let b := MsgBuilder_attr b NL80211_ATTR_KEY_IDX [idx] in
  let b := MsgBuilder_attr_u32 b NL80211_ATTR_KEY_CIPHER cipher in
  let b := MsgBuilder_attr_u32 b NL80211_ATTR_KEY_TYPE NL80211_KEYTYPE_GROUP in
  MsgBuilder_finish (if negb (is_empty rsc) then MsgBuilder_attr b NL80211_ATTR_KEY_SEQ rsc else b).
Definition set_default_key (family seq ifindex idx : Z) (scope : KeyScope) : bytes :=
  let types := match scope with Unicast | Both => Nest_attr [] NL80211_KEY_DEFAULT_TYPE_UNICAST [] | _ => [] end in
  let types := match scope with
               | Multicast | Both => Nest_attr types NL80211_KEY_DEFAULT_TYPE_MULTICAST []
               | _ => types
               end in
  let b := request_of family ACKED seq NL80211_CMD_SET_KEY in
  let b := MsgBuilder_attr_u32 b NL80211_ATTR_IFINDEX ifindex in
  let b := MsgBuilder_attr b NL80211_ATTR_KEY_IDX [idx] in
  let b := MsgBuilder_attr b NL80211_ATTR_KEY_DEFAULT [] in
  MsgBuilder_finish (MsgBuilder_attr b NL80211_ATTR_KEY_DEFAULT_TYPES types).

(** ** sock.rs: commands, each one acknowledged exchange *)

Definition Nl80211_trigger_scan (family sock ifindex : Z) (ssids : list bytes) :=
  ask sock (fun seq => trigger_scan family seq ifindex ssids) ignore tt.
Definition Nl80211_connect (family sock ifindex : Z) (r : Connect) :=
  ask sock (fun seq => connect family seq ifindex r) ignore tt.
Definition Nl80211_authenticate (family sock ifindex : Z) (ssid bssid : bytes) (freq_mhz auth_type : Z) (data : bytes) :=
  ask sock (fun seq => authenticate family seq ifindex ssid bssid freq_mhz auth_type data) ignore tt.
Definition Nl80211_associate (family sock ifindex : Z) (r : Connect) :=
  ask sock (fun seq => associate family seq ifindex r) ignore tt.
Definition Nl80211_disconnect (family sock ifindex reason : Z) :=
  ask sock (fun seq => disconnect family seq ifindex reason) ignore tt.
Definition Nl80211_set_power_save (family sock ifindex : Z) (enabled : bool) :=
  ask sock (fun seq => set_power_save family seq ifindex enabled) ignore tt.
Definition Nl80211_new_pairwise_key (family sock ifindex : Z) (peer : bytes) (cipher : Z) (key : bytes) :=
  ask sock (fun seq => new_pairwise_key family seq ifindex peer cipher key) ignore tt.
Definition Nl80211_new_group_key (family sock ifindex idx cipher : Z) (key rsc : bytes) :=
  ask sock (fun seq => new_group_key family seq ifindex idx cipher key rsc) ignore tt.
Definition Nl80211_set_default_key (family sock ifindex idx : Z) (scope : KeyScope) :=
  ask sock (fun seq => set_default_key family seq ifindex idx scope) ignore tt.

(** ** sock.rs: dumps *)

Inductive NlError := Netlink (e : Error) | NoFamily (name : bytes).

Definition family_handler (_ : option Family) (m : Message) : exec Error (option Family) :=
  Ok (Family_parse (msg_payload m)).
Definition resolve_genl_family (sock : Z) (name : bytes) (dgs : list Datagram) : option (exec NlError Family) :=
  (fun res => match res with
              | Ok (Some f) => Ok f
              | Ok None => Err (NoFamily name)
              | Err e => if bool_decide (e = ErrKernel ENOENT) then Err (NoFamily name) else Err (Netlink e)
              | Panic => Panic
              end) <$> request family_handler (get_family (next_seq sock) name) None dgs.

Definition push_chunk (l : list Wiphy) (m : Message) : exec Error (list Wiphy) :=
  Ok (match WiphyChunk_parse m with Some c => take_chunk c l | None => l end).
Definition sorted_by {A} (key : A -> Z) (res : exec Error (list A)) : exec Error (list A) :=
  l ← res; Ok (sort_by_key key l).
Definition wiphys (family sock : Z) (dgs : list Datagram) : Z * option (exec Error (list Wiphy)) :=
  let (sock, res) := ask sock (get_wiphy family) push_chunk [] dgs in (sock, sorted_by w_index <$> res).

Definition push_interface (l : list Interface) (m : Message) : exec Error (list Interface) :=
  Ok (l ++ option_list (Interface_parse m)).
Definition interfaces (family sock : Z) (dgs : list Datagram) : Z * option (exec Error (list Interface)) :=
  let (sock, res) := ask sock (get_interface family) push_interface [] dgs in (sock, sorted_by i_ifindex <$> res).

Definition bss_of (m : Message) : option Bss :=
  a ← attr_find (NAttrs_of_body (msg_payload m)) NL80211_ATTR_BSS; Bss_parse (attr_payload a).
Definition push_bss (l : list Bss) (m : Message) : exec Error (list Bss) := Ok (l ++ option_list (bss_of m)).
Definition scan_results (family sock ifindex : Z) (dgs : list Datagram) : Z * option (exec Error (list Bss)) :=
  ask sock (fun seq => get_scan family seq ifindex) push_bss [] dgs.

(** ** sock.rs: [Events::read]

    What the receives return until the queue is empty; the receive buffer is
    64 KiB, and a datagram cut short is dropped. *)
Definition event_of (family : Z) (n : Z * bytes) : option Event :=
  if fst n =? family then Event_decode (snd n) else None.
Fixpoint Events_read (family : Z) (rs : list Recv) : exec Error (list Event) :=
  match rs with
  | [] | Again :: _ => Ok []
  | Interrupted :: _ => Err (ErrIo EINTR)
  | RecvFailed errno :: _ => Err (ErrIo errno)
  | Got dg :: rs => l ← Events_read family rs; Ok (omap (event_of family) (notifications dg) ++ l)
  end.
End msg.

(** ** What a request carries *)
Section carried.
Context {he : HostEndian}.

Definition attr (k : Z) (data : bytes) : Attr := {| attr_kind := k; attr_payload := data |}.

(** A request's attributes, in order: each type at most once, with a payload
    or left out. *)
Abbreviation fields := (list (Z * option bytes)).
Definition present (l : fields) : list Attr := omap (fun f => attr (fst f) <$> snd f) l.
Definition field (k : Z) (l : fields) : option bytes :=
  match find_first (fun f => fst f =? k) l with Some f => snd f | None => None end.

Lemma field_cons k j o l : field k ((j, o) :: l) = if j =? k then o else field k l.
Proof. unfold field. cbn. by destruct (j =? k). Qed.

Lemma find_present_none k l : k ∉ map fst l -> attr_find (present l) k = None.
Proof.
  induction l as [|[j [d|]] l IH]; intros Hk; [done|..]; cbn in *; rewrite elem_of_cons in Hk.
  - rewrite (proj2 (Z.eqb_neq _ _)) by naive_solver. apply IH. tauto.
  - apply IH. tauto.
Qed.
Lemma find_present k l : NoDup (map fst l) -> attr_find (present l) k = attr k <$> field k l.
Proof.
  induction l as [|[j o] l IH]; [done|]. cbn [map]. intros [Hj Hnd]%NoDup_cons.
  rewrite field_cons. destruct (Z.eqb_spec j k) as [->|Hne].
  - destruct o as [d|]; cbn; [by rewrite Z.eqb_refl|]. by apply find_present_none.
  - rewrite <- IH by done. destruct o as [d|]; [|done]. cbn. by rewrite (proj2 (Z.eqb_neq _ _)).
Qed.

Definition push (b : bytes) (l : list Attr) : bytes :=
  fold_left (fun b a => MsgBuilder_attr b (attr_kind a) (attr_payload a)) l b.
Lemma push_cons b k o l :
  push (match o with Some d => MsgBuilder_attr b k d | None => b end) (present l) = push b (present ((k, o) :: l)).
Proof. by destruct o. Qed.
Lemma push_some b k d l : push (MsgBuilder_attr b k d) (present l) = push b (present ((k, Some d) :: l)).
Proof. done. Qed.
Lemma push_if (c : bool) b k d l :
  push (if c then MsgBuilder_attr b k d else b) (present l) = push b (present ((k, if c then Some d else None) :: l)).
Proof. by destruct c. Qed.
Lemma push_word b k (o : option Z) l :
  push (match o with Some v => MsgBuilder_attr b k (ne_encode 4 v) | None => b end) (present l)
  = push b (present ((k, ne_encode 4 <$> o) :: l)).
Proof. by destruct o. Qed.

(** The type of an attribute as nl80211's own walk reads it. *)
Definition unflagged (a : Attr) : Attr := attr (Z.land (attr_kind a) NLA_TYPE_MASK) (attr_payload a).
Lemma NAttrs_next_masked l :
  NAttrs_next l = (fun p => (unflagged (fst p), snd p)) <$> Attrs_next l.
Proof. unfold NAttrs_next, Attrs_next. by repeat case_match. Qed.
Lemma NAttrs_eq l : NAttrs l = match NAttrs_next l with None => [] | Some (a, r) => a :: NAttrs r end.
Proof.
  apply items_eq. intros l' a' r'. rewrite NAttrs_next_masked.
  destruct (Attrs_next l') as [[a r]|] eqn:Hn; [|done]. intros [= _ <-]. by apply Attrs_next_consumes in Hn.
Qed.
Lemma NAttrs_masked l : NAttrs l = map unflagged (Attrs l).
Proof.
  apply (items_ind Attrs_next length Attrs_next_consumes (fun l => NAttrs l = map unflagged (Attrs l))); clear l;
    [intros l Hn|intros l a r Hn IH];
    rewrite NAttrs_eq, Attrs_eq, NAttrs_next_masked, Hn; [done|].
  change (unflagged a :: NAttrs r = unflagged a :: map unflagged (Attrs r)). by rewrite IH.
Qed.

Definition plain_kind (k : Z) : Prop := 0 <= k < 2 ^ 14.
Lemma unflagged_plain a : plain_kind (attr_kind a) -> unflagged a = a.
Proof.
  intros H. unfold unflagged. change NLA_TYPE_MASK with (Z.ones 14).
  rewrite Z.land_ones, Z.mod_small by (unfold plain_kind in H; lia). by destruct a.
Qed.
Lemma map_unflagged l : Forall (fun a => plain_kind (attr_kind a)) l -> map unflagged l = l.
Proof. induction 1 as [|a l Ha _ IH]; [done|]. cbn. by rewrite unflagged_plain, IH. Qed.

(** Fields that fit their attribute headers, and a whole that fits its
    message header. *)
Definition fields_ok (l : fields) : Prop :=
  NoDup (map fst l) /\ Forall (fun f => plain_kind (fst f)) l
  /\ Forall (fun f => match snd f with Some d => len d < 65532 | None => True end) l
  /\ (length l <= 32)%nat.

Lemma present_ok l : fields_ok l ->
  Forall attr_wf (present l) /\ Forall (fun a => plain_kind (attr_kind a)) (present l)
  /\ len (concat (map attr_wire (present l))) <= 65540 * Z.of_nat (length l).
Proof.
  intros (_ & Hk & Hd & _). induction l as [|[k o] l IH].
  { split_and!; [constructor..|done]. }
  apply Forall_cons in Hk as [Hk Hks]. apply Forall_cons in Hd as [Hd Hds].
  destruct (IH Hks Hds) as (Hw & Hp & Hl). cbn [snd fst] in *. destruct o as [d|]; cbn [length]; [|split_and!; [done..|]].
  - change (present ((k, Some d) :: l)) with (attr k d :: present l). split_and!.
    + constructor; [|done]. split; cbn [attr attr_kind attr_payload]; unfold plain_kind, is_uint, ATTR_HDR_LEN, len in *; lia.
    + by constructor.
    + unfold len in *. cbn [map concat]. rewrite length_app, attr_wire_length. cbn [attr attr_payload].
      pose proof (proj1 (align_spec (ATTR_HDR_LEN + length d))). unfold ATTR_HDR_LEN in *. lia.
  - change (present ((k, None) :: l)) with (present l). unfold len in *. lia.
Qed.

(** The kernel's view of a request: the command, and the attributes by type. *)
Lemma request_fields family flags seq cmd l :
  is_u16 family -> is_u16 flags -> is_u32 seq -> fields_ok l ->
  exists m, Message_parse (build family flags seq (genlmsghdr cmd 0) (present l)) = Ok m
    /\ msg_kind m = family /\ msg_flags m = flags /\ msg_seq m = seq
    /\ genl_cmd (msg_payload m) = Some cmd
    /\ forall k, attr_find (NAttrs_of_body (msg_payload m)) k = attr k <$> field k l.
Proof.
  intros Hf Hfl Hs Hok. pose proof Hok as (Hnd & _ & _ & Hlen). destruct (present_ok l Hok) as (Hw & Hp & Hl).
  destruct (netlink_build_parse family flags seq (genlmsghdr cmd 0) (present l) [] Hf Hfl Hs Hw)
    as (m & Hm & Hk & Hfg & Hsq & _ & _ & Hpay).
  { unfold len, is_uint. rewrite build_length, pad_length. change (length (genlmsghdr cmd 0)) with 4%nat.
    change (align 4) with 4%nat. unfold len in Hl. lia. }
  rewrite app_nil_r in Hm. exists m. split_and!; try done.
  - by rewrite Hpay.
  - intros k. rewrite Hpay. change (pad (genlmsghdr cmd 0)) with (genlmsghdr cmd 0).
    change (NAttrs_of_body (genlmsghdr cmd 0 ++ concat (map attr_wire (present l))))
      with (NAttrs (concat (map attr_wire (present l)))).
    rewrite NAttrs_masked, Attrs_wire, map_unflagged by done. by apply find_present.
Qed.

(** ** Joining *)

(** The suites of a list attribute, four octets each. *)
Definition next_suite (l : bytes) : option (Z * bytes) :=
  match l with a :: b :: c :: d :: l => Some (ne_decode [a; b; c; d], l) | _ => None end.
Definition suites_of (l : bytes) : list Z := items next_suite length l.
Lemma next_suite_consumes l a r : next_suite l = Some (a, r) -> (length r < length l)%nat.
Proof. destruct l as [|? [|? [|? [|? l]]]]; try done. intros [= _ <-]. cbn. lia. Qed.
Lemma suites_of_suites l : Forall is_u32 l -> suites_of (suites l) = l.
Proof.
  induction 1 as [|v l Hv _ IH]; [done|]. unfold suites_of. rewrite items_eq by apply next_suite_consumes.
  unfold suites. cbn [map concat]. fold (suites l). unfold suites_of in IH.
  pose proof (length_ne_encode 4 v) as Hl.
  destruct (ne_encode 4 v) as [|a [|b [|c [|d [|]]]]] eqn:Hv4; try done.
  cbn [app next_suite]. rewrite IH, <- Hv4, (ne_decode_encode 4) by done. done.
Qed.
Lemma suites_length l : length (suites l) = (4 * length l)%nat.
Proof. induction l as [|v l IH]; [done|]. cbn. rewrite length_app, length_ne_encode. unfold suites in IH. lia. Qed.

(** What a request to join a network says, read back by type. *)
Definition joining (l : list Attr) : Connect :=
  let f k := attr_payload <$> attr_find l k in
  let word k := ne_decode <$> f k in
  let list k := default [] (suites_of <$> f k) in
  {| c_ssid := default [] (f NL80211_ATTR_SSID); c_bssid := f NL80211_ATTR_MAC;
     c_freq_mhz := word NL80211_ATTR_WIPHY_FREQ; c_auth_type := default 0 (word NL80211_ATTR_AUTH_TYPE);
     c_wpa_versions := default 0 (word NL80211_ATTR_WPA_VERSIONS);
     c_pairwise_ciphers := list NL80211_ATTR_CIPHER_SUITES_PAIRWISE;
     c_group_cipher := word NL80211_ATTR_CIPHER_SUITE_GROUP;
     c_akms := list NL80211_ATTR_AKM_SUITES; c_mfp := word NL80211_ATTR_USE_MFP;
     c_ies := default [] (f NL80211_ATTR_IE) |}.

Definition Connect_ok (r : Connect) : Prop :=
  (length (c_ssid r) <= 32)%nat
  /\ (match c_bssid r with Some b => length b = 6%nat | None => True end)
  /\ (match c_freq_mhz r with Some v => is_u32 v | None => True end)
  /\ is_u32 (c_auth_type r) /\ is_u32 (c_wpa_versions r)
  /\ Forall is_u32 (c_pairwise_ciphers r) /\ (length (c_pairwise_ciphers r) <= 100)%nat
  /\ (match c_group_cipher r with Some v => is_u32 v | None => True end)
  /\ Forall is_u32 (c_akms r) /\ (length (c_akms r) <= 100)%nat
  /\ (match c_mfp r with Some v => is_u32 v | None => True end)
  /\ (length (c_ies r) <= 1000)%nat.
#[global] Instance Connect_ok_dec r : Decision (Connect_ok r).
Proof. unfold Connect_ok. repeat apply and_dec; try apply _; case_match; apply _. Defined.

Definition nonempty {A} (l : list A) (d : bytes) : option bytes := if negb (is_empty l) then Some d else None.
Definition crypto_fields (r : Connect) (rest : fields) : fields :=
  (NL80211_ATTR_WPA_VERSIONS, if negb (c_wpa_versions r =? 0) then Some (ne_encode 4 (c_wpa_versions r)) else None)
  :: (NL80211_ATTR_CIPHER_SUITES_PAIRWISE, nonempty (c_pairwise_ciphers r) (suites (c_pairwise_ciphers r)))
  :: (NL80211_ATTR_CIPHER_SUITE_GROUP, ne_encode 4 <$> c_group_cipher r)
  :: (NL80211_ATTR_AKM_SUITES, nonempty (c_akms r) (suites (c_akms r)))
  :: (NL80211_ATTR_USE_MFP, ne_encode 4 <$> c_mfp r)
  :: (NL80211_ATTR_IE, nonempty (c_ies r) (c_ies r)) :: rest.
Definition bss_fields (r : Connect) (rest : fields) : fields :=
  (NL80211_ATTR_MAC, c_bssid r) :: (NL80211_ATTR_WIPHY_FREQ, ne_encode 4 <$> c_freq_mhz r) :: rest.
Definition private (r : Connect) : bool := is_some (c_group_cipher r) || negb (is_empty (c_pairwise_ciphers r)).
Definition connect_fields (ifindex : Z) (r : Connect) : fields :=
  (NL80211_ATTR_IFINDEX, Some (ne_encode 4 ifindex)) :: (NL80211_ATTR_SSID, Some (c_ssid r))
  :: (NL80211_ATTR_AUTH_TYPE, Some (ne_encode 4 (c_auth_type r)))
  :: bss_fields r (crypto_fields r [(NL80211_ATTR_PRIVACY, if private r then Some [] else None)]).
Definition associate_fields (ifindex : Z) (r : Connect) : fields :=
  (NL80211_ATTR_IFINDEX, Some (ne_encode 4 ifindex)) :: (NL80211_ATTR_SSID, Some (c_ssid r))
  :: bss_fields r (crypto_fields r []).

Lemma crypto_settings_fields b r l : push (crypto_settings b r) (present l) = push b (present (crypto_fields r l)).
Proof.
  unfold crypto_settings, crypto_fields, nonempty, MsgBuilder_attr_u32.
  by rewrite push_if, push_word, push_if, push_word, push_if, push_if.
Qed.
Lemma bss_named_fields b r l : push (bss_named b r) (present l) = push b (present (bss_fields r l)).
Proof. unfold bss_named, bss_fields, MsgBuilder_attr_u32. by rewrite push_word, push_cons. Qed.

Lemma connect_build family seq ifindex r :
  connect family seq ifindex r
  = build family ACKED seq (genlmsghdr NL80211_CMD_CONNECT 0) (present (connect_fields ifindex r)).
Proof.
  unfold build. change (fold_left _ (present ?l) ?b) with (push b (present l)).
  unfold connect, connect_fields, private, MsgBuilder_attr_u32.
  by rewrite <- push_some, <- push_some, <- push_some, <- bss_named_fields, <- crypto_settings_fields, <- push_if.
Qed.
Lemma associate_build family seq ifindex r :
  associate family seq ifindex r
  = build family ACKED seq (genlmsghdr NL80211_CMD_ASSOCIATE 0) (present (associate_fields ifindex r)).
Proof.
  unfold build. change (fold_left _ (present ?l) ?b) with (push b (present l)).
  unfold associate, associate_fields, MsgBuilder_attr_u32.
  by rewrite <- push_some, <- push_some, <- bss_named_fields, <- crypto_settings_fields.
Qed.

Lemma crypto_fields_ok r rest :
  Connect_ok r ->
  Forall (fun f => match snd f with Some d => len d < 65532 | None => True end) rest ->
  Forall (fun f => match snd f with Some d => len d < 65532 | None => True end) (bss_fields r (crypto_fields r rest)).
Proof.
  intros (Hs & Hb & _ & _ & _ & _ & Hpl & _ & _ & Hal & _ & Hi) Hrest.
  unfold bss_fields, crypto_fields, nonempty, len.
  repeat apply Forall_cons_2; cbn [snd]; [..|exact Hrest];
    repeat case_match; simplify_option_eq; rewrite ?suites_length, ?length_ne_encode; try done; lia.
Qed.

Lemma word_back {v : Z} : is_u32 v -> ne_decode (ne_encode 4 v) = v.
Proof. apply (ne_decode_encode 4). Qed.
Lemma word_back_opt (o : option Z) :
  match o with Some v => is_u32 v | None => True end -> ne_decode <$> (ne_encode 4 <$> o) = o.
Proof. destruct o; [|done]. intros H. cbn. f_equal. by apply word_back. Qed.
Lemma list_back l : Forall is_u32 l -> default [] (suites_of <$> nonempty l (suites l)) = l.
Proof. intros H. unfold nonempty. destruct l; [done|]. cbn [is_empty negb fmap option_fmap option_map default]. by apply suites_of_suites. Qed.

Lemma payload_field l fs k : (forall k, attr_find l k = attr k <$> field k fs) -> attr_payload <$> attr_find l k = field k fs.
Proof. intros ->. by destruct (field k fs). Qed.

(** The kernel is asked to join exactly the network the policy chose:
    the request parses back to the command, the interface and every field of
    the choice, the station's own elements verbatim, and asks for privacy
    exactly when a cipher was named. *)
Theorem connect_request_exact family seq ifindex r :
  is_u16 family -> is_u32 seq -> is_u32 ifindex -> Connect_ok r ->
  exists m, Message_parse (connect family seq ifindex r) = Ok m
    /\ msg_kind m = family /\ msg_seq m = seq /\ genl_cmd (msg_payload m) = Some NL80211_CMD_CONNECT
    /\ let l := NAttrs_of_body (msg_payload m) in
       joining l = r
       /\ attr_find l NL80211_ATTR_IFINDEX ≫= attr_u32_of = Some ifindex
       /\ is_some (attr_find l NL80211_ATTR_PRIVACY) = private r.
Proof.
  intros Hf Hs Hi Hr. rewrite connect_build.
  destruct (request_fields family ACKED seq NL80211_CMD_CONNECT (connect_fields ifindex r))
    as (m & Hm & Hk & _ & Hsq & Hc & Hfind); [done..| |].
  { split_and!.
    - apply (bool_decide_unpack _). vm_compute. exact I.
    - apply (bool_decide_unpack _). vm_compute. exact I.
    - pose proof (proj1 Hr) as Hss. unfold connect_fields, len.
      do 3 (apply Forall_cons_2; [cbn [snd]; rewrite ?length_ne_encode; lia|]).
      apply crypto_fields_ok; [done|]. repeat constructor. cbn. by destruct (private r).
    - cbn. lia. }
  exists m. split_and!; try done. cbv zeta. pose proof (fun k => payload_field _ _ k Hfind) as Hp.
  destruct Hr as (_ & _ & Hfr & Ha & Hw & Hpl & _ & Hg & Hal & _ & Hmf & _). split_and!.
  - unfold joining. rewrite !Hp.
    change (field NL80211_ATTR_SSID (connect_fields ifindex r)) with (Some (c_ssid r)).
    change (field NL80211_ATTR_MAC (connect_fields ifindex r)) with (c_bssid r).
    change (field NL80211_ATTR_WIPHY_FREQ (connect_fields ifindex r)) with (ne_encode 4 <$> c_freq_mhz r).
    change (field NL80211_ATTR_AUTH_TYPE (connect_fields ifindex r)) with (Some (ne_encode 4 (c_auth_type r))).
    change (field NL80211_ATTR_WPA_VERSIONS (connect_fields ifindex r))
      with (if negb (c_wpa_versions r =? 0) then Some (ne_encode 4 (c_wpa_versions r)) else None).
    change (field NL80211_ATTR_CIPHER_SUITES_PAIRWISE (connect_fields ifindex r))
      with (nonempty (c_pairwise_ciphers r) (suites (c_pairwise_ciphers r))).
    change (field NL80211_ATTR_CIPHER_SUITE_GROUP (connect_fields ifindex r)) with (ne_encode 4 <$> c_group_cipher r).
    change (field NL80211_ATTR_AKM_SUITES (connect_fields ifindex r)) with (nonempty (c_akms r) (suites (c_akms r))).
    change (field NL80211_ATTR_USE_MFP (connect_fields ifindex r)) with (ne_encode 4 <$> c_mfp r).
    change (field NL80211_ATTR_IE (connect_fields ifindex r)) with (nonempty (c_ies r) (c_ies r)).
    rewrite !word_back_opt, !list_back by done.
    destruct r as [ssid bssid freq auth wpa pw grp akms mfp ies]; cbn in *. f_equal.
    + by rewrite word_back.
    + destruct (Z.eqb_spec wpa 0) as [->|]; cbn; [done|by rewrite word_back].
    + unfold nonempty. by destruct ies.
  - rewrite Hfind. cbn. unfold attr_u32_of. cbn [attr_payload attr].
    rewrite get_range_all by by rewrite length_ne_encode. cbn. f_equal. by apply word_back.
  - rewrite Hfind. change (field NL80211_ATTR_PRIVACY (connect_fields ifindex r))
      with (if private r then Some (A := bytes) [] else None). by destruct (private r).
Qed.

(** ** Notifications *)

(** What reading the event socket finds: a delivered datagram is its
    messages, in order; one the kernel cut short is lost, and only that. *)
Inductive Queued := Whole (ms : list Message) | CutShort (dg : Datagram).
Definition received (q : Queued) : Recv :=
  Got (match q with Whole ms => delivered ms | CutShort dg => dg end).
Definition queued_ok (q : Queued) : Prop :=
  match q with
  | Whole ms => Forall message_wf ms
  | CutShort dg => (length (dg_bytes dg) < dg_actual dg)%nat
  end.
#[global] Instance queued_ok_dec q : Decision (queued_ok q).
Proof. destruct q; apply _. Defined.
Definition messages (q : Queued) : list Message := match q with Whole ms => ms | CutShort _ => [] end.

Lemma notifications_queued q :
  queued_ok q -> forall rest, received q :: rest = Got (match q with Whole ms => delivered ms | CutShort dg => dg end) :: rest
  /\ notifications (match q with Whole ms => delivered ms | CutShort dg => dg end)
     = map (fun m => (msg_kind m, msg_payload m)) (messages q).
Proof.
  intros Hq rest. split; [done|]. destruct q as [ms|dg]; cbn [messages].
  - by apply notifications_delivered.
  - cbn in Hq. unfold notifications. by rewrite bool_decide_true.
Qed.

(** No notification is lost or reordered: draining the event socket gives
    the events of exactly the family's messages in the queue's order, and a
    datagram the kernel had to cut short costs only itself. *)
Theorem events_exact family qs rest :
  Forall queued_ok qs ->
  Events_read family (map received qs ++ Again :: rest)
  = Ok (omap (fun m => if msg_kind m =? family then Event_decode (msg_payload m) else None)
          (concat (map messages qs))).
Proof.
  intros Hq. induction Hq as [|q qs Hq _ IH]; [done|].
  cbn [map app concat]. destruct (notifications_queued q Hq (map received qs ++ Again :: rest)) as [Hr Hn].
  rewrite Hr. cbn [Events_read]. rewrite IH. cbn [mbind exec_bind]. rewrite Hn, omap_app.
  do 2 f_equal. clear. induction (messages q) as [|m ms IH]; [done|]. cbn [map omap list_omap].
  rewrite IH. done.
Qed.
End carried.

(** ** Witnesses, on a little-endian host *)
Section witnesses.
#[local] Instance little : HostEndian := false.

(** A WPA2 network with its RSN element. *)
Definition demo_connect : Connect :=
  {| c_ssid := [99; 97; 119]; c_bssid := Some [2; 0; 0; 0; 0; 1]; c_freq_mhz := Some 2412; c_auth_type := 0;
     c_wpa_versions := 2; c_pairwise_ciphers := [0x000fac04]; c_group_cipher := Some 0x000fac04;
     c_akms := [0x000fac02]; c_mfp := None; c_ies := [48; 2; 1; 0] |}.

Lemma connect_request_exact_witness :
  exists m, Message_parse (connect 28 5 3 demo_connect) = Ok m
    /\ c_ies (joining (NAttrs_of_body (msg_payload m))) = [48; 2; 1; 0].
Proof.
  destruct (connect_request_exact 28 5 3 demo_connect) as (m & Hm & _ & _ & _ & Hj & _);
    try (apply (bool_decide_unpack _); vm_compute; exact I).
  exists m. split; [exact Hm|]. rewrite Hj. reflexivity.
Defined.

(** A finished scan, a datagram cut short, and another family's message. *)
Definition demo_scan_done (family : Z) : Message :=
  {| msg_len := 20; msg_kind := family; msg_flags := 0; msg_seq := 0; msg_pid := 0; msg_payload := [34; 0; 0; 0] |}.
Definition demo_queue : list Queued :=
  [CutShort {| dg_bytes := [1; 2]; dg_actual := 3 |}; Whole [demo_scan_done 28; demo_scan_done 29]].

Lemma events_exact_witness :
  Events_read 28 (map received demo_queue ++ [Again]) = Ok [ScanComplete 0 0].
Proof.
  rewrite (events_exact 28 demo_queue []); [reflexivity|].
  apply (bool_decide_unpack _). vm_compute. exact I.
Defined.
End witnesses.
