(* ===== verification/Links.v ===== *)
(** * Link notifications: [cawd], links.rs

    Decoding a notification and draining the socket that is subscribed to
    them.  The loop over a datagram is the one of [Netlink]. *)
From S2P Require Import Prelude Bytes Netlink.

Definition RTM_NEWLINK : Z := 16.
Definition RTM_DELLINK : Z := 17.
Definition RTM_NEWADDR : Z := 20.
Definition RTM_DELADDR : Z := 21.
Definition IFF_UP : Z := 0x1.
Definition IFF_RUNNING : Z := 0x40.
Definition IFF_LOWER_UP : Z := 0x10000.
Definition IFINFOMSG_LEN : nat := 16.
Definition IFADDRMSG_LEN : nat := 8.

Inductive LinkEvent :=
| Changed (ifindex : Z) (up carrier : bool)
| Removed (ifindex : Z)
| AddressChanged (ifindex : Z).
#[export] Instance LinkEvent_eq_dec : EqDecision LinkEvent.
Proof. solve_decision. Defined.

Section links.
Context {he : HostEndian}.

Definition LinkEvent_decode (kind : Z) (payload : bytes) : option LinkEvent :=
  if (kind =? RTM_NEWLINK) || (kind =? RTM_DELLINK) then
    body ← get_range 0 IFINFOMSG_LEN payload;
    let ifindex := ne_decode (take 4 (drop 4 body)) in
    if kind =? RTM_DELLINK then Some (Removed ifindex) else
    let flags := ne_decode (take 4 (drop 8 body)) in
    Some (Changed ifindex (has_flag flags IFF_UP) (has_flag flags (Z.lor IFF_LOWER_UP IFF_RUNNING)))
  else if (kind =? RTM_NEWADDR) || (kind =? RTM_DELADDR) then
    body ← get_range 0 IFADDRMSG_LEN payload;
    Some (AddressChanged (ne_decode (take 4 (drop 4 body))))
  else None.

(** [LinkEvents::read]: an interrupted receive is tried again, any other
    refusal ends the drain with what was read. *)
Fixpoint LinkEvents_read (rs : list Recv) : list LinkEvent :=
  match rs with
  | [] | Again :: _ | RecvFailed _ :: _ => []
  | Interrupted :: rs => LinkEvents_read rs
  | Got dg :: rs =>
      omap (fun n => LinkEvent_decode (fst n) (snd n)) (notifications dg) ++ LinkEvents_read rs
  end.

(** The kernel's notification about a link, and about an address on it. *)
Definition link_message (kind ifindex flags : Z) (attrs : bytes) : Z * bytes :=
  (kind, [0; 0; 1; 0] ++ ne_encode 4 ifindex ++ ne_encode 4 flags ++ [0; 0; 0; 0] ++ attrs).
Definition address_message (kind family prefix_len ifindex : Z) (attrs : bytes) : Z * bytes :=
  (kind, [family; prefix_len; 0; 0] ++ ne_encode 4 ifindex ++ attrs).

Lemma four_octets n v : n = 4%nat -> exists a b c d, ne_encode n v = [a; b; c; d].
Proof.
  intros ->. pose proof (length_ne_encode 4 v) as Hl.
  destruct (ne_encode 4 v) as [|a [|b [|c [|d [|]]]]]; try done. by exists a, b, c, d.
Qed.

Lemma link_message_decoded kind ifindex flags attrs :
  kind = RTM_NEWLINK \/ kind = RTM_DELLINK -> is_u32 ifindex -> is_u32 flags ->
  LinkEvent_decode (fst (link_message kind ifindex flags attrs)) (snd (link_message kind ifindex flags attrs))
  = Some (if kind =? RTM_DELLINK then Removed ifindex
          else Changed ifindex (has_flag flags IFF_UP) (has_flag flags (Z.lor IFF_LOWER_UP IFF_RUNNING))).
Proof.
  intros Hk Hi Hf. unfold link_message, LinkEvent_decode. cbn [fst snd].
  replace ((kind =? RTM_NEWLINK) || (kind =? RTM_DELLINK)) with true by (destruct Hk as [-> | ->]; done).
  apply (ne_decode_encode 4) in Hi, Hf.
  destruct (four_octets 4 ifindex eq_refl) as (a & b & c & d & Ei). rewrite Ei in *.
  destruct (four_octets 4 flags eq_refl) as (e & f & g & h & Ef). rewrite Ef in *.
  change ([0; 0; 1; 0] ++ [a; b; c; d] ++ [e; f; g; h] ++ [0; 0; 0; 0] ++ attrs)
    with ([0; 0; 1; 0; a; b; c; d; e; f; g; h; 0; 0; 0; 0] ++ attrs).
  rewrite get_range_here by done. cbn [mbind option_bind]. cbn [drop take]. rewrite Hi, Hf. by destruct (kind =? RTM_DELLINK).
Qed.

Lemma address_message_decoded kind family prefix_len ifindex attrs :
  kind = RTM_NEWADDR \/ kind = RTM_DELADDR -> is_u32 ifindex ->
  LinkEvent_decode (fst (address_message kind family prefix_len ifindex attrs))
    (snd (address_message kind family prefix_len ifindex attrs)) = Some (AddressChanged ifindex).
Proof.
  intros Hk Hi. unfold address_message, LinkEvent_decode. cbn [fst snd].
  replace ((kind =? RTM_NEWLINK) || (kind =? RTM_DELLINK)) with false by (destruct Hk as [-> | ->]; done).
  replace ((kind =? RTM_NEWADDR) || (kind =? RTM_DELADDR)) with true by (destruct Hk as [-> | ->]; done).
  apply (ne_decode_encode 4) in Hi.
  destruct (four_octets 4 ifindex eq_refl) as (a & b & c & d & Ei). rewrite Ei in *.
  change ([family; prefix_len; 0; 0] ++ [a; b; c; d] ++ attrs)
    with ([family; prefix_len; 0; 0; a; b; c; d] ++ attrs).
  rewrite get_range_here by done. cbn. by rewrite Hi.
Qed.

(** The drain, over whole datagrams interrupted anywhere. *)
Inductive Queued := Whole (ms : list Message) | Signal.
Definition received (q : Queued) : Recv := match q with Whole ms => Got (delivered ms) | Signal => Interrupted end.
Definition messages (q : Queued) : list Message := match q with Whole ms => ms | Signal => [] end.

Lemma LinkEvents_read_exact qs rest :
  Forall (fun q => Forall message_wf (messages q)) qs ->
  LinkEvents_read (map received qs ++ Again :: rest)
  = omap (fun m => LinkEvent_decode (msg_kind m) (msg_payload m)) (concat (map messages qs)).
Proof.
  induction 1 as [|q qs Hq _ IH]; [done|]. cbn [map app concat]. destruct q as [ms|]; [|exact IH].
  cbn [received messages LinkEvents_read] in *. rewrite IH, notifications_delivered, omap_app by done. f_equal.
  clear. induction ms as [|m ms IH]; [done|]. cbn [map omap list_omap]. by rewrite IH.
Qed.
End links.

(** The link table and the notifications agree on what a carrier is. *)
Lemma carrier_flags flags :
  has_flag flags (Z.lor IFF_LOWER_UP IFF_RUNNING) = has_flag flags IFF_LOWER_UP || has_flag flags IFF_RUNNING.
Proof.
  unfold has_flag. rewrite Z.land_lor_distr_r.
  destruct (Z.eqb_spec (Z.land flags IFF_LOWER_UP) 0) as [->|H1]; [done|].
  cbn [negb orb]. apply negb_true_iff, Z.eqb_neq. intros [? _]%Z.lor_eq_0_iff. done.
Qed.
