(* ===== verification/Ipc.v ===== *)
(** * The protocol: the crate [caw-ipc] (lib.rs and frame.rs)

    What clients ask and are told, and the framing of both: one JSON value per
    line.  The JSON codec is [serde_json]'s, the class [Wire]: what a message
    is written as and what a line is read as are its functions, and its laws
    are what the framing relies on -- a value is written on one line, and is
    read back from it. *)
From S2P Require Import Prelude Text.
From S2P Require Rtnl Dot11.

(** ** lib.rs *)

Definition GROUP : string := "caw".

Inductive Request :=
| ListPorts
| PortInfo (name : bytes)
| PortUp (name : bytes) (up : bool)
| Scan (port : option bytes)
| Connect (ssid : bytes) (port : option bytes)
| Disconnect (ssid : bytes)
| Forget (ssid : bytes)
| Status
| Secret (token : Z) (value : bytes)
| Shutdown.

Definition is_state_changing (r : Request) : bool :=
  match r with
  | ListPorts | PortInfo _ | Scan _ | Status => false
  | Secret _ _ => false
  | PortUp _ _ | Connect _ _ | Disconnect _ | Forget _ | Shutdown => true
  end.

(** An address is the value its text is rendered from. *)
Abbreviation shown_addr := (Rtnl.IpAddr * Z)%type.

Record PortSummary := {
  ps_name : bytes; ps_mac : bytes; ps_up : bool; ps_carrier : bool; ps_wireless : bool;
  ps_addrs : list shown_addr;
}.
Record NetworkSummary := {
  ns_ssid : bytes; ns_bssid : bytes; ns_signal_dbm : Z; ns_freq_mhz : Z; ns_security : Dot11.Security;
  ns_known : bool;
}.

(** ** frame.rs *)

Definition MAX_LINE : Z := Z.shiftl 1 20.

(** [u8::is_ascii_whitespace] *)
Definition is_ascii_whitespace (b : Z) : bool := existsb (Z.eqb b) [9; 10; 12; 13; 32].

(** The octets before the first newline, and those after it. *)
Fixpoint split_line (buf : bytes) : option (bytes * bytes) :=
  match buf with
  | [] => None
  | b :: buf => if b =? 10 then Some ([], buf) else '(l, rest) ← split_line buf; Some (b :: l, rest)
  end.

(** A line without the carriage return some peers end it with. *)
Definition trim_cr (l : bytes) : bytes :=
  match last l with Some b => if b =? 13 then removelast l else l | None => l end.

Section decoder.
Context {T : Type} (from_slice : bytes -> option T).

(** A line that does not parse is kept for the error's text. *)
Inductive Decoded := Message (m : T) | Malformed (line : bytes) | TooLong.

(** [Decoder::next] on the octets held back; the fuel bounds the blank lines
    it skips, each at least an octet. *)
Fixpoint next_loop (fuel : nat) (limit : Z) (buf : bytes) : option Decoded * bytes :=
  match fuel with
  | O => (None, buf)
  | S fuel =>
      match split_line buf with
      | None => if limit <? len buf then (Some TooLong, []) else (None, buf)
      | Some (raw, rest) =>
          let line := trim_cr raw in
          if forallb is_ascii_whitespace line then next_loop fuel limit rest
          else (Some (match from_slice line with Some m => Message m | None => Malformed line end), rest)
      end
  end.
Definition next (limit : Z) (buf : bytes) : option Decoded * bytes := next_loop (S (length buf)) limit buf.

(** [while let Some(decoded) = client.decoder.next()] of the daemon's
    [Server::read], which stops at a line that never ends. *)
Fixpoint drain_loop (fuel : nat) (limit : Z) (buf : bytes) : list Decoded * bytes :=
  match fuel with
  | O => ([], buf)
  | S fuel =>
      match next limit buf with
      | (None, buf) => ([], buf)
      | (Some TooLong, buf) => ([TooLong], buf)
      | (Some d, buf) => let (ds, buf) := drain_loop fuel limit buf in (d :: ds, buf)
      end
  end.
Definition drain (limit : Z) (buf : bytes) : list Decoded * bytes := drain_loop (S (length buf)) limit buf.

(** A connection's reads: each chunk extends the buffer, and what is complete
    is taken out; nothing after a line that never ends. *)
Fixpoint feed (limit : Z) (buf : bytes) (chunks : list bytes) : list Decoded * bytes :=
  match chunks with
  | [] => ([], buf)
  | chunk :: chunks =>
      let (ds, buf) := drain limit (buf ++ chunk) in
      if existsb (fun d => match d with TooLong => true | _ => false end) ds then (ds, buf)
      else let (ds', buf) := feed limit buf chunks in (ds ++ ds', buf)
  end.

(** ** What a stream says

    Its lines, read one at a time: blank ones say nothing. *)
Definition said (raw : bytes) : option Decoded :=
  let line := trim_cr raw in
  if forallb is_ascii_whitespace line then None
  else Some (match from_slice line with Some m => Message m | None => Malformed line end).
Fixpoint lines (held : bytes) (stream : bytes) : list bytes * bytes :=
  match stream with
  | [] => ([], held)
  | b :: stream =>
      if b =? 10 then let (ls, rest) := lines [] stream in (held :: ls, rest)
      else lines (held ++ [b]) stream
  end.

Lemma lines_app held s t :
  lines held (s ++ t) =
  let (ls, rest) := lines held s in let (ls', rest') := lines rest t in (ls ++ ls', rest').
Proof.
  revert held. induction s as [|b s IH]; intros held; cbn [app lines]; [by destruct (lines held t)|].
  case_match; [|apply IH]. rewrite IH. destruct (lines [] s) as [ls rest]. by destruct (lines rest t).
Qed.

Lemma split_line_lines held buf :
  match split_line buf with
  | None => lines held buf = ([], held ++ buf)
  | Some (raw, rest) => lines held buf = (let (ls, r) := lines [] rest in ((held ++ raw) :: ls, r))
                        /\ (length rest < length buf)%nat
  end.
Proof.
  revert held. induction buf as [|b buf IH]; intros held; cbn [split_line lines]; [by rewrite app_nil_r|].
  destruct (b =? 10); [rewrite app_nil_r; split; [done|cbn; lia]|].
  specialize (IH (held ++ [b])). destruct (split_line buf) as [[raw rest]|]; cbn.
  - destruct IH as [-> Hl]. rewrite <- app_assoc. split; [done|lia].
  - by rewrite IH, <- app_assoc.
Qed.

(** Nothing is held that holds a newline. *)
Lemma lines_rest held buf : split_line held = None -> split_line (snd (lines held buf)) = None.
Proof.
  revert held. induction buf as [|b buf IH]; intros held Hh; cbn [lines]; [done|].
  destruct (Z.eqb_spec b 10) as [->|Hb].
  - specialize (IH [] eq_refl). by destruct (lines [] buf).
  - apply IH. clear -Hh Hb. induction held as [|x held IH]; cbn in *.
    + by rewrite (proj2 (Z.eqb_neq _ _)).
    + destruct (x =? 10); [done|]. destruct (split_line held) as [[]|] eqn:Hs; [done|]. by rewrite IH.
Qed.

Definition fits (limit : Z) (rest : bytes) : Prop := len rest <= limit.

(** One message taken out: the first line that says something, or the
    complaint about an unfinished line beyond the limit. *)
Lemma next_message fuel limit buf :
  (length buf < fuel)%nat ->
  let (ls, rest) := lines [] buf in
  match next_loop fuel limit buf with
  | (None, held) => omap said ls = [] /\ held = rest /\ (limit <? len rest) = false
  | (Some TooLong, held) => omap said ls = [] /\ held = [] /\ (limit <? len rest) = true
  | (Some d, held) => (length held < length buf)%nat
      /\ exists ls', lines [] held = (ls', rest) /\ omap said ls = d :: omap said ls'
  end.
Proof.
  revert buf. induction fuel as [|fuel IH]; intros buf Hf; [lia|]. cbn [next_loop].
  pose proof (split_line_lines [] buf) as Hs. destruct (split_line buf) as [[raw tail]|] eqn:Hsp.
  - destruct Hs as [-> Hlen]. destruct (lines [] tail) as [ls r] eqn:Hr. cbn [app].
    replace (omap said (raw :: ls)) with
      (if forallb is_ascii_whitespace (trim_cr raw) then omap said ls
       else match from_slice (trim_cr raw) with Some m => Message m | None => Malformed (trim_cr raw) end :: omap said ls)
      by (cbn [omap list_omap]; unfold said at 3; by destruct (forallb _ _)).
    destruct (forallb is_ascii_whitespace (trim_cr raw)).
    + specialize (IH tail ltac:(lia)). rewrite Hr in IH. destruct (next_loop fuel limit tail) as [[[]|] held]; try done;
        (destruct IH as (? & ls' & ? & ?); split; [lia|by exists ls']).
    + destruct (from_slice (trim_cr raw)); (split; [lia|by exists ls]).
  - rewrite Hs. cbn [app]. by destruct (limit <? len buf).
Qed.

(** What a read makes of what is held and what came: the lines that are
    complete, then a complaint when what is left is beyond the limit, and
    thrown away. *)
Lemma drain_spec limit buf :
  drain limit buf
  = let (ls, rest) := lines [] buf in
    if limit <? len rest then (omap said ls ++ [TooLong], []) else (omap said ls, rest).
Proof.
  unfold drain. remember (S (length buf)) as fuel eqn:Hfuel.
  assert (Hf : (length buf < fuel)%nat) by lia. clear Hfuel. revert buf Hf.
  induction fuel as [|fuel IH]; intros buf Hf; [lia|]. cbn [drain_loop]. unfold next.
  pose proof (next_message (S (length buf)) limit buf ltac:(lia)) as Hn. destruct (lines [] buf) as [ls rest] eqn:Hls.
  assert (Hstep : forall d held, (length held < length buf)%nat
      /\ (exists ls', lines [] held = (ls', rest) /\ omap said ls = d :: omap said ls') ->
    (let (ds, b) := drain_loop fuel limit held in (d :: ds, b))
    = if limit <? len rest then (omap said ls ++ [TooLong], []) else (omap said ls, rest)).
  { intros d held (Hlt & ls' & Hl' & Hsaid). rewrite IH, Hl', Hsaid by lia. by destruct (limit <? len rest). }
  destruct (next_loop _ _ _) as [[[m|line|]|] held]; try (by apply Hstep).
  - destruct Hn as (-> & -> & ->). done.
  - destruct Hn as (-> & -> & ->). done.
Qed.

(** Where a pause falls in a stream is a held-back prefix of a line of it. *)
Fixpoint paused_fits (limit : Z) (held : bytes) (chunks : list bytes) : Prop :=
  match chunks with
  | [] => True
  | chunk :: chunks => let rest := snd (lines held chunk) in fits limit rest /\ paused_fits limit rest chunks
  end.

Lemma drain_held limit held chunk :
  split_line held = None ->
  drain limit (held ++ chunk)
  = let (ls, rest) := lines held chunk in
    if limit <? len rest then (omap said ls ++ [TooLong], []) else (omap said ls, rest).
Proof.
  intros Hh. pose proof (lines_app [] held chunk) as Happ.
  pose proof (split_line_lines [] held) as Hheld. rewrite Hh in Hheld. rewrite Hheld in Happ. cbn [app] in Happ.
  rewrite drain_spec, Happ. by destruct (lines held chunk).
Qed.

(** What a connection's reads are heard to say, pause by pause: the lines
    completed so far; and where more than the limit of an unfinished line has
    come by a pause, a complaint, after which the line starts anew. *)
Fixpoint heard (limit : Z) (held : bytes) (chunks : list bytes) : list Decoded :=
  match chunks with
  | [] => []
  | chunk :: chunks =>
      let (ls, rest) := lines held chunk in
      omap said ls ++ (if limit <? len rest then TooLong :: heard limit [] chunks else heard limit rest chunks)
  end.

(** As long as no line outgrows the limit at a pause, it is the lines of the
    octets, wherever the pauses fall. *)
Lemma heard_lines limit held chunks :
  paused_fits limit held chunks -> heard limit held chunks = omap said (fst (lines held (concat chunks))).
Proof.
  revert held. induction chunks as [|chunk chunks IH]; intros held Hp; cbn [heard concat]; [done|].
  destruct Hp as [Hfit Hp]. rewrite lines_app. destruct (lines held chunk) as [ls rest]. cbn [snd] in *.
  rewrite (proj2 (Z.ltb_ge _ _)) by exact Hfit. rewrite IH by done.
  destruct (lines rest (concat chunks)) as [ls' rest']. cbn [fst]. by rewrite omap_app.
Qed.

Lemma feed_lines limit held chunks :
  split_line held = None -> paused_fits limit held chunks ->
  feed limit held chunks = (omap said (fst (lines held (concat chunks))), snd (lines held (concat chunks))).
Proof.
  revert held. induction chunks as [|chunk chunks IH]; intros held Hh Hp; cbn [feed concat]; [done|].
  destruct Hp as [Hfit Hp]. pose proof (lines_rest held chunk Hh) as Hr. rewrite drain_held by done.
  rewrite lines_app. destruct (lines held chunk) as [ls rest]. cbn [fst snd] in *.
  rewrite (proj2 (Z.ltb_ge _ _)) by exact Hfit.
  replace (existsb _ _) with false.
  2: { symmetry. apply not_true_iff_false. intros Hex. apply existsb_exists in Hex as (d & Hd & Ht).
       apply list_elem_of_In, list_elem_of_omap in Hd as (raw & _ & Hsaid). destruct d; try done.
       unfold said in Hsaid. by repeat case_match. }
  rewrite IH by done. destruct (lines rest (concat chunks)) as [ls' rest']. cbn [fst snd]. by rewrite omap_app.
Qed.
End decoder.

(** ** The blocking reader

    [frame::read] on a stream of octets: blank lines are skipped, and text that
    is not UTF-8 is an error of the reader's.  Each turn takes a line, so the
    octets there are bound it. *)
Inductive ReadError := ReadIo | ReadJson.

Section blocking.
Context {T : Type} (from_str : bytes -> option T).

Fixpoint read_loop (fuel : nat) (stream : bytes) : exec ReadError (option T) * bytes :=
  match fuel with
  | O => (Ok None, stream)
  | S fuel =>
      let '(line, rest, _) := take_line stream in
      if bool_decide (line = []) then (Ok None, rest)
      else match from_utf8 line with
           | None => (Err ReadIo, rest)
           | Some line =>
               let trimmed := trim line in
               if bool_decide (trimmed = []) then read_loop fuel rest
               else (Some <$> ok_or ReadJson (from_str trimmed), rest)
           end
  end.
Definition read (stream : bytes) : exec ReadError (option T) * bytes := read_loop (S (length stream)) stream.

Lemma take_line_split l : let '(line, rest, _) := take_line l in l = line ++ rest /\ (l <> [] -> line <> []).
Proof using Type.
  induction l as [|b l IH]; cbn; [done|]. destruct (b =? 10); [done|].
  destruct (take_line l) as [[line rest] ended]. destruct IH as [-> _]. done.
Qed.

(** The fuel is enough: more of it changes nothing. *)
Lemma read_loop_enough f1 f2 stream :
  (length stream < f1)%nat -> (length stream < f2)%nat -> read_loop f1 stream = read_loop f2 stream.
Proof using Type.
  revert f2 stream. induction f1 as [|f1 IH]; intros f2 stream H1 H2; [lia|]. destruct f2 as [|f2]; [lia|].
  cbn [read_loop]. pose proof (take_line_split stream) as Hs. destruct (take_line stream) as [[line rest] ended].
  destruct Hs as [-> _]. case_bool_decide as Hl; [done|]. destruct (from_utf8 line); [|done]. case_bool_decide; [|done].
  rewrite length_app in H1, H2. destruct line; [done|]. cbn in H1, H2. apply IH; lia.
Qed.

(** A message behind blank lines is read, and what follows it is left. *)
Lemma read_message blanks text rest m :
  10 ∉ text -> utf8_lossy (text ++ [10]) = text ++ [10] -> trim (text ++ [10]) = text -> text <> [] ->
  from_str text = Some m ->
  read (repeat 10 blanks ++ text ++ [10] ++ rest) = (Ok (Some m), rest).
Proof using Type.
  intros Hn Hu Ht Hne Hm. induction blanks as [|blanks IH].
  - unfold read. cbn [repeat app read_loop].
    assert (Hl : take_line (text ++ 10 :: rest) = (text ++ [10], rest, true)).
    { clear -Hn. induction text as [|b text IH]; [done|]. apply not_elem_of_cons in Hn as [Hb Hn]. cbn.
      rewrite (proj2 (Z.eqb_neq _ _)) by done. by rewrite IH. }
    rewrite Hl. rewrite bool_decide_eq_false_2 by (by destruct text). unfold from_utf8.
    rewrite bool_decide_eq_true_2 by done. cbn zeta. rewrite Ht, bool_decide_eq_false_2 by done. by rewrite Hm.
  - unfold read in IH |- *. cbn [repeat app length read_loop take_line Z.eqb Pos.eqb].
    change (bool_decide ([10] = [])) with false. change (from_utf8 [10]) with (Some [10]).
    change (bool_decide (trim [10] = [])) with true. cbn beta iota zeta. exact IH.
Qed.
End blocking.

(** ** What is written is read back *)

(** [serde_json] on one type of message. *)
Class Wire (T : Type) := { to_vec : T -> bytes; from_slice : bytes -> option T }.
(** A JSON text has no raw line ending, is not blank, and parses back. *)
Class WireOk T `{Wire T} := {
  wire_one_line (m : T) : 10 ∉ to_vec m /\ 13 ∉ to_vec m;
  wire_not_blank (m : T) : forallb is_ascii_whitespace (to_vec m) = false;
  wire_back (m : T) : from_slice (to_vec m) = Some m;
}.

Section stream.
Context {T : Type} `{WireOk T}.

(** [encode] *)
Definition encode (m : T) : bytes := to_vec m ++ [10].

Lemma lines_no_newline held l : 10 ∉ l -> lines held l = ([], held ++ l).
Proof.
  revert held. induction l as [|b l IH]; intros held Hl; cbn [lines]; [by rewrite app_nil_r|].
  apply not_elem_of_cons in Hl as [Hb Hl]. rewrite (proj2 (Z.eqb_neq _ _)) by done.
  by rewrite IH, <- app_assoc.
Qed.

Lemma lines_encode ms : lines [] (concat (map encode ms)) = (map to_vec ms, []).
Proof.
  induction ms as [|m ms IH]; [done|]. cbn [map concat]. unfold encode at 1. rewrite <- app_assoc.
  rewrite lines_app, lines_no_newline by apply wire_one_line. cbn. by rewrite IH.
Qed.

Lemma trim_cr_wire m : trim_cr (to_vec m) = to_vec m.
Proof.
  unfold trim_cr. destruct (last (to_vec m)) as [b|] eqn:Hl; [|done].
  destruct (Z.eqb_spec b 13) as [->|]; [|done]. exfalso.
  by apply (proj2 (wire_one_line m)), last_Some_elem_of.
Qed.

Lemma said_wire ms : omap (said from_slice) (map to_vec ms) = map Message ms.
Proof.
  induction ms as [|m ms IH]; [done|]. cbn [map omap list_omap]. unfold said.
  rewrite trim_cr_wire, wire_not_blank, wire_back. f_equal. exact IH.
Qed.

Lemma paused_prefix limit (held : bytes) chunks :
  Forall (fun l => len l <= limit) (fst (lines held (concat chunks))) ->
  len (snd (lines held (concat chunks))) <= limit ->
  paused_fits limit held chunks.
Proof.
  revert held. induction chunks as [|chunk chunks IH]; intros held Hl Hr; cbn [paused_fits]; [done|].
  cbn [concat] in *. rewrite lines_app in Hl, Hr. destruct (lines held chunk) as [ls rest] eqn:He. cbn [snd].
  destruct (lines rest (concat chunks)) as [ls' rest'] eqn:He'. cbn [fst snd] in *.
  apply Forall_app in Hl as [_ Hl]. split; [|apply IH; by rewrite He'].
  assert (Hpre : forall s h, exists t, match fst (lines h s) with [] => snd (lines h s) | l :: _ => l end = h ++ t).
  { clear. induction s as [|b s IH]; intros h; cbn [lines]; [exists []; by rewrite app_nil_r|].
    destruct (b =? 10).
    - destruct (lines [] s) as [? ?]. cbn. exists []. by rewrite app_nil_r.
    - destruct (IH (h ++ [b])) as [t Ht]. exists (b :: t). rewrite Ht, <- app_assoc. done. }
  destruct (Hpre (concat chunks) rest) as [t Ht]. rewrite He' in Ht. cbn [fst snd] in Ht.
  unfold fits, len in *. destruct ls' as [|l ls'].
  - subst rest'. rewrite length_app in Hr. lia.
  - apply Forall_cons in Hl as [Hl _]. subst l. rewrite length_app in Hl. lia.
Qed.

(** The framing loses nothing: messages written to the stream are read
    back, all of them and in order, however the reads cut it up -- in the
    middle of a line, of a character, one octet at a time -- and nothing is
    held back at the end, as long as each message fits the limit. *)
Theorem stream_roundtrip limit (ms : list T) chunks :
  concat chunks = concat (map encode ms) -> Forall (fun m => len (to_vec m) <= limit) ms -> 0 <= limit ->
  feed from_slice limit [] chunks = (map Message ms, []).
Proof.
  intros Hc Hl H0'. rewrite feed_lines; [|done|].
  - by rewrite Hc, lines_encode, <- said_wire.
  - apply paused_prefix; rewrite Hc, lines_encode; cbn; [by apply Forall_map|exact H0'].
Qed.
End stream.

(** The limit is looked at only when no newline has arrived: a line of any
    length is accepted whole when its newline comes with it. *)
Lemma long_line_accepted {T} (parse : bytes -> option T) (m : T) limit l :
  10 ∉ l -> trim_cr l = l -> forallb is_ascii_whitespace l = false -> parse l = Some m ->
  next parse limit (l ++ [10]) = (Some (Message m), []).
Proof.
  intros Hn Ht Hw Hp. unfold next. cbn [next_loop].
  assert (Hs : split_line (l ++ [10]) = Some (l, [])).
  { clear -Hn. induction l as [|b l IH]; [done|]. apply not_elem_of_cons in Hn as [Hb Hn]. cbn.
    rewrite (proj2 (Z.eqb_neq _ _)) by done. by rewrite IH. }
  by rewrite Hs, Ht, Hw, Hp.
Qed.

(** ** Witnesses: messages that are numbers below ten *)
Module Demo.
Inductive digit := Digit (n : nat) (H : bool_decide (n < 10)%nat).
#[global] Instance wire : Wire digit := {|
  to_vec d := match d with Digit n _ => [48 + Z.of_nat n] end;
  from_slice l := match l with
                  | [b] => match decide (bool_decide (Z.to_nat (b - 48) < 10)%nat) with
                           | left H => Some (Digit (Z.to_nat (b - 48)) H)
                           | right _ => None
                           end
                  | _ => None
                  end |}.
#[global] Instance wire_ok : WireOk digit.
Proof.
  split; intros [n Hn]; cbn [to_vec from_slice wire].
  - pose proof (bool_decide_unpack _ Hn). rewrite !list_elem_of_singleton. lia.
  - pose proof (bool_decide_unpack _ Hn). cbn.
    rewrite !(proj2 (Z.eqb_neq (48 + Z.of_nat n) _)) by lia. done.
  - replace (Z.to_nat (48 + Z.of_nat n - 48)) with n by lia.
    destruct (decide _) as [H|H]; [|done]. do 2 f_equal. apply proof_irrel.
Qed.
Definition one : digit := Digit 1 I.
Definition two : digit := Digit 2 I.
End Demo.

Lemma stream_roundtrip_witness :
  feed (from_slice (T := Demo.digit)) 4 [] [[49]; [10; 50]; []; [10]] = ([Message Demo.one; Message Demo.two], []).
Proof.
  apply (stream_roundtrip 4 [Demo.one; Demo.two]); [reflexivity| |lia].
  apply (bool_decide_unpack _). vm_compute. exact I.
Defined.
