(* ===== verification/Crypto.v ===== *)
(** * Keys: the crate [caw-crypto]

    Key derivation (kdf.rs), the EAPOL-Key MIC (mic.rs), key unwrapping
    (keywrap.rs), the pre-shared key (psk.rs) and the [PmkProvider] trait
    (lib.rs).  The primitives are RustCrypto crates: [CryptoPrims] names the
    ones the sources call and [CryptoLaws] the output sizes they document. *)
From S2P Require Import Prelude Bytes Dot11.

(** ** The primitives *)

Class CryptoPrims := {
  hmac_sha1 : bytes -> bytes -> bytes;          (* key, message *)
  hmac_sha256 : bytes -> bytes -> bytes;
  aes128_cmac : bytes -> bytes -> bytes;
  aes128_kw_unwrap : bytes -> bytes -> option bytes;   (* KEK, wrapped *)
  pbkdf2_hmac_sha1 : bytes -> bytes -> Z -> nat -> bytes; (* password, salt, rounds, size *)
}.

Class CryptoLaws `{CryptoPrims} := {
  hmac_sha1_length k m : length (hmac_sha1 k m) = 20%nat;
  hmac_sha256_length k m : length (hmac_sha256 k m) = 32%nat;
  aes128_cmac_length k m : length (aes128_cmac k m) = 16%nat;
  aes128_kw_unwrap_length k w p :
    aes128_kw_unwrap k w = Some p -> length w = (length p + 8)%nat;
  pbkdf2_length p s r n : length (pbkdf2_hmac_sha1 p s r n) = n;
}.

Inductive Error :=
| MicMismatch | ErrMalformed | UnsupportedAkm | AuthFailed | UnsupportedVersion
| KeyUnwrapFailed | Protocol.
#[export] Instance Error_eq_dec : EqDecision Error.
Proof. solve_decision. Defined.

(** [impl Display for Error] *)
Definition Error_to_string (e : Error) : string :=
  match e with
  | MicMismatch => "EAPOL-Key MIC mismatch (wrong passphrase?)"
  | ErrMalformed => "malformed input"
  | UnsupportedAkm => "unsupported AKM suite"
  | AuthFailed => "authentication rejected"
  | UnsupportedVersion => "unsupported EAPOL-Key descriptor version"
  | KeyUnwrapFailed => "key unwrap integrity check failed"
  | Protocol => "authentication driven out of order"
  end.

(** [Pmk] is its 32 octets. *)
Notation Pmk := bytes (only parsing).

Record Ptk := { kck : bytes; kek : bytes; tk : bytes }.
#[export] Instance Ptk_eq_dec : EqDecision Ptk.
Proof. solve_decision. Defined.

(** ** The provider interface *)

Inductive AuthStage := Local | PreAssoc | PostAssoc.
#[export] Instance AuthStage_eq_dec : EqDecision AuthStage.
Proof. solve_decision. Defined.

Inductive Step := Send (frame : bytes) | Wait | Done (pmk : Pmk).
#[export] Instance Step_eq_dec : EqDecision Step.
Proof. solve_decision. Defined.

Record AuthContext := {
  ctx_ssid : bytes;
  ctx_bssid : bytes;
  ctx_own_mac : bytes;
  ctx_akm : Akm;
}.

(** [trait PmkProvider]: each method returns the provider it mutated. *)
Class PmkProvider (P : Type) := {
  pp_stage : P -> AuthStage;
  pp_start : P -> AuthContext -> P * exec Error Step;
  pp_on_frame : P -> AuthContext -> bytes -> P * exec Error Step;
  pp_on_timeout : P -> AuthContext -> P * exec Error Step;
}.

(** What a client relies on: no method panics. *)
Class PmkProviderSafe (P : Type) `{PmkProvider P} := {
  pp_start_safe p c : no_panic (snd (pp_start p c));
  pp_on_frame_safe p c f : no_panic (snd (pp_on_frame p c f));
  pp_on_timeout_safe p c : no_panic (snd (pp_on_timeout p c));
}.

(** ** mic.rs *)

Definition MIC_LEN : nat := 16.

Inductive KeyDescriptorVersion := HmacSha1 | AesCmac | AkmDefinedCmac.
#[export] Instance KeyDescriptorVersion_eq_dec : EqDecision KeyDescriptorVersion.
Proof. solve_decision. Defined.

Definition from_key_info (key_info : Z) : exec Error KeyDescriptorVersion :=
  match Z.land key_info 0x0007 with
  | 2 => Ok HmacSha1
  | 3 => Ok AesCmac
  | _ => Err UnsupportedVersion
  end.

Definition from_key_info_for (key_info : Z) (akm : Akm) : exec Error KeyDescriptorVersion :=
  if (Z.land key_info 0x0007 =? 0) && is_sae akm then Ok AkmDefinedCmac
  else from_key_info key_info.

(** [KeyDescriptorVersion::bits] *)
Definition version_bits (v : KeyDescriptorVersion) : Z :=
  match v with HmacSha1 => 2 | AesCmac => 3 | AkmDefinedCmac => 0 end.

(** ** kdf.rs *)

(** The order of byte arrays: lexicographic. *)
Fixpoint lex_lt (a b : bytes) : bool :=
  match a, b with
  | _, [] => false
  | [], _ :: _ => true
  | x :: a, y :: b => (x <? y) || ((x =? y) && lex_lt a b)
  end.

(** "Pairwise key expansion" *)
Definition PTK_LABEL : bytes :=
  [80; 97; 105; 114; 119; 105; 115; 101; 32; 107; 101; 121; 32;
   101; 120; 112; 97; 110; 115; 105; 111; 110].
Definition PTK_LEN : nat := 48.

Inductive PtkHash := HashSha1 | HashSha256.

Definition ptk_hash (akm : Akm) : exec Error PtkHash :=
  match akm with
  | Dot1x | Psk => Ok HashSha1
  | Dot1xSha256 | PskSha256 | Sae | Owe => Ok HashSha256
  | _ => Err UnsupportedAkm
  end.

Section crypto.
Context `{CryptoPrims}.

(** [out.chunks_mut(k).enumerate()]: block [i] of at most [k] octets, until
    [n] octets are filled. *)
Fixpoint fill_chunks (fuel k i n : nat) (block : nat -> bytes) : bytes :=
  match fuel with
  | O => []
  | S fuel =>
      match n with
      | O => []
      | _ => take (Nat.min k n) (block i) ++ fill_chunks fuel k (S i) (n - k) block
      end
  end.

Definition prf_sha1 (key label data : bytes) (n : nat) : bytes :=
  fill_chunks n 20 0 n (fun i =>
    hmac_sha1 key (label ++ [0] ++ data ++ [wrap 8 (Z.of_nat i)])).

(** Panics when the size in bits does not fit the 16-bit length field. *)
Definition kdf_sha256 {E} (key label data : bytes) (n : nat) : exec E bytes :=
  let bits := Z.of_nat n * 8 in
  if bits <? 2 ^ 16 then
    Ok (fill_chunks n 32 0 n (fun i =>
      hmac_sha256 key (le_encode 2 (wrap 16 (Z.of_nat i) + 1) ++ label ++ data ++ le_encode 2 bits)))
  else Panic.

Definition derive_ptk (pmk : Pmk) (akm : Akm) (aa spa anonce snonce : bytes) : exec Error Ptk :=
  hash ← ptk_hash akm;
  let '(addr_lo, addr_hi) := if lex_lt aa spa then (aa, spa) else (spa, aa) in
  let '(nonce_lo, nonce_hi) := if lex_lt anonce snonce then (anonce, snonce) else (snonce, anonce) in
  let data := addr_lo ++ addr_hi ++ nonce_lo ++ nonce_hi in
  ptk ← match hash with
        | HashSha1 => Ok (prf_sha1 pmk PTK_LABEL data PTK_LEN)
        | HashSha256 => kdf_sha256 pmk PTK_LABEL data PTK_LEN
        end;
  Ok {| kck := take 16 ptk; kek := take 16 (drop 16 ptk); tk := take 16 (drop 32 ptk) |}.

(** [hmac_sha1(kck, frame)[..MIC_LEN]] or AES-CMAC. *)
Definition compute_mic (kck : bytes) (version : KeyDescriptorVersion) (frame : bytes) : bytes :=
  match version with
  | HmacSha1 => take MIC_LEN (hmac_sha1 kck frame)
  | AesCmac | AkmDefinedCmac => aes128_cmac kck frame
  end.

Definition verify_mic (kck : bytes) (version : KeyDescriptorVersion) (frame mic : bytes)
  : exec Error unit :=
  if negb (length mic =? MIC_LEN)%nat then Err ErrMalformed
  else if bool_decide (compute_mic kck version frame = mic) then Ok tt else Err MicMismatch.

(** ** keywrap.rs *)

Definition ICV_LEN : nat := 8.

Definition unwrap_key_data (kek wrapped : bytes) : exec Error bytes :=
  if (length wrapped <? 2 * ICV_LEN)%nat || negb (length wrapped mod ICV_LEN =? 0)%nat
  then Err ErrMalformed
  else ok_or KeyUnwrapFailed (aes128_kw_unwrap kek wrapped).

(** ** psk.rs *)

Definition ITERATIONS : Z := 4096.

Definition derive_pmk (passphrase ssid : bytes) : Pmk :=
  pbkdf2_hmac_sha1 passphrase ssid ITERATIONS 32.

Record PskProvider := { psk_passphrase : bytes }.

#[global] Instance PskProvider_provider : PmkProvider PskProvider := {
  pp_stage _ := Local;
  pp_start p ctx := (p, Ok (Done (derive_pmk (psk_passphrase p) (ctx_ssid ctx))));
  pp_on_frame p _ _ := (p, Err Protocol);
  pp_on_timeout p _ := (p, Err Protocol);
}.

#[global] Instance PskProvider_safe : PmkProviderSafe PskProvider.
Proof. split; done. Qed.
End crypto.

(** ** The order of byte arrays *)

Lemma lex_lt_total a b : lex_lt a b = false -> lex_lt b a = false -> a = b.
Proof.
  revert b. induction a as [|x a IH]; intros [|y b]; cbn; try done.
  destruct (Z.ltb_spec x y), (Z.ltb_spec y x), (Z.eqb_spec x y), (Z.eqb_spec y x);
    cbn; try done; try lia. subst. intros ? ?. f_equal. auto.
Qed.

Lemma lex_lt_asym a b : lex_lt a b = true -> lex_lt b a = false.
Proof.
  revert b. induction a as [|x a IH]; intros [|y b]; cbn; try done.
  destruct (Z.ltb_spec x y), (Z.ltb_spec y x), (Z.eqb_spec x y), (Z.eqb_spec y x);
    cbn; try done; try lia. auto.
Qed.

(** The sorted pair does not depend on who is named first. *)
Lemma lex_sort_comm (a b : bytes) :
  (if lex_lt a b then (a, b) else (b, a)) = (if lex_lt b a then (b, a) else (a, b)).
Proof.
  destruct (lex_lt a b) eqn:Hab.
  - by rewrite (lex_lt_asym a b).
  - destruct (lex_lt b a) eqn:Hba; [done|]. by rewrite (lex_lt_total a b).
Qed.

(** ** Block filling *)

Lemma fill_chunks_spec fuel k i n m block :
  (0 < k)%nat -> (n <= fuel)%nat -> (n <= k * m)%nat ->
  (forall j, length (block j) = k) ->
  fill_chunks fuel k i n block = take n (concat (map block (seq i m))).
Proof.
  intros Hk. revert i n m. induction fuel as [|fuel IH]; intros i n m Hf Hm Hb.
  { destruct n; [done|lia]. }
  destruct n as [|n]; [done|]. cbn [fill_chunks]. destruct m as [|m]; [lia|].
  cbn [seq map concat].
  destruct (decide (S n <= k)%nat) as [Hle|Hgt].
  - rewrite Nat.min_r by done. replace (S n - k)%nat with 0%nat by lia.
    rewrite take_app_le by (rewrite Hb; done).
    destruct fuel; cbn; by rewrite app_nil_r.
  - rewrite Nat.min_l, (take_ge (block i)) by (rewrite ?Hb; lia).
    rewrite take_app_ge by (rewrite Hb; lia). rewrite Hb. f_equal. apply IH; [lia|lia|done].
Qed.

Lemma fill_chunks_length fuel k i n block :
  (0 < k)%nat -> (n <= fuel)%nat -> (forall j, length (block j) = k) ->
  length (fill_chunks fuel k i n block) = n.
Proof.
  intros Hk. revert i n. induction fuel as [|fuel IH]; intros i n Hf Hb.
  { cbn. lia. }
  destruct n as [|n]; [done|]. cbn [fill_chunks].
  rewrite length_app, length_take, Hb, IH by (done || lia). lia.
Qed.

Section crypto_laws.
Context `{CryptoLaws}.

(** [prf_sha1] is the PRF of IEEE 802.11 12.7.1.2: the leftmost [n] octets
    of HMAC-SHA1(K, label || 0 || data || i) for i = 0, 1, 2, ... *)
Theorem prf_sha1_spec key label data n m :
  (n <= 20 * m)%nat ->
  prf_sha1 key label data n
  = take n (concat (map (fun i =>
      hmac_sha1 key (label ++ [0] ++ data ++ [wrap 8 (Z.of_nat i)])) (seq 0 m))).
Proof.
  intros Hm. apply fill_chunks_spec; [lia|lia|done|]. intros. apply hmac_sha1_length.
Qed.

Lemma prf_sha1_length key label data n : length (prf_sha1 key label data n) = n.
Proof. apply fill_chunks_length; [lia|lia|]. intros. apply hmac_sha1_length. Qed.

Lemma kdf_sha256_length {E} key label data n out :
  kdf_sha256 (E := E) key label data n = Ok out -> length out = n.
Proof.
  unfold kdf_sha256. case_match; intros [= <-].
  apply fill_chunks_length; [lia|lia|]. intros. apply hmac_sha256_length.
Qed.

(** The AKMs the pairwise hierarchy is defined for. *)
Definition ptk_akm (akm : Akm) : bool :=
  match akm with Dot1x | Psk | Dot1xSha256 | PskSha256 | Sae | Owe => true | _ => false end.

(** The derivation is total on those and refuses the others, and the three
    keys are 16 octets each. *)
Lemma derive_ptk_total pmk akm aa spa an sn :
  if ptk_akm akm
  then exists ptk, derive_ptk pmk akm aa spa an sn = Ok ptk
       /\ length (kck ptk) = 16%nat /\ length (kek ptk) = 16%nat /\ length (tk ptk) = 16%nat
  else derive_ptk pmk akm aa spa an sn = Err UnsupportedAkm.
Proof.
  unfold derive_ptk.
  destruct (if lex_lt aa spa then _ else _) as [lo hi].
  destruct (if lex_lt an sn then _ else _) as [nlo nhi].
  assert (Hsplit : forall out, length out = 48%nat -> exists ptk,
    (Ok {| kck := take 16 out; kek := take 16 (drop 16 out); tk := take 16 (drop 32 out) |}
      : exec Error Ptk) = Ok ptk
    /\ length (kck ptk) = 16%nat /\ length (kek ptk) = 16%nat /\ length (tk ptk) = 16%nat).
  { intros out Ho. eexists. split; [done|]. cbn.
    rewrite !length_take, !length_drop, Ho. done. }
  destruct akm; cbn -[take drop prf_sha1 kdf_sha256 PTK_LEN]; try done;
    try (apply Hsplit, prf_sha1_length);
    (destruct (kdf_sha256 _ _ _ _) eqn:Hk;
      [by eapply Hsplit, kdf_sha256_length|discriminate|discriminate]).
Qed.

Lemma derive_ptk_no_panic pmk akm aa spa an sn : no_panic (derive_ptk pmk akm aa spa an sn).
Proof.
  pose proof (derive_ptk_total pmk akm aa spa an sn) as Ht.
  destruct (ptk_akm akm); [destruct Ht as (ptk & -> & _)|rewrite Ht]; done.
Qed.

(** Both ends derive the same pairwise key without agreeing who is who: the
    derivation is symmetric in the two (address, nonce) pairs. *)
Theorem derive_ptk_symmetric pmk akm aa spa anonce snonce :
  derive_ptk pmk akm aa spa anonce snonce = derive_ptk pmk akm spa aa snonce anonce.
Proof.
  unfold derive_ptk. by rewrite (lex_sort_comm aa spa), (lex_sort_comm anonce snonce).
Qed.

Lemma compute_mic_length k v f : length (compute_mic k v f) = MIC_LEN.
Proof.
  destruct v; cbn; [|apply aes128_cmac_length..].
  rewrite length_take, hmac_sha1_length. done.
Qed.

(** The MIC check accepts the computed MIC and nothing else. *)
Lemma verify_mic_ok k v f m u : verify_mic k v f m = Ok u <-> m = compute_mic k v f.
Proof.
  unfold verify_mic. split.
  - repeat case_match; try done. bool_prop. done.
  - intros ->. rewrite compute_mic_length. cbn. rewrite bool_decide_true by done. by destruct u.
Qed.

Lemma verify_mic_no_panic k v f m : no_panic (verify_mic k v f m).
Proof. unfold verify_mic. repeat case_match; done. Qed.

Lemma unwrap_key_data_no_panic k w : no_panic (unwrap_key_data k w).
Proof. unfold unwrap_key_data. case_match; [done|apply no_panic_ok_or]. Qed.

(** Only a frame of whole semiblocks, check value included, unwraps, and the
    plaintext is the check value shorter. *)
Lemma unwrap_key_data_ok k w p :
  unwrap_key_data k w = Ok p ->
  aes128_kw_unwrap k w = Some p /\ length w = (length p + 8)%nat
  /\ (16 <= length w)%nat /\ (length w mod 8 = 0)%nat.
Proof.
  unfold unwrap_key_data, ICV_LEN. case_match eqn:Hg; [done|]. bool_prop.
  intros Ho%ok_or_ok. pose proof (aes128_kw_unwrap_length _ _ _ Ho). auto.
Qed.

Lemma from_key_info_for_no_panic ki akm : no_panic (from_key_info_for ki akm).
Proof.
  unfold from_key_info_for, from_key_info. case_match; [done|]. repeat case_match; done.
Qed.

(** A reply echoes the version bits of the frame it answers. *)
Lemma version_bits_echo ki akm v :
  from_key_info_for ki akm = Ok v -> version_bits v = Z.land ki 7.
Proof.
  unfold from_key_info_for, from_key_info.
  destruct (Z.land ki 7 =? 0) eqn:Hz; cbn.
  - apply Z.eqb_eq in Hz. rewrite Hz. destruct (is_sae akm); [|done]. by intros [= <-].
  - repeat case_match; try done; by intros [= <-].
Qed.
End crypto_laws.

#[export] Hint Resolve derive_ptk_no_panic verify_mic_no_panic unwrap_key_data_no_panic
  from_key_info_for_no_panic : caw.

(** ** A concrete instance

    Primitives that satisfy the laws, so that every result with a law among
    its hypotheses can be evaluated: digests are the key and the message cut to
    size, unwrapping drops the check value. *)
Module Toy.
Definition digest (n : nat) (k m : bytes) : bytes := take n (pad_to n 0 (k ++ m)).

#[local] Instance prims : CryptoPrims := {
  hmac_sha1 := digest 20;
  hmac_sha256 := digest 32;
  aes128_cmac := digest 16;
  aes128_kw_unwrap k w := if (8 <=? length w)%nat then Some (drop 8 w) else None;
  pbkdf2_hmac_sha1 p s r n := digest n p s;
}.

Lemma digest_length n k m : length (digest n k m) = n.
Proof. unfold digest. rewrite length_take, pad_to_length. lia. Qed.

#[local] Instance laws : CryptoLaws.
Proof.
  split; try (intros; apply digest_length). intros k w p Hu.
  change ((if (8 <=? length w)%nat then Some (drop 8 w) else None) = Some p) in Hu.
  destruct (8 <=? length w)%nat eqn:Hl; [|discriminate]. apply Nat.leb_le in Hl.
  injection Hu as <-. rewrite length_drop. lia.
Defined.
End Toy.

Section witnesses.
#[local] Existing Instance Toy.prims.
#[local] Existing Instance Toy.laws.

Lemma prf_sha1_spec_witness :
  prf_sha1 [1] [2] [3] 48
  = take 48 (concat (map (fun i =>
      hmac_sha1 [1] ([2] ++ [0] ++ [3] ++ [wrap 8 (Z.of_nat i)])) (seq 0 3))).
Proof. apply prf_sha1_spec. lia. Defined.
End witnesses.
