(* ===== verification/Sae.v ===== *)
(** * SAE: the crate [caw-crypto], sae.rs

    WPA3-Personal: the Dragonfly exchange with hash-to-element, as a
    [PmkProvider].  The group is the crates p256 and elliptic-curve: [SaeCurve]
    names the operations the source calls on its scalars and points,
    [SaeCurveLaws] what a group of prime order and its encodings satisfy.
    Everything else is the source's own: the frames, the derivations, and the
    state machine with its retransmissions. *)
From Stdlib Require Import Zmod.ZmodDef Zmod.ZmodBase.
From S2P Require Import Prelude Bytes Text Dot11 Crypto Calls.

(** ** The group *)

Class SaeCurve := {
  Scalar : Type;
  Point : Type;
  FieldElement : Type;
  scalar_eq_dec :: EqDecision Scalar;          (* [ct_eq] *)
  scalar_of : Z -> Scalar;                     (* [ZERO], [ONE], [From<u64>] *)
  scalar_reduce : bytes -> Scalar;             (* [Reduce<Array<u8, U48>>] *)
  scalar_from_repr : bytes -> option Scalar;
  scalar_to_bytes : Scalar -> bytes;
  scalar_add : Scalar -> Scalar -> Scalar;
  field_reduce : bytes -> FieldElement;
  map_to_curve : FieldElement -> Point;        (* SSWU *)
  point_add : Point -> Point -> Point;
  point_neg : Point -> Point;
  point_mul : Point -> Scalar -> Point;
  is_identity : Point -> bool;
  (** [to_affine().to_sec1_point(false)], its [x()] and [y()]: none at infinity. *)
  point_xy : Point -> option (bytes * bytes);
  from_sec1_bytes : bytes -> option Point;
  ORDER : Z;                                   (* [NistP256::ORDER] *)
  (** [Hkdf::<Sha256>::new(Some(salt), ikm).expand(info, out)]: none when [out]
      is longer than 255 blocks. *)
  hkdf_sha256 : bytes -> bytes -> bytes -> nat -> option bytes;
}.

Class SaeCurveLaws `{SaeCurve} := {
  order_range : 2 < ORDER < 2 ^ 256;
  scalar_of_inj a b : 0 <= a < ORDER -> 0 <= b < ORDER -> scalar_of a = scalar_of b -> a = b;
  scalar_from_value v : 0 <= v < ORDER -> scalar_from_repr (be_encode 32 v) = Some (scalar_of v);
  scalar_from_to s : scalar_from_repr (scalar_to_bytes s) = Some s;
  scalar_to_bytes_length s : length (scalar_to_bytes s) = 32%nat;
  scalar_add_comm s t : scalar_add s t = scalar_add t s;
  point_add_comm P Q : point_add P Q = point_add Q P;
  point_add_assoc P Q R : point_add P (point_add Q R) = point_add (point_add P Q) R;
  point_add_neg P Q : is_identity Q = false -> point_add (point_add P Q) (point_neg Q) = P;
  is_identity_neg P : is_identity (point_neg P) = is_identity P;
  point_mul_add P s t : point_mul P (scalar_add s t) = point_add (point_mul P s) (point_mul P t);
  point_mul_comm P s t : point_mul (point_mul P s) t = point_mul (point_mul P t) s;
  (** The order is prime: nothing but zero annihilates a point. *)
  point_mul_identity P s : is_identity (point_mul P s) = true -> is_identity P = true \/ s = scalar_of 0;
  (** Infinity stays infinity, and has no coordinates. *)
  identity_mul P s : is_identity P = true -> is_identity (point_mul P s) = true;
  identity_xy P : is_identity P = true -> point_xy P = None;
  point_encodes P : is_identity P = false ->
    exists x y, point_xy P = Some (x, y) /\ length x = 32%nat /\ length y = 32%nat
      /\ from_sec1_bytes (4 :: x ++ y) = Some P;
  hkdf_length salt ikm info n : (n <= 255 * 32)%nat ->
    exists out, hkdf_sha256 salt ikm info n = Some out /\ length out = n;
}.

(** ** Constants *)

Definition AUTH_ALG_SAE : Z := 3.
Definition SEQ_COMMIT : Z := 1.
Definition SEQ_CONFIRM : Z := 2.
Definition STATUS_SUCCESS : Z := 0.
Definition STATUS_ANTI_CLOGGING : Z := 76.
Definition STATUS_H2E : Z := 126.
Definition GROUP_P256 : Z := 19.
Definition EID_EXTENSION : Z := 255.
Definition EID_EXT_ANTI_CLOGGING : Z := 93.
Definition SCALAR_LEN : nat := 32.
Definition ELEMENT_LEN : nat := 64.
Definition HASH_LEN : nat := 32.
Definition PWD_VALUE_LEN : nat := 48.
Definition SEED_LEN : nat := 2 * PWD_VALUE_LEN.
Definition SYNC_MAX : Z := 5.

(** ** Frames *)

(** [fn le16]: indexes its first two octets. *)
Definition le16 {E} (b : bytes) : exec E Z :=
  x ← idx 0 b; y ← idx 1 b; Ok (le_decode [x; y]).

Definition auth_header (seq status : Z) : bytes :=
  le_encode 2 AUTH_ALG_SAE ++ le_encode 2 seq ++ le_encode 2 status.

Record AuthFrame := { af_seq : Z; af_status : Z; af_body : bytes }.

Definition parse_auth (frame : bytes) : exec Error AuthFrame :=
  _ ← ensure (bool_decide (6 <= length frame)%nat) ErrMalformed;
  alg ← slice 0 2 frame;
  alg ← le16 alg;
  _ ← ensure (alg =? AUTH_ALG_SAE) ErrMalformed;
  seq ← slice 2 4 frame;
  seq ← le16 seq;
  status ← slice 4 6 frame;
  status ← le16 status;
  body ← slice_from 6 frame;
  Ok {| af_seq := seq; af_status := status; af_body := body |}.

Definition parse_commit (body : bytes) : exec Error (bytes * bytes) :=
  let FIXED := (2 + SCALAR_LEN + ELEMENT_LEN)%nat in
  _ ← ensure (bool_decide (FIXED <= length body)%nat) ErrMalformed;
  group ← slice 0 2 body;
  group ← le16 group;
  _ ← ensure (group =? GROUP_P256) AuthFailed;
  scalar ← slice 2 (2 + SCALAR_LEN) body;
  element ← slice (2 + SCALAR_LEN) FIXED body;
  Ok (scalar, element).

Definition parse_token (body : bytes) : exec Error bytes :=
  _ ← ensure (bool_decide (2 + 3 <= length body)%nat) ErrMalformed;
  element ← slice_from 2 body;
  len ← idx 1 element;
  id ← idx 0 element;
  _ ← ensure ((id =? EID_EXTENSION) && negb (len =? 0)
              && (len <=? Z.of_nat (length element - 2))) ErrMalformed;
  ext ← idx 2 element;
  _ ← ensure (ext =? EID_EXT_ANTI_CLOGGING) ErrMalformed;
  slice 3 (2 + Z.to_nat len) element.

(** ** State *)

Section sae.
Context `{CryptoPrims} `{SaeCurve}.

Record Commit := {
  rand : Scalar;
  scalar : Scalar;
  pwe : Point;
  scalar_bytes : bytes;
  element_bytes : bytes;
}.

Record Session := {
  peer_scalar_bytes : bytes;
  peer_element_bytes : bytes;
  own_scalar_bytes : bytes;
  own_element_bytes : bytes;
  kck : bytes;
  pmk : bytes;
}.

Inductive SaeState :=
| SIdle | SCommitted (c : Commit) | SConfirmed (s : Session) | SAccepted | SFailed.

Record SaeProvider := {
  password : bytes;
  seed : bytes;
  state : SaeState;
  last_sent : bytes;
  sync : Z;
  send_confirm : Z;
  token : option bytes;
  pmkid : option bytes;
}.

Definition set_seed (v : bytes) (p : SaeProvider) : SaeProvider :=
  {| password := password p; seed := v; state := state p; last_sent := last_sent p; sync := sync p;
     send_confirm := send_confirm p; token := token p; pmkid := pmkid p |}.
Definition set_state (v : SaeState) (p : SaeProvider) : SaeProvider :=
  {| password := password p; seed := seed p; state := v; last_sent := last_sent p; sync := sync p;
     send_confirm := send_confirm p; token := token p; pmkid := pmkid p |}.
Definition set_last_sent (v : bytes) (p : SaeProvider) : SaeProvider :=
  {| password := password p; seed := seed p; state := state p; last_sent := v; sync := sync p;
     send_confirm := send_confirm p; token := token p; pmkid := pmkid p |}.
Definition set_sync (v : Z) (p : SaeProvider) : SaeProvider :=
  {| password := password p; seed := seed p; state := state p; last_sent := last_sent p; sync := v;
     send_confirm := send_confirm p; token := token p; pmkid := pmkid p |}.
Definition set_send_confirm (v : Z) (p : SaeProvider) : SaeProvider :=
  {| password := password p; seed := seed p; state := state p; last_sent := last_sent p; sync := sync p;
     send_confirm := v; token := token p; pmkid := pmkid p |}.
Definition set_token (v : option bytes) (p : SaeProvider) : SaeProvider :=
  {| password := password p; seed := seed p; state := state p; last_sent := last_sent p; sync := sync p;
     send_confirm := send_confirm p; token := v; pmkid := pmkid p |}.
Definition set_pmkid (v : option bytes) (p : SaeProvider) : SaeProvider :=
  {| password := password p; seed := seed p; state := state p; last_sent := last_sent p; sync := sync p;
     send_confirm := send_confirm p; token := token p; pmkid := v |}.

Definition with_seed (password seed : bytes) : SaeProvider :=
  {| password := password; seed := seed; state := SIdle; last_sent := []; sync := 0;
     send_confirm := 0; token := None; pmkid := None |}.

(** ** Derivations *)

(** [fn hmac_sha256] of sae.rs: the parts, one after the other. *)
Definition hmac_parts (key : bytes) (parts : list bytes) : bytes := hmac_sha256 key (concat parts).

Definition map_to_point (salt ikm : bytes) (label : string) : exec Error Point :=
  pwd_value ← expect (hkdf_sha256 salt ikm (ascii_of label) PWD_VALUE_LEN);
  Ok (map_to_curve (field_reduce pwd_value)).

Definition password_token (ssid password : bytes) : exec Error Point :=
  p1 ← map_to_point ssid password "SAE Hash to Element u1 P1";
  p2 ← map_to_point ssid password "SAE Hash to Element u2 P2";
  Ok (point_add p1 p2).

Definition password_element (pt : Point) (own peer : bytes) : exec Error Point :=
  let (hi, lo) := if lex_lt peer own then (own, peer) else (peer, own) in
  let val := hmac_parts (replicate HASH_LEN 0) [hi; lo] in
  modulus ← expect (let m := wrap 256 (ORDER - 1) in if m =? 0 then None else Some m);
  let reduced := be_decode val mod modulus in
  val ← expect (scalar_from_repr (be_encode 32 (wrap 256 (reduced + 1))));
  Ok (point_mul pt val).

Definition scalar_from (b : bytes) : Scalar :=
  let s := scalar_reduce b in
  let degenerate := bool_decide (s = scalar_of 0) || bool_decide (s = scalar_of 1) in
  if degenerate then scalar_of 2 else s.

Definition commit_scalars (seed : bytes) : Scalar * Scalar :=
  (scalar_from (take PWD_VALUE_LEN seed), scalar_from (drop PWD_VALUE_LEN seed)).

Definition confirm_hash (kck send_confirm scalar1 element1 scalar2 element2 : bytes) : bytes :=
  hmac_parts kck [send_confirm; scalar1; element1; scalar2; element2].

Definition encode_element (P : Point) : exec Error bytes :=
  '(x, y) ← expect (point_xy P);
  Ok (x ++ y).

Definition decode_element (b : bytes) : exec Error Point :=
  point ← ok_or AuthFailed (from_sec1_bytes (4 :: b));
  _ ← ensure (negb (is_identity point)) AuthFailed;
  Ok point.

Definition decode_scalar (b : bytes) : exec Error Scalar :=
  s ← ok_or AuthFailed (scalar_from_repr b);
  _ ← ensure (negb (bool_decide (s = scalar_of 0) || bool_decide (s = scalar_of 1))) AuthFailed;
  Ok s.

Definition x_coordinate (P : Point) : exec Error bytes :=
  '(x, _) ← expect (point_xy P);
  Ok x.

(** ** The provider *)

Notation sae_call := (call SaeProvider Error).

Definition commit_frame (token : option bytes) (commit : Commit) : exec Error bytes :=
  let frame := auth_header SEQ_COMMIT STATUS_H2E ++ le_encode 2 GROUP_P256
               ++ scalar_bytes commit ++ element_bytes commit in
  match token with
  | None => Ok frame
  | Some token =>
      n ← expect (if len token + 1 <? 256 then Some (len token + 1) else None);
      Ok (frame ++ [EID_EXTENSION; n; EID_EXT_ANTI_CLOGGING] ++ token)
  end.

Definition confirm_frame (session : Session) : sae_call bytes :=
  _ ← update (fun p => set_send_confirm (sat_add 16 (send_confirm p) 1) p);
  p ← self;
  let sc := le_encode 2 (send_confirm p) in
  let confirm := confirm_hash (kck session) sc (own_scalar_bytes session) (own_element_bytes session)
                   (peer_scalar_bytes session) (peer_element_bytes session) in
  mret (auth_header SEQ_CONFIRM STATUS_SUCCESS ++ sc ++ confirm).

(** [self.last_sent = frame.clone(); self.sync = 0; Ok(Step::Send(frame))] *)
Definition send (frame : bytes) : sae_call Step :=
  _ ← update (set_last_sent frame);
  _ ← update (set_sync 0);
  mret (Send frame).

Definition on_commit (commit : Commit) (body : bytes) : sae_call Step :=
  '(peer_scalar_bytes, peer_element_bytes) ← lift (parse_commit body);
  _ ← throw_if (bool_decide (peer_scalar_bytes = scalar_bytes commit)
                && bool_decide (peer_element_bytes = element_bytes commit)) AuthFailed;
  peer_scalar ← lift (decode_scalar peer_scalar_bytes);
  peer_element ← lift (decode_element peer_element_bytes);
  let k_point := point_mul (point_add (point_mul (pwe commit) peer_scalar) peer_element) (rand commit) in
  _ ← throw_if (is_identity k_point) AuthFailed;
  k ← lift (x_coordinate k_point);
  let keyseed := hmac_parts (replicate HASH_LEN 0) [k] in
  let context := scalar_to_bytes (scalar_add (scalar commit) peer_scalar) in
  keys ← lift (kdf_sha256 keyseed (ascii_of "SAE KCK and PMK") context (HASH_LEN + 32));
  _ ← update (set_pmkid (Some (take 16 context)));
  let session := {| peer_scalar_bytes := peer_scalar_bytes; peer_element_bytes := peer_element_bytes;
                    own_scalar_bytes := scalar_bytes commit; own_element_bytes := element_bytes commit;
                    kck := take HASH_LEN keys; pmk := drop HASH_LEN keys |} in
  frame ← confirm_frame session;
  _ ← update (set_state (SConfirmed session));
  send frame.

Definition on_confirm (session : Session) (body : bytes) : sae_call Step :=
  _ ← throw_if (bool_decide (length body < 2 + HASH_LEN)%nat) ErrMalformed;
  peer_sc ← lift (slice 0 2 body);
  let verifier := confirm_hash (kck session) peer_sc (peer_scalar_bytes session) (peer_element_bytes session)
                    (own_scalar_bytes session) (own_element_bytes session) in
  confirm ← lift (slice 2 (2 + HASH_LEN) body);
  _ ← throw_if (negb (bool_decide (verifier = confirm))) AuthFailed;
  _ ← update (set_state SAccepted);
  _ ← update (set_last_sent []);
  mret (Done (pmk session)).

Definition on_token_request (commit : Commit) (body : bytes) : sae_call Step :=
  t ← lift (parse_token body);
  _ ← update (set_token (Some t));
  p ← self;
  frame ← lift (commit_frame (token p) commit);
  _ ← update (set_state (SCommitted commit));
  send frame.

Definition sae_start (ctx : AuthContext) : sae_call Step :=
  p ← self;
  _ ← throw_if (match state p with SIdle => false | _ => true end) Protocol;
  _ ← throw_if (negb (bool_decide (ctx_akm ctx = Sae))) UnsupportedAkm;
  pt ← lift (password_token (ctx_ssid ctx) (password p));
  pwe ← lift (password_element pt (ctx_own_mac ctx) (ctx_bssid ctx));
  let (rand, mask) := commit_scalars (seed p) in
  _ ← update (set_seed (replicate SEED_LEN 0));
  let scalar := scalar_add rand mask in
  let element := point_neg (point_mul pwe mask) in
  element_bytes ← lift (encode_element element);
  let commit := {| rand := rand; scalar := scalar; pwe := pwe;
                   scalar_bytes := scalar_to_bytes scalar; element_bytes := element_bytes |} in
  p ← self;
  frame ← lift (commit_frame (token p) commit);
  _ ← update (set_state (SCommitted commit));
  send frame.

(** The statuses and sequence numbers that are looked at any further. *)
Definition accepted_kind (auth : AuthFrame) : bool :=
  (af_seq auth =? SEQ_COMMIT) && ((af_status auth =? STATUS_H2E) || (af_status auth =? STATUS_ANTI_CLOGGING))
  || (af_seq auth =? SEQ_CONFIRM) && (af_status auth =? STATUS_SUCCESS).

Definition sae_on_frame (frame : bytes) : sae_call Step :=
  auth ← lift (parse_auth frame);
  _ ← throw_if (negb (accepted_kind auth)) AuthFailed;
  p ← self;
  _ ← update (set_state SFailed);
  match state p with
  | SCommitted commit =>
      if af_seq auth =? SEQ_COMMIT then
        if af_status auth =? STATUS_ANTI_CLOGGING then on_token_request commit (af_body auth)
        else on_commit commit (af_body auth)
      else _ ← update (set_state (state p)); mret Wait
  | SConfirmed session =>
      if af_seq auth =? SEQ_CONFIRM then on_confirm session (af_body auth)
      else _ ← update (set_state (state p)); mret Wait
  | SAccepted => _ ← update (set_state SAccepted); mret Wait
  | SIdle => _ ← update (set_state SIdle); throw Protocol
  | SFailed => throw AuthFailed
  end.

(** [self.sync += 1] wraps at the width of [u8] in a release build. *)
Definition sae_on_timeout : sae_call Step :=
  p ← self;
  match state p with
  | SCommitted _ | SConfirmed _ =>
      _ ← update (set_sync (wrap 8 (sync p + 1)));
      p ← self;
      _ ← throw_if (SYNC_MAX <? sync p) AuthFailed;
      mret (Send (last_sent p))
  | SAccepted => mret Wait
  | SFailed => throw AuthFailed
  | SIdle => throw Protocol
  end.

#[global] Instance SaeProvider_provider : PmkProvider SaeProvider := {
  pp_stage _ := PreAssoc;
  pp_start p ctx := sae_start ctx p;
  pp_on_frame p _ frame := sae_on_frame frame p;
  pp_on_timeout p _ := sae_on_timeout p;
}.
End sae.

Arguments Commit {_}. Arguments SaeState {_}. Arguments SaeProvider {_}.

(** ** Frames are read back *)

Lemma le16_encode {E} v : is_u16 v -> @le16 E (le_encode 2 v) = Ok v.
Proof. intros Hv. unfold le16. cbn -[le_decode]. f_equal. exact (le16_roundtrip v Hv). Qed.

Lemma parse_auth_header seq status body :
  is_u16 seq -> is_u16 status ->
  parse_auth (auth_header seq status ++ body) = Ok {| af_seq := seq; af_status := status; af_body := body |}.
Proof.
  intros Hs Ht. unfold parse_auth, auth_header. rewrite bool_decide_true by (rewrite !length_app; cbn; lia).
  rewrite <- !app_assoc. cbn [ensure mbind exec_bind].
  rewrite (slice_field 0 2 _ (le_encode 2 AUTH_ALG_SAE)) by (by apply get_range_here).
  cbn [mbind exec_bind]. rewrite le16_encode by done. cbn [mbind exec_bind]. rewrite Z.eqb_refl. cbn [ensure mbind exec_bind].
  rewrite (slice_field 2 4 _ (le_encode 2 seq)) by (by apply get_range_mid). cbn [mbind exec_bind].
  rewrite le16_encode by done. cbn [mbind exec_bind].
  rewrite (slice_field 4 6 _ (le_encode 2 status)) by (rewrite app_assoc; by apply get_range_mid). cbn [mbind exec_bind].
  rewrite le16_encode by done. cbn [mbind exec_bind].
  unfold slice_from, get_from. rewrite bool_decide_true by (rewrite !length_app; cbn; lia). done.
Qed.

Lemma parse_commit_fields s e rest :
  length s = SCALAR_LEN -> length e = ELEMENT_LEN ->
  parse_commit (le_encode 2 GROUP_P256 ++ s ++ e ++ rest) = Ok (s, e).
Proof.
  unfold SCALAR_LEN, ELEMENT_LEN. intros Hs He. unfold parse_commit, SCALAR_LEN, ELEMENT_LEN.
  rewrite bool_decide_true by len_lia. cbn [ensure mbind exec_bind].
  rewrite (slice_field 0 2 _ (le_encode 2 GROUP_P256)) by (by apply get_range_here). cbn [mbind exec_bind].
  rewrite le16_encode by done. cbn [mbind exec_bind]. rewrite Z.eqb_refl. cbn [ensure mbind exec_bind].
  rewrite (slice_field 2 _ _ s) by (apply get_range_mid; len_lia). cbn [mbind exec_bind].
  rewrite (slice_field _ _ _ e); [done|]. rewrite app_assoc. apply get_range_mid; len_lia.
Qed.

Lemma parse_token_field g t :
  length g = 2%nat -> len t < 255 ->
  parse_token (g ++ [EID_EXTENSION; len t + 1; EID_EXT_ANTI_CLOGGING] ++ t) = Ok t.
Proof.
  unfold len. intros Hg Ht. unfold parse_token. rewrite bool_decide_true by (rewrite !length_app, Hg; cbn; lia).
  cbn [ensure mbind exec_bind]. unfold slice_from, get_from.
  rewrite bool_decide_true by (rewrite length_app, Hg; lia).
  rewrite (drop_app_length' g) by done. cbn [expect mbind exec_bind app].
  rewrite (lookup_idx_Some 1 _ (Z.of_nat (length t) + 1)) by done. cbn [mbind exec_bind].
  rewrite (lookup_idx_Some 0 _ EID_EXTENSION) by done. cbn [mbind exec_bind].
  rewrite Z.eqb_refl, (proj2 (Z.eqb_neq _ 0)) by lia. cbn [length].
  rewrite (proj2 (Z.leb_le _ _)) by lia. cbn [andb negb ensure mbind exec_bind].
  rewrite (lookup_idx_Some 2 _ EID_EXT_ANTI_CLOGGING) by done. cbn [mbind exec_bind].
  rewrite Z.eqb_refl. cbn [ensure mbind exec_bind]. apply slice_field.
  change (get_range 3 (2 + Z.to_nat (Z.of_nat (length t) + 1)) ([EID_EXTENSION; Z.of_nat (length t) + 1; EID_EXT_ANTI_CLOGGING] ++ t) = Some t).
  rewrite get_range_skip by (cbn [length]; lia). apply get_range_all_at; cbn [length]; lia.
Qed.

(** ** The group *)
Section group.
Context `{CryptoLaws} `{SaeCurveLaws}.

Lemma scalar_of_nonzero v : 0 < v < ORDER -> scalar_of v <> scalar_of 0.
Proof. intros Hv Heq%scalar_of_inj; pose proof order_range; lia. Qed.

Lemma scalar_from_range b : scalar_from b <> scalar_of 0 /\ scalar_from b <> scalar_of 1.
Proof.
  pose proof order_range. unfold scalar_from.
  case_bool_decide; [|case_bool_decide]; cbn [orb]; [| |done];
    (split; intros Heq%scalar_of_inj; lia).
Qed.

Lemma commit_scalars_nonzero sd r m :
  commit_scalars sd = (r, m) -> r <> scalar_of 0 /\ m <> scalar_of 0.
Proof. intros [= <- <-]. split; apply scalar_from_range. Qed.

Lemma scalar_to_bytes_inj s t : scalar_to_bytes s = scalar_to_bytes t -> s = t.
Proof. intros He. pose proof (scalar_from_to s) as Hs. rewrite He, scalar_from_to in Hs. by injection Hs. Qed.

Lemma point_mul_nonzero P s :
  is_identity P = false -> s <> scalar_of 0 -> is_identity (point_mul P s) = false.
Proof. intros HP Hs. destruct (is_identity (point_mul P s)) eqn:Hi; [|done].
  apply point_mul_identity in Hi as [?|?]; congruence. Qed.

(** The password element does not depend on who asks. *)
Lemma hi_lo_symmetric (a b : bytes) :
  (if lex_lt b a then (a, b) else (b, a)) = (if lex_lt a b then (b, a) else (a, b)).
Proof.
  destruct (lex_lt b a) eqn:Hb.
  - by rewrite (lex_lt_asym b a).
  - destruct (lex_lt a b) eqn:Ha; [done|]. by rewrite (lex_lt_total a b).
Qed.

Lemma password_element_symmetric pt own peer : password_element pt own peer = password_element pt peer own.
Proof. unfold password_element. by rewrite hi_lo_symmetric. Qed.

Lemma password_element_ok pt own peer :
  exists P, password_element pt own peer = Ok P /\ (is_identity pt = false -> is_identity P = false).
Proof.
  pose proof order_range as Ho. unfold password_element.
  destruct (if lex_lt peer own then _ else _) as [hi lo]. unfold wrap.
  rewrite (Z.mod_small (ORDER - 1)), (proj2 (Z.eqb_neq _ _)) by lia. cbn [expect mbind exec_bind].
  set (v := be_decode _ mod _). assert (0 <= v < ORDER - 1) as Hv by (apply Z.mod_pos_bound; lia).
  rewrite Z.mod_small, scalar_from_value by lia. cbn. eexists. split; [done|].
  intros Hpt. apply point_mul_nonzero; [done|]. apply scalar_of_nonzero. lia.
Qed.

Lemma map_to_point_ok salt ikm label : exists P, map_to_point salt ikm label = Ok P.
Proof.
  unfold map_to_point. destruct (hkdf_length salt ikm (ascii_of label) PWD_VALUE_LEN) as (out & -> & _);
    [unfold PWD_VALUE_LEN; lia|]. by eexists.
Qed.

Lemma password_token_ok ssid pw : exists pt, password_token ssid pw = Ok pt.
Proof.
  unfold password_token. destruct (map_to_point_ok ssid pw "SAE Hash to Element u1 P1") as [P1 ->].
  destruct (map_to_point_ok ssid pw "SAE Hash to Element u2 P2") as [P2 ->]. by eexists.
Qed.

Lemma encode_decode_element P :
  is_identity P = false ->
  exists e, encode_element P = Ok e /\ length e = ELEMENT_LEN /\ decode_element e = Ok P.
Proof.
  intros HP. destruct (point_encodes P HP) as (x & y & Hxy & Hx & Hy & Hd).
  exists (x ++ y). unfold encode_element, decode_element. rewrite Hxy, Hd. cbn. rewrite HP. split_and!; [done| |done].
  rewrite length_app, Hx, Hy. done.
Qed.

Lemma encode_infinity P : is_identity P = true -> encode_element P = Panic.
Proof. intros HP. unfold encode_element. by rewrite identity_xy. Qed.

Lemma password_element_infinity pt own peer P :
  password_element pt own peer = Ok P -> is_identity pt = true -> is_identity P = true.
Proof.
  unfold password_element. destruct (if lex_lt peer own then _ else _) as [hi lo]. intros HP Hid. inv_ok.
  by apply identity_mul.
Qed.

Lemma x_coordinate_ok P : is_identity P = false -> exists x, x_coordinate P = Ok x.
Proof.
  intros HP. destruct (point_encodes P HP) as (x & y & Hxy & _). exists x. unfold x_coordinate. by rewrite Hxy.
Qed.

Lemma decode_scalar_ok s : s <> scalar_of 0 -> s <> scalar_of 1 -> decode_scalar (scalar_to_bytes s) = Ok s.
Proof. intros Hz Ho. unfold decode_scalar. rewrite scalar_from_to. cbn. by rewrite !bool_decide_false. Qed.

(** The keys of an exchange: from the shared point and the sum of the scalars. *)
Definition sae_keys (K : Point) (sum : Scalar) : exec Error bytes :=
  k ← x_coordinate K;
  kdf_sha256 (hmac_parts (replicate HASH_LEN 0) [k]) (ascii_of "SAE KCK and PMK") (scalar_to_bytes sum)
    (HASH_LEN + 32).

Lemma sae_kdf_ok k context :
  exists keys, @kdf_sha256 _ Error k (ascii_of "SAE KCK and PMK") context (HASH_LEN + 32) = Ok keys
    /\ length keys = 64%nat.
Proof.
  destruct (kdf_sha256 k _ context _) as [keys| |] eqn:Hk; [|discriminate Hk..].
  exists keys. split; [done|]. by apply kdf_sha256_length in Hk.
Qed.

(** A commit that [start] makes: the mask cancels. *)
Record commit_ok (c : Commit) : Prop := {
  co_pwe : is_identity (pwe c) = false;
  co_rand : rand c <> scalar_of 0;
  co_scalar : scalar_bytes c = scalar_to_bytes (scalar c);
  co_element : exists mask, scalar c = scalar_add (rand c) mask /\ mask <> scalar_of 0
    /\ encode_element (point_neg (point_mul (pwe c) mask)) = Ok (element_bytes c)
    /\ decode_element (element_bytes c) = Ok (point_neg (point_mul (pwe c) mask))
    /\ length (element_bytes c) = ELEMENT_LEN;
}.

(** What is behind a peer's commit, once its mask has cancelled. *)
Lemma mask_cancels P r m s :
  is_identity P = false -> m <> scalar_of 0 ->
  point_mul (point_add (point_mul P (scalar_add r m)) (point_neg (point_mul P m))) s
  = point_mul (point_mul P r) s.
Proof. intros HP Hm. by rewrite point_mul_add, point_add_neg by by apply point_mul_nonzero. Qed.
End group.

(** ** How an exchange goes *)
Section exchange.
Context `{CryptoLaws} `{SaeCurveLaws}.

(** What [start] puts on the air, and what it keeps. *)
Definition start_state (pw : bytes) (c : Commit) (frame : bytes) : SaeProvider :=
  {| password := pw; seed := replicate SEED_LEN 0; state := SCommitted c; last_sent := frame; sync := 0;
     send_confirm := 0; token := None; pmkid := None |}.

Definition commit_body (c : Commit) : bytes :=
  le_encode 2 GROUP_P256 ++ scalar_bytes c ++ element_bytes c ++ [].

(** The public scalar a seed gives. *)
Definition seed_scalar (seed : bytes) : Scalar := let (r, m) := commit_scalars seed in scalar_add r m.

Lemma start_commits ctx pw sd pt P :
  ctx_akm ctx = Sae -> password_token (ctx_ssid ctx) pw = Ok pt -> is_identity pt = false ->
  password_element pt (ctx_own_mac ctx) (ctx_bssid ctx) = Ok P ->
  exists c frame, sae_start ctx (with_seed pw sd) = (start_state pw c frame, Ok (Send frame))
    /\ commit_ok c /\ pwe c = P /\ scalar c = seed_scalar sd
    /\ frame = auth_header SEQ_COMMIT STATUS_H2E ++ commit_body c.
Proof.
  intros Hakm Hpt Hid HP. unfold sae_start, seed_scalar.
  assert (is_identity P = false) as HPid.
  { destruct (password_element_ok pt (ctx_own_mac ctx) (ctx_bssid ctx)) as (P' & HP' & Hi).
    rewrite HP in HP'. injection HP' as <-. auto. }
  destruct (commit_scalars sd) as [r m] eqn:Hrm. destruct (commit_scalars_nonzero _ _ _ Hrm) as [Hr Hm].
  destruct (encode_decode_element (point_neg (point_mul P m))) as (e & He & Hl & Hd).
  { rewrite is_identity_neg. by apply point_mul_nonzero. }
  unfold self, throw_if, lift, mbind, call_bind, mret, call_ret, update.
  cbn -[auth_header le_encode replicate SEED_LEN password_token password_element encode_element commit_scalars].
  rewrite bool_decide_true by done. cbn -[auth_header le_encode replicate SEED_LEN password_token password_element encode_element commit_scalars].
  rewrite Hpt, HP, Hrm, He.
  eexists _, _. split; [reflexivity|]. cbn. split; [|split_and!; [done|done|]].
  - split; cbn; [done..|]. exists m. auto.
  - unfold commit_body. cbn [scalar_bytes element_bytes]. by rewrite app_nil_r.
Qed.

(** The session two commits determine. *)
Definition session_of (c peer : Commit) (keys : bytes) : Session :=
  {| peer_scalar_bytes := scalar_bytes peer; peer_element_bytes := element_bytes peer;
     own_scalar_bytes := scalar_bytes c; own_element_bytes := element_bytes c;
     kck := take HASH_LEN keys; pmk := drop HASH_LEN keys |}.

Definition confirm_body (s : Session) (sc : Z) : bytes :=
  le_encode 2 sc ++ confirm_hash (kck s) (le_encode 2 sc) (own_scalar_bytes s) (own_element_bytes s)
                      (peer_scalar_bytes s) (peer_element_bytes s).

(** Where a frame that is due goes. *)
Lemma on_frame_commit p c body :
  state p = SCommitted c ->
  sae_on_frame (auth_header SEQ_COMMIT STATUS_H2E ++ body) p = on_commit c body (set_state SFailed p).
Proof.
  intros Hst. unfold sae_on_frame, lift, mbind, call_bind. rewrite parse_auth_header by done.
  cbn -[on_commit]. by rewrite Hst.
Qed.

Lemma on_frame_token p c body :
  state p = SCommitted c ->
  sae_on_frame (auth_header SEQ_COMMIT STATUS_ANTI_CLOGGING ++ body) p
  = on_token_request c body (set_state SFailed p).
Proof.
  intros Hst. unfold sae_on_frame, lift, mbind, call_bind. rewrite parse_auth_header by done.
  cbn -[on_token_request]. by rewrite Hst.
Qed.

Lemma on_frame_confirm p s body :
  state p = SConfirmed s ->
  sae_on_frame (auth_header SEQ_CONFIRM STATUS_SUCCESS ++ body) p = on_confirm s body (set_state SFailed p).
Proof.
  intros Hst. unfold sae_on_frame, lift, mbind, call_bind. rewrite parse_auth_header by done.
  cbn -[on_confirm]. by rewrite Hst.
Qed.

(** A peer's commit over the same password element is answered with a confirm
    under keys that do not depend on whose side one is on. *)
Lemma commit_answered p c peer keys :
  commit_ok c -> commit_ok peer -> pwe peer = pwe c -> state p = SCommitted c ->
  scalar peer <> scalar c -> scalar peer <> scalar_of 0 -> scalar peer <> scalar_of 1 ->
  sae_keys (point_mul (point_mul (pwe c) (rand peer)) (rand c)) (scalar_add (scalar c) (scalar peer)) = Ok keys ->
  let s := session_of c peer keys in
  let sc := sat_add 16 (send_confirm p) 1 in
  let frame := auth_header SEQ_CONFIRM STATUS_SUCCESS ++ confirm_body s sc in
  sae_on_frame (auth_header SEQ_COMMIT STATUS_H2E ++ commit_body peer) p
  = ({| password := password p; seed := seed p; state := SConfirmed s; last_sent := frame; sync := 0;
        send_confirm := sc; token := token p;
        pmkid := Some (take 16 (scalar_to_bytes (scalar_add (scalar c) (scalar peer)))) |}, Ok (Send frame)).
Proof.
  intros Hc Hp Hpwe Hst Hne H0' H1' Hk s sc frame.
  destruct (co_element peer Hp) as (m & Hs & Hm & _ & Hd & Hel).
  rewrite (on_frame_commit p c) by done. unfold on_commit, commit_body. unfold mbind at 1, call_bind at 1, lift.
  rewrite parse_commit_fields; [|by rewrite co_scalar, scalar_to_bytes_length|done].
  rewrite bool_decide_false; cbn [andb].
  2: { rewrite (co_scalar peer), (co_scalar c) by done. by intros ?%scalar_to_bytes_inj. }
  unfold mbind, call_bind, throw_if, mret, call_ret, lift. rewrite (co_scalar peer), decode_scalar_ok by done.
  rewrite Hd. set (K := point_mul (point_mul (pwe c) (rand peer)) (rand c)) in *.
  assert (point_mul (point_add (point_mul (pwe c) (scalar peer)) (point_neg (point_mul (pwe peer) m))) (rand c) = K)
    as -> by (rewrite Hs, Hpwe; apply mask_cancels; [by apply co_pwe|done]).
  assert (is_identity K = false) as ->
    by (apply point_mul_nonzero; [apply point_mul_nonzero; [by apply co_pwe|by apply co_rand]|by apply co_rand]).
  unfold sae_keys in Hk. destruct (x_coordinate _) as [k| |]; [|discriminate Hk..].
  cbn [mbind exec_bind] in Hk. rewrite Hk. unfold confirm_frame, send, update, self, mbind, call_bind, mret, call_ret.
  cbn -[le_encode scalar_to_bytes take drop sat_add auth_header confirm_hash].
  subst s sc frame. unfold session_of, confirm_body, set_last_sent, set_sync, set_state, set_pmkid, set_send_confirm.
  cbn -[le_encode scalar_to_bytes take drop sat_add auth_header confirm_hash].
  rewrite (co_scalar peer) by done. reflexivity.
Qed.

(** A confirm under the session's keys, with the roles the other way round,
    ends the exchange with its key. *)
Lemma confirm_accepted p s sc :
  state p = SConfirmed s ->
  sae_on_frame (auth_header SEQ_CONFIRM STATUS_SUCCESS ++ le_encode 2 sc
    ++ confirm_hash (kck s) (le_encode 2 sc) (peer_scalar_bytes s) (peer_element_bytes s)
         (own_scalar_bytes s) (own_element_bytes s)) p
  = (set_last_sent [] (set_state SAccepted p), Ok (Done (pmk s))).
Proof.
  intros Hst. rewrite (on_frame_confirm p s) by done.
  unfold on_confirm, mbind, call_bind, throw_if, mret, call_ret, lift.
  set (h := confirm_hash _ _ _ _ _ _).
  assert (length h = HASH_LEN) as Hl by apply hmac_sha256_length.
  rewrite bool_decide_false by (unfold HASH_LEN in *; len_lia).
  rewrite (slice_field 0 2 _ (le_encode 2 sc)) by by apply get_range_here.
  rewrite (slice_field 2 _ _ h) by (rewrite get_range_skip by (unfold HASH_LEN in *; len_lia);
    apply get_range_all_at; unfold HASH_LEN in *; len_lia).
  fold h. rewrite bool_decide_true by done. reflexivity.
Qed.
End exchange.

(** ** Conversations *)
Section run.
Context `{CryptoPrims} `{SaeCurve}.

Inductive SaeInput := InFrame (frame : bytes) | InTimeout.

Definition sae_input (i : SaeInput) : call SaeProvider Error Step :=
  match i with InFrame f => sae_on_frame f | InTimeout => sae_on_timeout end.

Fixpoint sae_run (ins : list SaeInput) (p : SaeProvider) : SaeProvider * list (exec Error Step) :=
  match ins with
  | [] => (p, [])
  | i :: ins => let (p, r) := sae_input i p in let (p, rs) := sae_run ins p in (p, r :: rs)
  end.

(** The frame a step sends. *)
Definition sent (r : exec Error Step) : option bytes :=
  match r with Ok (Send f) => Some f | _ => None end.

(** Two providers against each other: commits, then confirms, and how each
    ends. *)
Definition exchange (ctx_a ctx_b : AuthContext) (a b : SaeProvider)
  : option (SaeProvider * exec Error Step * (SaeProvider * exec Error Step)) :=
  let (a, ra) := sae_start ctx_a a in
  let (b, rb) := sae_start ctx_b b in
  commit_a ← sent ra;
  commit_b ← sent rb;
  let (a, ra) := sae_on_frame commit_b a in
  let (b, rb) := sae_on_frame commit_a b in
  confirm_a ← sent ra;
  confirm_b ← sent rb;
  Some (sae_on_frame confirm_b a, sae_on_frame confirm_a b).

Definition sae_ctx (ssid own peer : bytes) : AuthContext :=
  {| ctx_ssid := ssid; ctx_bssid := peer; ctx_own_mac := own; ctx_akm := Sae |}.

(** The session an accepted commit frame [frame] gives to the commit [c]: its
    scalar and element were decoded and are not our own, the point they lead to
    is not the identity, and the keys are derived from it. *)
Definition session_from (c : Commit) (frame : bytes) (s : Session) : Prop :=
  exists auth s_bytes e_bytes scalar' element' keys,
    parse_auth frame = Ok auth /\ af_seq auth = SEQ_COMMIT /\ af_status auth = STATUS_H2E
    /\ parse_commit (af_body auth) = Ok (s_bytes, e_bytes)
    /\ ~ (s_bytes = scalar_bytes c /\ e_bytes = element_bytes c)
    /\ decode_scalar s_bytes = Ok scalar' /\ decode_element e_bytes = Ok element'
    /\ let K := point_mul (point_add (point_mul (pwe c) scalar') element') (rand c) in
       is_identity K = false /\ sae_keys K (scalar_add (scalar c) scalar') = Ok keys
    /\ s = {| peer_scalar_bytes := s_bytes; peer_element_bytes := e_bytes;
              own_scalar_bytes := scalar_bytes c; own_element_bytes := element_bytes c;
              kck := take HASH_LEN keys; pmk := drop HASH_LEN keys |}.

(** The confirm that proves the peer holds the session's keys. *)
Definition confirms (s : Session) (frame : bytes) : Prop :=
  exists auth sc, parse_auth frame = Ok auth /\ af_seq auth = SEQ_CONFIRM /\ af_status auth = STATUS_SUCCESS
    /\ get_range 0 2 (af_body auth) = Some sc
    /\ get_range 2 (2 + HASH_LEN) (af_body auth)
       = Some (confirm_hash (kck s) sc (peer_scalar_bytes s) (peer_element_bytes s)
                 (own_scalar_bytes s) (own_element_bytes s)).

(** ** How each frame is taken *)

Lemma on_commit_outcome c frame auth p :
  parse_auth frame = Ok auth -> af_seq auth = SEQ_COMMIT -> af_status auth = STATUS_H2E ->
  after (on_commit c (af_body auth)) p (fun p' r =>
    match r with
    | Ok (Send _) => exists s, state p' = SConfirmed s /\ session_from c frame s
    | Ok _ => False
    | _ => state p' = state p
    end).
Proof.
  intros Ha Hseq Hst. unfold on_commit. apply after_lift_bind.
  destruct (parse_commit (af_body auth)) as [[sb eb]| |] eqn:Hpc; try done. cbn [and_then].
  apply after_throw_if; [done|]. intros Hne%andb_false_iff. apply after_lift_bind.
  destruct (decode_scalar sb) as [sc| |] eqn:Hs; try done. cbn [and_then]. apply after_lift_bind.
  destruct (decode_element eb) as [el| |] eqn:He; try done. cbn [and_then]. cbn zeta.
  apply after_throw_if; [done|]. intros HK. apply after_lift_bind.
  destruct (x_coordinate _) as [k| |] eqn:Hx; try done. cbn [and_then]. apply after_lift_bind.
  destruct (kdf_sha256 _ _ _ _) as [keys| |] eqn:Hkdf; try done. cbn [and_then].
  apply after_update. cbv beta. apply after_bind. unfold confirm_frame. cbn. eexists. split; [reflexivity|].
  exists auth, sb, eb, sc, el, keys. split_and!; try done.
  - intros [-> ->]. destruct Hne as [Hn|Hn]; by apply bool_decide_eq_false in Hn.
  - split_and!; [done| |done]. unfold sae_keys. rewrite Hx. exact Hkdf.
Qed.

Lemma on_confirm_outcome s frame auth p :
  parse_auth frame = Ok auth -> af_seq auth = SEQ_CONFIRM -> af_status auth = STATUS_SUCCESS ->
  after (on_confirm s (af_body auth)) p (fun p' r =>
    match r with
    | Ok (Done k) => state p' = SAccepted /\ k = pmk s /\ confirms s frame
    | Ok _ => False
    | _ => state p' = state p
    end).
Proof.
  intros Ha Hseq Hst. unfold on_confirm. apply after_throw_if; [done|]. intros _. apply after_lift_bind.
  unfold slice. destruct (get_range 0 2 _) as [sc|] eqn:Hsc; [|done]. cbn [expect and_then]. cbv zeta.
  apply after_lift_bind. destruct (get_range 2 _ _) as [h|] eqn:Hh; [|done]. cbn [expect and_then].
  apply after_throw_if; [done|]. intros Hv%negb_false_iff%bool_decide_eq_true.
  cbn. split_and!; [done|done|]. exists auth, sc. by rewrite Hh, <- Hv.
Qed.

Lemma on_token_outcome c body p :
  after (on_token_request c body) p (fun p' r =>
    match r with
    | Ok (Send _) => state p' = SCommitted c
    | Ok _ => False
    | _ => state p' = state p
    end).
Proof.
  unfold on_token_request. apply after_lift_bind. destruct (parse_token body); try done. cbn [and_then].
  apply after_update. apply after_self, after_lift_bind. cbn.
  destruct (_ <? 256); cbn; done.
Qed.

Lemma accepted_commit auth :
  accepted_kind auth = true -> af_seq auth = SEQ_COMMIT ->
  af_status auth = STATUS_H2E \/ af_status auth = STATUS_ANTI_CLOGGING.
Proof.
  unfold accepted_kind. intros Hk Hs. rewrite Hs in Hk. change (SEQ_COMMIT =? SEQ_CONFIRM) with false in Hk.
  cbn in Hk. rewrite orb_false_r in Hk. apply orb_true_iff in Hk as [?%Z.eqb_eq|?%Z.eqb_eq]; auto.
Qed.

Lemma accepted_confirm auth :
  accepted_kind auth = true -> af_seq auth = SEQ_CONFIRM -> af_status auth = STATUS_SUCCESS.
Proof. unfold accepted_kind. intros Hk Hs. rewrite Hs in Hk. by apply Z.eqb_eq in Hk. Qed.

(** A timeout moves nothing but its counter, and yields no key. *)
Lemma on_timeout_outcome p :
  state (fst (sae_on_timeout p)) = state p
  /\ match snd (sae_on_timeout p) with Ok (Done _) => False | _ => True end.
Proof.
  unfold sae_on_timeout, self, update, throw_if, throw, mbind, call_bind, mret, call_ret.
  destruct (state p) eqn:Hst; cbn; try destruct (SYNC_MAX <? _); cbn; auto.
Qed.

(** Everything a frame can do. *)
Lemma on_frame_outcome frame p :
  after (sae_on_frame frame) p (fun p' r =>
    match r with
    | Ok (Done k) => exists s, state p = SConfirmed s /\ state p' = SAccepted /\ k = pmk s /\ confirms s frame
    | Ok (Send _) =>
        exists c, state p = SCommitted c /\
          (state p' = SCommitted c \/ exists s, state p' = SConfirmed s /\ session_from c frame s)
    | Ok Wait => p' = p
    | _ => p' = p \/ state p' = SFailed
    end).
Proof.
  unfold sae_on_frame. apply after_lift_bind. destruct (parse_auth frame) as [auth| |] eqn:Ha; try (by left).
  cbn [and_then]. apply after_throw_if; [by left|]. intros Hk%negb_false_iff. apply after_self, after_update.
  assert (p = set_state (state p) p) as Heta by by destruct p.
  destruct (state p) as [|c|s| |] eqn:Hst.
  - unfold after. cbn. left. exact (eq_sym Heta).
  - destruct (Z.eqb_spec (af_seq auth) SEQ_COMMIT) as [Hs|Hs].
    + destruct (Z.eqb_spec (af_status auth) STATUS_ANTI_CLOGGING) as [Hc|Hc].
      * eapply after_mono; [apply on_token_outcome|]. intros p' [[]| |]; cbn; try done; eauto.
      * assert (af_status auth = STATUS_H2E) as Hh by (by destruct (accepted_commit _ Hk Hs)).
        eapply after_mono; [by eapply on_commit_outcome|]. intros p' [[]| |]; cbn; try done; eauto.
    + unfold after. cbn. exact (eq_sym Heta).
  - destruct (Z.eqb_spec (af_seq auth) SEQ_CONFIRM) as [Hs|Hs].
    + assert (af_status auth = STATUS_SUCCESS) as Hh by (by apply accepted_confirm).
      eapply after_mono; [by eapply on_confirm_outcome|]. intros p' [[]| |]; cbn; try done; eauto.
    + unfold after. cbn. exact (eq_sym Heta).
  - unfold after. cbn. exact (eq_sym Heta).
  - unfold after. cbn. by right.
Qed.
End run.

(** ** Safety *)
Section safe.
Context `{CryptoLaws} `{SaeCurveLaws}.

Lemma le16_no_panic {E} (b : bytes) : (2 <= length b)%nat -> no_panic (@le16 E b).
Proof. destruct b as [|x [|y b]]; cbn; try lia; done. Qed.

Lemma sliced_le16 {E} i (b s : bytes) : slice i (2 + i) b = @Ok E _ s -> no_panic (@le16 E s).
Proof. intros Hs%expect_ok%get_range_length. apply le16_no_panic. lia. Qed.

Lemma parse_auth_no_panic f : no_panic (parse_auth f).
Proof.
  unfold parse_auth. apply no_panic_bind; [apply no_panic_ensure|]. intros _ Hl%ensure_ok%bool_decide_eq_true.
  apply no_panic_bind; [apply no_panic_slice; lia|]. intros alg Ha.
  apply no_panic_bind; [by eapply (sliced_le16 0)|]. intros v _.
  apply no_panic_bind; [apply no_panic_ensure|]. intros _ _.
  apply no_panic_bind; [apply no_panic_slice; lia|]. intros seq Hs.
  apply no_panic_bind; [by eapply (sliced_le16 2)|]. intros ? _.
  apply no_panic_bind; [apply no_panic_slice; lia|]. intros st Ht.
  apply no_panic_bind; [by eapply (sliced_le16 4)|]. intros ? _.
  apply no_panic_bind; [apply no_panic_slice_from; lia|done].
Qed.

Lemma parse_commit_no_panic b : no_panic (parse_commit b).
Proof.
  unfold parse_commit, SCALAR_LEN, ELEMENT_LEN.
  apply no_panic_bind; [apply no_panic_ensure|]. intros _ Hl%ensure_ok%bool_decide_eq_true.
  apply no_panic_bind; [apply no_panic_slice; lia|]. intros g Hg.
  apply no_panic_bind; [by eapply (sliced_le16 0)|]. intros v _.
  apply no_panic_bind; [apply no_panic_ensure|]. intros _ _.
  apply no_panic_bind; [apply no_panic_slice; lia|]. intros s _.
  apply no_panic_bind; [apply no_panic_slice; lia|done].
Qed.

(** A token fits the one-octet length it is echoed with. *)
Lemma parse_token_safe b :
  is_bytes b -> no_panic (parse_token b) /\ forall t, parse_token b = Ok t -> len t < 255.
Proof.
  intros Hb. unfold parse_token. case_bool_decide as Hl; [|done]. cbn [ensure mbind exec_bind].
  unfold slice_from, get_from. rewrite bool_decide_true by lia. cbn [expect mbind exec_bind].
  assert (is_bytes (drop 2 b)) as Hd by by apply Forall_drop.
  assert (3 <= length (drop 2 b))%nat as Hn by (rewrite length_drop; lia).
  destruct (drop 2 b) as [|id [|n [|ext e]]] eqn:He; cbn in Hn; try lia. clear Hn.
  unfold idx. cbn [lookup list_lookup expect mbind exec_bind].
  destruct (ensure (_ && _) _) as [[]| |] eqn:Hen; cbn [mbind exec_bind]; [|by split|by unfold ensure in Hen; case_match].
  apply ensure_ok in Hen. apply andb_true_iff in Hen as [[_ Hz%negb_true_iff%Z.eqb_neq]%andb_true_iff Hle%Z.leb_le].
  assert (0 <= n < 256) as Hnr.
  { inversion_clear Hd as [|? ? _ Hd']. inversion_clear Hd' as [|? ? Hx _]. exact Hx. }
  cbn [length] in Hle. destruct (ensure (ext =? _) _) as [[]| |] eqn:Hex; cbn [mbind exec_bind]; [|by split|by unfold ensure in Hex; case_match].
  split; [apply no_panic_slice; cbn [length]; lia|].
  intros t Ht%expect_ok%get_range_length. unfold len. rewrite Ht. lia.
Qed.

(** The states a provider can be in: a token that was parsed, a PMKID of its
    length, and before the start a password that is [good]. *)
Definition sae_inv (good : bytes -> Prop) (p : SaeProvider) : Prop :=
  (forall t, token p = Some t -> len t < 255)
  /\ (forall k, pmkid p = Some k -> length k = 16%nat)
  /\ (state p = SIdle -> good (password p)).

(** A password no network makes the point at infinity of. *)
Definition never_identity (pw : bytes) : Prop :=
  forall ssid pt, password_token ssid pw = Ok pt -> is_identity pt = false.
Definition sae_ok : SaeProvider -> Prop := sae_inv never_identity.

Lemma commit_frame_no_panic t c : (forall t', t = Some t' -> len t' < 255) -> no_panic (commit_frame t c).
Proof.
  intros Ht. destruct t as [t|]; [|done]. unfold commit_frame. specialize (Ht t eq_refl).
  by rewrite (proj2 (Z.ltb_lt _ _)) by lia.
Qed.

(** A start ends in a commit or an error, but for a password token at
    infinity, whose commit has no encoding. *)
Lemma start_cases good ctx p :
  sae_inv good p ->
  after (sae_start ctx) p (fun p' r => sae_inv good p'
    /\ (r = Panic <-> state p = SIdle /\ ctx_akm ctx = Sae
         /\ exists pt, password_token (ctx_ssid ctx) (password p) = Ok pt /\ is_identity pt = true)).
Proof.
  intros Hok'. pose proof Hok' as (Ht & Hk & Hpt). unfold sae_start. apply after_self, after_throw_if.
  { intros Hst. split; [done|]. split; [done|]. intros (Hidle & _). by rewrite Hidle in Hst. }
  intros Hst. assert (state p = SIdle) as Hidle by by destruct (state p). specialize (Hpt Hidle).
  apply after_throw_if.
  { intros Hakm%negb_true_iff%bool_decide_eq_false. split; [done|]. split; [done|]. by intros (_ & ? & _). }
  intros Hakm%negb_false_iff%bool_decide_eq_true. apply after_lift_bind.
  destruct (password_token_ok (ctx_ssid ctx) (password p)) as [pt Hok]. rewrite Hok. cbn [and_then].
  apply after_lift_bind. destruct (password_element_ok pt (ctx_own_mac ctx) (ctx_bssid ctx)) as (P & HPe & HP).
  rewrite HPe. cbn [and_then]. destruct (commit_scalars (seed p)) as [r m] eqn:Hrm.
  destruct (commit_scalars_nonzero _ _ _ Hrm) as [_ Hm]. apply after_update. cbv zeta. apply after_lift_bind.
  destruct (is_identity pt) eqn:Hid.
  - rewrite encode_infinity. 2: { rewrite is_identity_neg. by apply identity_mul, (password_element_infinity _ _ _ _ HPe). }
    split; [by split_and!|]. split; [|done]. intros _. split_and!; [done|done|by exists pt].
  - destruct (encode_decode_element (point_neg (point_mul P m))) as (e & -> & _ & _).
    { rewrite is_identity_neg. apply point_mul_nonzero; auto. }
    cbn [and_then]. apply after_self, after_lift_bind. set (c := {| rand := r |}).
    pose proof (commit_frame_no_panic (token p) c Ht) as Hf.
    change (token (set_seed _ p)) with (token p). destruct (commit_frame (token p) c) as [f| |]; try done; cbn.
    + split; [split_and!; try done; cbn; intros [=]|]. split; [done|]. intros (_ & _ & pt' & Hpt' & Hid'). congruence.
    + split; [by split_and!|]. split; [done|]. intros (_ & _ & pt' & Hpt' & Hid'). congruence.
Qed.

Lemma start_safe ctx p : sae_ok p -> after (sae_start ctx) p (fun p' r => sae_ok p' /\ no_panic r).
Proof.
  intros Hok. eapply after_mono; [by apply start_cases|]. intros p' r [Hok' Hr]. split; [done|].
  destruct r; try done. destruct (proj1 Hr eq_refl) as (Hidle & _ & pt & Hpt & Hid).
  pose proof (proj2 (proj2 Hok) Hidle _ _ Hpt). congruence.
Qed.

Lemma decode_scalar_no_panic b : no_panic (decode_scalar b).
Proof.
  unfold decode_scalar. apply no_panic_bind; [apply no_panic_ok_or|]. intros s _.
  by apply no_panic_bind; [apply no_panic_ensure|].
Qed.

Lemma decode_element_no_panic b : no_panic (decode_element b).
Proof.
  unfold decode_element. apply no_panic_bind; [apply no_panic_ok_or|]. intros P _.
  by apply no_panic_bind; [apply no_panic_ensure|].
Qed.

Lemma on_commit_safe c b p :
  after (on_commit c b) p (fun p' r =>
    token p' = token p /\ (forall k, pmkid p' = Some k -> pmkid p = Some k \/ length k = 16%nat)
    /\ (state p' = SIdle -> state p = SIdle) /\ no_panic r).
Proof.
  unfold on_commit. apply after_lift_bind. pose proof (parse_commit_no_panic b) as Hn.
  destruct (parse_commit b) as [[sb eb]| |]; try (by intros; split_and!; auto). cbn [and_then].
  apply after_throw_if; [by intros; split_and!; auto|]. intros _. apply after_lift_bind.
  pose proof (decode_scalar_no_panic sb) as Hs. destruct (decode_scalar sb) as [sc| |]; try (by intros; split_and!; auto).
  cbn [and_then]. apply after_lift_bind.
  pose proof (decode_element_no_panic eb) as He. destruct (decode_element eb) as [el| |]; try (by intros; split_and!; auto). cbn [and_then].
  cbn zeta. apply after_throw_if; [by intros; split_and!; auto|]. intros HK. apply after_lift_bind.
  destruct (x_coordinate_ok _ HK) as [k ->]. cbn [and_then]. apply after_lift_bind.
  destruct (sae_kdf_ok (hmac_parts (replicate HASH_LEN 0) [k])
    (scalar_to_bytes (scalar_add (scalar c) sc))) as (keys & -> & _). cbn.
  split_and!; [done| |done..]. intros ? [= <-]. right. by rewrite length_take, scalar_to_bytes_length.
Qed.

Lemma on_confirm_safe s b p :
  after (on_confirm s b) p (fun p' r =>
    token p' = token p /\ pmkid p' = pmkid p /\ (state p' = SIdle -> state p = SIdle) /\ no_panic r).
Proof.
  unfold on_confirm. apply after_throw_if; [done|]. intros Hl%bool_decide_eq_false. apply after_lift_bind.
  pose proof (@no_panic_slice Error 0 2 b ltac:(unfold HASH_LEN in *; lia)) as H02.
  destruct (slice 0 2 b) as [sc| |]; try done. cbn [and_then]. cbv zeta. apply after_lift_bind.
  pose proof (@no_panic_slice Error 2 (2 + HASH_LEN) b ltac:(unfold HASH_LEN in *; lia)) as H2h.
  destruct (slice 2 _ b) as [h| |]; try done. cbn [and_then]. by apply after_throw_if.
Qed.

Lemma parse_auth_bytes f auth : is_bytes f -> parse_auth f = Ok auth -> is_bytes (af_body auth).
Proof.
  intros Hb. unfold parse_auth. intros Ha. inv_ok. unfold slice_from, get_from in *. repeat case_match; try done.
  inv_ok. case_bool_decide; simplify_eq. by apply Forall_drop.
Qed.

Lemma on_frame_safe good f p :
  is_bytes f -> sae_inv good p -> after (sae_on_frame f) p (fun p' r => sae_inv good p' /\ no_panic r).
Proof.
  intros Hb Hok. pose proof Hok as (Ht & Hk & Hi). unfold sae_on_frame. apply after_lift_bind. pose proof (parse_auth_no_panic f) as Hn.
  destruct (parse_auth f) as [auth| |] eqn:Ha; try done. cbn [and_then].
  apply after_throw_if; [done|]. intros _. apply after_self, after_update.
  assert (sae_inv good (set_state SFailed p)) as Hf by done.
  pose proof (parse_auth_bytes _ _ Hb Ha) as Hbody.
  destruct (state p) as [|c|s| |] eqn:Hst; try done.
  - destruct (_ =? SEQ_COMMIT); [|by rewrite <- Hst in *]. destruct (_ =? STATUS_ANTI_CLOGGING).
    + unfold on_token_request. apply after_lift_bind. destruct (parse_token_safe _ Hbody) as [Hnp Hlen].
      destruct (parse_token _) as [t| |]; try done. cbn [and_then]. apply after_update, after_self, after_lift_bind.
      pose proof (commit_frame_no_panic (Some t) c) as Hc. change (token (set_token _ _)) with (Some t).
      assert (forall t', Some t = Some t' -> len t' < 255) as Ht' by (intros ? [= <-]; auto). specialize (Hc Ht').
      destruct (commit_frame (Some t) c); try done; cbn; (split; [|done]); split_and!; cbn; try done.
    + eapply after_mono; [apply on_commit_safe|]. intros p' r (Htok & Hpk & Hs & ?). split; [|done].
      split_and!; [by rewrite Htok|by intros k' [?|?]%Hpk; [apply Hk|]|]. intros ?%Hs. done.
  - destruct (_ =? SEQ_CONFIRM); [|by rewrite <- Hst in *].
    eapply after_mono; [apply on_confirm_safe|]. intros p' r (Htok & Hpk & Hs & ?). split; [|done].
    split_and!; [by rewrite Htok|by rewrite Hpk|]. intros ?%Hs. done.
Qed.

Lemma on_timeout_safe good p : sae_inv good p -> after sae_on_timeout p (fun p' r => sae_inv good p' /\ no_panic r).
Proof.
  intros Hok. pose proof Hok as (Ht & Hk & Hi). unfold sae_on_timeout. apply after_self. destruct (state p) eqn:Hst; try done.
  all: apply after_update, after_self, after_throw_if; intros _; (split; [|done]); split_and!; cbn; rewrite ?Hst; done.
Qed.

Definition octets (i : SaeInput) : Prop := match i with InFrame f => is_bytes f | InTimeout => True end.

Lemma sae_input_safe good i p :
  octets i -> sae_inv good p -> after (sae_input i) p (fun p' r => sae_inv good p' /\ no_panic r).
Proof. destruct i; [apply on_frame_safe|intros _; apply on_timeout_safe]. Qed.

Lemma sae_run_safe good ins p :
  Forall octets ins -> sae_inv good p -> sae_inv good (fst (sae_run ins p)) /\ Forall no_panic (snd (sae_run ins p)).
Proof.
  revert p. induction ins as [|i ins IH]; intros p Hins Hok; cbn [sae_run]; [done|].
  apply Forall_cons in Hins as [Hi Hins]. destruct (sae_input_safe good i p Hi Hok) as [Hok' Hn].
  destruct (sae_input i p) as [p' r]. cbn in *. destruct (IH p' Hins Hok') as [? ?].
  destruct (sae_run ins p'). cbn in *. auto.
Qed.
End safe.

(** ** Properties *)
Section properties.
Context `{CryptoLaws} `{SaeCurveLaws}.

(** C12. Two ends with the same passphrase reach the same key: a station and an
    access point that each draw their own secrets exchange commits, then
    confirms, and both end with the same 32-octet PMK under the same PMKID --
    provided the public scalars differ and are neither zero nor one, and the
    network's password token is a point. *)
Theorem sae_both_ends_agree ssid pw sta ap seed_a seed_b pt :
  password_token ssid pw = Ok pt -> is_identity pt = false ->
  seed_scalar seed_a <> seed_scalar seed_b ->
  seed_scalar seed_a <> scalar_of 0 -> seed_scalar seed_a <> scalar_of 1 ->
  seed_scalar seed_b <> scalar_of 0 -> seed_scalar seed_b <> scalar_of 1 ->
  exists a b k id,
    exchange (sae_ctx ssid sta ap) (sae_ctx ssid ap sta) (with_seed pw seed_a) (with_seed pw seed_b)
    = Some ((a, Ok (Done k)), (b, Ok (Done k)))
    /\ pmkid a = Some id /\ pmkid b = Some id /\ length k = 32%nat /\ length id = 16%nat
    /\ state a = SAccepted /\ state b = SAccepted.
Proof.
  intros Hpt Hid Hne Ha0 Ha1 Hb0 Hb1.
  destruct (password_element_ok pt sta ap) as (P & HP & _).
  pose proof HP as HP'. rewrite password_element_symmetric in HP'.
  destruct (start_commits (sae_ctx ssid sta ap) pw seed_a pt P) as (ca & fa & Hsa & Hca & Hpa & Hna & Hfa);
    [done..|].
  destruct (start_commits (sae_ctx ssid ap sta) pw seed_b pt P) as (cb & fb & Hsb & Hcb & Hpb & Hnb & Hfb);
    [done..|].
  set (K := point_mul (point_mul P (rand cb)) (rand ca)).
  assert (is_identity P = false) as HPid by (rewrite <- Hpa; by apply co_pwe).
  destruct (x_coordinate_ok K) as [x Hx]; [repeat apply point_mul_nonzero; try done; by apply co_rand|].
  destruct (sae_kdf_ok (hmac_parts (replicate HASH_LEN 0) [x])
    (scalar_to_bytes (scalar_add (scalar ca) (scalar cb)))) as (keys & Hk & Hkl).
  assert (sae_keys K (scalar_add (scalar ca) (scalar cb)) = Ok keys) as Hkeys by (unfold sae_keys; by rewrite Hx).
  unfold exchange. rewrite Hsa, Hsb. cbn [sent mbind option_bind]. subst fa fb.
  erewrite (commit_answered (start_state pw ca _) ca cb keys); try done; try congruence.
  2: { by rewrite Hpa. }
  erewrite (commit_answered (start_state pw cb _) cb ca keys); try done; try congruence.
  2: { by rewrite Hpb, point_mul_comm, scalar_add_comm. }
  cbn [sent mbind option_bind]. unfold confirm_body.
  set (pa := {| password := _; state := SConfirmed (session_of ca cb keys) |}).
  set (pb := {| password := _; state := SConfirmed (session_of cb ca keys) |}).
  pose proof (confirm_accepted pa (session_of ca cb keys) (sat_add 16 (send_confirm (start_state pw cb [])) 1) eq_refl) as Hca'.
  pose proof (confirm_accepted pb (session_of cb ca keys) (sat_add 16 (send_confirm (start_state pw ca [])) 1) eq_refl) as Hcb'.
  eexists _, _, _, _. split; [exact (f_equal2 (fun x y => Some (x, y)) Hca' Hcb')|].
  cbn [set_last_sent set_state pmkid state pa pb pmk session_of].
  rewrite (scalar_add_comm (scalar cb)). split_and!; try done.
  - rewrite length_drop, Hkl. done.
  - by rewrite length_take, scalar_to_bytes_length.
Qed.

(** What a start that succeeds has committed to. *)
Lemma start_inversion ctx p p' f :
  sae_start ctx p = (p', Ok (Send f)) ->
  exists pt c, password_token (ctx_ssid ctx) (password p) = Ok pt
    /\ password_element pt (ctx_own_mac ctx) (ctx_bssid ctx) = Ok (pwe c)
    /\ rand c = fst (commit_scalars (seed p)) /\ scalar c = seed_scalar (seed p)
    /\ scalar_bytes c = scalar_to_bytes (scalar c) /\ commit_frame (token p) c = Ok f
    /\ state p' = SCommitted c /\ last_sent p' = f /\ sync p' = 0.
Proof.
  intros Hs. assert (after (sae_start ctx) p (fun p' r => forall f, r = Ok (Send f) ->
    exists pt c, password_token (ctx_ssid ctx) (password p) = Ok pt
    /\ password_element pt (ctx_own_mac ctx) (ctx_bssid ctx) = Ok (pwe c)
    /\ rand c = fst (commit_scalars (seed p)) /\ scalar c = seed_scalar (seed p)
    /\ scalar_bytes c = scalar_to_bytes (scalar c) /\ commit_frame (token p) c = Ok f
    /\ state p' = SCommitted c /\ last_sent p' = f /\ sync p' = 0)) as Ha; [|by rewrite (surjective_pairing (sae_start ctx p)) in Hs; injection Hs as <- Hr; apply (Ha _ Hr)].
  unfold sae_start, seed_scalar. apply after_self, after_throw_if; [done|]. intros _.
  apply after_throw_if; [done|]. intros _. apply after_lift_bind.
  destruct (password_token _ _) as [pt| |]; try done. cbn [and_then]. apply after_lift_bind.
  destruct (password_element _ _ _) as [P| |] eqn:HP; try done. cbn [and_then].
  destruct (commit_scalars (seed p)) as [r m]. apply after_update. cbv zeta. apply after_lift_bind.
  destruct (encode_element _) as [e| |]; try done. cbn [and_then]. apply after_self, after_lift_bind.
  destruct (commit_frame _ _) as [f'| |] eqn:Hf; try done. cbn. intros ? [= <-].
  refine (ex_intro _ pt (ex_intro _ {| rand := r; scalar := scalar_add r m; pwe := P;
    scalar_bytes := scalar_to_bytes (scalar_add r m); element_bytes := e |} _)).
  split_and!; [reflexivity|exact HP|reflexivity|reflexivity|reflexivity|exact Hf|reflexivity..].
Qed.

(** Where an exchange over the commit [c] can have got, after these inputs. *)
Definition underway (c : Commit) (ins : list SaeInput) (p : SaeProvider) : Prop :=
  match state p with
  | SIdle => False
  | SCommitted c' => c' = c
  | SConfirmed s => exists f, InFrame f ∈ ins /\ session_from c f s
  | _ => True
  end.

Lemma underway_mono c ins ins' p : ins ⊆ ins' -> underway c ins p -> underway c ins' p.
Proof. unfold underway. intros Hi. case_match; try done. naive_solver. Qed.

Lemma sae_input_underway c ins i p :
  underway c ins p -> underway c (ins ++ [i]) (fst (sae_input i p)).
Proof.
  intros Hu. pose proof (underway_mono c ins (ins ++ [i]) p ltac:(set_solver) Hu) as Hu'.
  destruct i as [f|]; cbn [sae_input].
  - pose proof (on_frame_outcome f p) as Ho. unfold after in Ho.
    destruct (sae_on_frame f p) as [p' r]. cbn in *. unfold underway in *.
    destruct r as [[f'| |k]|e|]; cbn in Ho.
    + destruct Ho as (c' & Hc & [->|(s & -> & Hs)]); rewrite Hc in Hu; subst c'; [done|].
      exists f. split; [set_solver|done].
    + by subst p'.
    + by destruct Ho as (s & _ & -> & _).
    + destruct Ho as [->| ->]; done.
    + destruct Ho as [->| ->]; done.
  - destruct (on_timeout_outcome p) as [Hs _]. unfold underway in *. by rewrite Hs.
Qed.

Lemma sae_run_underway c seen ins p :
  underway c seen p -> underway c (seen ++ ins) (fst (sae_run ins p)).
Proof.
  revert seen p. induction ins as [|i ins IH]; intros seen p Hu; cbn [sae_run]; [by rewrite app_nil_r|].
  pose proof (sae_input_underway c seen i p Hu) as Hi. destruct (sae_input i p) as [p1 r].
  cbn [fst] in Hi. specialize (IH _ _ Hi). rewrite <- app_assoc in IH. by destruct (sae_run ins p1).
Qed.

(** C10. No key without the password: whatever frames and timeouts an exchange
    sees, it hands a PMK out only for a confirm computed under the keys of a
    session -- a session whose keys come from our own secret, the password
    element of this network and this pair of addresses, and a peer commit that
    was received, checked, and is not the one we sent reflected: its scalar
    and element are not those of our own commit frame. *)
Theorem sae_key_is_confirmed ctx pw sd p0 f0 ins i k :
  sae_start ctx (with_seed pw sd) = (p0, Ok (Send f0)) ->
  snd (sae_input i (fst (sae_run ins p0))) = Ok (Done k) ->
  exists pt c peer s confirm,
    password_token (ctx_ssid ctx) pw = Ok pt
    /\ password_element pt (ctx_own_mac ctx) (ctx_bssid ctx) = Ok (pwe c)
    /\ rand c = fst (commit_scalars sd) /\ scalar c = seed_scalar sd
    /\ scalar_bytes c = scalar_to_bytes (scalar c)
    /\ f0 = auth_header SEQ_COMMIT STATUS_H2E ++ le_encode 2 GROUP_P256 ++ scalar_bytes c ++ element_bytes c
    /\ InFrame peer ∈ ins /\ session_from c peer s
    /\ i = InFrame confirm /\ confirms s confirm /\ k = pmk s.
Proof.
  intros (pt & c & Hpt & HP & Hr & Hs & Hsb & [= Hf0] & Hst & _)%start_inversion Hi.
  assert (underway c [] p0) as Hu by (unfold underway; by rewrite Hst).
  pose proof (sae_run_underway c [] ins p0 Hu) as Hw. set (p := fst (sae_run ins p0)) in *. unfold underway in Hw.
  destruct i as [f|]; cbn [sae_input] in Hi.
  - pose proof (on_frame_outcome f p) as Ho. unfold after in Ho. rewrite Hi in Ho.
    destruct Ho as (s & Hp & _ & -> & Hc). rewrite Hp in Hw. destruct Hw as (peer & Hin & Hs').
    exists pt, c, peer, s, f. split_and!; done.
  - destruct (on_timeout_outcome p) as [_ Hd]. by rewrite Hi in Hd.
Qed.

(** C13. An exchange never panics, but for one password: starting it fails to
    encode the commit exactly when the AKM is SAE and the token of the network
    and the password is the point at infinity; no sequence of frames -- any
    octets at all -- and timeouts after the start makes an index, a conversion
    or an encoding fail. *)
Theorem sae_never_panics ctx pw sd ins :
  Forall octets ins ->
  let (p, r) := sae_start ctx (with_seed pw sd) in
  (r = Panic <-> ctx_akm ctx = Sae
     /\ exists pt, password_token (ctx_ssid ctx) pw = Ok pt /\ is_identity pt = true)
  /\ Forall no_panic (snd (sae_run ins p)).
Proof.
  intros Hins.
  destruct (start_cases (fun _ => True) ctx (with_seed pw sd)) as [Hok Hn]; [by split_and!|].
  destruct (sae_start ctx _) as [p r]. cbn in *. split; [|by eapply sae_run_safe].
  rewrite Hn. naive_solver.
Qed.
End properties.

Section frames.
Context `{CryptoLaws} `{SaeCurveLaws}.

(** The frame this state waits for. *)
Definition due (p : SaeProvider) (auth : AuthFrame) : bool :=
  match state p with
  | SCommitted _ => af_seq auth =? SEQ_COMMIT
  | SConfirmed _ => af_seq auth =? SEQ_CONFIRM
  | _ => false
  end.

Lemma parse_auth_err f e : parse_auth f = Err e -> e = ErrMalformed.
Proof.
  unfold parse_auth, ensure, slice, slice_from, le16, idx, expect. intros He. cbn in He.
  repeat (case_match; cbn in He; try congruence).
Qed.

Lemma failed_refuses p f : state p = SFailed -> no_panic (parse_auth f) -> exists e, snd (sae_on_frame f p) = Err e.
Proof.
  intros Hst Hn. unfold sae_on_frame, lift, mbind, call_bind. destruct (parse_auth f) as [auth|e|]; [|by eexists|done].
  unfold throw_if. destruct (negb _); [by eexists|]. cbn. rewrite Hst. by eexists.
Qed.

(** *** A frame that is due *)

(** The exchange fails with [e], and refuses whatever comes after. *)
Definition refused (f : bytes) (p : SaeProvider) : Prop :=
  exists e, sae_on_frame f p = (set_state SFailed p, Err e)
    /\ forall g, exists e', snd (sae_on_frame g (set_state SFailed p)) = Err e'.

Lemma refused_intro f p e : sae_on_frame f p = (set_state SFailed p, Err e) -> refused f p.
Proof. intros He. exists e. split; [done|]. intros g. apply failed_refuses; [done|apply parse_auth_no_panic]. Qed.

(** The provider that has answered the commit behind [s] with its confirm. *)
Definition confirming (s : Session) (p p' : SaeProvider) (frame : bytes) : Prop :=
  state p' = SConfirmed s /\ password p' = password p /\ last_sent p' = frame /\ sync p' = 0
  /\ send_confirm p' = sat_add 16 (send_confirm p) 1
  /\ frame = auth_header SEQ_CONFIRM STATUS_SUCCESS ++ confirm_body s (send_confirm p')
  /\ exists id, pmkid p' = Some id /\ length id = 16%nat.

Lemma on_commit_exact c frame auth p :
  parse_auth frame = Ok auth -> af_seq auth = SEQ_COMMIT -> af_status auth = STATUS_H2E ->
  (exists s p' answer, session_from c frame s /\ on_commit c (af_body auth) p = (p', Ok (Send answer))
     /\ confirming s p p' answer)
  \/ ((forall s, ~ session_from c frame s) /\ exists e, on_commit c (af_body auth) p = (p, Err e)).
Proof.
  intros Ha Hseq Hst. unfold on_commit, mbind, call_bind, lift, throw_if, update.
  pose proof (parse_commit_no_panic (af_body auth)) as Hn.
  assert (Hno : (forall sb eb sc el, parse_commit (af_body auth) = Ok (sb, eb) ->
      ~ (sb = scalar_bytes c /\ eb = element_bytes c) -> decode_scalar sb = Ok sc -> decode_element eb = Ok el ->
      is_identity (point_mul (point_add (point_mul (pwe c) sc) el) (rand c)) = false -> False) ->
    forall s, ~ session_from c frame s).
  { intros Hx s (auth' & sb & eb & sc & el & keys & Ha' & _ & _ & Hpc & Hne & Hs & He & HK & _).
    rewrite Ha in Ha'. injection Ha' as <-. eauto. }
  destruct (parse_commit (af_body auth)) as [[sb eb]|e|] eqn:Hpc; [|right; split; [apply Hno; by intros|eauto]|done].
  destruct (bool_decide (sb = scalar_bytes c) && bool_decide (eb = element_bytes c)) eqn:Hne.
  { right. apply andb_true_iff in Hne as [->%bool_decide_eq_true ->%bool_decide_eq_true].
    split; [apply Hno; intros ? ? ? ? [= <- <-] Hx; by destruct Hx|by eexists]. }
  apply andb_false_iff in Hne. pose proof (decode_scalar_no_panic sb) as Hns.
  destruct (decode_scalar sb) as [sc|e|] eqn:Hs; [|right; split; [apply Hno; intros ? ? ? ? [= <- <-]; congruence|eauto]|done].
  pose proof (decode_element_no_panic eb) as Hne'.
  destruct (decode_element eb) as [el|e|] eqn:He; [|right; split; [apply Hno; intros ? ? ? ? [= <- <-]; congruence|eauto]|done].
  destruct (is_identity _) eqn:HK.
  { right. split; [|by eexists]. apply Hno. intros ? ? ? ? [= <- <-] _ Hs' He'. congruence. }
  left. destruct (x_coordinate_ok _ HK) as [k Hk]. rewrite Hk.
  destruct (sae_kdf_ok (hmac_parts (replicate HASH_LEN 0) [k]) (scalar_to_bytes (scalar_add (scalar c) sc))) as (keys & Hkeys & _).
  cbn [mret call_ret]. unfold mret, call_ret. rewrite Hkeys.
  eexists _, _, _. split; [|split; [reflexivity|]].
  - exists auth, sb, eb, sc, el, keys. split_and!; try done.
    + intros [-> ->]. destruct Hne as [Hx|Hx]; by apply bool_decide_eq_false in Hx.
    + split_and!; [done| |reflexivity]. unfold sae_keys. by rewrite Hk.
  - split_and!; try reflexivity. eexists. split; [reflexivity|]. by rewrite length_take, scalar_to_bytes_length.
Qed.

Lemma on_confirm_exact s frame auth p :
  parse_auth frame = Ok auth -> af_seq auth = SEQ_CONFIRM -> af_status auth = STATUS_SUCCESS ->
  (confirms s frame /\ on_confirm s (af_body auth) p = (set_last_sent [] (set_state SAccepted p), Ok (Done (pmk s))))
  \/ (~ confirms s frame /\ exists e, on_confirm s (af_body auth) p = (p, Err e)).
Proof.
  intros Ha Hseq Hst. unfold on_confirm, mbind, call_bind, lift, throw_if, update.
  assert (Hc : forall sc, get_range 0 2 (af_body auth) = Some sc -> confirms s frame ->
    get_range 2 (2 + HASH_LEN) (af_body auth) = Some (confirm_hash (kck s) sc (peer_scalar_bytes s) (peer_element_bytes s)
                 (own_scalar_bytes s) (own_element_bytes s))).
  { intros sc Hsc (auth' & sc' & Ha' & _ & _ & Hsc' & Hh). rewrite Ha in Ha'. injection Ha' as <-. congruence. }
  case_bool_decide as Hlen.
  { right. split; [|by eexists]. intros (auth' & sc & Ha' & _ & _ & _ & Hh%get_range_Some).
    rewrite Ha in Ha'. injection Ha' as <-. unfold HASH_LEN in *. lia. }
  unfold mret, call_ret, slice.
  destruct (get_range_is_Some 0 2 (af_body auth)) as [sc Hsc]; [unfold HASH_LEN in *; lia..|].
  destruct (get_range_is_Some 2 (2 + HASH_LEN) (af_body auth)) as [h Hh]; [unfold HASH_LEN in *; lia..|].
  rewrite Hsc, Hh. cbn [expect]. case_bool_decide as Hv; cbn [negb].
  - left. split; [|reflexivity]. exists auth, sc. by rewrite Hh, <- Hv.
  - right. split; [|by eexists]. intros Hcf%(Hc sc Hsc). congruence.
Qed.

(** What a due frame [f] is to come to. *)
Definition taken (p : SaeProvider) (f : bytes) (auth : AuthFrame) : Prop :=
  match state p with
  | SCommitted c =>
      if af_status auth =? STATUS_ANTI_CLOGGING then
        match parse_token (af_body auth) with
        | Ok t => exists retry, commit_frame (Some t) c = Ok retry
            /\ sae_on_frame f p = (set_sync 0 (set_last_sent retry (set_token (Some t) p)), Ok (Send retry))
        | _ => refused f p
        end
      else (exists s p' answer, session_from c f s /\ sae_on_frame f p = (p', Ok (Send answer))
              /\ confirming s p p' answer)
           \/ (forall s, ~ session_from c f s) /\ refused f p
  | SConfirmed s =>
      confirms s f /\ sae_on_frame f p = (set_last_sent [] (set_state SAccepted p), Ok (Done (pmk s)))
      \/ ~ confirms s f /\ refused f p
  | _ => False
  end.

Lemma due_taken p f auth :
  is_bytes f -> parse_auth f = Ok auth -> accepted_kind auth = true -> due p auth = true -> taken p f auth.
Proof.
  intros Hb Ha Hk Hdue. unfold due, taken in *. destruct (state p) as [|c|s| |] eqn:Hst; try done.
  - apply Z.eqb_eq in Hdue.
    destruct (Z.eqb_spec (af_status auth) STATUS_ANTI_CLOGGING) as [Hc|Hc].
    + assert (Hf : sae_on_frame f p = on_token_request c (af_body auth) (set_state SFailed p)).
      { unfold sae_on_frame, lift, mbind, call_bind, throw_if. rewrite Ha, Hk. cbn -[on_token_request].
        by rewrite Hst, Hdue, Hc. }
      destruct (parse_token_safe (af_body auth) (parse_auth_bytes _ _ Hb Ha)) as [Hnp Hlen].
      unfold on_token_request, mbind, call_bind, lift in Hf.
      destruct (parse_token (af_body auth)) as [t|e|]; [|by eapply refused_intro|done].
      pose proof (commit_frame_no_panic (Some t) c) as Hcf. cbn [self update token set_token] in Hf.
      unfold self, update, mret, call_ret in Hf. cbn [token set_token] in Hf.
      destruct (commit_frame (Some t) c) as [retry|e|] eqn:Hr.
      * exists retry. split; [done|]. rewrite Hf. unfold send, update, mbind, call_bind, mret, call_ret.
        unfold set_sync, set_last_sent, set_state, set_token. cbn. by rewrite Hst.
      * unfold commit_frame in Hr. destruct (_ <? 256) in Hr; cbn in Hr; done.
      * exfalso. apply Hcf. intros ? [= <-]. by apply Hlen.
    + assert (af_status auth = STATUS_H2E) as Hh by (by destruct (accepted_commit _ Hk Hdue)).
      assert (Hf : sae_on_frame f p = on_commit c (af_body auth) (set_state SFailed p)).
      { unfold sae_on_frame, lift, mbind, call_bind, throw_if. rewrite Ha, Hk. cbn -[on_commit].
        by rewrite Hst, Hdue, Hh. }
      destruct (on_commit_exact c f auth (set_state SFailed p) Ha Hdue Hh) as [(s & p' & answer & Hs & Ho & Hcf)|[Hno [e Ho]]].
      * left. exists s, p', answer. rewrite Hf. by split_and!.
      * right. split; [done|]. apply (refused_intro _ _ e). by rewrite Hf.
  - apply Z.eqb_eq in Hdue. assert (af_status auth = STATUS_SUCCESS) as Hh by (by apply accepted_confirm).
    assert (Hf : sae_on_frame f p = on_confirm s (af_body auth) (set_state SFailed p)).
    { unfold sae_on_frame, lift, mbind, call_bind, throw_if. rewrite Ha, Hk. cbn -[on_confirm]. by rewrite Hst, Hdue. }
    destruct (on_confirm_exact s f auth (set_state SFailed p) Ha Hdue Hh) as [[Hc Ho]|[Hc [e Ho]]].
    + left. split; [done|]. by rewrite Hf, Ho.
    + right. split; [done|]. apply (refused_intro _ _ e). by rewrite Hf.
Qed.

(** What is not due leaves the exchange as it was. *)
Lemma not_due_dropped p f auth :
  parse_auth f = Ok auth -> accepted_kind auth = true -> due p auth = false ->
  sae_on_frame f p
  = (p, match state p with SIdle => Err Protocol | SFailed => Err AuthFailed | _ => Ok Wait end).
Proof.
  intros Ha Hk Hdue. assert (set_state (state p) p = p) as Heta by by destruct p.
  unfold sae_on_frame, lift, mbind, call_bind, throw_if. rewrite Ha, Hk. unfold due in Hdue. cbn.
  destruct (state p) as [|c|s| |] eqn:Hst; rewrite ?Hdue; cbn; by rewrite <- Heta at 2.
Qed.

(** C14. What a frame does to an exchange.  One that is no authentication
    frame of SAE, a status that refuses us, and any frame before the start
    are errors that leave the exchange as it was; a frame of the right kind
    at the wrong time -- an early confirm, a second commit, anything once
    accepted -- is dropped without a trace.  A frame that is due is always
    taken.  While our commit is out: a request for a token is answered with
    the same commit and that token; a peer's commit is answered with the
    confirm of its session exactly when there is one ([session_from]: checked,
    not our own, keys derived).  While our confirm is out: the peer's ends
    the exchange with the key exactly when it [confirms] the session.
    Otherwise the exchange has failed, and refuses every frame after. *)
Theorem sae_frames_sorted p f :
  is_bytes f ->
  match parse_auth f with
  | Err e => e = ErrMalformed /\ sae_on_frame f p = (p, Err e)
  | Ok auth =>
      if negb (accepted_kind auth) then sae_on_frame f p = (p, Err AuthFailed)
      else if due p auth then taken p f auth
      else sae_on_frame f p
           = (p, match state p with SIdle => Err Protocol | SFailed => Err AuthFailed | _ => Ok Wait end)
  | Panic => False
  end.
Proof.
  intros Hb. pose proof (parse_auth_no_panic f) as Hn.
  destruct (parse_auth f) as [auth|e|] eqn:Ha; [|split; [by eapply parse_auth_err|]|done].
  2: by unfold sae_on_frame, lift, mbind, call_bind; rewrite Ha.
  destruct (accepted_kind auth) eqn:Hk; cbn [negb].
  2: by unfold sae_on_frame, lift, mbind, call_bind, throw_if; rewrite Ha, Hk.
  destruct (due p auth) eqn:Hdue; [by apply due_taken|by eapply not_due_dropped].
Qed.
End frames.

Section retransmission.
Context `{CryptoPrims} `{SaeCurve}.

Lemma sends_remembered f p :
  after (sae_on_frame f) p (fun p' r => forall g, r = Ok (Send g) ->
    last_sent p' = g /\ sync p' = 0 /\ (state p' <> SIdle /\ state p' <> SAccepted /\ state p' <> SFailed)).
Proof.
  unfold sae_on_frame. apply after_lift_bind. destruct (parse_auth f) as [auth| |]; try done. cbn [and_then].
  apply after_throw_if; [done|]. intros _. apply after_self, after_update.
  destruct (state p) as [|c|s| |]; try done.
  - destruct (_ =? SEQ_COMMIT); [|done]. destruct (_ =? STATUS_ANTI_CLOGGING).
    + unfold on_token_request. apply after_lift_bind. destruct (parse_token _); try done. cbn [and_then].
      apply after_update, after_self, after_lift_bind. destruct (commit_frame _ _); try done. cbn.
      by intros ? [= <-].
    + unfold on_commit. apply after_lift_bind. destruct (parse_commit _) as [[sb eb]| |]; try done. cbn [and_then].
      apply after_throw_if; [done|]. intros _. apply after_lift_bind.
      destruct (decode_scalar sb); try done. cbn [and_then]. apply after_lift_bind.
      destruct (decode_element eb); try done. cbn [and_then]. cbn zeta. apply after_throw_if; [done|]. intros _.
      apply after_lift_bind. destruct (x_coordinate _); try done. cbn [and_then]. apply after_lift_bind.
      destruct (kdf_sha256 _ _ _ _); try done. cbn. by intros ? [= <-].
  - destruct (_ =? SEQ_CONFIRM); [|done]. unfold on_confirm. apply after_throw_if; [done|]. intros _.
    apply after_lift_bind. destruct (slice 0 2 _); try done. cbn [and_then]. cbv zeta. apply after_lift_bind.
    destruct (slice 2 _ _); try done. cbn [and_then]. by apply after_throw_if.
Qed.

Lemma timeouts_repeat n p f :
  last_sent p = f -> sync p + Z.of_nat n = SYNC_MAX -> 0 <= sync p ->
  (state p <> SIdle /\ state p <> SAccepted /\ state p <> SFailed) ->
  snd (sae_run (replicate (S n) InTimeout) p) = replicate n (Ok (Send f)) ++ [Err AuthFailed].
Proof.
  unfold SYNC_MAX. revert p. induction n as [|n IH]; intros p Hf Hs Hz Hst.
  - cbn [replicate sae_run sae_input]. unfold sae_on_timeout, self, update, throw_if, throw, mbind, call_bind, mret, call_ret.
    assert (sync p = 5) as H5 by lia. destruct Hst as (? & ? & ?), (state p); try congruence; cbn; by rewrite H5.
  - change (replicate (S (S n)) InTimeout) with (InTimeout :: replicate (S n) InTimeout). cbn [sae_run sae_input].
    assert (sae_on_timeout p = (set_sync (sync p + 1) p, Ok (Send f))) as ->.
    { unfold sae_on_timeout, self, update, throw_if, throw, mbind, call_bind, mret, call_ret.
      assert (wrap 8 (sync p + 1) = sync p + 1) as Hw by (unfold wrap; apply Z.mod_small; lia).
      destruct Hst as (? & ? & ?), (state p); try congruence; cbn -[wrap]; rewrite Hw; unfold SYNC_MAX;
        rewrite (proj2 (Z.ltb_ge _ _)) by lia; cbn; by rewrite Hf. }
    specialize (IH (set_sync (sync p + 1) p)). destruct (sae_run _ _) as [q rs]. cbn in *.
    f_equal. apply IH; [done|lia|lia|done].
Qed.

(** An unanswered frame is sent again octet for octet, five times, and then
    the exchange gives up: after anything a provider sends, six timeouts in a
    row give the same frame five times and then the failure. *)
Theorem sae_retransmits_then_stops ctx p p' i f :
  sae_start ctx p = (p', Ok (Send f)) \/ sae_on_frame i p = (p', Ok (Send f)) ->
  snd (sae_run (replicate 6 InTimeout) p') = replicate 5 (Ok (Send f)) ++ [Err AuthFailed].
Proof.
  intros [Hs|Hf].
  - apply start_inversion in Hs as (_ & c & _ & _ & _ & _ & _ & _ & Hst & Hl & Hz). apply timeouts_repeat; rewrite ?Hst; try done; by rewrite Hz.
  - pose proof (sends_remembered i p) as Hr. unfold after in Hr. rewrite Hf in Hr. cbn in Hr.
    destruct (Hr f eq_refl) as (Hl & Hz & Hst). apply timeouts_repeat; try done; by rewrite Hz.
Qed.

(** Giving up does not end the exchange: the state is the one it timed out in,
    so a commit that arrives later is still answered. *)
Theorem gives_up_stays_open p p' e c :
  state p = SCommitted c -> sae_on_timeout p = (p', Err e) -> state p' = SCommitted c.
Proof. intros Hst He. destruct (on_timeout_outcome p) as [Hs _]. by rewrite He, Hst in Hs. Qed.
End retransmission.

Section tokens.
Context `{CryptoLaws} `{SaeCurveLaws}.

(** A loaded access point gets its token back: asked for one, the provider
    repeats the commit it made -- the same scalar and element -- followed by the
    very element that carried the token, and the access point reads all three
    from the retry. *)
Theorem sae_token_echoed ctx pw sd p0 commit group t :
  sae_start ctx (with_seed pw sd) = (p0, Ok (Send commit)) -> length group = 2%nat -> len t < 255 ->
  (forall ssid pt, password_token ssid pw = Ok pt -> is_identity pt = false) ->
  let element := [EID_EXTENSION; len t + 1; EID_EXT_ANTI_CLOGGING] ++ t in
  exists p1 scalar e,
    sae_on_frame (auth_header SEQ_COMMIT STATUS_ANTI_CLOGGING ++ group ++ element) p0
    = (p1, Ok (Send (commit ++ element)))
    /\ state p1 = state p0
    /\ commit = auth_header SEQ_COMMIT STATUS_H2E ++ le_encode 2 GROUP_P256 ++ scalar ++ e
    /\ parse_auth (commit ++ element)
       = Ok {| af_seq := SEQ_COMMIT; af_status := STATUS_H2E;
               af_body := le_encode 2 GROUP_P256 ++ scalar ++ e ++ element |}
    /\ parse_commit (le_encode 2 GROUP_P256 ++ scalar ++ e ++ element) = Ok (scalar, e)
    /\ parse_token ([0; 0] ++ element) = Ok t.
Proof.
  intros Hs Hg Ht Hpt element.
  pose proof Hs as (pt & _ & Hok & _)%start_inversion. cbn [password with_seed] in Hok.
  destruct (password_element_ok pt (ctx_own_mac ctx) (ctx_bssid ctx)) as (P & HP & _).
  destruct (decide (ctx_akm ctx = Sae)) as [Hakm|Hakm].
  2: { revert Hs. unfold sae_start, self, throw_if, throw, mbind, call_bind. cbn. by rewrite bool_decide_false. }
  destruct (start_commits ctx pw sd pt P) as (c & frame & Hs' & Hc & _ & _ & Hfr); [done|done|by eapply Hpt|done|].
  rewrite Hs in Hs'. injection Hs' as -> <-.
  destruct (co_element c Hc) as (m & _ & _ & _ & _ & Hel).
  assert (length (scalar_bytes c) = SCALAR_LEN) as Hsl by (rewrite co_scalar by done; by apply scalar_to_bytes_length).
  assert (commit ++ element = auth_header SEQ_COMMIT STATUS_H2E
    ++ le_encode 2 GROUP_P256 ++ scalar_bytes c ++ element_bytes c ++ element) as Hre.
  { rewrite Hfr. unfold commit_body. by rewrite app_nil_r, <- !app_assoc. }
  eexists _, (scalar_bytes c), (element_bytes c). rewrite (on_frame_token _ c) by done. split_and!.
  - unfold on_token_request, lift, mbind, call_bind. unfold element at 1.
    rewrite parse_token_field by done. unfold self, update. cbn [token set_token].
    unfold commit_frame. rewrite (proj2 (Z.ltb_lt _ 256)) by lia. cbn [expect mbind exec_bind].
    replace (((_ ++ _) ++ _ ++ t)) with (commit ++ element); [reflexivity|].
    rewrite Hre. unfold element. by rewrite <- !app_assoc.
  - done.
  - rewrite Hfr. unfold commit_body. by rewrite app_nil_r.
  - rewrite Hre. by apply parse_auth_header.
  - by apply parse_commit_fields.
  - by apply parse_token_field.
Qed.
End tokens.

(** ** The interface *)
Section provider.
Context `{CryptoLaws} `{SaeCurveLaws}.

(** What the source takes for granted of the two mapped points: they never
    cancel.  No password for which they do is known. *)
Class TokenIsPoint := token_is_point ssid pw pt : password_token ssid pw = Ok pt -> is_identity pt = false.
Context `{TokenIsPoint}.

(** A provider together with what keeps it free of panics.  A frame is a slice
    of octets, which the guard of [pp_on_frame] says of its list. *)
Definition SafeSae : Type := { p : SaeProvider | sae_ok p }.

Definition safe_frame (f : bytes) (p : SafeSae) : SafeSae * exec Error Step :=
  match decide (is_bytes f) with
  | left Hf =>
      (exist _ (fst (sae_on_frame f (proj1_sig p))) (proj1 (on_frame_safe _ f _ Hf (proj2_sig p))),
       snd (sae_on_frame f (proj1_sig p)))
  | right _ => (p, Err ErrMalformed)
  end.

#[global] Instance SafeSae_provider : PmkProvider SafeSae := {
  pp_stage p := pp_stage (proj1_sig p);
  pp_start p ctx :=
    (exist _ (fst (sae_start ctx (proj1_sig p))) (proj1 (start_safe ctx _ (proj2_sig p))),
     snd (sae_start ctx (proj1_sig p)));
  pp_on_frame p _ frame := safe_frame frame p;
  pp_on_timeout p _ :=
    (exist _ (fst (sae_on_timeout (proj1_sig p))) (proj1 (on_timeout_safe _ _ (proj2_sig p))),
     snd (sae_on_timeout (proj1_sig p)));
}.

#[global] Instance SafeSae_safe : PmkProviderSafe SafeSae.
Proof.
  split; intros p c; [apply start_safe, proj2_sig| |apply (on_timeout_safe never_identity), proj2_sig].
  intros f. cbn. unfold safe_frame. destruct (decide _); [|done]. by apply (on_frame_safe never_identity), proj2_sig.
Qed.

(** [SaeProvider::new], with the octets [getrandom] filled the seed with. *)
Lemma with_seed_ok pw sd : sae_ok (with_seed pw sd).
Proof. split_and!; [done|done|]. intros _ ssid pt. apply token_is_point. Qed.

Definition SafeSae_new (pw sd : bytes) : SafeSae := exist _ (with_seed pw sd) (with_seed_ok pw sd).
Definition SafeSae_pmkid (p : SafeSae) : option bytes := pmkid (proj1_sig p).

Lemma SafeSae_pmkid_length p k : SafeSae_pmkid p = Some k -> length k = 16%nat.
Proof. exact (proj1 (proj2 (proj2_sig p)) k). Qed.
End provider.

(** ** A concrete group

    The integers modulo a small prime, under addition: a point is its discrete
    logarithm.  It satisfies the laws, so the exchange can be run. *)
Module SaeDemo.
Definition modulus : Z := 101.
Abbreviation element := (Zmod.Zmod modulus).

Lemma element_range (x : element) : 0 <= Zmod.unsigned x < modulus.
Proof. by apply Zmod.unsigned_pos_bound. Qed.

#[local] Instance element_eq_dec : EqDecision element.
Proof.
  intros x y. destruct (decide (Zmod.unsigned x = Zmod.unsigned y)) as [He|He].
  - left. by apply Zmod.unsigned_inj.
  - right. by intros ->.
Defined.

Definition zeros : bytes := replicate 32 0.

(** The key material depends on the first octet of the password. *)
Definition toy_hkdf (salt ikm info : bytes) (n : nat) : option bytes :=
  if (n <=? 255 * 32)%nat then Some (be_encode n (1 + hd 0 ikm mod 50)) else None.

#[local] Instance toy_curve : SaeCurve := {
  Scalar := element;
  Point := element;
  FieldElement := element;
  scalar_eq_dec := element_eq_dec;
  scalar_of := Zmod.of_Z modulus;
  scalar_reduce b := Zmod.of_Z modulus (be_decode b);
  scalar_from_repr b :=
    if (length b =? 32)%nat && (be_decode b <? modulus) then Some (Zmod.of_Z modulus (be_decode b)) else None;
  scalar_to_bytes s := be_encode 32 (Zmod.unsigned s);
  scalar_add := Zmod.add;
  field_reduce b := Zmod.of_Z modulus (be_decode b);
  map_to_curve u := u;
  point_add := Zmod.add;
  point_neg := Zmod.opp;
  point_mul := Zmod.mul;
  is_identity P := Zmod.unsigned P =? 0;
  point_xy P := if Zmod.unsigned P =? 0 then None else Some (be_encode 32 (Zmod.unsigned P), zeros);
  from_sec1_bytes b :=
    match b with
    | 4 :: b =>
        let x := be_decode (take 32 b) in
        if bool_decide (drop 32 b = zeros) && (0 <? x) && (x <? modulus) then Some (Zmod.of_Z modulus x) else None
    | _ => None
    end;
  ORDER := modulus;
  hkdf_sha256 := toy_hkdf;
}.

Lemma small_u256 v : 0 <= v < modulus -> is_uint (8 * Z.of_nat 32) v.
Proof. unfold modulus, is_uint. intros Hv. split; [lia|]. transitivity 101; [lia|done]. Qed.

Lemma decode_small v : 0 <= v < modulus -> be_decode (be_encode 32 v) = v.
Proof. intros Hv. by apply be_decode_encode, small_u256. Qed.

Lemma products (a b : Z) : 0 <= a < modulus -> 0 <= b < modulus -> (a * b) mod modulus = 0 -> a = 0 \/ b = 0.
Proof.
  intros Ha Hb.
  assert (forallb (fun x => forallb (fun y => negb ((x * y) mod modulus =? 0) || (x =? 0) || (y =? 0))
    (map Z.of_nat (seq 0 101))) (map Z.of_nat (seq 0 101)) = true) as Hall by (vm_compute; reflexivity).
  assert (forall v, 0 <= v < modulus -> In v (map Z.of_nat (seq 0 101))) as Hin.
  { intros v Hv. rewrite <- (Z2Nat.id v) by lia. apply in_map, in_seq. unfold modulus in Hv. lia. }
  rewrite forallb_forall in Hall. specialize (Hall a (Hin a Ha)). rewrite forallb_forall in Hall.
  specialize (Hall b (Hin b Hb)). intros H0. rewrite H0 in Hall. cbn in Hall.
  apply orb_true_iff in Hall as [?%Z.eqb_eq|?%Z.eqb_eq]; auto.
Qed.

#[local] Instance toy_curve_laws : SaeCurveLaws.
Proof.
  split; cbn -[modulus be_encode be_decode zeros toy_hkdf Zmod.add Zmod.mul Zmod.opp Zmod.of_Z].
  - done.
  - intros a b Ha Hb He%Zmod.of_Z_inj. by rewrite !Z.mod_small in He.
  - intros v Hv. rewrite length_be_encode, decode_small by done. cbn. by rewrite (proj2 (Z.ltb_lt _ _)) by lia.
  - intros s. pose proof (element_range s). rewrite length_be_encode, decode_small by done. cbn [Nat.eqb andb].
    rewrite (proj2 (Z.ltb_lt _ _)) by lia. by rewrite Zmod.of_Z_unsigned.
  - intros s. apply length_be_encode.
  - apply Zmod.add_comm.
  - apply Zmod.add_comm.
  - apply Zmod.add_assoc.
  - intros P Q _. by rewrite <- Zmod.add_assoc, Zmod.add_opp_same_r, Zmod.add_comm, Zmod.add_0_l.
  - intros P. rewrite Zmod.unsigned_opp. pose proof (element_range P) as HP.
    destruct (Z.eqb_spec (Zmod.unsigned P) 0) as [->|Hz]; [done|]. apply Z.eqb_neq.
    assert (Zmod.unsigned P mod modulus = Zmod.unsigned P) as Hmod by by apply Z.mod_small.
    rewrite Z.mod_opp_l_nz by (unfold modulus in *; lia). lia.
  - intros P s t. by rewrite Zmod.mul_comm, Zmod.mul_add_l, !(Zmod.mul_comm P).
  - intros P s t. by rewrite <- !Zmod.mul_assoc, (Zmod.mul_comm s).
  - intros P s. rewrite !Z.eqb_eq, Zmod.unsigned_mul. intros [?|Hs]%products; auto using element_range.
    right. apply Zmod.unsigned_inj. rewrite Hs. symmetry. apply Zmod.unsigned_0.
  - intros P s. rewrite !Z.eqb_eq, Zmod.unsigned_mul. intros ->. done.
  - intros P. by intros ->.
  - intros P. pose proof (element_range P). destruct (Z.eqb_spec (Zmod.unsigned P) 0); [done|]. intros _.
    eexists _, _. split; [done|]. split_and!; [apply length_be_encode|done|].
    rewrite take_app_length', drop_app_length', decode_small by (rewrite ?length_be_encode; done).
    rewrite bool_decide_true by done. rewrite !(proj2 (Z.ltb_lt _ _)) by lia. cbn. by rewrite Zmod.of_Z_unsigned.
  - intros salt ikm info n Hn. unfold toy_hkdf. destruct (Nat.leb_spec n (255 * 32)); [|lia]. eexists. split; [done|].
    apply length_be_encode.
Qed.

#[export] Existing Instance Toy.prims.
#[export] Existing Instance Toy.laws.

Lemma toy_map salt pw label : map_to_point salt pw label = Ok (Zmod.of_Z modulus (1 + hd 0 pw mod 50)).
Proof.
  unfold map_to_point. cbn [hkdf_sha256 toy_curve]. unfold toy_hkdf.
  change ((PWD_VALUE_LEN <=? 255 * 32)%nat) with true. cbn [expect mbind exec_bind map_to_curve field_reduce toy_curve].
  rewrite be_decode_encode; [done|]. pose proof (Z.mod_pos_bound (hd 0 pw) 50 eq_refl) as Hm.
  unfold is_uint. split; [lia|]. transitivity 101; [lia|done].
Qed.

(** Every password's token is a point here. *)
Lemma toy_token ssid pw pt : password_token ssid pw = Ok pt -> is_identity pt = false.
Proof.
  unfold password_token. rewrite !toy_map. intros [= <-].
  pose proof (Z.mod_pos_bound (hd 0 pw) 50 eq_refl) as Hm. cbn [is_identity toy_curve point_add]. apply Z.eqb_neq.
  rewrite Zmod.unsigned_add, !Zmod.unsigned_of_Z. unfold modulus.
  rewrite (Z.mod_small (1 + _) 101), (Z.mod_small _ 101); lia.
Qed.

Definition ssid : bytes := [99; 97; 119].
Definition pw : bytes := [112; 119].
Definition sta : bytes := [2; 0; 0; 0; 0; 1].
Definition ap : bytes := [2; 0; 0; 0; 0; 2].
Definition seed_a : bytes := replicate 47 0 ++ [5] ++ replicate 47 0 ++ [7].
Definition seed_b : bytes := replicate 47 0 ++ [11] ++ replicate 47 0 ++ [13].

Lemma scalars_differ (x y : element) : Zmod.unsigned x <> Zmod.unsigned y -> x <> y.
Proof. by intros Hn ->. Qed.
End SaeDemo.

Section witnesses.
Import SaeDemo.
#[local] Existing Instance toy_curve.
#[local] Existing Instance toy_curve_laws.

Lemma sae_both_ends_agree_witness : exists a b k id,
  exchange (sae_ctx ssid sta ap) (sae_ctx ssid ap sta) (with_seed pw seed_a) (with_seed pw seed_b)
  = Some ((a, Ok (Done k)), (b, Ok (Done k)))
  /\ pmkid a = Some id /\ pmkid b = Some id /\ length k = 32%nat /\ length id = 16%nat
  /\ state a = SAccepted /\ state b = SAccepted.
Proof.
  destruct (password_token_ok ssid pw) as [pt Hpt].
  apply (sae_both_ends_agree ssid pw sta ap seed_a seed_b pt); [exact Hpt|exact (toy_token _ _ _ Hpt)|..];
    apply scalars_differ; vm_compute; discriminate.
Defined.

Lemma sent_step (x : SaeProvider * exec Error Step) :
  (if sent (snd x) then true else false) = true -> x = (fst x, Ok (Send (default [] (sent (snd x))))).
Proof. by destruct x as [? [[]| |]]. Qed.

Definition key_of (r : exec Error Step) : option bytes := match r with Ok (Done k) => Some k | _ => None end.

Lemma key_step (r : exec Error Step) :
  (if key_of r then true else false) = true -> r = Ok (Done (default [] (key_of r))).
Proof. by destruct r as [[]| |]. Qed.

(** A start, and what follows: their frames, as computed. *)
Definition started : SaeProvider := fst (sae_start (sae_ctx ssid sta ap) (with_seed pw seed_a)).
Definition first_frame : bytes :=
  default [] (sent (snd (sae_start (sae_ctx ssid sta ap) (with_seed pw seed_a)))).
Definition peer_commit : bytes :=
  default [] (sent (snd (sae_start (sae_ctx ssid ap sta) (with_seed pw seed_b)))).
Definition peer_confirm : bytes :=
  default [] (sent (snd (sae_on_frame first_frame
    (fst (sae_start (sae_ctx ssid ap sta) (with_seed pw seed_b)))))).
Definition handed_out : bytes :=
  default [] (key_of (snd (sae_input (InFrame peer_confirm) (fst (sae_run [InTimeout; InFrame peer_commit] started))))).

Lemma sae_key_is_confirmed_witness : exists pt c peer s confirm,
  password_token ssid pw = Ok pt
  /\ password_element pt sta ap = Ok (pwe c)
  /\ rand c = fst (commit_scalars seed_a) /\ scalar c = seed_scalar seed_a
  /\ scalar_bytes c = scalar_to_bytes (scalar c)
  /\ first_frame = auth_header SEQ_COMMIT STATUS_H2E ++ le_encode 2 GROUP_P256 ++ scalar_bytes c ++ element_bytes c
  /\ InFrame peer ∈ [InTimeout; InFrame peer_commit] /\ session_from c peer s
  /\ InFrame peer_confirm = InFrame confirm /\ confirms s confirm /\ handed_out = pmk s.
Proof.
  apply (sae_key_is_confirmed (sae_ctx ssid sta ap) pw seed_a started first_frame
    [InTimeout; InFrame peer_commit] (InFrame peer_confirm) handed_out);
    [unfold started, first_frame; apply sent_step|unfold handed_out; apply key_step]; vm_compute; reflexivity.
Defined.

Lemma sae_never_panics_witness :
  let (p, r) := sae_start (sae_ctx ssid sta ap) (with_seed pw seed_a) in
  (r = Panic <-> Sae = Sae /\ exists pt, password_token ssid pw = Ok pt /\ is_identity pt = true)
  /\ Forall no_panic (snd (sae_run [InFrame peer_confirm; InTimeout; InFrame [255]] p)).
Proof.
  apply sae_never_panics.
  apply Forall_cons_2; [apply is_bytes_dec_true; vm_compute; reflexivity|]. apply Forall_cons_2; [exact I|].
  apply Forall_cons_2; [apply is_bytes_dec_true; reflexivity|apply Forall_nil_2].
Defined.

(** The peer's commit is due once ours is out, its confirm once it was answered. *)
Definition answered : SaeProvider := fst (sae_on_frame peer_commit started).
Lemma sae_frames_sorted_witness :
  (exists auth, parse_auth peer_commit = Ok auth /\ taken started peer_commit auth)
  /\ (exists auth, parse_auth peer_confirm = Ok auth /\ taken answered peer_confirm auth).
Proof.
  split.
  - assert (Hb : is_bytes peer_commit) by (apply is_bytes_dec_true; vm_compute; reflexivity).
    assert (Hk : match parse_auth peer_commit with
                 | Ok a => negb (accepted_kind a) = false /\ due started a = true | _ => False end) by (vm_compute; done).
    pose proof (sae_frames_sorted started peer_commit Hb) as Hs.
    destruct (parse_auth peer_commit) as [auth| |]; [|destruct Hk..]. destruct Hk as [Hk Hd].
    rewrite Hk, Hd in Hs. exists auth. split; [reflexivity|exact Hs].
  - assert (Hb : is_bytes peer_confirm) by (apply is_bytes_dec_true; vm_compute; reflexivity).
    assert (Hk : match parse_auth peer_confirm with
                 | Ok a => negb (accepted_kind a) = false /\ due answered a = true | _ => False end) by (vm_compute; done).
    pose proof (sae_frames_sorted answered peer_confirm Hb) as Hs.
    destruct (parse_auth peer_confirm) as [auth| |]; [|destruct Hk..]. destruct Hk as [Hk Hd].
    rewrite Hk, Hd in Hs. exists auth. split; [reflexivity|exact Hs].
Defined.

Lemma sae_retransmits_then_stops_witness :
  snd (sae_run (replicate 6 InTimeout) started) = replicate 5 (Ok (Send first_frame)) ++ [Err AuthFailed].
Proof.
  apply (sae_retransmits_then_stops (sae_ctx ssid sta ap) (with_seed pw seed_a) started [] first_frame).
  left. unfold started, first_frame. apply sent_step. vm_compute. reflexivity.
Defined.

Lemma sae_token_echoed_witness :
  let element := [EID_EXTENSION; 3; EID_EXT_ANTI_CLOGGING; 7; 8] in
  exists p1 s e,
    sae_on_frame (auth_header SEQ_COMMIT STATUS_ANTI_CLOGGING ++ [19; 0] ++ element) started
    = (p1, Ok (Send (first_frame ++ element)))
    /\ state p1 = state started
    /\ first_frame = auth_header SEQ_COMMIT STATUS_H2E ++ le_encode 2 GROUP_P256 ++ s ++ e
    /\ parse_auth (first_frame ++ element)
       = Ok {| af_seq := SEQ_COMMIT; af_status := STATUS_H2E;
               af_body := le_encode 2 GROUP_P256 ++ s ++ e ++ element |}
    /\ parse_commit (le_encode 2 GROUP_P256 ++ s ++ e ++ element) = Ok (s, e)
    /\ parse_token ([0; 0] ++ element) = Ok [7; 8].
Proof.
  apply (sae_token_echoed (sae_ctx ssid sta ap) pw seed_a started first_frame [19; 0] [7; 8]);
    [unfold started, first_frame; apply sent_step; vm_compute; reflexivity|reflexivity|reflexivity|intros ? ?; apply toy_token].
Defined.
End witnesses.
