(* ===== verification/Eapol.v ===== *)
(** * EAPOL frames: the crate [caw-eapol], framing and EAPOL-Key descriptor

    The EAPOL header (lib.rs, [Eapol]), the key descriptor and its MIC
    (key.rs, [KeyFrame]) and the Key Data field (key.rs, [key_data_items]). *)
From S2P Require Import Prelude Bytes Dot11 Crypto.

Definition EAPOL_HDR_LEN : nat := 4.

(** [enum Error], with the variants of the [enterprise] build; a rustls error is
    its text, the only thing ever made of it. *)
Inductive Error :=
| Malformed
| ErrCrypto (e : Crypto.Error)
| Rejected
| ErrIo (errno : Z)
| UnsupportedPacketType (t : Z)
| UnsupportedEapCode (c : Z)
| UnsupportedDescriptor (t : Z)
| UnexpectedMessage
| ReplayedCounter
| NonceMismatch
| RsnMissing
| RsnMismatch
| GtkMissing
| ErrTimeout
| FragmentOutOfOrder
| FragmentTooLarge
| PrematureSuccess
| ErrTls (text : string)
| NoCryptoProvider
| CertificateStore (message : string)
| NoPeer
| ShortSend.
#[export] Instance Error_eq_dec : EqDecision Error.
Proof. solve_decision. Defined.

(** ** The EAPOL header *)

Inductive PacketType := PtEap | PtStart | PtLogoff | PtKey.
#[export] Instance PacketType_eq_dec : EqDecision PacketType.
Proof. solve_decision. Defined.

Definition PacketType_u8 (t : PacketType) : Z :=
  match t with PtEap => 0 | PtStart => 1 | PtLogoff => 2 | PtKey => 3 end.

Definition PacketType_from_u8 (v : Z) : exec Error PacketType :=
  match v with
  | 0 => Ok PtEap
  | 1 => Ok PtStart
  | 2 => Ok PtLogoff
  | 3 => Ok PtKey
  | other => Err (UnsupportedPacketType other)
  end.

Record Eapol := {
  eapol_version : Z;
  eapol_packet_type : PacketType;
  eapol_body : bytes;
  eapol_raw : bytes;
}.

Definition Eapol_parse (buf : bytes) : exec Error Eapol :=
  match buf with
  | version :: packet_type :: hi :: lo :: rest =>
      let body_len := Z.to_nat (be_decode [hi; lo]) in
      if bool_decide (length rest < body_len)%nat then Err Malformed else
      packet_type ← PacketType_from_u8 packet_type;
      body ← slice 0 body_len rest;
      raw ← slice 0 (EAPOL_HDR_LEN + body_len) buf;
      Ok {| eapol_version := version; eapol_packet_type := packet_type;
            eapol_body := body; eapol_raw := raw |}
  | _ => Err Malformed
  end.

(** [u16::try_from(n).expect(..)] *)
Definition expect_u16 {E} (n : Z) : exec E Z := if n <? 2 ^ 16 then Ok n else Panic.

Definition Eapol_encode {E} (version : Z) (t : PacketType) (body : bytes) : exec E bytes :=
  l ← expect_u16 (len body);
  Ok ([version; PacketType_u8 t] ++ be_encode 2 l ++ body).

(** ** The key descriptor *)

Definition DESCRIPTOR_TYPE_RSN : Z := 2.

Definition OFF_KEY_INFO : nat := 1.
Definition OFF_KEY_LENGTH : nat := 3.
Definition OFF_REPLAY_COUNTER : nat := 5.
Definition OFF_KEY_NONCE : nat := 13.
Definition OFF_KEY_IV : nat := 45.
Definition OFF_KEY_RSC : nat := 61.
Definition OFF_KEY_MIC : nat := 77.
Definition OFF_KEY_DATA_LEN : nat := 93.
Definition BODY_MIN : nat := 95.
Definition MIC_OFFSET : nat := EAPOL_HDR_LEN + OFF_KEY_MIC.

(** [KeyInfo] is its 16 bits. *)
Definition KI_PAIRWISE : Z := Z.shiftl 1 3.
Definition KI_INSTALL : Z := Z.shiftl 1 6.
Definition KI_ACK : Z := Z.shiftl 1 7.
Definition KI_MIC : Z := Z.shiftl 1 8.
Definition KI_SECURE : Z := Z.shiftl 1 9.
Definition KI_ERROR : Z := Z.shiftl 1 10.
Definition KI_REQUEST : Z := Z.shiftl 1 11.
Definition KI_ENCRYPTED : Z := Z.shiftl 1 12.

Definition ki_pairwise (k : Z) : bool := has_flag k KI_PAIRWISE.
Definition ki_install (k : Z) : bool := has_flag k KI_INSTALL.
Definition ki_ack (k : Z) : bool := has_flag k KI_ACK.
Definition ki_mic (k : Z) : bool := has_flag k KI_MIC.
Definition ki_secure (k : Z) : bool := has_flag k KI_SECURE.
Definition ki_error (k : Z) : bool := has_flag k KI_ERROR.
Definition ki_request (k : Z) : bool := has_flag k KI_REQUEST.
Definition ki_encrypted (k : Z) : bool := has_flag k KI_ENCRYPTED.
Definition ki_version (k : Z) (akm : Akm) : exec Error KeyDescriptorVersion :=
  map_err ErrCrypto (from_key_info_for k akm).

Record KeyFrame := {
  descriptor_type : Z;
  key_info : Z;
  key_length : Z;
  replay_counter : Z;
  key_nonce : bytes;
  key_iv : bytes;
  key_rsc : bytes;
  key_mic : bytes;
  key_data : bytes;
}.

(** [be16(&b[i..])] *)
Definition be16_at (i : nat) (b : bytes) : exec Error Z :=
  r ← slice_from i b;
  x ← idx 0 r; y ← idx 1 r;
  Ok (be_decode [x; y]).

Definition KeyFrame_parse (body : bytes) : exec Error KeyFrame :=
  if bool_decide (length body < BODY_MIN)%nat then Err Malformed else
  key_data_len ← be16_at OFF_KEY_DATA_LEN body;
  key_data ← ok_or Malformed (get_range BODY_MIN (BODY_MIN + Z.to_nat key_data_len) body);
  descriptor_type ← idx 0 body;
  key_info ← be16_at OFF_KEY_INFO body;
  key_length ← be16_at OFF_KEY_LENGTH body;
  replay_counter ← slice OFF_REPLAY_COUNTER (OFF_REPLAY_COUNTER + 8) body;
  key_nonce ← slice OFF_KEY_NONCE (OFF_KEY_NONCE + 32) body;
  key_iv ← slice OFF_KEY_IV (OFF_KEY_IV + 16) body;
  key_rsc ← slice OFF_KEY_RSC (OFF_KEY_RSC + 8) body;
  key_mic ← slice OFF_KEY_MIC (OFF_KEY_MIC + MIC_LEN) body;
  Ok {| descriptor_type := descriptor_type; key_info := key_info; key_length := key_length;
        replay_counter := be_decode replay_counter; key_nonce := key_nonce; key_iv := key_iv;
        key_rsc := key_rsc; key_mic := key_mic; key_data := key_data |}.

Definition KeyFrame_encode {E} (f : KeyFrame) (protocol_version : Z) : exec E bytes :=
  body_len ← expect_u16 (Z.of_nat (BODY_MIN + length (key_data f)));
  Ok ([protocol_version; PacketType_u8 PtKey]
      ++ be_encode 2 body_len
      ++ [descriptor_type f]
      ++ be_encode 2 (key_info f)
      ++ be_encode 2 (key_length f)
      ++ be_encode 8 (replay_counter f)
      ++ key_nonce f
      ++ key_iv f
      ++ key_rsc f
      ++ replicate 8 0
      ++ key_mic f
      ++ be_encode 2 (wrap 16 (len (key_data f)))
      ++ key_data f).

(** [buf[i..i + r.len()].copy_from_slice(r)] *)
Definition splice {E} (i : nat) (r buf : bytes) : exec E bytes :=
  if bool_decide (i + length r <= length buf)%nat
  then Ok (take i buf ++ r ++ drop (i + length r) buf) else Panic.

Section mic.
Context `{CryptoPrims}.

Definition KeyFrame_encode_signed {E} (f : KeyFrame) (protocol_version : Z) (kck : bytes)
    (version : KeyDescriptorVersion) : exec E bytes :=
  frame ← KeyFrame_encode f protocol_version;
  frame ← splice MIC_OFFSET (replicate MIC_LEN 0) frame;
  let mic := compute_mic kck version frame in
  splice MIC_OFFSET mic frame.

Definition verify_frame_mic (frame kck : bytes) (version : KeyDescriptorVersion) (mic : bytes)
  : exec Error unit :=
  if bool_decide (length frame < MIC_OFFSET + MIC_LEN)%nat then Err Malformed else
  zeroed ← splice MIC_OFFSET (replicate MIC_LEN 0) frame;
  map_err ErrCrypto (verify_mic kck version zeroed mic).
End mic.

(** ** The Key Data field *)

Record Gtk := { gtk_key : bytes; gtk_index : Z }.
#[export] Instance Gtk_eq_dec : EqDecision Gtk.
Proof. solve_decision. Defined.

Definition KDE_GTK : Z := 1.

Inductive KeyDataItem :=
| Kde (o : oui) (data_type : Z) (data : bytes)
| Ie (id : Z) (raw : bytes).

(** [Iterator::next] for [KeyDataItems]. *)
Definition key_data_next (rest : bytes) : option (KeyDataItem * bytes) :=
  match rest with
  | id :: l :: _ =>
      if l =? 0 then None else
      element ← get_range 0 (2 + Z.to_nat l) rest;
      let payload := drop 2 element in
      let item :=
        match payload with
        | a :: b :: c :: data_type :: data =>
            if id =? EID_VENDOR then Kde (a, b, c) data_type data else Ie id element
        | _ => Ie id element
        end in
      Some (item, drop (length element) rest)
  | _ => None
  end.

Definition key_data_items (data : bytes) : list KeyDataItem := items key_data_next length data.

(** The body of the GTK KDE. *)
Definition gtk_of_kde (data : bytes) : exec Error Gtk :=
  match data with
  | flags :: _ :: key =>
      if negb (length key =? 16)%nat && negb (length key =? 32)%nat then Err Malformed
      else Ok {| gtk_key := key; gtk_index := Z.land flags 0x03 |}
  | _ => Err Malformed
  end.

(** The loop of [gtk_kde]: the first GTK KDE decides. *)
Definition gtk_kde (key_data : bytes) : exec Error Gtk :=
  default (Err GtkMissing)
    (find_map (fun item =>
       match item with
       | Kde o t data =>
           if bool_decide (o = OUI_IEEE) && (t =? KDE_GTK) then Some (gtk_of_kde data) else None
       | Ie _ _ => None
       end) (key_data_items key_data)).

Definition rsn_element (key_data : bytes) : option bytes :=
  find_map (fun item =>
    match item with
    | Ie id raw => if id =? EID_RSN then Some raw else None
    | Kde _ _ _ => None
    end) (key_data_items key_data).

(** ** Framing lemmas *)

Lemma PacketType_roundtrip t : PacketType_from_u8 (PacketType_u8 t) = Ok t.
Proof. by destruct t. Qed.

Lemma PacketType_from_u8_no_panic v : no_panic (PacketType_from_u8 v).
Proof. unfold PacketType_from_u8. repeat case_match; done. Qed.

Lemma expect_u16_ok {E} n v : @expect_u16 E n = Ok v <-> v = n /\ n < 2 ^ 16.
Proof. unfold expect_u16. case_match; bool_prop; split; intros; naive_solver lia. Qed.

(** Parsing an EAPOL header never panics, whatever the octets. *)
Lemma Eapol_parse_no_panic buf : no_panic (Eapol_parse buf).
Proof.
  unfold Eapol_parse. do 4 (destruct buf as [|? buf]; [done|]).
  case_bool_decide; [done|].
  apply no_panic_bind; [apply PacketType_from_u8_no_panic|]. intros.
  apply no_panic_bind; [apply no_panic_slice; lia|]. intros.
  apply no_panic_bind; [|done].
  apply no_panic_slice. unfold EAPOL_HDR_LEN. cbn [length]. lia.
Qed.

(** What a parsed frame is: a prefix of the buffer, header and body. *)
Lemma Eapol_parse_raw buf e :
  Eapol_parse buf = Ok e ->
  eapol_raw e = take (length (eapol_raw e)) buf
  /\ length (eapol_raw e) = (4 + length (eapol_body e))%nat
  /\ eapol_body e = drop 4 (eapol_raw e).
Proof.
  unfold Eapol_parse. do 4 (destruct buf as [|? buf]; [done|]).
  case_bool_decide; [done|]. intros Ho. inv_ok. cbn.
  match goal with
  | Hb : slice 0 _ buf = Ok _, Hr : slice 0 _ (_ :: _) = Ok _ |- _ =>
      apply expect_ok, get_range_Some in Hb as [Hb ->];
      apply expect_ok, get_range_Some in Hr as [Hr ->]
  end.
  unfold EAPOL_HDR_LEN in *. rewrite !Nat.sub_0_r, !drop_0 in *. cbn [Nat.add take drop length] in *.
  rewrite length_take, Nat.min_l by lia. split_and!; done.
Qed.

(** The layout: version, type, two octets of length, body. *)
Lemma Eapol_encode_eq {E} v t body w :
  @Eapol_encode E v t body = Ok w ->
  w = [v; PacketType_u8 t] ++ be_encode 2 (len body) ++ body /\ is_u16 (len body).
Proof.
  unfold Eapol_encode. intros H. inv_ok.
  match goal with H : expect_u16 _ = Ok _ |- _ => apply expect_u16_ok in H as [-> ?] end.
  split; [done|]. unfold is_uint, len in *. lia.
Qed.

Lemma Eapol_parse_layout v t body n pad :
  n = Z.of_nat (length body) -> is_u16 n ->
  Eapol_parse (([v; PacketType_u8 t] ++ be_encode 2 n ++ body) ++ pad)
  = Ok {| eapol_version := v; eapol_packet_type := t; eapol_body := body;
          eapol_raw := [v; PacketType_u8 t] ++ be_encode 2 n ++ body |}.
Proof.
  intros Hn Hu. pose proof (be16_roundtrip n Hu) as Hb.
  destruct (be_encode 2 n) as [|hi [|lo [|]]] eqn:He;
    pose proof (length_be_encode 2 n) as Hl; rewrite He in Hl; try discriminate Hl.
  cbn [app Eapol_parse]. rewrite Hb, Hn, Nat2Z.id.
  rewrite bool_decide_false by (rewrite length_app; lia).
  rewrite PacketType_roundtrip. cbn [mbind exec_bind].
  rewrite (slice_field 0 (length body) _ body) by wire_field. cbn [mbind exec_bind].
  change (v :: PacketType_u8 t :: hi :: lo :: body ++ pad)
    with (([v; PacketType_u8 t; hi; lo] ++ body) ++ pad).
  unfold EAPOL_HDR_LEN.
  by rewrite (slice_field 0 _ _ ([v; PacketType_u8 t; hi; lo] ++ body)) by wire_field.
Qed.

(** An EAPOL frame parses back to its version, type and body, and [raw] is
    exactly the frame: padding added behind it is dropped. *)
Theorem eapol_roundtrip {E} version t body pad w :
  @Eapol_encode E version t body = Ok w ->
  Eapol_parse (w ++ pad) = Ok {| eapol_version := version; eapol_packet_type := t;
                                 eapol_body := body; eapol_raw := w |}.
Proof. intros [-> Hu]%Eapol_encode_eq. by apply Eapol_parse_layout. Qed.

(** ** Key frames *)

Definition KeyFrame_wf (f : KeyFrame) : Prop :=
  is_u16 (key_info f) /\ is_u16 (key_length f) /\ is_u64 (replay_counter f)
  /\ length (key_nonce f) = 32%nat /\ length (key_iv f) = 16%nat
  /\ length (key_rsc f) = 8%nat /\ length (key_mic f) = 16%nat
  /\ Z.of_nat (BODY_MIN + length (key_data f)) < 2 ^ 16.
#[export] Instance KeyFrame_wf_dec f : Decision (KeyFrame_wf f).
Proof. unfold KeyFrame_wf. apply _. Defined.

(** The body of the frame, as [encode] lays it out. *)
Definition KeyFrame_body (f : KeyFrame) : bytes :=
  [descriptor_type f] ++ be_encode 2 (key_info f) ++ be_encode 2 (key_length f)
  ++ be_encode 8 (replay_counter f) ++ key_nonce f ++ key_iv f ++ key_rsc f
  ++ replicate 8 0 ++ key_mic f ++ be_encode 2 (wrap 16 (len (key_data f))) ++ key_data f.

Lemma KeyFrame_body_length f : KeyFrame_wf f -> length (KeyFrame_body f) = (95 + length (key_data f))%nat.
Proof.
  intros (_ & _ & _ & Hn & Hi & Hr & Hm & _). unfold KeyFrame_body.
  rewrite !length_app, !length_be_encode, Hn, Hi, Hr, Hm. cbn. lia.
Qed.

Lemma KeyFrame_encode_eq {E} f pv :
  KeyFrame_wf f -> @KeyFrame_encode E f pv = Eapol_encode pv PtKey (KeyFrame_body f).
Proof.
  intros Hf. unfold KeyFrame_encode, Eapol_encode, len. rewrite KeyFrame_body_length by done.
  change BODY_MIN with 95%nat. by destruct (expect_u16 _).
Qed.

Lemma be16_at_field i b v :
  get_range i (i + 2) b = Some (be_encode 2 v) -> is_u16 v -> be16_at i b = Ok v.
Proof.
  intros H Hv. apply get_range_Some in H as [Hi H].
  replace (i + 2 - i)%nat with 2%nat in H by lia.
  unfold be16_at, slice_from, get_from. rewrite bool_decide_true by lia.
  cbn [expect mbind exec_bind]. pose proof (be16_roundtrip v Hv) as Hb. rewrite H in Hb.
  destruct (drop i b) as [|x [|y l]] eqn:Hd.
  1,2: pose proof (length_drop b i) as Hl; rewrite Hd in Hl; cbn in Hl; lia.
  cbn [take] in Hb. rewrite take_0 in Hb. unfold idx. cbn -[be_decode]. by rewrite Hb.
Qed.

(** Every offset of the parser agrees with the builder. *)
Lemma KeyFrame_parse_body f : KeyFrame_wf f -> KeyFrame_parse (KeyFrame_body f) = Ok f.
Proof.
  intros Hwf. pose proof (KeyFrame_body_length f Hwf) as Hlen.
  destruct f as [dt ki kl rc kn iv rsc mic data].
  destruct Hwf as (Hki & Hkl & Hrc & Hn & Hi & Hr & Hm & Hd). unfold BODY_MIN in Hd.
  cbn [key_info key_length replay_counter key_nonce key_iv key_rsc key_mic key_data] in *.
  assert (Hdl : is_u16 (len data)) by (unfold is_uint, len; lia).
  unfold KeyFrame_parse, BODY_MIN, OFF_KEY_DATA_LEN, OFF_KEY_INFO, OFF_KEY_LENGTH,
    OFF_REPLAY_COUNTER, OFF_KEY_NONCE, OFF_KEY_IV, OFF_KEY_RSC, OFF_KEY_MIC, MIC_LEN.
  rewrite bool_decide_false by lia. unfold KeyFrame_body.
  cbn [descriptor_type key_info key_length replay_counter key_nonce key_iv key_rsc key_mic key_data].
  rewrite (be16_at_field 93 _ (len data));
    [|unfold wrap; rewrite Z.mod_small by exact Hdl; wire_field|done].
  cbn [mbind exec_bind]. unfold len. rewrite Nat2Z.id.
  assert (Hkd : forall h : bytes, length h = 95%nat ->
    get_range 95 (95 + length data) (h ++ data) = Some data) by (intros; wire_field).
  rewrite !app_assoc, Hkd by len_lia. rewrite <- !app_assoc.
  cbn [ok_or mbind exec_bind idx lookup list_lookup app expect].
  rewrite (be16_at_field 1 _ ki); [|wire_field|done]. cbn [mbind exec_bind].
  rewrite (be16_at_field 3 _ kl); [|wire_field|done]. cbn [mbind exec_bind].
  rewrite (slice_field 5 (5 + 8) _ (be_encode 8 rc)) by wire_field. cbn [mbind exec_bind].
  rewrite (slice_field 13 (13 + 32) _ kn) by wire_field. cbn [mbind exec_bind].
  rewrite (slice_field 45 (45 + 16) _ iv) by wire_field. cbn [mbind exec_bind].
  rewrite (slice_field 61 (61 + 8) _ rsc) by wire_field. cbn [mbind exec_bind].
  rewrite (slice_field 77 (77 + 16) _ mic) by wire_field. cbn [mbind exec_bind].
  by rewrite be64_roundtrip.
Qed.

(** Parsing a key descriptor never panics either: the one length it trusts is
    checked against the buffer. *)
Lemma KeyFrame_parse_no_panic body : no_panic (KeyFrame_parse body).
Proof.
  unfold KeyFrame_parse, BODY_MIN, OFF_KEY_DATA_LEN, OFF_KEY_INFO, OFF_KEY_LENGTH,
    OFF_REPLAY_COUNTER, OFF_KEY_NONCE, OFF_KEY_IV, OFF_KEY_RSC, OFF_KEY_MIC, MIC_LEN.
  case_bool_decide as Hl; [done|].
  assert (Hbe : forall i, (i + 2 <= length body)%nat -> no_panic (be16_at i body)).
  { intros i Hi. unfold be16_at.
    apply no_panic_bind; [apply no_panic_slice_from; lia|]. intros r Hr.
    unfold slice_from, get_from in Hr. rewrite bool_decide_true in Hr by lia.
    injection Hr as <-.
    apply no_panic_bind; [apply no_panic_idx; rewrite length_drop; lia|]. intros ? _.
    apply no_panic_bind; [apply no_panic_idx; rewrite length_drop; lia|]. done. }
  repeat (apply no_panic_bind;
    [first [apply Hbe; lia | apply no_panic_ok_or | apply no_panic_idx; lia
           | apply no_panic_slice; lia] | intros ? _]).
  done.
Qed.

Lemma be16_at_u16 i b v : is_bytes b -> be16_at i b = Ok v -> is_u16 v.
Proof.
  intros Hb H. unfold be16_at, slice_from, get_from, idx in H. inv_ok. case_bool_decide; simplify_eq.
  apply (be_decode_bound [_; _]). apply (Forall_drop _ i) in Hb.
  rewrite !Forall_cons. split_and!; [by eapply Forall_lookup_1..|constructor].
Qed.

(** The fields of a parsed descriptor have the widths of their types. *)
Lemma KeyFrame_parse_widths body f :
  is_bytes body -> KeyFrame_parse body = Ok f ->
  is_u16 (key_info f) /\ is_u64 (replay_counter f) /\ length (key_nonce f) = 32%nat
  /\ length (key_mic f) = 16%nat.
Proof.
  intros Hb H. unfold KeyFrame_parse in H. case_bool_decide; [done|]. inv_ok. cbn.
  repeat match goal with H : slice _ _ _ = Ok _ |- _ => apply expect_ok in H end.
  split_and!; [by eapply be16_at_u16| |by erewrite get_range_length by done..].
  match goal with H : get_range OFF_REPLAY_COUNTER _ _ = Some ?r |- _ =>
    pose proof (get_range_bytes _ _ _ _ Hb H) as Hr; apply get_range_length in H;
    pose proof (be_decode_bound r Hr) as Hd; by rewrite H in Hd end.
Qed.

(** [with_mic f m] is [f] with its MIC field replaced. *)
Definition with_mic (f : KeyFrame) (m : bytes) : KeyFrame :=
  {| descriptor_type := descriptor_type f; key_info := key_info f; key_length := key_length f;
     replay_counter := replay_counter f; key_nonce := key_nonce f; key_iv := key_iv f;
     key_rsc := key_rsc f; key_mic := m; key_data := key_data f |}.

Lemma KeyFrame_wf_with_mic f m : KeyFrame_wf f -> length m = 16%nat -> KeyFrame_wf (with_mic f m).
Proof. unfold KeyFrame_wf. naive_solver. Qed.

(** The octets on either side of the MIC. *)
Definition KeyFrame_head (f : KeyFrame) (pv : Z) : bytes :=
  [pv; PacketType_u8 PtKey] ++ be_encode 2 (len (KeyFrame_body f)) ++ [descriptor_type f]
  ++ be_encode 2 (key_info f) ++ be_encode 2 (key_length f) ++ be_encode 8 (replay_counter f)
  ++ key_nonce f ++ key_iv f ++ key_rsc f ++ replicate 8 0.
Definition KeyFrame_tail (f : KeyFrame) : bytes :=
  be_encode 2 (wrap 16 (len (key_data f))) ++ key_data f.
(** The whole frame. *)
Definition KeyFrame_frame (f : KeyFrame) (pv : Z) : bytes :=
  KeyFrame_head f pv ++ key_mic f ++ KeyFrame_tail f.

Lemma KeyFrame_head_length f pv : KeyFrame_wf f -> length (KeyFrame_head f pv) = MIC_OFFSET.
Proof.
  intros (_ & _ & _ & Hn & Hi & Hr & Hm & _). unfold KeyFrame_head.
  rewrite !length_app, !length_be_encode, Hn, Hi, Hr. done.
Qed.

Lemma KeyFrame_head_with_mic f m pv :
  KeyFrame_wf f -> length m = 16%nat -> KeyFrame_head (with_mic f m) pv = KeyFrame_head f pv.
Proof.
  intros Hf Hm. unfold KeyFrame_head, len.
  by rewrite !KeyFrame_body_length by auto using KeyFrame_wf_with_mic.
Qed.

Lemma KeyFrame_encode_frame {E} f pv :
  KeyFrame_wf f -> @KeyFrame_encode E f pv = Ok (KeyFrame_frame f pv).
Proof.
  intros Hf. rewrite KeyFrame_encode_eq by done. unfold Eapol_encode, expect_u16.
  assert (len (KeyFrame_body f) < 2 ^ 16) as Hlt.
  { unfold len. rewrite KeyFrame_body_length by done. apply Hf. }
  apply Z.ltb_lt in Hlt. rewrite Hlt. cbn [mbind exec_bind]. f_equal.
  unfold KeyFrame_frame, KeyFrame_head, KeyFrame_tail. unfold KeyFrame_body at 2.
  by rewrite <- !app_assoc.
Qed.

Lemma KeyFrame_frame_parse f pv :
  KeyFrame_wf f ->
  Eapol_parse (KeyFrame_frame f pv)
  = Ok {| eapol_version := pv; eapol_packet_type := PtKey; eapol_body := KeyFrame_body f;
          eapol_raw := KeyFrame_frame f pv |}.
Proof.
  intros Hf. pose proof (KeyFrame_encode_frame (E := Error) f pv Hf) as He.
  rewrite KeyFrame_encode_eq in He by done. apply Eapol_encode_eq in He as [He Hu].
  rewrite He. rewrite <- (app_nil_r (_ ++ _)) at 1. by apply Eapol_parse_layout.
Qed.

Lemma splice_mid {E} i (a b c r : bytes) :
  length a = i -> length r = length b -> @splice E i r (a ++ b ++ c) = Ok (a ++ r ++ c).
Proof.
  intros <- Hr. unfold splice. rewrite bool_decide_true by len_lia.
  rewrite take_app_length. f_equal. f_equal. f_equal. rewrite app_assoc.
  rewrite drop_app_length'; [done|]. rewrite length_app. lia.
Qed.

Lemma Eapol_parse_body_bytes b e : is_bytes b -> Eapol_parse b = Ok e -> is_bytes (eapol_body e).
Proof.
  intros Hb He. apply Eapol_parse_raw in He as (Hr & _ & ->).
  rewrite Hr. by apply Forall_drop, Forall_take.
Qed.

Section mic_laws.
Context `{CryptoLaws}.

(** The MIC a signed frame carries: computed over the frame with the field
    cleared. *)
Definition frame_mic (f : KeyFrame) (pv : Z) (kck : bytes) (v : KeyDescriptorVersion) : bytes :=
  compute_mic kck v (KeyFrame_frame (with_mic f (replicate MIC_LEN 0)) pv).

Lemma frame_mic_length f pv k v : length (frame_mic f pv k v) = 16%nat.
Proof. apply compute_mic_length. Qed.

Lemma encode_signed_frame {E} f pv k v :
  KeyFrame_wf f ->
  @KeyFrame_encode_signed _ E f pv k v
  = Ok (KeyFrame_frame (with_mic f (frame_mic f pv k v)) pv).
Proof.
  intros Hf. pose proof (KeyFrame_head_with_mic f (replicate MIC_LEN 0) pv Hf eq_refl) as Hz.
  pose proof (KeyFrame_head_with_mic f (frame_mic f pv k v) pv Hf (frame_mic_length _ _ _ _)) as Hs.
  unfold KeyFrame_encode_signed.
  rewrite KeyFrame_encode_frame by done. cbn [mbind exec_bind]. unfold KeyFrame_frame at 1.
  pose proof (KeyFrame_head_length f pv Hf) as Hh.
  assert (length (key_mic f) = 16%nat) as Hm by apply Hf.
  rewrite splice_mid by (done || rewrite length_replicate, Hm; done).
  cbn [mbind exec_bind].
  rewrite splice_mid by (done || by rewrite compute_mic_length, length_replicate).
  unfold KeyFrame_frame. rewrite Hs. unfold frame_mic, KeyFrame_frame. by rewrite Hz.
Qed.

(** A signed key frame is accepted by the receiver that holds the same
    KCK: it parses back to the frame that was signed, with the MIC filled in,
    and that MIC verifies over the received octets. *)
Lemma signed_frame_accepted f pv kck v w :
  KeyFrame_wf f -> @KeyFrame_encode_signed _ Error f pv kck v = Ok w ->
  exists m e, Eapol_parse w = Ok e /\ eapol_raw e = w /\ eapol_packet_type e = PtKey
    /\ KeyFrame_parse (eapol_body e) = Ok (with_mic f m)
    /\ verify_frame_mic (eapol_raw e) kck v m = Ok tt.
Proof.
  intros Hf Hw. rewrite encode_signed_frame in Hw by done. injection Hw as <-.
  set (m := frame_mic f pv kck v).
  assert (Hfm : KeyFrame_wf (with_mic f m)) by (apply KeyFrame_wf_with_mic, frame_mic_length; done).
  exists m. eexists. rewrite KeyFrame_frame_parse by done.
  split_and!; [done..| |].
  { cbn [eapol_body]. by apply KeyFrame_parse_body. }
  cbn [eapol_raw]. unfold verify_frame_mic, KeyFrame_frame at 1.
  pose proof (KeyFrame_head_length _ pv Hfm) as Hh.
  rewrite bool_decide_false by (rewrite !length_app, Hh; cbn [key_mic with_mic];
    unfold m; rewrite frame_mic_length; unfold MIC_LEN; lia).
  unfold KeyFrame_frame.
  rewrite splice_mid by (done || cbn; unfold m; by rewrite frame_mic_length).
  cbn [mbind exec_bind]. apply map_err_ok, verify_mic_ok. unfold m at 1, frame_mic, KeyFrame_frame.
  by rewrite !KeyFrame_head_with_mic by (done || apply frame_mic_length).
Qed.
Lemma encode_signed_ok f pv k v :
  KeyFrame_wf f -> exists w, @KeyFrame_encode_signed _ Error f pv k v = Ok w.
Proof. intros Hf. rewrite encode_signed_frame by done. by eexists. Qed.

(** The MIC check of a frame that parsed: it never panics, and it accepts
    exactly the MIC of the frame with the field cleared. *)
Lemma verify_frame_mic_no_panic frame k v m : no_panic (verify_frame_mic frame k v m).
Proof.
  unfold verify_frame_mic. case_bool_decide as Hl; [done|].
  apply no_panic_bind; [|intros; apply no_panic_map_err, verify_mic_no_panic].
  unfold splice. rewrite length_replicate, bool_decide_true by lia. done.
Qed.

Lemma verify_frame_mic_ok frame k v m u :
  verify_frame_mic frame k v m = Ok u ->
  (MIC_OFFSET + MIC_LEN <= length frame)%nat
  /\ m = compute_mic k v (take MIC_OFFSET frame ++ replicate MIC_LEN 0
                          ++ drop (MIC_OFFSET + MIC_LEN) frame).
Proof.
  unfold verify_frame_mic. case_bool_decide as Hl; [done|]. intros Hv.
  unfold splice in Hv. rewrite length_replicate, bool_decide_true in Hv by lia.
  cbn [mbind exec_bind] in Hv. apply map_err_ok, verify_mic_ok in Hv. split; [lia|done].
Qed.
End mic_laws.



(** ** Key Data: what a peer lays out is what is found *)

(** One element: identifier, length, payload. *)
Definition element (id : Z) (payload : bytes) : bytes := [id; len payload] ++ payload.
Definition element_ok (payload : bytes) : Prop := (0 < length payload < 256)%nat.
Definition kde (o : oui) (t : Z) (data : bytes) : bytes :=
  let '(a, b, c) := o in element EID_VENDOR ([a; b; c; t] ++ data).
(** The body of a GTK KDE: key id, reserved octet, key. *)
Definition gtk_data (g : Gtk) : bytes := [gtk_index g; 0] ++ gtk_key g.

(** The item an element decodes to. *)
Definition item_of (id : Z) (payload : bytes) : KeyDataItem :=
  match payload with
  | a :: b :: c :: t :: data =>
      if id =? EID_VENDOR then Kde (a, b, c) t data else Ie id (element id payload)
  | _ => Ie id (element id payload)
  end.

Lemma key_data_consumes s a s' : key_data_next s = Some (a, s') -> (length s' < length s)%nat.
Proof.
  unfold key_data_next. destruct s as [|id [|l s]]; try done.
  destruct (l =? 0) eqn:?; [done|].
  destruct (get_range _ _ _) as [e|] eqn:He; [|done]. cbn [mbind option_bind].
  intros [= _ <-]. pose proof (get_range_length _ _ _ _ He) as Hl.
  rewrite length_drop. apply get_range_Some in He. cbn [length] in *. lia.
Qed.

Lemma key_data_next_element id payload rest :
  element_ok payload ->
  key_data_next (element id payload ++ rest) = Some (item_of id payload, rest).
Proof.
  unfold element_ok. intros Hp. unfold element, key_data_next, len. cbn [app].
  destruct (Z.eqb_spec (Z.of_nat (length payload)) 0) as [|_]; [lia|].
  rewrite Nat2Z.id. change (id :: Z.of_nat (length payload) :: payload ++ rest)
    with ((id :: Z.of_nat (length payload) :: payload) ++ rest).
  rewrite get_range_prefix by done. cbn [mbind option_bind].
  rewrite drop_app_length. unfold item_of, element, len.
  cbn [drop app]. by destruct payload as [|? [|? [|? [|? ?]]]].
Qed.

Lemma key_data_items_element id payload rest :
  element_ok payload ->
  key_data_items (element id payload ++ rest) = item_of id payload :: key_data_items rest.
Proof.
  intros Hp. unfold key_data_items.
  rewrite (items_eq _ _ key_data_consumes) at 1. by rewrite key_data_next_element.
Qed.

Lemma key_data_items_elements els rest :
  Forall (fun e => element_ok (snd e)) els ->
  key_data_items (concat (map (fun e => element (fst e) (snd e)) els) ++ rest)
  = map (fun e => item_of (fst e) (snd e)) els ++ key_data_items rest.
Proof.
  induction 1 as [|e els He _ IH]; [done|]. cbn [map concat]. rewrite <- app_assoc.
  rewrite key_data_items_element by done. cbn [app]. by rewrite IH.
Qed.

Lemma find_map_app {A B} (f : A -> option B) l1 l2 :
  find_map f (l1 ++ l2) = match find_map f l1 with Some b => Some b | None => find_map f l2 end.
Proof. induction l1 as [|x l1 IH]; cbn; [done|]. by destruct (f x). Qed.

Lemma find_map_None {A B} (f : A -> option B) l :
  find_map f l = None <-> Forall (fun x => f x = None) l.
Proof.
  induction l as [|x l IH]; cbn; [split; constructor|]. rewrite Forall_cons.
  destruct (f x); [naive_solver|]. naive_solver.
Qed.

Definition Gtk_wf (g : Gtk) : Prop :=
  (length (gtk_key g) = 16 \/ length (gtk_key g) = 32)%nat /\ 0 <= gtk_index g < 4.
#[export] Instance Gtk_wf_dec g : Decision (Gtk_wf g).
Proof. unfold Gtk_wf. apply _. Defined.

Lemma gtk_of_kde_data g : Gtk_wf g -> gtk_of_kde (gtk_data g) = Ok g.
Proof.
  destruct g as [k i]. intros [Hk Hi]. cbn in *.
  change 3 with (Z.ones 2). rewrite Z.land_ones, Z.mod_small by lia. by destruct Hk as [-> | ->].
Qed.

(** Whatever the peer sends, a group key the handshake accepts has a length
    and an index the driver can install. *)
Lemma gtk_kde_wf data g : gtk_kde data = Ok g -> Gtk_wf g.
Proof.
  unfold gtk_kde. destruct (find_map _ _) as [r|] eqn:Hf; [|done]. cbn [default].
  apply find_map_Some in Hf as (item & _ & Hitem).
  destruct item as [o t d|]; [|done]. case_match; [|done]. injection Hitem as <-.
  destruct d as [|fl [|? key]]; try done. cbn. case_match; [done|]. intros [= <-]. split; cbn.
  - apply andb_false_iff in H0 as [H0|H0]; bool_prop; auto.
  - change 3 with (Z.ones 2). rewrite Z.land_ones by lia. apply Z.mod_pos_bound. lia.
Qed.

Lemma gtk_kde_no_panic data : no_panic (gtk_kde data).
Proof.
  unfold gtk_kde. destruct (find_map _ _) as [r|] eqn:Hf; [|done]. cbn [default].
  apply find_map_Some in Hf as (item & _ & Hitem).
  destruct item as [o t d|]; [|done]. case_match; [|done]. injection Hitem as <-.
  unfold gtk_of_kde. repeat case_match; done.
Qed.

(** The elements that are not the one searched for. *)
Definition not_gtk (e : Z * bytes) : Prop :=
  match item_of (fst e) (snd e) with
  | Kde o t _ => o <> OUI_IEEE \/ t <> KDE_GTK
  | Ie _ _ => True
  end.
Definition not_rsn (e : Z * bytes) : Prop := fst e <> EID_RSN.

Definition elements (els : list (Z * bytes)) : bytes :=
  concat (map (fun e => element (fst e) (snd e)) els).

(** The Key Data a peer lays out -- any elements, among them its RSN
    element and one GTK KDE, with padding behind -- yields exactly that RSN
    element and that group key. *)
Theorem key_data_found els els' rsn g pad :
  Forall (fun e => element_ok (snd e)) (els ++ els') ->
  Forall not_rsn els -> Forall not_gtk (els ++ els') ->
  element_ok rsn -> Gtk_wf g ->
  let data := elements els ++ element EID_RSN rsn ++ elements els'
              ++ kde OUI_IEEE KDE_GTK (gtk_data g) ++ pad in
  rsn_element data = Some (element EID_RSN rsn) /\ gtk_kde data = Ok g.
Proof.
  intros Hok Hnr Hng Hr Hg. cbn zeta.
  apply Forall_app in Hok as [Hok1 Hok2]. apply Forall_app in Hng as [Hng1 Hng2].
  assert (Hk : element_ok ([0x00; 0x0f; 0xac; KDE_GTK] ++ gtk_data g)).
  { destruct Hg as [Hl _]. unfold element_ok, gtk_data. len_lia. }
  assert (Hrsn : item_of EID_RSN rsn = Ie EID_RSN (element EID_RSN rsn)).
  { by destruct rsn as [|? [|? [|? [|? ?]]]]. }
  unfold rsn_element, gtk_kde, elements. cbn [OUI_IEEE kde].
  rewrite key_data_items_elements by done. rewrite key_data_items_element by done.
  rewrite key_data_items_elements by done. rewrite key_data_items_element by done.
  rewrite Hrsn. split.
  - rewrite find_map_app.
    rewrite (proj2 (find_map_None _ (map _ els))); [done|].
    apply Forall_map. eapply Forall_impl; [exact Hnr|]. intros [id p] Hid. unfold not_rsn in Hid. cbn in *.
    apply Z.eqb_neq in Hid.
    destruct p as [|? [|? [|? [|? ?]]]]; cbn [item_of]; try (by rewrite Hid).
    destruct (id =? EID_VENDOR); [done|]. by rewrite Hid.
  - assert (Hskip : forall l, Forall not_gtk l ->
      find_map (fun item => match item with
        | Kde o t data => if bool_decide (o = OUI_IEEE) && (t =? KDE_GTK) then Some (gtk_of_kde data) else None
        | Ie _ _ => None end) (map (fun e => item_of (fst e) (snd e)) l) = None).
    { intros l Hl. apply find_map_None, Forall_map. eapply Forall_impl; [exact Hl|].
      intros [id p]. unfold not_gtk. cbn [fst snd]. destruct (item_of id p) as [o t d|]; [|done].
      intros [Ho|Ht]; [by rewrite bool_decide_false|].
      apply Z.eqb_neq in Ht. by rewrite Ht, andb_false_r. }
    rewrite find_map_app, Hskip by done. cbn [find_map]. rewrite find_map_app, Hskip by done.
    cbn -[gtk_of_kde gtk_data]. by apply gtk_of_kde_data.
Qed.

#[export] Hint Resolve Eapol_parse_no_panic KeyFrame_parse_no_panic gtk_kde_no_panic
  verify_frame_mic_no_panic : caw.

(** ** Witnesses *)

Lemma eapol_roundtrip_witness :
  Eapol_parse ([2; 0; 0; 3; 7; 8; 9] ++ [0; 0])
  = Ok {| eapol_version := 2; eapol_packet_type := PtEap; eapol_body := [7; 8; 9];
          eapol_raw := [2; 0; 0; 3; 7; 8; 9] |}.
Proof. apply (@eapol_roundtrip Error). reflexivity. Defined.

Lemma key_data_found_witness :
  let data := elements [(221, [0; 80; 242; 1])] ++ element EID_RSN [1; 0] ++ elements [(5, [9])]
              ++ kde OUI_IEEE KDE_GTK (gtk_data {| gtk_key := replicate 16 3; gtk_index := 2 |})
              ++ [221; 0] in
  rsn_element data = Some (element EID_RSN [1; 0])
  /\ gtk_kde data = Ok {| gtk_key := replicate 16 3; gtk_index := 2 |}.
Proof.
  apply key_data_found.
  - repeat constructor; cbn; lia.
  - repeat constructor. discriminate.
  - cbn [app]. apply Forall_cons_2; [left; discriminate|]. apply Forall_cons_2; [exact I|constructor].
  - unfold element_ok. cbn. lia.
  - apply (bool_decide_unpack _). vm_compute. exact I.
Defined.
