(* ===== verification/Eap.v ===== *)
(** * EAP framing: the crate [caw-eapol], eap/packet.rs and eap/frag.rs

    The EAP packet (packet.rs), and the fragmentation the TLS-based methods
    share (frag.rs): [Fragment], [Reassembler], [Fragmenter] and the
    request/response lock-step [Exchange] over the two.

    A received packet is at most what a peer sends, and the reassembly buffer
    is bounded by the length the peer declared and by 64 KiB whatever it
    declared; a message cut up by one [Exchange] is put together by another. *)
From S2P Require Import Prelude Bytes Eapol Calls.

Definition EAP_HDR_LEN : nat := 4.

(** [mod eap_type] *)
Module eap_type.
Definition IDENTITY : Z := 1.
Definition NOTIFICATION : Z := 2.
Definition NAK : Z := 3.
Definition TLS : Z := 13.
Definition TTLS : Z := 21.
Definition PEAP : Z := 25.
Definition MSCHAPV2 : Z := 26.
Definition TLV : Z := 33.
End eap_type.

(** ** packet.rs *)

Inductive EapCode := Request | Response | Success | Failure.
#[export] Instance EapCode_eq_dec : EqDecision EapCode.
Proof. solve_decision. Defined.

Definition EapCode_u8 (c : EapCode) : Z :=
  match c with Request => 1 | Response => 2 | Success => 3 | Failure => 4 end.

Definition EapCode_from_u8 (v : Z) : exec Error EapCode :=
  match v with
  | 1 => Ok Request
  | 2 => Ok Response
  | 3 => Ok Success
  | 4 => Ok Failure
  | other => Err (UnsupportedEapCode other)
  end.

Record EapPacket := { eap_code : EapCode; eap_identifier : Z; eap_data : bytes }.

(** [usize::checked_sub] *)
Definition checked_sub (a b : nat) : option nat := if (b <=? a)%nat then Some (a - b)%nat else None.

Definition EapPacket_parse (buf : bytes) : exec Error EapPacket :=
  match buf with
  | code :: identifier :: hi :: lo :: rest =>
      let declared := Z.to_nat (be_decode [hi; lo]) in
      payload_len ← ok_or Malformed (checked_sub declared EAP_HDR_LEN);
      data ← ok_or Malformed (get_range 0 payload_len rest);
      code ← EapCode_from_u8 code;
      Ok {| eap_code := code; eap_identifier := identifier; eap_data := data |}
  | _ => Err Malformed
  end.

(** [EapPacket::eap_type] *)
Definition EapPacket_eap_type (p : EapPacket) : option Z :=
  match eap_code p with
  | Request | Response => head (eap_data p)
  | Success | Failure => None
  end.

Definition EapPacket_type_data (p : EapPacket) : bytes := default [] (get_from 1 (eap_data p)).

Definition EapPacket_encode {E} (code : EapCode) (identifier : Z) (payload : bytes) : exec E bytes :=
  l ← expect_u16 (Z.of_nat EAP_HDR_LEN + len payload);
  Ok ([EapCode_u8 code; identifier] ++ be_encode 2 l ++ payload).

Definition EapPacket_response {E} (identifier ty : Z) (type_data : bytes) : exec E bytes :=
  EapPacket_encode Response identifier (ty :: type_data).

Definition EapPacket_nak {E} (identifier : Z) (desired : bytes) : exec E bytes :=
  if bool_decide (desired = []) then EapPacket_response identifier eap_type.NAK [0]
  else EapPacket_response identifier eap_type.NAK desired.

(** ** frag.rs *)

Definition FLAG_LENGTH_INCLUDED : Z := 0x80.
Definition FLAG_MORE_FRAGMENTS : Z := 0x40.
Definition FLAG_START : Z := 0x20.
Definition VERSION_MASK : Z := 0x07.
Definition MAX_TLS_MESSAGE : Z := 64 * 1024.
Definition DEFAULT_FRAGMENT_SIZE : nat := 1398.

Record Fragment := { frag_flags : Z; frag_declared_len : option Z; frag_data : bytes }.

Definition Fragment_parse (type_data : bytes) : exec Error Fragment :=
  match type_data with
  | flags :: rest =>
      '(declared_len, data) ←
        (if has_flag flags FLAG_LENGTH_INCLUDED
         then l ← ok_or Malformed (get_range 0 4 rest);
              Ok (Some (be_decode l), drop 4 rest)
         else Ok (None, rest));
      Ok {| frag_flags := flags; frag_declared_len := declared_len; frag_data := data |}
  | [] => Err Malformed
  end.

Definition Fragment_more (f : Fragment) : bool := has_flag (frag_flags f) FLAG_MORE_FRAGMENTS.
Definition Fragment_start (f : Fragment) : bool := has_flag (frag_flags f) FLAG_START.
Definition Fragment_version (f : Fragment) : Z := Z.land (frag_flags f) VERSION_MASK.

(** *** [Reassembler] *)

Record Reassembler := { ra_buf : bytes; ra_declared : option Z }.

Definition Reassembler_new : Reassembler := {| ra_buf := []; ra_declared := None |}.

Definition Reassembler_in_progress (r : Reassembler) : bool :=
  is_some (ra_declared r) || negb (bool_decide (ra_buf r = [])).

Definition Reassembler_reset (r : Reassembler) : Reassembler :=
  {| ra_buf := []; ra_declared := None |}.

Definition set_declared (d : option Z) (r : Reassembler) : Reassembler :=
  {| ra_buf := ra_buf r; ra_declared := d |}.
Definition extend_buf (data : bytes) (r : Reassembler) : Reassembler :=
  {| ra_buf := ra_buf r ++ data; ra_declared := ra_declared r |}.

Definition Reassembler_push (f : Fragment) : call Reassembler Error (option bytes) :=
  r ← self;
  _ ← match frag_declared_len f with
      | Some declared =>
          _ ← throw_if (Reassembler_in_progress r) FragmentOutOfOrder;
          _ ← throw_if (MAX_TLS_MESSAGE <? declared) FragmentTooLarge;
          update (set_declared (Some declared))
      | None =>
          throw_if (negb (Reassembler_in_progress r) && Fragment_more f) FragmentOutOfOrder
      end;
  _ ← update (extend_buf (frag_data f));
  r ← self;
  let over :=
    match ra_declared r with
    | Some declared => declared <? len (ra_buf r)
    | None => MAX_TLS_MESSAGE <? len (ra_buf r)
    end in
  if over then _ ← update Reassembler_reset; throw FragmentTooLarge else
  if Fragment_more f then mret None else
  if from_option (fun d => negb (len (ra_buf r) =? d)) false (ra_declared r)
  then _ ← update Reassembler_reset; throw FragmentTooLarge else
  _ ← update (fun _ => {| ra_buf := []; ra_declared := None |});
  mret (Some (ra_buf r)).

(** *** [Fragmenter] *)

Record Fragmenter := { fr_pending : bytes; fr_sent : nat; fr_fragment_size : nat }.

Definition Fragmenter_new (fragment_size : nat) : Fragmenter :=
  {| fr_pending := []; fr_sent := 0; fr_fragment_size := Nat.max fragment_size 1 |}.

Definition Fragmenter_queue (message : bytes) (fr : Fragmenter) : Fragmenter :=
  {| fr_pending := message; fr_sent := 0; fr_fragment_size := fr_fragment_size fr |}.

Definition Fragmenter_is_empty (fr : Fragmenter) : bool := (length (fr_pending fr) <=? fr_sent fr)%nat.

Definition set_sent (n : nat) (fr : Fragmenter) : Fragmenter :=
  {| fr_pending := fr_pending fr; fr_sent := n; fr_fragment_size := fr_fragment_size fr |}.

(** [u32::try_from(n).expect(..)] *)
Definition expect_u32 {E} (n : Z) : exec E Z := if n <? 2 ^ 32 then Ok n else Panic.

Definition Fragmenter_next {E} (base_flags : Z) : call Fragmenter E (option bytes) :=
  fr ← self;
  if Fragmenter_is_empty fr then mret None else
  let first := (fr_sent fr =? 0)%nat in
  let end_ := Nat.min (fr_sent fr + fr_fragment_size fr) (length (fr_pending fr)) in
  chunk ← lift (slice (fr_sent fr) end_ (fr_pending fr));
  let more := (end_ <? length (fr_pending fr))%nat in
  let flags := if more then Z.lor base_flags FLAG_MORE_FRAGMENTS else base_flags in
  let include_len := first && more in
  let flags := if include_len then Z.lor flags FLAG_LENGTH_INCLUDED else flags in
  head ← (if include_len
          then total ← lift (expect_u32 (len (fr_pending fr))); mret (be_encode 4 total)
          else mret []);
  _ ← update (set_sent end_);
  mret (Some (flags :: head ++ chunk)).

(** *** [Exchange] *)

Record Exchange := {
  ex_inbound : Reassembler;
  ex_outbound : Fragmenter;
  ex_base_flags : Z;
  ex_mirror_version : bool;
}.

Inductive Incoming := Restart | Reply (type_data : bytes) | Message (message : bytes).

Definition Exchange_new (fragment_size : nat) (mirror_version : bool) : Exchange :=
  {| ex_inbound := Reassembler_new; ex_outbound := Fragmenter_new fragment_size;
     ex_base_flags := 0; ex_mirror_version := mirror_version |}.

Definition set_inbound (r : Reassembler) (ex : Exchange) : Exchange :=
  {| ex_inbound := r; ex_outbound := ex_outbound ex; ex_base_flags := ex_base_flags ex;
     ex_mirror_version := ex_mirror_version ex |}.
Definition set_outbound (fr : Fragmenter) (ex : Exchange) : Exchange :=
  {| ex_inbound := ex_inbound ex; ex_outbound := fr; ex_base_flags := ex_base_flags ex;
     ex_mirror_version := ex_mirror_version ex |}.
Definition set_base_flags (v : Z) (ex : Exchange) : Exchange :=
  {| ex_inbound := ex_inbound ex; ex_outbound := ex_outbound ex; ex_base_flags := v;
     ex_mirror_version := ex_mirror_version ex |}.

Definition Exchange_empty_reply (ex : Exchange) : bytes := [ex_base_flags ex].

Definition Exchange_on_request (type_data : bytes) : call Exchange Error Incoming :=
  fragment ← lift (Fragment_parse type_data);
  ex ← self;
  _ ← (if ex_mirror_version ex then update (set_base_flags (Fragment_version fragment)) else mret tt);
  if Fragment_start fragment
  then _ ← update (fun ex => set_inbound (Reassembler_reset (ex_inbound ex)) ex); mret Restart
  else
  ex ← self;
  if negb (Fragmenter_is_empty (ex_outbound ex)) then
    _ ← throw_if (negb (bool_decide (frag_data fragment = []))) FragmentOutOfOrder;
    next ← zoom ex_outbound set_outbound (Fragmenter_next (ex_base_flags ex));
    next ← lift (expect next);
    mret (Reply next)
  else
  m ← zoom ex_inbound set_inbound (Reassembler_push fragment);
  ex ← self;
  match m with
  | None => mret (Reply (Exchange_empty_reply ex))
  | Some message => mret (Message message)
  end.

Definition Exchange_send {E} (message : bytes) : call Exchange E (option bytes) :=
  if bool_decide (message = []) then mret None else
  _ ← update (fun ex => set_outbound (Fragmenter_queue message (ex_outbound ex)) ex);
  ex ← self;
  zoom ex_outbound set_outbound (Fragmenter_next (ex_base_flags ex)).

(** ** EAP packets *)

Lemma EapCode_roundtrip c : EapCode_from_u8 (EapCode_u8 c) = Ok c.
Proof. by destruct c. Qed.

Lemma EapCode_from_u8_inv v c : EapCode_from_u8 v = Ok c -> v = EapCode_u8 c.
Proof. unfold EapCode_from_u8. repeat case_match; intros; simplify_eq; done. Qed.

Lemma EapCode_from_u8_no_panic v : no_panic (EapCode_from_u8 v).
Proof. unfold EapCode_from_u8. by repeat case_match. Qed.

Lemma EapPacket_parse_no_panic buf : no_panic (EapPacket_parse buf).
Proof.
  unfold EapPacket_parse. do 4 (destruct buf as [|? buf]; [done|]).
  repeat (apply no_panic_bind; [auto using EapCode_from_u8_no_panic with caw|]; intros). done.
Qed.

Lemma EapPacket_encode_eq {E} code id payload w :
  @EapPacket_encode E code id payload = Ok w <->
  Z.of_nat EAP_HDR_LEN + len payload < 2 ^ 16
  /\ w = [EapCode_u8 code; id] ++ be_encode 2 (Z.of_nat EAP_HDR_LEN + len payload) ++ payload.
Proof.
  unfold EapPacket_encode. rewrite bind_ok. setoid_rewrite expect_u16_ok.
  split; [intros (l & [-> ?] & Hw); naive_solver|intros [? ->]; eauto].
Qed.

(** A header whose Length is [n] and that many octets behind it. *)
Lemma EapPacket_parse_layout code id n data pad :
  n = Z.of_nat EAP_HDR_LEN + len data -> is_u16 n ->
  EapPacket_parse (([EapCode_u8 code; id] ++ be_encode 2 n ++ data) ++ pad)
  = Ok {| eap_code := code; eap_identifier := id; eap_data := data |}.
Proof.
  intros Hn Hu. pose proof (be16_roundtrip n Hu) as Hb.
  destruct (be_encode 2 n) as [|hi [|lo [|]]] eqn:He;
    pose proof (length_be_encode 2 n) as Hl; rewrite He in Hl; try discriminate Hl.
  cbn [app EapPacket_parse]. rewrite Hb. unfold checked_sub, EAP_HDR_LEN, len in *.
  rewrite (proj2 (Nat.leb_le _ _)) by lia. cbn [ok_or mbind exec_bind].
  rewrite get_range_prefix by lia. cbn [ok_or mbind exec_bind].
  by rewrite EapCode_roundtrip.
Qed.

(** ** Fragments *)

(** What a base flags octet is: three version bits, and no flag. *)
Definition version_bits (b : Z) : Prop := 0 <= b <= 7.

Lemma version_in_range x : version_bits (Z.land x VERSION_MASK).
Proof.
  unfold VERSION_MASK. change 7 with (Z.ones 3). rewrite Z.land_ones by lia.
  pose proof (Z.mod_pos_bound x (2 ^ 3) ltac:(lia)). unfold version_bits. lia.
Qed.

(** The flags octet of an outgoing fragment. *)
Definition out_flags (base : Z) (include_len more : bool) : Z :=
  let flags := if more then Z.lor base FLAG_MORE_FRAGMENTS else base in
  if include_len then Z.lor flags FLAG_LENGTH_INCLUDED else flags.

Lemma out_flags_read base i m :
  version_bits base ->
  has_flag (out_flags base i m) FLAG_LENGTH_INCLUDED = i
  /\ has_flag (out_flags base i m) FLAG_MORE_FRAGMENTS = m
  /\ has_flag (out_flags base i m) FLAG_START = false
  /\ Z.land (out_flags base i m) VERSION_MASK = base.
Proof.
  intros H. unfold version_bits in H.
  assert (base = 0 \/ base = 1 \/ base = 2 \/ base = 3 \/ base = 4 \/ base = 5 \/ base = 6 \/ base = 7)
    as Hb by lia.
  repeat destruct Hb as [->|Hb]; [..|subst base]; destruct i, m; done.
Qed.

(** The wire form of a fragment, as [Fragmenter::next] lays it out. *)
Definition fragment_wire (base : Z) (total : option Z) (more : bool) (chunk : bytes) : bytes :=
  out_flags base (is_some total) more :: from_option (be_encode 4) [] total ++ chunk.

Lemma fragment_wire_parse base total more chunk :
  version_bits base -> from_option is_u32 True total ->
  Fragment_parse (fragment_wire base total more chunk)
  = Ok {| frag_flags := out_flags base (is_some total) more; frag_declared_len := total;
          frag_data := chunk |}.
Proof.
  intros Hb Ht. unfold fragment_wire, Fragment_parse.
  destruct (out_flags_read base (is_some total) more Hb) as (-> & _).
  destruct total as [t|]; cbn [is_some from_option]; [|done].
  rewrite get_range_prefix by by rewrite length_be_encode. cbn [ok_or mbind exec_bind].
  rewrite be32_roundtrip by done. by rewrite drop_app_length' by by rewrite length_be_encode.
Qed.

Lemma Fragmenter_next_some {E} base fr :
  (fr_sent fr < length (fr_pending fr))%nat -> len (fr_pending fr) < 2 ^ 32 ->
  let e := Nat.min (fr_sent fr + fr_fragment_size fr) (length (fr_pending fr)) in
  let more := (e <? length (fr_pending fr))%nat in
  @Fragmenter_next E base fr
  = (set_sent e fr,
     Ok (Some (fragment_wire base
                 (if (fr_sent fr =? 0)%nat && more then Some (len (fr_pending fr)) else None) more
                 (take (e - fr_sent fr) (drop (fr_sent fr) (fr_pending fr)))))).
Proof.
  intros Hs Hl e more. unfold Fragmenter_next, fragment_wire.
  assert (Fragmenter_is_empty fr = false) as He by (apply Nat.leb_gt; done).
  unfold mbind, call_bind, self. rewrite He. unfold lift at 1. fold e.
  erewrite slice_field by (apply get_range_Some; split; [subst e; lia|reflexivity]).
  fold more. destruct (fr_sent fr =? 0)%nat, more; cbn [andb is_some from_option]; try done.
  unfold lift, expect_u32. by rewrite (proj2 (Z.ltb_lt _ _)) by done.
Qed.

(** ** The reassembly buffer *)

(** Outside a message the buffer is empty; inside one it holds no more than was
    declared, and nothing above the ceiling was ever declared. *)
Definition Reassembler_ok (r : Reassembler) : Prop :=
  match ra_declared r with
  | None => ra_buf r = []
  | Some d => len (ra_buf r) <= d <= MAX_TLS_MESSAGE
  end.

Lemma Reassembler_new_ok : Reassembler_ok Reassembler_new.
Proof. done. Qed.

Lemma in_progress_declared r :
  Reassembler_ok r -> Reassembler_in_progress r = is_some (ra_declared r).
Proof.
  unfold Reassembler_ok, Reassembler_in_progress. destruct (ra_declared r); [done|].
  intros ->. done.
Qed.

(** One fragment, whatever it is: the buffer stays inside its bound, and what
    comes out is what went in. *)
Lemma Reassembler_push_spec f r :
  Reassembler_ok r ->
  after (Reassembler_push f) r (fun r' o =>
    Reassembler_ok r' /\
    match o with
    | Ok None =>
        ra_buf r' = ra_buf r ++ frag_data f /\ Fragment_more f = true
        /\ ra_declared r' = (if Reassembler_in_progress r then ra_declared r else frag_declared_len f)
        /\ is_some (ra_declared r') = true
        /\ (Reassembler_in_progress r = true -> frag_declared_len f = None)
    | Ok (Some m) =>
        m = ra_buf r ++ frag_data f /\ Fragment_more f = false /\ r' = Reassembler_new
        /\ len m <= MAX_TLS_MESSAGE
        /\ (if Reassembler_in_progress r
            then frag_declared_len f = None /\ ra_declared r = Some (len m)
            else from_option (fun d => d = len m) True (frag_declared_len f))
    | Err _ => True
    | Panic => False
    end).
Proof.
  intros Hr. pose proof (in_progress_declared r Hr) as Hp. rewrite Hp.
  unfold Reassembler_ok in Hr. unfold Reassembler_push. apply after_self.
  rewrite Hp. destruct r as [buf decl]. cbn [ra_buf ra_declared] in *.
  unfold after, mbind, call_bind, throw_if, throw, update, self, mret, call_ret.
  destruct (frag_declared_len f) as [d|]; destruct decl as [d0|]; cbn [is_some negb andb];
    try (destruct (Z.ltb_spec MAX_TLS_MESSAGE d); cbn).
  all: destruct (Fragment_more f) eqn:Hm; cbn.
  all: repeat case_match; cbn in *; bool_prop; simplify_eq.
  all: unfold Reassembler_ok; cbn; split_and!; try done; lia.
Qed.

(** A run of fragments, each answered with an acknowledgement. *)
Fixpoint feed (fs : list Fragment) (r : Reassembler) : option Reassembler :=
  match fs with
  | [] => Some r
  | f :: fs =>
      match Reassembler_push f r with
      | (r', Ok None) => feed fs r'
      | _ => None
      end
  end.

Lemma feed_in_progress fs r r' d :
  Reassembler_ok r -> ra_declared r = Some d -> feed fs r = Some r' ->
  Reassembler_ok r' /\ ra_buf r' = ra_buf r ++ concat (map frag_data fs)
  /\ ra_declared r' = Some d /\ Forall (fun f => frag_declared_len f = None) fs.
Proof.
  revert r. induction fs as [|f fs IH]; intros r Hok Hd; cbn [feed map concat].
  - intros [= <-]. rewrite app_nil_r. by split_and!.
  - destruct (Reassembler_push f r) as [r1 o] eqn:Hp.
    destruct (after_eq _ _ _ _ _ (Reassembler_push_spec f r Hok) Hp) as [Hok1 Ho].
    destruct o as [[m|]| |]; try done. destruct Ho as (Hb & _ & Hd1 & _ & Hn).
    rewrite in_progress_declared, Hd in Hd1, Hn by done. cbn in Hd1, Hn.
    intros Hf. destruct (IH r1 Hok1 Hd1 Hf) as (? & Hb' & ? & ?).
    rewrite Hb', Hb, <- app_assoc. split_and!; auto.
Qed.

(** ** The lock-step of two exchanges *)

(** One side has sent [wire]; the other answers, and so on until a message is
    complete.  [fuel] bounds the number of fragments. *)
Fixpoint lockstep (fuel : nat) (tx rx : Exchange) (wire : bytes) : option (Exchange * Exchange * bytes) :=
  match fuel with
  | O => None
  | S fuel =>
      match Exchange_on_request wire rx with
      | (rx, Ok (Message m)) => Some (tx, rx, m)
      | (rx, Ok (Reply ack)) =>
          match Exchange_on_request ack tx with
          | (tx, Ok (Reply next)) => lockstep fuel tx rx next
          | _ => None
          end
      | _ => None
      end
  end.

(** Ready for either direction: nothing half received, nothing half sent. *)
Definition Exchange_idle (ex : Exchange) : Prop :=
  ex_inbound ex = Reassembler_new /\ Fragmenter_is_empty (ex_outbound ex) = true
  /\ (1 <= fr_fragment_size (ex_outbound ex))%nat /\ version_bits (ex_base_flags ex).

Lemma Exchange_new_idle n mirror : Exchange_idle (Exchange_new n mirror).
Proof. unfold Exchange_idle, version_bits. cbn. split_and!; try done; lia. Qed.

(** The base flags after a packet with version bits [v]. *)
Definition mirrored (v : Z) (ex : Exchange) : Exchange :=
  if ex_mirror_version ex then set_base_flags v ex else ex.

Lemma mirrored_bits v ex :
  version_bits v -> version_bits (ex_base_flags ex) -> version_bits (ex_base_flags (mirrored v ex)).
Proof. unfold mirrored. by case_match. Qed.

Lemma mirrored_same v ex :
  ex_inbound (mirrored v ex) = ex_inbound ex /\ ex_outbound (mirrored v ex) = ex_outbound ex
  /\ ex_mirror_version (mirrored v ex) = ex_mirror_version ex.
Proof. unfold mirrored. by case_match. Qed.

(** A fragment arriving at a side with nothing of its own to send. *)
Lemma on_request_fragment base total more chunk ex :
  version_bits base -> from_option is_u32 True total ->
  Fragmenter_is_empty (ex_outbound ex) = true ->
  let ex1 := mirrored base ex in
  let f := {| frag_flags := out_flags base (is_some total) more; frag_declared_len := total;
              frag_data := chunk |} in
  Exchange_on_request (fragment_wire base total more chunk) ex
  = match Reassembler_push f (ex_inbound ex) with
    | (r, Ok None) => (set_inbound r ex1, Ok (Reply [ex_base_flags ex1]))
    | (r, Ok (Some m)) => (set_inbound r ex1, Ok (Message m))
    | (r, Err e) => (set_inbound r ex1, Err e)
    | (r, Panic) => (set_inbound r ex1, Panic)
    end.
Proof.
  intros Hb Ht He ex1 f. unfold Exchange_on_request.
  unfold mbind at 1, call_bind at 1, lift at 1. rewrite fragment_wire_parse by done. fold f.
  destruct (out_flags_read base (is_some total) more Hb) as (_ & _ & Hs & Hv).
  unfold Fragment_start, Fragment_version. cbn [frag_flags f]. rewrite Hs, Hv.
  unfold ex1, mirrored, zoom, mbind, call_bind, self, update, mret, call_ret.
  destruct (ex_mirror_version ex); cbn; rewrite He; cbn.
  all: destruct (Reassembler_push _ _) as [r [[m|]| |]]; done.
Qed.

(** The acknowledgement arriving at a side that is mid-message. *)
Lemma on_request_ack v ex :
  version_bits v -> Fragmenter_is_empty (ex_outbound ex) = false ->
  let ex1 := mirrored v ex in
  Exchange_on_request [v] ex
  = (n ← zoom ex_outbound set_outbound (Fragmenter_next (ex_base_flags ex1));
     n ← lift (expect n); mret (Reply n)) ex1.
Proof.
  intros Hv He ex1. unfold Exchange_on_request.
  unfold mbind at 1, call_bind at 1, lift at 1.
  destruct (out_flags_read v false false Hv) as (Hl & _ & Hs & Hm). cbn in Hl, Hs, Hm.
  unfold Fragment_parse. rewrite Hl. cbn [mbind exec_bind].
  unfold Fragment_start, Fragment_version. cbn [frag_flags frag_data]. rewrite Hs, Hm.
  unfold ex1, mirrored, mbind, call_bind, self, update, mret, call_ret.
  destruct (ex_mirror_version ex); cbn; rewrite He; cbn; done.
Qed.

(** *** Fragments in order

    [received m n] is the reassembler that holds the first [n] octets of [m]. *)
Definition received (m : bytes) (n : nat) : Reassembler :=
  if (n =? 0)%nat then Reassembler_new else {| ra_buf := take n m; ra_declared := Some (len m) |}.

(** The fragment with the octets of [m] from [n] up to [e]. *)
Definition piece (base : Z) (m : bytes) (n e : nat) : Fragment :=
  let more := (e <? length m)%nat in
  let total := if (n =? 0)%nat && more then Some (len m) else None in
  {| frag_flags := out_flags base (is_some total) more; frag_declared_len := total;
     frag_data := take (e - n) (drop n m) |}.

Lemma push_piece base m n e :
  version_bits base -> (n < e <= length m)%nat -> len m <= MAX_TLS_MESSAGE ->
  Reassembler_push (piece base m n e) (received m n)
  = if (e <? length m)%nat then (received m e, Ok None) else (Reassembler_new, Ok (Some m)).
Proof.
  intros Hb Hne Hm. unfold Reassembler_push, piece.
  set (total := if _ && _ then _ else _).
  destruct (out_flags_read base (is_some total) (e <? length m)%nat Hb) as (_ & Hmore & _ & _).
  assert (take n m ++ take (e - n) (drop n m) = take e m) as Hcat.
  { rewrite <- (take_drop n (take e m)), take_take, Nat.min_l by lia.
    by rewrite skipn_firstn_comm. }
  assert (len (take e m) = Z.of_nat e) as Hlen
    by (unfold len; rewrite length_take; lia).
  assert (received m e = {| ra_buf := take e m; ra_declared := Some (len m) |}) as ->
    by (unfold received; by rewrite (proj2 (Nat.eqb_neq e 0)) by lia).
  unfold len in Hm.
  unfold received, Fragment_more, mbind, call_bind, self, update, throw_if, throw, mret, call_ret.
  cbn [frag_flags frag_declared_len frag_data]. rewrite Hmore. subst total.
  destruct (e <? length m)%nat eqn:He; bool_prop; destruct (Nat.eqb_spec n 0) as [->|Hn];
    cbn; rewrite ?drop_0, ?Nat.sub_0_r; unfold Reassembler_in_progress; cbn.
  - rewrite (proj2 (Z.ltb_ge _ _)) by (unfold len; lia). cbn. rewrite Hlen.
    by rewrite (proj2 (Z.ltb_ge _ _)) by (unfold len; lia).
  - rewrite Hcat, Hlen. rewrite (proj2 (Z.ltb_ge _ _)) by (unfold len; lia).
    unfold extend_buf. cbn. by rewrite Hcat.
  - rewrite take_ge by lia. by rewrite (proj2 (Z.ltb_ge _ _)) by (unfold len; lia).
  - rewrite Hcat, Hlen. rewrite (proj2 (Z.ltb_ge _ _)) by (unfold len; lia).
    unfold len. rewrite (proj2 (Z.eqb_eq _ _)) by lia. cbn. by rewrite take_ge by lia.
Qed.

(** What a side in mid-message has sent, and where its fragmenter stands. *)
Definition piece_wire (base : Z) (m : bytes) (n e : nat) : bytes :=
  let more := (e <? length m)%nat in
  fragment_wire base (if (n =? 0)%nat && more then Some (len m) else None) more
    (take (e - n) (drop n m)).

Definition sender (m : bytes) (n size : nat) : Fragmenter :=
  {| fr_pending := m; fr_sent := n; fr_fragment_size := size |}.

Lemma sender_next {E} base m n size :
  (n < length m)%nat -> len m <= MAX_TLS_MESSAGE ->
  let e := Nat.min (n + size) (length m) in
  @Fragmenter_next E base (sender m n size) = (sender m e size, Ok (Some (piece_wire base m n e))).
Proof.
  intros Hn Hm e. rewrite Fragmenter_next_some; [done|done|].
  unfold sender, MAX_TLS_MESSAGE in *. cbn. lia.
Qed.

(** From any point of a transfer, the rest of the message arrives. *)
Lemma lockstep_from fuel base m size n e tx rx :
  version_bits base -> version_bits (ex_base_flags rx) -> version_bits (ex_base_flags tx) ->
  (1 <= size)%nat -> (n < e <= length m)%nat -> len m <= MAX_TLS_MESSAGE ->
  (length m - e < fuel)%nat ->
  ex_outbound tx = sender m e size ->
  ex_inbound rx = received m n -> Fragmenter_is_empty (ex_outbound rx) = true ->
  exists tx' rx', lockstep fuel tx rx (piece_wire base m n e) = Some (tx', rx', m)
    /\ ex_inbound tx' = ex_inbound tx /\ ex_outbound tx' = sender m (length m) size
    /\ version_bits (ex_base_flags tx')
    /\ ex_inbound rx' = Reassembler_new /\ ex_outbound rx' = ex_outbound rx
    /\ version_bits (ex_base_flags rx').
Proof.
  revert base n e tx rx. induction fuel as [|fuel IH]; intros base n e tx rx; [lia|].
  intros Hb Hbr Hbt Hs Hne Hm Hf Hout Hin Hempty. cbn [lockstep].
  unfold piece_wire. rewrite on_request_fragment; try done; cycle 1.
  { case_match; [|done]. unfold is_uint, len, MAX_TLS_MESSAGE in *. cbn. lia. }
  change {| frag_flags := _ |} with (piece base m n e). rewrite Hin, push_piece by done.
  destruct (mirrored_same base rx) as (_ & Houtr & _).
  destruct (Nat.ltb_spec e (length m)) as [He|He].
  - pose proof (mirrored_bits base rx Hb Hbr) as Hv.
    rewrite on_request_ack; [|done|rewrite Hout; by apply Nat.leb_gt].
    set (v := ex_base_flags (mirrored base rx)) in *.
    destruct (mirrored_same v tx) as (Hint & Hot & _).
    unfold mbind, call_bind, zoom, lift, mret, call_ret. rewrite Hot, Hout, sender_next by done.
    cbn [expect]. set (e2 := Nat.min (e + size) (length m)).
    edestruct (IH (ex_base_flags (mirrored v tx)) e e2) as (tx' & rx' & Hl & Ht1 & Ht2 & Ht3 & Hr1 & Hr2 & Hr3);
      [..|exists tx', rx'; split; [exact Hl|]]; try done; try (subst e2; lia).
    + by apply mirrored_bits.
    + by apply mirrored_bits.
    + cbn. by rewrite Houtr.
    + cbn in Ht1, Hr2. rewrite Hint in Ht1. rewrite Houtr in Hr2. by split_and!.
  - assert (e = length m) as -> by lia. exists tx, (set_inbound Reassembler_new (mirrored base rx)).
    cbn. split_and!; try done. by apply mirrored_bits.
Qed.

(** ** Properties *)

(** An EAP packet reads back as its code, identifier and payload, and link
    padding behind it is dropped, for every payload that fits the 16-bit
    length. *)
Theorem eap_roundtrip code identifier payload pad w :
  @EapPacket_encode Error code identifier payload = Ok w ->
  EapPacket_parse (w ++ pad)
  = Ok {| eap_code := code; eap_identifier := identifier; eap_data := payload |}.
Proof.
  intros [Hl ->]%EapPacket_encode_eq. apply EapPacket_parse_layout; [done|].
  unfold is_uint, EAP_HDR_LEN, len in *. lia.
Qed.

Lemma eap_roundtrip_witness :
  EapPacket_parse ([1; 0x42; 0; 7; 1; 104; 105] ++ [0; 0])
  = Ok {| eap_code := Request; eap_identifier := 0x42; eap_data := [1; 104; 105] |}.
Proof. apply (eap_roundtrip Request 0x42 [1; 104; 105] [0; 0]). reflexivity. Defined.

(** C28. Whatever fragments a peer sends, errors included, the reassembler never
    panics, never holds more than the first fragment declared, and never more
    than 64 KiB. *)
Theorem reassembly_bounded fs f :
  let r := foldl (fun r f => fst (Reassembler_push f r)) Reassembler_new fs in
  no_panic (snd (Reassembler_push f r))
  /\ len (ra_buf r) <= default 0 (ra_declared r) <= MAX_TLS_MESSAGE.
Proof.
  set (r := foldl _ _ _).
  assert (Reassembler_ok r) as Hok.
  { subst r. generalize Reassembler_new_ok. generalize Reassembler_new.
    induction fs as [|g fs IH]; intros r Hr; [done|]. apply IH.
    apply (Reassembler_push_spec g r Hr). }
  split.
  - destruct (Reassembler_push_spec f r Hok) as [_ H]. by destruct (snd _).
  - unfold Reassembler_ok in Hok. destruct (ra_declared r); [done|]. rewrite Hok. done.
Qed.

(** What is handed to the TLS stack is what was sent: a completed message is
    the concatenation of its fragments, in order; if there was more than one
    the first declared exactly its length and none of the others declared
    anything, so two messages cannot be spliced together. *)
Theorem reassembled_exactly f fs r r' m :
  feed (f :: fs) Reassembler_new = Some r ->
  forall g, Reassembler_push g r = (r', Ok (Some m)) ->
  m = concat (map frag_data (f :: fs ++ [g]))
  /\ frag_declared_len f = Some (len m)
  /\ Forall (fun h => frag_declared_len h = None) (fs ++ [g])
  /\ r' = Reassembler_new.
Proof.
  cbn [feed]. intros Hfeed g Hg. pose proof Reassembler_new_ok as Hnew.
  destruct (Reassembler_push f Reassembler_new) as [r1 o] eqn:Hp.
  destruct (after_eq _ _ _ _ _ (Reassembler_push_spec f _ Hnew) Hp) as [Hok1 Ho].
  destruct o as [[?|]| |]; try done. destruct Ho as (Hb1 & _ & Hd1 & Hs1 & _). cbn in Hb1, Hd1.
  destruct (ra_declared r1) as [d|] eqn:Hd; [|done].
  destruct (feed_in_progress fs r1 r d Hok1 Hd Hfeed) as (Hok & Hb & Hdr & Hall).
  destruct (after_eq _ _ _ _ _ (Reassembler_push_spec g r Hok) Hg) as [_ (-> & _ & -> & _ & Hl)].
  rewrite in_progress_declared, Hdr in Hl by done. destruct Hl as [Hng [= ->]].
  split_and!; [|done| |done].
  - cbn [map concat]. rewrite map_app, concat_app. cbn. by rewrite Hb, Hb1, app_nil_r, <- app_assoc.
  - apply Forall_app. split; [done|by constructor].
Qed.

Lemma reassembled_exactly_witness :
  let f1 := {| frag_flags := 0xC0; frag_declared_len := Some 5; frag_data := [1; 2; 3] |} in
  let f2 := {| frag_flags := 0; frag_declared_len := None; frag_data := [4; 5] |} in
  [1; 2; 3; 4; 5] = concat (map frag_data [f1; f2]) /\ frag_declared_len f1 = Some 5.
Proof.
  intros f1 f2.
  destruct (reassembled_exactly f1 [] _ _ [1; 2; 3; 4; 5] eq_refl f2 eq_refl) as (H & Hd & _).
  split; [exact H|exact Hd].
Defined.

(** C27. A message of up to 64 KiB handed to one side of an EAP-TLS conversation
    arrives whole at the other, whatever the two fragment sizes and whether or
    not versions are mirrored: [length m] rounds of fragment and
    acknowledgement are enough, and both sides end ready for the answer. *)
Theorem message_arrives_whole m tx rx :
  m <> [] -> len m <= MAX_TLS_MESSAGE -> Exchange_idle tx -> Exchange_idle rx ->
  exists tx1 wire tx' rx',
    @Exchange_send Error m tx = (tx1, Ok (Some wire))
    /\ lockstep (length m) tx1 rx wire = Some (tx', rx', m)
    /\ Exchange_idle tx' /\ Exchange_idle rx'.
Proof.
  intros Hne Hm (Ht1 & _ & Hts & Htv) (Hr1 & Hr2 & Hrs & Hrv).
  assert (0 < length m)%nat as Hpos by (destruct m; [done|cbn; lia]).
  set (size := fr_fragment_size (ex_outbound tx)) in *.
  set (e := Nat.min (0 + size) (length m)).
  set (tx1 := set_outbound (sender m e size) (set_outbound (sender m 0 size) tx)).
  edestruct (lockstep_from (length m) (ex_base_flags tx) m size 0 e tx1 rx)
    as (tx' & rx' & Hl & Hti & Hto & Htv' & Hri & Hro & Hrv'); try done; try (subst e; lia).
  exists tx1, (piece_wire (ex_base_flags tx) m 0 e), tx', rx'. split_and!.
  - unfold Exchange_send. rewrite bool_decide_false by done.
    unfold mbind, call_bind, update, self, zoom, Fragmenter_queue. cbn. fold size.
    change {| fr_pending := m; fr_sent := 0; fr_fragment_size := size |} with (sender m 0 size).
    by rewrite sender_next.
  - done.
  - unfold Exchange_idle. rewrite Hti, Hto. split_and!; try done. by apply Nat.leb_le.
  - unfold Exchange_idle. rewrite Hri, Hro. by split_and!.
Qed.

Lemma message_arrives_whole_witness :
  exists tx1 wire tx' rx',
    @Exchange_send Error [22; 3; 3; 0; 1] (Exchange_new 2 false) = (tx1, Ok (Some wire))
    /\ lockstep 5 tx1 (Exchange_new 1398 true) wire = Some (tx', rx', [22; 3; 3; 0; 1])
    /\ Exchange_idle tx' /\ Exchange_idle rx'.
Proof.
  apply (message_arrives_whole [22; 3; 3; 0; 1] (Exchange_new 2 false) (Exchange_new 1398 true));
    [done|done|apply Exchange_new_idle|apply Exchange_new_idle].
Defined.
