(* ===== verification/FourWay.v ===== *)
(** * The 4-way handshake: [FourWay] of the crate [caw-eapol] (lib.rs)

    The machine is sans-I/O: [poll] consumes one frame or one timeout and
    returns the actions.  Its handlers change the state only on their success
    path, so each is a function to [exec Error (FourWay * list Action)], and
    [poll] turns an error into the absorbing state [Failed]. *)
From S2P Require Import Prelude Bytes Dot11 Crypto Eapol.

(** ** Data *)

Record Config := {
  cfg_akm : Akm;
  cfg_own_mac : bytes;
  cfg_bssid : bytes;
  cfg_assoc_rsn_ie : bytes;
  cfg_beacon_rsn_ie : bytes;
}.

Record Keys := { keys_ptk : Ptk; keys_gtk : Gtk }.
#[export] Instance Keys_eq_dec : EqDecision Keys.
Proof. solve_decision. Defined.

Inductive Input := Frame (b : bytes) | Timeout.

Inductive Action :=
| Send (frame : bytes)
| ArmTimer (ms : Z)
| DisarmTimer
| Complete (keys : Keys)
| NewGtk (gtk : Gtk).
#[export] Instance Action_eq_dec : EqDecision Action.
Proof. solve_decision. Defined.

Inductive State := Idle | AwaitingMsg3 | Established | Failed.
#[export] Instance State_eq_dec : EqDecision State.
Proof. solve_decision. Defined.

Record FourWay := {
  fw_pmk : Pmk;
  fw_config : Config;
  fw_snonce : bytes;
  fw_anonce : bytes;
  fw_ptk : option Ptk;
  fw_descriptor_version : KeyDescriptorVersion;
  fw_protocol_version : Z;
  fw_rx_counter : option Z;
  fw_state : State;
  fw_last_sent : option bytes;
  fw_retries : Z;
}.

Definition RETRY_INTERVAL_MS : Z := 1000.
Definition RETRY_LIMIT : Z := 3.

Definition with_snonce (pmk : Pmk) (config : Config) (snonce : bytes) : FourWay :=
  {| fw_pmk := pmk; fw_config := config; fw_snonce := snonce; fw_anonce := replicate 32 0;
     fw_ptk := None; fw_descriptor_version := HmacSha1; fw_protocol_version := 2;
     fw_rx_counter := None; fw_state := Idle; fw_last_sent := None; fw_retries := 0 |}.

(** [FourWay::new]: the entropy source may fail. *)
Definition new (pmk : Pmk) (config : Config) (random_nonce : exec Eapol.Error bytes)
  : exec Eapol.Error FourWay :=
  snonce ← random_nonce; Ok (with_snonce pmk config snonce).

Definition set_state (s : State) (fw : FourWay) : FourWay :=
  {| fw_pmk := fw_pmk fw; fw_config := fw_config fw; fw_snonce := fw_snonce fw;
     fw_anonce := fw_anonce fw; fw_ptk := fw_ptk fw;
     fw_descriptor_version := fw_descriptor_version fw;
     fw_protocol_version := fw_protocol_version fw; fw_rx_counter := fw_rx_counter fw;
     fw_state := s; fw_last_sent := fw_last_sent fw; fw_retries := fw_retries fw |}.

(** A frame of ours with no nonce and no data: messages 4 and group 2. *)
Definition reply (info counter : Z) (nonce data : bytes) : KeyFrame :=
  {| descriptor_type := DESCRIPTOR_TYPE_RSN; key_info := info; key_length := 0;
     replay_counter := counter; key_nonce := nonce; key_iv := replicate 16 0;
     key_rsc := replicate 8 0; key_mic := replicate 16 0; key_data := data |}.

Section handlers.
Context `{CryptoPrims}.

Definition on_timeout (fw : FourWay) : exec Eapol.Error (FourWay * list Action) :=
  match fw_last_sent fw with
  | None => Ok (fw, [])
  | Some frame =>
      if RETRY_LIMIT <=? fw_retries fw then Err ErrTimeout
      else
        Ok ({| fw_pmk := fw_pmk fw; fw_config := fw_config fw; fw_snonce := fw_snonce fw;
               fw_anonce := fw_anonce fw; fw_ptk := fw_ptk fw;
               fw_descriptor_version := fw_descriptor_version fw;
               fw_protocol_version := fw_protocol_version fw;
               fw_rx_counter := fw_rx_counter fw; fw_state := fw_state fw;
               fw_last_sent := fw_last_sent fw; fw_retries := wrap 8 (fw_retries fw + 1) |},
            [Send frame; ArmTimer RETRY_INTERVAL_MS])
  end.

Definition on_msg1 (fw : FourWay) (e : Eapol) (msg1 : KeyFrame)
  : exec Eapol.Error (FourWay * list Action) :=
  let c := fw_config fw in
  version ← ki_version (key_info msg1) (cfg_akm c);
  ptk ← map_err ErrCrypto
          (derive_ptk (fw_pmk fw) (cfg_akm c) (cfg_bssid c) (cfg_own_mac c)
             (key_nonce msg1) (fw_snonce fw));
  msg2 ← KeyFrame_encode_signed
           (reply (Z.lor (Z.lor (version_bits version) KI_PAIRWISE) KI_MIC)
              (replay_counter msg1) (fw_snonce fw) (cfg_assoc_rsn_ie c))
           (eapol_version e) (kck ptk) version;
  Ok ({| fw_pmk := fw_pmk fw; fw_config := c; fw_snonce := fw_snonce fw;
         fw_anonce := key_nonce msg1; fw_ptk := Some ptk; fw_descriptor_version := version;
         fw_protocol_version := eapol_version e;
         fw_rx_counter := Some (replay_counter msg1); fw_state := AwaitingMsg3;
         fw_last_sent := Some msg2; fw_retries := 0 |},
      [Send msg2; ArmTimer RETRY_INTERVAL_MS]).

Definition on_msg3 (fw : FourWay) (e : Eapol) (msg3 : KeyFrame) (install : bool)
  : exec Eapol.Error (FourWay * list Action) :=
  let c := fw_config fw in
  let v := fw_descriptor_version fw in
  ptk ← ok_or UnexpectedMessage (fw_ptk fw);
  _ ← verify_frame_mic (eapol_raw e) (kck ptk) v (key_mic msg3);
  _ ← ensure (bool_decide (key_nonce msg3 = fw_anonce fw)) NonceMismatch;
  _ ← ensure (ki_encrypted (key_info msg3)) Malformed;
  data ← map_err ErrCrypto (unwrap_key_data (kek ptk) (key_data msg3));
  advertised ← ok_or RsnMissing (rsn_element data);
  _ ← ensure (bool_decide (advertised = cfg_beacon_rsn_ie c)) RsnMismatch;
  gtk ← gtk_kde data;
  msg4 ← KeyFrame_encode_signed
           (reply (Z.lor (Z.lor (Z.lor (version_bits v) KI_PAIRWISE) KI_MIC) KI_SECURE)
              (replay_counter msg3) (replicate 32 0) [])
           (fw_protocol_version fw) (kck ptk) v;
  let actions := [Send msg4; DisarmTimer] in
  let fw' := {| fw_pmk := fw_pmk fw; fw_config := c; fw_snonce := fw_snonce fw;
                fw_anonce := fw_anonce fw; fw_ptk := fw_ptk fw; fw_descriptor_version := v;
                fw_protocol_version := fw_protocol_version fw;
                fw_rx_counter := Some (replay_counter msg3); fw_state := Established;
                fw_last_sent := None; fw_retries := 0 |} in
  if install
  then ptk ← expect (fw_ptk fw');
       Ok (fw', actions ++ [Complete {| keys_ptk := ptk; keys_gtk := gtk |}])
  else Ok (fw', actions).

Definition on_group_msg1 (fw : FourWay) (e : Eapol) (msg1 : KeyFrame)
  : exec Eapol.Error (FourWay * list Action) :=
  let v := fw_descriptor_version fw in
  ptk ← ok_or UnexpectedMessage (fw_ptk fw);
  _ ← verify_frame_mic (eapol_raw e) (kck ptk) v (key_mic msg1);
  _ ← ensure (ki_encrypted (key_info msg1)) Malformed;
  data ← map_err ErrCrypto (unwrap_key_data (kek ptk) (key_data msg1));
  gtk ← gtk_kde data;
  msg2 ← KeyFrame_encode_signed
           (reply (Z.lor (Z.lor (version_bits v) KI_MIC) KI_SECURE)
              (replay_counter msg1) (replicate 32 0) [])
           (fw_protocol_version fw) (kck ptk) v;
  Ok ({| fw_pmk := fw_pmk fw; fw_config := fw_config fw; fw_snonce := fw_snonce fw;
         fw_anonce := fw_anonce fw; fw_ptk := fw_ptk fw; fw_descriptor_version := v;
         fw_protocol_version := fw_protocol_version fw;
         fw_rx_counter := Some (replay_counter msg1); fw_state := fw_state fw;
         fw_last_sent := fw_last_sent fw; fw_retries := fw_retries fw |},
      [Send msg2; NewGtk gtk]).

(** [frame.replay_counter <= seen] *)
Definition replayed (fw : FourWay) (f : KeyFrame) : bool :=
  match fw_rx_counter fw with Some seen => replay_counter f <=? seen | None => false end.

Definition on_frame (fw : FourWay) (b : bytes) : exec Eapol.Error (FourWay * list Action) :=
  if bool_decide (fw_state fw = Failed) then Err UnexpectedMessage else
  e ← Eapol_parse b;
  if negb (bool_decide (eapol_packet_type e = PtKey)) then Ok (fw, []) else
  f ← KeyFrame_parse (eapol_body e);
  if negb (descriptor_type f =? DESCRIPTOR_TYPE_RSN)
  then Err (UnsupportedDescriptor (descriptor_type f)) else
  if negb (ki_ack (key_info f)) || ki_request (key_info f) then Ok (fw, []) else
  if replayed fw f then Err ReplayedCounter else
  match fw_state fw, ki_pairwise (key_info f), ki_mic (key_info f) with
  | _, true, false => on_msg1 fw e f
  | AwaitingMsg3, true, true => on_msg3 fw e f true
  | Established, true, true => on_msg3 fw e f false
  | Established, false, true => on_group_msg1 fw e f
  | _, _, _ => Err UnexpectedMessage
  end.

Definition handle (fw : FourWay) (input : Input) : exec Eapol.Error (FourWay * list Action) :=
  match input with Frame b => on_frame fw b | Timeout => on_timeout fw end.

Definition poll (fw : FourWay) (input : Input) : FourWay * exec Eapol.Error (list Action) :=
  match handle fw input with
  | Ok (fw', actions) => (fw', Ok actions)
  | Err e => (set_state Failed fw, Err e)
  | Panic => (fw, Panic)
  end.

(** A session: one result per input. *)
Fixpoint run (fw : FourWay) (inputs : list Input)
  : FourWay * list (exec Eapol.Error (list Action)) :=
  match inputs with
  | [] => (fw, [])
  | i :: inputs =>
      let '(fw, r) := poll fw i in
      let '(fw, rs) := run fw inputs in (fw, r :: rs)
  end.
End handlers.

(** ** What each handler accepted *)

(** An EAPOL-Key frame from an authenticator. *)
Record key_frame (b : bytes) (e : Eapol) (f : KeyFrame) : Prop := {
  kf_eapol : Eapol_parse b = Ok e;
  kf_type : eapol_packet_type e = PtKey;
  kf_body : KeyFrame_parse (eapol_body e) = Ok f;
  kf_rsn : descriptor_type f = DESCRIPTOR_TYPE_RSN;
  kf_ack : ki_ack (key_info f) = true;
  kf_not_request : ki_request (key_info f) = false;
}.

(** Message 1: pairwise, and the only frame with no MIC. *)
Definition is_msg1 (f : KeyFrame) : Prop :=
  ki_pairwise (key_info f) = true /\ ki_mic (key_info f) = false.
Definition is_pairwise_mic (f : KeyFrame) : Prop :=
  ki_pairwise (key_info f) = true /\ ki_mic (key_info f) = true.
Definition is_group (f : KeyFrame) : Prop :=
  ki_pairwise (key_info f) = false /\ ki_mic (key_info f) = true.

(** The counter is above every counter accepted before. *)
Definition fresh (fw : FourWay) (c : Z) : Prop :=
  match fw_rx_counter fw with Some seen => seen < c | None => True end.

Definition actions_keys (acts : list Action) : list Keys :=
  omap (fun a => match a with Complete k => Some k | _ => None end) acts.

Section accepted.
Context `{CryptoLaws}.

(** Key Data under the key-encryption key, in a frame with a valid MIC. *)
Record sealed (fw : FourWay) (e : Eapol) (f : KeyFrame) (ptk : Ptk) (data : bytes) : Prop := {
  sealed_ptk : fw_ptk fw = Some ptk;
  sealed_mic : verify_frame_mic (eapol_raw e) (kck ptk) (fw_descriptor_version fw) (key_mic f) = Ok tt;
  sealed_encrypted : ki_encrypted (key_info f) = true;
  sealed_data : unwrap_key_data (kek ptk) (key_data f) = Ok data;
}.

(** Everything message 3 must show before its keys are used. *)
Record msg3_valid (fw : FourWay) (e : Eapol) (f : KeyFrame) (ptk : Ptk) (m3_data : bytes)
    (gtk : Gtk) : Prop := {
  m3_sealed : sealed fw e f ptk m3_data;
  m3_nonce : key_nonce f = fw_anonce fw;
  m3_beacon : rsn_element m3_data = Some (cfg_beacon_rsn_ie (fw_config fw));
  m3_gtk : gtk_kde m3_data = Ok gtk;
}.

(** The state and the actions after each message. *)
Definition after_msg1 (fw : FourWay) (e : Eapol) (f : KeyFrame) v ptk msg2 : FourWay :=
  {| fw_pmk := fw_pmk fw; fw_config := fw_config fw; fw_snonce := fw_snonce fw;
     fw_anonce := key_nonce f; fw_ptk := Some ptk; fw_descriptor_version := v;
     fw_protocol_version := eapol_version e; fw_rx_counter := Some (replay_counter f);
     fw_state := AwaitingMsg3; fw_last_sent := Some msg2; fw_retries := 0 |}.
Definition after_msg3 (fw : FourWay) (f : KeyFrame) : FourWay :=
  {| fw_pmk := fw_pmk fw; fw_config := fw_config fw; fw_snonce := fw_snonce fw;
     fw_anonce := fw_anonce fw; fw_ptk := fw_ptk fw;
     fw_descriptor_version := fw_descriptor_version fw;
     fw_protocol_version := fw_protocol_version fw;
     fw_rx_counter := Some (replay_counter f); fw_state := Established;
     fw_last_sent := None; fw_retries := 0 |}.
Definition after_group (fw : FourWay) (f : KeyFrame) : FourWay :=
  {| fw_pmk := fw_pmk fw; fw_config := fw_config fw; fw_snonce := fw_snonce fw;
     fw_anonce := fw_anonce fw; fw_ptk := fw_ptk fw;
     fw_descriptor_version := fw_descriptor_version fw;
     fw_protocol_version := fw_protocol_version fw;
     fw_rx_counter := Some (replay_counter f); fw_state := fw_state fw;
     fw_last_sent := fw_last_sent fw; fw_retries := fw_retries fw |}.

(** The outcome of an accepted frame, one constructor per branch. *)
Inductive accepted (fw : FourWay) (b : bytes) : FourWay -> list Action -> Prop :=
| acc_ignored : accepted fw b fw []
| acc_msg1 e f v ptk msg2 :
    key_frame b e f -> fresh fw (replay_counter f) -> is_msg1 f ->
    ki_version (key_info f) (cfg_akm (fw_config fw)) = Ok v ->
    derive_ptk (fw_pmk fw) (cfg_akm (fw_config fw)) (cfg_bssid (fw_config fw))
      (cfg_own_mac (fw_config fw)) (key_nonce f) (fw_snonce fw) = Ok ptk ->
    accepted fw b (after_msg1 fw e f v ptk msg2) [Send msg2; ArmTimer RETRY_INTERVAL_MS]
| acc_msg3 e f ptk data gtk msg4 :
    key_frame b e f -> fresh fw (replay_counter f) -> is_pairwise_mic f ->
    fw_state fw = AwaitingMsg3 -> msg3_valid fw e f ptk data gtk ->
    accepted fw b (after_msg3 fw f)
      [Send msg4; DisarmTimer; Complete {| keys_ptk := ptk; keys_gtk := gtk |}]
| acc_msg3_again e f ptk data gtk msg4 :
    key_frame b e f -> fresh fw (replay_counter f) -> is_pairwise_mic f ->
    fw_state fw = Established -> msg3_valid fw e f ptk data gtk ->
    accepted fw b (after_msg3 fw f) [Send msg4; DisarmTimer]
| acc_group e f ptk data gtk msg2 :
    key_frame b e f -> fresh fw (replay_counter f) -> is_group f ->
    fw_state fw = Established -> sealed fw e f ptk data -> gtk_kde data = Ok gtk ->
    accepted fw b (after_group fw f) [Send msg2; NewGtk gtk].

Lemma on_msg1_ok fw e f fw' acts :
  on_msg1 fw e f = Ok (fw', acts) ->
  exists v ptk msg2,
    ki_version (key_info f) (cfg_akm (fw_config fw)) = Ok v
    /\ derive_ptk (fw_pmk fw) (cfg_akm (fw_config fw)) (cfg_bssid (fw_config fw))
         (cfg_own_mac (fw_config fw)) (key_nonce f) (fw_snonce fw) = Ok ptk
    /\ fw' = after_msg1 fw e f v ptk msg2
    /\ acts = [Send msg2; ArmTimer RETRY_INTERVAL_MS].
Proof. intros Ho. unfold on_msg1 in Ho. inv_ok. eauto 10. Qed.

Lemma on_msg3_ok fw e f install fw' acts :
  on_msg3 fw e f install = Ok (fw', acts) ->
  exists ptk data gtk msg4,
    msg3_valid fw e f ptk data gtk /\ fw' = after_msg3 fw f
    /\ acts = [Send msg4; DisarmTimer]
              ++ if install then [Complete {| keys_ptk := ptk; keys_gtk := gtk |}] else [].
Proof.
  intros Ho. unfold on_msg3 in Ho. inv_ok. bool_prop. simplify_eq.
  match goal with Hv : verify_frame_mic _ _ _ _ = Ok ?u |- _ => destruct u end.
  match goal with Hp : fw_ptk fw = Some ?p, Hg : gtk_kde _ = Ok ?g, Hm : KeyFrame_encode_signed _ _ _ _ = Ok ?w |- _ =>
    eexists p, _, g, w end.
  split; [by econstructor; [econstructor|..]|].
  destruct install; inv_ok; [|done].
  cbn [fw_ptk] in *. by simplify_eq.
Qed.

Lemma on_group_ok fw e f fw' acts :
  on_group_msg1 fw e f = Ok (fw', acts) ->
  exists ptk data gtk msg2,
    sealed fw e f ptk data /\ gtk_kde data = Ok gtk /\ fw' = after_group fw f
    /\ acts = [Send msg2; NewGtk gtk].
Proof.
  intros Ho. unfold on_group_msg1 in Ho. inv_ok.
  match goal with Hv : verify_frame_mic _ _ _ _ = Ok ?u |- _ => destruct u end.
  do 4 eexists. split; [by econstructor|]. done.
Qed.

Lemma replayed_fresh fw f : replayed fw f = false -> fresh fw (replay_counter f).
Proof. unfold replayed, fresh. destruct (fw_rx_counter fw); [|done]. intros. by bool_prop. Qed.

Lemma fresh_not_replayed fw f : fresh fw (replay_counter f) -> replayed fw f = false.
Proof. unfold replayed, fresh. destruct (fw_rx_counter fw); [|done]. intros. by apply Z.leb_gt. Qed.

(** The one inversion the properties below rest on. *)
Lemma on_frame_accepted fw b fw' acts : on_frame fw b = Ok (fw', acts) -> accepted fw b fw' acts.
Proof.
  unfold on_frame. case_bool_decide as Hf; [done|]. intros Ho.
  apply bind_ok in Ho as (e & He & Ho).
  destruct (bool_decide (eapol_packet_type e = PtKey)) eqn:Ht; cbn [negb] in Ho;
    [|injection Ho as <- <-; constructor].
  apply bind_ok in Ho as (f & Hk & Ho).
  destruct (descriptor_type f =? DESCRIPTOR_TYPE_RSN) eqn:Hd; cbn [negb] in Ho; [|done].
  destruct (negb (ki_ack (key_info f)) || ki_request (key_info f)) eqn:Ha;
    [injection Ho as <- <-; constructor|].
  destruct (replayed fw f) eqn:Hr; [done|]. apply replayed_fresh in Hr.
  bool_prop. assert (Hkf : key_frame b e f) by done.
  destruct (ki_pairwise (key_info f)) eqn:Hp, (ki_mic (key_info f)) eqn:Hm;
    destruct (fw_state fw) eqn:Hs; try done;
    first [ apply on_msg1_ok in Ho as (v & ptk & m & ? & ? & -> & ->); by eapply acc_msg1
          | apply on_group_ok in Ho as (ptk & d & g & m & ? & ? & -> & ->); by eapply acc_group
          | apply on_msg3_ok in Ho as (ptk & d & g & m & ? & -> & ->);
            first [by eapply (acc_msg3 _ _ e f ptk d g m) | by eapply (acc_msg3_again _ _ e f ptk d g m)] ].
Qed.
End accepted.

(** ** The type invariant, and no panic *)

(** What the association's configuration owes: a 32-octet nonce is the type's,
    and an RSN element has at most 257 octets. *)
Definition config_ok (c : Config) : Prop :=
  Z.of_nat (BODY_MIN + length (cfg_assoc_rsn_ie c)) < 2 ^ 16.
Definition input_ok (i : Input) : Prop := match i with Frame b => is_bytes b | Timeout => True end.
#[export] Instance config_ok_dec c : Decision (config_ok c).
Proof. unfold config_ok. apply _. Defined.

#[export] Instance input_ok_dec i : Decision (input_ok i).
Proof. destruct i; cbn; apply _. Defined.

Section invariant.
Context `{CryptoLaws}.

Record wf (fw : FourWay) : Prop := {
  wf_config : config_ok (fw_config fw);
  wf_snonce : length (fw_snonce fw) = 32%nat;
  wf_counter c : fw_rx_counter fw = Some c -> is_u64 c;
  (** The pairwise key is the one the last message 1 determines. *)
  wf_ptk ptk : fw_ptk fw = Some ptk ->
    derive_ptk (fw_pmk fw) (cfg_akm (fw_config fw)) (cfg_bssid (fw_config fw))
      (cfg_own_mac (fw_config fw)) (fw_anonce fw) (fw_snonce fw) = Ok ptk;
  (** A pairwise key exists from message 1 on. *)
  wf_has_ptk : fw_state fw = AwaitingMsg3 \/ fw_state fw = Established -> is_Some (fw_ptk fw);
  wf_retries : 0 <= fw_retries fw <= RETRY_LIMIT;
  (** Something is outstanding exactly while message 3 is awaited. *)
  wf_outstanding : fw_state fw = AwaitingMsg3 -> is_Some (fw_last_sent fw);
  wf_quiet : fw_state fw = Established \/ fw_state fw = Idle -> fw_last_sent fw = None;
}.

Lemma with_snonce_wf pmk c n : config_ok c -> length n = 32%nat -> wf (with_snonce pmk c n).
Proof. intros. split; cbn; try done; try lia. naive_solver. Qed.

Lemma key_frame_counter b e f : is_bytes b -> key_frame b e f -> is_u64 (replay_counter f).
Proof.
  intros Hb [He _ Hk _ _ _]. eapply KeyFrame_parse_widths; [|exact Hk].
  by eapply Eapol_parse_body_bytes.
Qed.

Lemma accepted_wf fw b fw' acts : is_bytes b -> wf fw -> accepted fw b fw' acts -> wf fw'.
Proof.
  intros Hb Hw Ha. destruct Ha as
    [|e f v ptk m Hk ? ? ? ?|e f p d g m Hk|e f p d g m Hk|e f p d g m Hk]; [done|..];
    pose proof (key_frame_counter _ _ _ Hb Hk); destruct Hw; split; cbn; try done; try lia;
    naive_solver.
Qed.

Lemma on_timeout_wf fw fw' acts : wf fw -> on_timeout fw = Ok (fw', acts) -> wf fw'.
Proof.
  intros Hw. unfold on_timeout. destruct (fw_last_sent fw) as [m|] eqn:Hl; [|by intros [= <- <-]].
  destruct (Z.leb_spec RETRY_LIMIT (fw_retries fw)) as [|Hr]; [done|]. intros [= <- <-].
  destruct Hw as [? ? ? ? ? Hre ? ?]. unfold RETRY_LIMIT in *.
  assert (wrap 8 (fw_retries fw + 1) = fw_retries fw + 1) as Hwr
    by (unfold wrap; apply Z.mod_small; lia).
  split; cbn; unfold RETRY_LIMIT; try done; rewrite ?Hwr; try lia; rewrite <- ?Hl; auto.
Qed.

Lemma set_failed_wf fw : wf fw -> wf (set_state Failed fw).
Proof. intros []. split; cbn; try done; naive_solver. Qed.

Lemma reply_wf info c n d :
  is_u16 info -> is_u64 c -> length n = 32%nat -> Z.of_nat (BODY_MIN + length d) < 2 ^ 16 ->
  KeyFrame_wf (reply info c n d).
Proof. intros. repeat split; cbn; try done; unfold is_uint in *; lia. Qed.

Lemma no_panic_signed info c n d pv k v :
  is_u16 info -> is_u64 c -> length n = 32%nat -> Z.of_nat (BODY_MIN + length d) < 2 ^ 16 ->
  no_panic (@KeyFrame_encode_signed _ Eapol.Error (reply info c n d) pv k v).
Proof.
  intros. destruct (encode_signed_ok (reply info c n d) pv k v) as [w ->]; [by apply reply_wf|done].
Qed.

Lemma handle_no_panic fw i : wf fw -> input_ok i -> no_panic (handle fw i).
Proof.
  intros Hw Hi. destruct i as [b|]; cbn [handle input_ok] in *.
  2: { unfold on_timeout. repeat case_match; done. }
  unfold on_frame. case_bool_decide as Hf; [done|].
  apply no_panic_bind; [auto with caw|]. intros e He. case_match; [done|].
  apply no_panic_bind; [auto with caw|]. intros f Hk.
  repeat (case_match; [done|]).
  assert (Hc : is_u64 (replay_counter f) /\ length (key_nonce f) = 32%nat).
  { pose proof (KeyFrame_parse_widths (eapol_body e) f) as Hw'.
    destruct Hw' as (_ & ? & ? & _); [by eapply Eapol_parse_body_bytes|done|done]. }
  destruct Hc as [Hc _].
  assert (Hinfo : forall v, is_u16 (Z.lor (Z.lor (version_bits v) KI_PAIRWISE) KI_MIC)
    /\ is_u16 (Z.lor (Z.lor (version_bits v) KI_MIC) KI_SECURE)
    /\ is_u16 (Z.lor (Z.lor (Z.lor (version_bits v) KI_PAIRWISE) KI_MIC) KI_SECURE)).
  { by intros []; vm_compute. }
  destruct Hw as [Hcfg Hsn _ _ Hptk _ _ _].
  assert (Hm1 : no_panic (on_msg1 fw e f)).
  { unfold on_msg1.
    apply no_panic_bind; [apply no_panic_map_err; auto with caw|]. intros v _.
    apply no_panic_bind; [apply no_panic_map_err; auto with caw|]. intros p _.
    apply no_panic_bind; [|done]. apply no_panic_signed; auto. apply Hinfo. }
  assert (Hm3 : forall install, no_panic (on_msg3 fw e f install)).
  { intros install. unfold on_msg3.
    apply no_panic_bind; [auto with caw|]. intros p Hp%ok_or_ok.
    do 7 (apply no_panic_bind; [auto using no_panic_map_err with caw|]; intros ? _).
    apply no_panic_bind; [apply no_panic_signed; [apply Hinfo|done|done|reflexivity]|]. intros ? _.
    cbn [fw_ptk]. rewrite Hp. by destruct install. }
  assert (Hg : no_panic (on_group_msg1 fw e f)).
  { unfold on_group_msg1.
    apply no_panic_bind; [auto with caw|]. intros p Hp%ok_or_ok.
    do 4 (apply no_panic_bind; [auto using no_panic_map_err with caw|]; intros ? _).
    apply no_panic_bind; [apply no_panic_signed; [apply Hinfo|done|done|reflexivity]|]. done. }
  by destruct (fw_state fw), (ki_pairwise (key_info f)), (ki_mic (key_info f)).
Qed.

Lemma handle_wf fw i fw' acts : wf fw -> input_ok i -> handle fw i = Ok (fw', acts) -> wf fw'.
Proof.
  intros Hw Hi. destruct i as [b|]; cbn [handle].
  - intros Ha%on_frame_accepted. by eapply accepted_wf.
  - by apply on_timeout_wf.
Qed.

Lemma poll_wf fw i : wf fw -> input_ok i -> wf (fst (poll fw i)).
Proof.
  intros Hw Hi. unfold poll. destruct (handle fw i) as [[fw' acts]|e|] eqn:Hh; cbn.
  - by eapply handle_wf.
  - by apply set_failed_wf.
  - done.
Qed.

Lemma run_wf fw inputs : wf fw -> Forall input_ok inputs -> wf (fst (run fw inputs)).
Proof.
  intros Hw Hi. revert fw Hw. induction Hi as [|i inputs Hi _ IH]; intros fw Hw; cbn; [done|].
  pose proof (poll_wf fw i Hw Hi) as Hw'. destruct (poll fw i) as [fw1 r]. cbn in *.
  specialize (IH fw1 Hw'). by destruct (run fw1 inputs).
Qed.

(** C9. The handshake never panics: whatever octets the air delivers and
    however timeouts interleave with them, every input from a fresh
    handshake on ends in actions or an error, and the machine stays well
    formed (the pairwise key is the one the last message 1 determines,
    retries stay within the limit). *)
Theorem fourway_never_panics pmk c snonce inputs :
  config_ok c -> length snonce = 32%nat -> Forall input_ok inputs ->
  let '(fw, results) := run (with_snonce pmk c snonce) inputs in
  wf fw /\ Forall no_panic results.
Proof.
  intros Hc Hn Hi. pose proof (with_snonce_wf pmk c snonce Hc Hn) as Hw.
  revert Hw. generalize (with_snonce pmk c snonce). induction Hi as [|i inputs Hi _ IH]; intros fw Hw; [done|].
  cbn [run]. pose proof (poll_wf fw i Hw Hi) as Hw'.
  assert (Hnp : no_panic (snd (poll fw i))).
  { pose proof (handle_no_panic fw i Hw Hi) as Hh. unfold poll. by destruct (handle fw i) as [[]| |]. }
  destruct (poll fw i) as [fw1 r]. cbn in Hw', Hnp. specialize (IH fw1 Hw').
  destruct (run fw1 inputs) as [fw2 rs]. destruct IH. split; [done|by constructor].
Qed.
End invariant.

(** ** Safety *)

Section safety.
Context `{CryptoLaws}.

Lemma poll_ok fw b fw' acts :
  poll fw (Frame b) = (fw', Ok acts) -> accepted fw b fw' acts.
Proof.
  unfold poll. cbn [handle]. destruct (on_frame fw b) as [[]| |] eqn:Hf; [|done..].
  intros [= <- <-]. by apply on_frame_accepted.
Qed.

Lemma on_timeout_shape fw fw' acts :
  on_timeout fw = Ok (fw', acts) ->
  fw_state fw' = fw_state fw /\ fw_rx_counter fw' = fw_rx_counter fw
  /\ (acts = [] \/ exists m, acts = [Send m; ArmTimer RETRY_INTERVAL_MS]).
Proof.
  unfold on_timeout. destruct (fw_last_sent fw); [|intros [= <- <-]; auto].
  case_match; [done|]. intros [= <- <-]. cbn. eauto.
Qed.

(** C8. Keys are handed out only for an authenticated message 3: awaited,
    above every counter accepted before, with a MIC that verifies under the
    KCK both sides derived, the ANonce of message 1, Key Data sealed under
    the KEK that repeats the RSN element of the beacon and carries a group
    key of installable size -- and only behind message 4. *)
Theorem complete_is_authenticated fw i fw' acts keys :
  wf fw -> poll fw i = (fw', Ok acts) -> Complete keys ∈ acts ->
  exists b e f data msg4,
    i = Frame b /\ key_frame b e f /\ fw_state fw = AwaitingMsg3
    /\ fresh fw (replay_counter f)
    /\ msg3_valid fw e f (keys_ptk keys) data (keys_gtk keys)
    /\ derive_ptk (fw_pmk fw) (cfg_akm (fw_config fw)) (cfg_bssid (fw_config fw))
         (cfg_own_mac (fw_config fw)) (key_nonce f) (fw_snonce fw) = Ok (keys_ptk keys)
    /\ Gtk_wf (keys_gtk keys)
    /\ acts = [Send msg4; DisarmTimer; Complete keys].
Proof.
  intros Hw Hp Hin. destruct i as [b|].
  - apply poll_ok in Hp. destruct Hp as [| |e f ptk d g m Hk Hfr Hpm Hs Hv| |];
      try (exfalso; set_solver).
    assert (keys = {| keys_ptk := ptk; keys_gtk := g |}) as -> by set_solver.
    exists b, e, f, d, m. cbn. split_and!; try done.
    + destruct Hv as [[Hptk _ _ _] Hn _ _]. rewrite Hn. by apply Hw.
    + by eapply gtk_kde_wf, (m3_gtk _ _ _ _ _ _ Hv).
  - unfold poll in Hp. cbn [handle] in Hp.
    destruct (on_timeout fw) as [[fw1 a]| |] eqn:Ht; [|done..]. injection Hp as <- <-.
    apply on_timeout_shape in Ht as (_ & _ & [-> | [m ->]]); set_solver.
Qed.

(** *** Replayed frames *)

Definition counter_at_least (c : Z) (fw : FourWay) : Prop :=
  match fw_rx_counter fw with Some seen => c <= seen | None => False end.

Lemma counter_monotone fw i c : counter_at_least c fw -> counter_at_least c (fst (poll fw i)).
Proof.
  intros Hc. unfold poll. destruct (handle fw i) as [[fw' acts]|e|] eqn:Hh; cbn; [|done..].
  destruct i as [b|]; cbn [handle] in Hh.
  - apply on_frame_accepted in Hh. unfold counter_at_least in *.
    destruct Hh as [|? f ? ? ? ? Hf|? f ? ? ? ? ? Hf|? f ? ? ? ? ? Hf|? f ? ? ? ? ? Hf];
      [done|..]; cbn; unfold fresh in Hf; destruct (fw_rx_counter fw); (lia || done).
  - apply on_timeout_shape in Hh as (_ & Hr & _). unfold counter_at_least. by rewrite Hr.
Qed.

Lemma run_monotone fw inputs c :
  counter_at_least c fw -> counter_at_least c (fst (run fw inputs)).
Proof.
  revert fw. induction inputs as [|i inputs IH]; intros fw Hc; cbn; [done|].
  pose proof (counter_monotone fw i c Hc) as Hc'. destruct (poll fw i) as [fw1 r]. cbn in *.
  specialize (IH fw1 Hc'). by destruct (run fw1 inputs).
Qed.

Lemma key_frame_replayed fw b e f :
  key_frame b e f -> counter_at_least (replay_counter f) fw ->
  exists err, on_frame fw b = Err err.
Proof.
  intros [He Ht Hk Hr Ha Hq] Hc. unfold on_frame. case_bool_decide; [by eexists|].
  rewrite He. cbn [mbind exec_bind]. rewrite bool_decide_true by done. cbn [negb].
  rewrite Hk. cbn [mbind exec_bind]. rewrite Hr. cbn [negb Z.eqb].
  rewrite Ha, Hq. unfold replayed. unfold counter_at_least in Hc.
  destruct (fw_rx_counter fw); [|done]. apply Z.leb_le in Hc. rewrite Hc. by eexists.
Qed.

(** C16. No frame is accepted twice: once it has led to an action, the same
    octets are refused for the rest of the session, whatever comes in
    between. *)
Theorem no_frame_twice fw b fw1 a acts inputs :
  poll fw (Frame b) = (fw1, Ok (a :: acts)) ->
  is_err (snd (poll (fst (run fw1 inputs)) (Frame b))) = true.
Proof.
  intros Hp%poll_ok.
  assert (exists e f, key_frame b e f /\ counter_at_least (replay_counter f) fw1) as (e & f & Hk & Hc).
  { inversion Hp; subst; eexists _, _; (split; [eassumption|]);
      unfold counter_at_least; cbn; reflexivity. }
  apply (run_monotone _ inputs) in Hc. unfold poll. cbn [handle].
  by destruct (key_frame_replayed _ _ _ _ Hk Hc) as [err ->].
Qed.

(** *** Installation *)

Lemma accepted_not_awaiting fw b fw' acts :
  accepted fw b fw' acts -> fw_state fw <> AwaitingMsg3 ->
  fw_state fw' <> AwaitingMsg3 /\ actions_keys acts = []
  \/ exists e f, key_frame b e f /\ is_msg1 f.
Proof. intros Ha Hs. destruct Ha; cbn; try (by left); right; eauto. Qed.

(** C17. One installation per message 1: from an established session, or any
    state that does not await message 3, no sequence of retransmissions,
    rekeys, forgeries or timeouts yields a second [Complete] unless a new
    message 1 is among them. *)
Theorem reinstall_needs_msg1 fw inputs acts :
  fw_state fw <> AwaitingMsg3 ->
  Ok acts ∈ snd (run fw inputs) -> actions_keys acts <> [] ->
  exists b e f, Frame b ∈ inputs /\ key_frame b e f /\ is_msg1 f.
Proof.
  revert fw. induction inputs as [|i inputs IH]; intros fw Hs Hin Hk; cbn in Hin; [set_solver|].
  assert (Hstep : fw_state (fst (poll fw i)) <> AwaitingMsg3
      /\ (forall a, snd (poll fw i) = Ok a -> actions_keys a = [])
    \/ exists b e f, i = Frame b /\ key_frame b e f /\ is_msg1 f).
  { unfold poll. destruct (handle fw i) as [[fw' a]|e|] eqn:Hh; cbn; [|by left..].
    destruct i as [b|]; cbn [handle] in Hh.
    - apply on_frame_accepted in Hh. destruct (accepted_not_awaiting _ _ _ _ Hh Hs) as [[? ?]|(e & f & ? & ?)];
        [left; naive_solver|right; eauto 6].
    - apply on_timeout_shape in Hh as (-> & _ & Ha). left. split; [done|].
      intros ? [= <-]. by destruct Ha as [-> | [m ->]]. }
  destruct Hstep as [[Hs' Hno]|(b & e & f & -> & ? & ?)]; [|exists b, e, f; set_solver].
  destruct (poll fw i) as [fw1 r] eqn:Hp. cbn in *.
  destruct (run fw1 inputs) as [fw2 rs] eqn:Hr. cbn in Hin.
  apply elem_of_cons in Hin as [<- | Hin]; [by specialize (Hno acts eq_refl)|].
  destruct (IH fw1 Hs') as (b & e & f & ? & ?); [by rewrite Hr|done|]. exists b, e, f. set_solver.
Qed.
End safety.

(** ** Acceptance: valid frames are answered *)

Definition msg2_frame (fw : FourWay) (f : KeyFrame) (v : KeyDescriptorVersion) : KeyFrame :=
  reply (Z.lor (Z.lor (version_bits v) KI_PAIRWISE) KI_MIC) (replay_counter f) (fw_snonce fw)
    (cfg_assoc_rsn_ie (fw_config fw)).
Definition msg4_frame (fw : FourWay) (f : KeyFrame) : KeyFrame :=
  reply (Z.lor (Z.lor (Z.lor (version_bits (fw_descriptor_version fw)) KI_PAIRWISE) KI_MIC) KI_SECURE)
    (replay_counter f) (replicate 32 0) [].

Section acceptance.
Context `{CryptoLaws}.

Lemma msg2_frame_wf fw f v :
  wf fw -> is_u64 (replay_counter f) -> KeyFrame_wf (msg2_frame fw f v).
Proof. intros [Hc Hn _ _ _ _ _ _] ?. apply reply_wf; try done. by destruct v; vm_compute. Qed.

Lemma msg4_frame_wf fw f : is_u64 (replay_counter f) -> KeyFrame_wf (msg4_frame fw f).
Proof. intros ?. apply reply_wf; try done. by destruct (fw_descriptor_version fw); vm_compute. Qed.

Lemma on_frame_dispatch fw b e f :
  fw_state fw <> Failed -> key_frame b e f -> fresh fw (replay_counter f) ->
  on_frame fw b =
    match fw_state fw, ki_pairwise (key_info f), ki_mic (key_info f) with
    | _, true, false => on_msg1 fw e f
    | AwaitingMsg3, true, true => on_msg3 fw e f true
    | Established, true, true => on_msg3 fw e f false
    | Established, false, true => on_group_msg1 fw e f
    | _, _, _ => Err UnexpectedMessage
    end.
Proof.
  intros Hs [He Ht Hk Hr Ha Hq] Hf. unfold on_frame. rewrite bool_decide_false by done.
  rewrite He. cbn [mbind exec_bind]. rewrite bool_decide_true by done. cbn [negb].
  rewrite Hk. cbn [mbind exec_bind]. rewrite Hr. cbn [negb Z.eqb].
  rewrite Ha, Hq. rewrite fresh_not_replayed by done. done.
Qed.

Lemma poll_msg1 fw b e f v ptk :
  wf fw -> is_u64 (replay_counter f) -> fw_state fw <> Failed ->
  key_frame b e f -> fresh fw (replay_counter f) -> is_msg1 f ->
  ki_version (key_info f) (cfg_akm (fw_config fw)) = Ok v ->
  derive_ptk (fw_pmk fw) (cfg_akm (fw_config fw)) (cfg_bssid (fw_config fw))
    (cfg_own_mac (fw_config fw)) (key_nonce f) (fw_snonce fw) = Ok ptk ->
  exists msg2,
    @KeyFrame_encode_signed _ Eapol.Error (msg2_frame fw f v) (eapol_version e) (kck ptk) v = Ok msg2
    /\ poll fw (Frame b) = (after_msg1 fw e f v ptk msg2, Ok [Send msg2; ArmTimer RETRY_INTERVAL_MS]).
Proof.
  intros Hw Hb Hs Hk Hf [Hp Hm] Hv Hd.
  destruct (encode_signed_ok (msg2_frame fw f v) (eapol_version e) (kck ptk) v) as [m2 He].
  { by apply msg2_frame_wf. }
  exists m2. split; [done|]. unfold poll. cbn [handle].
  erewrite on_frame_dispatch by done. rewrite Hp, Hm.
  assert (on_msg1 fw e f = Ok (after_msg1 fw e f v ptk m2, [Send m2; ArmTimer RETRY_INTERVAL_MS])) as ->.
  { unfold on_msg1. rewrite Hv. cbn [mbind exec_bind]. rewrite Hd. cbn [map_err mbind exec_bind].
    unfold msg2_frame in He. by rewrite He. }
  by destruct (fw_state fw).
Qed.

Lemma on_msg3_valid fw e f ptk data gtk install msg4 :
  msg3_valid fw e f ptk data gtk ->
  @KeyFrame_encode_signed _ Eapol.Error (msg4_frame fw f) (fw_protocol_version fw) (kck ptk)
    (fw_descriptor_version fw) = Ok msg4 ->
  on_msg3 fw e f install = Ok (after_msg3 fw f,
    [Send msg4; DisarmTimer]
    ++ if install then [Complete {| keys_ptk := ptk; keys_gtk := gtk |}] else []).
Proof.
  intros [[Hptk Hmic Henc Hdata] Hn Hbeacon Hgtk] He.
  unfold on_msg3. cbn zeta.
  rewrite (bind_Ok _ _ ptk) by by rewrite Hptk. rewrite (bind_Ok _ _ tt) by exact Hmic.
  rewrite ensure_true by by apply bool_decide_true.
  rewrite ensure_true by exact Henc.
  rewrite (bind_Ok _ _ data) by by rewrite Hdata.
  rewrite (bind_Ok _ _ (cfg_beacon_rsn_ie (fw_config fw))) by by rewrite Hbeacon.
  rewrite ensure_true by by apply bool_decide_true.
  rewrite (bind_Ok _ _ gtk) by exact Hgtk. rewrite (bind_Ok _ _ msg4) by exact He.
  cbn [fw_ptk]. rewrite (bind_Ok _ _ ptk) by by rewrite Hptk. by destruct install.
Qed.

Lemma poll_msg3 fw b e f ptk data gtk :
  is_u64 (replay_counter f) -> fw_state fw = AwaitingMsg3 \/ fw_state fw = Established ->
  key_frame b e f -> fresh fw (replay_counter f) -> is_pairwise_mic f ->
  msg3_valid fw e f ptk data gtk ->
  exists msg4,
    @KeyFrame_encode_signed _ Eapol.Error (msg4_frame fw f) (fw_protocol_version fw) (kck ptk)
      (fw_descriptor_version fw) = Ok msg4
    /\ poll fw (Frame b) = (after_msg3 fw f,
         Ok ([Send msg4; DisarmTimer]
             ++ if bool_decide (fw_state fw = AwaitingMsg3)
                then [Complete {| keys_ptk := ptk; keys_gtk := gtk |}] else [])).
Proof.
  intros Hb Hs Hk Hf [Hp Hm] Hv.
  destruct (encode_signed_ok (msg4_frame fw f) (fw_protocol_version fw) (kck ptk)
              (fw_descriptor_version fw)) as [m4 He].
  { by apply msg4_frame_wf. }
  exists m4. split; [done|]. unfold poll. cbn [handle].
  erewrite on_frame_dispatch by (done || by destruct Hs as [-> | ->]). rewrite Hp, Hm.
  destruct Hs as [Hs | Hs]; rewrite Hs, (on_msg3_valid _ _ _ _ _ _ _ _ Hv He); reflexivity.
Qed.

(** What the authenticator checks of a reply: it parses, its MIC verifies
    under the shared KCK, and it is the frame that was meant. *)
Definition peer_accepts (kck : bytes) (v : KeyDescriptorVersion) (w : bytes) (f : KeyFrame) : Prop :=
  exists e m, Eapol_parse w = Ok e /\ KeyFrame_parse (eapol_body e) = Ok (with_mic f m)
    /\ verify_frame_mic (eapol_raw e) kck v m = Ok tt.

Lemma signed_peer_accepts f pv kck v w :
  KeyFrame_wf f -> @KeyFrame_encode_signed _ Eapol.Error f pv kck v = Ok w ->
  peer_accepts kck v w f.
Proof.
  intros Hf Hw. destruct (signed_frame_accepted f pv kck v w Hf Hw) as (m & e & ? & ? & _ & ? & ?).
  by exists e, m.
Qed.
End acceptance.

(** ** The full exchange *)

Section exchange.
Context `{CryptoLaws}.

(** The authenticator's frames, built with the same codec. *)
Definition ap_frame (info counter : Z) (anonce data : bytes) : KeyFrame :=
  {| descriptor_type := DESCRIPTOR_TYPE_RSN; key_info := info; key_length := 16;
     replay_counter := counter; key_nonce := anonce; key_iv := replicate 16 0;
     key_rsc := replicate 8 0; key_mic := replicate 16 0; key_data := data |}.
Definition ap_msg1 (v : KeyDescriptorVersion) (counter : Z) (anonce : bytes) : KeyFrame :=
  ap_frame (Z.lor (Z.lor (version_bits v) KI_PAIRWISE) KI_ACK) counter anonce [].
Definition ap_msg3_info (v : KeyDescriptorVersion) : Z :=
  Z.lor (Z.lor (Z.lor (Z.lor (Z.lor (Z.lor (version_bits v) KI_PAIRWISE) KI_INSTALL) KI_ACK) KI_MIC)
    KI_SECURE) KI_ENCRYPTED.
Definition ap_msg3 (v : KeyDescriptorVersion) (counter : Z) (anonce wrapped : bytes) : KeyFrame :=
  ap_frame (ap_msg3_info v) counter anonce wrapped.

Lemma ap_frame_wf info counter anonce data :
  is_u16 info -> is_u64 counter -> length anonce = 32%nat ->
  Z.of_nat (BODY_MIN + length data) < 2 ^ 16 -> KeyFrame_wf (ap_frame info counter anonce data).
Proof. intros. repeat split; cbn; try done; unfold is_uint in *; lia. Qed.

(** A version the station accepts for the AKM. *)
Definition version_for (akm : Akm) (v : KeyDescriptorVersion) : bool :=
  match v with AkmDefinedCmac => is_sae akm | _ => true end.

Lemma ap_version akm v counter anonce :
  version_for akm v = true -> ki_version (key_info (ap_msg1 v counter anonce)) akm = Ok v.
Proof.
  unfold ki_version, from_key_info_for. destruct v; cbn [version_for]; intros Hv.
  - by destruct (is_sae akm).
  - by destruct (is_sae akm).
  - by rewrite Hv.
Qed.

(** C18. The handshake completes: for every AKM with a pairwise hierarchy and
    every descriptor version that goes with it, an authenticator's messages
    1 and 3 take a fresh station to [Established] with exactly the
    authenticator's pairwise and group keys; messages 2 and 4 pass the
    authenticator's check, message 2 carrying the SNonce and the RSN element
    of the association. *)
Theorem handshake_completes pmk c snonce anonce v c1 c3 pv pv3 ptk wrapped data gtk msg1 msg3 :
  config_ok c -> length snonce = 32%nat -> length anonce = 32%nat ->
  is_u64 c1 -> is_u64 c3 -> c1 < c3 ->
  version_for (cfg_akm c) v = true ->
  derive_ptk pmk (cfg_akm c) (cfg_bssid c) (cfg_own_mac c) anonce snonce = Ok ptk ->
  unwrap_key_data (kek ptk) wrapped = Ok data ->
  Z.of_nat (BODY_MIN + length wrapped) < 2 ^ 16 ->
  rsn_element data = Some (cfg_beacon_rsn_ie c) -> gtk_kde data = Ok gtk ->
  @KeyFrame_encode Eapol.Error (ap_msg1 v c1 anonce) pv = Ok msg1 ->
  @KeyFrame_encode_signed _ Eapol.Error (ap_msg3 v c3 anonce wrapped) pv3 (kck ptk) v = Ok msg3 ->
  exists fw msg2 msg4,
    run (with_snonce pmk c snonce) [Frame msg1; Frame msg3]
    = (fw, [Ok [Send msg2; ArmTimer RETRY_INTERVAL_MS];
            Ok [Send msg4; DisarmTimer; Complete {| keys_ptk := ptk; keys_gtk := gtk |}]])
    /\ fw_state fw = Established
    /\ peer_accepts (kck ptk) v msg2
         (reply (Z.lor (Z.lor (version_bits v) KI_PAIRWISE) KI_MIC) c1 snonce (cfg_assoc_rsn_ie c))
    /\ peer_accepts (kck ptk) v msg4
         (reply (Z.lor (Z.lor (Z.lor (version_bits v) KI_PAIRWISE) KI_MIC) KI_SECURE) c3
            (replicate 32 0) []).
Proof.
  intros Hc Hsn Han Hc1 Hc3 Hlt Hv Hd Hu Hwl Hrsn Hgtk Hm1 Hm3.
  pose proof (with_snonce_wf pmk c snonce Hc Hsn) as Hw.
  assert (Hf1 : KeyFrame_wf (ap_msg1 v c1 anonce)) by 
    (apply ap_frame_wf; [by destruct v; vm_compute|exact Hc1|exact Han|reflexivity]).
  assert (Hf3 : KeyFrame_wf (ap_msg3 v c3 anonce wrapped)) by 
    (apply ap_frame_wf; [by destruct v; vm_compute|exact Hc3|exact Han|exact Hwl]).
  rewrite KeyFrame_encode_frame in Hm1 by done. injection Hm1 as <-.
  pose proof (KeyFrame_frame_parse _ pv Hf1) as Hp1.
  destruct (signed_frame_accepted _ _ _ _ _ Hf3 Hm3) as (m & e3 & Hp3 & Hraw & Ht & Hb3 & Hmic).
  set (e1 := {| eapol_version := pv; eapol_packet_type := PtKey; eapol_body := _; eapol_raw := _ |}) in Hp1.
  assert (Hk1 : key_frame (KeyFrame_frame (ap_msg1 v c1 anonce) pv) e1 (ap_msg1 v c1 anonce)).
  { split; [exact Hp1|reflexivity|by apply KeyFrame_parse_body|reflexivity|by destruct v..]. }
  destruct (poll_msg1 (with_snonce pmk c snonce) (KeyFrame_frame (ap_msg1 v c1 anonce) pv) e1 (ap_msg1 v c1 anonce) v ptk Hw)
    as (m2 & He2 & Hpoll1);
    [exact Hc1|discriminate|exact Hk1|exact I|by destruct v|by apply ap_version|exact Hd|].
  set (fw1 := after_msg1 (with_snonce pmk c snonce) e1 (ap_msg1 v c1 anonce) v ptk m2) in Hpoll1.
  set (f3 := with_mic (ap_msg3 v c3 anonce wrapped) m).
  assert (Hk3 : key_frame msg3 e3 f3).
  { split; [exact Hp3|exact Ht|exact Hb3|reflexivity|by destruct v..]. }
  assert (Hv3 : msg3_valid fw1 e3 f3 ptk data gtk).
  { split; [split|reflexivity|exact Hrsn|exact Hgtk]; [reflexivity| |by destruct v|exact Hu].
    rewrite Hraw. rewrite Hraw in Hmic. exact Hmic. }
  destruct (poll_msg3 fw1 msg3 e3 f3 ptk data gtk) as (m4 & He4 & Hpoll3);
    [exact Hc3|by left|exact Hk3|exact Hlt|by destruct v|exact Hv3|].
  exists (after_msg3 fw1 f3), m2, m4. split_and!.
  - cbn [run]. by rewrite Hpoll1, Hpoll3.
  - reflexivity.
  - refine (signed_peer_accepts _ _ _ _ _ (msg2_frame_wf _ _ v Hw _) He2). exact Hc1.
  - refine (signed_peer_accepts _ _ _ _ _ (msg4_frame_wf fw1 f3 _) He4). exact Hc3.
Qed.
End exchange.

(** ** Message 1 in an established session, and timeouts *)

Section rekeying.
Context `{CryptoLaws}.

(** What [reinstall_needs_msg1] leaves open: message 1 carries no MIC, is
    accepted in [Established], and re-arms the installation.  A message 1
    that repeats the ANonce of the running session derives the pairwise key
    already in use, and the next valid message 3 hands that same key out for
    a second installation. *)
Theorem msg1_rearms_same_key fw p b1 e1 f1 v b3 e3 f3 data gtk :
  wf fw -> fw_state fw = Established -> fw_ptk fw = Some p ->
  key_frame b1 e1 f1 -> is_msg1 f1 -> is_u64 (replay_counter f1) ->
  fresh fw (replay_counter f1) -> key_nonce f1 = fw_anonce fw ->
  ki_version (key_info f1) (cfg_akm (fw_config fw)) = Ok v ->
  let fw1 := fst (poll fw (Frame b1)) in
  key_frame b3 e3 f3 -> is_pairwise_mic f3 -> is_u64 (replay_counter f3) ->
  fresh fw1 (replay_counter f3) -> msg3_valid fw1 e3 f3 p data gtk ->
  exists msg2 msg4,
    snd (run fw [Frame b1; Frame b3])
    = [Ok [Send msg2; ArmTimer RETRY_INTERVAL_MS];
       Ok [Send msg4; DisarmTimer; Complete {| keys_ptk := p; keys_gtk := gtk |}]].
Proof.
  intros Hw Hs Hp Hk1 Hm1 Hc1 Hf1 Hn Hv fw1 Hk3 Hm3 Hc3 Hf3 Hv3.
  pose proof (wf_ptk fw Hw p Hp) as Hd. rewrite <- Hn in Hd.
  destruct (poll_msg1 fw b1 e1 f1 v p Hw Hc1) as (m2 & _ & Hp1); try done; [by rewrite Hs|].
  unfold fw1 in *. rewrite Hp1 in *. cbn [fst] in *.
  edestruct (poll_msg3 (after_msg1 fw e1 f1 v p m2)) as (m4 & _ & Hp3);
    [exact Hc3|by left|exact Hk3|exact Hf3|exact Hm3|exact Hv3|].
  exists m2, m4. cbn [run]. rewrite Hp1, Hp3. reflexivity.
Qed.

(** Retransmission is bounded and ends the handshake: message 2 is sent
    again for as many timeouts as the limit leaves, octet for octet, and the
    next timeout aborts with [Timeout]. *)
Theorem retransmission_gives_up fw msg2 k :
  wf fw -> fw_state fw = AwaitingMsg3 -> fw_last_sent fw = Some msg2 ->
  k = Z.to_nat (RETRY_LIMIT - fw_retries fw) ->
  let '(fw', results) := run fw (replicate (S k) Timeout) in
  fw_state fw' = Failed
  /\ results = replicate k (Ok [Send msg2; ArmTimer RETRY_INTERVAL_MS]) ++ [Err ErrTimeout].
Proof.
  intros Hw Hs Hl Hk. revert fw Hw Hs Hl Hk. induction k as [|k IH]; intros fw Hw Hs Hl Hk.
  - destruct Hw as [_ _ _ _ _ Hr _ _]. cbn. unfold poll. cbn. unfold on_timeout. rewrite Hl.
    destruct (Z.leb_spec RETRY_LIMIT (fw_retries fw)); [done|lia].
  - pose proof (wf_retries fw Hw) as Hr.
    destruct (handle fw Timeout) as [[fw1 acts]| |] eqn:Hh;
      cbn [handle] in Hh; pose proof Hh as Hh'; unfold on_timeout in Hh; rewrite Hl in Hh;
      (destruct (Z.leb_spec RETRY_LIMIT (fw_retries fw)) as [Hle|Hle]; [lia|]); try done.
    pose proof (on_timeout_wf fw fw1 acts Hw Hh') as Hw1. injection Hh as <- <-.
    assert (wrap 8 (fw_retries fw + 1) = fw_retries fw + 1) as Hwr
      by (unfold wrap, RETRY_LIMIT in *; apply Z.mod_small; lia).
    rewrite Hwr in Hw1, Hh'.
    change (replicate (S (S k)) Timeout) with (Timeout :: replicate (S k) Timeout).
    cbn [run]. unfold poll at 1. cbn [handle]. rewrite Hh'.
    specialize (IH _ Hw1 Hs eq_refl). cbn [fw_retries] in IH.
    destruct (run _ _) as [fw2 rs]. destruct IH as [? ->]; [lia|]. done.
Qed.

(** After an error no frame is accepted again: whatever follows, every
    frame is answered by an error and no key is ever handed out. *)
Theorem failed_is_final fw inputs :
  fw_state fw = Failed ->
  let '(fw', results) := run fw inputs in
  fw_state fw' = Failed
  /\ forall i r, (i, r) ∈ zip inputs results ->
       match i with
       | Frame _ => r = Err UnexpectedMessage
       | Timeout => forall acts, r = Ok acts -> actions_keys acts = []
       end.
Proof.
  revert fw. induction inputs as [|i inputs IH]; intros fw Hs; cbn [run].
  { split; [done|]. cbn. set_solver. }
  assert (Hp : fw_state (fst (poll fw i)) = Failed /\ match i with
    | Frame _ => snd (poll fw i) = Err UnexpectedMessage
    | Timeout => forall acts, snd (poll fw i) = Ok acts -> actions_keys acts = [] end).
  { unfold poll. destruct i as [b|]; cbn [handle].
    - unfold on_frame. rewrite bool_decide_true by done. done.
    - destruct (on_timeout fw) as [[fw1 a]| |] eqn:Ht; [|done|done].
      apply on_timeout_shape in Ht as (Hs1 & _ & Ha). cbn. split; [congruence|].
      intros ? [= <-]. by destruct Ha as [-> | [? ->]]. }
  destruct (poll fw i) as [fw1 r]. cbn [fst snd] in Hp. destruct Hp as [Hs1 Hr].
  specialize (IH fw1 Hs1). destruct (run fw1 inputs) as [fw2 rs]. destruct IH as [Hs2 Hall].
  split; [done|]. cbn [zip]. intros j r' [Heq|Hin]%elem_of_cons; [|by apply Hall].
  injection Heq as -> ->. exact Hr.
Qed.

(** The refusal covers frames and not timeouts: an abort while message 2
    is outstanding leaves it outstanding, and a later timeout still
    retransmits it. *)
Theorem failed_still_retransmits fw b err fw' msg2 :
  fw_last_sent fw = Some msg2 -> fw_retries fw < RETRY_LIMIT ->
  poll fw (Frame b) = (fw', Err err) ->
  fw_state fw' = Failed
  /\ snd (poll fw' Timeout) = Ok [Send msg2; ArmTimer RETRY_INTERVAL_MS].
Proof.
  intros Hl Hr Hp. unfold poll in Hp. destruct (handle fw (Frame b)) as [[]| |]; [done| |done].
  injection Hp as <- _. split; [done|]. unfold poll. cbn [handle]. unfold on_timeout.
  cbn [set_state fw_last_sent fw_retries]. rewrite Hl.
  by destruct (Z.leb_spec RETRY_LIMIT (fw_retries fw)); [lia|].
Qed.
End rekeying.

(** ** Witnesses: one concrete session *)
Module Demo.
#[local] Existing Instance Toy.prims.
#[local] Existing Instance Toy.laws.

Definition rsn : bytes := [48; 4; 1; 0; 0; 15].
Definition config : Config :=
  {| cfg_akm := Psk; cfg_own_mac := [2; 0; 0; 0; 0; 1]; cfg_bssid := [2; 0; 0; 0; 0; 2];
     cfg_assoc_rsn_ie := rsn; cfg_beacon_rsn_ie := rsn |}.
Definition pmk : bytes := replicate 32 7.
Definition snonce : bytes := replicate 32 1.
Definition anonce : bytes := replicate 32 2.
Definition gtk : Gtk := {| gtk_key := replicate 16 9; gtk_index := 1 |}.
Definition ptk : Ptk :=
  match derive_ptk pmk Psk [2; 0; 0; 0; 0; 2] [2; 0; 0; 0; 0; 1] anonce snonce with
  | Ok p => p | _ => {| kck := []; kek := []; tk := [] |} end.
Definition data : bytes := rsn ++ kde OUI_IEEE KDE_GTK (gtk_data gtk) ++ [221; 0].
Definition wrapped : bytes := replicate 8 166 ++ data.
Definition get {E A} (d : A) (m : exec E A) : A := match m with Ok a => a | _ => d end.
Definition msg1 (c : Z) : bytes :=
  get [] (@KeyFrame_encode Eapol.Error (ap_msg1 HmacSha1 c anonce) 2).
Definition msg3 (c : Z) : bytes :=
  get [] (@KeyFrame_encode_signed _ Eapol.Error (ap_msg3 HmacSha1 c anonce wrapped) 2 (kck ptk) HmacSha1).

Definition start : FourWay := with_snonce pmk config snonce.
Definition after (inputs : list Input) : FourWay := fst (run start inputs).
Definition frame_of (b : bytes) : Eapol :=
  get {| eapol_version := 0; eapol_packet_type := PtEap; eapol_body := []; eapol_raw := [] |}
    (Eapol_parse b).
Definition key_of (b : bytes) : KeyFrame :=
  get (ap_msg1 HmacSha1 0 []) (KeyFrame_parse (eapol_body (frame_of b))).
End Demo.

Section witnesses.
#[local] Existing Instance Toy.prims.
#[local] Existing Instance Toy.laws.

Lemma fourway_never_panics_witness :
  let '(fw, results) := run (with_snonce Demo.pmk Demo.config Demo.snonce)
    [Timeout; Frame (Demo.msg1 1); Frame [1; 2; 3]; Timeout] in
  wf fw /\ Forall no_panic results.
Proof.
  apply (fourway_never_panics Demo.pmk Demo.config Demo.snonce
    [Timeout; Frame (Demo.msg1 1); Frame [1; 2; 3]; Timeout]);
    [by apply (bool_decide_unpack _); vm_compute|reflexivity|].
  by apply (bool_decide_unpack _); vm_compute.
Defined.

Lemma start_wf : wf Demo.start.
Proof. apply with_snonce_wf; [by apply (bool_decide_unpack _); vm_compute|reflexivity]. Qed.

Lemma after_wf inputs : bool_decide (Forall input_ok inputs) = true -> wf (Demo.after inputs).
Proof. intros Hi. apply run_wf; [apply start_wf|]. by apply bool_decide_eq_true in Hi. Qed.

Lemma demo_key_frame b :
  match Eapol_parse b, KeyFrame_parse (eapol_body (Demo.frame_of b)) with
  | Ok _, Ok f => bool_decide (eapol_packet_type (Demo.frame_of b) = PtKey)
      && (descriptor_type f =? DESCRIPTOR_TYPE_RSN) && ki_ack (key_info f)
      && negb (ki_request (key_info f))
  | _, _ => false
  end = true -> key_frame b (Demo.frame_of b) (Demo.key_of b).
Proof.
  intros Hc. unfold Demo.key_of, Demo.frame_of in *. destruct (Eapol_parse b) as [e| |] eqn:He; try done.
  cbn [Demo.get] in *. destruct (KeyFrame_parse (eapol_body e)) as [f| |] eqn:Hf; try done.
  cbn [Demo.get]. bool_prop. by split.
Qed.

Lemma complete_is_authenticated_witness :
  let fw := Demo.after [Frame (Demo.msg1 1)] in
  exists keys b e f data msg4,
    Frame (Demo.msg3 2) = Frame b /\ key_frame b e f /\ fw_state fw = AwaitingMsg3
    /\ fresh fw (replay_counter f)
    /\ msg3_valid fw e f (keys_ptk keys) data (keys_gtk keys)
    /\ derive_ptk (fw_pmk fw) (cfg_akm (fw_config fw)) (cfg_bssid (fw_config fw))
         (cfg_own_mac (fw_config fw)) (key_nonce f) (fw_snonce fw) = Ok (keys_ptk keys)
    /\ Gtk_wf (keys_gtk keys)
    /\ Demo.get [] (snd (poll fw (Frame (Demo.msg3 2)))) = [Send msg4; DisarmTimer; Complete keys].
Proof.
  exists {| keys_ptk := Demo.ptk; keys_gtk := Demo.gtk |}.
  apply (complete_is_authenticated (Demo.after [Frame (Demo.msg1 1)]) (Frame (Demo.msg3 2))
    (fst (poll (Demo.after [Frame (Demo.msg1 1)]) (Frame (Demo.msg3 2))))).
  - apply after_wf. vm_compute. reflexivity.
  - vm_compute. reflexivity.
  - apply (bool_decide_unpack _). vm_compute. exact I.
Defined.

Lemma no_frame_twice_witness :
  is_err (snd (poll (fst (run (Demo.after [Frame (Demo.msg1 1)]) [Timeout; Frame (Demo.msg3 2)]))
    (Frame (Demo.msg1 1)))) = true.
Proof.
  apply (no_frame_twice Demo.start (Demo.msg1 1) (Demo.after [Frame (Demo.msg1 1)])
    (hd DisarmTimer (Demo.get [] (snd (poll Demo.start (Frame (Demo.msg1 1))))))
    (tl (Demo.get [] (snd (poll Demo.start (Frame (Demo.msg1 1)))))) [Timeout; Frame (Demo.msg3 2)]).
  vm_compute. reflexivity.
Defined.

Lemma reinstall_needs_msg1_witness :
  exists b e f, Frame b ∈ [Frame (Demo.msg1 1); Frame (Demo.msg3 2)] /\ key_frame b e f /\ is_msg1 f.
Proof.
  apply (reinstall_needs_msg1 Demo.start [Frame (Demo.msg1 1); Frame (Demo.msg3 2)]
    (Demo.get [] (nth 1 (snd (run Demo.start [Frame (Demo.msg1 1); Frame (Demo.msg3 2)])) Panic))).
  - discriminate.
  - apply (bool_decide_unpack _). vm_compute. exact I.
  - vm_compute. discriminate.
Defined.

Lemma handshake_completes_witness :
  exists fw msg2 msg4,
    run (with_snonce Demo.pmk Demo.config Demo.snonce) [Frame (Demo.msg1 1); Frame (Demo.msg3 2)]
    = (fw, [Ok [Send msg2; ArmTimer RETRY_INTERVAL_MS];
            Ok [Send msg4; DisarmTimer; Complete {| keys_ptk := Demo.ptk; keys_gtk := Demo.gtk |}]])
    /\ fw_state fw = Established
    /\ peer_accepts (kck Demo.ptk) HmacSha1 msg2
         (reply (Z.lor (Z.lor (version_bits HmacSha1) KI_PAIRWISE) KI_MIC) 1 Demo.snonce Demo.rsn)
    /\ peer_accepts (kck Demo.ptk) HmacSha1 msg4
         (reply (Z.lor (Z.lor (Z.lor (version_bits HmacSha1) KI_PAIRWISE) KI_MIC) KI_SECURE) 2
            (replicate 32 0) []).
Proof.
  apply (handshake_completes Demo.pmk Demo.config Demo.snonce Demo.anonce HmacSha1 1 2 2 2
    Demo.ptk Demo.wrapped Demo.data Demo.gtk (Demo.msg1 1) (Demo.msg3 2));
    try reflexivity; try (vm_compute; reflexivity);
    apply (bool_decide_unpack _); vm_compute; exact I.
Defined.

Lemma msg1_rearms_same_key_witness :
  exists msg2 msg4,
    snd (run (Demo.after [Frame (Demo.msg1 1); Frame (Demo.msg3 2)])
           [Frame (Demo.msg1 3); Frame (Demo.msg3 4)])
    = [Ok [Send msg2; ArmTimer RETRY_INTERVAL_MS];
       Ok [Send msg4; DisarmTimer; Complete {| keys_ptk := Demo.ptk; keys_gtk := Demo.gtk |}]].
Proof.
  apply (msg1_rearms_same_key (Demo.after [Frame (Demo.msg1 1); Frame (Demo.msg3 2)]) Demo.ptk
    (Demo.msg1 3) (Demo.frame_of (Demo.msg1 3)) (Demo.key_of (Demo.msg1 3)) HmacSha1
    (Demo.msg3 4) (Demo.frame_of (Demo.msg3 4)) (Demo.key_of (Demo.msg3 4)) Demo.data Demo.gtk);
    try (vm_compute; reflexivity).
  - apply after_wf. vm_compute. reflexivity.
  - apply demo_key_frame. vm_compute. reflexivity.
  - split; vm_compute; reflexivity.
  - apply (bool_decide_unpack _). vm_compute. exact I.
  - apply demo_key_frame. vm_compute. reflexivity.
  - split; vm_compute; reflexivity.
  - apply (bool_decide_unpack _). vm_compute. exact I.
  - split; [split|..]; vm_compute; reflexivity.
Defined.

Lemma retransmission_gives_up_witness :
  let '(fw', results) := run (Demo.after [Frame (Demo.msg1 1); Timeout]) (replicate 3 Timeout) in
  fw_state fw' = Failed
  /\ results = replicate 2 (Ok [Send (default [] (fw_last_sent (Demo.after [Frame (Demo.msg1 1); Timeout])));
                                ArmTimer RETRY_INTERVAL_MS]) ++ [Err ErrTimeout].
Proof.
  apply (retransmission_gives_up (Demo.after [Frame (Demo.msg1 1); Timeout])
    (default [] (fw_last_sent (Demo.after [Frame (Demo.msg1 1); Timeout]))) 2).
  - apply after_wf. vm_compute. reflexivity.
  - vm_compute. reflexivity.
  - vm_compute. reflexivity.
  - vm_compute. reflexivity.
Defined.

Lemma failed_is_final_witness :
  let '(fw', results) := run (Demo.after [Frame (Demo.msg1 1); Frame (Demo.msg1 1)])
                           [Frame (Demo.msg3 2); Timeout] in
  fw_state fw' = Failed
  /\ forall i r, (i, r) ∈ zip [Frame (Demo.msg3 2); Timeout] results ->
       match i with
       | Frame _ => r = Err UnexpectedMessage
       | Timeout => forall acts, r = Ok acts -> actions_keys acts = []
       end.
Proof. apply failed_is_final. vm_compute. reflexivity. Defined.

Lemma failed_still_retransmits_witness :
  let fw' := Demo.after [Frame (Demo.msg1 1); Frame (Demo.msg1 1)] in
  fw_state fw' = Failed
  /\ snd (poll fw' Timeout)
     = Ok [Send (default [] (fw_last_sent (Demo.after [Frame (Demo.msg1 1)])));
           ArmTimer RETRY_INTERVAL_MS].
Proof.
  apply (failed_still_retransmits (Demo.after [Frame (Demo.msg1 1)]) (Demo.msg1 1) ReplayedCounter);
    vm_compute; reflexivity.
Defined.
End witnesses.
