(* ===== verification/Dot1x.v ===== *)
(** * 802.1X: the provider that turns an EAP conversation into a PMK

    The crate [caw-eapol]: the trait [EapMethod] (lib.rs), [Dot1xProvider]
    (eap/dot1x.rs) and the error mapping (eap/mod.rs).  The provider is generic
    in its method: [EapMethod] is the interface, [EapMethodSafe] what is relied
    on to show that nothing panics.  The provider is itself a [PmkProvider], so
    every theorem about a connection holds of one that authenticates by 802.1X. *)
From S2P Require Import Prelude Bytes Dot11 Crypto Eapol Calls Eap FourWay.

(** ** Interface *)

(** [trait EapMethod] *)
Class EapMethod (M : Type) := {
  type_code : M -> Z;
  em_on_request : bytes -> call M Eapol.Error (option bytes);
  msk : M -> option bytes;
}.

(** The longest Type-Data whose packet and frame fit their 16-bit lengths. *)
Definition MAX_TYPE_DATA : Z := 2 ^ 16 - 6.

(** What the provider relies on to be free of panics: an invariant the method
    keeps, under which it does not panic and its answers fit a packet. *)
Class EapMethodSafe (M : Type) `{EapMethod M} := {
  em_ok : M -> Prop;
  em_on_request_safe d m : em_ok m ->
    after (em_on_request d) m (fun m' r => em_ok m' /\
      match r with Ok (Some td) => len td <= MAX_TYPE_DATA | Panic => False | _ => True end);
}.

(** ** mod.rs *)

(** [impl From<crate::Error> for caw_crypto::Error] *)
Definition into_crypto (e : Eapol.Error) : Crypto.Error :=
  match e with
  | ErrCrypto inner => inner
  | Rejected | PrematureSuccess | ErrTimeout => AuthFailed
  | Malformed | FragmentOutOfOrder | FragmentTooLarge | UnsupportedPacketType _
  | UnsupportedEapCode _ | UnsupportedDescriptor _ => ErrMalformed
  | ErrTls _ | NoCryptoProvider | CertificateStore _ => AuthFailed
  | _ => Protocol
  end.

(** ** dot1x.rs *)

Definition pmk_from_msk (msk : bytes) : Pmk := take 32 msk.

Inductive DxState := Running | DxDone | DxFailed.
#[export] Instance DxState_eq_dec : EqDecision DxState.
Proof. solve_decision. Defined.

Record Dot1xProvider (M : Type) := {
  identity : bytes;
  method : M;
  dx_state : DxState;
  last_response : option bytes;
  answered : option Z;
  protocol_version : Z;
  idle_rounds : Z;
}.
Arguments identity {_}. Arguments method {_}. Arguments dx_state {_}. Arguments last_response {_}.
Arguments answered {_}. Arguments protocol_version {_}. Arguments idle_rounds {_}.

Section provider.
Context {M : Type} `{EapMethod M}.

Definition Dot1x_new (identity : bytes) (method : M) : Dot1xProvider M :=
  {| identity := identity; method := method; dx_state := Running; last_response := None;
     answered := None; protocol_version := 2; idle_rounds := 0 |}.

Definition Dot1x_method_type (dx : Dot1xProvider M) : Z := type_code (method dx).

Definition Dot1x_eapol_start (dx : Dot1xProvider M) : exec Eapol.Error bytes :=
  Eapol_encode (protocol_version dx) PtStart [].

Definition dx_set_method (m : M) (dx : Dot1xProvider M) : Dot1xProvider M :=
  {| identity := identity dx; method := m; dx_state := dx_state dx;
     last_response := last_response dx; answered := answered dx;
     protocol_version := protocol_version dx; idle_rounds := idle_rounds dx |}.
Definition dx_set_state (s : DxState) (dx : Dot1xProvider M) : Dot1xProvider M :=
  {| identity := identity dx; method := method dx; dx_state := s;
     last_response := last_response dx; answered := answered dx;
     protocol_version := protocol_version dx; idle_rounds := idle_rounds dx |}.
Definition dx_set_last (f : option bytes) (dx : Dot1xProvider M) : Dot1xProvider M :=
  {| identity := identity dx; method := method dx; dx_state := dx_state dx;
     last_response := f; answered := answered dx;
     protocol_version := protocol_version dx; idle_rounds := idle_rounds dx |}.
Definition dx_set_answered (id : option Z) (dx : Dot1xProvider M) : Dot1xProvider M :=
  {| identity := identity dx; method := method dx; dx_state := dx_state dx;
     last_response := last_response dx; answered := id;
     protocol_version := protocol_version dx; idle_rounds := idle_rounds dx |}.
Definition dx_set_version (v : Z) (dx : Dot1xProvider M) : Dot1xProvider M :=
  {| identity := identity dx; method := method dx; dx_state := dx_state dx;
     last_response := last_response dx; answered := answered dx;
     protocol_version := v; idle_rounds := idle_rounds dx |}.
Definition dx_set_idle (n : Z) (dx : Dot1xProvider M) : Dot1xProvider M :=
  {| identity := identity dx; method := method dx; dx_state := dx_state dx;
     last_response := last_response dx; answered := answered dx;
     protocol_version := protocol_version dx; idle_rounds := n |}.

Notation dx_call := (call (Dot1xProvider M) Eapol.Error).

Definition Dot1x_reply (identifier : Z) (packet : bytes) : dx_call Step :=
  dx ← self;
  frame ← lift (Eapol_encode (protocol_version dx) PtEap packet);
  _ ← update (dx_set_last (Some frame));
  _ ← update (dx_set_answered (Some identifier));
  _ ← update (dx_set_idle 0);
  mret (Crypto.Send frame).

Definition Dot1x_on_request (request : EapPacket) : dx_call Step :=
  requested ← lift (ok_or Malformed (EapPacket_eap_type request));
  dx ← self;
  let id := eap_identifier request in
  if requested =? eap_type.IDENTITY then
    packet ← lift (EapPacket_response id eap_type.IDENTITY (identity dx));
    Dot1x_reply id packet
  else if requested =? eap_type.NOTIFICATION then
    packet ← lift (EapPacket_response id eap_type.NOTIFICATION []);
    Dot1x_reply id packet
  else if negb (requested =? type_code (method dx)) then
    packet ← lift (EapPacket_nak id [type_code (method dx)]);
    Dot1x_reply id packet
  else
    answer ← zoom method dx_set_method (em_on_request (EapPacket_type_data request));
    match answer with
    | Some type_data =>
        packet ← lift (EapPacket_response id requested type_data);
        Dot1x_reply id packet
    | None => mret Crypto.Wait
    end.

Definition Dot1x_on_eap (packet : EapPacket) : dx_call Step :=
  dx ← self;
  match eap_code packet with
  | Response => mret Crypto.Wait
  | Request =>
      match (if bool_decide (answered dx = Some (eap_identifier packet)) then last_response dx else None) with
      | Some frame => _ ← update (dx_set_idle 0); mret (Crypto.Send frame)
      | None => Dot1x_on_request packet
      end
  | Success =>
      msk ← lift (ok_or PrematureSuccess (msk (method dx)));
      _ ← update (dx_set_state DxDone);
      _ ← update (dx_set_last None);
      mret (Crypto.Done (pmk_from_msk msk))
  | Failure => throw Rejected
  end.

(** The closure of [on_frame]. *)
Definition Dot1x_frame (frame : bytes) : dx_call Step :=
  eapol ← lift (Eapol_parse frame);
  if negb (bool_decide (eapol_packet_type eapol = PtEap)) then mret Crypto.Wait else
  dx ← self;
  _ ← throw_if (negb (bool_decide (dx_state dx = Running))) UnexpectedMessage;
  _ ← update (dx_set_version (eapol_version eapol));
  if bool_decide (length (eapol_body eapol) < EAP_HDR_LEN)%nat then mret Crypto.Wait else
  packet ← lift (EapPacket_parse (eapol_body eapol));
  Dot1x_on_eap packet.

Definition Dot1x_on_frame (frame : bytes) (dx : Dot1xProvider M)
  : Dot1xProvider M * exec Crypto.Error Step :=
  let (dx, result) := Dot1x_frame frame dx in
  (if is_err result then dx_set_state DxFailed dx else dx, map_err into_crypto result).

Definition Dot1x_timeout : dx_call Step :=
  dx ← self;
  _ ← throw_if (negb (bool_decide (dx_state dx = Running))) UnexpectedMessage;
  _ ← update (dx_set_idle (wrap 8 (idle_rounds dx + 1)));
  dx ← self;
  if RETRY_LIMIT <? idle_rounds dx
  then _ ← update (dx_set_state DxFailed); throw ErrTimeout
  else mret Crypto.Wait.

Definition Dot1x_on_timeout (dx : Dot1xProvider M) : Dot1xProvider M * exec Crypto.Error Step :=
  let (dx, result) := Dot1x_timeout dx in (dx, map_err into_crypto result).

#[global] Instance Dot1x_provider : PmkProvider (Dot1xProvider M) := {
  pp_stage _ := PostAssoc;
  pp_start dx _ := (dx, Ok Crypto.Wait);
  pp_on_frame dx _ frame := Dot1x_on_frame frame dx;
  pp_on_timeout dx _ := Dot1x_on_timeout dx;
}.
End provider.

(** ** What a step changes *)

Section steps.
Context {M : Type} `{EapMethod M}.
Implicit Types dx : Dot1xProvider M.

(** A request changes neither the state nor the identity, never ends the
    conversation, and what is sent is what a duplicate will be answered with. *)
Lemma on_request_outcome p dx :
  after (Dot1x_on_request p) dx (fun dx' r =>
    dx_state dx' = dx_state dx /\ identity dx' = identity dx /\
    (idle_rounds dx' = idle_rounds dx \/ idle_rounds dx' = 0) /\
    match r with
    | Ok (Crypto.Done _) => False
    | Ok (Crypto.Send f) => last_response dx' = Some f /\ answered dx' = Some (eap_identifier p)
    | _ => True
    end).
Proof. unfold Dot1x_on_request, Dot1x_reply. run_call; split_and!; try done; auto. Qed.

(** What is needed for a key to come out. *)
Definition keyed_by dx (p : EapPacket) (pmk : Pmk) : Prop :=
  eap_code p = Success /\ exists k, msk (method dx) = Some k /\ pmk = pmk_from_msk k.

Lemma on_eap_outcome p dx :
  after (Dot1x_on_eap p) dx (fun dx' r =>
    identity dx' = identity dx /\
    (idle_rounds dx' = idle_rounds dx \/ idle_rounds dx' = 0) /\
    match r with
    | Ok (Crypto.Done pmk) => dx_state dx' = DxDone /\ method dx' = method dx /\ keyed_by dx p pmk
    | Ok (Crypto.Send f) =>
        dx_state dx' = dx_state dx /\ last_response dx' = Some f
        /\ answered dx' = Some (eap_identifier p) /\ eap_code p = Request
    | _ => dx_state dx' = dx_state dx
    end).
Proof.
  unfold Dot1x_on_eap. apply after_self. destruct (eap_code p) eqn:Hc.
  - destruct (if bool_decide _ then _ else _) as [f|] eqn:Hd.
    + case_bool_decide; [|done]. apply after_update, after_ret. cbn. split_and!; auto.
    + eapply after_mono; [apply on_request_outcome|]. intros dx' r (Hs & Hi & Hidle & Hr).
      split_and!; [done|done|]. by destruct r as [[f| |]| |]; try done; destruct Hr.
  - apply after_ret. auto.
  - run_call; unfold keyed_by; split_and!; eauto.
    match goal with Hk : ok_or _ _ = Ok _ |- _ => apply ok_or_ok in Hk; eauto end.
- unfold after, throw. cbn. auto.
Qed.

(** What an arriving frame does, on every branch. *)
Lemma Dot1x_frame_outcome frame dx :
  after (Dot1x_frame frame) dx (fun dx' r =>
    identity dx' = identity dx /\
    (idle_rounds dx' = idle_rounds dx \/ idle_rounds dx' = 0) /\
    match r with
    | Ok (Crypto.Done pmk) =>
        dx_state dx = Running /\ dx_state dx' = DxDone /\ method dx' = method dx /\
        exists e p, Eapol_parse frame = Ok e /\ eapol_packet_type e = PtEap
                    /\ EapPacket_parse (eapol_body e) = Ok p /\ keyed_by dx p pmk
    | Ok (Crypto.Send f) => dx_state dx = Running /\ dx_state dx' = Running /\ last_response dx' = Some f
    | _ => dx_state dx' = dx_state dx
    end).
Proof.
  unfold Dot1x_frame. apply after_lift_bind. destruct (Eapol_parse frame) as [e| |]; cbn; auto.
  case_bool_decide as He; cbn [negb]; [|apply after_ret; auto].
  apply after_self, after_throw_if; [auto|]. intros Hs. bool_prop.
  apply after_update. case_bool_decide; [apply after_ret; auto|].
  apply after_lift_bind. destruct (EapPacket_parse (eapol_body e)) as [p| |] eqn:Hp; cbn; auto.
  eapply after_mono; [apply on_eap_outcome|]. cbn. intros dx' r (Hi & Hidle & Hr).
  split_and!; [done|done|]. destruct r as [[f| |pmk]| |]; try done.
  - destruct Hr as (-> & ? & _). by rewrite Hs.
  - destruct Hr as (? & ? & Hk). split_and!; try done. exists e, p. by split_and!.
Qed.

Lemma is_err_map_err {E F A} (f : E -> F) (m : exec E A) : is_err (map_err f m) = is_err m.
Proof. by destruct m. Qed.

Lemma Dot1x_timeout_outcome dx :
  dx_state dx = Running -> 0 <= idle_rounds dx <= RETRY_LIMIT ->
  Dot1x_on_timeout dx
  = if idle_rounds dx =? RETRY_LIMIT
    then (dx_set_state DxFailed (dx_set_idle (RETRY_LIMIT + 1) dx), Err AuthFailed)
    else (dx_set_idle (idle_rounds dx + 1) dx, Ok Crypto.Wait).
Proof.
  intros Hs Hi. unfold Dot1x_on_timeout, Dot1x_timeout, mbind, call_bind, self, throw_if, update, throw.
  rewrite Hs. cbn [bool_decide negb]. rewrite bool_decide_true by done. cbn [negb mret call_ret].
  unfold mret, call_ret. unfold wrap. rewrite Z.mod_small by (unfold RETRY_LIMIT in Hi; lia). cbn [idle_rounds dx_set_idle].
  destruct (Z.eqb_spec (idle_rounds dx) RETRY_LIMIT) as [->|].
  - done.
  - by rewrite (proj2 (Z.ltb_ge _ _)) by lia.
Qed.

(** ** Conversations *)

Inductive DxInput := InFrame (frame : bytes) | InTimeout.

Definition Dot1x_input (i : DxInput) dx : Dot1xProvider M * exec Crypto.Error Step :=
  match i with InFrame frame => Dot1x_on_frame frame dx | InTimeout => Dot1x_on_timeout dx end.

Fixpoint Dot1x_run (ins : list DxInput) dx : Dot1xProvider M * list (exec Crypto.Error Step) :=
  match ins with
  | [] => (dx, [])
  | i :: ins =>
      let (dx, r) := Dot1x_input i dx in
      let (dx, rs) := Dot1x_run ins dx in (dx, r :: rs)
  end.

(** Results that mean something to the caller. *)
Definition hands_out (r : exec Crypto.Error Step) : bool :=
  match r with Ok (Crypto.Done _) => true | _ => false end.
Definition speaks (r : exec Crypto.Error Step) : bool :=
  match r with Ok (Crypto.Done _) | Ok (Crypto.Send _) => true | _ => false end.

Lemma input_outcome i dx :
  after (Dot1x_input i) dx (fun dx' r =>
    match r with
    | Ok (Crypto.Done _) => dx_state dx = Running /\ dx_state dx' = DxDone
    | Ok (Crypto.Send _) => dx_state dx = Running /\ dx_state dx' = Running
    | Ok Crypto.Wait => dx_state dx' = dx_state dx
    | _ => dx_state dx <> Running -> dx_state dx' <> Running
    end).
Proof.
  unfold after. destruct i as [frame|]; cbn [Dot1x_input].
  - unfold Dot1x_on_frame. destruct (Dot1x_frame frame dx) as [dx' r] eqn:Hf.
    pose proof (after_eq _ _ _ _ _ (Dot1x_frame_outcome frame dx) Hf) as (_ & _ & Hr).
    destruct r as [[]| |]; cbn in *; try naive_solver. by rewrite Hr.
  - unfold Dot1x_on_timeout, Dot1x_timeout. run_call; naive_solver.
Qed.

(** A conversation that ended says nothing more. *)
Lemma ended_is_silent ins dx :
  dx_state dx <> Running -> Forall (fun r => speaks r = false) (snd (Dot1x_run ins dx)).
Proof.
  revert dx. induction ins as [|i ins IH]; intros dx Hs; cbn [Dot1x_run]; [constructor|].
  destruct (Dot1x_input i dx) as [dx1 r] eqn:Hi.
  pose proof (after_eq _ _ _ _ _ (input_outcome i dx) Hi) as Hr. cbn in Hr.
  assert (speaks r = false /\ dx_state dx1 <> Running) as [Hq Hs1].
  { destruct r as [[]| |]; cbn in *; try naive_solver. by rewrite Hr. }
  specialize (IH dx1 Hs1). destruct (Dot1x_run ins dx1) as [dx2 rs]. cbn in *. by constructor.
Qed.

(** The count of silent rounds never passes its bound while running. *)
Definition idle_ok dx : Prop := dx_state dx = Running -> 0 <= idle_rounds dx <= RETRY_LIMIT.

Lemma input_idle_ok i dx : idle_ok dx -> idle_ok (fst (Dot1x_input i dx)).
Proof.
  unfold idle_ok. intros Hok. destruct i as [frame|]; cbn [Dot1x_input].
  - unfold Dot1x_on_frame. destruct (Dot1x_frame frame dx) as [dx' r] eqn:Hf.
    pose proof (after_eq _ _ _ _ _ (Dot1x_frame_outcome frame dx) Hf) as (_ & Hi & Hr).
    assert (dx_state dx' = Running -> 0 <= idle_rounds dx' <= RETRY_LIMIT).
    { intros Hs. destruct Hi as [->| ->]; [|unfold RETRY_LIMIT; lia].
      apply Hok. destruct r as [[]| |]; cbn in Hr; intuition congruence. }
    by destruct r as [[]| |].
  - destruct (decide (dx_state dx = Running)) as [Hs|Hs].
    + rewrite Dot1x_timeout_outcome by auto. specialize (Hok Hs).
      destruct (Z.eqb_spec (idle_rounds dx) RETRY_LIMIT); cbn; [done|lia].
    + unfold Dot1x_on_timeout, Dot1x_timeout, mbind, call_bind, self, throw_if, throw.
      rewrite bool_decide_false by done. cbn. done.
Qed.

Lemma run_idle_ok ins dx : idle_ok dx -> idle_ok (fst (Dot1x_run ins dx)).
Proof.
  revert dx. induction ins as [|i ins IH]; intros dx Hok; cbn [Dot1x_run]; [done|].
  pose proof (input_idle_ok i dx Hok) as Hi. destruct (Dot1x_input i dx) as [dx1 r].
  specialize (IH dx1 Hi). by destruct (Dot1x_run ins dx1).
Qed.
End steps.

(** ** Freedom from panics *)

Section safe.
Context {M : Type} `{EapMethodSafe M}.
Implicit Types dx : Dot1xProvider M.

Definition dx_ok dx : Prop := len (identity dx) <= MAX_TYPE_DATA /\ em_ok (method dx).

(** [after] for a call that cannot panic and keeps [dx_ok]. *)
Definition sound {A} dx (m : call (Dot1xProvider M) Eapol.Error A) : Prop :=
  after m dx (fun dx' r => dx_ok dx' /\ no_panic r).

Lemma response_Ok id ty td :
  len td <= MAX_TYPE_DATA ->
  exists w, @EapPacket_response Eapol.Error id ty td = Ok w
    /\ w = [2; id] ++ be_encode 2 (5 + len td) ++ ty :: td /\ len w = 5 + len td.
Proof.
  intros Ht. unfold MAX_TYPE_DATA, EapPacket_response in *.
  assert (Z.of_nat EAP_HDR_LEN + len (ty :: td) = 5 + len td) as Hl
    by (unfold EAP_HDR_LEN, len; cbn [length]; lia).
  eexists. split; [|split; [reflexivity|]].
  - apply EapPacket_encode_eq. rewrite Hl. split; [lia|done].
  - unfold len. rewrite !length_app, length_be_encode. cbn [length]. lia.
Qed.

Lemma reply_sound id td ty dx :
  dx_ok dx -> len td <= MAX_TYPE_DATA ->
  sound dx (p ← lift (EapPacket_response id ty td); Dot1x_reply id p).
Proof.
  intros Hok Ht. destruct (response_Ok id ty td Ht) as (w & Hw & _ & Hl).
  apply after_lift_bind. rewrite Hw. cbn. unfold Dot1x_reply. apply after_self, after_lift_bind.
  unfold Eapol_encode, expect_u16. rewrite (proj2 (Z.ltb_lt _ _)) by (unfold MAX_TYPE_DATA in Ht; lia).
  done.
Qed.

Lemma on_request_sound p dx : dx_ok dx -> sound dx (Dot1x_on_request p).
Proof.
  intros Hok. unfold Dot1x_on_request. apply after_lift_bind.
  destruct (EapPacket_eap_type p) as [ty|]; cbn; [|done]. apply after_self.
  destruct (ty =? _); [apply reply_sound; [done|apply Hok]|].
  destruct (ty =? _); [by apply reply_sound|].
  destruct (negb _).
  - unfold EapPacket_nak. by apply reply_sound.
  - apply after_bind, after_zoom. eapply after_mono; [apply em_on_request_safe, Hok|].
    intros m' r [Hm Hr]. destruct Hok as [Hid _].
    destruct r as [[td|]| |]; cbn [and_then]; try done.
    by apply reply_sound.
Qed.

Lemma Dot1x_frame_sound frame dx : dx_ok dx -> sound dx (Dot1x_frame frame).
Proof.
  intros Hok. unfold Dot1x_frame. apply after_lift_bind.
  pose proof (Eapol_parse_no_panic frame) as Hp. destruct (Eapol_parse frame) as [e| |]; try done. cbn.
  case_bool_decide; [|done]. cbn [negb]. apply after_self, after_throw_if; [done|]. intros _.
  apply after_update. case_bool_decide; [done|]. apply after_lift_bind.
  pose proof (EapPacket_parse_no_panic (eapol_body e)) as Hq.
  destruct (EapPacket_parse _) as [p| |]; try done. cbn.
  unfold Dot1x_on_eap. apply after_self. destruct (eap_code p); [|done| |done].
  - destruct (if bool_decide _ then _ else _); [done|]. by apply on_request_sound.
  - apply after_lift_bind. by destruct (msk _).
Qed.

Lemma Dot1x_input_sound i dx :
  dx_ok dx -> dx_ok (fst (Dot1x_input i dx)) /\ no_panic (snd (Dot1x_input i dx)).
Proof.
  intros Hok. destruct i as [frame|]; cbn [Dot1x_input].
  - unfold Dot1x_on_frame. pose proof (Dot1x_frame_sound frame dx Hok) as [Hs Hn].
    destruct (Dot1x_frame frame dx) as [dx' r]. by destruct r.
  - unfold Dot1x_on_timeout, Dot1x_timeout. run_call; done.
Qed.

Lemma Dot1x_run_sound ins dx :
  dx_ok dx -> dx_ok (fst (Dot1x_run ins dx)) /\ Forall no_panic (snd (Dot1x_run ins dx)).
Proof.
  revert dx. induction ins as [|i ins IH]; intros dx Hok; cbn [Dot1x_run]; [done|].
  destruct (Dot1x_input_sound i dx Hok) as [Hs Hn]. destruct (Dot1x_input i dx) as [dx1 r].
  destruct (IH dx1 Hs) as [? ?]. destruct (Dot1x_run ins dx1) as [dx2 rs]. cbn in *. auto.
Qed.

(** A provider together with what keeps it free of panics is a provider that
    is safe: the interface the connection asks for. *)
Definition SafeDot1x : Type := { dx : Dot1xProvider M | dx_ok dx }.

Definition safe_input (i : DxInput) (p : SafeDot1x) : SafeDot1x * exec Crypto.Error Step :=
  (exist _ (fst (Dot1x_input i (proj1_sig p))) (proj1 (Dot1x_input_sound i _ (proj2_sig p))),
   snd (Dot1x_input i (proj1_sig p))).

#[global] Instance SafeDot1x_provider : PmkProvider SafeDot1x := {
  pp_stage p := pp_stage (proj1_sig p);
  pp_start p _ := (p, Ok Crypto.Wait);
  pp_on_frame p _ frame := safe_input (InFrame frame) p;
  pp_on_timeout p _ := safe_input InTimeout p;
}.

#[global] Instance SafeDot1x_safe : PmkProviderSafe SafeDot1x.
Proof. split; intros; [done| |]; apply Dot1x_input_sound, proj2_sig. Qed.
End safe.

(** ** Properties *)

(** The identifier of the EAP Request a frame carries. *)
Definition eap_request (frame : bytes) : option Z :=
  e ← to_option (Eapol_parse frame);
  if bool_decide (eapol_packet_type e = PtEap) then
    p ← to_option (EapPacket_parse (eapol_body e));
    if bool_decide (eap_code p = Request) then Some (eap_identifier p) else None
  else None.

(** The answer to a request that is not the method's own. *)
Definition outer_answer {M} `{EapMethod M} (dx : Dot1xProvider M) (ty : Z) : bytes :=
  if ty =? eap_type.IDENTITY then eap_type.IDENTITY :: identity dx
  else if ty =? eap_type.NOTIFICATION then [eap_type.NOTIFICATION]
  else [eap_type.NAK; type_code (method dx)].

(** A method with a fixed answer and a fixed key. *)
Module Demo.
Definition fixed : Type := option bytes.
#[export] Instance fixed_method : EapMethod fixed := {
  type_code _ := eap_type.PEAP;
  em_on_request _ m := (m, Ok (Some [111; 107]));
  msk m := m;
}.
#[export] Instance fixed_safe : EapMethodSafe fixed.
Proof. by refine {| em_ok _ := True |}. Defined.

Definition key : bytes := replicate 64 7.
Definition provider : Dot1xProvider fixed := Dot1x_new [97; 110; 111; 110] (Some key).
Definition eap_frame (code id : Z) (data : bytes) : bytes :=
  [2; 0] ++ be_encode 2 (4 + len data) ++ [code; id] ++ be_encode 2 (4 + len data) ++ data.
End Demo.
Import Demo.

Section properties.
Context {M : Type} `{EapMethod M}.
Implicit Types dx : Dot1xProvider M.

(** Whatever is sent is remembered as the answer to the request it answers. *)
Lemma sent_answers frame dx dx1 f :
  Dot1x_on_frame frame dx = (dx1, Ok (Crypto.Send f)) ->
  exists id, eap_request frame = Some id /\ dx_state dx1 = Running
    /\ answered dx1 = Some id /\ last_response dx1 = Some f.
Proof.
  unfold Dot1x_on_frame, Dot1x_frame, eap_request. unfold mbind at 1, call_bind at 1, lift at 1.
  destruct (Eapol_parse frame) as [e| |]; [|done|done]. cbn [to_option mbind option_bind].
  case_bool_decide; cbn [negb]; [|done].
  unfold mbind at 1, call_bind at 1, self at 1.
  unfold mbind at 1, call_bind at 1, throw_if. case_bool_decide as Hs; cbn [negb]; [|done].
  unfold mret at 1, call_ret at 1. unfold mbind at 1, call_bind at 1, update at 1.
  case_bool_decide; [done|]. unfold mbind at 1, call_bind at 1, lift at 1.
  destruct (EapPacket_parse (eapol_body e)) as [p| |]; [|done|done].
  set (dx0 := dx_set_version _ dx). destruct (Dot1x_on_eap p dx0) as [dx' r] eqn:Hp.
  pose proof (after_eq _ _ _ _ _ (on_eap_outcome p dx0) Hp) as (_ & _ & Hr). cbn in Hr.
  destruct r as [[f'| |]| |]; cbn; intros [=]; subst.
  destruct Hr as (Hst & Hl & Ha & Hc). exists (eap_identifier p). cbn.
  rewrite bool_decide_true by done. by rewrite Hst.
Qed.

(** A frame that repeats a request already answered. *)
Lemma repeat_replays frame dx id f :
  eap_request frame = Some id -> dx_state dx = Running ->
  answered dx = Some id -> last_response dx = Some f ->
  exists v, Dot1x_on_frame frame dx
            = (dx_set_idle 0 (dx_set_version v dx), Ok (Crypto.Send f)).
Proof.
  unfold eap_request, Dot1x_on_frame, Dot1x_frame. intros Hq Hs Ha Hl.
  unfold mbind at 1, call_bind at 1, lift at 1.
  destruct (Eapol_parse frame) as [e| |]; [|done|done]. cbn [to_option mbind option_bind] in Hq.
  case_bool_decide; [|done]. cbn [negb].
  unfold mbind at 1, call_bind at 1, self at 1.
  unfold mbind at 1, call_bind at 1, throw_if. rewrite bool_decide_true by done. cbn [negb].
  unfold mret at 1, call_ret at 1. unfold mbind at 1, call_bind at 1, update at 1.
  exists (eapol_version e).
  destruct (EapPacket_parse (eapol_body e)) as [p| |] eqn:Hp; [|done|done]. cbn in Hq.
  case_bool_decide as Hc; [|done]. injection Hq as <-.
  assert (~ (length (eapol_body e) < EAP_HDR_LEN)%nat) as Hlen.
  { unfold EAP_HDR_LEN. destruct (eapol_body e) as [|? [|? [|? [|? ?]]]]; try done. cbn. lia. }
  rewrite bool_decide_false by done. unfold mbind at 1, call_bind at 1, lift at 1.
  unfold Dot1x_on_eap, mbind, call_bind, self, update. rewrite Hc. cbn [answered last_response dx_set_version].
  rewrite bool_decide_true by done. rewrite Hl. done.
Qed.

(** C15. A PMK comes out only while the conversation is running, only on an
    EAP-Success, and only if the method already holds an MSK, whose first 32
    octets it is: an EAP-Success on its own, which anyone can send, proves
    nothing.  Nothing is sent or handed out afterwards, whatever arrives. *)
Theorem pmk_only_from_the_method frame dx dx' pmk ins :
  Dot1x_on_frame frame dx = (dx', Ok (Crypto.Done pmk)) ->
  dx_state dx = Running
  /\ (exists e p, Eapol_parse frame = Ok e /\ eapol_packet_type e = PtEap
                  /\ EapPacket_parse (eapol_body e) = Ok p /\ eap_code p = Success)
  /\ (exists k, msk (method dx) = Some k /\ pmk = take 32 k)
  /\ Forall (fun r => speaks r = false) (snd (Dot1x_run ins dx')).
Proof.
  unfold Dot1x_on_frame. destruct (Dot1x_frame frame dx) as [dx1 r] eqn:Hf.
  pose proof (after_eq _ _ _ _ _ (Dot1x_frame_outcome frame dx) Hf) as (_ & _ & Hr).
  destruct r as [[]| |]; cbn; intros [=]; subst.
  destruct Hr as (Hs & Hs' & _ & e & p & He & Ht & Hp & Hc & k & Hk & ->).
  split_and!; [done|by exists e, p|by exists k|]. apply ended_is_silent. by rewrite Hs'.
Qed.

(** A repeated request is answered with the very frame that answered it the
    first time, and the method does not see it: whatever else the repeat
    carries, only its identifier counts. *)
Theorem duplicate_is_replayed frame1 dx dx1 f :
  Dot1x_on_frame frame1 dx = (dx1, Ok (Crypto.Send f)) ->
  exists id, eap_request frame1 = Some id /\
    forall frame2, eap_request frame2 = Some id ->
    exists dx2, Dot1x_on_frame frame2 dx1 = (dx2, Ok (Crypto.Send f))
                /\ method dx2 = method dx1 /\ answered dx2 = Some id.
Proof.
  intros (id & Hq & Hs & Ha & Hl)%sent_answers. exists id. split; [done|].
  intros frame2 H2. destruct (repeat_replays frame2 dx1 id f H2 Hs Ha Hl) as [v Hv].
  eexists. split; [exact Hv|]. done.
Qed.

(** However the conversation went so far, silence ends it: after at most
    three silent rounds the next one is a failed authentication. *)
Theorem silence_ends_it ins identity m :
  let dx := fst (Dot1x_run ins (Dot1x_new identity m)) in
  dx_state dx = Running ->
  exists n, 0 <= Z.of_nat n <= RETRY_LIMIT
    /\ snd (Dot1x_run (replicate (S n) InTimeout) dx)
       = replicate n (Ok Crypto.Wait) ++ [Err AuthFailed]
    /\ dx_state (fst (Dot1x_run (replicate (S n) InTimeout) dx)) = DxFailed.
Proof.
  intros dx Hs. assert (idle_ok dx) as Hok.
  { apply run_idle_ok. intros _. unfold RETRY_LIMIT. cbn. lia. }
  clearbody dx. specialize (Hok Hs). exists (Z.to_nat (RETRY_LIMIT - idle_rounds dx)).
  split; [lia|].
  remember (Z.to_nat (RETRY_LIMIT - idle_rounds dx)) as n eqn:Hn.
  revert dx Hs Hok Hn. induction n as [|n IH]; intros dx Hs Hok Hn.
  - cbn [replicate Dot1x_run Dot1x_input]. rewrite Dot1x_timeout_outcome by done.
    rewrite (proj2 (Z.eqb_eq _ _)) by lia. done.
  - cbn [replicate]. cbn [Dot1x_run Dot1x_input]. rewrite Dot1x_timeout_outcome by done.
    rewrite (proj2 (Z.eqb_neq _ _)) by lia.
    destruct (IH (dx_set_idle (idle_rounds dx + 1) dx)) as [Hr Hst]; cbn; [done|lia|lia|].
    cbn [replicate] in Hr, Hst. cbn [Dot1x_run Dot1x_input] in Hr, Hst.
    destruct (Dot1x_on_timeout _) as [dx1 r1]. destruct (Dot1x_run (replicate n InTimeout) dx1) as [dx2 rs].
    cbn in *. by rewrite Hr.
Qed.

End properties.

Lemma pmk_only_from_the_method_witness :
  let out := Dot1x_on_frame (eap_frame 3 9 []) provider in
  snd out = Ok (Crypto.Done (replicate 32 7))
  /\ (exists k, msk (method provider) = Some k /\ replicate 32 7 = take 32 k)
  /\ Forall (fun r => speaks r = false) (snd (Dot1x_run [InFrame (eap_frame 1 10 [1])] (fst out))).
Proof.
  intros out. split; [reflexivity|].
  destruct (pmk_only_from_the_method (eap_frame 3 9 []) provider (fst out) (replicate 32 7)
              [InFrame (eap_frame 1 10 [1])]) as (_ & _ & Hk & Hq); [reflexivity|].
  split; [exact Hk|exact Hq].
Defined.

Lemma duplicate_is_replayed_witness :
  let out := Dot1x_on_frame (eap_frame 1 5 [eap_type.PEAP; 0x20]) provider in
  exists f, snd out = Ok (Crypto.Send f)
  /\ exists id, eap_request (eap_frame 1 5 [eap_type.PEAP; 0x20]) = Some id
     /\ forall frame2, eap_request frame2 = Some id ->
        exists dx2, Dot1x_on_frame frame2 (fst out) = (dx2, Ok (Crypto.Send f))
                    /\ method dx2 = method (fst out) /\ answered dx2 = Some id.
Proof.
  intros out. eexists. split; [reflexivity|].
  apply (duplicate_is_replayed (eap_frame 1 5 [eap_type.PEAP; 0x20]) provider). reflexivity.
Defined.

Lemma silence_ends_it_witness :
  exists n, 0 <= Z.of_nat n <= RETRY_LIMIT
    /\ snd (Dot1x_run (replicate (S n) InTimeout) (fst (Dot1x_run [InTimeout] provider)))
       = replicate n (Ok Crypto.Wait) ++ [Err AuthFailed]
    /\ dx_state (fst (Dot1x_run (replicate (S n) InTimeout)
                        (fst (Dot1x_run [InTimeout] provider)))) = DxFailed.
Proof.
  destruct (silence_ends_it [InTimeout] [97; 110; 111; 110] (Some key) eq_refl) as (n & Hn & Hr & Hs).
  exists n. split; [exact Hn|]. split; [exact Hr|exact Hs].
Defined.

Section answers.
Context {M : Type} `{EapMethod M}.
Implicit Types dx : Dot1xProvider M.

(** Receiving a well-formed EAP packet while running. *)
Lemma on_frame_packet v code id data packet frame dx :
  @EapPacket_encode Eapol.Error code id data = Ok packet -> @Eapol_encode Eapol.Error v PtEap packet = Ok frame ->
  dx_state dx = Running ->
  Dot1x_frame frame dx
  = Dot1x_on_eap {| eap_code := code; eap_identifier := id; eap_data := data |} (dx_set_version v dx).
Proof.
  intros Hp Hf Hs. unfold Dot1x_frame.
  pose proof (Eapol_encode_eq v PtEap packet frame Hf) as [-> Hu].
  pose proof (Eapol_parse_layout v PtEap packet _ [] eq_refl Hu) as He. rewrite app_nil_r in He.
  unfold mbind at 1, call_bind at 1, lift at 1. unfold len at 1. rewrite He. cbn [eapol_packet_type].
  rewrite bool_decide_true by done. cbn [negb].
  unfold mbind at 1, call_bind at 1, self at 1.
  unfold mbind at 1, call_bind at 1, throw_if. rewrite bool_decide_true by done. cbn [negb].
  unfold mret at 1, call_ret at 1. unfold mbind at 1, call_bind at 1, update at 1.
  cbn [eapol_body eapol_version].
  apply EapPacket_encode_eq in Hp as [Hl ->].
  rewrite bool_decide_false by (rewrite !length_app, length_be_encode; cbn [length]; unfold EAP_HDR_LEN; lia).
  unfold mbind at 1, call_bind at 1, lift at 1.
  rewrite <- (app_nil_r ([EapCode_u8 code; id] ++ _)). rewrite EapPacket_parse_layout; [done|done|].
  unfold is_uint, EAP_HDR_LEN, len in *. lia.
Qed.

(** A reply, framed. *)
Lemma reply_runs id ty td dx :
  len td <= MAX_TYPE_DATA ->
  exists packet frame,
    @EapPacket_encode Eapol.Error Response id (ty :: td) = Ok packet
    /\ @Eapol_encode Eapol.Error (protocol_version dx) PtEap packet = Ok frame
    /\ (p ← lift (EapPacket_response id ty td); Dot1x_reply id p) dx
       = (dx_set_idle 0 (dx_set_answered (Some id) (dx_set_last (Some frame) dx)),
          Ok (Crypto.Send frame)).
Proof.
  intros Ht. destruct (response_Ok id ty td Ht) as (w & Hw & _ & Hl).
  exists w. eexists. split; [exact Hw|].
  assert (@Eapol_encode Eapol.Error (protocol_version dx) PtEap w
          = Ok ([protocol_version dx; PacketType_u8 PtEap] ++ be_encode 2 (len w) ++ w)) as He.
  { unfold Eapol_encode, expect_u16. by rewrite (proj2 (Z.ltb_lt _ _)) by (unfold MAX_TYPE_DATA in Ht; lia). }
  split; [exact He|].
  unfold mbind at 1, call_bind at 1, lift at 1. rewrite Hw. unfold Dot1x_reply.
  unfold mbind at 1, call_bind at 1, self at 1. unfold mbind at 1, call_bind at 1, lift at 1.
  by rewrite He.
Qed.

(** The outer conversation needs no method: an Identity request is answered
    with the outer identity, a Notification is acknowledged, and a method that
    is not ours is answered with the one that is -- each with the request's own
    identifier and the authenticator's EAPOL version, and without the method
    seeing anything. *)
Theorem outer_requests_answered v id ty data packet frame dx :
  @EapPacket_encode Eapol.Error Request id (ty :: data) = Ok packet ->
  @Eapol_encode Eapol.Error v PtEap packet = Ok frame ->
  dx_state dx = Running -> len (identity dx) <= MAX_TYPE_DATA -> answered dx <> Some id ->
  ty = eap_type.IDENTITY \/ ty = eap_type.NOTIFICATION \/ ty <> type_code (method dx) ->
  exists reply_packet reply dx',
    Dot1x_on_frame frame dx = (dx', Ok (Crypto.Send reply))
    /\ @EapPacket_encode Eapol.Error Response id (outer_answer dx ty) = Ok reply_packet
    /\ @Eapol_encode Eapol.Error v PtEap reply_packet = Ok reply
    /\ method dx' = method dx /\ dx_state dx' = Running.
Proof.
  intros Hp Hf Hs Hid Ha Hty. unfold Dot1x_on_frame.
  rewrite (on_frame_packet v Request id (ty :: data) packet frame dx) by done.
  unfold Dot1x_on_eap, mbind at 1, call_bind at 1, self at 1.
  cbn [eap_code eap_identifier answered dx_set_version]. rewrite bool_decide_false by done.
  unfold Dot1x_on_request, EapPacket_eap_type. cbn [eap_code eap_data head ok_or eap_identifier].
  unfold mbind at 1, call_bind at 1, lift at 1. unfold mbind at 1, call_bind at 1, self at 1.
  unfold outer_answer. set (dx0 := dx_set_version v dx).
  assert (forall t td, len td <= MAX_TYPE_DATA ->
    exists rp reply dx', (let (dx, result) := (p ← lift (EapPacket_response id t td); Dot1x_reply id p) dx0 in
        (if is_err result then dx_set_state DxFailed dx else dx, map_err into_crypto result))
      = (dx', Ok (Crypto.Send reply))
      /\ @EapPacket_encode Eapol.Error Response id (t :: td) = Ok rp
      /\ @Eapol_encode Eapol.Error v PtEap rp = Ok reply
      /\ method dx' = method dx /\ dx_state dx' = Running) as Hgen.
  { intros t td Ht. destruct (reply_runs id t td dx0 Ht) as (rp & fr & Hrp & Hfr & ->).
    exists rp, fr. eexists. by split_and!. }
  destruct (Z.eqb_spec ty eap_type.IDENTITY); [by apply Hgen|].
  destruct (Z.eqb_spec ty eap_type.NOTIFICATION); [by apply Hgen|].
  cbn [method dx0 dx_set_version]. rewrite (proj2 (Z.eqb_neq ty _)) by naive_solver.
  by apply Hgen.
Qed.
End answers.

Lemma outer_requests_answered_witness :
  exists reply_packet reply dx',
    Dot1x_on_frame (eap_frame 1 1 [1]) provider = (dx', Ok (Crypto.Send reply))
    /\ @EapPacket_encode Eapol.Error Response 1 [1; 97; 110; 111; 110] = Ok reply_packet
    /\ @Eapol_encode Eapol.Error 2 PtEap reply_packet = Ok reply
    /\ method dx' = method provider /\ dx_state dx' = Running.
Proof.
  apply (outer_requests_answered 2 1 eap_type.IDENTITY [] [1; 1; 0; 5; 1] (eap_frame 1 1 [1]) provider);
    first [reflexivity|discriminate|by left].
Defined.

(** Whatever the radio delivers and however often it is silent, the 802.1X
    provider does not panic, given a method that does not and an identity that
    fits a packet. *)
Theorem dot1x_never_panics {M} `{EapMethodSafe M} ins identity (m : M) :
  len identity <= MAX_TYPE_DATA -> em_ok m ->
  Forall no_panic (snd (Dot1x_run ins (Dot1x_new identity m))).
Proof. intros Hi Hm. by apply Dot1x_run_sound. Qed.

Lemma dot1x_never_panics_witness :
  Forall no_panic (snd (Dot1x_run [InFrame (eap_frame 1 1 [1]); InTimeout; InFrame [2; 0; 255]] provider)).
Proof. apply (dot1x_never_panics _ [97; 110; 111; 110] (Some key)); done. Defined.

(** ** What the method sees *)

Section method_history.
Context {M : Type} `{EapMethod M}.
Implicit Types dx : Dot1xProvider M.

(** Requests put to a method one after the other. *)
Definition method_run (ds : list bytes) (m : M) : M := foldl (fun m d => fst (em_on_request d m)) m ds.

(** The Type-Data an input puts to the method: that of a request of its own
    type, not answered already, while the conversation is running. *)
Definition method_request (i : DxInput) dx : list bytes :=
  match i with
  | InTimeout => []
  | InFrame frame =>
      match e ← to_option (Eapol_parse frame);
            if bool_decide (eapol_packet_type e = PtEap /\ dx_state dx = Running)
            then to_option (EapPacket_parse (eapol_body e)) else None with
      | Some p =>
          if bool_decide (eap_code p = Request)
             && negb (bool_decide (answered dx = Some (eap_identifier p)) && is_some (last_response dx))
             && bool_decide (EapPacket_eap_type p = Some (type_code (method dx)))
             && negb (type_code (method dx) =? eap_type.IDENTITY)
             && negb (type_code (method dx) =? eap_type.NOTIFICATION)
          then [EapPacket_type_data p] else []
      | None => []
      end
  end.

Fixpoint method_requests (ins : list DxInput) dx : list bytes :=
  match ins with
  | [] => []
  | i :: ins => method_request i dx ++ method_requests ins (fst (Dot1x_input i dx))
  end.

Lemma on_eap_method v p dx :
  method (fst (Dot1x_on_eap p (dx_set_version v dx)))
  = method_run
      (if bool_decide (eap_code p = Request)
          && negb (bool_decide (answered dx = Some (eap_identifier p)) && is_some (last_response dx))
          && bool_decide (EapPacket_eap_type p = Some (type_code (method dx)))
          && negb (type_code (method dx) =? eap_type.IDENTITY)
          && negb (type_code (method dx) =? eap_type.NOTIFICATION)
       then [EapPacket_type_data p] else []) (method dx).
Proof.
  unfold Dot1x_on_eap. unfold mbind at 1, call_bind at 1, self at 1.
  destruct (eap_code p) eqn:Hc; cbn [andb]; try (unfold method_run; run_call; done).
  rewrite (bool_decide_true (Request = Request)) by done. cbn [answered last_response dx_set_version andb].
  destruct (bool_decide (answered dx = _)); [destruct (last_response dx)|]; cbn [andb negb is_some]; [done| |].
  all: unfold Dot1x_on_request; unfold mbind at 1, call_bind at 1, lift at 1;
    destruct (EapPacket_eap_type p) as [ty|] eqn:Hty; cbn [ok_or]; [|done];
    unfold mbind at 1, call_bind at 1, self at 1; cbn [method dx_set_version].
  all: destruct (Z.eqb_spec ty eap_type.IDENTITY) as [->|H1];
    [case_bool_decide as Ht; [injection Ht as <-|]; unfold method_run, Dot1x_reply; run_call; done|].
  all: destruct (Z.eqb_spec ty eap_type.NOTIFICATION) as [->|H2];
    [case_bool_decide as Ht; [injection Ht as <-|]; unfold method_run, Dot1x_reply; run_call; done|].
  all: destruct (Z.eqb_spec ty (type_code (method dx))) as [->|H3]; cbn [negb];
    [|rewrite bool_decide_false by congruence; unfold method_run, Dot1x_reply; run_call; done].
  all: rewrite bool_decide_true by done;
    rewrite (proj2 (Z.eqb_neq _ eap_type.IDENTITY)), (proj2 (Z.eqb_neq _ eap_type.NOTIFICATION)) by done;
    cbn [andb negb]; unfold method_run; cbn [foldl]; unfold mbind at 1, call_bind at 1, zoom;
    cbn [method dx_set_version]; destruct (em_on_request _ (method dx)) as [m' [[td|]| |]]; try done;
    unfold Dot1x_reply; run_call; done.
Qed.

(** Nothing else ever changes the method. *)
Lemma input_method i dx :
  method (fst (Dot1x_input i dx)) = method_run (method_request i dx) (method dx).
Proof.
  destruct i as [frame|]; cbn [Dot1x_input method_request].
  - unfold Dot1x_on_frame, Dot1x_frame. unfold mbind at 1, call_bind at 1, lift at 1.
    destruct (Eapol_parse frame) as [e| |]; cbn [to_option mbind option_bind]; [|done|done].
    destruct (decide (eapol_packet_type e = PtEap)) as [Ht|Ht];
      [rewrite (bool_decide_true (_ = PtEap)) by done|rewrite (bool_decide_false (_ = PtEap)) by done];
      cbn [negb]; [|by rewrite (bool_decide_false (_ /\ _)) by tauto].
    unfold mbind at 1, call_bind at 1, self at 1. unfold mbind at 1, call_bind at 1, throw_if.
    destruct (decide (dx_state dx = Running)) as [Hs|Hs];
      [rewrite (bool_decide_true (_ = Running)) by done|rewrite (bool_decide_false (_ = Running)) by done];
      cbn [negb]; [|by rewrite (bool_decide_false (_ /\ _)) by tauto].
    rewrite (bool_decide_true (_ /\ _)) by done.
    unfold mret at 1, call_ret at 1. unfold mbind at 1, call_bind at 1, update at 1.
    case_bool_decide as Hlen.
    + destruct (EapPacket_parse (eapol_body e)) as [p| |] eqn:Hp; cbn; [|done|done].
      exfalso. unfold EAP_HDR_LEN in Hlen.
      destruct (eapol_body e) as [|? [|? [|? [|? ?]]]]; try discriminate Hp. cbn in Hlen. lia.
    + unfold mbind at 1, call_bind at 1, lift at 1.
      destruct (EapPacket_parse (eapol_body e)) as [p| |]; cbn [to_option]; [|done|done].
      rewrite <- (on_eap_method (eapol_version e)).
      destruct (Dot1x_on_eap p _) as [dx' r]. by destruct r.
  - unfold Dot1x_on_timeout, Dot1x_timeout, method_run. run_call; done.
Qed.

Lemma run_method ins dx :
  method (fst (Dot1x_run ins dx)) = method_run (method_requests ins dx) (method dx).
Proof.
  revert dx. induction ins as [|i ins IH]; intros dx; cbn [Dot1x_run method_requests]; [done|].
  pose proof (input_method i dx) as H1. destruct (Dot1x_input i dx) as [dx1 r]. cbn [fst] in *.
  specialize (IH dx1). destruct (Dot1x_run ins dx1) as [dx2 rs]. cbn in *.
  unfold method_run in *. by rewrite foldl_app, <- H1.
Qed.

(** A key that came out of a conversation is the key the method held after the
    requests that had arrived by then. *)
Lemma run_pmk ins dx pmk :
  Ok (Crypto.Done pmk) ∈ snd (Dot1x_run ins dx) ->
  exists ins1 ins2 k, ins = ins1 ++ ins2
    /\ msk (method_run (method_requests ins1 dx) (method dx)) = Some k /\ pmk = pmk_from_msk k.
Proof.
  revert dx. induction ins as [|i ins IH]; intros dx; cbn [Dot1x_run]; [by intros ?%not_elem_of_nil|].
  destruct (Dot1x_input i dx) as [dx1 r] eqn:Hi. destruct (Dot1x_run ins dx1) as [dx2 rs] eqn:Hr. cbn [snd].
  intros [<-|Hin]%elem_of_cons.
  - destruct i as [frame|]; cbn [Dot1x_input] in Hi.
    + unfold Dot1x_on_frame in Hi. destruct (Dot1x_frame frame dx) as [dx3 r] eqn:Hf.
      pose proof (after_eq _ _ _ _ _ (Dot1x_frame_outcome frame dx) Hf) as (_ & _ & Ho).
      destruct r as [[]| |]; try discriminate Hi. injection Hi as <- <-. cbn in Ho.
      destruct Ho as (_ & _ & _ & e & p & _ & _ & _ & _ & k & Hk & ->). by exists [], (InFrame frame :: ins), k.
    + unfold Dot1x_on_timeout, Dot1x_timeout in Hi. revert Hi. run_call; done.
  - pose proof (input_method i dx) as H1. rewrite Hi in H1. cbn in H1.
    destruct (IH dx1) as (ins1 & ins2 & k & -> & Hk & ->); [by rewrite Hr|].
    exists (i :: ins1), ins2, k. split; [done|]. cbn [method_requests]. rewrite Hi. cbn [fst].
    split; [|done]. unfold method_run in *. by rewrite foldl_app, <- H1.
Qed.
End method_history.

(** ** What is sent *)

(** A frame that carries an EAP Response to the request [id]. *)
Definition is_response (f : bytes) (id : Z) : Prop :=
  exists e p, Eapol_parse f = Ok e /\ eapol_packet_type e = PtEap
    /\ EapPacket_parse (eapol_body e) = Ok p /\ eap_code p = Response /\ eap_identifier p = id.

Section well_formed.
Context {M : Type} `{EapMethod M}.
Implicit Types dx : Dot1xProvider M.

Definition remembers dx : Prop :=
  forall f, last_response dx = Some f -> exists id, answered dx = Some id /\ is_response f id.

Lemma response_framed v id ty td packet f :
  @EapPacket_response Eapol.Error id ty td = Ok packet -> @Eapol_encode Eapol.Error v PtEap packet = Ok f ->
  is_response f id.
Proof.
  intros Hp Hf. pose proof (Eapol_encode_eq v PtEap packet f Hf) as [-> Hu].
  pose proof (Eapol_parse_layout v PtEap packet _ [] eq_refl Hu) as He. rewrite app_nil_r in He.
  unfold EapPacket_response in Hp. apply EapPacket_encode_eq in Hp as [Hl ->].
  eexists _, _. split; [exact He|]. split; [reflexivity|]. cbn [eapol_body].
  rewrite <- (app_nil_r ([EapCode_u8 Response; id] ++ _)). split.
  - apply EapPacket_parse_layout; [done|]. unfold is_uint, EAP_HDR_LEN, len in *. lia.
  - done.
Qed.

Lemma answer_remembered id ty td dx :
  remembers dx -> after (p ← lift (EapPacket_response id ty td); Dot1x_reply id p) dx (fun dx' _ => remembers dx').
Proof.
  intros Hok. apply after_lift_bind. destruct (EapPacket_response id ty td) as [packet| |] eqn:Hp; try done. cbn.
  unfold Dot1x_reply. apply after_self, after_lift_bind.
  destruct (Eapol_encode (protocol_version dx) PtEap packet) as [f| |] eqn:Hf; try done. cbn.
  apply after_update, after_update, after_update, after_ret. intros g [= <-]. exists id. split; [done|].
  by eapply response_framed.
Qed.

Lemma frame_remembers frame dx : remembers dx -> after (Dot1x_frame frame) dx (fun dx' _ => remembers dx').
Proof.
  intros Hok. unfold Dot1x_frame. apply after_lift_bind. destruct (Eapol_parse frame) as [e| |]; try done. cbn.
  case_bool_decide; cbn [negb]; [|done]. apply after_self, after_throw_if; [done|]. intros _.
  apply after_update. case_bool_decide; [done|]. apply after_lift_bind.
  destruct (EapPacket_parse _) as [p| |]; try done. cbn. set (dx0 := dx_set_version _ dx).
  assert (remembers dx0) as Hok0 by exact Hok. clearbody dx0.
  unfold Dot1x_on_eap. apply after_self. destruct (eap_code p); [|done| |done].
  - destruct (if bool_decide _ then _ else _); [done|].
    unfold Dot1x_on_request. apply after_lift_bind. destruct (EapPacket_eap_type p) as [ty|]; cbn; [|done].
    apply after_self. destruct (ty =? _); [by apply answer_remembered|].
    destruct (ty =? _); [by apply answer_remembered|].
    destruct (negb _); [unfold EapPacket_nak; by apply answer_remembered|].
    apply after_zoom_bind. intros m' r _. destruct r as [[td|]| |]; cbn [and_then]; try done.
    by apply answer_remembered.
  - apply after_lift_bind. destruct (msk _); cbn; [|done].
    apply after_update, after_update, after_ret. intros g [=].
Qed.

Lemma input_remembers i dx : remembers dx -> remembers (fst (Dot1x_input i dx)).
Proof.
  intros Hok. destruct i as [frame|]; cbn [Dot1x_input].
  - pose proof (frame_remembers frame dx Hok) as Hf. unfold Dot1x_on_frame, after in *.
    destruct (Dot1x_frame frame dx) as [dx' r]. by destruct r.
  - unfold Dot1x_on_timeout, Dot1x_timeout. run_call; done.
Qed.

Lemma run_remembers ins dx : remembers dx -> remembers (fst (Dot1x_run ins dx)).
Proof.
  revert dx. induction ins as [|i ins IH]; intros dx Hok; cbn [Dot1x_run]; [done|].
  pose proof (input_remembers i dx Hok) as Hi. destruct (Dot1x_input i dx) as [dx1 r].
  specialize (IH dx1 Hi). by destruct (Dot1x_run ins dx1).
Qed.

(** C32. At any point of any conversation, what the provider sends is an EAPOL
    frame with an EAP Response that echoes the identifier of the request it
    answers -- never a Request, never an unprompted frame. *)
Theorem replies_echo_requests ins i identity m f :
  snd (Dot1x_input i (fst (Dot1x_run ins (Dot1x_new identity m)))) = Ok (Crypto.Send f) ->
  exists frame id, i = InFrame frame /\ eap_request frame = Some id /\ is_response f id.
Proof.
  set (dx := fst _). intros Hi.
  assert (remembers dx) as Hok by by apply run_remembers.
  pose proof (input_remembers i dx Hok) as Hok'.
  destruct i as [frame|]; cbn [Dot1x_input] in *.
  - destruct (Dot1x_on_frame frame dx) as [dx' r] eqn:He. cbn in Hi, Hok'. subst r.
    destruct (sent_answers frame dx dx' f He) as (id & Hq & _ & Ha & Hl).
    exists frame, id. split_and!; [done|done|]. destruct (Hok' f Hl) as (id' & Ha' & Hr).
    by rewrite Ha in Ha'; injection Ha' as <-.
  - revert Hi. unfold Dot1x_on_timeout, Dot1x_timeout. run_call; done.
Qed.
End well_formed.

Lemma replies_echo_requests_witness :
  exists frame id f, InFrame (eap_frame 1 4 [2]) = InFrame frame /\ eap_request frame = Some id /\ is_response f id.
Proof.
  pose (out := Dot1x_input (InFrame (eap_frame 1 4 [2])) (fst (Dot1x_run [InTimeout] provider))).
  assert (exists f, snd out = Ok (Crypto.Send f)) as [f Hf] by (eexists; vm_compute; reflexivity).
  destruct (replies_echo_requests [InTimeout] (InFrame (eap_frame 1 4 [2])) [97; 110; 111; 110] (Some key) f Hf)
    as (frame & id & H1 & H2 & H3).
  exists frame, id, f. split_and!; [exact H1|exact H2|exact H3].
Defined.
