(* ===== verification/Pem.v ===== *)
(** * PEM: the crate [caw-eapol], eap/tls/pem.rs

    Labelled blocks of base64, for the configured trust anchors and the client
    certificate.  Text is its UTF-8 octets: a label is ASCII, so searching the
    octets is searching the text. *)
From S2P Require Import Prelude Bytes Text Eapol.

(** [str::find]: where a pattern first occurs. *)
Fixpoint find_str (pat s : bytes) : option nat :=
  if bool_decide (take (length pat) s = pat) then Some 0%nat else
  match s with
  | [] => None
  | _ :: s => S <$> find_str pat s
  end.

(** [fn sextet] *)
Definition sextet (c : Z) : option Z :=
  if in_range 65 90 c then Some (c - 65)
  else if in_range 97 122 c then Some (c - 97 + 26)
  else if in_range 48 57 c then Some (c - 48 + 52)
  else if c =? 43 then Some 62
  else if c =? 47 then Some 63
  else None.

Definition is_pem_space (c : Z) : bool := (c =? 32) || (c =? 9) || (c =? 13) || (c =? 10).

(** The loop of [base64_decode], and what follows it. *)
Fixpoint base64_loop (s : bytes) (acc bits padding : Z) (out : bytes) : exec Error bytes :=
  match s with
  | [] =>
      if bits =? 0 then Ok out
      else if bits =? 12 then Ok (out ++ [wrap 8 (Z.shiftr acc 4)])
      else if bits =? 18 then Ok (out ++ [wrap 8 (Z.shiftr acc 10); wrap 8 (Z.shiftr acc 2)])
      else Err (CertificateStore "truncated base64")
  | c :: s =>
      if is_pem_space c then base64_loop s acc bits padding out
      else if c =? 61 then base64_loop s acc bits (padding + 1) out
      else if 0 <? padding then Err (CertificateStore "base64 data after padding")
      else
        v ← ok_or (CertificateStore "invalid base64") (sextet c);
        let acc := Z.lor (wrap 32 (Z.shiftl acc 6)) v in
        let bits := bits + 6 in
        if bits =? 24 then base64_loop s 0 0 padding (out ++ drop 1 (be_encode 4 acc))
        else base64_loop s acc bits padding out
  end.

Definition base64_decode (s : bytes) : exec Error bytes := base64_loop s 0 0 0 [].

(** [fn blocks]: the loop takes the length of the text as fuel, and consumes a
    block at a time. *)
Fixpoint pem_loop (fuel : nat) (begin_ end_ : bytes) (label : string) (rest : bytes)
    (out : list bytes) : exec Error (list bytes) :=
  match fuel with
  | O => Ok out
  | S fuel =>
      match find_str begin_ rest with
      | None => Ok out
      | Some start =>
          body ← slice_from (start + length begin_) rest;
          stop ← ok_or (CertificateStore ("unterminated " ++ label ++ " block")) (find_str end_ body);
          text ← slice 0 stop body;
          block ← base64_decode text;
          rest ← slice_from (stop + length end_) body;
          pem_loop fuel begin_ end_ label rest (out ++ [block])
      end
  end.

Definition pem_begin (label : string) : bytes := ascii_of ("-----BEGIN " ++ label ++ "-----").
Definition pem_end (label : string) : bytes := ascii_of ("-----END " ++ label ++ "-----").

Definition blocks (pem : bytes) (label : string) : exec Error (list bytes) :=
  text ← ok_or (CertificateStore "PEM is not valid UTF-8") (from_utf8 pem);
  pem_loop (S (length text)) (pem_begin label) (pem_end label) label text [].

Definition certificates (pem : bytes) : exec Error (list bytes) :=
  certs ← blocks pem "CERTIFICATE";
  if bool_decide (certs = []) then Err (CertificateStore "no CERTIFICATE block in the PEM input")
  else Ok certs.

(** ** Base64 *)

(** The encoder of RFC 4648, against which the decoder is judged. *)
Definition base64_char (v : Z) : Z :=
  if v <? 26 then 65 + v else if v <? 52 then 71 + v else if v <? 62 then v - 4
  else if v =? 62 then 43 else 47.

Fixpoint base64_encode (l : bytes) : bytes :=
  match l with
  | a :: b :: c :: l =>
      [base64_char (a / 4); base64_char (a mod 4 * 16 + b / 16);
       base64_char (b mod 16 * 4 + c / 64); base64_char (c mod 64)] ++ base64_encode l
  | [a; b] =>
      [base64_char (a / 4); base64_char (a mod 4 * 16 + b / 16); base64_char (b mod 16 * 4); 61]
  | [a] => [base64_char (a / 4); base64_char (a mod 4 * 16); 61; 61]
  | [] => []
  end.

(** Line breaks and blanks do not count. *)
Lemma base64_loop_space s acc bits padding out :
  base64_loop s acc bits padding out
  = base64_loop (filter (fun c => is_pem_space c = false) s) acc bits padding out.
Proof.
  revert acc bits padding out. induction s as [|c s IH]; intros acc bits padding out; [done|].
  rewrite filter_cons. destruct (is_pem_space c) eqn:Hc.
  - rewrite decide_False by done. cbn [base64_loop]. by rewrite Hc.
  - rewrite decide_True by done. cbn [base64_loop]. rewrite Hc.
    destruct (c =? 61); [apply IH|]. destruct (0 <? padding); [done|].
    destruct (sextet c); [|done]. cbn. destruct (bits + 6 =? 24); apply IH.
Qed.

(** The four things the loop asks of a character of the alphabet. *)
Lemma base64_char_read v :
  0 <= v < 64 ->
  is_pem_space (base64_char v) = false /\ (base64_char v =? 61) = false
  /\ sextet (base64_char v) = Some v /\ base64_char v <> 45 /\ 0 <= base64_char v < 128.
Proof.
  intros Hv.
  set (p := fun v => negb (is_pem_space (base64_char v)) && negb (base64_char v =? 61)
                     && bool_decide (sextet (base64_char v) = Some v) && negb (base64_char v =? 45)
                     && (0 <=? base64_char v) && (base64_char v <? 128)).
  assert (p v = true) as Hp.
  { assert (forallb p (map Z.of_nat (seq 0 64)) = true) as Hall by reflexivity.
    rewrite forallb_forall in Hall. apply Hall. rewrite <- (Z2Nat.id v) by lia.
    apply in_map, in_seq. lia. }
  unfold p in Hp. bool_prop. split_and!; try done.
  by apply Z.eqb_neq.
Qed.

Lemma base64_more v s acc bits out :
  0 <= v < 64 -> 0 <= acc < 2 ^ 18 -> bits < 18 ->
  base64_loop (base64_char v :: s) acc bits 0 out = base64_loop s (acc * 64 + v) (bits + 6) 0 out.
Proof.
  intros Hv Ha Hb. destruct (base64_char_read v Hv) as (H1 & H2 & H3 & _).
  cbn [base64_loop]. rewrite H1, H2, H3. cbn [ok_or mbind exec_bind Z.ltb Z.compare].
  rewrite (proj2 (Z.eqb_neq _ 24)) by lia.
  unfold wrap. rewrite Z.shiftl_mul_pow2, Z.mod_small by lia. by rewrite (lor_split 6) by lia.
Qed.

Lemma base64_full v s acc out :
  0 <= v < 64 -> 0 <= acc < 2 ^ 18 ->
  base64_loop (base64_char v :: s) acc 18 0 out
  = base64_loop s 0 0 0 (out ++ drop 1 (be_encode 4 (acc * 64 + v))).
Proof.
  intros Hv Ha. destruct (base64_char_read v Hv) as (H1 & H2 & H3 & _).
  cbn [base64_loop]. rewrite H1, H2, H3. cbn [ok_or mbind exec_bind Z.ltb Z.compare].
  change (18 + 6 =? 24) with true. cbv iota.
  unfold wrap. rewrite Z.shiftl_mul_pow2, Z.mod_small by lia. by rewrite (lor_split 6) by lia.
Qed.

Lemma be_encode_triple a b c :
  is_u8 a -> is_u8 b -> is_u8 c ->
  drop 1 (be_encode 4 (((a / 4 * 64 + (a mod 4 * 16 + b / 16)) * 64 + (b mod 16 * 4 + c / 64)) * 64 + c mod 64))
  = [a; b; c].
Proof.
  intros Ha Hb Hc. unfold is_uint in *. unfold be_encode. cbn.
  repeat (f_equal; [Z.div_mod_to_equations; lia|]). f_equal. Z.div_mod_to_equations. lia.
Qed.

Lemma base64_roundtrip_loop l out :
  is_bytes l -> base64_loop (base64_encode l) 0 0 0 out = Ok (out ++ l).
Proof.
  remember (length l) as n eqn:Hn. revert l out Hn.
  induction n as [n IH] using lt_wf_ind. intros l out -> Hb.
  assert (forall x, is_u8 x -> 0 <= x < 256) as Hu by (unfold is_uint; auto).
  destruct l as [|a [|b [|c l]]]; cbn [base64_encode app].
  - cbn. by rewrite app_nil_r.
  - apply Forall_cons in Hb as [Ha _]. apply Hu in Ha.
    do 2 rewrite base64_more by (lia || (Z.div_mod_to_equations; lia)).
    cbn. unfold wrap. rewrite !Z.shiftr_div_pow2 by lia. f_equal. f_equal. f_equal.
    Z.div_mod_to_equations; lia.
  - apply Forall_cons in Hb as [Ha Hb]. apply Forall_cons in Hb as [Hb _].
    apply Hu in Ha. apply Hu in Hb.
    do 3 rewrite base64_more by (lia || (Z.div_mod_to_equations; lia)).
    cbn. unfold wrap. rewrite !Z.shiftr_div_pow2 by lia. f_equal. f_equal.
    f_equal; [Z.div_mod_to_equations; lia|]. f_equal. Z.div_mod_to_equations; lia.
  - apply Forall_cons in Hb as [Ha Hb]. apply Forall_cons in Hb as [Hb Hl].
    apply Forall_cons in Hl as [Hc Hl]. pose proof (be_encode_triple a b c Ha Hb Hc) as Ht.
    apply Hu in Ha. apply Hu in Hb. apply Hu in Hc.
    do 3 rewrite base64_more by (lia || (Z.div_mod_to_equations; lia)).
    change (0 + 6 + 6 + 6) with 18. rewrite base64_full by (Z.div_mod_to_equations; lia).
    change (0 * 64 + a / 4) with (a / 4). rewrite Ht. rewrite (IH (length l)); [by rewrite <- app_assoc|cbn; lia|done|done].
Qed.

(** ** Finding blocks *)

Abbreviation no_dash := (Forall (fun c => c <> 45)).

Lemma find_str_here pat s : find_str pat (pat ++ s) = Some 0%nat.
Proof. destruct (pat ++ s) eqn:H; cbn; rewrite bool_decide_true; try done; rewrite <- H; apply take_app_length. Qed.

(** A pattern that begins with a dash does not begin in text without one. *)
Lemma find_str_skip pat noise s :
  no_dash noise ->
  find_str (45 :: pat) (noise ++ s) = (fun n => (length noise + n)%nat) <$> find_str (45 :: pat) s.
Proof.
  induction 1 as [|c noise Hc _ IH]; cbn [app length].
  - cbn. by destruct (find_str _ s).
  - cbn [find_str]. rewrite bool_decide_false by (cbn; congruence). rewrite IH.
    by destruct (find_str _ s).
Qed.

Lemma find_str_none pat noise : no_dash noise -> find_str (45 :: pat) noise = None.
Proof.
  intros H. rewrite <- (app_nil_r noise), find_str_skip by done. done.
Qed.

Lemma pem_begin_dash label : exists p, pem_begin label = 45 :: p.
Proof. unfold pem_begin. cbn. by eexists. Qed.
Lemma pem_end_dash label : exists p, pem_end label = 45 :: p.
Proof. unfold pem_end. cbn. by eexists. Qed.

Lemma slice_from_app {E} (a b : bytes) n : n = length a -> @slice_from E n (a ++ b) = Ok b.
Proof.
  intros ->. unfold slice_from, get_from. rewrite bool_decide_true by (rewrite length_app; lia).
  by rewrite drop_app_length.
Qed.

(** One armoured certificate, with text without dashes in front of it. *)
Record Armoured := { ar_noise : bytes; ar_text : bytes; ar_der : bytes }.

Definition armour (label : string) (a : Armoured) : bytes :=
  ar_noise a ++ pem_begin label ++ ar_text a ++ pem_end label.

(** The text is the base64 of the block, broken into lines and indented as one
    likes. *)
Definition armour_ok (a : Armoured) : Prop :=
  no_dash (ar_noise a) /\ is_bytes (ar_der a)
  /\ filter (fun c => is_pem_space c = false) (ar_text a) = base64_encode (ar_der a).

Lemma base64_encode_no_dash l : is_bytes l -> no_dash (base64_encode l).
Proof.
  remember (length l) as n eqn:Hn. revert l Hn.
  induction n as [n IH] using lt_wf_ind. intros l -> Hb.
  assert (forall x, is_u8 x -> 0 <= x < 256) as Hu by (unfold is_uint; auto).
  assert (forall v, 0 <= v < 64 -> base64_char v <> 45) as Hc by (intros v Hv; apply (base64_char_read v Hv)).
  destruct l as [|a [|b [|c l]]]; [constructor| | |];
    repeat match goal with H : is_bytes (_ :: _) |- _ =>
      apply Forall_cons in H as [?%Hu ?] end; cbn [base64_encode app].
  all: repeat (apply Forall_cons; split; [first [done|apply Hc; Z.div_mod_to_equations; lia]|]).
  - constructor.
  - constructor.
  - apply (IH (length l)); [cbn; lia|done|done].
Qed.

Lemma armour_text_no_dash a : armour_ok a -> no_dash (ar_text a).
Proof.
  intros (_ & Hb & Hf). pose proof (base64_encode_no_dash _ Hb) as Hd. rewrite <- Hf in Hd.
  rewrite !Forall_forall in *. intros c Hc ->. apply (Hd 45); [|done].
  apply list_elem_of_filter. done.
Qed.

Lemma pem_loop_armour fuel label a rest out :
  armour_ok a ->
  pem_loop (S fuel) (pem_begin label) (pem_end label) label (armour label a ++ rest) out
  = pem_loop fuel (pem_begin label) (pem_end label) label rest (out ++ [ar_der a]).
Proof.
  intros Ha. pose proof (armour_text_no_dash a Ha) as Ht. destruct Ha as (Hn & Hb & Hf).
  destruct (pem_begin_dash label) as [pb Hpb]. destruct (pem_end_dash label) as [pe Hpe].
  assert (find_str (pem_begin label) (armour label a ++ rest) = Some (length (ar_noise a))) as Hstart.
  { unfold armour. rewrite <- !app_assoc. rewrite Hpb, find_str_skip by done. rewrite <- Hpb.
    rewrite find_str_here. cbn. by rewrite Nat.add_0_r. }
  cbn [pem_loop]. rewrite Hstart. unfold armour. rewrite <- !app_assoc.
  rewrite (app_assoc (ar_noise a)), slice_from_app by (rewrite length_app; lia). cbn [mbind exec_bind].
  assert (find_str (pem_end label) (ar_text a ++ pem_end label ++ rest) = Some (length (ar_text a))) as ->.
  { rewrite Hpe, find_str_skip by done. rewrite <- Hpe, find_str_here. cbn. by rewrite Nat.add_0_r. }
  cbn [ok_or mbind exec_bind]. rewrite (slice_field 0 _ _ (ar_text a)) by by apply get_range_prefix.
  cbn [mbind exec_bind]. unfold base64_decode. rewrite base64_loop_space, Hf, base64_roundtrip_loop by done.
  cbn [mbind exec_bind app]. by rewrite (app_assoc (ar_text a)), slice_from_app by (rewrite length_app; lia).
Qed.

Lemma pem_loop_bundle fuel label bundle tail out :
  (length bundle < fuel)%nat -> Forall armour_ok bundle -> no_dash tail ->
  pem_loop fuel (pem_begin label) (pem_end label) label (concat (map (armour label) bundle) ++ tail) out
  = Ok (out ++ map ar_der bundle).
Proof.
  intros Hf Hb Ht. revert fuel out Hf. induction Hb as [|a bundle Ha _ IH]; intros [|fuel] out Hf;
    cbn [length] in Hf; try lia.
  - cbn [map concat app pem_loop]. destruct (pem_begin_dash label) as [p ->].
    rewrite find_str_none by done. by rewrite app_nil_r.
  - cbn [map concat]. rewrite <- app_assoc, pem_loop_armour by done.
    rewrite IH by lia. by rewrite <- app_assoc.
Qed.

(** Every certificate of a bundle is read, whole and in the order of the
    file, however its base64 is broken into lines and whatever text without
    dashes stands around the blocks. *)
Theorem bundle_is_read bundle tail :
  bundle <> [] -> Forall armour_ok bundle -> no_dash tail ->
  let pem := concat (map (armour "CERTIFICATE") bundle) ++ tail in
  from_utf8 pem = Some pem ->
  certificates pem = Ok (map ar_der bundle).
Proof.
  intros Hne Hb Ht pem Hu. unfold certificates, blocks. rewrite Hu. cbn [ok_or mbind exec_bind].
  unfold pem at 2. rewrite pem_loop_bundle; [|..|done|done].
  - cbn. rewrite bool_decide_false; [done|]. by destruct bundle.
  - assert (length bundle <= length (concat (map (armour "CERTIFICATE") bundle)))%nat as Hl.
    { clear. induction bundle as [|a bundle IH]; cbn [map concat length]; [lia|].
      assert (0 < length (pem_begin "CERTIFICATE"))%nat by (apply (Nat.lt_0_succ 26)).
      unfold armour at 1. rewrite !length_app. lia. }
    unfold pem. rewrite length_app. lia.
Qed.

Lemma bundle_is_read_witness :
  let man := {| ar_noise := ascii_of "# CA 1
"; ar_text := ascii_of "
TW
Fu
"; ar_der := [77; 97; 110] |} in
  certificates (armour "CERTIFICATE" man ++ armour "CERTIFICATE" man ++ [10]) = Ok [[77; 97; 110]; [77; 97; 110]].
Proof.
  intros man. assert (armour_ok man) as Hm.
  { split; [|split; [by apply is_bytes_dec_true|reflexivity]].
    repeat (apply Forall_cons; split; [done|]). constructor. }
  assert (concat (map (armour "CERTIFICATE") [man; man]) ++ [10]
          = armour "CERTIFICATE" man ++ armour "CERTIFICATE" man ++ [10]) as <- by reflexivity.
  apply (bundle_is_read [man; man] [10]); [done|by repeat constructor|by repeat constructor|].
  vm_compute. reflexivity.
Defined.

(** The bits left over behind the last octet are not looked at: two spellings
    of one octet, of which RFC 4648 admits the first. *)
Lemma trailing_bits_ignored :
  base64_decode (ascii_of "Zg==") = Ok [102] /\ base64_decode (ascii_of "Zh==") = Ok [102].
Proof. by split. Qed.
