(* ===== verification/Mschapv2.v ===== *)
(** * EAP-MSCHAPv2: the crate [caw-eapol], eap/mschapv2.rs

    The password-based method PEAP runs inside its tunnel.  MD4, SHA-1 and DES
    are RustCrypto crates and are arguments ([MschapPrims]); what is relied on
    of them ([MschapLaws]) is the length of their outputs.  Strings are their
    UTF-8 octets, and [encode_utf16] is the standard library's.

    The method is {e mutual}: [Mschapv2_authenticated] is reached only after the
    server sent the authenticator response that the password, both challenges
    and our own response determine. *)
From S2P Require Import Prelude Bytes Text Crypto Eapol Calls Eap FourWay Dot1x.

Class MschapPrims := {
  md4 : bytes -> bytes;
  sha1 : bytes -> bytes;
  des_block : bytes -> bytes -> bytes;   (* 8-octet key, 8-octet block *)
}.

Class MschapLaws `{MschapPrims} := {
  md4_length m : length (md4 m) = 16%nat;
  sha1_length m : length (sha1 m) = 20%nat;
  des_block_length k b : length (des_block k b) = 8%nat;
}.

Definition OP_CHALLENGE : Z := 1.
Definition OP_RESPONSE : Z := 2.
Definition OP_SUCCESS : Z := 3.
Definition OP_FAILURE : Z := 4.
Definition MS_HDR_LEN : nat := 4.
Definition RESPONSE_LEN : Z := 49.

Definition MAGIC1 : bytes := ascii_of "Magic server to client signing constant".
Definition MAGIC2 : bytes := ascii_of "Pad to make it do more than one iteration".

(** ** [str::encode_utf16] *)

(** The scalar value of one well-formed UTF-8 sequence. *)
Definition char_value (c : bytes) : Z :=
  match c with
  | [a] => a
  | [a; b] => Z.land a 0x1F * 64 + Z.land b 0x3F
  | [a; b; c] => Z.land a 0x0F * 4096 + Z.land b 0x3F * 64 + Z.land c 0x3F
  | [a; b; c; d] =>
      Z.land a 0x07 * 262144 + Z.land b 0x3F * 4096 + Z.land c 0x3F * 64 + Z.land d 0x3F
  | _ => 0
  end.

Definition utf16_units (v : Z) : list Z :=
  if v <? 0x10000 then [v]
  else [0xD800 + Z.shiftr (v - 0x10000) 10; 0xDC00 + Z.land (v - 0x10000) 0x3FF].

Definition encode_utf16 (s : bytes) : list Z :=
  concat (map (fun c => utf16_units (char_value c)) (utf8_chars_lossy s)).

(** ** The computations of RFC 2759 *)

(** [expand_des_key]: 56 key bits into 8 octets, the lowest bit of each ignored. *)
Definition expand_des_key (key : bytes) : bytes :=
  let k i := nth i key 0 in
  let shl v n := wrap 8 (Z.shiftl v n) in
  [ Z.land (k 0%nat) 0xfe;
    Z.lor (shl (k 0%nat) 7) (Z.shiftr (k 1%nat) 1);
    Z.lor (shl (k 1%nat) 6) (Z.shiftr (k 2%nat) 2);
    Z.lor (shl (k 2%nat) 5) (Z.shiftr (k 3%nat) 3);
    Z.lor (shl (k 3%nat) 4) (Z.shiftr (k 4%nat) 4);
    Z.lor (shl (k 4%nat) 3) (Z.shiftr (k 5%nat) 5);
    Z.lor (shl (k 5%nat) 2) (Z.shiftr (k 6%nat) 6);
    shl (k 6%nat) 1 ].

(** [const HEX] *)
Definition HEX : bytes := ascii_of "0123456789ABCDEF".

(** [constant_time_eq] *)
Definition constant_time_eq (a b : bytes) : bool :=
  if negb (length a =? length b)%nat then false
  else fold_left (fun acc '(x, y) => Z.lor acc (Z.lxor x y)) (zip a b) 0 =? 0.

(** [slice.windows(n)] *)
Definition windows (n : nat) (l : bytes) : list bytes :=
  map (fun i => take n (drop i l)) (seq 0 (S (length l) - n)).

Definition starts_with (p l : bytes) : bool := bool_decide (take (length p) l = p).

Section rfc2759.
Context `{MschapPrims}.

Definition nt_password_hash (password : bytes) : bytes :=
  md4 (concat (map (le_encode 2) (encode_utf16 password))).

Definition hash_nt_password_hash (hash : bytes) : bytes := md4 hash.

Definition challenge_hash (peer_challenge authenticator_challenge username : bytes) : bytes :=
  take 8 (sha1 (peer_challenge ++ authenticator_challenge ++ username)).

Definition des_encrypt (key plaintext : bytes) : bytes := des_block (expand_des_key key) plaintext.

Definition challenge_response (challenge password_hash : bytes) : bytes :=
  let padded := password_hash ++ replicate 5 0 in
  concat (map (fun i => des_encrypt (take 7 (drop (i * 7) padded)) challenge) (seq 0 3)).

Definition generate_nt_response (authenticator_challenge peer_challenge username password : bytes) : bytes :=
  challenge_response (challenge_hash peer_challenge authenticator_challenge username)
    (nt_password_hash password).

Definition generate_authenticator_response
    (password nt_response peer_challenge authenticator_challenge username : bytes) : bytes :=
  let password_hash_hash := hash_nt_password_hash (nt_password_hash password) in
  let digest := sha1 (password_hash_hash ++ nt_response ++ MAGIC1) in
  let challenge := challenge_hash peer_challenge authenticator_challenge username in
  let digest := sha1 (digest ++ challenge ++ MAGIC2) in
  [83; 61] ++
  concat (map (fun byte => [nth (Z.to_nat (Z.shiftr byte 4)) HEX 0;
                            nth (Z.to_nat (Z.land byte 0x0f)) HEX 0]) digest).
End rfc2759.

(** ** The method *)

Inductive MsState := AwaitingChallenge | AwaitingSuccess | Authenticated.
#[export] Instance MsState_eq_dec : EqDecision MsState.
Proof. solve_decision. Defined.

Record Mschapv2 := {
  ms_username : bytes;
  ms_password : bytes;
  ms_peer_challenge : bytes;
  ms_expected_response : option bytes;
  ms_state : MsState;
}.

Definition Mschapv2_with_peer_challenge (username password peer_challenge : bytes) : Mschapv2 :=
  {| ms_username := username; ms_password := password; ms_peer_challenge := peer_challenge;
     ms_expected_response := None; ms_state := AwaitingChallenge |}.

(** [Mschapv2::new]: the entropy source may fail. *)
Definition Mschapv2_new (random_nonce : exec Eapol.Error bytes) (username password : bytes)
  : exec Eapol.Error Mschapv2 :=
  nonce ← random_nonce;
  peer_challenge ← slice 0 16 nonce;
  Ok (Mschapv2_with_peer_challenge username password peer_challenge).

Definition Mschapv2_authenticated (m : Mschapv2) : bool := bool_decide (ms_state m = Authenticated).

Definition ms_set_expected (r : bytes) (m : Mschapv2) : Mschapv2 :=
  {| ms_username := ms_username m; ms_password := ms_password m;
     ms_peer_challenge := ms_peer_challenge m; ms_expected_response := Some r; ms_state := ms_state m |}.
Definition ms_set_state (s : MsState) (m : Mschapv2) : Mschapv2 :=
  {| ms_username := ms_username m; ms_password := ms_password m;
     ms_peer_challenge := ms_peer_challenge m; ms_expected_response := ms_expected_response m;
     ms_state := s |}.

(** [fn message] *)
Definition ms_message {E} (op_code ms_id : Z) (body : bytes) : exec E bytes :=
  l ← expect_u16 (Z.of_nat MS_HDR_LEN + len body);
  Ok ([op_code; ms_id] ++ be_encode 2 l ++ body).

Section method.
Context `{MschapPrims}.

Definition Mschapv2_on_challenge (ms_id : Z) (body : bytes) : call Mschapv2 Eapol.Error bytes :=
  match body with
  | value_size :: rest =>
      _ ← throw_if (negb (value_size =? 16)) Malformed;
      authenticator_challenge ← lift (ok_or Malformed (get_range 0 16 rest));
      m ← self;
      let nt_response := generate_nt_response authenticator_challenge (ms_peer_challenge m)
                           (ms_username m) (ms_password m) in
      _ ← update (ms_set_expected
                    (generate_authenticator_response (ms_password m) nt_response
                       (ms_peer_challenge m) authenticator_challenge (ms_username m)));
      let value := ms_peer_challenge m ++ replicate 8 0 ++ nt_response ++ [0] in
      let body := [RESPONSE_LEN] ++ value ++ ms_username m in
      _ ← update (ms_set_state AwaitingSuccess);
      lift (ms_message OP_RESPONSE ms_id body)
  | [] => throw Malformed
  end.

Definition Mschapv2_on_success (message : bytes) : call Mschapv2 Eapol.Error bytes :=
  m ← self;
  expected ← lift (ok_or UnexpectedMessage (ms_expected_response m));
  found ← lift (ok_or Rejected (find_first (starts_with [83; 61]) (windows (length expected) message)));
  _ ← throw_if (negb (constant_time_eq found expected)) Rejected;
  _ ← update (ms_set_state Authenticated);
  mret [OP_SUCCESS].

Definition Mschapv2_on_request (data : bytes) : call Mschapv2 Eapol.Error (option bytes) :=
  match data with
  | op_code :: ms_id :: hi :: lo :: rest =>
      let declared := Z.to_nat (be_decode [hi; lo]) in
      let body_len := Nat.min (declared - MS_HDR_LEN) (length rest) in
      body ← lift (slice 0 body_len rest);
      m ← self;
      if (op_code =? OP_CHALLENGE) && bool_decide (ms_state m = AwaitingChallenge)
      then Some <$> Mschapv2_on_challenge ms_id body
      else if (op_code =? OP_SUCCESS) && bool_decide (ms_state m = AwaitingSuccess)
      then Some <$> Mschapv2_on_success body
      else if op_code =? OP_FAILURE then throw Rejected
      else throw UnexpectedMessage
  | _ => throw Malformed
  end.

#[global] Instance Mschapv2_method : EapMethod Mschapv2 := {
  type_code _ := eap_type.MSCHAPV2;
  em_on_request := Mschapv2_on_request;
  msk _ := None;
}.
End method.

(** ** Comparison and key expansion *)

Lemma fold_lor_zero (l : list (Z * Z)) acc :
  fold_left (fun acc '(x, y) => Z.lor acc (Z.lxor x y)) l acc = 0
  <-> acc = 0 /\ Forall (fun '(x, y) => x = y) l.
Proof.
  revert acc. induction l as [|[x y] l IH]; intros acc; cbn [fold_left].
  - by split; [intros ->|intros [-> _]].
  - rewrite IH, Z.lor_eq_0_iff, Z.lxor_eq_0_iff, Forall_cons. tauto.
Qed.

(** Comparing without an early exit compares. *)
Lemma constant_time_eq_spec a b : constant_time_eq a b = bool_decide (a = b).
Proof.
  unfold constant_time_eq. destruct (Nat.eqb_spec (length a) (length b)) as [Hl|Hl]; cbn [negb].
  - apply eq_bool_prop_intro. rewrite bool_decide_spec. rewrite Is_true_true, Z.eqb_eq, fold_lor_zero.
    split.
    + intros [_ Hall]. revert b Hl Hall. induction a as [|x a IH]; intros [|y b]; try done.
      cbn. intros [= Hl] [-> ?]%Forall_cons. f_equal. by apply IH.
    + intros <-. split; [done|]. clear Hl. induction a; cbn; constructor; auto.
  - rewrite bool_decide_false; [done|]. by intros ->.
Qed.

(** What the cipher reads of an expanded key, which is its upper seven bits:
    the [n]-th group of seven bits of the 56-bit key. *)
Definition key_group (key : bytes) (n : nat) : Z := be_decode key / 2 ^ (49 - 7 * Z.of_nat n) mod 2 ^ 7.

Lemma expand_octet a b i j :
  is_u8 a -> is_u8 b -> 1 <= i <= 7 -> j = 8 - i ->
  Z.lor (wrap 8 (Z.shiftl a j)) (Z.shiftr b i) / 2 = (a * 256 + b) / 2 ^ (i + 1) mod 2 ^ 7.
Proof.
  intros Ha Hb Hi ->. unfold is_uint, wrap in *.
  rewrite Z.shiftl_mul_pow2, Z.shiftr_div_pow2 by lia.
  assert (i = 1 \/ i = 2 \/ i = 3 \/ i = 4 \/ i = 5 \/ i = 6 \/ i = 7) as Hc by lia.
  assert ((a * 2 ^ (8 - i)) mod 2 ^ 8 = (a mod 2 ^ i) * 2 ^ (8 - i)) as ->.
  { rewrite <- (Z.mul_mod_distr_r a (2 ^ i) (2 ^ (8 - i))), <- Z.pow_add_r by lia.
    by replace (i + (8 - i)) with 8 by lia. }
  rewrite lor_split; [|lia|]; repeat destruct Hc as [->|Hc]; try subst i.
  all: repeat match goal with
       | |- context [2 ^ ?e] => let v := eval vm_compute in (2 ^ e) in change (2 ^ e) with v
       end; change (2 ^ 8) with 256 in * .
  all: Z.div_mod_to_equations; lia.
Qed.

(** The eight octets handed to DES carry the 56 key bits in order, seven to
    an octet, above the parity bit DES ignores: none is lost, repeated or
    moved. *)
Theorem des_key_expansion key :
  length key = 7%nat -> is_bytes key ->
  map (fun o => o / 2) (expand_des_key key) = map (key_group key) (seq 0 8).
Proof.
  intros Hl Hb. do 7 (destruct key as [|? key]; [discriminate Hl|]).
  destruct key; [|discriminate Hl]. clear Hl.
  repeat match goal with H : is_bytes (_ :: _) |- _ => apply Forall_cons in H as [? ?] end.
  unfold expand_des_key, key_group, be_decode. cbn [nth map seq rev app le_decode].
  assert (forall v, is_u8 v -> Z.land v 0xfe / 2 = v / 2) as Hfe.
  { intros v Hv. apply Z.eqb_eq.
    by apply (all_octets (fun v => Z.land v 0xfe / 2 =? v / 2)). }
  assert (forall v, is_u8 v -> wrap 8 (Z.shiftl v 1) / 2 = v mod 128) as Hlast.
  { intros v Hv. apply Z.eqb_eq.
    by apply (all_octets (fun v => wrap 8 (Z.shiftl v 1) / 2 =? v mod 128)). }
  rewrite Hfe, Hlast by done.
  rewrite !expand_octet by (done || lia). clear Hfe Hlast.
  unfold is_uint in *.
  repeat match goal with
  | |- context [2 ^ ?e] => let v := eval vm_compute in (2 ^ e) in change (2 ^ e) with v
  end.
  repeat (f_equal; [Z.div_mod_to_equations; lia|]). f_equal. Z.div_mod_to_equations. lia.
Qed.

Lemma des_key_expansion_witness :
  map (fun o => o / 2) (expand_des_key [0x44; 0xeb; 0xba; 0x8d; 0x53; 0x12; 0xb8])
  = map (key_group [0x44; 0xeb; 0xba; 0x8d; 0x53; 0x12; 0xb8]) (seq 0 8).
Proof.
  apply (des_key_expansion [0x44; 0xeb; 0xba; 0x8d; 0x53; 0x12; 0xb8]); [reflexivity|].
  by apply is_bytes_dec_true.
Defined.

(** ** Mutual authentication *)

(** What the server has to say for a given authenticator challenge. *)
Definition expected_for `{MschapPrims} (m : Mschapv2) (challenge : bytes) : bytes :=
  generate_authenticator_response (ms_password m)
    (generate_nt_response challenge (ms_peer_challenge m) (ms_username m) (ms_password m))
    (ms_peer_challenge m) challenge (ms_username m).

(** The op code and the body of a message, as the method reads them. *)
Definition ms_body (data : bytes) : option (Z * bytes) :=
  match data with
  | op :: _ :: hi :: lo :: rest =>
      Some (op, take (Nat.min (Z.to_nat (be_decode [hi; lo]) - MS_HDR_LEN) (length rest)) rest)
  | _ => None
  end.

(** A challenge message carrying [c]. *)
Definition challenges (data c : bytes) : Prop :=
  exists rest, ms_body data = Some (OP_CHALLENGE, 16 :: rest)
               /\ (16 <= length rest)%nat /\ c = take 16 rest.

(** A success message that spells out [r]. *)
Definition spells (data r : bytes) : Prop :=
  exists body i, ms_body data = Some (OP_SUCCESS, body) /\ take (length r) (drop i body) = r.

Section mutual.
Context `{MschapPrims}.

(** The messages of the server, one after the other. *)
Definition Mschapv2_run (ds : list bytes) (m : Mschapv2) : Mschapv2 :=
  foldl (fun m d => fst (Mschapv2_on_request d m)) m ds.

Lemma ms_body_slice (rest : bytes) n :
  @slice Eapol.Error 0 (Nat.min n (length rest)) rest = Ok (take (Nat.min n (length rest)) rest).
Proof.
  apply slice_field, get_range_Some. split; [lia|]. by rewrite Nat.sub_0_r, drop_0.
Qed.

(** One message: what it takes to change the state. *)
Lemma Mschapv2_on_request_spec d m :
  after (Mschapv2_on_request d) m (fun m' r =>
    ms_username m' = ms_username m /\ ms_password m' = ms_password m
    /\ ms_peer_challenge m' = ms_peer_challenge m
    /\ (m' = m
        \/ (ms_state m = AwaitingChallenge /\ ms_state m' = AwaitingSuccess
            /\ exists c, challenges d c /\ ms_expected_response m' = Some (expected_for m c))
        \/ ms_state m = AwaitingSuccess /\ ms_state m' = Authenticated
           /\ ms_expected_response m' = ms_expected_response m
           /\ exists r, ms_expected_response m = Some r /\ spells d r)).
Proof.
  unfold Mschapv2_on_request.
  destruct d as [|op [|id [|hi [|lo rest]]]]; try (unfold after, throw; cbn; auto; fail).
  apply after_lift_bind. rewrite ms_body_slice. cbn [and_then].
  set (body := take _ rest). apply after_self.
  assert (ms_body (op :: id :: hi :: lo :: rest) = Some (op, body)) as Hbody by done.
  destruct (Z.eqb_spec op OP_CHALLENGE) as [->|]; cbn [andb];
    [case_bool_decide as Hs|]; [|destruct (Z.eqb_spec OP_CHALLENGE OP_SUCCESS); [done|]|].
  - unfold Mschapv2_on_challenge, fmap, call_fmap, ms_message.
    destruct body as [|vs rest'] eqn:Hb; [unfold after, mbind, call_bind, throw; cbn; auto|].
    apply after_bind, after_throw_if; [cbn; auto|]. intros Hv. bool_prop. subst vs.
    apply after_lift_bind. destruct (get_range 0 16 rest') as [c|] eqn:Hc; cbn; [|auto].
    unfold after. unfold mbind, call_bind, self, update, lift. cbn.
    assert (challenges (OP_CHALLENGE :: id :: hi :: lo :: rest) c) as Hch.
    { apply get_range_Some in Hc as [? ->]. rewrite drop_0, Nat.sub_0_r in *. exists rest'. split_and!; [done|lia|done]. }
    destruct (expect_u16 _) as [l| |]; cbn; split_and!; try done; right; left; split_and!; eauto.
  - by unfold after, throw; cbn; auto.
  - destruct (Z.eqb_spec op OP_SUCCESS) as [->|]; cbn [andb]; [case_bool_decide as Hs|].
    + unfold Mschapv2_on_success, fmap, call_fmap. apply after_bind, after_self, after_lift_bind.
      destruct (ms_expected_response m) as [r|] eqn:Hr; cbn; [|auto].
      apply after_lift_bind. destruct (find_first _ _) as [f|] eqn:Hf; cbn; [|auto].
      apply find_first_Some in Hf as [Hin _]. apply after_throw_if; [cbn; auto|].
      rewrite constant_time_eq_spec. intros Heq. bool_prop. subst f.
      unfold after. cbn. split_and!; try done. right; right. split_and!; try done.
      exists r. split; [done|].
      unfold windows in Hin. apply list_elem_of_fmap in Hin as (i & Hi & _).
      exists body, i. by rewrite Hbody.
    + by unfold after, throw; cbn; auto.
    + destruct (op =? OP_FAILURE); unfold after, throw; cbn; auto.
Qed.

(** What the state says of the messages that led to it. *)
Definition history (m0 : Mschapv2) (ds : list bytes) (m : Mschapv2) : Prop :=
  ms_username m = ms_username m0 /\ ms_password m = ms_password m0
  /\ ms_peer_challenge m = ms_peer_challenge m0
  /\ match ms_state m with
     | AwaitingChallenge => True
     | AwaitingSuccess =>
         exists ds1 d ds2 c, ds = ds1 ++ d :: ds2 /\ challenges d c
                             /\ ms_expected_response m = Some (expected_for m0 c)
     | Authenticated =>
         exists ds1 d ds2 e ds3 c,
           ds = ds1 ++ d :: ds2 ++ e :: ds3 /\ challenges d c /\ spells e (expected_for m0 c)
     end.

Lemma history_snoc m0 ds d m :
  history m0 ds m -> history m0 (ds ++ [d]) (fst (Mschapv2_on_request d m)).
Proof.
  intros (Hu & Hp & Hc & Hs).
  destruct (Mschapv2_on_request_spec d m) as (Hu' & Hp' & Hc' & Hcase).
  set (m' := fst _) in *. unfold history. rewrite Hu', Hp', Hc'.
  split_and!; [done|done|done|].
  destruct Hcase as [->|[(_ & -> & c & Hch & He)|(Hst & -> & _ & r & Hr & Hsp)]].
  - destruct (ms_state m); [done| |].
    + destruct Hs as (ds1 & x & ds2 & c & -> & ? & ?). exists ds1, x, (ds2 ++ [d]), c.
      by rewrite <- app_assoc.
    + destruct Hs as (ds1 & x & ds2 & e & ds3 & c & -> & ? & ?).
      exists ds1, x, ds2, e, (ds3 ++ [d]), c. split_and!; [|done|done].
      rewrite <- app_assoc. cbn. by rewrite <- app_assoc.
  - exists ds, d, [], c. split_and!; [done|done|]. rewrite He. unfold expected_for.
    by rewrite Hu, Hp, Hc.
  - rewrite Hst in Hs. destruct Hs as (ds1 & x & ds2 & c & -> & Hch & He).
    exists ds1, x, ds2, d, [], c. rewrite <- app_assoc. split_and!; [done|done|].
    rewrite He in Hr. by injection Hr as <-.
Qed.

Lemma run_history m0 ds :
  ms_state m0 = AwaitingChallenge -> history m0 ds (Mschapv2_run ds m0).
Proof.
  intros H0. induction ds as [|d ds IH] using rev_ind.
  - unfold history. cbn. by rewrite H0.
  - unfold Mschapv2_run. rewrite foldl_app. by apply history_snoc.
Qed.

(** Authenticated by a run, in terms of the messages of the run. *)
Lemma proved_from_run username password peer_challenge ds :
  Mschapv2_authenticated (Mschapv2_run ds (Mschapv2_with_peer_challenge username password peer_challenge)) = true ->
  exists ds1 challenge ds2 success ds3 c,
    ds = ds1 ++ challenge :: ds2 ++ success :: ds3
    /\ challenges challenge c
    /\ spells success
         (generate_authenticator_response password
            (generate_nt_response c peer_challenge username password) peer_challenge c username).
Proof.
  unfold Mschapv2_authenticated. intros Ha. bool_prop.
  destruct (run_history (Mschapv2_with_peer_challenge username password peer_challenge) ds eq_refl)
    as (_ & _ & _ & Hs). by rewrite Ha in Hs.
Qed.

(** The server is authenticated only if it first sent a challenge and later
    a success that spells out the authenticator response for that very
    challenge, our own challenge, the username and the password: terminating
    the tunnel is not enough, knowing the password is. *)
Theorem server_knows_the_password username password peer_challenge ds :
  let m0 := Mschapv2_with_peer_challenge username password peer_challenge in
  Mschapv2_authenticated (Mschapv2_run ds m0) = true ->
  exists ds1 challenge ds2 success ds3 c,
    ds = ds1 ++ challenge :: ds2 ++ success :: ds3
    /\ challenges challenge c
    /\ spells success
         (generate_authenticator_response password
            (generate_nt_response c peer_challenge username password) peer_challenge c username).
Proof. intros m0. apply proved_from_run. Qed.
End mutual.

Section answer.
Context `{MschapLaws}.

Lemma nt_response_length c pc u p : length (generate_nt_response c pc u p) = 24%nat.
Proof.
  unfold generate_nt_response, challenge_response, des_encrypt. cbn [seq map concat].
  rewrite !length_app, !des_block_length. done.
Qed.

(** The body of our response. *)
Definition response_body (m : Mschapv2) (c : bytes) : bytes :=
  [RESPONSE_LEN]
  ++ (ms_peer_challenge m ++ replicate 8 0
      ++ generate_nt_response c (ms_peer_challenge m) (ms_username m) (ms_password m) ++ [0])
  ++ ms_username m.

Lemma response_body_length m c :
  length (ms_peer_challenge m) = 16%nat ->
  Z.of_nat MS_HDR_LEN + len (response_body m c) = 54 + len (ms_username m).
Proof.
  intros Hp. unfold response_body, len, MS_HDR_LEN.
  rewrite !length_app, nt_response_length, length_replicate, Hp. cbn [length]. lia.
Qed.

(** Our answer to a challenge: the challenge's identifier, a length that
    covers the message exactly, and the peer challenge, eight reserved zeros,
    the NT response for the challenge, a zero flags octet and the username, in
    that order. *)
Theorem challenge_answer m id c name :
  ms_state m = AwaitingChallenge -> length (ms_peer_challenge m) = 16%nat ->
  length c = 16%nat -> 54 + len (ms_username m) < 2 ^ 16 -> 21 + len name < 2 ^ 16 ->
  exists request m',
    @ms_message Eapol.Error OP_CHALLENGE id (16 :: c ++ name) = Ok request
    /\ Mschapv2_on_request request m
       = (m', Ok (Some ([OP_RESPONSE; id] ++ be_encode 2 (54 + len (ms_username m)) ++ response_body m c)))
    /\ ms_expected_response m' = Some (expected_for m c) /\ ms_state m' = AwaitingSuccess.
Proof.
  intros Hs Hp Hc Hu Hn.
  assert (Z.of_nat MS_HDR_LEN + len (16 :: c ++ name) = 21 + len name) as Hlen
    by (unfold MS_HDR_LEN, len; cbn [length]; rewrite length_app, Hc; lia).
  assert (is_u16 (21 + len name)) as Hn16 by (unfold is_uint, len in *; lia).
  exists ([OP_CHALLENGE; id] ++ be_encode 2 (21 + len name) ++ 16 :: c ++ name).
  eexists. split_and!.
  - unfold ms_message. rewrite Hlen. unfold expect_u16. by rewrite (proj2 (Z.ltb_lt _ _)) by done.
  - pose proof (be16_roundtrip _ Hn16) as Hb.
    destruct (be_encode 2 (21 + len name)) as [|hi [|lo [|]]] eqn:He;
      pose proof (length_be_encode 2 (21 + len name)) as Hl; rewrite He in Hl; try discriminate Hl.
    cbn [app]. unfold Mschapv2_on_request. rewrite Hb.
    unfold mbind at 1, call_bind at 1, lift at 1. rewrite ms_body_slice.
    replace (Z.to_nat (21 + len name) - MS_HDR_LEN)%nat with (length (16 :: c ++ name))
      by (cbn [length]; rewrite length_app, Hc; unfold MS_HDR_LEN, len; lia).
    rewrite Nat.min_id, firstn_all. unfold mbind at 1, call_bind at 1, self at 1.
    rewrite Hs. change (OP_CHALLENGE =? OP_CHALLENGE) with true. rewrite bool_decide_true by done.
    cbn [andb]. unfold Mschapv2_on_challenge, fmap, call_fmap, mbind, call_bind, throw_if, mret, call_ret.
    change (negb (16 =? 16)) with false. unfold lift at 1. rewrite get_range_prefix by done. cbn [ok_or].
    unfold self, update, lift, ms_message. fold (response_body m c).
    change (ms_username (ms_set_state _ _)) with (ms_username m).
    rewrite response_body_length by done. unfold expect_u16.
    rewrite (proj2 (Z.ltb_lt _ _)) by done. reflexivity.
  - reflexivity.
  - reflexivity.
Qed.
End answer.

(** Primitives with constant outputs, to run the method on. *)
Module MsDemo.
#[export] Instance prims : MschapPrims := {
  md4 _ := replicate 16 0x11; sha1 _ := replicate 20 0x41; des_block _ _ := replicate 8 0x22 }.
#[export] Instance laws : MschapLaws.
Proof. by split. Qed.

Definition user : bytes := [85; 115; 101; 114].
Definition pass : bytes := [112; 119].
Definition peer : bytes := replicate 16 7.
Definition challenge_message : bytes := [1; 9; 0; 21; 16] ++ replicate 16 0x5b.
Definition proof : bytes := [83; 61] ++ concat (replicate 20 [52; 49]).
Definition success_message : bytes := [3; 10; 0; 46] ++ proof.
End MsDemo.
Import MsDemo.

Lemma server_knows_the_password_witness :
  Mschapv2_authenticated
    (Mschapv2_run [challenge_message; [9]; success_message] (Mschapv2_with_peer_challenge user pass peer)) = true
  /\ exists ds1 challenge ds2 success ds3 c,
    [challenge_message; [9]; success_message] = ds1 ++ challenge :: ds2 ++ success :: ds3
    /\ challenges challenge c
    /\ spells success (generate_authenticator_response pass
                         (generate_nt_response c peer user pass) peer c user).
Proof.
  split; [reflexivity|].
  apply (server_knows_the_password user pass peer [challenge_message; [9]; success_message]).
  reflexivity.
Defined.

Lemma challenge_answer_witness :
  let m := Mschapv2_with_peer_challenge user pass peer in
  exists request m',
    @ms_message Eapol.Error OP_CHALLENGE 7 (16 :: replicate 16 3 ++ [114]) = Ok request
    /\ Mschapv2_on_request request m
       = (m', Ok (Some ([OP_RESPONSE; 7] ++ be_encode 2 (54 + len user) ++ response_body m (replicate 16 3))))
    /\ ms_expected_response m' = Some (expected_for m (replicate 16 3)) /\ ms_state m' = AwaitingSuccess.
Proof.
  intros m. apply (challenge_answer m 7 (replicate 16 3) [114]); done.
Defined.
