(* ===== verification/Tunnel.v ===== *)
(** * The TLS-based EAP methods: the crate [caw-eapol], eap/tls, peap.rs, ttls.rs

    [Tunnel] (tls/mod.rs) drives a rustls connection through its buffers and
    an [Exchange]; [EapTls] (tls/mod.rs), [Peap] (peap.rs) and [Ttls] (ttls.rs)
    are the methods over it; [export_msk] (tls/export.rs) is where the key
    comes from, and [TlsConfig_build] decides what a server must prove.

    rustls is an argument: [TlsStack] names the calls the sources make on a
    [ClientConnection], [TlsSetup] the ones that build it.  [TlsLaws] says that
    writing and reading drain what was buffered, which is why the two drain
    loops end; their fuel is what is buffered. *)
From S2P Require Import Prelude Bytes Text Eapol Calls Eap FourWay Dot1x Pem Mschapv2.

(** ** rustls *)

Inductive TlsVersion := TLSv1_2 | TLSv1_3.
#[export] Instance TlsVersion_eq_dec : EqDecision TlsVersion.
Proof. solve_decision. Defined.

(** [io::Error], as far as the sources tell errors apart. *)
Inductive IoError := WouldBlock | OtherIo.

Class TlsStack (C : Type) := {
  is_handshaking : C -> bool;
  wants_write : C -> bool;
  tls_version : C -> option TlsVersion;
  read_tls : bytes -> call C IoError nat;             (* how many octets were taken *)
  process_new_packets : call C string unit;           (* an error is its text *)
  write_tls : call C IoError bytes;
  write_all : bytes -> call C IoError unit;
  read_plaintext : nat -> call C IoError bytes;       (* into a buffer of that size *)
  send_close_notify : C -> C;
  export_keying_material : C -> nat -> bytes -> option bytes -> exec string bytes;
  unwritten : C -> nat;                               (* writes outstanding *)
  unread : C -> nat;                                  (* plaintext buffered *)
}.

Class TlsLaws (C : Type) `{TlsStack C} := {
  write_tls_drains c : wants_write c = true ->
    match write_tls c with
    | (c', Ok _) => (unwritten c' < unwritten c)%nat
    | (_, Err _) => True
    | (_, Panic) => False
    end;
  read_plaintext_drains n c :
    match read_plaintext n c with
    | (c', Ok (_ :: _)) => (unread c' < unread c)%nat
    | (_, Panic) => False
    | _ => True
    end;
}.

(** ** Configuration *)

(** [Pkcs8], [Pkcs1], [Sec1]. *)
Inductive PrivateKeyEncoding := Pkcs8 (der : bytes) | Pkcs1 (der : bytes) | Sec1 (der : bytes).

Record ClientCertificate := { chain : list bytes; cc_key : PrivateKeyEncoding }.

(** [ClientCertificate::from_pem]: the first label that names a block wins, and
    an error under one label only moves on to the next. *)
Definition ClientCertificate_from_pem (certificate_pem key_pem : bytes)
  : exec Eapol.Error ClientCertificate :=
  chain ← certificates certificate_pem;
  let labels := [("PRIVATE KEY"%string, Pkcs8); ("RSA PRIVATE KEY"%string, Pkcs1);
                 ("EC PRIVATE KEY"%string, Sec1)] in
  key ← ok_or (CertificateStore "no private key block in the PEM input")
          (find_map (fun '(label, wrap) =>
             bs ← to_option (blocks key_pem label); der ← head bs; Some (wrap der)) labels);
  Ok {| chain := chain; cc_key := key |}.

(** What a server has to prove. *)
Inductive Verifier := AcceptAnyServerCertificate | RootCertificates (roots : list bytes).

Class TlsSetup (C : Type) := {
  CryptoProvider : Type;
  get_default : option CryptoProvider;
  WantsVerifier : Type;
  ClientConfig : Type;
  with_protocol_versions : CryptoProvider -> bool -> exec string WantsVerifier;   (* TLS 1.2 only? *)
  root_add : bytes -> option string;                                  (* why it was refused *)
  with_client_auth_cert : WantsVerifier -> Verifier -> ClientCertificate -> exec string ClientConfig;
  with_no_client_auth : WantsVerifier -> Verifier -> ClientConfig;
  server_name_error : bytes -> option string;
  connection_new : ClientConfig -> bytes -> exec string C;
}.

Record TlsConfig {C} `{TlsSetup C} := {
  server_name : bytes;
  ca_certificates : list bytes;
  client_certificate : option ClientCertificate;
  crypto_provider : option CryptoProvider;
  fragment_size : nat;
  danger_accept_any_server_certificate : bool;
}.
Arguments TlsConfig C {_}.

Section config.
Context {C : Type} `{TlsSetup C}.

Definition TlsConfig_new (name : bytes) : TlsConfig C :=
  {| server_name := name; ca_certificates := []; client_certificate := None;
     crypto_provider := None; fragment_size := DEFAULT_FRAGMENT_SIZE;
     danger_accept_any_server_certificate := false |}.

Definition with_ca_pem (pem_bytes : bytes) (cfg : TlsConfig C) : exec Eapol.Error (TlsConfig C) :=
  certs ← certificates pem_bytes;
  Ok {| server_name := server_name cfg; ca_certificates := ca_certificates cfg ++ certs;
        client_certificate := client_certificate cfg; crypto_provider := crypto_provider cfg;
        fragment_size := fragment_size cfg;
        danger_accept_any_server_certificate := danger_accept_any_server_certificate cfg |}.

(** [provider::resolve] *)
Definition resolve (explicit : option CryptoProvider) : exec Eapol.Error CryptoProvider :=
  match explicit with
  | Some provider => Ok provider
  | None => ok_or NoCryptoProvider get_default
  end.

(** [for der in &self.ca_certificates { roots.add(..)? }] *)
Fixpoint add_roots (ders roots : list bytes) : exec Eapol.Error (list bytes) :=
  match ders with
  | [] => Ok roots
  | der :: ders =>
      match root_add der with
      | Some why => Err (CertificateStore why)
      | None => add_roots ders (roots ++ [der])
      end
  end.

Definition TlsConfig_build (cfg : TlsConfig C) (tls12_only : bool) : exec Eapol.Error ClientConfig :=
  provider ← resolve (crypto_provider cfg);
  versions ← map_err ErrTls (with_protocol_versions provider tls12_only);
  verifier ←
    (if danger_accept_any_server_certificate cfg then Ok AcceptAnyServerCertificate
     else
       roots ← add_roots (ca_certificates cfg) [];
       if bool_decide (roots = [])
       then Err (CertificateStore "no CA certificate configured; Enterprise cannot validate the server")
       else Ok (RootCertificates roots));
  match client_certificate cfg with
  | Some cert => map_err ErrTls (with_client_auth_cert versions verifier cert)
  | None => Ok (with_no_client_auth versions verifier)
  end.
End config.

(** ** [Tunnel] *)

Record Tunnel (C : Type) := { conn : C; exchange : Exchange }.
Arguments conn {_}. Arguments exchange {_}.

Inductive TunnelEvent := TReply (type_data : bytes) | Established (plaintext : bytes).

Definition MSK_LEN : nat := 64.
Definition TLS12_LABEL_EAP_TLS : bytes := ascii_of "client EAP encryption".
Definition TLS12_LABEL_TTLS : bytes := ascii_of "ttls keying material".
Definition TLS13_LABEL : bytes := ascii_of "EXPORTER_EAP_TLS_Key_Material".

(** An error of one call as an error of the caller. *)
Definition call_map_err {S E F A} (f : E -> F) (m : call S E A) : call S F A :=
  fun s => let (s, r) := m s in (s, map_err f r).

Section tunnel.
Context {C : Type} `{TlsStack C}.

Definition set_conn (c : C) (t : Tunnel C) : Tunnel C := {| conn := c; exchange := exchange t |}.
Definition set_exchange (ex : Exchange) (t : Tunnel C) : Tunnel C := {| conn := conn t; exchange := ex |}.

Notation t_call := (call (Tunnel C) Eapol.Error).

(** A call on the connection, with its errors named. *)
Definition on_conn {E A} (f : E -> Eapol.Error) (m : call C E A) : t_call A :=
  zoom conn set_conn (call_map_err f m).

Definition Tunnel_build `{!TlsSetup C} (cfg : TlsConfig C) (tls12_only mirror_version : bool)
  : exec Eapol.Error (Tunnel C) :=
  name ← (match server_name_error (server_name cfg) with
          | Some why => Err (CertificateStore why)
          | None => Ok (server_name cfg)
          end);
  config ← TlsConfig_build cfg tls12_only;
  c ← map_err ErrTls (connection_new config name);
  Ok {| conn := c; exchange := Exchange_new (fragment_size cfg) mirror_version |}.

Definition Tunnel_new_any_version `{!TlsSetup C} (cfg : TlsConfig C) := Tunnel_build cfg false false.
Definition Tunnel_new_tls12 `{!TlsSetup C} (cfg : TlsConfig C) := Tunnel_build cfg true true.

Definition Tunnel_empty_reply (t : Tunnel C) : bytes := Exchange_empty_reply (exchange t).

(** [while !cursor.is_empty() { .. }]: at most one turn per octet. *)
Fixpoint feed_tls (fuel : nat) (cursor : bytes) : t_call unit :=
  match fuel with
  | O => mret tt
  | S fuel =>
      if bool_decide (cursor = []) then mret tt else
      taken ← on_conn (fun _ => Malformed) (read_tls cursor);
      if (taken =? 0)%nat then mret tt else
      _ ← on_conn ErrTls process_new_packets;
      feed_tls fuel (drop taken cursor)
  end.

(** [while self.conn.wants_write() { .. }] *)
Fixpoint drain_tls_loop (fuel : nat) (out : bytes) : t_call bytes :=
  t ← self;
  if negb (wants_write (conn t)) then mret out else
  match fuel with
  | O => lift Panic
  | S fuel =>
      b ← on_conn (fun _ => UnexpectedMessage) write_tls;
      drain_tls_loop fuel (out ++ b)
  end.
Definition Tunnel_drain_tls : t_call bytes :=
  t ← self; drain_tls_loop (S (unwritten (conn t))) [].

(** The loop of [drain_plaintext], 2048 octets at a time. *)
Fixpoint drain_plaintext_loop (fuel : nat) (plaintext : bytes) : t_call bytes := fun t =>
  let (c, r) := read_plaintext 2048 (conn t) in
  let t := set_conn c t in
  match r with
  | Ok [] => (t, Ok plaintext)
  | Ok chunk =>
      match fuel with
      | O => (t, Panic)
      | S fuel => drain_plaintext_loop fuel (plaintext ++ chunk) t
      end
  | Err WouldBlock => (t, Ok plaintext)
  | Err OtherIo => (t, Err Malformed)
  | Panic => (t, Panic)
  end.
Definition Tunnel_drain_plaintext : t_call bytes :=
  t ← self; drain_plaintext_loop (unread (conn t)) [].

Definition Tunnel_flush_or_established : t_call TunnelEvent :=
  records ← Tunnel_drain_tls;
  first ← zoom exchange set_exchange (Exchange_send records);
  t ← self;
  match first with
  | Some first => mret (TReply first)
  | None =>
      if is_handshaking (conn t) then mret (TReply (Tunnel_empty_reply t))
      else plaintext ← Tunnel_drain_plaintext; mret (Established plaintext)
  end.

Definition Tunnel_on_request (type_data : bytes) : t_call TunnelEvent :=
  incoming ← zoom exchange set_exchange (Exchange_on_request type_data);
  match incoming with
  | Reply type_data => mret (TReply type_data)
  | Restart => Tunnel_flush_or_established
  | Message message => _ ← feed_tls (length message) message; Tunnel_flush_or_established
  end.

Definition Tunnel_send_tunnelled (plaintext : bytes) : t_call bytes :=
  _ ← on_conn (fun _ => Malformed) (write_all plaintext);
  records ← Tunnel_drain_tls;
  first ← zoom exchange set_exchange (Exchange_send records);
  lift (ok_or UnexpectedMessage first).

Definition Tunnel_close_notify : t_call bytes :=
  _ ← update (fun t => set_conn (send_close_notify (conn t)) t);
  records ← Tunnel_drain_tls;
  first ← zoom exchange set_exchange (Exchange_send records);
  t ← self;
  mret (default (Tunnel_empty_reply t) first).

(** [export_msk] *)
Definition export_msk (c : C) (method_type : Z) (tls12_label : bytes) : exec Eapol.Error bytes :=
  match tls_version c with
  | Some TLSv1_3 =>
      material ← map_err ErrTls (export_keying_material c (2 * MSK_LEN) TLS13_LABEL (Some [method_type]));
      slice 0 MSK_LEN material
  | Some _ => map_err ErrTls (export_keying_material c MSK_LEN tls12_label None)
  | None => Err UnexpectedMessage
  end.
End tunnel.

(** ** The loops end *)

Section laws.
Context {C : Type} `{TlsLaws C}.
Implicit Types t : Tunnel C.

Lemma drain_tls_loop_ends fuel out t :
  (unwritten (conn t) < fuel)%nat -> no_panic (snd (drain_tls_loop fuel out t)).
Proof.
  revert out t. induction fuel as [|fuel IH]; intros out t Hf; [lia|]. cbn [drain_tls_loop].
  unfold mbind at 1, call_bind at 1, self at 1.
  destruct (wants_write (conn t)) eqn:Hw; cbn [negb]; [|done].
  unfold mbind, call_bind, on_conn, zoom, call_map_err. pose proof (write_tls_drains (conn t) Hw) as Hd.
  destruct (write_tls (conn t)) as [c' [b| |]]; cbn; try done. apply IH. cbn. lia.
Qed.

Lemma drain_plaintext_loop_ends fuel out t :
  (unread (conn t) <= fuel)%nat -> no_panic (snd (drain_plaintext_loop fuel out t)).
Proof.
  revert out t. induction fuel as [|fuel IH]; intros out t Hf; cbn [drain_plaintext_loop];
    pose proof (read_plaintext_drains 2048 (conn t)) as Hd;
    destruct (read_plaintext 2048 (conn t)) as [c' [[|x l]|[]|]]; try done; [lia|].
  apply IH. cbn. lia.
Qed.

(** Both loops over the TLS buffers end: whatever rustls has queued for the
    wire, and whatever plaintext it holds, is taken in as many turns as it
    holds, and the loops' own bounds are never what stops them. *)
Theorem tunnel_drains_end t :
  no_panic (snd (Tunnel_drain_tls t)) /\ no_panic (snd (Tunnel_drain_plaintext t)).
Proof.
  split.
  - apply (drain_tls_loop_ends (S (unwritten (conn t))) [] t). lia.
  - apply (drain_plaintext_loop_ends (unread (conn t)) [] t). lia.
Qed.
End laws.

(** More fuel changes nothing: a turn of [feed_tls] takes at least one octet. *)
Lemma feed_tls_fuel {C} `{TlsStack C} n cursor (t : Tunnel C) :
  (length cursor <= n)%nat -> feed_tls n cursor t = feed_tls (length cursor) cursor t.
Proof.
  revert cursor t. induction n as [n IH] using lt_wf_ind. intros cursor t Hn.
  destruct cursor as [|x l]; [by destruct n|]. destruct n as [|n]; [cbn in Hn; lia|].
  cbn [feed_tls length]. rewrite bool_decide_false by done.
  unfold mbind, call_bind. destruct (on_conn _ (read_tls (x :: l)) t) as [t1 [taken| |]]; try done.
  destruct (Nat.eqb_spec taken 0) as [|Htk]; [done|].
  destruct (on_conn _ process_new_packets t1) as [t2 [[]| |]]; try done.
  assert (length (drop taken (x :: l)) <= length l)%nat as Hd
    by (rewrite length_drop; cbn [length]; lia).
  rewrite (IH n), <- (IH (length l)); [done|cbn in *; lia|done|lia|cbn in *; lia].
Qed.

(** An established tunnel: the handshake was over and nothing was left to send
    when the plaintext was read. *)
Lemma established_after_handshake {C} `{TlsStack C} data (t t' : Tunnel C) plaintext :
  Tunnel_on_request data t = (t', Ok (Established plaintext)) ->
  exists t0, is_handshaking (conn t0) = false /\ wants_write (conn t0) = false
    /\ Tunnel_drain_plaintext t0 = (t', Ok plaintext).
Proof.
  assert (forall fuel out t1 t2 out', drain_tls_loop fuel out t1 = (t2, Ok out') ->
            wants_write (conn t2) = false) as Hdrained.
  { intros fuel. induction fuel as [|fuel IH]; intros out t1 t2 out'; cbn [drain_tls_loop];
      unfold mbind at 1, call_bind at 1, self at 1;
      destruct (wants_write (conn t1)) eqn:Hw; cbn [negb]; try (intros [=]; subst; done).
    unfold mbind, call_bind. destruct (on_conn _ write_tls t1) as [t3 [b| |]]; try done. apply IH. }
  assert (forall t1, Tunnel_flush_or_established t1 = (t', Ok (Established plaintext)) ->
    exists t0, is_handshaking (conn t0) = false /\ wants_write (conn t0) = false
      /\ Tunnel_drain_plaintext t0 = (t', Ok plaintext)) as Hflush.
  { intros t1. unfold Tunnel_flush_or_established. unfold mbind at 1, call_bind at 1.
    destruct (Tunnel_drain_tls t1) as [t2 [records| |]] eqn:Hd; try done. apply Hdrained in Hd.
    unfold mbind at 1, call_bind at 1, zoom. destruct (Exchange_send records (exchange t2)) as [ex [[f|]| |]];
      try done.
    unfold mbind at 1, call_bind at 1, self at 1.
    destruct (is_handshaking (conn (set_exchange ex t2))) eqn:Hh; [done|].
    unfold mbind, call_bind. destruct (Tunnel_drain_plaintext _) as [t3 [p| |]] eqn:Hp; try done.
    intros [=]; subst. by exists (set_exchange ex t2). }
  unfold Tunnel_on_request. unfold mbind at 1, call_bind at 1, zoom.
  destruct (Exchange_on_request data (exchange t)) as [ex [[| |]| |]]; try done.
  - apply Hflush.
  - unfold mbind, call_bind. destruct (feed_tls _ _ _) as [t1 [[]| |]]; try done. apply Hflush.
Qed.

(** ** Trust *)

Section trust.
Context {C : Type} `{TlsStack C} `{!TlsSetup C}.

Lemma add_roots_ok ders roots rs : add_roots ders roots = Ok rs -> rs = roots ++ ders.
Proof.
  revert roots. induction ders as [|d ders IH]; intros roots; cbn [add_roots].
  - intros [= <-]. by rewrite app_nil_r.
  - destruct (root_add d); [done|]. intros ->%IH. by rewrite <- app_assoc.
Qed.

(** What building a tunnel went through. *)
Lemma build_anchored (cfg : TlsConfig C) tls12_only mirror t :
  Tunnel_build cfg tls12_only mirror = Ok t ->
  danger_accept_any_server_certificate cfg = false ->
  ca_certificates cfg <> [] /\
  exists provider versions config,
    with_protocol_versions provider tls12_only = Ok versions
    /\ match client_certificate cfg with
       | Some cert => with_client_auth_cert versions (RootCertificates (ca_certificates cfg)) cert = Ok config
       | None => config = with_no_client_auth versions (RootCertificates (ca_certificates cfg))
       end
    /\ connection_new config (server_name cfg) = Ok (conn t).
Proof.
  unfold Tunnel_build, TlsConfig_build. intros Hb Hd. rewrite Hd in Hb.
  destruct (server_name_error _); [done|]. cbn [mbind exec_bind] in Hb.
  inv_ok. cbn [conn].
  match goal with Hr : (if bool_decide _ then _ else _) = Ok _ |- _ => case_bool_decide; [discriminate Hr|] end.
  inv_ok. match goal with Hr : add_roots _ _ = Ok _ |- _ => apply add_roots_ok in Hr as -> end.
  cbn [app] in *. split; [done|].
  destruct (client_certificate cfg); inv_ok; eauto 10.
Qed.
(** A tunnel is only ever built on a connection that checks the server
    against the configured trust anchors, of which there is at least one --
    unless the configuration says, by name, to accept anyone. *)
Theorem no_tunnel_without_anchor (cfg : TlsConfig C) tls12_only mirror t :
  Tunnel_build cfg tls12_only mirror = Ok t ->
  danger_accept_any_server_certificate cfg = false ->
  ca_certificates cfg <> [] /\
  exists provider versions config,
    with_protocol_versions provider tls12_only = Ok versions
    /\ match client_certificate cfg with
       | Some cert => with_client_auth_cert versions (RootCertificates (ca_certificates cfg)) cert = Ok config
       | None => config = with_no_client_auth versions (RootCertificates (ca_certificates cfg))
       end
    /\ connection_new config (server_name cfg) = Ok (conn t).
Proof. apply build_anchored. Qed.
End trust.

(** A connection without cryptography: its handshake is one message each way,
    and application data crosses it as it is. *)
Module TlsDemo.
Record connection := { d_handshaking : bool; d_out : list bytes; d_in : bytes }.

(** Octets and records waiting for the wire. *)
Fixpoint outstanding (l : list bytes) : Z :=
  match l with [] => 0 | b :: l => 1 + len b + outstanding l end.

Lemma outstanding_nonneg l : 0 <= outstanding l.
Proof. induction l as [|b l IH]; cbn [outstanding]; unfold len; lia. Qed.

#[export] Instance stack : TlsStack connection := {
  is_handshaking := d_handshaking;
  wants_write c := negb (bool_decide (d_out c = []));
  tls_version c := if d_handshaking c then None else Some TLSv1_2;
  read_tls b c :=
    (if d_handshaking c then {| d_handshaking := false; d_out := d_out c; d_in := d_in c |}
     else {| d_handshaking := false; d_out := d_out c; d_in := d_in c ++ b |}, Ok (length b));
  process_new_packets c := (c, Ok tt);
  write_tls c :=
    ({| d_handshaking := d_handshaking c; d_out := tail (d_out c); d_in := d_in c |},
     Ok (default [] (head (d_out c))));
  write_all b c :=
    if outstanding (d_out c ++ [b]) <? 65536
    then ({| d_handshaking := d_handshaking c; d_out := d_out c ++ [b]; d_in := d_in c |}, Ok tt)
    else (c, Err OtherIo);
  read_plaintext n c :=
    ({| d_handshaking := d_handshaking c; d_out := d_out c; d_in := drop n (d_in c) |},
     if bool_decide (d_in c = []) then Err WouldBlock else Ok (take n (d_in c)));
  send_close_notify c := c;
  export_keying_material _ n _ _ := Ok (replicate n 9);
  unwritten c := Z.to_nat (outstanding (d_out c));
  unread c := length (d_in c);
}.

#[export] Instance laws : TlsLaws connection.
Proof.
  split.
  - intros [hs [|b out] inp]; cbn -[outstanding]; [done|]. intros _. cbn [tail outstanding].
    pose proof (outstanding_nonneg out). unfold len. lia.
  - intros n [hs out inp]. cbn. case_bool_decide; [done|].
    destruct (take n inp) eqn:Ht; [done|]. cbn. rewrite length_drop.
    assert (0 < length (take n inp))%nat as Hl by (rewrite Ht; cbn; lia).
    rewrite length_take in Hl. lia.
Qed.

#[export] Instance setup : TlsSetup connection := {
  CryptoProvider := unit; get_default := Some tt; WantsVerifier := bool;
  ClientConfig := bool * Verifier;
  with_protocol_versions _ tls12 := Ok tls12; root_add _ := None;
  with_client_auth_cert v r _ := Ok (v, r); with_no_client_auth v r := (v, r);
  server_name_error _ := None;
  connection_new _ _ := Ok {| d_handshaking := true; d_out := [[22; 3]]; d_in := [] |};
}.

Definition config : TlsConfig connection :=
  {| server_name := [114]; ca_certificates := [[77; 97; 110]]; client_certificate := None;
     crypto_provider := None; fragment_size := DEFAULT_FRAGMENT_SIZE;
     danger_accept_any_server_certificate := false |}.

Definition fresh : connection := {| d_handshaking := true; d_out := [[22; 3]]; d_in := [] |}.
Definition tunnel : Tunnel connection :=
  {| conn := fresh; exchange := Exchange_new DEFAULT_FRAGMENT_SIZE true |}.
End TlsDemo.
Import TlsDemo.

Lemma tunnel_drains_end_witness :
  no_panic (snd (Tunnel_drain_tls TlsDemo.tunnel)) /\ no_panic (snd (Tunnel_drain_plaintext TlsDemo.tunnel)).
Proof. apply (tunnel_drains_end TlsDemo.tunnel). Defined.

Lemma no_tunnel_without_anchor_witness :
  exists t, Tunnel_build TlsDemo.config true true = Ok t /\ ca_certificates TlsDemo.config <> [].
Proof.
  eexists. split; [reflexivity|].
  edestruct (no_tunnel_without_anchor TlsDemo.config true true TlsDemo.tunnel) as [H _];
    [reflexivity|reflexivity|exact H].
Defined.
