(* ===== verification/TlsMethods.v ===== *)
(** * EAP-TLS, PEAP and EAP-TTLS: the crate [caw-eapol], eap/tls, peap.rs, ttls.rs

    The three methods over a [Tunnel]: [EapTls] (tls/mod.rs) with no inner
    method, [Peap] (peap.rs) with MSCHAPv2 and a protected result inside, and
    [Ttls] (ttls.rs) with the password itself inside.  Each is an [EapMethod],
    so 802.1X runs over it; [peap_key_needs_the_password] is what its key is
    worth. *)
From S2P Require Import Prelude Bytes Text Crypto Eapol Calls Eap FourWay Dot1x Pem Mschapv2 Tunnel.

(** ** [EapTls] *)

Record EapTls (C : Type) := { et_tunnel : Tunnel C; et_msk : option bytes }.
Arguments et_tunnel {_}. Arguments et_msk {_}.

Section eap_tls.
Context {C : Type} `{TlsStack C}.

Definition EapTls_new `{!TlsSetup C} (config : TlsConfig C) : exec Eapol.Error (EapTls C) :=
  tunnel ← Tunnel_new_any_version config; Ok {| et_tunnel := tunnel; et_msk := None |}.

Definition et_set_tunnel (t : Tunnel C) (m : EapTls C) : EapTls C :=
  {| et_tunnel := t; et_msk := et_msk m |}.
Definition et_set_msk (k : bytes) (m : EapTls C) : EapTls C :=
  {| et_tunnel := et_tunnel m; et_msk := Some k |}.

Definition EapTls_on_request (data : bytes) : call (EapTls C) Eapol.Error (option bytes) :=
  event ← zoom et_tunnel et_set_tunnel (Tunnel_on_request data);
  match event with
  | TReply type_data => mret (Some type_data)
  | Established plaintext =>
      m ← self;
      _ ← match et_msk m with
          | None =>
              k ← lift (export_msk (conn (et_tunnel m)) eap_type.TLS TLS12_LABEL_EAP_TLS);
              update (et_set_msk k)
          | Some _ => mret tt
          end;
      if bool_decide (plaintext = [])
      then m ← self; mret (Some (Tunnel_empty_reply (et_tunnel m)))
      else Some <$> zoom et_tunnel et_set_tunnel Tunnel_close_notify
  end.

#[global] Instance EapTls_method : EapMethod (EapTls C) := {
  type_code _ := eap_type.TLS;
  em_on_request := EapTls_on_request;
  msk := et_msk;
}.
End eap_tls.

(** ** [Peap] *)

Definition TLV_RESULT : Z := 3.
Definition TLV_MANDATORY : Z := 0x8000.
Definition TLV_RESULT_SUCCESS : Z := 1.
Definition TLV_RESULT_FAILURE : Z := 2.

Definition result_tlv (result : Z) : bytes :=
  be_encode 2 (Z.lor TLV_MANDATORY TLV_RESULT) ++ be_encode 2 2 ++ be_encode 2 result.

(** [find_result_tlv]: a TLV is at least its four octets, so the length of the
    run is fuel enough. *)
Fixpoint find_result_tlv_loop (fuel : nat) (data : bytes) : option Z :=
  match fuel, data with
  | S fuel, t1 :: t0 :: l1 :: l0 :: rest =>
      let tlv_type := Z.land (be_decode [t1; t0]) (Z.lnot TLV_MANDATORY) in
      let len := Z.to_nat (be_decode [l1; l0]) in
      value ← get_range 0 len rest;
      if tlv_type =? TLV_RESULT
      then x ← value !! 0%nat; y ← value !! 1%nat; Some (be_decode [x; y])
      else find_result_tlv_loop fuel (drop len rest)
  | _, _ => None
  end.
Definition find_result_tlv (data : bytes) : option Z := find_result_tlv_loop (length data) data.

Record Peap (C : Type) := {
  pe_tunnel : Tunnel C;
  inner_identity : bytes;
  inner : Mschapv2;
  tunnel_msk : option bytes;
  authenticated : bool;
}.
Arguments pe_tunnel {_}. Arguments inner_identity {_}. Arguments inner {_}.
Arguments tunnel_msk {_}. Arguments authenticated {_}.

Section peap.
Context {C : Type} `{TlsStack C} `{MschapPrims}.

Definition Peap_new `{!TlsSetup C} (random_nonce : exec Eapol.Error bytes) (config : TlsConfig C)
    (identity password : bytes) : exec Eapol.Error (Peap C) :=
  tunnel ← Tunnel_new_tls12 config;
  inner ← Mschapv2_new random_nonce identity password;
  Ok {| pe_tunnel := tunnel; inner_identity := identity; inner := inner; tunnel_msk := None;
        authenticated := false |}.

Definition pe_set_tunnel (t : Tunnel C) (p : Peap C) : Peap C :=
  {| pe_tunnel := t; inner_identity := inner_identity p; inner := inner p;
     tunnel_msk := tunnel_msk p; authenticated := authenticated p |}.
Definition pe_set_inner (m : Mschapv2) (p : Peap C) : Peap C :=
  {| pe_tunnel := pe_tunnel p; inner_identity := inner_identity p; inner := m;
     tunnel_msk := tunnel_msk p; authenticated := authenticated p |}.
Definition pe_set_msk (k : bytes) (p : Peap C) : Peap C :=
  {| pe_tunnel := pe_tunnel p; inner_identity := inner_identity p; inner := inner p;
     tunnel_msk := Some k; authenticated := authenticated p |}.
Definition pe_set_authenticated (p : Peap C) : Peap C :=
  {| pe_tunnel := pe_tunnel p; inner_identity := inner_identity p; inner := inner p;
     tunnel_msk := tunnel_msk p; authenticated := true |}.

Notation p_call := (call (Peap C) Eapol.Error).

Definition Peap_on_result_tlv (id : Z) (type_data : bytes) : p_call (option bytes) :=
  result ← lift (ok_or Malformed (find_result_tlv type_data));
  if result =? TLV_RESULT_SUCCESS then
    p ← self;
    _ ← throw_if (negb (Mschapv2_authenticated (inner p))) PrematureSuccess;
    _ ← update pe_set_authenticated;
    Some <$> lift (EapPacket_response id eap_type.TLV (result_tlv TLV_RESULT_SUCCESS))
  else if result =? TLV_RESULT_FAILURE then throw Rejected
  else throw Malformed.

Definition Peap_phase2 (plaintext : bytes) : p_call (option bytes) :=
  packet ← lift (EapPacket_parse plaintext);
  let id := eap_identifier packet in
  match eap_code packet with
  | Request =>
      ty ← lift (ok_or Malformed (EapPacket_eap_type packet));
      p ← self;
      if ty =? eap_type.IDENTITY then
        Some <$> lift (EapPacket_response id eap_type.IDENTITY (inner_identity p))
      else if ty =? eap_type.MSCHAPV2 then
        answer ← zoom inner pe_set_inner (em_on_request (EapPacket_type_data packet));
        match answer with
        | Some td => Some <$> lift (EapPacket_response id eap_type.MSCHAPV2 td)
        | None => mret None
        end
      else if ty =? eap_type.TLV then Peap_on_result_tlv id (EapPacket_type_data packet)
      else Some <$> lift (EapPacket_nak id [eap_type.MSCHAPV2])
  | Success => mret None
  | Failure => throw Rejected
  | Response => mret None
  end.

Definition Peap_on_request (data : bytes) : p_call (option bytes) :=
  event ← zoom pe_tunnel pe_set_tunnel (Tunnel_on_request data);
  match event with
  | TReply type_data => mret (Some type_data)
  | Established plaintext =>
      p ← self;
      _ ← match tunnel_msk p with
          | None =>
              k ← lift (export_msk (conn (pe_tunnel p)) eap_type.PEAP TLS12_LABEL_EAP_TLS);
              update (pe_set_msk k)
          | Some _ => mret tt
          end;
      if bool_decide (plaintext = [])
      then p ← self; mret (Some (Tunnel_empty_reply (pe_tunnel p)))
      else
        answer ← Peap_phase2 plaintext;
        match answer with
        | Some inner => Some <$> zoom pe_tunnel pe_set_tunnel (Tunnel_send_tunnelled inner)
        | None => p ← self; mret (Some (Tunnel_empty_reply (pe_tunnel p)))
        end
  end.

Definition Peap_msk (p : Peap C) : option bytes := if authenticated p then tunnel_msk p else None.

#[global] Instance Peap_method : EapMethod (Peap C) := {
  type_code _ := eap_type.PEAP;
  em_on_request := Peap_on_request;
  msk := Peap_msk;
}.
End peap.

(** ** [Ttls] *)

Definition AVP_USER_NAME : Z := 1.
Definition AVP_USER_PASSWORD : Z := 2.
Definition AVP_FLAG_MANDATORY : Z := 0x40.
Definition AVP_HDR_LEN : nat := 8.

(** [encode_avp]: what is appended. *)
Definition encode_avp (code : Z) (data : bytes) : bytes :=
  let l := (AVP_HDR_LEN + length data)%nat in
  be_encode 4 code ++ [AVP_FLAG_MANDATORY] ++ drop 1 (be_encode 4 (wrap 32 (Z.of_nat l))) ++ data
  ++ replicate ((4 - l mod 4) mod 4) 0.

Record Ttls (C : Type) := {
  tt_tunnel : Tunnel C;
  tt_username : bytes;
  tt_password : bytes;
  credentials_sent : bool;
  tt_msk : option bytes;
}.
Arguments tt_tunnel {_}. Arguments tt_username {_}. Arguments tt_password {_}.
Arguments credentials_sent {_}. Arguments tt_msk {_}.

(** The password, padded to a multiple of sixteen. *)
Definition padded_password (password : bytes) : bytes :=
  let remainder := (length password mod 16)%nat in
  if (remainder =? 0)%nat then password else password ++ replicate (16 - remainder) 0.

Definition Ttls_credentials (username password : bytes) : bytes :=
  encode_avp AVP_USER_NAME username ++ encode_avp AVP_USER_PASSWORD (padded_password password).

Section ttls.
Context {C : Type} `{TlsStack C}.

Definition Ttls_new `{!TlsSetup C} (config : TlsConfig C) (username password : bytes)
  : exec Eapol.Error (Ttls C) :=
  tunnel ← Tunnel_new_tls12 config;
  Ok {| tt_tunnel := tunnel; tt_username := username; tt_password := password;
        credentials_sent := false; tt_msk := None |}.

Definition tt_set_tunnel (t : Tunnel C) (m : Ttls C) : Ttls C :=
  {| tt_tunnel := t; tt_username := tt_username m; tt_password := tt_password m;
     credentials_sent := credentials_sent m; tt_msk := tt_msk m |}.
Definition tt_set_msk (k : bytes) (m : Ttls C) : Ttls C :=
  {| tt_tunnel := tt_tunnel m; tt_username := tt_username m; tt_password := tt_password m;
     credentials_sent := credentials_sent m; tt_msk := Some k |}.
Definition tt_set_sent (m : Ttls C) : Ttls C :=
  {| tt_tunnel := tt_tunnel m; tt_username := tt_username m; tt_password := tt_password m;
     credentials_sent := true; tt_msk := tt_msk m |}.

Definition Ttls_on_request (data : bytes) : call (Ttls C) Eapol.Error (option bytes) :=
  event ← zoom tt_tunnel tt_set_tunnel (Tunnel_on_request data);
  match event with
  | TReply type_data => mret (Some type_data)
  | Established _ =>
      m ← self;
      if credentials_sent m then mret (Some (Tunnel_empty_reply (tt_tunnel m))) else
      k ← lift (export_msk (conn (tt_tunnel m)) eap_type.TTLS TLS12_LABEL_TTLS);
      _ ← update (tt_set_msk k);
      _ ← update tt_set_sent;
      let avps := Ttls_credentials (tt_username m) (tt_password m) in
      Some <$> zoom tt_tunnel tt_set_tunnel (Tunnel_send_tunnelled avps)
  end.

#[global] Instance Ttls_method : EapMethod (Ttls C) := {
  type_code _ := eap_type.TTLS;
  em_on_request := Ttls_on_request;
  msk := tt_msk;
}.
End ttls.

(** ** What PEAP's key is worth *)

Section peap_key.
Context {C : Type} `{TlsStack C} `{MschapPrims}.
Implicit Types p : Peap C.

(** The key of a tunnel, if it can be exported. *)
Definition exported (t : Tunnel C) : option bytes :=
  to_option (export_msk (conn t) eap_type.PEAP TLS12_LABEL_EAP_TLS).

(** The MSCHAPv2 messages a request delivers through the tunnel. *)
Definition delivered (d : bytes) p : list bytes :=
  match Tunnel_on_request d (pe_tunnel p) with
  | (t, Ok (Established plaintext)) =>
      if is_none (tunnel_msk p) && is_none (exported t) then [] else
      match EapPacket_parse plaintext with
      | Ok packet =>
          if bool_decide (eap_code packet = Request)
             && bool_decide (EapPacket_eap_type packet = Some eap_type.MSCHAPV2)
          then [EapPacket_type_data packet] else []
      | _ => []
      end
  | _ => []
  end.

Fixpoint peap_delivered (ds : list bytes) p : list bytes :=
  match ds with
  | [] => []
  | d :: ds => delivered d p ++ peap_delivered ds (fst (Peap_on_request d p))
  end.

Lemma phase2_spec plaintext p :
  after (Peap_phase2 plaintext) p (fun p' _ =>
    tunnel_msk p' = tunnel_msk p /\ pe_tunnel p' = pe_tunnel p
    /\ inner p' = Mschapv2_run
         (match EapPacket_parse plaintext with
          | Ok packet =>
              if bool_decide (eap_code packet = Request)
                 && bool_decide (EapPacket_eap_type packet = Some eap_type.MSCHAPV2)
              then [EapPacket_type_data packet] else []
          | _ => []
          end) (inner p)
    /\ (authenticated p' = true -> authenticated p = true \/ Mschapv2_authenticated (inner p') = true)).
Proof.
  unfold Peap_phase2. apply after_lift_bind.
  destruct (EapPacket_parse plaintext) as [packet| |]; cbn [and_then]; [|split_and!; auto..].
  destruct (eap_code packet) eqn:Hc; cbn [andb]; try (run_call; split_and!; auto; fail).
  rewrite (bool_decide_true (Request = Request)) by done. cbn [andb].
  apply after_lift_bind. destruct (EapPacket_eap_type packet) as [ty|] eqn:Hty; cbn [ok_or and_then];
    [|split_and!; auto].
  apply after_self.
  assert (forall m : exec Eapol.Error bytes, after (Some <$> lift m) p (fun p' _ =>
    tunnel_msk p' = tunnel_msk p /\ pe_tunnel p' = pe_tunnel p /\ inner p' = inner p
    /\ (authenticated p' = true -> authenticated p = true \/ Mschapv2_authenticated (inner p') = true)))
    as Hpure by (intros m; unfold fmap, call_fmap; run_call; split_and!; auto).
  destruct (Z.eqb_spec ty eap_type.IDENTITY) as [->|]; [apply Hpure|].
  destruct (Z.eqb_spec ty eap_type.MSCHAPV2) as [->|Hne].
  - rewrite bool_decide_true by done. cbn [em_on_request Mschapv2_method].
    unfold Mschapv2_run. cbn [foldl]. unfold fmap, call_fmap, mbind, call_bind, zoom, after.
    destruct (Mschapv2_on_request _ (inner p)) as [m' [[td|]| |]]; cbn [fst snd]; unfold lift, mret, call_ret;
      try (cbn; split_and!; auto; fail).
    destruct (EapPacket_response _ _ _); cbn; split_and!; auto.
  - rewrite bool_decide_false by congruence. destruct (ty =? eap_type.TLV); [|apply Hpure].
    unfold Peap_on_result_tlv. apply after_lift_bind.
    destruct (find_result_tlv _) as [r|]; cbn [ok_or and_then]; [|split_and!; auto].
    destruct (r =? TLV_RESULT_SUCCESS); [|destruct (r =? TLV_RESULT_FAILURE); run_call; split_and!; auto].
    apply after_self, after_throw_if; [intros _; split_and!; auto|]. intros Ha. bool_prop.
    unfold fmap, call_fmap. run_call; split_and!; auto.
Qed.

(** The plaintext of an established tunnel goes to phase 2 as it is. *)
Lemma request_spec d p :
  after (Peap_on_request d) p (fun p' _ =>
    inner p' = Mschapv2_run (delivered d p) (inner p)
    /\ (authenticated p' = true -> authenticated p = true \/ Mschapv2_authenticated (inner p') = true)
    /\ (tunnel_msk p' = tunnel_msk p
        \/ exists t plaintext k, Tunnel_on_request d (pe_tunnel p) = (t, Ok (Established plaintext))
             /\ exported t = Some k /\ tunnel_msk p' = Some k)).
Proof.
  unfold Peap_on_request, delivered. apply after_zoom_bind. intros t r Ht. rewrite Ht.
  destruct r as [[td|plaintext]| |]; cbn [and_then]; try (split_and!; auto; fail).
  apply after_self. unfold exported. cbn [tunnel_msk pe_tunnel pe_set_tunnel].
  set (p1 := pe_set_tunnel t p).
  assert (forall p2, inner p2 = inner p -> authenticated p2 = authenticated p ->
    (tunnel_msk p2 = tunnel_msk p \/ exists k, exported t = Some k /\ tunnel_msk p2 = Some k) ->
    after (if bool_decide (plaintext = [])
           then p ← self; mret (Some (Tunnel_empty_reply (pe_tunnel p)))
           else answer ← Peap_phase2 plaintext;
                match answer with
                | Some inner => Some <$> zoom pe_tunnel pe_set_tunnel (Tunnel_send_tunnelled inner)
                | None => p ← self; mret (Some (Tunnel_empty_reply (pe_tunnel p)))
                end) p2 (fun p' _ =>
      inner p' = Mschapv2_run
         (match EapPacket_parse plaintext with
          | Ok packet =>
              if bool_decide (eap_code packet = Request)
                 && bool_decide (EapPacket_eap_type packet = Some eap_type.MSCHAPV2)
              then [EapPacket_type_data packet] else []
          | _ => []
          end) (inner p)
      /\ (authenticated p' = true -> authenticated p = true \/ Mschapv2_authenticated (inner p') = true)
      /\ (tunnel_msk p' = tunnel_msk p \/ exists k, exported t = Some k /\ tunnel_msk p' = Some k)))
    as Hrest.
  { intros p2 Hi Ha Hm. case_bool_decide as Hp.
    - subst plaintext. apply after_self, after_ret. cbn. rewrite Hi, Ha. auto.
    - apply after_bind. eapply after_mono; [apply phase2_spec|].
      intros p3 r (Hm3 & _ & Hi3 & Ha3). rewrite Hi in Hi3. rewrite Ha in Ha3. rewrite <- Hm3 in Hm.
      destruct r as [[inner'|]| |]; cbn [and_then]; try (apply after_self, after_ret); auto.
      unfold fmap, call_fmap. unfold after, mbind, call_bind, zoom.
      destruct (Tunnel_send_tunnelled _ _) as [t' [b| |]]; auto. }
  destruct (tunnel_msk p) as [k0|] eqn:Hk0; cbn [is_none is_some negb andb].
  - eapply after_mono; [apply Hrest; auto|]. intros p' r (Hi & Ha & Hm). split_and!; auto.
    destruct Hm as [|(k & ? & ?)]; [auto|]. right. by exists t, plaintext, k.
  - unfold exported in Hrest. apply after_bind, after_lift_bind. cbn [conn pe_tunnel p1 pe_set_tunnel].
    destruct (export_msk (conn t) eap_type.PEAP TLS12_LABEL_EAP_TLS) as [k| |] eqn:Hk;
      cbn [and_then to_option is_none is_some negb]; try (split_and!; auto; fail).
    unfold after at 1, update. cbn [fst snd and_then].
    eapply after_mono; [apply (Hrest (pe_set_msk k p1)); eauto|].
    intros p' r (Hi & Ha & Hm). split_and!; auto.
    destruct Hm as [|(k' & Hk' & ?)]; [auto|]. right. exists t, plaintext, k'.
    unfold exported. rewrite Hk. auto.
Qed.

(** Once authenticated, the inner method stays so. *)
Lemma inner_stays ms m :
  Mschapv2_authenticated m = true -> Mschapv2_authenticated (Mschapv2_run ms m) = true.
Proof.
  unfold Mschapv2_authenticated. intros Hm. bool_prop. apply bool_decide_eq_true.
  revert m Hm. induction ms as [|d ms IH]; intros m Hm; [done|]. apply IH.
  destruct (Mschapv2_on_request_spec d m) as (_ & _ & _ & [->|[(Hs & _)|(Hs & _)]]); congruence.
Qed.

Definition peap_ok p0 (ms : list bytes) p : Prop :=
  inner p = Mschapv2_run ms (inner p0)
  /\ (authenticated p = true -> Mschapv2_authenticated (inner p) = true)
  /\ (forall k, tunnel_msk p = Some k -> exists t t' d plaintext,
        Tunnel_on_request d t = (t', Ok (Established plaintext)) /\ exported t' = Some k).

Lemma peap_run_ok ds p0 ms p :
  peap_ok p0 ms p -> peap_ok p0 (ms ++ peap_delivered ds p) (method_run ds p).
Proof.
  revert ms p. induction ds as [|d ds IH]; intros ms p (Hi & Ha & Hk); cbn [peap_delivered].
  - by rewrite app_nil_r.
  - unfold method_run. cbn [foldl em_on_request Peap_method]. rewrite app_assoc. apply IH.
    destruct (request_spec d p) as (Hi' & Ha' & Hk'). unfold peap_ok. split_and!.
    + rewrite Hi', Hi. unfold Mschapv2_run. by rewrite foldl_app.
    + intros Hp. destruct (Ha' Hp) as [Hq|Hq]; [|done]. rewrite Hi'. by apply inner_stays, Ha.
    + intros k Hp. destruct Hk' as [Heq|(t & plaintext & k' & Ht & He & Heq)]; rewrite Heq in Hp.
      * by apply Hk.
      * injection Hp as ->. by exists (pe_tunnel p), t, d, plaintext.
Qed.

(** A PEAP method as [Peap::new] makes it. *)
Definition peap_fresh (t : Tunnel C) (identity password peer_challenge : bytes) : Peap C :=
  {| pe_tunnel := t; inner_identity := identity;
     inner := Mschapv2_with_peer_challenge identity password peer_challenge;
     tunnel_msk := None; authenticated := false |}.

Lemma peap_key t identity password peer_challenge ds k :
  let p0 := peap_fresh t identity password peer_challenge in
  Peap_msk (method_run ds p0) = Some k ->
  Mschapv2_authenticated
    (Mschapv2_run (peap_delivered ds p0) (Mschapv2_with_peer_challenge identity password peer_challenge)) = true
  /\ exists t t' d plaintext,
      Tunnel_on_request d t = (t', Ok (Established plaintext))
      /\ export_msk (conn t') eap_type.PEAP TLS12_LABEL_EAP_TLS = Ok k.
Proof.
  intros p0 Hk. destruct (peap_run_ok ds p0 [] p0) as (Hi & Ha & He); [by split_and!|].
  cbn [app] in Hi. unfold Peap_msk in Hk. destruct (authenticated (method_run ds p0)) eqn:Hauth; [|done].
  change (inner p0) with (Mschapv2_with_peer_challenge identity password peer_challenge) in Hi.
  split; [rewrite <- Hi; by apply Ha|].
  destruct (He k Hk) as (t1 & t2 & d & pl & Ht & Hx). exists t1, t2, d, pl. split; [done|].
  unfold exported in Hx. by destruct (export_msk _ _ _); simplify_eq/=.
Qed.
End peap_key.

(** C7. 802.1X over PEAP: if a PMK comes out, the MSCHAPv2 messages delivered
    through the tunnel by then contain a challenge and, later, a success that
    spells out the authenticator response only the password yields for it; and
    the PMK is the first half of a key exported from an established tunnel.
    No EAP-Success, and no certificate on its own, is enough. *)
Theorem enterprise_key_needs_the_password {C} `{TlsStack C} `{MschapPrims}
    (t : Tunnel C) outer username password peer_challenge ins pmk :
  let p0 := peap_fresh t username password peer_challenge in
  let dx := Dot1x_new outer p0 in
  Ok (Crypto.Done pmk) ∈ snd (Dot1x_run ins dx) ->
  exists ins1 ins2 ms1 challenge ms2 success ms3 c,
    ins = ins1 ++ ins2
    /\ peap_delivered (method_requests ins1 dx) p0 = ms1 ++ challenge :: ms2 ++ success :: ms3
    /\ challenges challenge c
    /\ spells success
         (generate_authenticator_response password
            (generate_nt_response c peer_challenge username password) peer_challenge c username)
    /\ exists t t' d plaintext k,
         Tunnel_on_request d t = (t', Ok (Established plaintext))
         /\ export_msk (conn t') eap_type.PEAP TLS12_LABEL_EAP_TLS = Ok k /\ pmk = take 32 k.
Proof.
  intros p0 dx (ins1 & ins2 & k & -> & Hk & ->)%run_pmk.
  destruct (peap_key t username password peer_challenge _ k Hk) as (Ha & t1 & t2 & d & pl & Ht & Hx).
  destruct (proved_from_run _ _ _ _ Ha) as (ms1 & ch & ms2 & su & ms3 & c & Hms & Hc & Hs).
  exists ins1, ins2, ms1, ch, ms2, su, ms3, c. split_and!; [done|exact Hms|done|done|].
  by exists t1, t2, d, pl, k.
Qed.

(** A whole conversation, over the connection and the primitives of the demos. *)
Module PeapDemo.
Import Dot1x.Demo TlsDemo MsDemo.
Definition peap (id : Z) (data : bytes) : DxInput := InFrame (eap_frame 1 id (eap_type.PEAP :: data)).
Definition inner_request (id ty : Z) (data : bytes) : bytes :=
  [1; id] ++ be_encode 2 (5 + len data) ++ ty :: data.
Definition conversation : list DxInput :=
  [InFrame (eap_frame 1 1 [eap_type.IDENTITY]);
   peap 2 [0x20];                                     (* start: our half of the handshake *)
   peap 3 [0; 22; 1];                                 (* theirs *)
   peap 4 (0 :: inner_request 1 eap_type.MSCHAPV2 challenge_message);
   peap 5 (0 :: inner_request 2 eap_type.MSCHAPV2 success_message);
   peap 6 (0 :: inner_request 3 eap_type.TLV (result_tlv TLV_RESULT_SUCCESS));
   InFrame (eap_frame 3 7 [])].
Definition outer : bytes := [97; 110; 111; 110].
End PeapDemo.

Section peap_demo.
Import Dot1x.Demo TlsDemo MsDemo PeapDemo.

Lemma enterprise_key_needs_the_password_witness :
  let p0 := peap_fresh tunnel user pass peer in
  let dx := Dot1x_new outer p0 in
  Ok (Crypto.Done (replicate 32 9)) ∈ snd (Dot1x_run conversation dx) /\
  exists ins1 ins2 ms1 challenge ms2 success ms3 c,
    conversation = ins1 ++ ins2
    /\ peap_delivered (method_requests ins1 dx) p0 = ms1 ++ challenge :: ms2 ++ success :: ms3
    /\ challenges challenge c
    /\ spells success
         (generate_authenticator_response pass (generate_nt_response c peer user pass) peer c user)
    /\ exists t t' d plaintext k,
         Tunnel_on_request d t = (t', Ok (Established plaintext))
         /\ export_msk (conn t') eap_type.PEAP TLS12_LABEL_EAP_TLS = Ok k /\ replicate 32 9 = take 32 k.
Proof.
  intros p0 dx.
  assert (Ok (Crypto.Done (replicate 32 9)) ∈ snd (Dot1x_run conversation dx)) as Hin
    by (apply (bool_decide_unpack _); vm_compute; exact I).
  split; [exact Hin|].
  apply (enterprise_key_needs_the_password tunnel outer user pass peer conversation (replicate 32 9) Hin).
Defined.
End peap_demo.

(** ** TLVs and AVPs *)

(** A TLV as a server may send it in front of the result. *)
Definition other_tlv (ty : Z) (value : bytes) : bytes :=
  be_encode 2 ty ++ be_encode 2 (len value) ++ value.

Definition tlv_ok (t : Z * bytes) : Prop :=
  is_u16 t.1 /\ Z.land t.1 (Z.lnot TLV_MANDATORY) <> TLV_RESULT /\ is_u16 (len t.2).

Lemma find_result_tlv_eq fuel ty value rest :
  is_u16 ty -> is_u16 (len value) ->
  find_result_tlv_loop (S fuel) (other_tlv ty value ++ rest)
  = if Z.land ty (Z.lnot TLV_MANDATORY) =? TLV_RESULT
    then x ← value !! 0%nat; y ← value !! 1%nat; Some (be_decode [x; y])
    else find_result_tlv_loop fuel rest.
Proof.
  intros Ht Hl. pose proof (be16_roundtrip ty Ht) as Hbt. pose proof (be16_roundtrip _ Hl) as Hbl.
  unfold other_tlv.
  pose proof (length_be_encode 2 ty) as Lt. pose proof (length_be_encode 2 (len value)) as Ll.
  destruct (be_encode 2 ty) as [|t1 [|t0 [|]]]; try discriminate Lt.
  destruct (be_encode 2 (len value)) as [|l1 [|l0 [|]]]; try discriminate Ll.
  cbn [app find_result_tlv_loop]. rewrite Hbt, Hbl. unfold len at 1 2. rewrite Nat2Z.id.
  rewrite get_range_prefix by done. cbn [mbind option_bind].
  by rewrite drop_app_length.
Qed.

(** The result is found behind any other TLVs the server sends, whatever
    they hold, and is what was sent: the verdict of PEAP does not depend on
    their order. *)
Theorem result_is_found others result rest :
  Forall tlv_ok others -> is_u16 result ->
  find_result_tlv (concat (map (fun t => other_tlv t.1 t.2) others) ++ result_tlv result ++ rest)
  = Some result.
Proof.
  intros Ho Hr.
  assert (forall fuel, (length others < fuel)%nat ->
    find_result_tlv_loop fuel (concat (map (fun t => other_tlv t.1 t.2) others) ++ result_tlv result ++ rest)
    = Some result) as Hgen.
  { induction Ho as [|[ty v] others (Ht & Hne & Hv) _ IH]; intros [|fuel] Hf; cbn [length] in Hf; try lia;
      cbn [map concat app].
    - change (result_tlv result) with (other_tlv (Z.lor TLV_MANDATORY TLV_RESULT) (be_encode 2 result)).
      pose proof (length_be_encode 2 result) as Hlen.
      rewrite find_result_tlv_eq; [|by vm_compute|unfold len; by rewrite Hlen].
      change (_ =? TLV_RESULT) with true. cbv iota. pose proof (be16_roundtrip _ Hr) as Hb.
      destruct (be_encode 2 result) as [|x [|y [|]]]; try discriminate Hlen. change (Some (be_decode [x; y]) = Some result). by rewrite Hb.
    - rewrite <- app_assoc. cbn [fst snd] in *. rewrite find_result_tlv_eq by done.
      rewrite (proj2 (Z.eqb_neq _ _)) by done. apply IH. lia. }
  apply Hgen. rewrite !length_app. unfold result_tlv. rewrite !length_app, !length_be_encode.
  enough (length others <= length (concat (map (fun t => other_tlv t.1 t.2) others)))%nat by lia.
  clear. induction others as [|t others IH]; cbn [map concat length]; [lia|].
  unfold other_tlv at 1. rewrite !length_app, !length_be_encode. lia.
Qed.

Lemma result_is_found_witness :
  find_result_tlv ([0x80; 0x0c; 0; 3; 1; 2; 3] ++ result_tlv TLV_RESULT_SUCCESS ++ [])
  = Some TLV_RESULT_SUCCESS.
Proof.
  apply (result_is_found [(0x800c, [1; 2; 3])] TLV_RESULT_SUCCESS []); [|by vm_compute].
  constructor; [|constructor]. split_and!; by vm_compute.
Defined.

(** One AVP read back: its code, its flags and its data; the rest is what
    stands behind its padding. *)
Definition avp_next (l : bytes) : option (Z * Z * bytes * bytes) :=
  code ← get_range 0 4 l;
  flags ← l !! 4%nat;
  n ← get_range 5 8 l;
  let n := Z.to_nat (be_decode n) in
  data ← get_range 8 n l;
  Some (be_decode code, flags, data, drop (n + (4 - n mod 4) mod 4) l).

Lemma avp_read code data rest :
  is_u32 code -> Z.of_nat (AVP_HDR_LEN + length data) < 2 ^ 24 ->
  avp_next (encode_avp code data ++ rest) = Some (code, AVP_FLAG_MANDATORY, data, rest)
  /\ (length (encode_avp code data) mod 4 = 0)%nat.
Proof.
  intros Hc Hl. unfold encode_avp. set (n := (AVP_HDR_LEN + length data)%nat) in *.
  assert (wrap 32 (Z.of_nat n) = Z.of_nat n) as -> by (unfold wrap; apply Z.mod_small; lia).
  assert (drop 1 (be_encode 4 (Z.of_nat n)) = be_encode 3 (Z.of_nat n)) as ->.
  { unfold be_encode. cbn [le_encode rev app].
    rewrite !Z.div_div by lia. cbn. done. }
  assert (be_decode (be_encode 3 (Z.of_nat n)) = Z.of_nat n) as Hn
    by (apply be_decode_encode; unfold is_uint; change (8 * Z.of_nat 3) with 24; lia).
  pose proof (length_be_encode 4 code) as L4. pose proof (length_be_encode 3 (Z.of_nat n)) as L3.
  set (pad := replicate ((4 - n mod 4) mod 4) 0).
  assert (length pad = ((4 - n mod 4) mod 4)%nat) as Lp by apply length_replicate.
  split.
  - unfold avp_next. rewrite <- !app_assoc.
    rewrite get_range_prefix by done. cbn [mbind option_bind].
    rewrite lookup_skip by lia. rewrite L4. cbn [Nat.sub app lookup list_lookup mbind option_bind].
    assert (get_range 5 8 (be_encode 4 code ++ AVP_FLAG_MANDATORY :: be_encode 3 (Z.of_nat n) ++ data ++ pad ++ rest)
            = Some (be_encode 3 (Z.of_nat n))) as ->.
    { change (AVP_FLAG_MANDATORY :: ?l) with ([AVP_FLAG_MANDATORY] ++ l). rewrite app_assoc.
      apply get_range_mid; rewrite !length_app, ?L4, ?L3; done. }
    cbn [mbind option_bind]. rewrite Hn, Nat2Z.id.
    assert (get_range 8 n (be_encode 4 code ++ AVP_FLAG_MANDATORY :: be_encode 3 (Z.of_nat n) ++ data ++ pad ++ rest)
            = Some data) as ->.
    { change (AVP_FLAG_MANDATORY :: ?l) with ([AVP_FLAG_MANDATORY] ++ l).
      rewrite !app_assoc. rewrite <- (app_assoc _ pad rest). rewrite <- (app_assoc _ data).
      apply get_range_mid; rewrite !length_app, ?L4, ?L3; unfold n, AVP_HDR_LEN; cbn [length]; lia. }
    cbn [mbind option_bind]. rewrite be32_roundtrip by done. f_equal. f_equal.
    change (AVP_FLAG_MANDATORY :: ?l) with ([AVP_FLAG_MANDATORY] ++ l). rewrite !app_assoc.
    rewrite drop_app_length'; [done|]. rewrite !length_app, L4, L3, Lp. unfold n, AVP_HDR_LEN. cbn [length]. lia.
  - rewrite !length_app, L4, L3, Lp. cbn [length].
    replace (4 + (1 + (3 + (length data + (4 - n mod 4) mod 4))))%nat with (n + (4 - n mod 4) mod 4)%nat
      by (unfold n, AVP_HDR_LEN; lia).
    pose proof (Nat.mod_upper_bound n 4 ltac:(lia)).
    pose proof (Nat.div_mod n 4 ltac:(lia)).
    apply Nat.Lcm0.mod_divide.
    destruct (n mod 4)%nat as [|[|[|[|]]]] eqn:Hm; try lia.
    1: exists (n / 4)%nat. 2, 3, 4: exists (S (n / 4)).
    all: change ((4 - 0) mod 4)%nat with 0%nat; change ((4 - 1) mod 4)%nat with 3%nat;
      change ((4 - 2) mod 4)%nat with 2%nat; change ((4 - 3) mod 4)%nat with 1%nat; lia.
Qed.

(** What TTLS sends reads back as exactly two mandatory attributes, the
    username and the password padded with zeros to a multiple of sixteen octets
    -- so the record's size says nothing finer of the password's length -- and
    is itself a multiple of four. *)
Theorem credentials_read_back username password :
  Z.of_nat (length username) < 2 ^ 23 -> Z.of_nat (length password) < 2 ^ 23 ->
  exists pad rest,
    avp_next (Ttls_credentials username password)
    = Some (AVP_USER_NAME, AVP_FLAG_MANDATORY, username, rest)
    /\ avp_next rest = Some (AVP_USER_PASSWORD, AVP_FLAG_MANDATORY, password ++ replicate pad 0, [])
    /\ (pad < 16)%nat /\ (length (password ++ replicate pad 0%Z) mod 16 = 0)%nat
    /\ (length (Ttls_credentials username password) mod 4 = 0)%nat.
Proof.
  intros Hu Hp.
  assert (exists pad, padded_password password = password ++ replicate pad 0 /\ (pad < 16)%nat
          /\ (length (password ++ replicate pad 0%Z) mod 16 = 0)%nat) as (pad & Hpad & Hlt & Hmod).
  { unfold padded_password. pose proof (Nat.mod_upper_bound (length password) 16 ltac:(lia)).
    pose proof (Nat.div_mod (length password) 16 ltac:(lia)).
    destruct (Nat.eqb_spec (length password mod 16) 0) as [Hz|Hz].
    - exists 0%nat. cbn [replicate]. rewrite app_nil_r. split_and!; [done|lia|done].
    - exists (16 - length password mod 16)%nat. split_and!; [done|lia|].
      rewrite length_app, length_replicate. apply Nat.Lcm0.mod_divide.
      exists (S (length password / 16)). lia. }
  exists pad, (encode_avp AVP_USER_PASSWORD (padded_password password)).
  assert (Z.of_nat (AVP_HDR_LEN + length (padded_password password)) < 2 ^ 24) as Hlen.
  { rewrite Hpad, length_app, length_replicate. unfold AVP_HDR_LEN. lia. }
  destruct (avp_read AVP_USER_NAME username (encode_avp AVP_USER_PASSWORD (padded_password password)))
    as [H1 M1]; [by vm_compute|unfold AVP_HDR_LEN; lia|].
  destruct (avp_read AVP_USER_PASSWORD (padded_password password) []) as [H2 M2]; [by vm_compute|done|].
  rewrite app_nil_r in H2. rewrite <- Hpad in Hmod |- *.
  split_and!; [done|done|done|done|].
  unfold Ttls_credentials. rewrite length_app, Nat.Div0.add_mod, M1, M2. done.
Qed.

Lemma credentials_read_back_witness :
  exists pad rest,
    avp_next (Ttls_credentials MsDemo.user MsDemo.pass)
    = Some (AVP_USER_NAME, AVP_FLAG_MANDATORY, MsDemo.user, rest)
    /\ avp_next rest = Some (AVP_USER_PASSWORD, AVP_FLAG_MANDATORY, MsDemo.pass ++ replicate pad 0, [])
    /\ (pad < 16)%nat /\ (length (MsDemo.pass ++ replicate pad 0%Z) mod 16 = 0)%nat
    /\ (length (Ttls_credentials MsDemo.user MsDemo.pass) mod 4 = 0)%nat.
Proof. apply (credentials_read_back MsDemo.user MsDemo.pass); by vm_compute. Defined.

(** ** The password of TTLS *)

Section ttls_safety.
Context {C : Type} `{TlsStack C}.
Implicit Types m : Ttls C.

Lemma Ttls_step d m :
  after (Ttls_on_request d) m (fun m' _ =>
    (credentials_sent m' = credentials_sent m /\ tt_msk m' = tt_msk m)
    \/ (credentials_sent m = false /\ credentials_sent m' = true
        /\ exists t plaintext k, Tunnel_on_request d (tt_tunnel m) = (t, Ok (Established plaintext))
             /\ export_msk (conn t) eap_type.TTLS TLS12_LABEL_TTLS = Ok k /\ tt_msk m' = Some k)).
Proof.
  unfold Ttls_on_request. apply after_zoom_bind. intros t r Ht.
  destruct r as [[td|plaintext]| |]; cbn [and_then]; [by left| |by left|by left].
  apply after_self. cbn [credentials_sent tt_set_tunnel].
  destruct (credentials_sent m) eqn:Hs; [by left|].
  apply after_lift_bind. cbn [tt_tunnel tt_set_tunnel].
  destruct (export_msk (conn t) _ _) as [k| |] eqn:Hk; cbn [and_then]; [|by left|by left].
  apply after_update, after_update. unfold fmap, call_fmap, mbind, call_bind, zoom, after.
  right. destruct (Tunnel_send_tunnelled _ _) as [t' [b| |]]; cbn; split_and!; eauto 6.
Qed.

(** TTLS lets the password out once, and only into a tunnel whose handshake
    is over -- the point at which the server's certificate has been checked --
    and with nothing of the handshake left to send; the key it hands out is
    that tunnel's, and exists only if the credentials were sent. *)
Theorem password_waits_for_the_tunnel ds m :
  credentials_sent m = false -> tt_msk m = None ->
  let m' := method_run ds m in
  if credentials_sent m' then
    exists ds1 d ds2 t plaintext t0 k,
      ds = ds1 ++ d :: ds2 /\ credentials_sent (method_run ds1 m) = false
      /\ Tunnel_on_request d (tt_tunnel (method_run ds1 m)) = (t, Ok (Established plaintext))
      /\ is_handshaking (conn t0) = false /\ wants_write (conn t0) = false
      /\ Tunnel_drain_plaintext t0 = (t, Ok plaintext)
      /\ export_msk (conn t) eap_type.TTLS TLS12_LABEL_TTLS = Ok k /\ tt_msk m' = Some k
  else tt_msk m' = None.
Proof.
  intros Hs Hm. induction ds as [|d ds IH] using rev_ind; [cbn; by rewrite Hs|].
  intros m'. cbn zeta in IH. unfold m', method_run. rewrite foldl_app.
  fold (method_run ds m). cbn [foldl em_on_request Ttls_method].
  destruct (Ttls_step d (method_run ds m)) as [[Hc Hk]|(Hc & Hc' & t & pl & k & Ht & Hx & Hk)].
  - rewrite Hc, Hk. destruct (credentials_sent (method_run ds m)); [|exact IH].
    destruct IH as (ds1 & d1 & ds2 & t & pl & t0 & k & -> & ? & ? & ? & ? & ? & ? & ?).
    exists ds1, d1, (ds2 ++ [d]), t, pl, t0, k. rewrite <- app_assoc. by split_and!.
  - rewrite Hc'. destruct (established_after_handshake _ _ _ _ Ht) as (t0 & ? & ? & ?).
    exists ds, d, [], t, pl, t0, k. by split_and!.
Qed.
End ttls_safety.

Section ttls_demo.
Import TlsDemo.

Lemma password_waits_for_the_tunnel_witness :
  let m := {| tt_tunnel := tunnel; tt_username := [117]; tt_password := [112]; credentials_sent := false;
              tt_msk := None |} in
  let m' := method_run [[0x20]; [0; 22; 1]] m in
  credentials_sent m' = true /\ exists k, tt_msk m' = Some k.
Proof.
  intros m m'. pose proof (password_waits_for_the_tunnel [[0x20]; [0; 22; 1]] m eq_refl eq_refl) as Hp.
  cbv zeta in Hp. fold m' in Hp. assert (credentials_sent m' = true) as Hc by (vm_compute; reflexivity).
  split; [exact Hc|]. rewrite Hc in Hp. destruct Hp as (ds1 & d & ds2 & t & pl & t0 & k & Hp). exists k. apply Hp.
Defined.
End ttls_demo.
