(* ===== verification/TlsSafe.v ===== *)
(** * The TLS-based methods never panic

    [TlsSafe] is what the methods of eap/tls, peap.rs and ttls.rs rely on in
    rustls to be free of panics: an invariant of the connection its calls keep,
    a bound on what it has outstanding, and exporters of the size asked for.
    Over it [EapTls], [Peap] and [Ttls] are [EapMethodSafe], the interface the
    802.1X provider is proved against. *)
From S2P Require Import Prelude Bytes Text Crypto Eapol Calls Eap FourWay Dot1x Pem Mschapv2 Tunnel TlsMethods.

(** ** The interface *)

(** How a call on the connection ends: the invariant kept, no panic. *)
Definition keeps_conn {C E A} (ok : C -> Prop) (m : call C E A) (c : C) : Prop :=
  after m c (fun c' r => ok c' /\ no_panic r).

Class TlsSafe (C : Type) `{TlsStack C} := {
  tls_ok : C -> Prop;
  read_tls_safe b c : tls_ok c -> keeps_conn tls_ok (read_tls b) c;
  process_safe c : tls_ok c -> keeps_conn tls_ok process_new_packets c;
  write_all_safe b c : tls_ok c -> keeps_conn tls_ok (write_all b) c;
  read_plaintext_safe n c : tls_ok c -> keeps_conn tls_ok (read_plaintext n) c;
  close_notify_safe c : tls_ok c -> tls_ok (send_close_notify c);
  (** What is written was outstanding, in octets, and that is bounded: rustls
      buffers no more than its limit. *)
  write_tls_safe c : tls_ok c ->
    after write_tls c (fun c' r => tls_ok c' /\
      match r with Ok b => (length b + unwritten c' <= unwritten c)%nat | Err _ => True | Panic => False end);
  unwritten_u32 c : tls_ok c -> Z.of_nat (unwritten c) < 2 ^ 32;
  export_safe c n label context : tls_ok c ->
    match export_keying_material c n label context with Ok m => length m = n | Err _ => True | Panic => False end;
}.

Class TlsSetupSafe (C : Type) `{TlsSafe C} `{!TlsSetup C} := {
  connection_new_ok config name c : connection_new config name = Ok c -> tls_ok c;
}.

(** ** Fragments fit their packets *)

(** The largest fragment whose packet and frame fit their lengths. *)
Definition MAX_FRAGMENT : Z := MAX_TYPE_DATA - 5.

Definition fragmenter_ok (fr : Fragmenter) : Prop :=
  (1 <= fr_fragment_size fr)%nat /\ Z.of_nat (fr_fragment_size fr) <= MAX_FRAGMENT
  /\ len (fr_pending fr) < 2 ^ 32.

Definition exchange_ok (ex : Exchange) : Prop := fragmenter_ok (ex_outbound ex) /\ Reassembler_ok (ex_inbound ex).

Lemma Exchange_new_ok n mirror : Z.of_nat n <= MAX_FRAGMENT -> exchange_ok (Exchange_new n mirror).
Proof.
  intros Hn. split; [|done]. split_and!; cbn -[Nat.max]; [lia| |done].
  destruct (Nat.max_spec n 1) as [[? ->]|[? ->]]; unfold MAX_FRAGMENT, MAX_TYPE_DATA in *; lia.
Qed.

(** The Type-Data of an answer. *)
Definition fits (td : bytes) : Prop := len td <= MAX_TYPE_DATA.

Lemma next_fits {E} base fr :
  fragmenter_ok fr ->
  after (@Fragmenter_next E base) fr (fun fr' r => fragmenter_ok fr' /\
    match r with
    | Ok (Some td) => fits td
    | Ok None => Fragmenter_is_empty fr = true
    | Err _ => False
    | Panic => False
    end).
Proof.
  intros (Hs & Hm & Hl). destruct (Fragmenter_is_empty fr) eqn:He.
  - unfold after, Fragmenter_next, mbind, call_bind, self. rewrite He. done.
  - apply Nat.leb_gt in He. unfold after. rewrite Fragmenter_next_some by done. cbn [fst snd].
    split; [done|]. unfold fits, fragment_wire, len. cbn [length]. rewrite length_app, length_take, length_drop.
    assert (length (from_option (be_encode 4) [] (if (fr_sent fr =? 0)%nat && (Nat.min (fr_sent fr + fr_fragment_size fr)
      (length (fr_pending fr)) <? length (fr_pending fr))%nat then Some (len (fr_pending fr)) else None)) <= 4)%nat as H4.
    { destruct (_ && _); cbn; lia. }
    unfold len in H4. unfold MAX_FRAGMENT in Hm. lia.
Qed.

Lemma Fragment_parse_no_panic d : no_panic (Fragment_parse d).
Proof.
  unfold Fragment_parse. destruct d as [|x d]; [done|]. destruct (has_flag _ _); [|done].
  destruct (get_range 0 4 d); done.
Qed.

Lemma exchange_request_fits d ex :
  exchange_ok ex ->
  after (Exchange_on_request d) ex (fun ex' r => exchange_ok ex' /\
    match r with Ok (Reply td) => fits td | Panic => False | _ => True end).
Proof.
  intros Hok. unfold Exchange_on_request. apply after_lift_bind.
  pose proof (Fragment_parse_no_panic d) as Hn. destruct (Fragment_parse d) as [f| |]; try done. cbn [and_then].
  apply after_self, after_bind.
  assert (forall ex1, exchange_ok ex1 -> after (
    if Fragment_start f then _ ← update (fun ex => set_inbound (Reassembler_reset (ex_inbound ex)) ex); mret Restart
    else ex ← self;
      if negb (Fragmenter_is_empty (ex_outbound ex)) then
        _ ← throw_if (negb (bool_decide (frag_data f = []))) FragmentOutOfOrder;
        next ← zoom ex_outbound set_outbound (Fragmenter_next (ex_base_flags ex));
        next ← lift (expect next);
        mret (Reply next)
      else
        m ← zoom ex_inbound set_inbound (Reassembler_push f);
        ex ← self;
        match m with
        | None => mret (Reply (Exchange_empty_reply ex))
        | Some message => mret (Message message)
        end) ex1 (fun ex' r => exchange_ok ex' /\
    match r with Ok (Reply td) => fits td | Panic => False | _ => True end)) as Hrest.
  { intros ex1 [Hf Hr]. destruct (Fragment_start f); [done|]. apply after_self.
    destruct (Fragmenter_is_empty (ex_outbound ex1)) eqn:He; cbn [negb].
    - apply after_bind, after_zoom. eapply after_mono; [by apply Reassembler_push_spec|].
      intros r' o [Hr' Ho]. destruct o as [[m|]| |]; by cbn [and_then].
    - apply after_throw_if; [done|]. intros _. apply after_bind, after_zoom.
      eapply after_mono; [by apply next_fits|]. intros fr' o [Hf' Ho].
      destruct o as [[td|]| |]; cbn [and_then]; try done. congruence. }
  destruct (ex_mirror_version ex); [|apply Hrest, Hok]. apply Hrest. destruct Hok as [? ?]. by split.
Qed.

Lemma exchange_send_fits {E} m ex :
  exchange_ok ex -> len m < 2 ^ 32 ->
  after (@Exchange_send E m) ex (fun ex' r => exchange_ok ex' /\
    match r with Ok (Some td) => fits td | Ok None => m = [] | _ => False end).
Proof.
  intros Hok Hl. pose proof Hok as [(Hs & Hm & _) Hr]. unfold Exchange_send. case_bool_decide as Hnil; [done|].
  apply after_update, after_self, after_zoom.
  eapply after_mono; [apply next_fits; by split_and!|]. intros fr' o [Hf Ho]. split; [by split|].
  destruct o as [[td|]| |]; try done. apply Nat.leb_le in Ho. cbn in Ho. destruct m; [done|cbn in Ho; lia].
Qed.

(** ** The tunnel *)
Section tunnel.
Context {C : Type} `{TlsLaws C} `{!TlsSafe C}.
Implicit Types t : Tunnel C.

Definition tunnel_ok t : Prop := tls_ok (conn t) /\ exchange_ok (exchange t).

(** [after] for a call that keeps the tunnel, with a condition on its value. *)
Definition tunnel_keeps {A} (m : call (Tunnel C) Eapol.Error A) (Q : Tunnel C -> A -> Prop) t : Prop :=
  after m t (fun t' r => tunnel_ok t' /\ match r with Ok a => Q t' a | Err _ => True | Panic => False end).

Lemma tunnel_bind {A B} (m : call (Tunnel C) Eapol.Error A) (k : A -> call (Tunnel C) Eapol.Error B) P Q t :
  tunnel_keeps m P t -> (forall a t', tunnel_ok t' -> P t' a -> tunnel_keeps (k a) Q t') ->
  tunnel_keeps (m ≫= k) Q t.
Proof.
  unfold tunnel_keeps. intros Hm Hk. apply after_bind. eapply after_mono; [exact Hm|]. intros t' r [Ht Hr].
  destruct r; cbn [and_then]; [by apply Hk|done..].
Qed.

Lemma tunnel_ret {A} (a : A) (Q : Tunnel C -> A -> Prop) t : tunnel_ok t -> Q t a -> tunnel_keeps (mret a) Q t.
Proof. done. Qed.

Lemma keeps_mono {A} (m : call (Tunnel C) Eapol.Error A) (P Q : Tunnel C -> A -> Prop) t :
  tunnel_keeps m P t -> (forall t' a, P t' a -> Q t' a) -> tunnel_keeps m Q t.
Proof. unfold tunnel_keeps. intros Hm HP. eapply after_mono; [exact Hm|]. intros t' [] [? ?]; auto. Qed.

Lemma keeps_on_conn {E A} (f : E -> Eapol.Error) (m : call C E A) t :
  tunnel_ok t -> keeps_conn tls_ok m (conn t) -> tunnel_keeps (on_conn f m) (fun _ _ => True) t.
Proof.
  intros [_ Hx] [Hc Hn]. unfold tunnel_keeps, after, on_conn, zoom, call_map_err. unfold after in *.
  destruct (m (conn t)) as [c' r]. cbn in *. split; [by split|]. by destruct r.
Qed.

Lemma feed_tls_keeps fuel cursor t : tunnel_ok t -> tunnel_keeps (feed_tls fuel cursor) (fun _ _ => True) t.
Proof.
  revert cursor t. induction fuel as [|fuel IH]; intros cursor t Hok; [done|]. cbn [feed_tls].
  case_bool_decide; [done|].
  eapply tunnel_bind; [apply keeps_on_conn; [done|apply read_tls_safe, Hok]|]. intros taken t1 Hok1 _.
  destruct (taken =? 0)%nat; [done|].
  eapply tunnel_bind; [apply keeps_on_conn; [done|apply process_safe, Hok1]|]. intros _ t2 Hok2 _. by apply IH.
Qed.

Lemma drain_tls_loop_keeps fuel out t :
  tunnel_ok t -> (unwritten (conn t) < fuel)%nat ->
  tunnel_keeps (drain_tls_loop fuel out) (fun _ b => (length b <= length out + unwritten (conn t))%nat) t.
Proof.
  revert out t. induction fuel as [|fuel IH]; intros out t Hok Hf; [lia|]. cbn [drain_tls_loop].
  apply after_self. destruct (wants_write (conn t)) eqn:Hw; cbn [negb]; [|split; [done|cbn; lia]].
  pose proof (write_tls_drains (conn t) Hw) as Hd. destruct (write_tls_safe (conn t) (proj1 Hok)) as [Hc Hb].
  unfold mbind, call_bind, after, on_conn, zoom, call_map_err in *.
  destruct (write_tls (conn t)) as [c' [b| |]]; cbn in *; try done; [|split; [split; [done|apply Hok]|done]].
  assert (tunnel_ok (set_conn c' t)) as Hok' by (split; [done|apply Hok]).
  eapply after_mono; [apply (IH (out ++ b) (set_conn c' t) Hok'); cbn; lia|].
  intros t' [] [? Hl]; (split; [done|]); try done. cbn in Hl. rewrite length_app in Hl. lia.
Qed.

Lemma drain_tls_keeps t :
  tunnel_ok t -> tunnel_keeps Tunnel_drain_tls (fun _ b => len b < 2 ^ 32) t.
Proof.
  intros Hok. apply after_self. eapply keeps_mono; [apply drain_tls_loop_keeps; [done|lia]|].
  intros t' b Hb. cbn in Hb. pose proof (unwritten_u32 (conn t) (proj1 Hok)). unfold len. lia.
Qed.

Lemma drain_plaintext_keeps t :
  tunnel_ok t -> tunnel_keeps Tunnel_drain_plaintext (fun _ _ => True) t.
Proof.
  intros Hok. apply after_self. generalize (@nil Z) as out.
  assert (unread (conn t) <= unread (conn t))%nat as Hf by lia. revert Hf.
  generalize (unread (conn t)) at 2 3 as fuel. intros fuel. revert t Hok.
  induction fuel as [|fuel IH]; intros t Hok Hf out; cbn [drain_plaintext_loop];
    unfold tunnel_keeps, after; pose proof (read_plaintext_drains 2048 (conn t)) as Hd;
    destruct (read_plaintext_safe 2048 (conn t) (proj1 Hok)) as [Hc Hn]; cbn [drain_plaintext_loop];
    destruct (read_plaintext 2048 (conn t)) as [c' r]; cbn [fst snd] in *;
    (assert (tunnel_ok (set_conn c' t)) as Hok' by (split; [done|apply Hok]));
    destruct r as [[|x l]|[]|]; try done; [lia|].
  apply IH; [done|]. cbn. lia.
Qed.

Lemma send_keeps {E} m t :
  tunnel_ok t -> len m < 2 ^ 32 ->
  after (zoom exchange set_exchange (@Exchange_send E m)) t (fun t' r => tunnel_ok t' /\
    match r with Ok (Some td) => fits td | Ok None => m = [] | _ => False end).
Proof.
  intros [Hc Hx] Hl. apply after_zoom. eapply after_mono; [by apply exchange_send_fits|].
  intros ex r [Hx' Hr]. by split.
Qed.

Lemma empty_reply_fits t : fits (Tunnel_empty_reply t).
Proof. unfold fits, MAX_TYPE_DATA, len. cbn. lia. Qed.

Definition event_fits (e : TunnelEvent) : Prop := match e with TReply td => fits td | Established _ => True end.

Lemma flush_keeps t : tunnel_ok t -> tunnel_keeps Tunnel_flush_or_established (fun _ e => event_fits e) t.
Proof.
  intros Hok. unfold Tunnel_flush_or_established. eapply tunnel_bind; [by apply drain_tls_keeps|].
  intros records t1 Hok1 Hl. cbv beta in Hl. apply after_bind. eapply after_mono; [by apply send_keeps|].
  intros t2 r [Hok2 Hr]. destruct r as [[td|]| |]; cbn [and_then]; try done. apply after_self.
  destruct (is_handshaking _); [split; [done|apply empty_reply_fits]|].
  eapply tunnel_bind; [by apply drain_plaintext_keeps|]. by intros.
Qed.

Lemma on_request_keeps d t : tunnel_ok t -> tunnel_keeps (Tunnel_on_request d) (fun _ e => event_fits e) t.
Proof.
  intros [Hc Hx]. unfold Tunnel_on_request. apply after_bind, after_zoom.
  eapply after_mono; [by apply exchange_request_fits|]. intros ex r [Hx' Hr].
  assert (tunnel_ok (set_exchange ex t)) as Hok by by split.
  destruct r as [[|td|m]| |]; cbn [and_then]; try done; [by apply flush_keeps|].
  eapply tunnel_bind; [by apply feed_tls_keeps|]. intros _ t' Hok' _. by apply flush_keeps.
Qed.

Lemma send_tunnelled_keeps b t : tunnel_ok t -> tunnel_keeps (Tunnel_send_tunnelled b) (fun _ td => fits td) t.
Proof.
  intros Hok. unfold Tunnel_send_tunnelled.
  eapply tunnel_bind; [apply keeps_on_conn; [done|apply write_all_safe, Hok]|]. intros _ t1 Hok1 _.
  eapply tunnel_bind; [by apply drain_tls_keeps|]. intros records t2 Hok2 Hl. cbv beta in Hl.
  apply after_bind. eapply after_mono; [by apply send_keeps|].
  intros t3 r [Hok3 Hr]. by destruct r as [[td|]| |].
Qed.

Lemma close_notify_keeps t : tunnel_ok t -> tunnel_keeps Tunnel_close_notify (fun _ td => fits td) t.
Proof.
  intros [Hc Hx]. unfold Tunnel_close_notify. apply after_update.
  eapply tunnel_bind; [apply drain_tls_keeps; split; [by apply close_notify_safe|done]|].
  intros records t2 Hok2 Hl. cbv beta in Hl.
  apply after_bind. eapply after_mono; [by apply send_keeps|].
  intros t3 r [Hok3 Hr]. destruct r as [[td|]| |]; by cbn [and_then].
Qed.

Lemma export_msk_no_panic (c : C) ty label : tls_ok c -> no_panic (export_msk c ty label).
Proof.
  intros Hc. unfold export_msk. destruct (tls_version c) as [[]|]; [| |done].
  - pose proof (export_safe c MSK_LEN label None Hc) as He. by destruct (export_keying_material _ _ _ _).
  - pose proof (export_safe c (2 * MSK_LEN) TLS13_LABEL (Some [ty]) Hc) as He.
    destruct (export_keying_material _ _ _ _); try done. cbn [map_err mbind exec_bind].
    apply no_panic_slice. rewrite He. unfold MSK_LEN. lia.
Qed.

Lemma build_ok `{!TlsSetup C} `{!TlsSetupSafe C} (cfg : TlsConfig C) b mirror t :
  Z.of_nat (fragment_size cfg) <= MAX_FRAGMENT -> Tunnel_build cfg b mirror = Ok t -> tunnel_ok t.
Proof.
  intros Hf Hb. unfold Tunnel_build in Hb. inv_ok. split; [by eapply connection_new_ok|by apply Exchange_new_ok].
Qed.
End tunnel.

(** ** The methods *)

(** The longest name whose MSCHAPv2 response still fits a packet. *)
Definition MAX_NAME : Z := MAX_TYPE_DATA - 54.

Section mschapv2.
Context `{MschapLaws}.

Definition ms_ok (m : Mschapv2) : Prop := len (ms_username m) <= MAX_NAME /\ length (ms_peer_challenge m) = 16%nat.

Lemma on_challenge_fits id body m :
  ms_ok m -> match snd (Mschapv2_on_challenge id body m) with Ok td => fits td | Err _ => True | Panic => False end.
Proof.
  intros [Hu Hp]. unfold Mschapv2_on_challenge. destruct body as [|vs rest]; [done|].
  unfold throw_if. destruct (negb _); [done|]. unfold lift, mbind, call_bind.
  destruct (get_range 0 16 rest) as [c|]; [|done]. cbn -[generate_nt_response generate_authenticator_response replicate].
  unfold ms_message. set (body := RESPONSE_LEN :: _).
  assert (len body = 50 + len (ms_username m)) as Hl.
  { unfold body, len. cbn [length]. rewrite !length_app, Hp, nt_response_length, length_replicate. cbn [length]. lia. }
  rewrite Hl. unfold MAX_NAME, MAX_TYPE_DATA in Hu. unfold MS_HDR_LEN, expect_u16.
  rewrite (proj2 (Z.ltb_lt _ _)) by lia. cbn [mbind exec_bind]. unfold fits, len in *.
  rewrite !length_app, length_be_encode. cbn [length]. unfold MAX_TYPE_DATA. lia.
Qed.

#[global] Instance Mschapv2_safe : EapMethodSafe Mschapv2.
Proof.
  refine {| em_ok := ms_ok |}. intros d m Hok. apply after_and.
  - eapply after_mono; [apply Mschapv2_on_request_spec|].
    intros m' r (Hu & _ & Hp & _). unfold ms_ok. by rewrite Hu, Hp.
  - cbn [em_on_request Mschapv2_method]. unfold Mschapv2_on_request.
    destruct d as [|op [|id [|hi [|lo rest]]]]; try done.
    apply after_lift_bind. rewrite ms_body_slice. cbn [and_then]. apply after_self.
    destruct (_ && _).
    + pose proof (on_challenge_fits id (take (Nat.min (Z.to_nat (be_decode [hi; lo]) - MS_HDR_LEN) (length rest)) rest) m Hok) as Hc.
      unfold after, fmap, call_fmap, mbind, call_bind. by destruct (Mschapv2_on_challenge _ _ m) as [m' []].
    + destruct (_ && _); [|by destruct (op =? OP_FAILURE)].
      unfold Mschapv2_on_success, fmap, call_fmap. apply after_bind, after_self, after_lift_bind.
      destruct (ms_expected_response m); [|done]. cbn [ok_or and_then]. apply after_lift_bind.
      destruct (find_first _ _); [|done]. by apply after_throw_if.
Defined.
End mschapv2.

Section methods.
Context {C : Type} `{TlsLaws C} `{!TlsSafe C} `{MschapLaws}.

(** A call inside a method's tunnel. *)
Lemma tunnel_call {M A B} (get : M -> Tunnel C) set (m : call (Tunnel C) Eapol.Error A)
    (k : A -> call M Eapol.Error B) P (Q : M -> exec Eapol.Error B -> Prop) x :
  tunnel_keeps m P (get x) ->
  (forall a t, tunnel_ok t -> P t a -> after (k a) (set t x) Q) ->
  (forall t e, tunnel_ok t -> Q (set t x) (Err e)) ->
  after (zoom get set m ≫= k) x Q.
Proof.
  intros Hm Hk He. apply after_zoom_bind. intros t r Hr. unfold tunnel_keeps, after in Hm. rewrite Hr in Hm.
  destruct Hm as [Ht Ha]. destruct r; cbn [and_then]; [by apply Hk|by apply He|done].
Qed.

(** What an answer of a method that keeps [ok] has to be. *)
Definition answers {M} (ok : M -> Prop) (x : M) (r : exec Eapol.Error (option bytes)) : Prop :=
  ok x /\ match r with Ok (Some td) => fits td | Panic => False | _ => True end.

Definition et_ok (m : EapTls C) : Prop := tunnel_ok (et_tunnel m).

#[global] Instance EapTls_safe : EapMethodSafe (EapTls C).
Proof.
  refine {| em_ok := et_ok |}. intros d m Hok. change (after (EapTls_on_request d) m (answers et_ok)).
  unfold EapTls_on_request. eapply tunnel_call; [by apply on_request_keeps| |by split].
  intros [td|plaintext] t Ht Hev; [by split|]. apply after_self.
  assert (forall m1, et_ok m1 -> after (if bool_decide (plaintext = [])
    then m ← self; mret (Some (Tunnel_empty_reply (et_tunnel m)))
    else Some <$> zoom et_tunnel et_set_tunnel Tunnel_close_notify) m1 (answers et_ok)) as Hrest.
  { intros m1 Hm1. case_bool_decide; [split; [done|apply empty_reply_fits]|].
    unfold fmap, call_fmap. eapply tunnel_call; [by apply close_notify_keeps|by split|by split]. }
  cbn [et_msk et_set_tunnel]. destruct (et_msk m) as [k|]; [by apply Hrest|].
  pose proof (export_msk_no_panic (conn t) eap_type.TLS TLS12_LABEL_EAP_TLS (proj1 Ht)) as Hx.
  apply after_bind, after_lift_bind. cbn [et_tunnel et_set_tunnel].
  destruct (export_msk (conn t) _ _); [|by split|done]. cbn. by apply Hrest.
Defined.

Definition tt_ok (m : Ttls C) : Prop := tunnel_ok (tt_tunnel m).

#[global] Instance Ttls_safe : EapMethodSafe (Ttls C).
Proof.
  refine {| em_ok := tt_ok |}. intros d m Hok. change (after (Ttls_on_request d) m (answers tt_ok)).
  unfold Ttls_on_request. eapply tunnel_call; [by apply on_request_keeps| |by split].
  intros [td|plaintext] t Ht Hev; [by split|]. apply after_self.
  destruct (credentials_sent _); [split; [done|apply empty_reply_fits]|].
  pose proof (export_msk_no_panic (conn t) eap_type.TTLS TLS12_LABEL_TTLS (proj1 Ht)) as Hx.
  apply after_lift_bind. cbn [tt_tunnel tt_set_tunnel]. destruct (export_msk (conn t) _ _); [|by split|done].
  cbn [and_then]. apply after_update, after_update. unfold fmap, call_fmap.
  eapply tunnel_call; [by apply send_tunnelled_keeps|by split|by split].
Defined.

Definition pe_ok (p : Peap C) : Prop :=
  tunnel_ok (pe_tunnel p) /\ ms_ok (inner p) /\ len (inner_identity p) <= MAX_NAME.

(** Inside the tunnel nothing panics either, and the tunnel is not touched. *)
Lemma phase2_safe plaintext p :
  pe_ok p -> after (Peap_phase2 plaintext) p (fun p' r => pe_ok p' /\ no_panic r).
Proof.
  intros Hok. pose proof Hok as (Ht & Hms & Hid). unfold Peap_phase2. apply after_lift_bind.
  pose proof (EapPacket_parse_no_panic plaintext) as Hp. destruct (EapPacket_parse plaintext) as [packet| |]; try done.
  cbn [and_then]. destruct (eap_code packet); try done. apply after_lift_bind.
  destruct (EapPacket_eap_type packet) as [ty|]; [|done]. cbn [ok_or and_then]. apply after_self.
  assert (forall id ty td p1, pe_ok p1 -> fits td ->
    after (Some <$> lift (EapPacket_response id ty td)) p1 (fun p' (r : exec Eapol.Error (option bytes)) =>
      pe_ok p' /\ no_panic r)) as Hresp.
  { intros id ty' td p1 Hp1 Htd. destruct (response_Ok id ty' td Htd) as (w & Hw & _).
    unfold after, fmap, call_fmap, mbind, call_bind, lift. by rewrite Hw. }
  destruct (ty =? eap_type.IDENTITY).
  { apply Hresp; [done|]. unfold fits, MAX_NAME, MAX_TYPE_DATA in *. lia. }
  destruct (ty =? eap_type.MSCHAPV2).
  { apply after_bind, after_zoom. eapply after_mono; [by apply em_on_request_safe|].
    intros m' r [Hm' Hr]. assert (pe_ok (pe_set_inner m' p)) as Hp' by by split_and!.
    destruct r as [[td|]| |]; cbn [and_then]; try done. by apply Hresp. }
  destruct (ty =? eap_type.TLV); [|by apply Hresp].
  unfold Peap_on_result_tlv. apply after_lift_bind. destruct (find_result_tlv _) as [r|]; [|done]. cbn [ok_or and_then].
  destruct (r =? TLV_RESULT_SUCCESS); [|by destruct (r =? TLV_RESULT_FAILURE)].
  apply after_self, after_throw_if; [done|]. intros _. apply after_update. by apply Hresp.
Qed.

#[global] Instance Peap_safe : EapMethodSafe (Peap C).
Proof.
  refine {| em_ok := pe_ok |}. intros d p Hok. change (after (Peap_on_request d) p (answers pe_ok)).
  pose proof Hok as (Hpt & Hms & Hid). unfold Peap_on_request.
  assert (forall t p1, tunnel_ok t -> pe_ok p1 -> pe_ok (pe_set_tunnel t p1)) as Hset
    by (intros t p1 ? (? & ? & ?); by split_and!).
  eapply tunnel_call; [by apply on_request_keeps| |intros; split; [by apply Hset|done]].
  intros [td|plaintext] t Ht Hev; [split; [by apply Hset|done]|]. apply after_self.
  assert (forall p1, pe_ok p1 -> after (if bool_decide (plaintext = [])
    then p ← self; mret (Some (Tunnel_empty_reply (pe_tunnel p)))
    else answer ← Peap_phase2 plaintext;
         match answer with
         | Some inner => Some <$> zoom pe_tunnel pe_set_tunnel (Tunnel_send_tunnelled inner)
         | None => p ← self; mret (Some (Tunnel_empty_reply (pe_tunnel p)))
         end) p1 (answers pe_ok)) as Hrest.
  { intros p1 Hp1. case_bool_decide; [split; [done|apply empty_reply_fits]|].
    apply after_bind. eapply after_mono; [by apply phase2_safe|]. intros p2 r [Hp2 Hn].
    destruct r as [[b|]| |]; cbn [and_then]; [|split; [done|apply empty_reply_fits]|done|done].
    unfold fmap, call_fmap. eapply tunnel_call; [apply send_tunnelled_keeps, Hp2| |];
      intros; (split; [by apply Hset|done]). }
  cbn [tunnel_msk pe_set_tunnel]. destruct (tunnel_msk p) as [k|]; [by apply Hrest, Hset|].
  pose proof (export_msk_no_panic (conn t) eap_type.PEAP TLS12_LABEL_EAP_TLS (proj1 Ht)) as Hx.
  apply after_bind, after_lift_bind. cbn [pe_tunnel pe_set_tunnel].
  destruct (export_msk (conn t) _ _); [|split; [by apply Hset|done]|done].
  cbn. apply Hrest. by split_and!.
Defined.
End methods.

(** The demo's connection qualifies. *)
Module TlsSafeDemo.
Import TlsDemo.
Definition within (c : connection) : Prop := outstanding (d_out c) < 65536.

#[export] Instance safe : TlsSafe connection.
Proof.
  refine {| tls_ok := within |}; unfold keeps_conn, within, after.
  - intros b c Hc. cbn -[outstanding]. by destruct (d_handshaking c).
  - done.
  - intros b c Hc. cbn -[outstanding]. destruct (Z.ltb_spec (outstanding (d_out c ++ [b])) 65536); done.
  - intros n c Hc. cbn -[outstanding]. by case_bool_decide.
  - done.
  - intros [hs out inp] Hc. cbn -[outstanding] in *. destruct out as [|b out]; [by split|].
    cbn [tail head default outstanding] in *. pose proof (outstanding_nonneg out). unfold len in *. split; [lia|].
    cbn. lia.
  - intros c Hc. cbn -[outstanding]. pose proof (outstanding_nonneg (d_out c)). lia.
  - intros c n label context Hc. apply length_replicate.
Defined.

#[export] Instance setup_safe : TlsSetupSafe connection.
Proof. split. by intros config name c [= <-]. Defined.
End TlsSafeDemo.
