(* ===== verification/Profile.v ===== *)
(** * Saved networks: [caw-core], profile.rs, with the security order of policy.rs

    A profile and its security floor, the escaping that makes an SSID a file
    name, and the profile directory: [save] as the sequence of file-system
    steps it performs, so that a crash is a prefix of it.  The JSON text of a
    profile is serde's; [Json] names it, and a profile it has no text for is an
    error of [save]. *)
From S2P Require Import Prelude Bytes Text Dot11.

(** ** The order of security levels (policy.rs) *)

Definition strength (s : Security) : Z :=
  match s with
  | Open => 0
  | Wep => 1
  | Wpa1Personal | Wpa1Enterprise => 2
  | SecOwe => 3
  | Wpa2Personal | Wpa2Enterprise => 4
  | Wpa2Wpa3Personal => 5
  | Wpa3Personal | Wpa3Enterprise => 6
  end.

Definition is_at_least (offered floor : Security) : bool := strength floor <=? strength offered.

Definition security_floor (observed : Security) : Security :=
  match observed with Wpa2Wpa3Personal => Wpa2Personal | other => other end.

(** ** Profiles *)

(** A Rust [String] is its UTF-8 octets. *)
Inductive EnterpriseMethod :=
| Peap (password : bytes)
| Ttls (password : bytes)
| Tls (client_cert key : bytes).
#[export] Instance EnterpriseMethod_eq_dec : EqDecision EnterpriseMethod.
Proof. solve_decision. Defined.

Inductive Credential :=
| CredNone
| Passphrase (secret : bytes)
| Enterprise (identity : bytes) (anonymous_identity server_name : option bytes)
    (method : EnterpriseMethod) (ca_cert : option bytes).
#[export] Instance Credential_eq_dec : EqDecision Credential.
Proof. solve_decision. Defined.

Record Profile := {
  p_ssid : bytes;
  p_security : Security;
  p_credential : Credential;
  p_autoconnect : bool;
  p_min_security : Security;
}.
#[export] Instance Profile_eq_dec : EqDecision Profile.
Proof. solve_decision. Defined.

Definition Profile_new (ssid : bytes) (security : Security) (credential : Credential) : Profile :=
  {| p_ssid := ssid; p_security := security; p_credential := credential;
     p_autoconnect := match credential with CredNone => false | _ => true end;
     p_min_security := security_floor security |}.

Definition accepts (p : Profile) (offered : Security) : bool :=
  is_at_least offered (p_min_security p).

(** ** File names *)

(** [A-Z a-z 0-9 - _] *)
Definition plain (b : Z) : bool :=
  ((65 <=? b) && (b <=? 90)) || ((97 <=? b) && (b <=? 122)) || ((48 <=? b) && (b <=? 57))
  || (b =? 45) || (b =? 95).

(** One digit of [{:02X}]. *)
Definition hex_digit (d : Z) : Z := if d <? 10 then 48 + d else 55 + d.
Definition escape (b : Z) : bytes :=
  if plain b then [b] else [37; hex_digit (b / 16); hex_digit (b mod 16)].

Definition JSON_SUFFIX : bytes := [46; 106; 115; 111; 110].
Definition TMP_SUFFIX : bytes := [46; 116; 109; 112].

Definition file_name (ssid : bytes) : bytes := concat (map escape ssid) ++ JSON_SUFFIX.

(** [char::to_digit(16)]: either case. *)
Definition hex_value (c : Z) : option Z :=
  if (48 <=? c) && (c <=? 57) then Some (c - 48)
  else if (65 <=? c) && (c <=? 70) then Some (c - 55)
  else if (97 <=? c) && (c <=? 102) then Some (c - 87)
  else None.

(** [u8::from_str_radix(s, 16)] on two octets: a leading [+] is a sign. *)
Definition from_hex2 (a b : Z) : option Z :=
  if a =? 43 then hex_value b
  else hi ← hex_value a; lo ← hex_value b; Some (16 * hi + lo).

Fixpoint unescape (rest : bytes) : option bytes :=
  match rest with
  | [] => Some []
  | first :: tail =>
      if plain first then cons first <$> unescape tail
      else if first =? 37 then
        match tail with
        | a :: b :: tail => v ← from_hex2 a b; cons v <$> unescape tail
        | _ => None
        end
      else None
  end.

(** [name.strip_suffix(".json")] *)
Definition strip_suffix (name suffix : bytes) : option bytes :=
  let n := (length name - length suffix)%nat in
  if bool_decide (drop n name = suffix) then Some (take n name) else None.

Definition ssid_from_file_name (name : bytes) : option bytes :=
  stem ← strip_suffix name JSON_SUFFIX;
  out ← unescape stem;
  match out with [] => None | _ => Some out end.

(** ** Two fields of the JSON text: [security_str] and [ssid_bytes] *)

Definition security_serialize (s : Security) : bytes := ascii_of (Security_as_str s).
Definition KNOWN : list Security :=
  [Open; Wep; Wpa1Personal; Wpa1Enterprise; Wpa2Personal; Wpa3Personal; Wpa2Wpa3Personal; Wpa2Enterprise;
   Wpa3Enterprise; SecOwe].
(** [None]: an unknown security level. *)
Definition security_deserialize (name : bytes) : option Security :=
  find_first (fun s => bool_decide (ascii_of (Security_as_str s) = name)) KNOWN.

Definition ssid_serialize {E} (ssid : bytes) : exec E bytes := expect (strip_suffix (file_name ssid) JSON_SUFFIX).
Definition ssid_deserialize (escaped : bytes) : option bytes := ssid_from_file_name (escaped ++ JSON_SUFFIX).

(** ** The directory *)

(** [serde_json] on the derived implementations.  There is no text for a path
    that is not UTF-8, which JSON cannot hold. *)
Class Json := {
  to_json : Profile -> option bytes;
  from_json : bytes -> option Profile;
}.
(** What serde promises of them: the text of a profile is read back as it --
    of one with an SSID, without which [ssid_bytes] refuses the text
    ([ssid_deserialize]). *)
Class JsonLaws `{Json} := {
  from_to_json p text :
    is_bytes (p_ssid p) -> p_ssid p <> [] -> to_json p = Some text -> from_json text = Some p;
}.

Inductive Error := EmptySsid | JsonError | IoError.
#[export] Instance Error_eq_dec : EqDecision Error.
Proof. solve_decision. Defined.

(** [None] is a directory that does not exist yet. *)
Definition Fs : Type := option (gmap bytes bytes).

(** One system call; [Append] is one octet of [write_all], so that a crash can
    fall anywhere inside it. *)
Inductive FsStep :=
| Mkdir
| OpenTrunc (name : bytes)
| Append (name : bytes) (b : Z)
| Rename (from to : bytes).

Definition fs_step (fs : Fs) (s : FsStep) : Fs :=
  match s, fs with
  | Mkdir, None => Some ∅
  | Mkdir, Some m => Some m
  | OpenTrunc n, Some m => Some (<[n := []]> m)
  | Append n b, Some m => Some (alter (fun c => c ++ [b]) n m)
  | Rename a b, Some m =>
      match m !! a with Some c => Some (<[b := c]> (delete a m)) | None => Some m end
  | _, None => None
  end.
Definition fs_run (fs : Fs) (steps : list FsStep) : Fs := fold_left fs_step steps fs.

Section store.
Context `{Json}.

Definition load (fs : Fs) (ssid : bytes) : exec Error (option Profile) :=
  match fs ≫= (fun m => m !! file_name ssid) with
  | Some content => Some <$> ok_or JsonError (from_json content)
  | None => Ok None
  end.

(** In no particular order; a file that does not parse is skipped. *)
Definition load_all (fs : Fs) : list Profile :=
  match fs with
  | None => []
  | Some m =>
      omap (fun entry => _ ← ssid_from_file_name (fst entry); from_json (snd entry)) (map_to_list m)
  end.

(** The system calls of [save] that change the directory's contents, in
    order ([fchmod] and [sync_all] change none).  A profile that has no text
    is refused once the directory was made ([Mkdir]), before anything is
    written in it. *)
Definition save (p : Profile) : exec Error (list FsStep) :=
  if bool_decide (p_ssid p = []) then Err EmptySsid else
  json ← ok_or JsonError (to_json p);
  let final_path := file_name (p_ssid p) in
  let temp_path := final_path ++ TMP_SUFFIX in
  Ok ([Mkdir; OpenTrunc temp_path] ++ map (Append temp_path) json ++ [Rename temp_path final_path]).

(** [false] when there was nothing to forget. *)
Definition delete_profile (fs : Fs) (ssid : bytes) : bool * Fs :=
  match fs with
  | Some m => if is_some (m !! file_name ssid)
              then (true, Some (delete (file_name ssid) m)) else (false, fs)
  | None => (false, fs)
  end.
End store.

(** ** Escaping *)

Lemma escape_hex b :
  is_u8 b -> plain b = false -> from_hex2 (hex_digit (b / 16)) (hex_digit (b mod 16)) = Some b.
Proof.
  intros Hb Hp.
  pose proof (all_octets (fun b => plain b
    || bool_decide (from_hex2 (hex_digit (b / 16)) (hex_digit (b mod 16)) = Some b)) eq_refl b Hb) as Hc.
  cbn beta in Hc. rewrite Hp in Hc. by apply bool_decide_eq_true in Hc.
Qed.

Lemma unescape_escape b rest :
  is_u8 b -> unescape (escape b ++ rest) = cons b <$> unescape rest.
Proof.
  intros Hb. unfold escape. destruct (plain b) eqn:Hp; cbn [app unescape]; [by rewrite Hp|].
  cbn [plain Z.leb Z.eqb]. replace (plain 37) with false by done. cbn [Z.eqb Pos.eqb].
  by rewrite escape_hex.
Qed.

Lemma unescape_escapes ssid : is_bytes ssid -> unescape (concat (map escape ssid)) = Some ssid.
Proof.
  induction 1 as [|b ssid Hb _ IH]; [done|]. cbn [map concat].
  rewrite unescape_escape by done. by rewrite IH.
Qed.

Lemma strip_suffix_app a s : strip_suffix (a ++ s) s = Some a.
Proof.
  unfold strip_suffix. rewrite length_app, Nat.add_sub.
  by rewrite drop_app_length, bool_decide_true, take_app_length.
Qed.

Lemma ssid_of_file_name ssid :
  is_bytes ssid -> ssid <> [] -> ssid_from_file_name (file_name ssid) = Some ssid.
Proof.
  intros Hb Hn. unfold ssid_from_file_name, file_name. rewrite strip_suffix_app.
  cbn [mbind option_bind]. rewrite unescape_escapes by done. cbn. by destruct ssid.
Qed.

(** A file name leads back to its SSID, whatever octets the SSID holds,
    so two SSIDs never share a file. *)
Theorem file_name_roundtrip ssid ssid' :
  is_bytes ssid -> is_bytes ssid' -> ssid <> [] -> ssid' <> [] ->
  ssid_from_file_name (file_name ssid) = Some ssid
  /\ (file_name ssid = file_name ssid' -> ssid = ssid').
Proof.
  intros Hb Hb' Hn Hn'. split; [by apply ssid_of_file_name|].
  intros Heq. pose proof (ssid_of_file_name ssid Hb Hn) as H1. rewrite Heq in H1.
  rewrite ssid_of_file_name in H1 by done. congruence.
Qed.

(** The octets a file name is made of. *)
Definition name_octet (b : Z) : bool := plain b || (b =? 37).

Lemma escape_octets b : is_u8 b -> Forall (fun c => name_octet c = true) (escape b).
Proof.
  intros Hb. pose proof (all_octets (fun b => forallb name_octet (escape b)) eq_refl b Hb) as Hc.
  apply Forall_forall. intros c Hin. rewrite forallb_forall in Hc. apply Hc. by apply list_elem_of_In.
Qed.

Lemma escapes_octets ssid :
  is_bytes ssid -> Forall (fun c => name_octet c = true) (concat (map escape ssid)).
Proof.
  induction 1 as [|b ssid Hb _ IH]; cbn [map concat]; [constructor|].
  apply Forall_app. split; [by apply escape_octets|done].
Qed.

Lemma escape_length b : (length (escape b) <= 3)%nat.
Proof. unfold escape. destruct (plain b); cbn; lia. Qed.

(** The names of the security levels are read back, and nothing else is. *)
Lemma security_str_exact name s : security_deserialize name = Some s <-> name = security_serialize s.
Proof.
  unfold security_deserialize. split.
  - intros Hf. apply find_first_Some in Hf as [_ Hf]. by apply bool_decide_eq_true in Hf.
  - intros ->. destruct s; vm_compute; reflexivity.
Qed.
(** What is stored for an SSID always is, and reads back as it. *)
Lemma ssid_bytes_roundtrip {E} ssid :
  is_bytes ssid -> ssid <> [] ->
  exists escaped, ssid_serialize (E := E) ssid = Ok escaped /\ ssid_deserialize escaped = Some ssid.
Proof.
  intros Hb Hn. exists (concat (map escape ssid)). split; [|by apply ssid_of_file_name].
  unfold ssid_serialize, file_name. by rewrite strip_suffix_app.
Qed.

(** A file name stays inside the directory and inside the file system's
    limit: no slash, no NUL, never a dot first, and at most 101 octets for a
    802.11 SSID. *)
Theorem file_name_safe ssid :
  is_bytes ssid -> ssid <> [] ->
  ~ 47 ∈ file_name ssid /\ ~ 0 ∈ file_name ssid
  /\ head (file_name ssid) <> Some 46
  /\ (length (file_name ssid) <= 3 * length ssid + 5)%nat.
Proof.
  intros Hb Hn. pose proof (escapes_octets ssid Hb) as Ho.
  assert (Hnot : forall c, name_octet c = false -> ~ c ∈ JSON_SUFFIX -> ~ c ∈ file_name ssid).
  { intros c Hc Hs Hin. unfold file_name in Hin. apply elem_of_app in Hin as [Hin|Hin]; [|done].
    rewrite Forall_forall in Ho. apply Ho in Hin. congruence. }
  split_and!.
  - apply Hnot; [done|]. by apply (bool_decide_unpack _); vm_compute.
  - apply Hnot; [done|]. by apply (bool_decide_unpack _); vm_compute.
  - destruct ssid as [|b ssid]; [done|]. unfold file_name. cbn [map concat].
    intros Hh. cbn [map concat] in Ho. unfold escape in *. destruct (plain b) eqn:Hp; cbn in Hh; [|done].
    injection Hh as ->. done.
  - unfold file_name. rewrite length_app. cbn [JSON_SUFFIX length].
    assert (length (concat (map escape ssid)) <= 3 * length ssid)%nat; [|lia].
    clear. induction ssid as [|b ssid IH]; cbn [map concat length]; [lia|].
    rewrite length_app. pose proof (escape_length b). lia.
Qed.

(** An interrupted save leaves a name that is never read as a profile. *)
Lemma strip_suffix_Some name s stem : strip_suffix name s = Some stem -> name = stem ++ s.
Proof.
  unfold strip_suffix. case_bool_decide as Hd; [|done]. intros [= <-].
  set (n := (length name - length s)%nat) in *. by rewrite <- Hd, take_drop.
Qed.

Lemma temp_not_json ssid : ssid_from_file_name (file_name ssid ++ TMP_SUFFIX) = None.
Proof.
  unfold ssid_from_file_name. destruct (strip_suffix _ _) as [stem|] eqn:Hs; [|done].
  apply strip_suffix_Some in Hs. unfold JSON_SUFFIX, TMP_SUFFIX in Hs.
  change [46; 106; 115; 111; 110] with ([46; 106; 115; 111] ++ [110]) in Hs.
  change [46; 116; 109; 112] with ([46; 116; 109] ++ [112]) in Hs.
  rewrite !app_assoc in Hs. apply app_inj_tail in Hs as [_ Hs]. discriminate Hs.
Qed.

Lemma temp_not_file_name ssid ssid' : file_name ssid ++ TMP_SUFFIX <> file_name ssid'.
Proof.
  intros Hs. unfold file_name at 2, JSON_SUFFIX, TMP_SUFFIX in Hs.
  change [46; 106; 115; 111; 110] with ([46; 106; 115; 111] ++ [110]) in Hs.
  change [46; 116; 109; 112] with ([46; 116; 109] ++ [112]) in Hs.
  rewrite !app_assoc in Hs. apply app_inj_tail in Hs as [_ Hs]. discriminate Hs.
Qed.

(** The reader is wider than the writer: an escape of a plain octet, a
    lower-case digit or a sign is read as an SSID although [file_name] never
    writes it. *)
Theorem ssid_from_file_name_accepts_foreign :
  exists name ssid, ssid_from_file_name name = Some ssid /\ file_name ssid <> name.
Proof. exists ([37; 52; 49] ++ JSON_SUFFIX), [65]. split; [reflexivity|]. vm_compute. discriminate. Qed.

(** ** The directory *)

Definition content (fs : Fs) (name : bytes) : option bytes := fs ≫= (fun m => m !! name).

(** A step that writes only to [temp]. *)
Definition writes_only (temp : bytes) (s : FsStep) : Prop :=
  match s with
  | Mkdir => True
  | OpenTrunc n | Append n _ => n = temp
  | Rename _ _ => False
  end.

Lemma step_content temp s fs name :
  writes_only temp s -> name <> temp -> content (fs_step fs s) name = content fs name.
Proof.
  intros Hs Hn. destruct s as [|n|n b|a b], fs as [m|]; cbn in *; subst; try done.
  - by rewrite lookup_insert_ne.
  - by rewrite lookup_alter_ne.
Qed.

Lemma run_content temp steps fs name :
  Forall (writes_only temp) steps -> name <> temp ->
  content (fs_run fs steps) name = content fs name.
Proof.
  intros Hs Hn. revert fs. induction Hs as [|s steps Hs _ IH]; intros fs; [done|].
  unfold fs_run in *. cbn [fold_left]. rewrite IH. by eapply step_content.
Qed.

Lemma run_app fs a b : fs_run fs (a ++ b) = fs_run (fs_run fs a) b.
Proof. apply fold_left_app. Qed.

Lemma run_append temp json c m :
  m !! temp = Some c ->
  exists m', fs_run (Some m) (map (Append temp) json) = Some m' /\ m' !! temp = Some (c ++ json).
Proof.
  revert c m. induction json as [|b json IH]; intros c m Hc; cbn.
  - exists m. by rewrite app_nil_r.
  - destruct (IH (c ++ [b]) (alter (fun c => c ++ [b]) temp m)) as (m' & Hr & Hm).
    { by rewrite lookup_alter, decide_True, Hc by done. }
    exists m'. split; [exact Hr|]. by rewrite Hm, <- app_assoc.
Qed.

Section store_laws.
Context `{JsonLaws}.

Definition save_writes (p : Profile) (json : bytes) : list FsStep :=
  [Mkdir; OpenTrunc (file_name (p_ssid p) ++ TMP_SUFFIX)]
  ++ map (Append (file_name (p_ssid p) ++ TMP_SUFFIX)) json.

Lemma save_steps p steps :
  save p = Ok steps ->
  exists json, to_json p = Some json
    /\ steps = save_writes p json ++ [Rename (file_name (p_ssid p) ++ TMP_SUFFIX) (file_name (p_ssid p))]
    /\ p_ssid p <> [].
Proof.
  unfold save. case_bool_decide; [done|]. destruct (to_json p) as [json|]; [|done].
  intros [= <-]. exists json. split_and!; [done| |done]. unfold save_writes. by rewrite <- app_assoc.
Qed.

Lemma save_no_panic p : no_panic (save p).
Proof. unfold save. case_bool_decide; [done|]. by destruct (to_json p). Qed.

Lemma save_writes_only p json : Forall (writes_only (file_name (p_ssid p) ++ TMP_SUFFIX)) (save_writes p json).
Proof.
  unfold save_writes. apply Forall_app. split; [by repeat constructor|].
  apply Forall_map, Forall_true. done.
Qed.

Lemma save_temp p json fs :
  exists m, fs_run fs (save_writes p json) = Some m
    /\ m !! (file_name (p_ssid p) ++ TMP_SUFFIX) = Some json.
Proof.
  unfold save_writes. rewrite run_app.
  assert (exists m, fs_run fs [Mkdir; OpenTrunc (file_name (p_ssid p) ++ TMP_SUFFIX)] = Some m
    /\ m !! (file_name (p_ssid p) ++ TMP_SUFFIX) = Some []) as (m & -> & Hm).
  { destruct fs as [m|]; eexists; (split; [reflexivity|]); by rewrite lookup_insert, decide_True. }
  destruct (run_append _ json [] m Hm) as (m' & -> & Hm'). by exists m'.
Qed.

Lemma load_content fs fs' ssid :
  content fs (file_name ssid) = content fs' (file_name ssid) -> load fs ssid = load fs' ssid.
Proof. unfold load, content. by intros ->. Qed.

(** C34. Saving is atomic across a crash: cut the save after any number of
    system calls, and within the write after any octet; the profile read back
    is the old one until the last step and the new one after it, and no other
    network's profile is touched. *)
Theorem save_crash_atomic fs p steps k :
  is_bytes (p_ssid p) -> save p = Ok steps ->
  let fs' := fs_run fs (take k steps) in
  ((k < length steps)%nat -> load fs' (p_ssid p) = load fs (p_ssid p))
  /\ ((length steps <= k)%nat -> load fs' (p_ssid p) = Ok (Some p))
  /\ (forall ssid, is_bytes ssid -> ssid <> [] -> ssid <> p_ssid p ->
      load fs' ssid = load fs ssid).
Proof.
  intros Hb Hs. apply save_steps in Hs as (json & Hjson & -> & Hn).
  set (temp := file_name (p_ssid p) ++ TMP_SUFFIX).
  assert (Hpre : forall ssid, (k <= length (save_writes p json))%nat ->
    load (fs_run fs (take k (save_writes p json))) ssid = load fs ssid).
  { intros ssid _. apply load_content, (run_content temp).
    - apply Forall_take, save_writes_only.
    - apply not_eq_sym, temp_not_file_name. }
  destruct (save_temp p json fs) as (m & Hm & Ht).
  assert (Hfull : (S (length (save_writes p json)) <= k)%nat ->
    fs_run fs (take k (save_writes p json ++ [Rename temp (file_name (p_ssid p))]))
    = Some (<[file_name (p_ssid p) := json]> (delete temp m))).
  { intros Hk. rewrite take_ge by (rewrite length_app; cbn [length]; lia).
    rewrite run_app, Hm. unfold fs_run. cbn. unfold temp. by rewrite Ht. }
  cbn zeta. rewrite !length_app. cbn [length]. split_and!.
  - intros Hk. rewrite take_app_le by lia. apply Hpre. lia.
  - intros Hk. rewrite Hfull by lia. unfold load. cbn. rewrite lookup_insert, decide_True by done.
    by rewrite (from_to_json p json).
  - intros ssid Hb' Hn' Hne. destruct (decide (k <= length (save_writes p json))%nat) as [Hk|Hk].
    + rewrite take_app_le by lia. by apply Hpre.
    + rewrite Hfull by lia. apply load_content. unfold content. cbn.
      assert (file_name ssid <> file_name (p_ssid p)).
      { intros He. apply Hne. pose proof (ssid_of_file_name ssid Hb' Hn') as H1.
        rewrite He, ssid_of_file_name in H1 by done. congruence. }
      rewrite lookup_insert_ne, lookup_delete_ne by (done || apply temp_not_file_name).
      change (m !! file_name ssid) with (content (Some m) (file_name ssid)). rewrite <- Hm.
      eapply (run_content temp); [apply save_writes_only|]. apply not_eq_sym, temp_not_file_name.
Qed.

(** A completed save is among the profiles the next start loads, and
    deleting it leaves nothing to load. *)
Theorem saved_is_loaded fs p steps :
  is_bytes (p_ssid p) -> save p = Ok steps ->
  p ∈ load_all (fs_run fs steps)
  /\ load (snd (delete_profile (fs_run fs steps) (p_ssid p))) (p_ssid p) = Ok None
  /\ fst (delete_profile (fs_run fs steps) (p_ssid p)) = true.
Proof.
  intros Hb Hs. apply save_steps in Hs as (json & Hjson & -> & Hn).
  destruct (save_temp p json fs) as (m & Hm & Ht).
  rewrite run_app, Hm. unfold fs_run. cbn [fold_left fs_step]. rewrite Ht.
  set (m' := <[file_name (p_ssid p) := json]> _).
  assert (Hl : m' !! file_name (p_ssid p) = Some json) by (unfold m'; by rewrite lookup_insert, decide_True).
  split_and!.
  - unfold load_all. apply list_elem_of_omap. exists (file_name (p_ssid p), json).
    split; [by apply elem_of_map_to_list|]. cbn [fst snd].
    rewrite ssid_of_file_name by done. cbn. by apply from_to_json.
  - unfold delete_profile. rewrite Hl. cbn [is_some snd]. unfold load. cbn.
    by rewrite lookup_delete, decide_True.
  - unfold delete_profile. by rewrite Hl.
Qed.
End store_laws.

(** ** Witnesses *)

Lemma file_name_roundtrip_witness :
  ssid_from_file_name (file_name [47; 0; 255; 46]) = Some [47; 0; 255; 46]
  /\ (file_name [47; 0; 255; 46] = file_name [65] -> [47; 0; 255; 46] = [65]).
Proof.
  apply file_name_roundtrip; try discriminate; apply (bool_decide_unpack _); vm_compute; exact I.
Defined.

Definition dots : bytes := [46; 46; 47].

Lemma file_name_safe_witness :
  ~ 47 ∈ file_name dots /\ ~ 0 ∈ file_name dots
  /\ head (file_name dots) <> Some 46
  /\ (length (file_name dots) <= 3 * 3 + 5)%nat.
Proof. apply file_name_safe; [apply (bool_decide_unpack _); vm_compute; exact I|discriminate]. Defined.

(** A serialiser for every profile: a number that encodes it. *)
Definition security_index (s : Security) : nat :=
  match s with
  | Open => 0 | Wep => 1 | Wpa1Personal => 2 | Wpa1Enterprise => 3 | Wpa2Personal => 4
  | Wpa3Personal => 5 | Wpa2Wpa3Personal => 6 | Wpa2Enterprise => 7 | Wpa3Enterprise => 8
  | SecOwe => 9
  end.
#[export] Instance Security_countable : Countable Security.
Proof.
  apply (inj_countable' security_index (fun n => nth n
    [Open; Wep; Wpa1Personal; Wpa1Enterprise; Wpa2Personal; Wpa3Personal; Wpa2Wpa3Personal;
     Wpa2Enterprise; Wpa3Enterprise; SecOwe] Open)). by intros [].
Defined.

#[export] Instance EnterpriseMethod_countable : Countable EnterpriseMethod.
Proof.
  apply (inj_countable'
    (fun m => match m with Peap p => inl (inl p) | Ttls p => inl (inr p) | Tls c k => inr (c, k) end)
    (fun m => match m with inl (inl p) => Peap p | inl (inr p) => Ttls p | inr (c, k) => Tls c k end)).
  by intros [].
Defined.

#[export] Instance Credential_countable : Countable Credential.
Proof.
  apply (inj_countable'
    (fun c => match c with
              | CredNone => None
              | Passphrase p => Some (inl p)
              | Enterprise i a n m k => Some (inr (i, a, n, m, k)) end)
    (fun c => match c with
              | None => CredNone
              | Some (inl p) => Passphrase p
              | Some (inr (i, a, n, m, k)) => Enterprise i a n m k end)).
  by intros [].
Defined.

#[export] Instance Profile_countable : Countable Profile.
Proof.
  apply (inj_countable'
    (fun p => (p_ssid p, p_security p, p_credential p, p_autoconnect p, p_min_security p))
    (fun t => let '(s, c, k, a, m) := t in
       {| p_ssid := s; p_security := c; p_credential := k; p_autoconnect := a; p_min_security := m |})).
  by intros [].
Defined.

Section witnesses.
#[local] Instance demo_json : Json := {
  to_json p := Some [Zpos (encode p)];
  from_json b := match b with [Zpos n] => decode n | _ => None end;
}.
#[local] Instance demo_json_laws : JsonLaws.
Proof. split. intros p text _ _ [= <-]. apply decode_encode. Defined.

Definition demo_profile : Profile := Profile_new [67; 97; 102; 101] Wpa2Personal (Passphrase [112; 119]).
Definition demo_steps : list FsStep := match save demo_profile with Ok s => s | _ => [] end.

Lemma save_crash_atomic_witness :
  let fs' := fs_run None (take 3 demo_steps) in
  ((3 < length demo_steps)%nat -> load fs' [67; 97; 102; 101] = load None [67; 97; 102; 101])
  /\ ((length demo_steps <= 3)%nat -> load fs' [67; 97; 102; 101] = Ok (Some demo_profile))
  /\ (forall ssid, is_bytes ssid -> ssid <> [] -> ssid <> [67; 97; 102; 101] ->
      load fs' ssid = load None ssid).
Proof.
  apply (save_crash_atomic None demo_profile demo_steps 3);
    [apply (bool_decide_unpack _); vm_compute; exact I|reflexivity].
Defined.

Lemma saved_is_loaded_witness :
  demo_profile ∈ load_all (fs_run None demo_steps)
  /\ load (snd (delete_profile (fs_run None demo_steps) [67; 97; 102; 101])) [67; 97; 102; 101] = Ok None
  /\ fst (delete_profile (fs_run None demo_steps) [67; 97; 102; 101]) = true.
Proof.
  apply (saved_is_loaded None demo_profile demo_steps);
    [apply (bool_decide_unpack _); vm_compute; exact I|reflexivity].
Defined.
End witnesses.
