(* ===== verification/Policy.v ===== *)
(** * Which network to join, and with which suites: [caw-core], policy.rs and rsn.rs

    Pure functions over scan results and profiles, and the RSN element the
    station sends ([StationRsn]).  The build feature [enterprise] is the
    parameter [enterprise]. *)
From S2P Require Import Prelude Bytes Text Dot11 Netlink Nl80211 Profile.

Definition ROAM_MARGIN_DB : Z := 8.

(** [i32::saturating_add] *)
Definition sat_add_i32 (a b : Z) : Z := Z.max (- 2 ^ 31) (Z.min (2 ^ 31 - 1) (a + b)).

(** ** Choosing a BSS *)

Definition best_bss (scan : list Bss) (ssid : bytes) : option Bss :=
  max_by_key bss_signal_dbm (filter (fun b => bss_ssid b = ssid) scan).

(** The profile that makes a BSS worth joining unasked. *)
Definition profile_for (profiles : list Profile) (b : Bss) : option Profile :=
  find_first (fun p => p_autoconnect p && bool_decide (p_ssid p = bss_ssid b)) profiles.

Definition best_known (scan : list Bss) (profiles : list Profile) : option (Bss * Profile) :=
  max_by_key (fun bp => bss_signal_dbm (fst bp))
    (omap (fun b => p ← profile_for profiles b; Some (b, p)) scan).

Definition roam_target (scan : list Bss) (ssid current : bytes) (current_signal : Z) : option Bss :=
  let floor := sat_add_i32 current_signal ROAM_MARGIN_DB in
  max_by_key bss_signal_dbm
    (filter (fun b => (bss_ssid b = ssid /\ bss_bssid b <> current) /\ floor <= bss_signal_dbm b) scan).

(** ** Choosing suites *)

Definition satisfies (akm : Akm) (credential : option Credential) : bool :=
  match credential with
  | None => true
  | Some CredNone => false
  | Some (Passphrase _) => is_psk akm || is_sae akm
  | Some (Enterprise _ _ _ _ _) => is_enterprise akm
  end.

Section suites.
Context (enterprise : bool).

Definition runnable (akm : Akm) : bool :=
  match akm with
  | Psk | PskSha256 | Sae => true
  | Dot1x | Dot1xSha256 => enterprise
  | _ => false
  end.

Definition AKM_PREFERENCE : list Akm := [Sae; Dot1xSha256; PskSha256; Dot1x; Psk].

Definition choose_akm (rsn : RsnIe) (credential : option Credential) : option Akm :=
  find_first (fun akm => akms_contain (rsn_akms rsn) akm && satisfies akm credential && runnable akm)
    AKM_PREFERENCE.
End suites.

Definition choose_pairwise (rsn : RsnIe) : option Cipher :=
  find_first (fun c => bool_decide (c ∈ rsn_pairwise_ciphers rsn)) [Ccmp128; Gcmp128].

Definition negotiated_security (akm : Akm) (mfp_required : bool) : Security :=
  if is_sae akm then Wpa3Personal
  else if is_psk akm then Wpa2Personal
  else if bool_decide (akm = Owe) then SecOwe
  else if is_enterprise akm then
    if mfp_required || bool_decide (akm = Dot1xSuiteB192) then Wpa3Enterprise else Wpa2Enterprise
  else Open.

(** ** The RSN element of the association request (rsn.rs) *)

Definition VERSION : Z := 1.

Record StationRsn := {
  st_group : Cipher;
  st_pairwise : Cipher;
  st_akm : Akm;
  st_mfp_capable : bool;
  st_mfp_required : bool;
  st_pmkid : option bytes;
  st_group_mgmt : option Cipher;
}.

Definition cipher_selector (c : Cipher) : bytes :=
  be_encode 4 (default WLAN_CIPHER_SUITE_USE_GROUP (cipher_suite c)).
Definition akm_selector (a : Akm) : bytes := be_encode 4 (akm_suite a).

Definition station_capabilities (s : StationRsn) : Z :=
  Z.lor (if st_mfp_capable s then RSN_CAP_MFPC else 0) (if st_mfp_required s then RSN_CAP_MFPR else 0).

(** What follows the identifier and the length. *)
Definition StationRsn_body (s : StationRsn) : bytes :=
  le_encode 2 VERSION ++ cipher_selector (st_group s)
  ++ le_encode 2 1 ++ cipher_selector (st_pairwise s)
  ++ le_encode 2 1 ++ akm_selector (st_akm s)
  ++ le_encode 2 (station_capabilities s)
  ++ (if is_some (st_pmkid s) || is_some (st_group_mgmt s)
      then le_encode 2 (if is_some (st_pmkid s) then 1 else 0)
           ++ default [] (st_pmkid s) ++ from_option cipher_selector [] (st_group_mgmt s)
      else []).

(** [u8::try_from(len).expect(..)] *)
Definition StationRsn_encode {E} (s : StationRsn) : exec E bytes :=
  let body := StationRsn_body s in
  if len body <? 256 then Ok ([EID_RSN; len body] ++ body) else Panic.

(** ** The choice of BSS *)

(** The strongest BSS of the network: in the scan, under that SSID, and no
    other entry under it is stronger; none exactly when the scan has none. *)
Theorem best_bss_spec scan ssid :
  match best_bss scan ssid with
  | Some b => b ∈ scan /\ bss_ssid b = ssid
      /\ forall b', b' ∈ scan -> bss_ssid b' = ssid -> bss_signal_dbm b' <= bss_signal_dbm b
  | None => forall b, b ∈ scan -> bss_ssid b <> ssid
  end.
Proof.
  unfold best_bss. destruct (max_by_key _ _) as [b|] eqn:Hm.
  - apply max_by_key_Some in Hm as [Hin Hall]. apply list_elem_of_filter in Hin as [Hs Hin].
    split_and!; [done..|]. intros b' Hin' Hs'. rewrite Forall_forall in Hall.
    apply Hall, list_elem_of_filter. done.
  - apply max_by_key_None in Hm. intros b Hin Hs.
    assert (b ∈ filter (fun b => bss_ssid b = ssid) scan) as Hf by by apply list_elem_of_filter.
    rewrite Hm in Hf. set_solver.
Qed.

Lemma profile_for_Some profiles b p :
  profile_for profiles b = Some p ->
  p ∈ profiles /\ p_autoconnect p = true /\ p_ssid p = bss_ssid b.
Proof. intros [? ?]%find_first_Some. bool_prop. done. Qed.

Lemma profile_for_None profiles b :
  profile_for profiles b = None <->
  forall p, p ∈ profiles -> p_autoconnect p = true -> p_ssid p <> bss_ssid b.
Proof.
  unfold profile_for. rewrite find_first_None. split; intros Hn p Hp.
  - intros Ha Hs. specialize (Hn p Hp). rewrite Ha, bool_decide_true in Hn by done. done.
  - destruct (p_autoconnect p) eqn:Ha; [|done]. rewrite bool_decide_false; [done|]. by apply Hn.
Qed.

(** Autoconnect joins known networks only: the BSS chosen is in the scan
    and has a saved profile that allows it, no other known network is heard
    better, and when nothing is chosen nothing in range is known. *)
Theorem best_known_spec scan profiles :
  match best_known scan profiles with
  | Some (b, p) => b ∈ scan /\ p ∈ profiles /\ p_autoconnect p = true /\ p_ssid p = bss_ssid b
      /\ forall b' p', b' ∈ scan -> p' ∈ profiles -> p_autoconnect p' = true ->
           p_ssid p' = bss_ssid b' -> bss_signal_dbm b' <= bss_signal_dbm b
  | None => forall b p, b ∈ scan -> p ∈ profiles -> p_autoconnect p = true -> p_ssid p <> bss_ssid b
  end.
Proof.
  unfold best_known. destruct (max_by_key _ _) as [[b p]|] eqn:Hm.
  - apply max_by_key_Some in Hm as [Hin Hall]. apply list_elem_of_omap in Hin as (b0 & Hb & Ho).
    apply bind_Some in Ho as (p0 & Hp & [= -> ->]). apply profile_for_Some in Hp as (? & ? & ?).
    split_and!; [done..|]. intros b' p' Hb' Hp' Ha Hs.
    destruct (profile_for profiles b') as [q|] eqn:Hq.
    + rewrite Forall_forall in Hall. apply (Hall (b', q)), list_elem_of_omap. exists b'. by rewrite Hq.
    + by apply (proj1 (profile_for_None _ _) Hq p') in Hs.
  - apply max_by_key_None in Hm. intros b p Hb Hp Ha Hs.
    destruct (profile_for profiles b) as [q|] eqn:Hq.
    + assert ((b, q) ∈ omap (fun b => p ← profile_for profiles b; Some (b, p)) scan) as Hf.
      { apply list_elem_of_omap. exists b. by rewrite Hq. }
      rewrite Hm in Hf. set_solver.
    + by apply (proj1 (profile_for_None _ _) Hq p) in Hs.
Qed.

Lemma roam_target_Some scan ssid cur s b :
  roam_target scan ssid cur s = Some b ->
  b ∈ scan /\ bss_ssid b = ssid /\ bss_bssid b <> cur /\ sat_add_i32 s ROAM_MARGIN_DB <= bss_signal_dbm b
  /\ forall b', b' ∈ scan -> bss_ssid b' = ssid -> bss_bssid b' <> cur ->
       sat_add_i32 s ROAM_MARGIN_DB <= bss_signal_dbm b' -> bss_signal_dbm b' <= bss_signal_dbm b.
Proof.
  unfold roam_target. intros Hm. apply max_by_key_Some in Hm as [Hin Hall].
  apply list_elem_of_filter in Hin as ([[??]?]&?). split_and!; [done..|].
  intros b' ????. rewrite Forall_forall in Hall. apply Hall, list_elem_of_filter. done.
Qed.

(** Roaming does not flap: the target is at least the margin better than
    the current BSS, and once there, the same scan offers nothing to roam to --
    not even back. *)
Theorem roam_is_stable scan ssid cur s b :
  roam_target scan ssid cur s = Some b ->
  s < 2 ^ 31 - 1 - ROAM_MARGIN_DB ->
  bss_signal_dbm b < 2 ^ 31 - 1 - ROAM_MARGIN_DB ->
  (forall b', b' ∈ scan -> bss_bssid b' = cur -> bss_signal_dbm b' <= s) ->
  - 2 ^ 31 <= s ->
  s + ROAM_MARGIN_DB <= bss_signal_dbm b
  /\ roam_target scan ssid (bss_bssid b) (bss_signal_dbm b) = None.
Proof.
  intros Hr Hs Hb Hcur Hlo. apply roam_target_Some in Hr as (Hin & Hss & Hne & Hge & Hmax).
  unfold sat_add_i32, ROAM_MARGIN_DB in *. split; [lia|].
  destruct (roam_target scan ssid (bss_bssid b) (bss_signal_dbm b)) as [c|] eqn:Hc; [|done].
  apply roam_target_Some in Hc as (Hcin & Hcs & Hcne & Hcge & _).
  unfold sat_add_i32, ROAM_MARGIN_DB in *. exfalso.
  destruct (decide (bss_bssid c = cur)) as [Hc|Hc].
  - specialize (Hcur c Hcin Hc). lia.
  - specialize (Hmax c Hcin Hcs Hc). lia.
Qed.

(** What [Connection] needs of a choice: it is an entry of the scan. *)
Lemma best_bss_elem scan ssid b : best_bss scan ssid = Some b -> b ∈ scan.
Proof. intros [Hin _]%max_by_key_Some. by apply list_elem_of_filter in Hin as [_ Hin]. Qed.

Lemma best_known_elem scan profiles b p :
  best_known scan profiles = Some (b, p) -> b ∈ scan /\ p ∈ profiles /\ p_ssid p = bss_ssid b.
Proof.
  intros [Hin _]%max_by_key_Some. apply list_elem_of_omap in Hin as (b0 & Hb & Ho).
  apply bind_Some in Ho as (p0 & Hp & [= -> ->]). by apply profile_for_Some in Hp as (? & ? & ?).
Qed.

Lemma roam_target_elem scan ssid cur s b : roam_target scan ssid cur s = Some b -> b ∈ scan.
Proof. by intros [Hin _]%roam_target_Some. Qed.

(** ** The choice of suites *)

Section suite_laws.
Context (enterprise : bool).

Definition acceptable (rsn : RsnIe) (credential : option Credential) (akm : Akm) : bool :=
  akms_contain (rsn_akms rsn) akm && satisfies akm credential && runnable enterprise akm.

Lemma choose_akm_Some rsn cred akm :
  choose_akm enterprise rsn cred = Some akm -> acceptable rsn cred akm = true.
Proof. by intros [? ?]%find_first_Some. Qed.

Lemma runnable_preferred akm : runnable enterprise akm = true -> akm ∈ AKM_PREFERENCE.
Proof. destruct akm; cbn; try done; intros _; unfold AKM_PREFERENCE; set_solver. Qed.

Lemma negotiated_runnable akm mfp :
  runnable enterprise akm = true -> 4 <= strength (negotiated_security akm mfp).
Proof. destruct akm, mfp; cbn; done || lia. Qed.

(** One credential asks for one family. *)
Lemma satisfies_family cred akm :
  satisfies akm (Some cred) = true ->
  match cred with
  | CredNone => False
  | Passphrase _ => is_psk akm || is_sae akm = true
  | Enterprise _ _ _ _ _ => is_enterprise akm = true
  end.
Proof. by destruct cred. Qed.

(** The AKM chosen for a credential is on offer, matches the credential
    and can be run; it protects at least as well as every other AKM of which
    that is true; and none is chosen only when there is none. *)
Theorem choose_akm_strongest rsn cred mfp :
  match choose_akm enterprise rsn (Some cred) with
  | Some akm => acceptable rsn (Some cred) akm = true
      /\ forall akm', acceptable rsn (Some cred) akm' = true ->
           strength (negotiated_security akm' mfp) <= strength (negotiated_security akm mfp)
  | None => forall akm, acceptable rsn (Some cred) akm = false
  end.
Proof.
  destruct (choose_akm enterprise rsn (Some cred)) as [akm|] eqn:Hc.
  - split; [by apply choose_akm_Some|]. intros akm' Ha'.
    pose proof (choose_akm_Some _ _ _ Hc) as Ha.
    assert (Hno : acceptable rsn (Some cred) Sae = false \/ akm = Sae).
    { unfold choose_akm, AKM_PREFERENCE in Hc. cbn [find_first] in Hc.
      fold (acceptable rsn (Some cred) Sae) in Hc.
      destruct (acceptable rsn (Some cred) Sae); [right; congruence|by left]. }
    assert (Hr : runnable enterprise akm = true /\ satisfies akm (Some cred) = true)
      by (unfold acceptable in Ha; by bool_prop).
    assert (Hr' : runnable enterprise akm' = true /\ satisfies akm' (Some cred) = true)
      by (unfold acceptable in Ha'; by bool_prop).
    destruct Hr as [Hr Hs], Hr' as [Hr' Hs'].
    destruct Hno as [Hno | ->]; [|by destruct akm', mfp].
    assert (akm' <> Sae) by congruence.
    apply satisfies_family in Hs, Hs'. destruct cred; [done|destruct akm, akm'|destruct akm, akm'];
      try done; cbn; try lia; destruct mfp; cbn; lia.
  - intros akm. pose proof (proj1 (find_first_None _ _) Hc) as Hn.
    destruct (acceptable rsn (Some cred) akm) eqn:Ha; [|done].
    rewrite <- (Hn akm); [exact (eq_sym Ha)|]. apply runnable_preferred.
    unfold acceptable in Ha. by bool_prop.
Qed.

(** An access point is of one family when it does not mix personal and
    enterprise suites. *)
Definition one_family (rsn : RsnIe) : Prop :=
  Forall (fun a => is_enterprise a = false) (rsn_akms rsn)
  \/ Forall (fun a => is_psk a = false /\ is_sae a = false) (rsn_akms rsn).

Lemma existsb_false {A} (f : A -> bool) l : existsb f l = false <-> Forall (fun x => f x = false) l.
Proof.
  induction l as [|x l IH]; cbn; [split; constructor|].
  rewrite orb_false_iff, Forall_cons, IH. done.
Qed.

Lemma existsb_elem {A} (f : A -> bool) l x : x ∈ l -> f x = true -> existsb f l = true.
Proof. intros Hx Hf. apply existsb_exists. exists x. by rewrite <- list_elem_of_In. Qed.

(** The floor recorded for a network never locks its owner out: on an
    access point of one family, whatever security it was first seen with, the
    AKM chosen there negotiates a level the profile accepts -- transition
    mode included. *)
Theorem floor_accepts_own_network rsn ssid cred akm security :
  one_family rsn ->
  from_akms (rsn_akms rsn) (rsn_mfp_required rsn) = Some security ->
  choose_akm enterprise rsn (Some cred) = Some akm ->
  ~ Dot1xSuiteB192 ∈ rsn_akms rsn ->
  accepts (Profile_new ssid security cred) (negotiated_security akm (rsn_mfp_required rsn)) = true.
Proof.
  intros Hfam Hsec Hc Hb. pose proof (choose_akm_Some _ _ _ Hc) as Ha. unfold acceptable in Ha.
  bool_prop. match goal with H : akms_contain _ _ = true |- _ => rename H into Hin end.
  unfold akms_contain in Hin. apply bool_decide_eq_true in Hin.
  assert (Hsae : existsb is_sae (rsn_akms rsn) = true -> existsb is_psk (rsn_akms rsn) = false ->
    is_enterprise akm = false -> is_sae akm = true).
  { intros _ Hp%existsb_false He. rewrite Forall_forall in Hp. specialize (Hp akm Hin).
    by destruct akm. }
  unfold accepts, Profile_new, is_at_least. cbn [p_min_security]. apply Z.leb_le.
  unfold from_akms in Hsec. unfold akms_contain in Hsec.
  destruct Hfam as [Hne | Hnp].
  - assert (He : is_enterprise akm = false) by (rewrite Forall_forall in Hne; by apply Hne).
    rewrite (proj2 (existsb_false is_enterprise _) Hne) in Hsec.
    destruct (existsb is_sae _) eqn:Es, (existsb is_psk _) eqn:Ep; cbn in Hsec.
    + simplify_eq. by destruct akm, (rsn_mfp_required rsn).
    + simplify_eq. specialize (Hsae eq_refl eq_refl He). by destruct akm.
    + case_bool_decide; simplify_eq; by destruct akm, (rsn_mfp_required rsn).
    + assert (is_psk akm = false /\ is_sae akm = false) as [? ?].
      { apply existsb_false in Es, Ep. rewrite Forall_forall in Es, Ep. auto. }
      by destruct akm.
  - assert (is_psk akm = false /\ is_sae akm = false) as [? ?] by (rewrite Forall_forall in Hnp; by apply Hnp).
    assert (existsb is_sae (rsn_akms rsn) = false) as Es
      by (apply existsb_false; eapply Forall_impl; [exact Hnp|]; by intros ? []).
    rewrite Es in Hsec. cbn [andb] in Hsec.
    assert (is_enterprise akm = true) as He by by destruct akm.
    rewrite (existsb_elem _ _ _ Hin He) in Hsec.
    rewrite (bool_decide_false (Dot1xSuiteB192 ∈ _)) in Hsec by done.
    case_bool_decide; simplify_eq; [by destruct akm, (rsn_mfp_required rsn)|].
    by destruct (rsn_mfp_required rsn); cbn in Hsec; simplify_eq; destruct akm.
Qed.

(** Mixed access points escape it: where PSK and 802.1X are offered
    together under mandatory management frame protection, the network is
    recorded as WPA3-Enterprise, a passphrase negotiates WPA2-Personal, and
    the profile just written refuses the network it was written for. *)
Theorem mixed_network_locked_out rsn ssid secret :
  Psk ∈ rsn_akms rsn -> Dot1x ∈ rsn_akms rsn -> rsn_mfp_required rsn = true ->
  Forall (fun a => is_sae a = false) (rsn_akms rsn) -> ~ Owe ∈ rsn_akms rsn ->
  exists akm, choose_akm enterprise rsn (Some (Passphrase secret)) = Some akm
    /\ from_akms (rsn_akms rsn) (rsn_mfp_required rsn) = Some Wpa3Enterprise
    /\ accepts (Profile_new ssid Wpa3Enterprise (Passphrase secret))
         (negotiated_security akm (rsn_mfp_required rsn)) = false.
Proof.
  intros Hpsk Hdot Hmfp Hsae Howe.
  destruct (choose_akm enterprise rsn (Some (Passphrase secret))) as [akm|] eqn:Hc.
  - exists akm. split; [done|]. pose proof (choose_akm_Some _ _ _ Hc) as Ha.
    unfold acceptable, akms_contain in Ha. bool_prop. split.
    + unfold from_akms, akms_contain. rewrite (proj2 (existsb_false is_sae _) Hsae).
      rewrite bool_decide_false by done. rewrite (existsb_elem is_enterprise _ Dot1x) by done.
      by rewrite Hmfp.
    + rewrite Forall_forall in Hsae. specialize (Hsae akm). rewrite Hmfp.
      destruct akm; try done; exfalso; by discriminate Hsae.
  - exfalso. pose proof (proj1 (find_first_None _ _) Hc Psk) as Hn. cbn beta in Hn.
    assert (akms_contain (rsn_akms rsn) Psk = true) as Hp by by apply bool_decide_eq_true.
    rewrite Hp in Hn. cbn in Hn. discriminate Hn. unfold AKM_PREFERENCE. set_solver.
Qed.
End suite_laws.

(** ** The RSN element, built here and parsed by the other end *)

(** A suite as the parser produces it: an unknown one keeps its selector. *)
Definition Cipher_wf (c : Cipher) : Prop :=
  match c with
  | CipherUnknown s => selector_wf s /\ Cipher_from_selector s = CipherUnknown s
  | _ => True
  end.
Definition Akm_wf (a : Akm) : Prop :=
  match a with
  | AkmUnknown s => selector_wf s /\ Akm_from_selector s = AkmUnknown s
  | _ => True
  end.

Lemma be_encode_selector s : selector_wf s -> be_encode 4 (be_decode (selector_bytes s)) = selector_bytes s.
Proof. intros Hs. rewrite <- (length_selector_bytes s). by apply be_encode_decode. Qed.

(** The table of selectors is the parser's, read backwards. *)
Lemma cipher_selector_parse c :
  Cipher_wf c -> exists s, cipher_selector c = selector_bytes s /\ Cipher_from_selector s = c.
Proof.
  intros Hc. exists (to_selector (cipher_selector c)).
  destruct c as [| | | | | | | | |s]; try (split; reflexivity).
  destruct Hc as [Hs Hf]. unfold cipher_selector. cbn [cipher_suite default from_option id].
  rewrite be_encode_selector by done. by rewrite to_selector_bytes.
Qed.

Lemma akm_selector_parse a :
  Akm_wf a -> exists s, akm_selector a = selector_bytes s /\ Akm_from_selector s = a.
Proof.
  intros Ha. exists (to_selector (akm_selector a)).
  destruct a as [| | | | | | | | | |s]; try (split; reflexivity).
  destruct Ha as [Hs Hf]. unfold akm_selector. cbn [akm_suite].
  rewrite be_encode_selector by done. by rewrite to_selector_bytes.
Qed.

Definition StationRsn_wf (s : StationRsn) : Prop :=
  Cipher_wf (st_group s) /\ Cipher_wf (st_pairwise s) /\ Akm_wf (st_akm s)
  /\ from_option (fun p => length p = 16%nat) True (st_pmkid s)
  /\ from_option Cipher_wf True (st_group_mgmt s).

Lemma station_body_wire s :
  StationRsn_wf s -> exists g p a gm,
    StationRsn_body s = rsn_wire g [p] [a] (station_capabilities s)
                          (option_list (st_pmkid s)) gm
    /\ Cipher_from_selector g = st_group s /\ Cipher_from_selector p = st_pairwise s
    /\ Akm_from_selector a = st_akm s /\ Cipher_from_selector <$> gm = st_group_mgmt s.
Proof.
  intros (Hg & Hp & Ha & _ & Hm).
  destruct (cipher_selector_parse _ Hg) as (g & Eg & Fg).
  destruct (cipher_selector_parse _ Hp) as (p & Ep & Fp).
  destruct (akm_selector_parse _ Ha) as (a & Ea & Fa).
  assert (exists gm, from_option cipher_selector [] (st_group_mgmt s) = from_option selector_bytes [] gm
    /\ Cipher_from_selector <$> gm = st_group_mgmt s) as (gm & Em & Fm).
  { destruct (st_group_mgmt s) as [m|]; [|by exists None].
    destruct (cipher_selector_parse m Hm) as (sm & Em & Fm). exists (Some sm). split; [exact Em|].
    cbn. by rewrite Fm. }
  exists g, p, a, gm. split_and!; try done. unfold StationRsn_body, rsn_wire, suite_list_wire.
  rewrite Eg, Ep, Ea, Em. cbn [map concat length]. rewrite !app_nil_r, <- !app_assoc.
  assert (is_some (st_group_mgmt s) = is_some gm) as -> by (rewrite <- Fm; by destruct gm).
  destruct (st_pmkid s) as [k|], gm as [m|]; try done;
    try change (option_list (Some k)) with [k]; try change (option_list (@None bytes)) with (@nil bytes);
    cbn [is_some orb default from_option id length concat app]; rewrite ?app_nil_r; reflexivity.
Qed.

Lemma option_list_pmkids (o : option bytes) :
  from_option (fun p => length p = 16%nat) True o -> Forall (fun p => length p = 16%nat) (option_list o).
Proof. destruct o; cbn; [by repeat constructor|constructor]. Qed.

Lemma station_length s :
  from_option (fun p => length p = 16%nat) True (st_pmkid s) -> (length (StationRsn_body s) <= 42)%nat.
Proof.
  intros Hk. unfold StationRsn_body, cipher_selector, akm_selector.
  rewrite !length_app, !length_le_encode, !length_be_encode.
  destruct (st_pmkid s) as [k|], (st_group_mgmt s) as [m|]; cbn in Hk |- *;
    rewrite ?length_app, ?length_le_encode, ?Hk, ?length_rev; cbn; lia.
Qed.

Lemma station_flags s :
  has_flag (station_capabilities s) RSN_CAP_MFPC = st_mfp_capable s
  /\ has_flag (station_capabilities s) RSN_CAP_MFPR = st_mfp_required s
  /\ is_u16 (station_capabilities s).
Proof.
  unfold station_capabilities. destruct (st_mfp_capable s), (st_mfp_required s);
    (split_and!; [reflexivity|reflexivity|by apply (bool_decide_unpack _); vm_compute]).
Qed.

(** C36. The station's RSN element says what was negotiated: it is always
    encodable (a 42-octet body at most) and parses, with anything behind it, to
    exactly the group cipher, the one pairwise cipher, the one AKM, the
    protection flags and the group management cipher asked for. *)
Theorem station_rsn_roundtrip {E} s rest :
  StationRsn_wf s ->
  exists w ie, @StationRsn_encode E s = Ok w /\ RsnIe_parse (w ++ rest) = Ok ie
    /\ (length w <= 44)%nat /\ rsn_raw ie = w /\ rsn_version ie = 1
    /\ rsn_group_cipher ie = st_group s /\ rsn_pairwise_ciphers ie = [st_pairwise s]
    /\ rsn_akms ie = [st_akm s] /\ rsn_mfp_capable ie = st_mfp_capable s
    /\ rsn_mfp_required ie = st_mfp_required s /\ rsn_group_mgmt_cipher ie = st_group_mgmt s.
Proof.
  intros Hs. pose proof (station_length s (proj1 (proj2 (proj2 (proj2 Hs))))) as Hl.
  pose proof (station_flags s) as (Hc & Hr & Hu).
  destruct (station_body_wire s Hs) as (g & p & a & gm & Hb & Fg & Fp & Fa & Fm).
  unfold StationRsn_encode. rewrite (proj2 (Z.ltb_lt _ 256)) by (unfold len; lia).
  exists (element_wire EID_RSN (StationRsn_body s)). rewrite Hb in *.
  eexists. split; [reflexivity|]. split.
  - assert (H01 : is_u16 0 /\ is_u16 1) by (unfold is_uint; lia). destruct H01 as [H0 H1].
    apply RsnIe_parse_wire; [exact H1|exact H1|exact Hu| |].
    + destruct (st_pmkid s); [exact H1|exact H0].
    + apply option_list_pmkids, Hs.
  - unfold rsn_of. cbn [rsn_raw rsn_version rsn_group_cipher rsn_pairwise_ciphers rsn_akms
      rsn_mfp_capable rsn_mfp_required rsn_group_mgmt_cipher map].
    rewrite Hc, Hr, Fg, Fp, Fa, Fm. split_and!; try done.
    unfold element_wire. rewrite length_app. cbn [length]. lia.
Qed.

(** ** Witnesses *)

Section witnesses.
Definition demo_bss (bssid ssid : bytes) (signal : Z) : Bss :=
  {| bss_bssid := bssid; bss_ssid := ssid; bss_freq_mhz := 2412; bss_signal_dbm := signal;
     bss_last_seen_ms := 0; bss_capability := 0; bss_security := Wpa2Personal; bss_rsn := None |}.
Definition demo_scan : list Bss := [demo_bss [1] [9] (-70); demo_bss [2] [9] (-50); demo_bss [3] [8] (-30)].

Lemma roam_is_stable_witness :
  -70 + ROAM_MARGIN_DB <= bss_signal_dbm (demo_bss [2] [9] (-50))
  /\ roam_target demo_scan [9] (bss_bssid (demo_bss [2] [9] (-50)))
       (bss_signal_dbm (demo_bss [2] [9] (-50))) = None.
Proof.
  apply (roam_is_stable demo_scan [9] [1]).
  - vm_compute. reflexivity.
  - vm_compute. reflexivity.
  - vm_compute. reflexivity.
  - intros b' Hin Hb. unfold demo_scan in Hin.
    repeat (apply elem_of_cons in Hin as [-> | Hin]; [cbn in *; discriminate || lia|]).
    by apply not_elem_of_nil in Hin.
  - vm_compute. discriminate.
Defined.

Definition demo_rsn (akms : list Akm) (mfpr : bool) : RsnIe :=
  {| rsn_version := 1; rsn_group_cipher := Ccmp128; rsn_pairwise_ciphers := [Ccmp128];
     rsn_akms := akms; rsn_capabilities := 0; rsn_mfp_capable := mfpr; rsn_mfp_required := mfpr;
     rsn_group_mgmt_cipher := None; rsn_raw := [] |}.

Lemma floor_accepts_own_network_witness :
  accepts (Profile_new [9] Wpa2Wpa3Personal (Passphrase [1])) (negotiated_security Sae false) = true.
Proof.
  apply (floor_accepts_own_network false (demo_rsn [Psk; Sae] false) [9] (Passphrase [1]) Sae).
  - left. repeat constructor.
  - reflexivity.
  - reflexivity.
  - unfold demo_rsn. cbn. intros Hin. apply (bool_decide_unpack (~ Dot1xSuiteB192 ∈ [Psk; Sae])) in Hin; [done|].
    vm_compute. exact I.
Defined.

Lemma mixed_network_locked_out_witness :
  exists akm, choose_akm false (demo_rsn [Dot1x; Psk] true) (Some (Passphrase [1])) = Some akm
    /\ from_akms [Dot1x; Psk] true = Some Wpa3Enterprise
    /\ accepts (Profile_new [9] Wpa3Enterprise (Passphrase [1])) (negotiated_security akm true) = false.
Proof.
  apply (mixed_network_locked_out false (demo_rsn [Dot1x; Psk] true)).
  - apply (bool_decide_unpack _). vm_compute. exact I.
  - apply (bool_decide_unpack _). vm_compute. exact I.
  - reflexivity.
  - repeat constructor.
  - apply (bool_decide_unpack (~ Owe ∈ [Dot1x; Psk])). vm_compute. exact I.
Defined.

Definition demo_station : StationRsn :=
  {| st_group := Ccmp128; st_pairwise := Ccmp128; st_akm := Sae; st_mfp_capable := true;
     st_mfp_required := true; st_pmkid := Some (replicate 16 5); st_group_mgmt := Some BipCmac128 |}.

Lemma station_rsn_roundtrip_witness :
  exists w ie, @StationRsn_encode unit demo_station = Ok w /\ RsnIe_parse (w ++ [1]) = Ok ie
    /\ (length w <= 44)%nat /\ rsn_raw ie = w /\ rsn_version ie = 1
    /\ rsn_group_cipher ie = Ccmp128 /\ rsn_pairwise_ciphers ie = [Ccmp128]
    /\ rsn_akms ie = [Sae] /\ rsn_mfp_capable ie = true
    /\ rsn_mfp_required ie = true /\ rsn_group_mgmt_cipher ie = Some BipCmac128.
Proof. apply (station_rsn_roundtrip demo_station [1]). repeat split. Defined.
End witnesses.
