(* ===== verification/DhcpOptions.v ===== *)
(** * DHCP options: [caw-dhcp], options.rs and the helpers of lib.rs

    The TLV option area after the magic cookie.  An IPv4 address is its 32
    bits; a [String] is its UTF-8 octets. *)
From S2P Require Import Prelude Bytes Text.

(** ** lib.rs *)

Inductive Error := Malformed | Incomplete (code : Z) | ErrNak | ErrIo (errno : Z) | ErrShortSend.
#[export] Instance Error_eq_dec : EqDecision Error.
Proof. solve_decision. Defined.

Definition UNSPECIFIED : Z := 0.
Definition BROADCAST : Z := 2 ^ 32 - 1.

(** [u32::leading_ones] and [u32::count_ones] on the [n] low bits. *)
Fixpoint leading_ones (n : nat) (v : Z) : Z :=
  match n with
  | O => 0
  | S n => if Z.testbit v (Z.of_nat n) then 1 + leading_ones n v else 0
  end.
Fixpoint count_ones (n : nat) (v : Z) : Z :=
  match n with
  | O => 0
  | S n => (if Z.testbit v (Z.of_nat n) then 1 else 0) + count_ones n v
  end.

Definition prefix_len_from_mask (mask : Z) : option Z :=
  let l := leading_ones 32 mask in
  if count_ones 32 mask =? l then Some l else None.

(** [u32::MAX << (32 - prefix_len)] *)
Definition mask_from_prefix_len (prefix_len : Z) : option Z :=
  if prefix_len =? 0 then Some UNSPECIFIED
  else if (1 <=? prefix_len) && (prefix_len <=? 32)
  then Some (wrap 32 (Z.shiftl (2 ^ 32 - 1) (32 - prefix_len)))
  else None.

(** ** options.rs *)

Definition OPT_PAD : Z := 0.
Definition OPT_SUBNET_MASK : Z := 1.
Definition OPT_ROUTER : Z := 3.
Definition OPT_DNS : Z := 6.
Definition OPT_HOSTNAME : Z := 12.
Definition OPT_REQUESTED_IP : Z := 50.
Definition OPT_LEASE_TIME : Z := 51.
Definition OPT_OVERLOAD : Z := 52.
Definition OPT_MESSAGE_TYPE : Z := 53.
Definition OPT_SERVER_ID : Z := 54.
Definition OPT_PARAM_REQUEST : Z := 55.
Definition OPT_T1 : Z := 58.
Definition OPT_T2 : Z := 59.
Definition OPT_CLIENT_ID : Z := 61.
Definition OPT_END : Z := 255.
Definition OVERLOAD_FILE : Z := 1.
Definition OVERLOAD_SNAME : Z := 2.

Inductive MessageType :=
| Discover | Offer | Request | Decline | Ack | Nak | Release | Inform | MtOther (code : Z).
#[export] Instance MessageType_eq_dec : EqDecision MessageType.
Proof. solve_decision. Defined.

Definition MessageType_from_code (code : Z) : MessageType :=
  match code with
  | 1 => Discover
  | 2 => Offer
  | 3 => Request
  | 4 => Decline
  | 5 => Ack
  | 6 => Nak
  | 7 => Release
  | 8 => Inform
  | other => MtOther other
  end.

Definition MessageType_code (t : MessageType) : Z :=
  match t with
  | Discover => 1 | Offer => 2 | Request => 3 | Decline => 4
  | Ack => 5 | Nak => 6 | Release => 7 | Inform => 8
  | MtOther code => code
  end.

Inductive DhcpOption :=
| SubnetMask (a : Z)
| Router (l : list Z)
| Dns (l : list Z)
| HostName (name : bytes)
| RequestedIp (a : Z)
| LeaseTime (t : Z)
| OptMessageType (t : MessageType)
| ServerId (a : Z)
| ParameterRequest (codes : bytes)
| T1 (t : Z)
| T2 (t : Z)
| ClientId (id : bytes)
| Other (code : Z) (data : bytes).
#[export] Instance DhcpOption_eq_dec : EqDecision DhcpOption.
Proof. solve_decision. Defined.

Definition option_code (o : DhcpOption) : Z :=
  match o with
  | SubnetMask _ => OPT_SUBNET_MASK
  | Router _ => OPT_ROUTER
  | Dns _ => OPT_DNS
  | HostName _ => OPT_HOSTNAME
  | RequestedIp _ => OPT_REQUESTED_IP
  | LeaseTime _ => OPT_LEASE_TIME
  | OptMessageType _ => OPT_MESSAGE_TYPE
  | ServerId _ => OPT_SERVER_ID
  | ParameterRequest _ => OPT_PARAM_REQUEST
  | T1 _ => OPT_T1
  | T2 _ => OPT_T2
  | ClientId _ => OPT_CLIENT_ID
  | Other code _ => code
  end.

(** [ipv4] and [be_u32]: exactly four octets, big-endian. *)
Definition be_u32 (data : bytes) : exec Error Z :=
  match data with
  | [a; b; c; d] => Ok (be_decode [a; b; c; d])
  | _ => Err Malformed
  end.
Definition ipv4 (data : bytes) : exec Error Z := be_u32 data.

(** [as_chunks::<4>().0]: the complete groups of four. *)
Fixpoint chunks4 (l : bytes) : list Z :=
  match l with
  | a :: b :: c :: d :: l => be_decode [a; b; c; d] :: chunks4 l
  | _ => []
  end.

Definition ipv4_list (data : bytes) : exec Error (list Z) :=
  if bool_decide (data = []) || negb (length data mod 4 =? 0)%nat then Err Malformed
  else Ok (chunks4 data).

Definition option_decode (code : Z) (data : bytes) : exec Error DhcpOption :=
  if code =? OPT_SUBNET_MASK then SubnetMask <$> ipv4 data
  else if code =? OPT_ROUTER then Router <$> ipv4_list data
  else if code =? OPT_DNS then Dns <$> ipv4_list data
  else if code =? OPT_HOSTNAME then Ok (HostName (utf8_lossy data))
  else if code =? OPT_REQUESTED_IP then RequestedIp <$> ipv4 data
  else if code =? OPT_LEASE_TIME then LeaseTime <$> be_u32 data
  else if code =? OPT_MESSAGE_TYPE then
    match data with [c] => Ok (OptMessageType (MessageType_from_code c)) | _ => Err Malformed end
  else if code =? OPT_SERVER_ID then ServerId <$> ipv4 data
  else if code =? OPT_PARAM_REQUEST then Ok (ParameterRequest data)
  else if code =? OPT_T1 then T1 <$> be_u32 data
  else if code =? OPT_T2 then T2 <$> be_u32 data
  else if code =? OPT_CLIENT_ID then Ok (ClientId data)
  else Ok (Other code data).

(** [tlv]: a length is one octet, so longer data is truncated. *)
Definition tlv (code : Z) (data : bytes) : bytes :=
  let n := Nat.min (length data) 255 in [code; Z.of_nat n] ++ take n data.

(** What the option carries. *)
Definition option_data (o : DhcpOption) : bytes :=
  match o with
  | SubnetMask a | RequestedIp a | ServerId a => be_encode 4 a
  | Router l | Dns l => concat (map (be_encode 4) l)
  | HostName name => name
  | LeaseTime v | T1 v | T2 v => be_encode 4 v
  | OptMessageType t => [MessageType_code t]
  | ParameterRequest data | ClientId data => data
  | Other _ data => data
  end.

Definition option_encode (o : DhcpOption) : bytes := tlv (option_code o) (option_data o).

Definition encode_all (options : list DhcpOption) : bytes :=
  concat (map option_encode options) ++ [OPT_END].

(** The loop of [decode_into]; the fuel is the octets left, of which every
    turn consumes one at least. *)
Fixpoint decode_loop (fuel : nat) (rest : bytes) (overload : Z) (out : list DhcpOption)
  : exec Error (Z * list DhcpOption) :=
  match fuel with
  | O => Ok (overload, out)
  | S fuel =>
      match rest with
      | [] => Ok (overload, out)
      | code :: tail =>
          if code =? OPT_PAD then decode_loop fuel tail overload out
          else if code =? OPT_END then Ok (overload, out)
          else
            n ← ok_or Malformed (head tail);
            data ← ok_or Malformed (get_range 2 (2 + Z.to_nat n) rest);
            let rest := drop (2 + Z.to_nat n) rest in
            if code =? OPT_OVERLOAD then
              match data with
              | [bits] => decode_loop fuel rest (Z.lor overload bits) out
              | _ => Err Malformed
              end
            else
              o ← option_decode code data;
              decode_loop fuel rest overload (out ++ [o])
      end
  end.

Definition decode_into (buf : bytes) (out : list DhcpOption) : exec Error (Z * list DhcpOption) :=
  decode_loop (S (length buf)) buf 0 out.

(** ** Prefixes and masks *)

(** The mask of [n] leading ones. *)
Lemma mask_ones n : 0 <= n <= 32 -> wrap 32 (Z.shiftl (2 ^ 32 - 1) (32 - n)) = 2 ^ 32 - 2 ^ (32 - n).
Proof.
  intros Hn. unfold wrap. rewrite Z.shiftl_mul_pow2 by lia.
  assert (2 ^ 32 = 2 ^ n * 2 ^ (32 - n)) as Hp by (rewrite <- Z.pow_add_r by lia; f_equal; lia).
  assert (0 < 2 ^ (32 - n) <= 2 ^ 32) as Hb.
  { split; [lia|]. apply Z.pow_le_mono_r; lia. }
  replace ((2 ^ 32 - 1) * 2 ^ (32 - n)) with ((2 ^ 32 - 2 ^ (32 - n)) + (2 ^ (32 - n) - 1) * 2 ^ 32) by lia.
  rewrite Z_mod_plus_full. apply Z.mod_small. lia.
Qed.

Lemma mod_top_bit n v :
  v mod 2 ^ Z.of_nat (S n) = (if Z.testbit v (Z.of_nat n) then 2 ^ Z.of_nat n else 0) + v mod 2 ^ Z.of_nat n.
Proof.
  rewrite Nat2Z.inj_succ, Z.pow_succ_r by lia.
  rewrite (Z.mul_comm 2). rewrite Z.rem_mul_r by lia.
  rewrite <- Z.shiftr_div_pow2 by lia. rewrite <- Z.bit0_mod, Z.shiftr_spec by lia.
  rewrite Z.add_0_l. destruct (Z.testbit v (Z.of_nat n)); cbn [Z.b2z]; lia.
Qed.

Lemma count_ones_pos n v : 0 <= count_ones n v.
Proof. induction n as [|n IH]; cbn; [lia|]. case_match; lia. Qed.

Lemma leading_ones_bound n v : 0 <= leading_ones n v <= Z.of_nat n.
Proof. induction n as [|n IH]; cbn [leading_ones]; [lia|]. case_match; lia. Qed.

Lemma count_ones_zero n v : count_ones n v = 0 -> v mod 2 ^ Z.of_nat n = 0.
Proof.
  induction n as [|n IH]; [intros _; apply Z.mod_1_r|]. cbn [count_ones]. intros Hc.
  pose proof (count_ones_pos n v). rewrite mod_top_bit.
  destruct (Z.testbit v (Z.of_nat n)); [lia|]. rewrite IH; lia.
Qed.

(** A number whose ones are all leading is a run of ones over zeroes. *)
Lemma contiguous_ones n v :
  count_ones n v = leading_ones n v ->
  v mod 2 ^ Z.of_nat n = 2 ^ Z.of_nat n - 2 ^ (Z.of_nat n - leading_ones n v).
Proof.
  induction n as [|n IH]; [intros _; cbn; apply Z.mod_1_r|].
  intros Hc. rewrite mod_top_bit. cbn [count_ones leading_ones] in *.
  pose proof (leading_ones_bound n v) as Hl.
  destruct (Z.testbit v (Z.of_nat n)).
  - rewrite IH by lia. rewrite Nat2Z.inj_succ, Z.pow_succ_r by lia.
    replace (Z.succ (Z.of_nat n) - (1 + leading_ones n v)) with (Z.of_nat n - leading_ones n v) by lia. lia.
  - rewrite count_ones_zero by lia. rewrite Z.sub_0_r. lia.
Qed.

(** The mask of a prefix, and back. *)
Lemma prefix_mask_inverse m n :
  is_u32 m -> prefix_len_from_mask m = Some n -> mask_from_prefix_len n = Some m.
Proof.
  intros Hm Hp. unfold prefix_len_from_mask in Hp.
  destruct (Z.eqb_spec (count_ones 32 m) (leading_ones 32 m)) as [Hc|]; [|done].
  assert (leading_ones 32 m = n) as Hln by congruence. rewrite <- Hln in *. clear Hp Hln.
  pose proof (leading_ones_bound 32 m) as Hb.
  pose proof (contiguous_ones 32 m Hc) as He. change (Z.of_nat 32) with 32 in *.
  rewrite Z.mod_small in He by exact Hm.
  unfold mask_from_prefix_len. destruct (Z.eqb_spec (leading_ones 32 m) 0) as [H0|H0].
  - rewrite H0 in He. rewrite He. reflexivity.
  - rewrite (proj2 (Z.leb_le 1 _)), (proj2 (Z.leb_le _ 32)) by lia. cbn [andb].
    rewrite mask_ones by lia. by rewrite <- He.
Qed.

(** Prefix lengths and masks translate both ways: the mask of every prefix
    length gives that length back, and a mask that is given a prefix length is
    exactly that prefix's mask -- one with holes is given none. *)
Theorem prefix_mask_roundtrip :
  (forall n, 0 <= n <= 32 -> exists m, mask_from_prefix_len n = Some m /\ is_u32 m
     /\ prefix_len_from_mask m = Some n)
  /\ (forall m n, is_u32 m -> prefix_len_from_mask m = Some n ->
        mask_from_prefix_len n = Some m).
Proof.
  split; [|exact prefix_mask_inverse]. intros n Hn.
  assert (Hall : forallb (fun n => match mask_from_prefix_len n with
    | Some m => bool_decide (is_u32 m) && bool_decide (prefix_len_from_mask m = Some n)
    | None => false end) (map Z.of_nat (seq 0 33)) = true) by (vm_compute; reflexivity).
  rewrite forallb_forall in Hall. specialize (Hall n). rewrite in_map_iff in Hall.
  assert (Hin : exists x, Z.of_nat x = n /\ In x (seq 0 33)).
  { exists (Z.to_nat n). split; [lia|]. apply in_seq. lia. }
  apply Hall in Hin. destruct (mask_from_prefix_len n) as [m|]; [|done].
  exists m. bool_prop. done.
Qed.

(** ** The option area *)

Definition known_code (c : Z) : bool :=
  existsb (Z.eqb c) [OPT_PAD; OPT_SUBNET_MASK; OPT_ROUTER; OPT_DNS; OPT_HOSTNAME; OPT_REQUESTED_IP;
    OPT_LEASE_TIME; OPT_OVERLOAD; OPT_MESSAGE_TYPE; OPT_SERVER_ID; OPT_PARAM_REQUEST; OPT_T1; OPT_T2;
    OPT_CLIENT_ID; OPT_END].

(** An option as the decoder produces it, small enough for its length octet. *)
Definition option_wf (o : DhcpOption) : Prop :=
  (length (option_data o) <= 255)%nat /\
  match o with
  | SubnetMask a | RequestedIp a | ServerId a => is_u32 a
  | Router l | Dns l => l <> [] /\ Forall is_u32 l
  | HostName name => utf8_lossy name = name
  | LeaseTime t | T1 t | T2 t => is_u32 t
  | OptMessageType t => MessageType_from_code (MessageType_code t) = t
  | ParameterRequest _ | ClientId _ => True
  | Other code _ => known_code code = false
  end.

#[export] Instance option_wf_dec o : Decision (option_wf o).
Proof. unfold option_wf. destruct o; apply _. Defined.

Lemma be_encode_4 v : exists a b c d, be_encode 4 v = [a; b; c; d].
Proof.
  pose proof (length_be_encode 4 v) as Hl.
  destruct (be_encode 4 v) as [|a [|b [|c [|d [|]]]]]; try discriminate Hl. by exists a, b, c, d.
Qed.

Lemma be_u32_encode v : is_u32 v -> be_u32 (be_encode 4 v) = Ok v.
Proof.
  intros Hv. pose proof (be32_roundtrip v Hv) as Hd.
  destruct (be_encode_4 v) as (a & b & c & d & He). rewrite He in *. cbn [be_u32]. by rewrite Hd.
Qed.

Lemma chunks4_encode l : Forall is_u32 l -> chunks4 (concat (map (be_encode 4) l)) = l.
Proof.
  induction 1 as [|v l Hv _ IH]; [done|]. cbn [map concat].
  pose proof (be32_roundtrip v Hv) as Hd. destruct (be_encode_4 v) as (a & b & c & d & He).
  rewrite He in *. cbn [app chunks4]. by rewrite Hd, IH.
Qed.

Lemma length_encode4 l : length (concat (map (be_encode 4) l)) = (4 * length l)%nat.
Proof.
  induction l as [|v l IH]; [done|]. cbn [map concat length]. rewrite length_app, IH, length_be_encode. lia.
Qed.

Lemma ipv4_list_encode l :
  l <> [] -> Forall is_u32 l -> ipv4_list (concat (map (be_encode 4) l)) = Ok l.
Proof.
  intros Hn Hl. unfold ipv4_list. rewrite length_encode4, Nat.mul_comm, Nat.Div0.mod_mul.
  rewrite bool_decide_false.
  - cbn. by rewrite chunks4_encode.
  - intros He. apply (f_equal length) in He. rewrite length_encode4 in He. cbn in He.
    destruct l; [done|cbn in He; lia].
Qed.

Lemma option_decode_data o : option_wf o -> option_decode (option_code o) (option_data o) = Ok o.
Proof.
  intros [_ Ho]. destruct o as [a|l|l|name|a|t|t|a|c|t|t|c|code data]; cbn [option_code option_data].
  all: unfold option_decode; try done.
  all: cbn [Z.eqb Pos.eqb OPT_SUBNET_MASK OPT_ROUTER OPT_DNS OPT_HOSTNAME OPT_REQUESTED_IP OPT_LEASE_TIME
    OPT_MESSAGE_TYPE OPT_SERVER_ID OPT_PARAM_REQUEST OPT_T1 OPT_T2 OPT_CLIENT_ID].
  all: try (unfold ipv4; by rewrite be_u32_encode).
  - destruct Ho. by rewrite ipv4_list_encode.
  - destruct Ho. by rewrite ipv4_list_encode.
  - by rewrite Ho.
  - by rewrite Ho.
  - unfold known_code in Ho. cbn [existsb] in Ho.
    repeat (apply orb_false_iff in Ho as [? Ho]).
    unfold OPT_PAD, OPT_SUBNET_MASK, OPT_ROUTER, OPT_DNS, OPT_HOSTNAME, OPT_REQUESTED_IP, OPT_LEASE_TIME,
      OPT_MESSAGE_TYPE, OPT_SERVER_ID, OPT_PARAM_REQUEST, OPT_T1, OPT_T2, OPT_CLIENT_ID in *.
    by repeat match goal with H : (code =? _) = false |- _ => rewrite H; clear H end.
Qed.

(** An option with a code of its own, not one of the three that structure the
    area. *)
Definition option_plain (o : DhcpOption) : Prop :=
  option_code o <> OPT_PAD /\ option_code o <> OPT_END /\ option_code o <> OPT_OVERLOAD.
#[export] Instance option_plain_dec o : Decision (option_plain o).
Proof. unfold option_plain. apply _. Defined.

(** What arrives of a run of options: of each, the 255 octets its length can
    count, read under its code. *)
Fixpoint arriving (opts : list DhcpOption) : exec Error (list DhcpOption) :=
  match opts with
  | [] => Ok []
  | o :: opts =>
      o ← option_decode (option_code o) (take 255 (option_data o));
      opts ← arriving opts;
      Ok (o :: opts)
  end.

Lemma option_code_plain o : option_wf o -> option_plain o.
Proof.
  intros [_ Ho]. unfold option_plain. destruct o; try (split_and!; discriminate).
  cbn [option_code]. unfold known_code in Ho. cbn [existsb] in Ho.
  repeat (apply orb_false_iff in Ho as [? Ho]). bool_prop. done.
Qed.

(** Well-formed options arrive as they are. *)
Lemma arriving_wf opts : Forall option_wf opts -> arriving opts = Ok opts.
Proof.
  induction 1 as [|o opts Ho _ IH]; [done|]. cbn [arriving].
  by rewrite take_ge, option_decode_data, IH by (done || apply Ho).
Qed.

Lemma take_min_length {A} n (l : list A) : take (Nat.min (length l) n) l = take n l.
Proof.
  destruct (decide (n <= length l)%nat); [by rewrite Nat.min_r|].
  rewrite Nat.min_l by lia. by rewrite !take_ge by lia.
Qed.

(** One turn of the loop over an encoded option. *)
Lemma decode_loop_option fuel o rest ov out :
  option_plain o ->
  decode_loop (S fuel) (option_encode o ++ rest) ov out
  = o' ← option_decode (option_code o) (take 255 (option_data o)); decode_loop fuel rest ov (out ++ [o']).
Proof.
  intros (H1 & H2 & H3). unfold option_encode, tlv. cbn [app].
  set (n := Nat.min (length (option_data o)) 255).
  assert (Htake : take n (option_data o) = take 255 (option_data o)) by apply take_min_length.
  rewrite Htake. set (data := take 255 (option_data o)).
  assert (Hn : length data = n) by (subst data n; rewrite length_take; lia).
  cbn [decode_loop]. apply Z.eqb_neq in H1, H2, H3. rewrite H1, H2, H3.
  cbn [head ok_or mbind exec_bind]. rewrite Nat2Z.id.
  change (option_code o :: Z.of_nat n :: data ++ rest) with ([option_code o; Z.of_nat n] ++ data ++ rest).
  rewrite <- Hn at 1 2. rewrite (get_range_mid [_; _]) by done. cbn [ok_or mbind exec_bind].
  rewrite app_assoc, drop_app_length' by (rewrite length_app, Hn; done). done.
Qed.

Lemma decode_loop_options fuel opts tail ov out :
  Forall option_plain opts -> (length opts < fuel)%nat ->
  decode_loop fuel (concat (map option_encode opts) ++ OPT_END :: tail) ov out
  = opts' ← arriving opts; Ok (ov, out ++ opts').
Proof.
  intros Ho. revert fuel out. induction Ho as [|o opts Ho _ IH]; intros fuel out Hf.
  - destruct fuel; [cbn in Hf; lia|]. cbn. by rewrite app_nil_r.
  - destruct fuel as [|fuel]; [cbn in Hf; lia|]. cbn [map concat arriving]. rewrite <- app_assoc.
    rewrite decode_loop_option by done. destruct (option_decode _ _) as [o'| |]; [|done..]. cbn [mbind exec_bind].
    rewrite IH by (cbn in Hf; lia). destruct (arriving opts) as [opts'| |]; [|done..].
    cbn [mbind exec_bind]. by rewrite <- app_assoc.
Qed.

Lemma length_options opts : (length opts <= length (concat (map option_encode opts)))%nat.
Proof.
  induction opts as [|o opts IH]; [done|]. cbn [map concat length]. rewrite length_app.
  assert (1 <= length (option_encode o))%nat; [|lia].
  unfold option_encode, tlv. cbv zeta. rewrite length_app. cbn [length]. lia.
Qed.

(** The option area round-trips: whatever padding follows the end option,
    what is encoded is read back in order, up to the octets a length cannot
    count. *)
Lemma options_roundtrip opts pad out :
  Forall option_plain opts ->
  decode_into (encode_all opts ++ pad) out = opts' ← arriving opts; Ok (0, out ++ opts').
Proof.
  intros Ho. unfold decode_into, encode_all. rewrite <- app_assoc. cbn [app].
  apply decode_loop_options; [done|]. rewrite length_app. pose proof (length_options opts). lia.
Qed.

(** *** Totality *)

Lemma option_decode_no_panic code data : no_panic (option_decode code data).
Proof.
  unfold option_decode, ipv4, be_u32, ipv4_list.
  repeat case_match; try done.
Qed.

Lemma decode_loop_no_panic fuel rest ov out : no_panic (decode_loop fuel rest ov out).
Proof.
  revert rest ov out. induction fuel as [|fuel IH]; intros rest ov out; cbn [decode_loop]; [done|].
  destruct rest as [|code tail]; [done|].
  destruct (code =? OPT_PAD); [apply IH|]. destruct (code =? OPT_END); [done|].
  apply no_panic_bind; [auto with caw|]. intros n _.
  apply no_panic_bind; [auto with caw|]. intros data _.
  destruct (code =? OPT_OVERLOAD); [destruct data as [|bits [|]]; [done|apply IH|done]|].
  apply no_panic_bind; [apply option_decode_no_panic|]. intros o _. apply IH.
Qed.

(** The fuel is enough: more of it changes nothing, so the loop of the source,
    which has none, computes the same. *)
Lemma decode_loop_enough f1 f2 rest ov out :
  (length rest < f1)%nat -> (length rest < f2)%nat ->
  decode_loop f1 rest ov out = decode_loop f2 rest ov out.
Proof.
  revert f2 rest ov out. induction f1 as [|f1 IH]; intros f2 rest ov out H1 H2; [lia|].
  destruct f2 as [|f2]; [lia|]. destruct rest as [|code tail]; [done|]. cbn [decode_loop length] in *.
  case_match; [apply IH; lia|]. case_match; [done|].
  destruct (head tail) as [n|]; [|done]. cbn [ok_or mbind exec_bind].
  destruct (get_range _ _ _) as [data|]; [|done]. cbn [ok_or mbind exec_bind].
  assert (length (drop (2 + Z.to_nat n) (code :: tail)) < S (length tail))%nat as Hd
    by (rewrite length_drop; cbn [length]; lia).
  case_match.
  - destruct data as [|bits [|]]; [done| |done]. apply IH; lia.
  - destruct (option_decode code data) as [o| |]; [|done|done]. cbn [mbind exec_bind]. apply IH; lia.
Qed.
