(* ===== verification/Ipv6.v ===== *)
(** * IPv6 autoconfiguration: the crate [caw-dhcp], ipv6.rs

    Router advertisements (RFC 4861) and the addresses formed from them
    (RFC 4862).  An [Ipv6Addr] is its sixteen octets, first octet first.  The
    specification of the decoder is [advertises]: the layout of the header and
    of a run of whole options, and what each says. *)
From S2P Require Import Prelude Bytes DhcpOptions.

Definition ROUTER_ADVERTISEMENT : Z := 134.
Definition RA_HDR_LEN : nat := 16.
Definition OPT_PREFIX_INFO : Z := 3.
Definition OPT_RDNSS : Z := 25.
Definition FLAG_MANAGED : Z := 0x80.
Definition FLAG_OTHER : Z := 0x40.
Definition PREFIX_ON_LINK : Z := 0x80.
Definition PREFIX_AUTONOMOUS : Z := 0x40.

Record PrefixInfo := {
  prefix : bytes;
  prefix_len : Z;
  on_link : bool;
  autonomous : bool;
  valid_lifetime : Z;
  preferred_lifetime : Z;
}.

Record RouterAdvert := {
  hop_limit : Z;
  managed : bool;
  other_config : bool;
  router_lifetime : Z;
  reachable_time : Z;
  retrans_timer : Z;
  prefixes : list PrefixInfo;
  dns : list bytes;
}.

(** [buf[i] & mask != 0] *)
Definition flag_at (i : nat) (mask : Z) (buf : bytes) : exec Error bool :=
  x ← idx i buf; Ok (has_flag x mask).

(** [u16::from_be_bytes([buf[i], buf[i + 1]])] and its 32-bit sibling. *)
Definition be_at (i n : nat) (buf : bytes) : exec Error Z := be_decode <$> slice i (i + n) buf.

Definition prefix_info (opt : bytes) : exec Error PrefixInfo :=
  _ ← ensure (length opt =? 32)%nat Malformed;
  plen ← idx 2 opt;
  _ ← ensure (plen <=? 128) Malformed;
  prefix ← slice 16 32 opt;
  on_link ← flag_at 3 PREFIX_ON_LINK opt;
  autonomous ← flag_at 3 PREFIX_AUTONOMOUS opt;
  valid ← be_at 4 4 opt;
  preferred ← be_at 8 4 opt;
  Ok {| prefix := prefix; prefix_len := plen; on_link := on_link; autonomous := autonomous;
        valid_lifetime := valid; preferred_lifetime := preferred |}.

(** [as_chunks::<16>().0]: the complete groups of sixteen. *)
Fixpoint chunks16 (fuel : nat) (l : bytes) : list bytes :=
  match fuel with
  | O => []
  | S fuel => if (length l <? 16)%nat then [] else take 16 l :: chunks16 fuel (drop 16 l)
  end.

Definition rdnss (opt : bytes) : exec Error (list bytes) :=
  addrs ← ok_or Malformed (get_from 8 opt);
  _ ← ensure (negb (bool_decide (addrs = [])) && (length addrs mod 16 =? 0)%nat) Malformed;
  Ok (chunks16 (length addrs) addrs).

(** What one option adds. *)
Definition take_option (opt : bytes) (ra : RouterAdvert) : exec Error RouterAdvert :=
  ty ← idx 0 opt;
  if ty =? OPT_PREFIX_INFO then
    p ← prefix_info opt;
    Ok {| hop_limit := hop_limit ra; managed := managed ra; other_config := other_config ra;
          router_lifetime := router_lifetime ra; reachable_time := reachable_time ra;
          retrans_timer := retrans_timer ra; prefixes := prefixes ra ++ [p]; dns := dns ra |}
  else if ty =? OPT_RDNSS then
    addrs ← rdnss opt;
    Ok {| hop_limit := hop_limit ra; managed := managed ra; other_config := other_config ra;
          router_lifetime := router_lifetime ra; reachable_time := reachable_time ra;
          retrans_timer := retrans_timer ra; prefixes := prefixes ra; dns := dns ra ++ addrs |}
  else Ok ra.

(** [while i < buf.len() { .. }]; running out of fuel would be a loop that does
    not end. *)
Fixpoint options_loop (fuel i : nat) (buf : bytes) (ra : RouterAdvert) : exec Error RouterAdvert :=
  match fuel with
  | O => Panic
  | S fuel =>
      if (i <? length buf)%nat then
        header ← ok_or Malformed (get_range i (i + 2) buf);
        units ← idx 1 header;
        let len := (Z.to_nat units * 8)%nat in
        _ ← ensure (negb (len =? 0)%nat) Malformed;
        opt ← ok_or Malformed (get_range i (i + len) buf);
        ra ← take_option opt ra;
        options_loop fuel (i + len) buf ra
      else Ok ra
  end.

(** The fixed fields. *)
Definition header_of (buf : bytes) : exec Error RouterAdvert :=
  hop ← idx 4 buf;
  managed ← flag_at 5 FLAG_MANAGED buf;
  other ← flag_at 5 FLAG_OTHER buf;
  lifetime ← be_at 6 2 buf;
  reachable ← be_at 8 4 buf;
  retrans ← be_at 12 4 buf;
  Ok {| hop_limit := hop; managed := managed; other_config := other; router_lifetime := lifetime;
        reachable_time := reachable; retrans_timer := retrans; prefixes := []; dns := [] |}.

Definition RouterAdvert_decode (buf : bytes) : exec Error RouterAdvert :=
  _ ← ensure (bool_decide (RA_HDR_LEN <= length buf)%nat) Malformed;
  ty ← idx 0 buf;
  _ ← ensure (ty =? ROUTER_ADVERTISEMENT) Malformed;
  code ← idx 1 buf;
  _ ← ensure (code =? 0) Malformed;
  ra ← header_of buf;
  options_loop (S (length buf)) RA_HDR_LEN buf ra.

Definition autonomous_prefix (ra : RouterAdvert) : option PrefixInfo :=
  find_first autonomous (prefixes ra).

(** A MAC is its six octets. *)
Definition eui64_interface_id (mac : bytes) : bytes :=
  match mac with
  | [m0; m1; m2; m3; m4; m5] => [Z.lxor m0 0x02; m1; m2; 0xff; 0xfe; m3; m4; m5]
  | _ => []
  end.

Definition slaac_address (prefix : bytes) (prefix_len : Z) (mac : bytes) : option bytes :=
  if negb (prefix_len =? 64) then None
  else Some (take 8 prefix ++ eui64_interface_id mac).

Definition slaac (p : PrefixInfo) (mac : bytes) : option bytes :=
  if autonomous p then slaac_address (prefix p) (prefix_len p) mac else None.

(** ** The decoder's specification *)

(** An option: at least its two octets, and as long as it says. *)
Definition nd_option (o : bytes) : Prop :=
  exists ty units data, o = ty :: units :: data /\ (0 < Z.to_nat units)%nat
    /\ length o = (Z.to_nat units * 8)%nat.

Fixpoint take_options (os : list bytes) (ra : RouterAdvert) : exec Error RouterAdvert :=
  match os with
  | [] => Ok ra
  | o :: os => ra ← take_option o ra; take_options os ra
  end.

(** What a run of options makes of an advertisement of [ra], read one by one. *)
Definition reads (buf : bytes) (ra : RouterAdvert) : Prop :=
  exists header os ra0,
    buf = header ++ concat os /\ length header = RA_HDR_LEN
    /\ header !! 0%nat = Some ROUTER_ADVERTISEMENT /\ header !! 1%nat = Some 0
    /\ Forall nd_option os /\ header_of header = Ok ra0 /\ take_options os ra0 = Ok ra.

Lemma flag_at_no_panic i m buf : (i < length buf)%nat -> no_panic (flag_at i m buf).
Proof. intros Hi. unfold flag_at. by apply no_panic_bind; [apply no_panic_idx|]. Qed.

Lemma be_at_no_panic i n buf : (i + n <= length buf)%nat -> no_panic (be_at i n buf).
Proof.
  intros Hi. unfold be_at. pose proof (@no_panic_slice Error i (i + n) buf ltac:(lia)) as Hs.
  by destruct (slice i (i + n) buf).
Qed.

Lemma prefix_info_no_panic o : no_panic (prefix_info o).
Proof.
  unfold prefix_info. apply no_panic_bind; [apply no_panic_ensure|]. intros _ Hl%ensure_ok%Nat.eqb_eq.
  apply no_panic_bind; [apply no_panic_idx; lia|]. intros plen _.
  apply no_panic_bind; [apply no_panic_ensure|]. intros _ _.
  apply no_panic_bind; [apply no_panic_slice; lia|]. intros p _.
  apply no_panic_bind; [apply flag_at_no_panic; lia|]. intros l _.
  apply no_panic_bind; [apply flag_at_no_panic; lia|]. intros a _.
  apply no_panic_bind; [apply be_at_no_panic; lia|]. intros v _.
  by apply no_panic_bind; [apply be_at_no_panic; lia|].
Qed.

Lemma rdnss_no_panic o : no_panic (rdnss o).
Proof.
  unfold rdnss. apply no_panic_bind; [apply no_panic_ok_or|]. intros a _.
  by apply no_panic_bind; [apply no_panic_ensure|].
Qed.

Lemma take_option_no_panic o ra : (0 < length o)%nat -> no_panic (take_option o ra).
Proof.
  intros Hl. unfold take_option. apply no_panic_bind; [by apply no_panic_idx|]. intros ty _.
  destruct (ty =? OPT_PREFIX_INFO); [by apply no_panic_bind; [apply prefix_info_no_panic|]|].
  destruct (ty =? OPT_RDNSS); [by apply no_panic_bind; [apply rdnss_no_panic|]|done].
Qed.

Lemma header_no_panic buf : (RA_HDR_LEN <= length buf)%nat -> no_panic (header_of buf).
Proof.
  unfold RA_HDR_LEN, header_of. intros Hl.
  apply no_panic_bind; [apply no_panic_idx; lia|]. intros hop _.
  apply no_panic_bind; [apply flag_at_no_panic; lia|]. intros m _.
  apply no_panic_bind; [apply flag_at_no_panic; lia|]. intros o _.
  apply no_panic_bind; [apply be_at_no_panic; lia|]. intros l _.
  apply no_panic_bind; [apply be_at_no_panic; lia|]. intros r _.
  by apply no_panic_bind; [apply be_at_no_panic; lia|].
Qed.

(** The head of an option that is there. *)
Lemma get_range_two i buf h :
  get_range i (i + 2) buf = Some h -> exists a b, h = [a; b] /\ drop i buf = a :: b :: drop (i + 2) buf.
Proof.
  intros [Hl ->]%get_range_Some. assert (2 <= length (drop i buf))%nat as Hd by (rewrite length_drop; lia).
  rewrite <- drop_drop. destruct (drop i buf) as [|a [|b r]] eqn:He; cbn in Hd; try lia.
  exists a, b. by replace (i + 2 - i)%nat with 2%nat by lia.
Qed.

(** With enough fuel the loop reads the options one by one, and says so. *)
Lemma options_loop_sound fuel i buf ra :
  (length buf - i < fuel)%nat -> (i <= length buf)%nat ->
  match options_loop fuel i buf ra with
  | Ok ra' => exists os, drop i buf = concat os /\ Forall nd_option os /\ take_options os ra = Ok ra'
  | Err _ => True
  | Panic => False
  end.
Proof.
  revert i ra. induction fuel as [|fuel IH]; intros i ra Hf Hi; [lia|]. cbn [options_loop].
  destruct (Nat.ltb_spec i (length buf)) as [Hlt|Hge].
  2: { exists []. by rewrite drop_ge. }
  destruct (get_range i (i + 2) buf) as [h|] eqn:Hh; [|done]. cbn [ok_or mbind exec_bind].
  destruct (get_range_two i buf h Hh) as (a & b & -> & Hd). cbn [idx expect lookup list_lookup mbind exec_bind].
  unfold idx. cbn [expect lookup list_lookup mbind exec_bind].
  destruct (Nat.eqb_spec (Z.to_nat b * 8) 0) as [Hz|Hz]; cbn [negb ensure mbind exec_bind]; [done|].
  destruct (get_range i (i + Z.to_nat b * 8) buf) as [opt|] eqn:Ho; [|done]. cbn [ok_or mbind exec_bind].
  apply get_range_Some in Ho as [Hr Hopt].
  assert (length opt = (Z.to_nat b * 8)%nat) as Hl by (rewrite Hopt, length_take, length_drop; lia).
  pose proof (take_option_no_panic opt ra ltac:(lia)) as Hn.
  destruct (take_option opt ra) as [ra'| |] eqn:Ht; [|done..]. cbn [mbind exec_bind].
  specialize (IH (i + Z.to_nat b * 8)%nat ra' ltac:(lia) ltac:(lia)).
  destruct (options_loop _ _ _ _) as [ra''| |]; [|done..]. destruct IH as (os & Hos & Hall & Htake).
  exists (opt :: os). split_and!.
  - cbn [concat]. rewrite <- Hos, Hopt. replace (i + Z.to_nat b * 8 - i)%nat with (Z.to_nat b * 8)%nat by lia.
    rewrite <- drop_drop. by rewrite take_drop.
  - constructor; [|done]. exists a, b, (drop 2 opt). split_and!; [|lia|done].
    rewrite Hopt, Hd. replace (i + Z.to_nat b * 8 - i)%nat with (S (S (Z.to_nat b * 8 - 2))) by lia. done.
  - cbn [take_options]. by rewrite Ht.
Qed.

Lemma options_loop_complete fuel buf pre os ra :
  buf = pre ++ concat os -> Forall nd_option os -> (length buf - length pre < fuel)%nat ->
  options_loop fuel (length pre) buf ra = take_options os ra.
Proof.
  revert pre os ra. induction fuel as [|fuel IH]; intros pre os ra Hb Hos Hf; [lia|]. cbn [options_loop].
  destruct os as [|o os]; cbn [concat take_options] in *.
  { rewrite app_nil_r in Hb. subst. by rewrite (proj2 (Nat.ltb_ge _ _)) by lia. }
  apply Forall_cons in Hos as [(ty & units & data & Ho & Hu & Hl) Hos].
  assert (2 <= length o)%nat as H2 by (rewrite Ho; cbn; lia).
  assert (length buf = length pre + (length o + length (concat os)))%nat as Hlen
    by (by rewrite Hb, !length_app).
  rewrite (proj2 (Nat.ltb_lt _ _)) by lia.
  assert (get_range (length pre) (length pre + 2) buf = Some [ty; units]) as ->.
  { rewrite Hb, Ho, get_range_skip by lia. rewrite Nat.sub_diag.
    replace (length pre + 2 - length pre)%nat with 2%nat by lia.
    by apply (get_range_prefix [ty; units] (data ++ concat os)). }
  cbn [ok_or mbind exec_bind]. unfold idx. cbn [expect lookup list_lookup mbind exec_bind].
  rewrite (proj2 (Nat.eqb_neq _ _)) by lia. cbn [negb ensure mbind exec_bind].
  rewrite Hb at 1. rewrite get_range_mid by lia. cbn [ok_or mbind exec_bind].
  destruct (take_option o ra) as [ra'| |]; [|done..]. cbn [mbind exec_bind].
  replace (length pre + Z.to_nat units * 8)%nat with (length (pre ++ o)) by (rewrite length_app; lia).
  apply IH; [by rewrite <- app_assoc|done|rewrite length_app; lia].
Qed.

Lemma get_range_app_l i j (a b : bytes) : (j <= length a)%nat -> get_range i j (a ++ b) = get_range i j a.
Proof.
  intros Hj. unfold get_range. rewrite length_app.
  destruct (decide (i <= j)%nat) as [Hij|Hij]; [|by rewrite !bool_decide_false by lia].
  rewrite !bool_decide_true by lia. by rewrite drop_app_le, take_app_le by (rewrite ?length_drop; lia).
Qed.

Lemma header_of_app h rest : length h = RA_HDR_LEN -> header_of (h ++ rest) = header_of h.
Proof.
  unfold RA_HDR_LEN. intros Hl. unfold header_of, flag_at, be_at, idx, slice.
  by rewrite !lookup_app_l, !get_range_app_l by lia.
Qed.

Lemma take_options_no_panic os ra : Forall nd_option os -> no_panic (take_options os ra).
Proof.
  intros Hos. revert ra. induction Hos as [|o os (ty & u & d & -> & _) _ IH]; intros ra; [done|].
  cbn [take_options]. apply no_panic_bind; [apply take_option_no_panic; cbn; lia|]. intros; apply IH.
Qed.

(** The head of the right type and code leads to the options. *)
Lemma decode_advert h rest :
  length h = RA_HDR_LEN -> h !! 0%nat = Some ROUTER_ADVERTISEMENT -> h !! 1%nat = Some 0 ->
  RouterAdvert_decode (h ++ rest)
  = ra ← header_of h; options_loop (S (length (h ++ rest))) RA_HDR_LEN (h ++ rest) ra.
Proof.
  intros Hl H0 H1. unfold RouterAdvert_decode. rewrite bool_decide_true by (rewrite length_app; lia).
  cbn [ensure mbind exec_bind]. unfold idx. rewrite (lookup_app_l h rest 0), H0 by (unfold RA_HDR_LEN in Hl; lia).
  cbn [expect mbind exec_bind]. rewrite Z.eqb_refl. cbn [ensure mbind exec_bind].
  rewrite (lookup_app_l h rest 1), H1 by (unfold RA_HDR_LEN in Hl; lia). cbn [expect mbind exec_bind].
  change (0 =? 0) with true. cbn [ensure mbind exec_bind]. by rewrite header_of_app.
Qed.

(** Any other is refused. *)
Lemma decode_other h rest :
  length h = RA_HDR_LEN -> ~ (h !! 0%nat = Some ROUTER_ADVERTISEMENT /\ h !! 1%nat = Some 0) ->
  RouterAdvert_decode (h ++ rest) = Err Malformed.
Proof.
  intros Hl Hn. unfold RouterAdvert_decode. rewrite bool_decide_true by (rewrite length_app; lia).
  cbn [ensure mbind exec_bind]. unfold RA_HDR_LEN in Hl. destruct (lookup_lt_is_Some_2 h 0 ltac:(lia)) as [x Hx].
  destruct (lookup_lt_is_Some_2 h 1 ltac:(lia)) as [y Hy]. rewrite Hx, Hy in Hn.
  unfold idx. rewrite (lookup_app_l h _ 0), Hx by lia. cbn [expect mbind exec_bind].
  destruct (Z.eqb_spec x ROUTER_ADVERTISEMENT) as [->|]; [|done]. cbn [ensure mbind exec_bind].
  rewrite (lookup_app_l h _ 1), Hy by lia. cbn [expect mbind exec_bind].
  destruct (Z.eqb_spec y 0) as [->|]; [|done]. by destruct Hn.
Qed.

(** ** Properties *)

Lemma decode_reads buf :
  no_panic (RouterAdvert_decode buf)
  /\ forall ra, RouterAdvert_decode buf = Ok ra <-> reads buf ra.
Proof.
  destruct (decide (RA_HDR_LEN <= length buf)%nat) as [Hlen|Hlen].
  2: { assert (RouterAdvert_decode buf = Err Malformed) as He
         by (unfold RouterAdvert_decode; by rewrite bool_decide_false).
       rewrite He. split; [done|]. intros ra. split; [done|].
       intros (h & os & ra0 & -> & Hl & _). rewrite length_app in Hlen. lia. }
  assert (exists h rest, buf = h ++ rest /\ length h = RA_HDR_LEN) as (h & rest & -> & Hl)
    by (exists (take RA_HDR_LEN buf), (drop RA_HDR_LEN buf); by rewrite take_drop, length_take_le).
  assert (forall h' os, h ++ rest = h' ++ concat os -> length h' = RA_HDR_LEN -> h' = h) as Huniq.
  { intros h' os Hb Hl'. apply (app_inj_1 h h') in Hb; [by destruct Hb|congruence]. }
  destruct (decide (h !! 0%nat = Some ROUTER_ADVERTISEMENT /\ h !! 1%nat = Some 0)) as [[H0 H1]|Hn].
  2: { rewrite decode_other by done. split; [done|]. intros ra. split; [done|].
       intros (h' & os & ra1 & Hb & Hl' & H0 & H1 & _). specialize (Huniq h' os Hb Hl'). subst h'. by destruct Hn. }
  rewrite decode_advert by done. pose proof (header_no_panic h ltac:(lia)) as Hh.
  destruct (header_of h) as [ra0|e|] eqn:Hra0; [|..|done]; cbn [mbind exec_bind].
  2: { split; [done|]. intros ra. split; [done|]. intros (h' & os & ra1 & Hb & Hl' & _ & _ & _ & Hh' & _).
       specialize (Huniq h' os Hb Hl'). subst h'. congruence. }
  pose proof (options_loop_sound (S (length (h ++ rest))) RA_HDR_LEN (h ++ rest) ra0 ltac:(lia) Hlen) as Hs.
  split; [by destruct (options_loop _ _ _ _)|]. intros ra. split.
  - intros Hok. rewrite Hok, drop_app_length' in Hs by done. destruct Hs as (os & -> & Hall & Ht).
    exists h, os, ra0. by split_and!.
  - intros (h' & os & ra1 & Hb & Hl' & _ & _ & Hall & Hh' & Ht). specialize (Huniq h' os Hb Hl'). subst h'.
    rewrite Hra0 in Hh'. injection Hh' as <-. rewrite <- Ht, <- Hl. by apply options_loop_complete; [| |lia].
Qed.

(** *** What an advertisement says

    By the layouts of RFC 4861 (the header and prefixes) and RFC 8106 (the
    resolvers), independently of the order in which the code reads them. *)

Definition says_header (h : bytes) (ra : RouterAdvert) : Prop :=
  exists checksum flags lifetime reachable retrans,
    h = [ROUTER_ADVERTISEMENT; 0] ++ checksum ++ [hop_limit ra; flags] ++ lifetime ++ reachable ++ retrans
    /\ length checksum = 2%nat /\ length lifetime = 2%nat /\ length reachable = 4%nat /\ length retrans = 4%nat
    /\ managed ra = has_flag flags FLAG_MANAGED /\ other_config ra = has_flag flags FLAG_OTHER
    /\ router_lifetime ra = be_decode lifetime /\ reachable_time ra = be_decode reachable
    /\ retrans_timer ra = be_decode retrans.

Definition says_prefix (o : bytes) (p : PrefixInfo) : Prop :=
  exists units flags valid preferred reserved,
    o = [OPT_PREFIX_INFO; units; prefix_len p; flags] ++ valid ++ preferred ++ reserved ++ prefix p
    /\ length valid = 4%nat /\ length preferred = 4%nat /\ length reserved = 4%nat /\ length (prefix p) = 16%nat
    /\ prefix_len p <= 128
    /\ on_link p = has_flag flags PREFIX_ON_LINK /\ autonomous p = has_flag flags PREFIX_AUTONOMOUS
    /\ valid_lifetime p = be_decode valid /\ preferred_lifetime p = be_decode preferred.

Definition says_resolvers (o : bytes) (l : list bytes) : Prop :=
  exists h, o = h ++ concat l /\ length h = 8%nat /\ h !! 0%nat = Some OPT_RDNSS
    /\ l <> [] /\ Forall (fun a => length a = 16%nat) l.

(** The prefixes and the resolvers of a run of options, each in its order. *)
Inductive options_say : list bytes -> list PrefixInfo -> list bytes -> Prop :=
| say_nothing : options_say [] [] []
| say_prefix o p os ps ds : says_prefix o p -> options_say os ps ds -> options_say (o :: os) (p :: ps) ds
| say_resolvers o l os ps ds : says_resolvers o l -> options_say os ps ds -> options_say (o :: os) ps (l ++ ds)
| say_other o ty os ps ds :
    o !! 0%nat = Some ty -> ty <> OPT_PREFIX_INFO -> ty <> OPT_RDNSS -> options_say os ps ds -> options_say (o :: os) ps ds.

(** [buf] is an advertisement of [ra]. *)
Definition advertises (buf : bytes) (ra : RouterAdvert) : Prop :=
  exists header os, buf = header ++ concat os /\ Forall nd_option os
    /\ says_header header ra /\ options_say os (prefixes ra) (dns ra).

(** A list of a known length, as its elements. *)
Ltac elements l := repeat (destruct l as [|? l]; try discriminate).

Lemma header_says h ra :
  length h = RA_HDR_LEN -> h !! 0%nat = Some ROUTER_ADVERTISEMENT -> h !! 1%nat = Some 0 ->
  header_of h = Ok ra <-> says_header h ra /\ prefixes ra = [] /\ dns ra = [].
Proof.
  intros Hl H0 H1. split.
  - unfold RA_HDR_LEN in Hl. elements h. cbn in H0, H1. simplify_eq. cbn in Hl |- *. intros [= <-].
    split; [|done]. eexists [_; _], _, [_; _], [_; _; _; _], [_; _; _; _]. by split_and!.
  - intros ((c & f & l & r & t & -> & Hc & Hl' & Hr & Ht & Hm & Ho & Hlt & Hrt & Htt) & Hp & Hd).
    elements c. elements l. elements r. elements t. destruct ra. cbn in *. by subst.
Qed.

Lemma prefix_says o p : o !! 0%nat = Some OPT_PREFIX_INFO -> prefix_info o = Ok p <-> says_prefix o p.
Proof.
  intros H0. split.
  - intros Ho. assert (Hl : length o = 32%nat) by (unfold prefix_info in Ho; inv_ok; by apply Nat.eqb_eq).
    elements o. cbn in H0. simplify_eq. unfold prefix_info in Ho. cbn in Ho.
    destruct (_ <=? 128) eqn:Hle; [|done]. cbn in Ho. injection Ho as <-. apply Z.leb_le in Hle.
    eexists _, _, [_; _; _; _], [_; _; _; _], [_; _; _; _]. by split_and!.
  - intros (u & f & v & q & r & -> & Hv & Hq & Hr & Hp & Hle & Hon & Ha & Hvl & Hpl).
    destruct p as [pre plen onl aut vl pl]. cbn [prefix prefix_len on_link autonomous valid_lifetime preferred_lifetime] in *.
    elements v. elements q. elements r. elements pre. apply Z.leb_le in Hle. unfold prefix_info. cbn. rewrite Hle.
    cbn. by subst.
Qed.

Lemma chunks16_concat l fuel :
  Forall (fun a => length a = 16%nat) l -> (length l <= fuel)%nat -> chunks16 fuel (concat l) = l.
Proof.
  intros Hl. revert fuel. induction Hl as [|a l Ha _ IH]; intros fuel Hf; [by destruct fuel|].
  destruct fuel as [|fuel]; [cbn in Hf; lia|]. cbn [chunks16 concat].
  rewrite length_app, (proj2 (Nat.ltb_ge _ _)) by lia. rewrite take_app_length', drop_app_length' by done.
  f_equal. apply IH. cbn in Hf. lia.
Qed.

Lemma chunks16_whole fuel l :
  (length l <= fuel)%nat -> (length l mod 16)%nat = 0%nat ->
  concat (chunks16 fuel l) = l /\ Forall (fun a => length a = 16%nat) (chunks16 fuel l).
Proof.
  revert l. induction fuel as [|fuel IH]; intros l Hf Hm; [by destruct l; [|cbn in Hf; lia]|].
  cbn [chunks16]. destruct (Nat.ltb_spec (length l) 16) as [Hl|Hl].
  - rewrite Nat.mod_small in Hm by done. by destruct l.
  - destruct (IH (drop 16 l)) as (Hc & Ha); rewrite ?length_drop; [lia| |].
    + pose proof (Nat.Div0.mod_add (length l - 16) 1 16) as Hadd.
      replace (length l - 16 + 1 * 16)%nat with (length l) in Hadd by lia. congruence.
    + cbn [concat]. rewrite Hc, take_drop. split; [done|]. constructor; [rewrite length_take; lia|done].
Qed.

Lemma resolvers_says o l : o !! 0%nat = Some OPT_RDNSS -> rdnss o = Ok l <-> says_resolvers o l.
Proof.
  intros H0. unfold rdnss, get_from. split.
  - destruct (bool_decide (8 <= length o)%nat) eqn:Hlen; [|done]. apply bool_decide_eq_true in Hlen.
    intros Ho. inv_ok.
    match goal with H : _ && _ = true |- _ => apply andb_true_iff in H as [Hne%negb_true_iff%bool_decide_eq_false Hm%Nat.eqb_eq] end.
    destruct (chunks16_whole (length (drop 8 o)) (drop 8 o)) as [Hc Ha]; [done|done|].
    exists (take 8 o). rewrite Hc, take_drop. split_and!; [done|rewrite length_take; lia|by rewrite lookup_take_lt by lia| |done].
    intros He. by rewrite He in Hc.
  - intros (h & -> & Hh & _ & Hne & Hl). rewrite bool_decide_true by (rewrite length_app; lia).
    rewrite drop_app_length' by done. cbn [ok_or mbind exec_bind].
    assert (Hlen : length (concat l) = (16 * length l)%nat)
      by (clear -Hl; induction Hl as [|a l Ha _ IH]; cbn [concat length]; [done|]; rewrite length_app; lia).
    rewrite bool_decide_false by (intros He; rewrite He in Hlen; destruct l; [done|cbn in Hlen; lia]).
    rewrite Hlen, Nat.mul_comm, Nat.Div0.mod_mul. cbn [negb andb Nat.eqb ensure mbind exec_bind].
    rewrite chunks16_concat by (done || lia). done.
Qed.

(** An advertisement with more said. *)
Definition extended (ra : RouterAdvert) (ps : list PrefixInfo) (ds : list bytes) : RouterAdvert :=
  {| hop_limit := hop_limit ra; managed := managed ra; other_config := other_config ra;
     router_lifetime := router_lifetime ra; reachable_time := reachable_time ra; retrans_timer := retrans_timer ra;
     prefixes := prefixes ra ++ ps; dns := dns ra ++ ds |}.

Lemma extended_nothing ra : extended ra [] [] = ra.
Proof. destruct ra. unfold extended. cbn. by rewrite !app_nil_r. Qed.

Lemma extended_extended ra ps ds ps' ds' : extended (extended ra ps ds) ps' ds' = extended ra (ps ++ ps') (ds ++ ds').
Proof. unfold extended. cbn. by rewrite !app_assoc. Qed.

(** One option adds what it says. *)
Lemma take_option_says o ra ra' :
  nd_option o ->
  take_option o ra = Ok ra' <-> exists ps ds, options_say [o] ps ds /\ ra' = extended ra ps ds.
Proof.
  intros (ty & units & data & Ho & _). assert (H0 : o !! 0%nat = Some ty) by by rewrite Ho.
  assert (Hsay : forall ps ds, options_say [o] ps ds <->
    (exists p, says_prefix o p /\ ps = [p] /\ ds = []) \/ (says_resolvers o ds /\ ps = [])
    \/ (ty <> OPT_PREFIX_INFO /\ ty <> OPT_RDNSS /\ ps = [] /\ ds = [])).
  { intros ps ds. split.
    - intros Hs. inversion Hs as [|? p ? ps' ds' Hp Hn|? l ? ps' ds' Hr Hn|? ty' ? ps' ds' Ht H3 H25 Hn]; subst; inversion Hn; subst.
      + left. by exists p.
      + right. left. by rewrite app_nil_r.
      + right. right. rewrite H0 in Ht. by simplify_eq.
    - intros [(p & Hp & -> & ->)|[(Hr & ->)|(H3 & H25 & -> & ->)]].
      + apply say_prefix; [done|constructor].
      + rewrite <- (app_nil_r ds). apply say_resolvers; [done|constructor].
      + eapply say_other; [done..|constructor]. }
  assert (Hty : forall p, says_prefix o p -> ty = OPT_PREFIX_INFO).
  { intros p (u & f & v & q & r & -> & _). by injection H0. }
  assert (Htr : forall l, says_resolvers o l -> ty = OPT_RDNSS).
  { intros l (h & -> & Hh & Hh0 & _). rewrite lookup_app_l in H0 by lia. congruence. }
  unfold take_option. rewrite (lookup_idx_Some 0 o ty H0). cbn [mbind exec_bind].
  destruct (Z.eqb_spec ty OPT_PREFIX_INFO) as [->|H3]; [|destruct (Z.eqb_spec ty OPT_RDNSS) as [->|H25]].
  - split.
    + intros Hok. inv_ok. apply prefix_says in Hx; [|done]. exists [x], []. split; [apply Hsay; left; eauto|].
      unfold extended. by rewrite app_nil_r.
    + intros (ps & ds & [(p & Hp & -> & ->)|[(Hr & _)|(? & _)]]%Hsay & ->); [|by apply Htr in Hr|done].
      apply prefix_says in Hp; [|done]. rewrite Hp. cbn. unfold extended. by rewrite app_nil_r.
  - split.
    + intros Hok. inv_ok. apply resolvers_says in Hx; [|done]. exists [], x. split; [apply Hsay; right; left; done|].
      unfold extended. by rewrite app_nil_r.
    + intros (ps & ds & [(p & Hp & _)|[(Hr & ->)|(_ & ? & _)]]%Hsay & ->); [by apply Hty in Hp| |done].
      apply resolvers_says in Hr; [|done]. rewrite Hr. cbn. unfold extended. by rewrite app_nil_r.
  - split.
    + intros [= <-]. exists [], []. split; [apply Hsay; right; right; done|by rewrite extended_nothing].
    + intros (ps & ds & [(p & Hp & _)|[(Hr & _)|(_ & _ & -> & ->)]]%Hsay & ->);
        [by apply Hty in Hp|by apply Htr in Hr|by rewrite extended_nothing].
Qed.

Lemma options_say_cons o os ps ds :
  options_say (o :: os) ps ds <->
  exists ps1 ds1 ps2 ds2, options_say [o] ps1 ds1 /\ options_say os ps2 ds2 /\ ps = ps1 ++ ps2 /\ ds = ds1 ++ ds2.
Proof.
  split.
  - intros Hs. inversion Hs as [|? p ? ps' ds' Hp Hn|? l ? ps' ds' Hr Hn|? ty ? ps' ds' Ht H3 H25 Hn]; subst.
    + exists [p], [], ps', ds. split_and!; [by repeat constructor|done..].
    + exists [], l, ps, ds'. split_and!; [|done..]. rewrite <- (app_nil_r l). apply say_resolvers; [done|constructor].
    + exists [], [], ps, ds. split_and!; [by eapply say_other; [..|constructor]|done..].
  - intros (ps1 & ds1 & ps2 & ds2 & Ho & Hos & -> & ->).
    inversion Ho as [|? p ? ps' ds' Hp Hn|? l ? ps' ds' Hr Hn|? ty ? ps' ds' Ht H3 H25 Hn]; subst; inversion Hn; subst.
    + by apply say_prefix.
    + rewrite app_nil_r. by apply say_resolvers.
    + by eapply say_other.
Qed.

Lemma take_options_says os ra ra' :
  Forall nd_option os ->
  take_options os ra = Ok ra' <-> exists ps ds, options_say os ps ds /\ ra' = extended ra ps ds.
Proof.
  intros Hos. revert ra. induction Hos as [|o os Ho _ IH]; intros ra; cbn [take_options].
  - split.
    + intros [= <-]. exists [], []. split; [constructor|by rewrite extended_nothing].
    + intros (ps & ds & Hs & ->). inversion Hs; subst. by rewrite extended_nothing.
  - rewrite bind_ok. split.
    + intros (ra1 & (ps1 & ds1 & Hs1 & ->)%take_option_says & (ps2 & ds2 & Hs2 & ->)%IH); [|done].
      exists (ps1 ++ ps2), (ds1 ++ ds2). split; [|apply extended_extended]. apply options_say_cons. by exists ps1, ds1, ps2, ds2.
    + intros (ps & ds & (ps1 & ds1 & ps2 & ds2 & Hs1 & Hs2 & -> & ->)%options_say_cons & ->).
      exists (extended ra ps1 ds1). split; [apply take_option_says; [done|]; by exists ps1, ds1|].
      apply IH. exists ps2, ds2. split; [done|by rewrite extended_extended].
Qed.

Lemma reads_advertises buf ra : reads buf ra <-> advertises buf ra.
Proof.
  split.
  - intros (h & os & ra0 & -> & Hl & H0 & H1 & Hos & Hh & Ht). exists h, os.
    apply header_says in Hh as (Hh & Hp & Hd); [|done..]. apply take_options_says in Ht as (ps & ds & Hs & ->); [|done].
    split_and!; [done|done|exact Hh|]. cbn [prefixes dns extended]. by rewrite Hp, Hd.
  - intros (h & os & -> & Hos & Hh & Hs).
    set (ra0 := {| hop_limit := hop_limit ra; managed := managed ra; other_config := other_config ra;
      router_lifetime := router_lifetime ra; reachable_time := reachable_time ra; retrans_timer := retrans_timer ra;
      prefixes := []; dns := [] |}).
    assert (Hlay : length h = RA_HDR_LEN /\ h !! 0%nat = Some ROUTER_ADVERTISEMENT /\ h !! 1%nat = Some 0).
    { destruct Hh as (c & f & l & r & t & -> & Hc & Hl & Hr & Ht & _). rewrite !length_app. cbn [length app].
      unfold RA_HDR_LEN. split; [lia|done]. }
    destruct Hlay as (Hl & H0 & H1). exists h, os, ra0. split_and!; try done.
    + apply header_says; [done..|]. split; [exact Hh|done].
    + apply take_options_says; [done|]. exists (prefixes ra), (dns ra). split; [done|]. by destruct ra.
Qed.

(** *** How it refuses *)

(** Nothing but [Malformed] is answered. *)
Definition only_malformed {A} (m : exec Error A) : Prop :=
  match m with Err e => e = Malformed | _ => True end.

Lemma malformed_bind {A B} (m : exec Error A) (k : A -> exec Error B) :
  only_malformed m -> (forall a, only_malformed (k a)) -> only_malformed (a ← m; k a).
Proof. destruct m; cbn; auto. Qed.
Lemma malformed_ensure b : only_malformed (ensure b Malformed).
Proof. by destruct b. Qed.
Lemma malformed_ok_or {A} (o : option A) : only_malformed (ok_or Malformed o).
Proof. by destruct o. Qed.
Lemma malformed_idx i buf : only_malformed (idx i buf).
Proof. unfold idx. by destruct (buf !! i). Qed.
Lemma malformed_slice i j buf : only_malformed (slice i j buf).
Proof. unfold slice. by destruct (get_range i j buf). Qed.
Lemma malformed_be_at i n buf : only_malformed (be_at i n buf).
Proof. unfold be_at. pose proof (malformed_slice i (i + n) buf). by destruct (slice i (i + n) buf). Qed.

Ltac malformed :=
  repeat first [ exact I
    | apply malformed_ensure | apply malformed_ok_or | apply malformed_idx | apply malformed_slice | apply malformed_be_at
    | apply malformed_bind; [|intros ?] | case_match ].

Lemma malformed_flag_at i k buf : only_malformed (flag_at i k buf).
Proof. unfold flag_at. malformed. Qed.

Lemma malformed_header buf : only_malformed (header_of buf).
Proof. unfold header_of. repeat (apply malformed_bind; [first [apply malformed_flag_at | malformed]|intros ?]). done. Qed.

Lemma malformed_prefix o : only_malformed (prefix_info o).
Proof. unfold prefix_info. repeat (apply malformed_bind; [first [apply malformed_flag_at | malformed]|intros ?]). done. Qed.

Lemma malformed_option o ra : only_malformed (take_option o ra).
Proof.
  unfold take_option. apply malformed_bind; [malformed|]. intros ty. case_match; [|case_match; [|done]].
  - apply malformed_bind; [apply malformed_prefix|done].
  - unfold rdnss. malformed.
Qed.

Lemma malformed_options fuel i buf ra : only_malformed (options_loop fuel i buf ra).
Proof.
  revert i ra. induction fuel as [|fuel IH]; intros i ra; cbn [options_loop]; [done|]. case_match; [|done].
  do 4 (apply malformed_bind; [malformed|intros ?]). apply malformed_bind; [apply malformed_option|intros ?]. apply IH.
Qed.

Lemma malformed_decode buf : only_malformed (RouterAdvert_decode buf).
Proof.
  unfold RouterAdvert_decode. do 5 (apply malformed_bind; [malformed|intros ?]).
  apply malformed_bind; [apply malformed_header|intros ra]. apply malformed_options.
Qed.

(** C31. The advertisement decoder does not panic and always ends, on any octets:
    an option of length zero cannot hold it.  It accepts exactly the
    advertisements -- a header of the right type and code and a run of whole
    options, each a prefix or a list of resolvers in its own form or one of the
    kinds that are skipped -- and what it returns is what they say, in order.
    Anything else is [Malformed]. *)
Theorem advert_decoded_exactly buf :
  no_panic (RouterAdvert_decode buf)
  /\ (forall ra, RouterAdvert_decode buf = Ok ra <-> advertises buf ra)
  /\ (RouterAdvert_decode buf = Err Malformed <-> forall ra, ~ advertises buf ra).
Proof.
  destruct (decode_reads buf) as [Hn Hr].
  assert (Ha : forall ra, RouterAdvert_decode buf = Ok ra <-> advertises buf ra)
    by (intros ra; rewrite Hr; apply reads_advertises).
  split_and!; [done..|]. pose proof (malformed_decode buf) as Hm. split.
  - intros He ra Had%Ha. congruence.
  - intros Hno. destruct (RouterAdvert_decode buf) as [ra|e|]; cbn in Hm; [|by subst|done].
    by destruct (Hno ra (proj1 (Ha ra) eq_refl)).
Qed.

(** The MAC behind an address formed from it. *)
Definition mac_of (address : bytes) : bytes :=
  match drop 8 address with
  | [i0; m1; m2; _; _; m3; m4; m5] => [Z.lxor i0 0x02; m1; m2; m3; m4; m5]
  | _ => []
  end.

(** An address is formed from an autonomous /64 prefix and from nothing
    else; it is sixteen octets, lies in the prefix, and gives its MAC back, so
    two hosts on one prefix never form the same one. *)
Theorem slaac_exact p mac :
  length (prefix p) = 16%nat -> length mac = 6%nat ->
  match slaac p mac with
  | Some a => autonomous p = true /\ prefix_len p = 64 /\ length a = 16%nat
              /\ take 8 a = take 8 (prefix p) /\ mac_of a = mac
  | None => autonomous p = false \/ prefix_len p <> 64
  end.
Proof.
  intros Hp Hm. unfold slaac, slaac_address. destruct (autonomous p); [|by left].
  destruct (Z.eqb_spec (prefix_len p) 64) as [Hl|Hl]; cbn [negb]; [|by right].
  do 7 (destruct mac as [|? mac]; try discriminate Hm). cbn [eui64_interface_id].
  assert (length (take 8 (prefix p)) = 8%nat) as H8 by (rewrite length_take; lia).
  split_and!; [done|done|by rewrite length_app, H8|by rewrite take_app_length'|].
  unfold mac_of. rewrite drop_app_length' by done. by rewrite Z.lxor_assoc, Z.lxor_nilpotent, Z.lxor_0_r.
Qed.

(** The advertisement of the source's own tests, and RFC 4291's example. *)
Module Ipv6Demo.
Definition prefix64 : bytes := [0x20; 1; 0xd; 0xb8; 0xac; 0xab; 0; 1; 0; 0; 0; 0; 0; 0; 0; 0].
Definition advert : bytes :=
  [134; 0; 0; 0; 64; 0xc0; 7; 8; 0; 0; 0; 0; 0; 0; 0; 0] ++ [1; 1; 0; 0x1c; 0x42; 0; 0; 8]
  ++ [3; 4; 64; 0xc0] ++ be_encode 4 2592000 ++ be_encode 4 604800 ++ [0; 0; 0; 0] ++ prefix64
  ++ [25; 3; 0; 0] ++ be_encode 4 1800 ++ prefix64.
Definition info : PrefixInfo :=
  {| prefix := prefix64; prefix_len := 64; on_link := true; autonomous := true;
     valid_lifetime := 2592000; preferred_lifetime := 604800 |}.

Example advert_read :
  RouterAdvert_decode advert
  = Ok {| hop_limit := 64; managed := true; other_config := true; router_lifetime := 1800;
          reachable_time := 0; retrans_timer := 0; prefixes := [info]; dns := [prefix64] |}.
Proof. vm_compute. reflexivity. Qed.

Example eui64_published :
  eui64_interface_id [0; 0x0c; 0x29; 0x0c; 0x47; 0xd5] = [2; 0x0c; 0x29; 0xff; 0xfe; 0x0c; 0x47; 0xd5].
Proof. reflexivity. Qed.
End Ipv6Demo.

Lemma slaac_exact_witness :
  exists a, slaac Ipv6Demo.info [0; 0x1c; 0x42; 0; 0; 8] = Some a /\ length a = 16%nat
            /\ mac_of a = [0; 0x1c; 0x42; 0; 0; 8].
Proof.
  eexists. split; [reflexivity|].
  destruct (slaac_exact Ipv6Demo.info [0; 0x1c; 0x42; 0; 0; 8] eq_refl eq_refl) as (_ & _ & Hl & _ & Hm).
  split; [exact Hl|exact Hm].
Defined.
