(* ===== verification/DhcpMessage.v ===== *)
(** * The DHCP message: [caw-dhcp], message.rs

    A BOOTP frame with a magic cookie and options behind it. *)
From S2P Require Import Prelude Bytes Text DhcpOptions.

Definition BOOTREQUEST : Z := 1.
Definition BOOTREPLY : Z := 2.
Definition HTYPE_ETHERNET : Z := 1.
Definition FLAG_BROADCAST : Z := 0x8000.
Definition MAGIC_COOKIE : bytes := [0x63; 0x82; 0x53; 0x63].
Definition SNAME : nat := 44.
Definition FILE : nat := 108.
Definition FIXED_LEN : nat := 236.
Definition MIN_LEN : nat := 300.

Record Message := {
  op : Z; htype : Z; hlen : Z; hops : Z;
  xid : Z; secs : Z; flags : Z;
  ciaddr : Z; yiaddr : Z; siaddr : Z; giaddr : Z;
  chaddr : bytes;
  sname : bytes;
  file : bytes;
  options : list DhcpOption;
}.
#[export] Instance Message_eq_dec : EqDecision Message.
Proof. solve_decision. Defined.

(** [Message::request] *)
Definition Message_request (xid : Z) (mac : bytes) : Message :=
  {| op := BOOTREQUEST; htype := HTYPE_ETHERNET; hlen := 6; hops := 0; xid := xid; secs := 0; flags := 0;
     ciaddr := UNSPECIFIED; yiaddr := UNSPECIFIED; siaddr := UNSPECIFIED; giaddr := UNSPECIFIED;
     chaddr := mac ++ replicate 10 0; sname := []; file := []; options := [] |}.

(** [text_field]: up to the first NUL, lossily. *)
Fixpoint until_nul (l : bytes) : bytes :=
  match l with
  | [] => []
  | b :: l => if b =? 0 then [] else b :: until_nul l
  end.
Definition text_field (l : bytes) : bytes := utf8_lossy (until_nul l).

(** [text_out]: room is kept for the terminating NUL. *)
Definition text_out (value : bytes) (width : nat) : bytes :=
  let n := Nat.min (length value) (width - 1) in take n value ++ replicate (width - n) 0.

(** [u32::from_be_bytes([buf[i], ..])] over [n] octets. *)
Definition be_at (i n : nat) (buf : bytes) : exec Error Z :=
  r ← slice i (i + n) buf; Ok (be_decode r).

Definition Message_decode (buf : bytes) : exec Error Message :=
  cookie ← ok_or Malformed (get_range FIXED_LEN (FIXED_LEN + 4) buf);
  if negb (bool_decide (cookie = MAGIC_COOKIE)) then Err Malformed else
  area ← slice_from (FIXED_LEN + 4) buf;
  '(overload, opts) ← decode_into area [];
  file_field ← slice FILE FIXED_LEN buf;
  '(file, opts) ← (if has_flag overload OVERLOAD_FILE
                   then '(_, opts) ← decode_into file_field opts; Ok ([], opts)
                   else Ok (text_field file_field, opts));
  sname_field ← slice SNAME FILE buf;
  '(sname, opts) ← (if has_flag overload OVERLOAD_SNAME
                    then '(_, opts) ← decode_into sname_field opts; Ok ([], opts)
                    else Ok (text_field sname_field, opts));
  chaddr ← slice 28 44 buf;
  op ← idx 0 buf;
  htype ← idx 1 buf;
  hlen ← idx 2 buf;
  hops ← idx 3 buf;
  xid ← be_at 4 4 buf;
  secs ← be_at 8 2 buf;
  flags ← be_at 10 2 buf;
  ciaddr ← be_at 12 4 buf;
  yiaddr ← be_at 16 4 buf;
  siaddr ← be_at 20 4 buf;
  giaddr ← be_at 24 4 buf;
  Ok {| op := op; htype := htype; hlen := hlen; hops := hops; xid := xid; secs := secs; flags := flags;
        ciaddr := ciaddr; yiaddr := yiaddr; siaddr := siaddr; giaddr := giaddr; chaddr := chaddr;
        sname := sname; file := file; options := opts |}.

(** The fixed part, in front of the cookie. *)
Definition Message_fixed (m : Message) : bytes :=
  [op m; htype m; hlen m; hops m]
  ++ be_encode 4 (xid m) ++ be_encode 2 (secs m) ++ be_encode 2 (flags m)
  ++ be_encode 4 (ciaddr m) ++ be_encode 4 (yiaddr m) ++ be_encode 4 (siaddr m) ++ be_encode 4 (giaddr m)
  ++ chaddr m
  ++ text_out (sname m) (FILE - SNAME)
  ++ text_out (file m) (FIXED_LEN - FILE).

Definition Message_encode (m : Message) : bytes :=
  pad_to MIN_LEN OPT_PAD (Message_fixed m ++ MAGIC_COOKIE ++ encode_all (options m)).

(** [Message::get]: the first option with this code. *)
Definition get (m : Message) (code : Z) : option DhcpOption :=
  find_first (fun o => option_code o =? code) (options m).

Definition message_type (m : Message) : option MessageType :=
  find_map (fun o => match o with OptMessageType t => Some t | _ => None end) (options m).

Definition server_id (m : Message) : option Z :=
  find_map (fun o => match o with ServerId a => Some a | _ => None end) (options m).

(** ** No panic *)

(** Decoding a datagram never panics: the cookie check is the one length
    check it needs, whatever the octets. *)
Theorem Message_decode_no_panic buf : no_panic (Message_decode buf).
Proof.
  unfold Message_decode.
  apply no_panic_bind; [auto with caw|]. intros cookie Hc%ok_or_ok.
  apply get_range_Some in Hc as [Hl _]. unfold FIXED_LEN, FILE, SNAME in *.
  case_match; [done|].
  apply no_panic_bind; [apply no_panic_slice_from; lia|]. intros area _.
  apply no_panic_bind; [apply decode_loop_no_panic|]. intros [ov opts] _.
  apply no_panic_bind; [apply no_panic_slice; lia|]. intros ff _.
  apply no_panic_bind.
  { case_match; [|done]. apply no_panic_bind; [apply decode_loop_no_panic|]. by intros []. }
  intros [fl opts1] _.
  apply no_panic_bind; [apply no_panic_slice; lia|]. intros sf _.
  apply no_panic_bind.
  { case_match; [|done]. apply no_panic_bind; [apply decode_loop_no_panic|]. by intros []. }
  intros [sn opts2] _.
  assert (Hbe : forall i n, (i + n <= length buf)%nat -> no_panic (be_at i n buf)).
  { intros i n Hi. unfold be_at. apply no_panic_bind; [apply no_panic_slice; lia|done]. }
  repeat (apply no_panic_bind;
    [first [apply no_panic_slice; lia | apply no_panic_idx; lia | apply Hbe; lia]|intros ? _]).
  done.
Qed.

(** ** Round trip *)

(** The numbers a [Message] holds are of their widths, the hardware address is
    the array it is, and no [Other] option bears a code that structures the
    option area. *)
Definition Message_typed (m : Message) : Prop :=
  is_u32 (xid m) /\ is_u16 (secs m) /\ is_u16 (flags m)
  /\ is_u32 (ciaddr m) /\ is_u32 (yiaddr m) /\ is_u32 (siaddr m) /\ is_u32 (giaddr m)
  /\ length (chaddr m) = 16%nat /\ Forall option_plain (options m).

#[export] Instance Message_typed_dec m : Decision (Message_typed m).
Proof. unfold Message_typed. apply _. Defined.

(** What arrives of a message: of a text field, what stands before the first
    NUL of the octets that leave room for one; of an option, the octets its
    length can count. *)
Definition received (m : Message) : exec Error Message :=
  opts ← arriving (options m);
  Ok {| op := op m; htype := htype m; hlen := hlen m; hops := hops m; xid := xid m; secs := secs m;
        flags := flags m; ciaddr := ciaddr m; yiaddr := yiaddr m; siaddr := siaddr m; giaddr := giaddr m;
        chaddr := chaddr m; sname := text_field (take (FILE - SNAME - 1) (sname m));
        file := text_field (take (FIXED_LEN - FILE - 1) (file m)); options := opts |}.

(** A text field that fits: no NUL, and room left for the terminator. *)
Definition text_fits (width : nat) (t : bytes) : Prop :=
  utf8_lossy t = t /\ Forall (fun b => b <> 0) t /\ (length t < width)%nat.
Definition Message_fits (m : Message) : Prop :=
  text_fits (FILE - SNAME) (sname m) /\ text_fits (FIXED_LEN - FILE) (file m) /\ Forall option_wf (options m).

#[export] Instance Message_fits_dec m : Decision (Message_fits m).
Proof. unfold Message_fits, text_fits. apply _. Defined.

Lemma text_out_length t w : (0 < w)%nat -> length (text_out t w) = w.
Proof. intros. unfold text_out. rewrite length_app, length_take, length_replicate. lia. Qed.

Lemma until_nul_zeros t k : until_nul (t ++ replicate k 0) = until_nul t.
Proof.
  induction t as [|b t IH]; cbn [app until_nul].
  - by destruct k.
  - by rewrite IH.
Qed.

Lemma text_arrives w t : text_field (text_out t w) = text_field (take (w - 1) t).
Proof.
  unfold text_field, text_out. rewrite until_nul_zeros. by rewrite take_min_length.
Qed.

Lemma text_fits_arrives w t : text_fits w t -> text_field (take (w - 1) t) = t.
Proof.
  intros (Hu & Hn & Hl). rewrite take_ge by lia. unfold text_field.
  assert (until_nul t = t) as ->; [|done]. clear Hu Hl. induction Hn as [|b t Hb _ IH]; [done|].
  cbn [until_nul]. apply Z.eqb_neq in Hb. by rewrite Hb, IH.
Qed.

Lemma be_at_field i n v buf :
  get_range i (i + n) buf = Some (be_encode n v) -> is_uint (8 * Z.of_nat n) v -> be_at i n buf = Ok v.
Proof. intros Hg Hv. unfold be_at. rewrite (slice_field _ _ _ _ Hg). cbn. by rewrite be_decode_encode. Qed.

Lemma Message_fixed_length m : Message_typed m -> length (Message_fixed m) = FIXED_LEN.
Proof.
  intros (_ & _ & _ & _ & _ & _ & _ & Hc & _). unfold Message_fixed.
  rewrite !length_app, !length_be_encode, Hc, !text_out_length by (unfold FILE, SNAME, FIXED_LEN; lia). done.
Qed.

Lemma Message_encode_layout m :
  exists k, Message_encode m
    = Message_fixed m ++ MAGIC_COOKIE ++ encode_all (options m) ++ replicate k OPT_PAD.
Proof. unfold Message_encode, pad_to. eexists. by rewrite <- !app_assoc. Qed.

(** Field for field, whatever the padding. *)
Lemma Message_decode_encode m : Message_typed m -> Message_decode (Message_encode m) = received m.
Proof.
  intros Hwf.
  destruct (Message_encode_layout m) as [k Hk]. rewrite Hk. clear Hk.
  pose proof (Message_fixed_length m Hwf) as Hfl.
  destruct Hwf as (Hx & Hs & Hf & Hci & Hyi & Hsi & Hgi & Hch & Hop).
  set (tail := encode_all (options m) ++ replicate k OPT_PAD).
  unfold Message_decode. rewrite (get_range_mid (Message_fixed m)) by (rewrite Hfl; done).
  cbn [ok_or mbind exec_bind]. rewrite bool_decide_true by done. cbn [negb].
  assert (Harea : @slice_from Error (FIXED_LEN + 4) (Message_fixed m ++ MAGIC_COOKIE ++ tail) = Ok tail).
  { unfold slice_from, get_from. rewrite bool_decide_true by (rewrite !length_app, Hfl; cbn [MAGIC_COOKIE length]; lia).
    cbn [expect]. rewrite app_assoc, drop_app_length' by (rewrite length_app, Hfl; done). done. }
  rewrite (bind_Ok _ _ _ Harea). subst tail. rewrite options_roundtrip by done. unfold received.
  destruct (arriving (options m)) as [opts| |]; [|done..]. cbn [mbind exec_bind app].
  clear Harea Hfl. set (tail := encode_all (options m) ++ replicate k OPT_PAD).
  assert (Hls : length (text_out (sname m) 64) = 64%nat) by (apply text_out_length; lia).
  assert (Hlf : length (text_out (file m) 128) = 128%nat) by (apply text_out_length; lia).
  unfold Message_fixed, FILE, SNAME, FIXED_LEN in *. cbn [Nat.sub] in *.
  rewrite <- !app_assoc. generalize (MAGIC_COOKIE ++ tail) as rest. clear tail. intros rest.
  rewrite (slice_field 108 236 _ (text_out (file m) 128)) by wire_field. cbn [mbind exec_bind].
  change (has_flag 0 OVERLOAD_FILE) with false. change (has_flag 0 OVERLOAD_SNAME) with false.
  cbn [mbind exec_bind].
  rewrite (slice_field 44 108 _ (text_out (sname m) 64)) by wire_field. cbn [mbind exec_bind].
  rewrite (slice_field 28 44 _ (chaddr m)) by wire_field. cbn [mbind exec_bind].
  rewrite !text_arrives. cbn [Nat.sub].
  cbn [idx lookup list_lookup app expect mbind exec_bind].
  rewrite (be_at_field 4 4 (xid m)) by (done || wire_field). cbn [mbind exec_bind].
  rewrite (be_at_field 8 2 (secs m)) by (done || wire_field). cbn [mbind exec_bind].
  rewrite (be_at_field 10 2 (flags m)) by (done || wire_field). cbn [mbind exec_bind].
  rewrite (be_at_field 12 4 (ciaddr m)) by (done || wire_field). cbn [mbind exec_bind].
  rewrite (be_at_field 16 4 (yiaddr m)) by (done || wire_field). cbn [mbind exec_bind].
  rewrite (be_at_field 20 4 (siaddr m)) by (done || wire_field). cbn [mbind exec_bind].
  by rewrite (be_at_field 24 4 (giaddr m)) by (done || wire_field).
Qed.

Lemma received_fits m : Message_fits m -> received m = Ok m.
Proof.
  intros (Hs & Hf & Ho). unfold received. rewrite arriving_wf by done. cbn [mbind exec_bind].
  rewrite !text_fits_arrives by done. by destruct m.
Qed.

(** A message that fits comes back as it was. *)
Definition Message_wf (m : Message) : Prop := Message_typed m /\ Message_fits m.

Lemma Message_decode_whole m : Message_wf m -> Message_decode (Message_encode m) = Ok m.
Proof. intros [Ht Hf]. by rewrite Message_decode_encode, received_fits. Qed.

(** C37. What arrives of a message is what fits its layout.  Of any message
    -- no option of it an [Other] with the code of the padding, the end or
    the overload -- [decode] reads back from what [encode] lays out every
    fixed field as it was, a text field, as UTF-8 read lossily, up to its first NUL
    or the last octet before its terminator, and each option in order from the 255 octets at
    most that its length can count; the message is refused only when an
    option so cut, or empty, has no reading under its code.  A message whose
    texts and options fit comes back exactly as it was.  And every datagram
    sent has the 300 octets relays insist on. *)
Theorem message_roundtrip m :
  (MIN_LEN <= length (Message_encode m))%nat
  /\ (Message_typed m -> Message_decode (Message_encode m) = received m
        /\ (Message_fits m -> Message_decode (Message_encode m) = Ok m)).
Proof.
  split; [unfold Message_encode; rewrite pad_to_length; lia|].
  intros Ht. split; [by apply Message_decode_encode|]. intros Hf. by apply Message_decode_whole.
Qed.

Definition demo_message : Message :=
  {| op := 2; htype := 1; hlen := 6; hops := 0; xid := 42; secs := 3; flags := 0x8000;
     ciaddr := 0; yiaddr := 7; siaddr := 8; giaddr := 0; chaddr := replicate 16 1;
     sname := [104; 105]; file := [];
     options := [OptMessageType Offer; ServerId 9; Router [1; 2]; HostName [97]; Other 77 [1; 2]] |}.

(** One with a file name and an option too long for their fields. *)
Definition long_message : Message :=
  {| op := 1; htype := 1; hlen := 6; hops := 0; xid := 42; secs := 3; flags := 0; ciaddr := 0; yiaddr := 0;
     siaddr := 0; giaddr := 0; chaddr := replicate 16 1; sname := [104; 0; 105];
     file := replicate 400 120; options := [ClientId (replicate 300 7); ServerId 9] |}.

Lemma message_roundtrip_witness :
  Message_decode (Message_encode demo_message) = Ok demo_message
  /\ (MIN_LEN <= length (Message_encode demo_message))%nat
  /\ Message_decode (Message_encode long_message)
     = Ok {| op := 1; htype := 1; hlen := 6; hops := 0; xid := 42; secs := 3; flags := 0; ciaddr := 0; yiaddr := 0;
             siaddr := 0; giaddr := 0; chaddr := replicate 16 1; sname := [104];
             file := replicate 127 120; options := [ClientId (replicate 255 7); ServerId 9] |}.
Proof.
  split_and!.
  - apply (message_roundtrip demo_message); apply (bool_decide_unpack _); vm_compute; exact I.
  - apply (message_roundtrip demo_message).
  - assert (Ht : Message_typed long_message) by (apply (bool_decide_unpack _); vm_compute; exact I).
    etransitivity; [exact (proj1 (proj2 (message_roundtrip long_message) Ht))|vm_compute; reflexivity].
Defined.
