(* ===== verification/DhcpClient.v ===== *)
(** * The DHCPv4 client: [caw-dhcp], client.rs

    Sans-I/O: [poll] takes a start, a datagram or a timer expiry and returns
    the actions.  A record with ten fields is updated one at a time in the
    source; here each handler builds the record it leaves behind.

    [Message::decode] never panics ([DhcpMessage.Message_decode_no_panic]), so
    reading it through [to_option] loses nothing. *)
From S2P Require Import Prelude Bytes Text DhcpOptions DhcpMessage.

Definition PARAM_REQUEST : bytes :=
  [OPT_SUBNET_MASK; OPT_ROUTER; OPT_DNS; OPT_LEASE_TIME; OPT_T1; OPT_T2].
Definition MIN_RENEW_INTERVAL : Z := 60.
Definition MAX_TRIES : Z := 4.

(** ** Leases *)

Record Lease := {
  l_addr : Z;
  l_prefix_len : Z;
  l_gateway : option Z;
  l_dns : list Z;
  l_server : Z;
  l_lease_secs : Z;
  l_renew_secs : Z;
  l_rebind_secs : Z;
}.
#[export] Instance Lease_eq_dec : EqDecision Lease.
Proof. solve_decision. Defined.

Definition from_ack (msg : Message) : exec Error Lease :=
  _ ← match message_type msg with
      | Some Ack => Ok tt
      | Some Nak => Err ErrNak
      | _ => Err Malformed
      end;
  if yiaddr msg =? UNSPECIFIED then Err Malformed else
  mask ← match get msg OPT_SUBNET_MASK with
         | Some (SubnetMask m) => Ok m
         | _ => Err (Incomplete OPT_SUBNET_MASK)
         end;
  prefix_len ← ok_or Malformed (prefix_len_from_mask mask);
  lease_secs ← match get msg OPT_LEASE_TIME with
               | Some (LeaseTime t) => Ok t
               | _ => Err (Incomplete OPT_LEASE_TIME)
               end;
  server ← ok_or (Incomplete OPT_SERVER_ID) (server_id msg);
  let gateway := match get msg OPT_ROUTER with
                 | Some (Router l) => find_first (fun a => negb (a =? UNSPECIFIED)) l
                 | _ => None
                 end in
  let dns := match get msg OPT_DNS with Some (Dns l) => l | _ => [] end in
  let default_t1 := wrap 32 (lease_secs / 2) in
  let default_t2 := wrap 32 (lease_secs * 7 / 8) in
  let renew_secs := match get msg OPT_T1 with
                    | Some (T1 t) => if (0 <? t) && (t <? lease_secs) then t else default_t1
                    | _ => default_t1
                    end in
  let rebind_secs := match get msg OPT_T2 with
                     | Some (T2 t) => if (renew_secs <? t) && (t <? lease_secs) then t
                                      else Z.max default_t2 renew_secs
                     | _ => Z.max default_t2 renew_secs
                     end in
  Ok {| l_addr := yiaddr msg; l_prefix_len := prefix_len; l_gateway := gateway; l_dns := dns;
        l_server := server; l_lease_secs := lease_secs; l_renew_secs := renew_secs;
        l_rebind_secs := rebind_secs |}.

(** [Lease::netmask] *)
Definition netmask (l : Lease) : Z := default BROADCAST (mask_from_prefix_len (l_prefix_len l)).

(** ** The machine *)

Inductive State := Init | Selecting | Requesting | Bound | Renewing | Rebinding.
#[export] Instance State_eq_dec : EqDecision State.
Proof. solve_decision. Defined.

Inductive Timer := Retransmit | Renew | Rebind | Expire.
#[export] Instance Timer_eq_dec : EqDecision Timer.
Proof. solve_decision. Defined.

Inductive Reason := ReasonNak | Expired.
#[export] Instance Reason_eq_dec : EqDecision Reason.
Proof. solve_decision. Defined.

Inductive Input := Start (xid : Z) | Datagram (b : bytes) | Timeout (t : Timer).

Inductive Action :=
| Broadcast (data : bytes)
| Unicast (to : Z) (data : bytes)
| SetTimer (t : Timer) (secs : Z)
| Configured (l : Lease)
| Deconfigure (r : Reason)
| Failed.
#[export] Instance Action_eq_dec : EqDecision Action.
Proof. solve_decision. Defined.

Record Dhcp4 := {
  c_mac : bytes;
  c_hostname : option bytes;
  c_xid : Z;
  c_state : State;
  c_server : option Z;
  c_offered : Z;
  c_lease : option Lease;
  c_tries : Z;
  c_elapsed : Z;
  c_renew_interval : Z;
}.

Definition Dhcp4_new (mac : bytes) (xid : Z) : Dhcp4 :=
  {| c_mac := mac; c_hostname := None; c_xid := xid; c_state := Init; c_server := None;
     c_offered := UNSPECIFIED; c_lease := None; c_tries := 0; c_elapsed := 0;
     c_renew_interval := MIN_RENEW_INTERVAL |}.

Definition with_hostname (c : Dhcp4) (hostname : bytes) : Dhcp4 :=
  {| c_mac := c_mac c; c_hostname := Some hostname; c_xid := c_xid c; c_state := c_state c;
     c_server := c_server c; c_offered := c_offered c; c_lease := c_lease c; c_tries := c_tries c;
     c_elapsed := c_elapsed c; c_renew_interval := c_renew_interval c |}.

(** *** The messages *)

Definition base (c : Dhcp4) (kind : MessageType) : Message :=
  let m := Message_request (c_xid c) (c_mac c) in
  {| op := op m; htype := htype m; hlen := hlen m; hops := hops m; xid := xid m;
     secs := Z.min (c_elapsed c) (2 ^ 16 - 1); flags := flags m;
     ciaddr := ciaddr m; yiaddr := yiaddr m; siaddr := siaddr m; giaddr := giaddr m;
     chaddr := chaddr m; sname := sname m; file := file m;
     options := [OptMessageType kind; ClientId (HTYPE_ETHERNET :: c_mac c)]
                ++ from_option (fun h => [HostName h]) [] (c_hostname c)
                ++ [ParameterRequest PARAM_REQUEST] |}.

(** The message with its flags, client address and further options. *)
Definition with_fields (m : Message) (fl ci : Z) (more : list DhcpOption) : Message :=
  {| op := op m; htype := htype m; hlen := hlen m; hops := hops m; xid := xid m; secs := secs m;
     flags := fl; ciaddr := ci; yiaddr := yiaddr m; siaddr := siaddr m; giaddr := giaddr m;
     chaddr := chaddr m; sname := sname m; file := file m; options := options m ++ more |}.

Definition discover (c : Dhcp4) : Message := with_fields (base c Discover) FLAG_BROADCAST UNSPECIFIED [].

Definition request_selecting (c : Dhcp4) : Message :=
  with_fields (base c Request) FLAG_BROADCAST UNSPECIFIED
    (RequestedIp (c_offered c) :: from_option (fun s => [ServerId s]) [] (c_server c)).

Definition request_renew (c : Dhcp4) : Message :=
  with_fields (base c Request) 0 (from_option l_addr UNSPECIFIED (c_lease c)) [].

(** *** Timing *)

(** [4u32 << tries.min(4)], a second less or more by a bit of the id. *)
Definition backoff (c : Dhcp4) : Z :=
  let b := Z.shiftl 4 (Z.min (c_tries c) 4) in
  if Z.land (Z.shiftr (c_xid c) (Z.land (c_tries c) 31)) 1 =? 0 then b - 1 else b + 1.

Definition broadcast (c : Dhcp4) (m : Message) : list Action :=
  [Broadcast (Message_encode m); SetTimer Retransmit (backoff c)].

Definition age (c : Dhcp4) : Dhcp4 :=
  {| c_mac := c_mac c; c_hostname := c_hostname c; c_xid := c_xid c; c_state := c_state c;
     c_server := c_server c; c_offered := c_offered c; c_lease := c_lease c;
     c_tries := wrap 32 (c_tries c + 1); c_elapsed := sat_add 32 (c_elapsed c) (backoff c);
     c_renew_interval := c_renew_interval c |}.

Definition set_renew_interval (c : Dhcp4) (v : Z) : Dhcp4 :=
  {| c_mac := c_mac c; c_hostname := c_hostname c; c_xid := c_xid c; c_state := c_state c;
     c_server := c_server c; c_offered := c_offered c; c_lease := c_lease c; c_tries := c_tries c;
     c_elapsed := c_elapsed c; c_renew_interval := v |}.

Definition halve_renew_interval (c : Dhcp4) : Dhcp4 :=
  set_renew_interval c (Z.max (c_renew_interval c / 2) MIN_RENEW_INTERVAL).

Definition set_state (c : Dhcp4) (s : State) : Dhcp4 :=
  {| c_mac := c_mac c; c_hostname := c_hostname c; c_xid := c_xid c; c_state := s;
     c_server := c_server c; c_offered := c_offered c; c_lease := c_lease c; c_tries := c_tries c;
     c_elapsed := c_elapsed c; c_renew_interval := c_renew_interval c |}.

(** *** The handlers *)

Definition start (c : Dhcp4) (xid : Z) : Dhcp4 * list Action :=
  let c := {| c_mac := c_mac c; c_hostname := c_hostname c; c_xid := xid; c_state := Selecting;
              c_server := None; c_offered := UNSPECIFIED; c_lease := None; c_tries := 0;
              c_elapsed := 0; c_renew_interval := c_renew_interval c |} in
  (c, broadcast c (discover c)).

Definition on_offer (c : Dhcp4) (msg : Message) : Dhcp4 * list Action :=
  match server_id msg with
  | None => (c, [])
  | Some server =>
      let c := {| c_mac := c_mac c; c_hostname := c_hostname c; c_xid := c_xid c;
                  c_state := Requesting; c_server := Some server; c_offered := yiaddr msg;
                  c_lease := c_lease c; c_tries := 0; c_elapsed := c_elapsed c;
                  c_renew_interval := c_renew_interval c |} in
      (c, broadcast c (request_selecting c))
  end.

Definition on_ack (c : Dhcp4) (msg : Message) : Dhcp4 * list Action :=
  match to_option (from_ack msg) with
  | None => (c, [])
  | Some lease =>
      ({| c_mac := c_mac c; c_hostname := c_hostname c; c_xid := c_xid c; c_state := Bound;
          c_server := Some (l_server lease); c_offered := c_offered c; c_lease := Some lease;
          c_tries := 0; c_elapsed := c_elapsed c; c_renew_interval := c_renew_interval c |},
       [SetTimer Renew (l_renew_secs lease); SetTimer Rebind (l_rebind_secs lease);
        SetTimer Expire (l_lease_secs lease); Configured lease])
  end.

(** Back to [Init] with nothing held. *)
Definition drop_lease (c : Dhcp4) : Dhcp4 :=
  {| c_mac := c_mac c; c_hostname := c_hostname c; c_xid := c_xid c; c_state := Init;
     c_server := None; c_offered := c_offered c; c_lease := None; c_tries := c_tries c;
     c_elapsed := c_elapsed c; c_renew_interval := c_renew_interval c |}.

Definition on_nak (c : Dhcp4) : Dhcp4 * list Action := (drop_lease c, [Deconfigure ReasonNak]).

Definition on_datagram (c : Dhcp4) (b : bytes) : Dhcp4 * list Action :=
  match to_option (Message_decode b) with
  | None => (c, [])
  | Some msg =>
      if negb (op msg =? BOOTREPLY) || negb (xid msg =? c_xid c)
         || negb (bool_decide (take 6 (chaddr msg) = c_mac c))
      then (c, [])
      else match c_state c, message_type msg with
           | Selecting, Some Offer => on_offer c msg
           | (Requesting | Renewing | Rebinding), Some Ack => on_ack c msg
           | (Requesting | Renewing | Rebinding), Some Nak => on_nak c
           | _, _ => (c, [])
           end
  end.

Definition enter_renewing (c : Dhcp4) : Dhcp4 * list Action :=
  match c_lease c with
  | None => (c, [])
  | Some lease =>
      let v := Z.max (sat_sub (l_rebind_secs lease) (l_renew_secs lease) / 2) MIN_RENEW_INTERVAL in
      let c := set_renew_interval (set_state c Renewing) v in
      (c, [Unicast (l_server lease) (Message_encode (request_renew c)); SetTimer Retransmit v])
  end.

Definition enter_rebinding (c : Dhcp4) : Dhcp4 * list Action :=
  match c_lease c with
  | None => (c, [])
  | Some lease =>
      let v := Z.max (sat_sub (l_lease_secs lease) (l_rebind_secs lease) / 2) MIN_RENEW_INTERVAL in
      let c := set_renew_interval (set_state c Rebinding) v in
      (c, [Broadcast (Message_encode (request_renew c)); SetTimer Retransmit v])
  end.

Definition abandon (c : Dhcp4) : Dhcp4 * list Action :=
  ({| c_mac := c_mac c; c_hostname := c_hostname c; c_xid := c_xid c; c_state := Init;
      c_server := None; c_offered := UNSPECIFIED; c_lease := c_lease c; c_tries := c_tries c;
      c_elapsed := c_elapsed c; c_renew_interval := c_renew_interval c |}, [Failed]).

Definition retransmit (c : Dhcp4) : Dhcp4 * list Action :=
  let exhausted := MAX_TRIES <=? wrap 32 (c_tries c + 1) in
  match c_state c with
  | Selecting =>
      if exhausted then abandon c else let c := age c in (c, broadcast c (discover c))
  | Requesting =>
      if exhausted then abandon c else let c := age c in (c, broadcast c (request_selecting c))
  | Renewing =>
      let c := halve_renew_interval c in
      (c, [Unicast (default BROADCAST (c_server c)) (Message_encode (request_renew c));
           SetTimer Retransmit (c_renew_interval c)])
  | Rebinding =>
      let c := halve_renew_interval c in
      (c, [Broadcast (Message_encode (request_renew c)); SetTimer Retransmit (c_renew_interval c)])
  | Init | Bound => (c, [])
  end.

Definition on_timeout (c : Dhcp4) (t : Timer) : Dhcp4 * list Action :=
  match t with
  | Retransmit => retransmit c
  | Renew => match c_state c with Bound => enter_renewing c | _ => (c, []) end
  | Rebind => match c_state c with Bound | Renewing => enter_rebinding c | _ => (c, []) end
  | Expire => if is_some (c_lease c) then (drop_lease c, [Deconfigure Expired]) else (c, [])
  end.

Definition poll (c : Dhcp4) (i : Input) : Dhcp4 * list Action :=
  match i with
  | Start xid => start c xid
  | Datagram b => on_datagram c b
  | Timeout t => on_timeout c t
  end.

Fixpoint run (c : Dhcp4) (inputs : list Input) : Dhcp4 * list (list Action) :=
  match inputs with
  | [] => (c, [])
  | i :: inputs =>
      let '(c, a) := poll c i in
      let '(c, rs) := run c inputs in (c, a :: rs)
  end.

(** ** Leases *)

(** What a decoded option's number can be. *)
Definition option_in_range (o : DhcpOption) : Prop :=
  match o with
  | SubnetMask a | RequestedIp a | ServerId a => is_u32 a
  | LeaseTime t | T1 t | T2 t => is_u32 t
  | _ => True
  end.

Lemma be_u32_range data v : is_bytes data -> be_u32 data = Ok v -> is_u32 v.
Proof.
  intros Hd Hv. destruct data as [|a [|b [|c [|d [|]]]]]; try discriminate Hv. injection Hv as <-.
  exact (be_decode_bound [a; b; c; d] Hd).
Qed.

Lemma option_decode_range code data o :
  is_bytes data -> option_decode code data = Ok o -> option_in_range o.
Proof.
  intros Hd Ho. unfold option_decode, ipv4 in Ho.
  repeat case_match; simplify_eq; try done;
    (apply fmap_ok in Ho as (v & Hv & ->) || idtac); cbn; try done; by eapply be_u32_range.
Qed.

Lemma decode_loop_range fuel rest ov out r opts :
  is_bytes rest -> Forall option_in_range out ->
  decode_loop fuel rest ov out = Ok (r, opts) -> Forall option_in_range opts.
Proof.
  revert rest ov out. induction fuel as [|fuel IH]; intros rest ov out Hb Ho Hd; cbn [decode_loop] in Hd.
  { by simplify_eq. }
  destruct rest as [|code tail]; [by simplify_eq|].
  destruct (code =? OPT_PAD); [apply Forall_cons in Hb as [_ Hb]; by eapply IH|].
  destruct (code =? OPT_END); [by simplify_eq|].
  apply bind_ok in Hd as (n & _ & Hd). apply bind_ok in Hd as (data & Hg & Hd).
  apply ok_or_ok in Hg. pose proof (get_range_bytes _ _ _ _ Hb Hg) as Hdb.
  assert (is_bytes (drop (2 + Z.to_nat n) (code :: tail))) as Hdr by by apply Forall_drop.
  destruct (code =? OPT_OVERLOAD).
  - destruct data as [|bits [|]]; [done| |done]. exact (IH _ _ _ Hdr Ho Hd).
  - apply bind_ok in Hd as (o & Hod & Hd). eapply IH; [exact Hdr| |exact Hd].
    apply Forall_app. split; [done|]. constructor; [|done].
    exact (option_decode_range _ _ _ Hdb Hod).
Qed.

Lemma decode_into_range buf out r opts :
  is_bytes buf -> Forall option_in_range out ->
  decode_into buf out = Ok (r, opts) -> Forall option_in_range opts.
Proof. apply decode_loop_range. Qed.

Lemma Message_decode_range b m :
  is_bytes b -> Message_decode b = Ok m -> Forall option_in_range (options m).
Proof.
  intros Hb Hm. unfold Message_decode in Hm.
  apply bind_ok in Hm as (cookie & _ & Hm). case_match; [done|].
  apply bind_ok in Hm as (area & Ha & Hm). unfold slice_from, get_from in Ha.
  case_bool_decide; [|done]. injection Ha as <-.
  apply bind_ok in Hm as ([ov opts] & Ho & Hm).
  apply decode_into_range in Ho; [|by apply Forall_drop|constructor].
  apply bind_ok in Hm as (ff & Hff & Hm). apply expect_ok in Hff.
  apply get_range_bytes in Hff; [|done].
  apply bind_ok in Hm as ([fl opts1] & H1 & Hm).
  assert (Forall option_in_range opts1) as Hr1.
  { destruct (has_flag ov OVERLOAD_FILE); [|by simplify_eq].
    apply bind_ok in H1 as ([r1 o1] & Hd1 & H1). simplify_eq. by eapply decode_into_range. }
  apply bind_ok in Hm as (sf & Hsf & Hm). apply expect_ok in Hsf.
  apply get_range_bytes in Hsf; [|done].
  apply bind_ok in Hm as ([sn opts2] & H2 & Hm).
  assert (Forall option_in_range opts2) as Hr2.
  { destruct (has_flag ov OVERLOAD_SNAME); [|by simplify_eq].
    apply bind_ok in H2 as ([r2 o2] & Hd2 & H2). simplify_eq. by eapply decode_into_range. }
  clear H1 H2. inv_ok. done.
Qed.

(** What a lease promises whoever applies it: deadlines in order, and the
    address, the mask, the term, the server and the gateway of the message. *)
Record leased (m : Message) (l : Lease) : Prop := {
  leased_times : 0 <= l_renew_secs l /\ l_renew_secs l <= l_rebind_secs l /\ l_rebind_secs l <= l_lease_secs l;
  leased_renews : 0 < l_lease_secs l -> l_renew_secs l < l_lease_secs l;
  leased_term : get m OPT_LEASE_TIME = Some (LeaseTime (l_lease_secs l)) /\ is_u32 (l_lease_secs l);
  leased_addr : l_addr l = yiaddr m /\ l_addr l <> UNSPECIFIED;
  leased_mask : exists mask, get m OPT_SUBNET_MASK = Some (SubnetMask mask)
    /\ prefix_len_from_mask mask = Some (l_prefix_len l) /\ netmask l = mask;
  leased_server : server_id m = Some (l_server l);
  leased_gateway g : l_gateway l = Some g ->
    g <> UNSPECIFIED /\ exists routers, get m OPT_ROUTER = Some (Router routers) /\ g ∈ routers;
}.

Lemma find_first_range m code o :
  Forall option_in_range (options m) -> get m code = Some o -> option_in_range o.
Proof. intros Hr [Hin _]%find_first_Some. rewrite Forall_forall in Hr. by apply Hr. Qed.

Lemma find_map_message_type m t :
  message_type m = Some t -> exists o, o ∈ options m /\ o = OptMessageType t.
Proof.
  intros (o & Hin & Ho)%find_map_Some. exists o. split; [done|]. by destruct o; simplify_eq.
Qed.

Lemma prefix_mask_back n mask :
  is_u32 mask -> prefix_len_from_mask mask = Some n ->
  0 <= n <= 32 /\ mask_from_prefix_len n = Some mask.
Proof.
  intros Hm Hp. pose proof (leading_ones_bound 32 mask) as Hb.
  split; [|by apply prefix_mask_inverse].
  unfold prefix_len_from_mask in Hp. destruct (_ =? _); [|done].
  assert (leading_ones 32 mask = n) as Hn by congruence.
  change (Z.of_nat 32) with 32 in Hb. lia.
Qed.

(** The deadlines of a term without any of its own: half of it, and seven
    eighths. *)
Lemma default_deadlines t :
  is_u32 t ->
  wrap 32 (t / 2) = t / 2 /\ wrap 32 (t * 7 / 8) = t * 7 / 8
  /\ (0 <= t / 2 <= t /\ (0 < t -> t / 2 < t)) /\ t * 7 / 8 <= t.
Proof.
  unfold is_uint, wrap. intros Ht.
  assert (0 <= t / 2 /\ t / 2 <= t) by (split; [apply Z.div_pos; lia|apply Z.div_le_upper_bound; lia]).
  assert (0 <= t * 7 / 8 /\ t * 7 / 8 <= t) by (split; [apply Z.div_pos; lia|apply Z.div_le_upper_bound; lia]).
  split_and!; try lia; try (apply Z.mod_small; lia). intros. apply Z.div_lt_upper_bound; lia.
Qed.

(** C30. A lease that is accepted is coherent, and the server's: T1 <= T2 <=
    expiry whatever was sent, T1 strictly before the expiry of a lease that
    lasts; the address and the server of the message, never the unspecified
    one; a prefix that is the length of the mask the message carries and whose
    netmask is that mask (without one, or with one that has holes, there is no
    lease); and a gateway among the routers listed, never the unspecified
    one. *)
Theorem lease_coherent b m l :
  is_bytes b -> Message_decode b = Ok m -> from_ack m = Ok l -> leased m l.
Proof.
  intros Hb Hm Hl. pose proof (Message_decode_range _ _ Hb Hm) as Hr.
  unfold from_ack in Hl. apply bind_ok in Hl as (u & _ & Hl).
  destruct (Z.eqb_spec (yiaddr m) UNSPECIFIED) as [|Hy]; [done|].
  apply bind_ok in Hl as (mask & Hmask & Hl).
  apply bind_ok in Hl as (p & Hp%ok_or_ok & Hl).
  apply bind_ok in Hl as (t & Ht & Hl). apply bind_ok in Hl as (srv & Hsrv%ok_or_ok & Hl). injection Hl as <-.
  assert (get m OPT_SUBNET_MASK = Some (SubnetMask mask)) as Hmo
    by (destruct (get m OPT_SUBNET_MASK) as [[]|]; by simplify_eq).
  assert (get m OPT_LEASE_TIME = Some (LeaseTime t)) as Hto
    by (destruct (get m OPT_LEASE_TIME) as [[]|]; by simplify_eq).
  assert (is_u32 mask) as Hmu.
  { destruct (get m OPT_SUBNET_MASK) as [o|] eqn:Ho; [|done].
    pose proof (find_first_range _ _ _ Hr Ho) as Hoo. destruct o; try done. by simplify_eq. }
  assert (is_u32 t) as Htu.
  { destruct (get m OPT_LEASE_TIME) as [o|] eqn:Ho; [|done].
    pose proof (find_first_range _ _ _ Hr Ho) as Hoo. destruct o; try done. by simplify_eq. }
  destruct (prefix_mask_back _ _ Hmu Hp) as [Hpb Hpm].
  destruct (default_deadlines t Htu) as (-> & -> & Hhalf & Hd). set (T1' := match get m OPT_T1 with Some (T1 t1) => _ | _ => _ end).
  assert (H1 : 0 <= T1' <= t /\ (0 < t -> T1' < t)).
  { unfold T1'. destruct (get m OPT_T1) as [[]|]; try done.
    destruct ((0 <? t0) && (t0 <? t)) eqn:Hc; [|done]. bool_prop. lia. }
  set (T2' := match get m OPT_T2 with Some (T2 t2) => _ | _ => _ end).
  assert (H2 : T1' <= T2' <= t).
  { assert (T1' <= Z.max (t * 7 / 8) T1' <= t) as Hmx by lia.
    unfold T2'. destruct (get m OPT_T2) as [[]|]; try done.
    destruct ((T1' <? t0) && (t0 <? t)) eqn:Hc; [|done]. bool_prop. lia. }
  split; cbn [l_addr l_prefix_len l_gateway l_server l_lease_secs l_renew_secs l_rebind_secs]; try done; try lia.
  - exists mask. unfold netmask. cbn [l_prefix_len]. by rewrite Hpm.
  - intros g Hg. destruct (get m OPT_ROUTER) as [[]|]; try done.
    apply find_first_Some in Hg as [Hin Hg]. bool_prop. split; [done|by eexists].
Qed.

(** ** The state invariant *)

Definition holds_lease (s : State) : bool :=
  match s with Bound | Renewing | Rebinding => true | _ => false end.

Record cwf (c : Dhcp4) : Prop := {
  (** An address is held in exactly the states past the first ACK. *)
  cwf_lease : is_some (c_lease c) = holds_lease (c_state c);
  (** A REQUEST has somebody to be addressed to. *)
  cwf_server : c_state c = Requesting -> is_some (c_server c) = true;
  cwf_tries : 0 <= c_tries c < MAX_TRIES;
  cwf_interval : MIN_RENEW_INTERVAL <= c_renew_interval c;
}.

(** What a list of actions does to the interface. *)
Definition apply_action (held : option Lease) (a : Action) : option Lease :=
  match a with
  | Configured l => Some l
  | Deconfigure _ => None
  | _ => held
  end.
Definition applied (held : option Lease) (acts : list Action) : option Lease :=
  fold_left apply_action acts held.

Lemma applied_app held a b : applied held (a ++ b) = applied (applied held a) b.
Proof. apply fold_left_app. Qed.

(** Actions either say what is configured or leave it. *)
Lemma applied_cases acts :
  (forall held, applied held acts = held) \/ (forall held held', applied held acts = applied held' acts).
Proof.
  induction acts as [|a acts IH]; [by left|].
  destruct a; try exact IH; right; done.
Qed.

(** A client as the daemon makes one. *)
Definition fresh (mac : bytes) (x : Z) (hostname : option bytes) : Dhcp4 :=
  from_option (with_hostname (Dhcp4_new mac x)) (Dhcp4_new mac x) hostname.

Lemma new_cwf mac x h : cwf (fresh mac x h).
Proof. by destruct h; split. Qed.

Lemma wrap32_tries c : cwf c -> wrap 32 (c_tries c + 1) = c_tries c + 1.
Proof. intros Hc. destruct (cwf_tries c Hc). unfold MAX_TRIES in *. apply Z.mod_small. lia. Qed.

Ltac solve_cwf :=
  split; cbn; try done; try lia; unfold MAX_TRIES, MIN_RENEW_INTERVAL in *; try lia.

(** The invariant, and the interface follows the lease, in one step. *)
Lemma retransmit_step c :
  cwf c -> cwf (fst (retransmit c)) /\ applied (c_lease c) (snd (retransmit c)) = c_lease (fst (retransmit c)).
Proof.
  intros Hc. pose proof (wrap32_tries c Hc) as Hw. pose proof Hc as [Hl Hs Ht Hi].
  unfold retransmit. rewrite Hw.
  destruct (c_state c) eqn:Es; cbn [holds_lease] in Hl.
  - done.
  - destruct (Z.leb_spec MAX_TRIES (c_tries c + 1)).
    + split; [|done]. solve_cwf.
    + split; [|done]. unfold age. cbn [fst]. rewrite Hw. split; cbn; rewrite ?Es; try done; lia.
  - destruct (Z.leb_spec MAX_TRIES (c_tries c + 1)).
    + split; [|done]. solve_cwf.
    + split; [|done]. unfold age. cbn [fst]. rewrite Hw. split; cbn; rewrite ?Es; try done; auto with lia.
  - done.
  - split; [|done]. unfold halve_renew_interval, set_renew_interval. cbn [fst].
    split; cbn; rewrite ?Es; try done; lia.
  - split; [|done]. unfold halve_renew_interval, set_renew_interval. cbn [fst].
    split; cbn; rewrite ?Es; try done; lia.
Qed.

Lemma on_timeout_step c t :
  cwf c -> cwf (fst (on_timeout c t)) /\ applied (c_lease c) (snd (on_timeout c t)) = c_lease (fst (on_timeout c t)).
Proof.
  intros Hc. destruct t; cbn [on_timeout]; [by apply retransmit_step|..].
  - destruct (c_state c) eqn:Es; try done. unfold enter_renewing. destruct (c_lease c) as [l|] eqn:El; [|done].
    split; [|cbn; by rewrite El]. destruct Hc as [Hl Hs Ht Hi]. split; cbn; try done; rewrite ?El; try done; lia.
  - destruct (c_state c) eqn:Es; try done; unfold enter_rebinding; destruct (c_lease c) as [l|] eqn:El;
      try done; (split; [|cbn; by rewrite El]); destruct Hc as [Hl Hs Ht Hi];
      split; cbn; try done; rewrite ?El; try done; lia.
  - destruct (is_some (c_lease c)); [|done]. split; [|done]. destruct Hc as [Hl Hs Ht Hi].
    by split; cbn.
Qed.

Lemma on_datagram_step c b :
  cwf c -> cwf (fst (on_datagram c b)) /\ applied (c_lease c) (snd (on_datagram c b)) = c_lease (fst (on_datagram c b)).
Proof.
  intros Hc. unfold on_datagram. destruct (to_option (Message_decode b)) as [m|]; [|done].
  case_match; [done|]. pose proof Hc as [Hl Hs Ht Hi].
  assert (Hack : cwf (fst (on_ack c m)) /\ applied (c_lease c) (snd (on_ack c m)) = c_lease (fst (on_ack c m))).
  { unfold on_ack. destruct (to_option (from_ack m)) as [l|]; [|done].
    split; [|done]. by split; cbn. }
  assert (Hnak : cwf (fst (on_nak c)) /\ applied (c_lease c) (snd (on_nak c)) = c_lease (fst (on_nak c))).
  { split; [|done]. by split; cbn. }
  destruct (c_state c) eqn:Es, (message_type m) as [[]|]; try done.
  unfold on_offer. destruct (server_id m) as [s|]; [|done]. split; [|done]. by split; cbn.
Qed.

Lemma start_cwf c x : cwf c -> cwf (fst (start c x)).
Proof. intros [Hl Hs Ht Hi]. by split. Qed.

(** One input: the invariant, and what it leaves configured. *)
Lemma poll_step c i :
  cwf c -> cwf (fst (poll c i))
  /\ (applied (c_lease c) (snd (poll c i)) = c_lease (fst (poll c i))
      \/ exists x l, i = Start x /\ c_lease c = Some l /\ c_lease (fst (poll c i)) = None
           /\ applied (c_lease c) (snd (poll c i)) = Some l).
Proof.
  intros Hc. destruct i as [x|b|t]; cbn [poll].
  - split; [by apply start_cwf|]. cbn. destruct (c_lease c) as [l|]; [right; by exists x, l|by left].
  - destruct (on_datagram_step c b Hc). auto.
  - destruct (on_timeout_step c t Hc). auto.
Qed.

Lemma run_snoc c inputs i :
  run c (inputs ++ [i])
  = (fst (poll (fst (run c inputs)) i), snd (run c inputs) ++ [snd (poll (fst (run c inputs)) i)]).
Proof.
  revert c. induction inputs as [|j inputs IH]; intros c; cbn [app run].
  - cbn [fst snd app]. by destruct (poll c i).
  - destruct (poll c j) as [c1 a]. rewrite IH. destruct (run c1 inputs) as [c2 rs]. cbn [fst snd app]. done.
Qed.

(** The interface after some inputs. *)
Definition configured (c : Dhcp4) (inputs : list Input) : option Lease :=
  applied None (concat (snd (run c inputs))).

Lemma configured_snoc c inputs i :
  configured c (inputs ++ [i]) = applied (configured c inputs) (snd (poll (fst (run c inputs)) i)).
Proof. unfold configured. rewrite run_snoc. cbn [snd]. rewrite concat_app, applied_app. cbn. by rewrite app_nil_r. Qed.

(** C29. The interface follows the lease: over any starts, datagrams and timer
    expiries in any order, what the actions left configured is exactly the
    lease the machine holds, which is there in [Bound], [Renewing] and
    [Rebinding] and nowhere else -- no expired or refused address is left
    behind.  The one exception is a [Start] that found a lease held, which
    drops it without taking it off the interface: then that lease, and no
    other, is what is left configured while none is held. *)
Theorem interface_follows_lease mac x hostname inputs :
  let client := fresh mac x hostname in
  let c := fst (run client inputs) in
  is_some (c_lease c) = holds_lease (c_state c)
  /\ (configured client inputs = c_lease c
      \/ c_lease c = None /\ exists pre x' post l,
           inputs = pre ++ Start x' :: post /\ c_lease (fst (run client pre)) = Some l
           /\ configured client pre = Some l /\ configured client inputs = Some l).
Proof.
  cbv zeta. set (client := fresh mac x hostname).
  cut (cwf (fst (run client inputs))
    /\ (configured client inputs = c_lease (fst (run client inputs))
      \/ c_lease (fst (run client inputs)) = None /\ exists pre x' post l,
           inputs = pre ++ Start x' :: post /\ c_lease (fst (run client pre)) = Some l
           /\ configured client pre = Some l /\ configured client inputs = Some l)).
  { intros [Hc Hd]. split; [by apply cwf_lease|exact Hd]. }
  induction inputs as [|i inputs [Hc IH]] using rev_ind.
  - split; [apply new_cwf|left]. by destruct hostname.
  - rewrite configured_snoc, run_snoc. cbn [fst]. destruct (poll_step _ i Hc) as [Hc' Hp]. split; [done|].
    destruct IH as [Ha|(Hn & pre & x' & post & l & -> & Hl & Hpre & Hcur)].
    + rewrite Ha. destruct Hp as [Hp|(x' & l & -> & Hl & Hn & Hp)]; [by left|right]. split; [done|].
      exists inputs, x', [], l. split_and!; [done|done|by rewrite Ha|done].
    + destruct Hp as [Hp|(? & ? & _ & Hl' & _)]; [|congruence].
      destruct (applied_cases (snd (poll (fst (run client (pre ++ Start x' :: post))) i))) as [Hid|Hcst].
      * rewrite Hid, Hn in Hp. right. split; [done|]. exists pre, x', (post ++ [i]), l.
        rewrite Hid. split_and!; [by rewrite <- app_assoc|done..].
      * left. rewrite <- Hp. apply Hcst.
Qed.

(** Which leases a list of actions configures. *)
Definition configures (acts : list Action) : list Lease :=
  omap (fun a => match a with Configured l => Some l | _ => None end) acts.

Lemma configures_elem l acts : Configured l ∈ acts -> configures acts <> [].
Proof.
  intros Hin He. assert (l ∈ configures acts) as Hl by (apply list_elem_of_omap; by exists (Configured l)).
  rewrite He in Hl. by apply not_elem_of_nil in Hl.
Qed.

Lemma timeout_configures c t : configures (snd (on_timeout c t)) = [].
Proof.
  destruct t; cbn [on_timeout].
  - unfold retransmit, abandon, broadcast. by destruct (c_state c), (MAX_TRIES <=? wrap 32 (c_tries c + 1)).
  - unfold enter_renewing. by destruct (c_state c), (c_lease c).
  - unfold enter_rebinding. by destruct (c_state c), (c_lease c).
  - by destruct (is_some (c_lease c)).
Qed.

Lemma datagram_configures c b l :
  Configured l ∈ snd (on_datagram c b) ->
  exists m, Message_decode b = Ok m /\ op m = BOOTREPLY /\ xid m = c_xid c
    /\ take 6 (chaddr m) = c_mac c /\ message_type m = Some Ack
    /\ (c_state c = Requesting \/ c_state c = Renewing \/ c_state c = Rebinding)
    /\ on_datagram c b = on_ack c m.
Proof.
  intros Hin%configures_elem. unfold on_datagram in *.
  destruct (Message_decode b) as [m| |]; cbn [to_option] in *; try done.
  destruct (negb (op m =? BOOTREPLY) || _ || _) eqn:Hf; [done|]. bool_prop.
  exists m. do 4 (split; [done|]).
  assert (Hoff : configures (snd (on_offer c m)) = []).
  { unfold on_offer, broadcast. by destruct (server_id m). }
  assert (Hnak : configures (snd (on_nak c)) = []) by done.
  destruct (c_state c), (message_type m) as [[]|]; try done; auto.
Qed.

(** An address is configured only from the answer to this exchange: a
    reply, with the transaction id and the hardware address of this client, of
    type ACK, coherent, and received after a REQUEST; and the timers of that
    lease are armed with it. *)
Theorem configured_only_by_ack c i l :
  Configured l ∈ snd (poll c i) ->
  exists b m, i = Datagram b /\ Message_decode b = Ok m /\ op m = BOOTREPLY /\ xid m = c_xid c
    /\ take 6 (chaddr m) = c_mac c /\ message_type m = Some Ack /\ from_ack m = Ok l
    /\ (c_state c = Requesting \/ c_state c = Renewing \/ c_state c = Rebinding)
    /\ c_state (fst (poll c i)) = Bound /\ c_lease (fst (poll c i)) = Some l
    /\ snd (poll c i) = [SetTimer Renew (l_renew_secs l); SetTimer Rebind (l_rebind_secs l);
                         SetTimer Expire (l_lease_secs l); Configured l].
Proof.
  intros Hin. destruct i as [x|b|t]; cbn [poll] in *.
  - by apply configures_elem in Hin.
  - destruct (datagram_configures _ _ _ Hin) as (m & Hm & Hop & Hx & Hc & Ht & Hs & He).
    rewrite He in *. unfold on_ack in *. destruct (from_ack m) as [l'| |] eqn:Hl; cbn [to_option snd] in Hin;
      [|by apply not_elem_of_nil in Hin..].
    assert (l = l') as <-.
    { repeat (apply elem_of_cons in Hin as [Hin|Hin]; [congruence|]). by apply not_elem_of_nil in Hin. }
    exists b, m. split_and!; done.
  - apply configures_elem in Hin. by rewrite timeout_configures in Hin.
Qed.

(** ** Timing *)

Lemma backoff_bounds c :
  0 <= c_tries c < MAX_TRIES ->
  backoff c = 4 * 2 ^ c_tries c - 1 \/ backoff c = 4 * 2 ^ c_tries c + 1.
Proof.
  intros Ht. unfold MAX_TRIES in Ht. unfold backoff. rewrite Z.min_l by lia.
  rewrite Z.shiftl_mul_pow2 by lia. case_match; auto.
Qed.

(** One retransmission of an exchange still within its tries. *)
Lemma retransmit_selecting c :
  cwf c -> c_state c = Selecting \/ c_state c = Requesting -> c_tries c + 1 < MAX_TRIES ->
  exists data, snd (retransmit c) = [Broadcast data; SetTimer Retransmit (backoff (fst (retransmit c)))]
    /\ c_state (fst (retransmit c)) = c_state c /\ c_tries (fst (retransmit c)) = c_tries c + 1
    /\ cwf (fst (retransmit c)).
Proof.
  intros Hc Hs Ht. pose proof (retransmit_step c Hc) as [Hc' _]. pose proof (wrap32_tries c Hc) as Hw.
  unfold retransmit in *. rewrite Hw in *.
  assert ((MAX_TRIES <=? c_tries c + 1) = false) as Hx by (apply Z.leb_gt; lia). rewrite Hx in *.
  destruct Hs as [Hs | Hs]; rewrite Hs in *; eexists; (split_and!; [reflexivity| |cbn; exact Hw|exact Hc']);
    exact Hs.
Qed.

Lemma retransmit_gives_up c :
  cwf c -> c_state c = Selecting \/ c_state c = Requesting -> c_tries c + 1 = MAX_TRIES ->
  snd (retransmit c) = [Failed] /\ c_state (fst (retransmit c)) = Init
  /\ c_lease (fst (retransmit c)) = c_lease c.
Proof.
  intros Hc Hs Ht. pose proof (wrap32_tries c Hc) as Hw. unfold retransmit. rewrite Hw, Ht.
  rewrite Z.leb_refl. destruct Hs as [-> | ->]; done.
Qed.

(** An unanswered exchange ends: a DISCOVER or REQUEST just sent is sent
    three times more, after 4, 8, 16 and then 32 seconds give or take one, and
    the next expiry reports failure and returns to [Init] with nothing
    configured. *)
Theorem exchange_gives_up c :
  cwf c -> c_state c = Selecting \/ c_state c = Requesting -> c_tries c = 0 ->
  exists d1 d2 d3 s1 s2 s3 c',
    run c (replicate 4 (Timeout Retransmit))
    = (c', [[Broadcast d1; SetTimer Retransmit s1]; [Broadcast d2; SetTimer Retransmit s2];
            [Broadcast d3; SetTimer Retransmit s3]; [Failed]])
    /\ (backoff c = 3 \/ backoff c = 5) /\ (s1 = 7 \/ s1 = 9) /\ (s2 = 15 \/ s2 = 17)
    /\ (s3 = 31 \/ s3 = 33) /\ c_state c' = Init /\ c_lease c' = c_lease c.
Proof.
  intros Hc Hs Ht. pose proof (backoff_bounds c) as Hb0. rewrite Ht in Hb0.
  assert (Hl : forall c, c_lease (fst (retransmit c)) = c_lease c).
  { intros c0. unfold retransmit. by repeat case_match. }
  assert (Hrun : forall c rest, run c (Timeout Retransmit :: rest)
    = let '(c2, rs) := run (fst (retransmit c)) rest in (c2, snd (retransmit c) :: rs)).
  { intros c0 rest. cbn [run poll on_timeout]. by destruct (retransmit c0). }
  destruct (retransmit_selecting c Hc Hs) as (d1 & E1 & S1 & T1 & W1); [rewrite Ht; done|].
  rewrite Ht in T1. pose proof (Hl c) as L1. set (c1 := fst (retransmit c)) in *.
  pose proof (backoff_bounds c1) as Hb1. rewrite T1 in Hb1.
  destruct (retransmit_selecting c1 W1) as (d2 & E2 & S2 & T2 & W2); [by rewrite S1|rewrite T1; done|].
  rewrite T1 in T2. pose proof (Hl c1) as L2. set (c2 := fst (retransmit c1)) in *.
  pose proof (backoff_bounds c2) as Hb2. rewrite T2 in Hb2.
  destruct (retransmit_selecting c2 W2) as (d3 & E3 & S3 & T3 & W3);
    [by rewrite S2, S1|rewrite T2; done|].
  rewrite T2 in T3. pose proof (Hl c2) as L3. set (c3 := fst (retransmit c2)) in *.
  pose proof (backoff_bounds c3) as Hb3. rewrite T3 in Hb3.
  destruct (retransmit_gives_up c3 W3) as (E4 & S4 & L4); [by rewrite S3, S2, S1|rewrite T3; done|].
  exists d1, d2, d3, (backoff c1), (backoff c2), (backoff c3), (fst (retransmit c3)).
  unfold MAX_TRIES in *. split_and!; [|apply Hb0; lia|apply Hb1; lia|apply Hb2; lia|apply Hb3; lia|done|congruence].
  change (replicate 4 (Timeout Retransmit)) with (Timeout Retransmit :: Timeout Retransmit :: Timeout Retransmit :: [Timeout Retransmit]).
  rewrite Hrun. fold c1. rewrite Hrun. fold c2. rewrite Hrun. fold c3. rewrite Hrun. cbn [run].
  by rewrite E1, E2, E3, E4.
Qed.

(** ** The exchange *)

Definition client_ok (c : Dhcp4) : Prop :=
  length (c_mac c) = 6%nat /\ is_u32 (c_xid c) /\ 0 <= c_elapsed c
  /\ from_option (fun h => utf8_lossy h = h /\ (length h <= 255)%nat) True (c_hostname c).

Lemma base_options_wf c kind :
  client_ok c -> MessageType_from_code (MessageType_code kind) = kind ->
  Forall option_wf (options (base c kind)).
Proof.
  intros (Hm & _ & _ & Hh) Hk. cbn [base options].
  constructor; [by split; [cbn; lia|]|]. constructor; [split; [cbn; lia|done]|].
  apply Forall_app. split; [|constructor; [split; [cbn; lia|done]|constructor]].
  destruct (c_hostname c) as [h|]; cbn; [|constructor]. destruct Hh as [Hu Hl].
  by constructor; [split|].
Qed.

Lemma base_wf c kind fl ci more :
  client_ok c -> MessageType_from_code (MessageType_code kind) = kind ->
  is_u16 fl -> is_u32 ci -> Forall option_wf more ->
  Message_wf (with_fields (base c kind) fl ci more).
Proof.
  intros Hc Hk Hf Hci Hm. pose proof (base_options_wf c kind Hc Hk) as Ho.
  destruct Hc as (Hmac & Hx & He & _). assert (Hall : Forall option_wf (options (base c kind) ++ more)) by by apply Forall_app.
  assert (is_u32 UNSPECIFIED) as Hz by (unfold is_uint, UNSPECIFIED; lia). unfold with_fields. split.
  - unfold Message_typed. cbn [xid secs flags ciaddr yiaddr siaddr giaddr chaddr options]. split_and!; try done.
    + cbn [base secs]. unfold is_uint. lia.
    + cbn [base chaddr Message_request]. rewrite length_app, Hmac. done.
    + eapply Forall_impl; [exact Hall|]. apply option_code_plain.
  - assert (forall w, (0 < w)%nat -> text_fits w []) as Hempty by (intros w Hw; by repeat split).
    split_and!; [apply Hempty; cbv; lia..|done].
Qed.

(** A server's answer to this client. *)
Definition answers (c : Dhcp4) (m : Message) (kind : MessageType) : Prop :=
  Message_wf m /\ op m = BOOTREPLY /\ xid m = c_xid c /\ take 6 (chaddr m) = c_mac c
  /\ message_type m = Some kind.

Lemma on_datagram_answers c m kind :
  answers c m kind ->
  on_datagram c (Message_encode m) =
    match c_state c, Some kind with
    | Selecting, Some Offer => on_offer c m
    | (Requesting | Renewing | Rebinding), Some Ack => on_ack c m
    | (Requesting | Renewing | Rebinding), Some Nak => on_nak c
    | _, _ => (c, [])
    end.
Proof.
  intros (Hw & Ho & Hx & Hc & Ht). unfold on_datagram.
  rewrite (Message_decode_whole m Hw). cbn [to_option].
  by rewrite Ho, Hx, !Z.eqb_refl, Hc, (bool_decide_true (c_mac c = c_mac c)), Ht by done.
Qed.

(** The exchange succeeds: an offer for this client is answered by a
    broadcast REQUEST that decodes to exactly the offered address and the
    offering server, and the ACK that follows binds the client to its lease. *)
Theorem offer_request_ack c xid' offer server ack l :
  client_ok (fst (start c xid')) ->
  let c1 := fst (start c xid') in
  answers c1 offer Offer -> server_id offer = Some server -> is_u32 server ->
  let c2 := fst (poll c1 (Datagram (Message_encode offer))) in
  answers c2 ack Ack -> from_ack ack = Ok l ->
  exists req r,
    snd (poll c1 (Datagram (Message_encode offer))) = [Broadcast req; SetTimer Retransmit (backoff c2)]
    /\ Message_decode req = Ok r /\ op r = BOOTREQUEST /\ xid r = xid' /\ message_type r = Some Request
    /\ get r OPT_REQUESTED_IP = Some (RequestedIp (yiaddr offer)) /\ server_id r = Some server
    /\ ciaddr r = UNSPECIFIED /\ flags r = FLAG_BROADCAST
    /\ c_state (fst (poll c2 (Datagram (Message_encode ack)))) = Bound
    /\ Configured l ∈ snd (poll c2 (Datagram (Message_encode ack))).
Proof.
  intros Hc c1 Hoff Hsrv Hsu c2 Hack Hl.
  assert (E2 : poll c1 (Datagram (Message_encode offer)) = on_offer c1 offer).
  { cbn [poll]. rewrite (on_datagram_answers _ _ _ Hoff). done. }
  unfold c2 in *. rewrite E2 in *. clear c2 E2. unfold on_offer in *. rewrite Hsrv in *. cbn [fst snd] in *.
  match goal with |- context [broadcast ?c _] => set (c2 := c) in * end.
  assert (Hc2 : client_ok c2) by exact Hc.
  assert (Hy : is_u32 (yiaddr offer)) by apply Hoff.
  assert (Hw : Message_wf (request_selecting c2)).
  { apply base_wf; [exact Hc2|reflexivity| | |].
    - unfold is_uint, FLAG_BROADCAST. lia.
    - unfold is_uint, UNSPECIFIED. lia.
    - constructor; [split; [cbn; lia|exact Hy]|]. constructor; [split; [cbn; lia|exact Hsu]|constructor]. }
  exists (Message_encode (request_selecting c2)), (request_selecting c2).
  assert (Hfind : get (request_selecting c2) OPT_REQUESTED_IP = Some (RequestedIp (yiaddr offer))
    /\ server_id (request_selecting c2) = Some server).
  { unfold get, server_id. cbn. by destruct (c_hostname c). }
  destruct Hfind as [Hf1 Hf2].
  split_and!; try reflexivity; try done.
  - by apply Message_decode_whole.
  - cbn [poll]. rewrite (on_datagram_answers _ _ _ Hack). cbn. unfold on_ack. by rewrite Hl.
  - cbn [poll]. rewrite (on_datagram_answers _ _ _ Hack). cbn. unfold on_ack. rewrite Hl. cbn.
    repeat (first [by left | right]).
Qed.

(** ** Witnesses: one exchange *)
Module Demo.
Definition mac : bytes := [2; 0; 0; 0; 0; 1].
Definition reply (kind : MessageType) (more : list DhcpOption) : Message :=
  {| op := 2; htype := 1; hlen := 6; hops := 0; xid := 77; secs := 0; flags := 0x8000;
     ciaddr := 0; yiaddr := 3232235801; siaddr := 0; giaddr := 0;
     chaddr := mac ++ replicate 10 0; sname := []; file := [];
     options := [OptMessageType kind; ServerId 3232235777] ++ more |}.
Definition offer : Message := reply Offer [].
Definition ack : Message :=
  reply Ack [SubnetMask 4294967040; LeaseTime 3600; Router [0; 3232235777]; T1 9999].
Definition inputs : list Input :=
  [Start 77; Datagram (Message_encode offer); Datagram [1; 2; 3]; Timeout Renew;
   Datagram (Message_encode ack); Timeout Renew; Timeout Rebind; Timeout Expire].
Definition client : Dhcp4 := Dhcp4_new mac 1.
Definition requesting : Dhcp4 := fst (run client [Start 77; Datagram (Message_encode offer)]).
Definition lease : Lease :=
  {| l_addr := 3232235801; l_prefix_len := 24; l_gateway := Some 3232235777; l_dns := [];
     l_server := 3232235777; l_lease_secs := 3600; l_renew_secs := 1800; l_rebind_secs := 3150 |}.
End Demo.

Lemma lease_coherent_witness : leased Demo.ack Demo.lease.
Proof.
  apply (lease_coherent (Message_encode Demo.ack) Demo.ack).
  - apply is_bytes_dec_true. vm_compute. reflexivity.
  - vm_compute. reflexivity.
  - vm_compute. reflexivity.
Defined.

(** A second [Start] leaves the lease of the first exchange configured. *)
Example start_keeps_address :
  let inputs := [Start 77; Datagram (Message_encode Demo.offer); Datagram (Message_encode Demo.ack); Start 78] in
  c_lease (fst (run Demo.client inputs)) = None /\ configured Demo.client inputs = Some Demo.lease.
Proof. vm_compute. done. Qed.

Lemma configured_only_by_ack_witness :
  exists b m, Datagram (Message_encode Demo.ack) = Datagram b /\ Message_decode b = Ok m
    /\ op m = BOOTREPLY /\ xid m = c_xid Demo.requesting
    /\ take 6 (chaddr m) = c_mac Demo.requesting /\ message_type m = Some Ack /\ from_ack m = Ok Demo.lease
    /\ (c_state Demo.requesting = Requesting \/ c_state Demo.requesting = Renewing
        \/ c_state Demo.requesting = Rebinding)
    /\ c_state (fst (poll Demo.requesting (Datagram (Message_encode Demo.ack)))) = Bound
    /\ c_lease (fst (poll Demo.requesting (Datagram (Message_encode Demo.ack)))) = Some Demo.lease
    /\ snd (poll Demo.requesting (Datagram (Message_encode Demo.ack)))
       = [SetTimer Renew 1800; SetTimer Rebind 3150; SetTimer Expire 3600; Configured Demo.lease].
Proof.
  apply (configured_only_by_ack Demo.requesting (Datagram (Message_encode Demo.ack)) Demo.lease).
  apply (bool_decide_unpack _). vm_compute. exact I.
Defined.

Lemma exchange_gives_up_witness :
  exists d1 d2 d3 s1 s2 s3 c',
    run Demo.requesting (replicate 4 (Timeout Retransmit))
    = (c', [[Broadcast d1; SetTimer Retransmit s1]; [Broadcast d2; SetTimer Retransmit s2];
            [Broadcast d3; SetTimer Retransmit s3]; [Failed]])
    /\ (backoff Demo.requesting = 3 \/ backoff Demo.requesting = 5) /\ (s1 = 7 \/ s1 = 9)
    /\ (s2 = 15 \/ s2 = 17) /\ (s3 = 31 \/ s3 = 33) /\ c_state c' = Init /\ c_lease c' = None.
Proof.
  apply (exchange_gives_up Demo.requesting).
  - split; vm_compute; try done.
  - right. vm_compute. reflexivity.
  - vm_compute. reflexivity.
Defined.

Lemma offer_request_ack_witness :
  let c1 := fst (start Demo.client 77) in
  let c2 := fst (poll c1 (Datagram (Message_encode Demo.offer))) in
  exists req r,
    snd (poll c1 (Datagram (Message_encode Demo.offer))) = [Broadcast req; SetTimer Retransmit (backoff c2)]
    /\ Message_decode req = Ok r /\ op r = BOOTREQUEST /\ xid r = 77 /\ message_type r = Some Request
    /\ get r OPT_REQUESTED_IP = Some (RequestedIp 3232235801) /\ server_id r = Some 3232235777
    /\ ciaddr r = UNSPECIFIED /\ flags r = FLAG_BROADCAST
    /\ c_state (fst (poll c2 (Datagram (Message_encode Demo.ack)))) = Bound
    /\ Configured Demo.lease ∈ snd (poll c2 (Datagram (Message_encode Demo.ack))).
Proof.
  apply (offer_request_ack Demo.client 77 Demo.offer 3232235777 Demo.ack Demo.lease).
  - split; [reflexivity|]. split; [apply (bool_decide_unpack _); vm_compute; exact I|].
    split; [vm_compute; discriminate|exact I].
  - split; [apply (bool_decide_unpack _); vm_compute; exact I|]. vm_compute. done.
  - reflexivity.
  - apply (bool_decide_unpack _). vm_compute. exact I.
  - split; [apply (bool_decide_unpack _); vm_compute; exact I|]. vm_compute. done.
  - vm_compute. reflexivity.
Defined.
