(* ===== verification/Conn.v ===== *)
(** * The connection: [caw-core], conn.rs and auth.rs

    [Connection::poll] consumes one input and returns the actions for the
    daemon.  Handlers are written in the [act] monad of [Effects]: the state is
    the [Connection], the output the [Vec<Action>], and a failed [expect] is a
    panic.  The 4-way handshake is [FourWay.poll]; SAE and 802.1X are reached
    through the trait [PmkProvider], whose class is the interface.  The entropy
    one [poll] may draw for a handshake is the parameter [nonce]. *)
From S2P Require Import Prelude Bytes Effects Text Dot11 Crypto Profile Policy.
From S2P Require Nl80211 Eapol FourWay DhcpClient.

#[local] Existing Instances Eapol.Error_eq_dec.

Definition SCAN_TIMEOUT_MS : Z := 10000.
Definition AUTH_TIMEOUT_MS : Z := 3000.
Definition ASSOC_TIMEOUT_MS : Z := 8000.
Definition BACKOFF_BASE_MS : Z := 1000.
Definition BACKOFF_MAX_MS : Z := 60000.
Definition REASON_LEAVING : Z := 3.
Definition RSNXE_SAE_H2E : bytes := [244; 1; Z.shiftl 1 5].
Definition MGMT_HEADER_LEN : nat := 24.
Definition FC_AUTH : Z := 0xb0.

(** ** Data *)

Inductive State :=
| Idle | Scanning | Authenticating | Associating | Handshaking | Configuring | Connected | Reconnecting.
#[export] Instance State_eq_dec : EqDecision State.
Proof. solve_decision. Defined.

Inductive TimerId := ScanTimeout | AuthTimeout | AssocTimeout | HandshakeRetry | ReconnectBackoff.
#[export] Instance TimerId_eq_dec : EqDecision TimerId.
Proof. solve_decision. Defined.

Record DeviceCaps := { offloads_4way_psk : bool; offloads_4way_1x : bool; offloads_sae : bool }.

Record Device := { ifindex : Z; mac : bytes; caps : DeviceCaps }.

(** [Failure::Handshake(String)] holds the text of an error; here it holds the
    error whose text it is. *)
Inductive Failure :=
| NotFound
| NoKnownNetwork
| Downgrade (recorded offered : Security)
| UnsupportedSecurity
| NoCredential
| Refused (code : Z)
| FAssocTimeout
| WrongCredential
| FRsnMismatch
| FAuthFailed
| Handshake (why : Crypto.Error + Eapol.Error)
| Disconnected (reason : Z) (by_ap : bool)
| Dhcp
| EnterpriseErr (why : string)
| Internal (why : string).
#[export] Instance Failure_eq_dec : EqDecision Failure.
Proof. solve_decision. Defined.

Definition is_terminal (f : Failure) : bool :=
  match f with
  | Downgrade _ _ | UnsupportedSecurity | NoCredential | WrongCredential | FRsnMismatch
  | FAuthFailed | EnterpriseErr _ | Internal _ => true
  | _ => false
  end.

Definition from_crypto (e : Crypto.Error) : Failure :=
  match e with
  | Crypto.MicMismatch | Crypto.KeyUnwrapFailed => WrongCredential
  | Crypto.AuthFailed => FAuthFailed
  | other => Handshake (inl other)
  end.

Definition from_eapol (e : Eapol.Error) : Failure :=
  match e with
  | Eapol.ErrCrypto inner => from_crypto inner
  | Eapol.RsnMismatch => FRsnMismatch
  | Eapol.Rejected | Eapol.PrematureSuccess => FAuthFailed
  | other => Handshake (inr other)
  end.

Inductive Offload := OffPmk (pmk : bytes) | OffSaePassword (secret : bytes).
#[export] Instance Offload_eq_dec : EqDecision Offload.
Proof. solve_decision. Defined.

Record Negotiated := {
  n_akm : Akm;
  n_pairwise : Cipher;
  n_group : Cipher;
  n_group_mgmt : option Cipher;
  n_mfp_capable : bool;
  n_mfp_required : bool;
  n_beacon_ie : bytes;
}.

Record Choice := {
  ch_bssid : bytes;
  ch_freq_mhz : Z;
  ch_signal_dbm : Z;
  ch_advertised : Security;
  ch_negotiated : Security;
  ch_rsn : option Negotiated;
  ch_roaming : bool;
}.

Record Target := { t_ssid : bytes; t_secret : option bytes; t_retry : bool; t_save : bool }.

Record AuthRequest := {
  ar_ifindex : Z; ar_ssid : bytes; ar_bssid : bytes; ar_freq_mhz : Z; ar_auth_type : Z; ar_data : bytes;
}.

Record AssocRequest := {
  as_ifindex : Z;
  as_ssid : bytes;
  as_bssid : bytes;
  as_freq_mhz : Z;
  as_auth_type : Z;
  as_wpa_versions : Z;
  as_pairwise_ciphers : list Z;
  as_group_cipher : option Z;
  as_akms : list Z;
  as_mfp : option Z;
  as_ies : bytes;
  as_offload : option Offload;
  as_authenticated : bool;
}.

Record PairwiseKey := { pk_peer : bytes; pk_cipher : Z; pk_ptk : Ptk }.
Record GroupKey := { gk_cipher : Z; gk_gtk : Eapol.Gtk }.
Record KeyInstall := { ki_pairwise_key : option PairwiseKey; ki_group_key : GroupKey }.

Inductive Command := Connect (ssid : bytes) | Autoconnect | Secret (value : bytes) | CmdDisconnect.
Inductive LeaseEvent := Acquired (l : DhcpClient.Lease) | Lost (r : DhcpClient.Reason) | LeaseFailed.

Inductive Input :=
| ICommand (c : Command)
| Wireless (e : Nl80211.Event)
| ScanResults (scan : list Nl80211.Bss)
| IEapol (frame : bytes)
| ILease (e : LeaseEvent)
| ITimer (id : TimerId).

Inductive Action :=
| TriggerScan (ifindex : Z)
| FetchScanResults (ifindex : Z)
| Associate (r : AssocRequest)
| Authenticate (r : AuthRequest)
| ADisconnect (reason : Z)
| SendEapol (frame : bytes)
| InstallKeys (k : KeyInstall)
| StartDhcp
| ApplyLease (l : DhcpClient.Lease)
| SetTimer (id : TimerId) (millis : Z)
| ClearTimer (id : TimerId)
| RequestSecret (prompt : bytes)
| SaveProfile (p : Profile)
| Notify (s : State)
| AFailed (f : Failure).

(** [backoff_ms] *)
Definition backoff_ms (attempt : Z) : Z :=
  let shift := Z.min (sat_sub attempt 1) 31 in
  Z.min (sat_mul 64 BACKOFF_BASE_MS (Z.shiftl 1 (Z.min shift 20))) BACKOFF_MAX_MS.

(** [timer_of] *)
Definition timer_of (s : State) : option TimerId :=
  match s with
  | Scanning => Some ScanTimeout
  | Authenticating => Some AuthTimeout
  | Associating => Some AssocTimeout
  | Handshaking | Connected => Some HandshakeRetry
  | Reconnecting => Some ReconnectBackoff
  | Idle | Configuring => None
  end.

(** [negotiate] *)
Definition negotiate (enterprise : bool) (rsn : RsnIe) (credential : option Credential)
  : exec Failure Negotiated :=
  akm ← ok_or UnsupportedSecurity (choose_akm enterprise rsn credential);
  pairwise ← ok_or UnsupportedSecurity (choose_pairwise rsn);
  let mfp_required := rsn_mfp_required rsn || is_sae akm in
  Ok {| n_akm := akm; n_pairwise := pairwise; n_group := rsn_group_cipher rsn;
        n_group_mgmt := rsn_group_mgmt_cipher rsn;
        n_mfp_capable := rsn_mfp_capable rsn || mfp_required; n_mfp_required := mfp_required;
        n_beacon_ie := rsn_raw rsn |}.

(** [auth_context] *)
Definition auth_context (ssid : bytes) (choice : Choice) (own_mac : bytes) : AuthContext :=
  {| ctx_ssid := ssid; ctx_bssid := ch_bssid choice; ctx_own_mac := own_mac;
     ctx_akm := from_option n_akm Psk (ch_rsn choice) |}.

(** What the build provides beyond the default crate. *)
Class Build (SaeP DotP : Type) := {
  feature_enterprise : bool;
  (** [SaeProvider::new], [SaeProvider::pmkid] *)
  sae_new : bytes -> SaeP;
  sae_pmkid : SaeP -> option bytes;
  (** [enterprise]: reads the trust anchors and builds the 802.1X provider, or
      says why it cannot. *)
  enterprise_new : bytes -> option bytes -> option bytes -> EnterpriseMethod -> option bytes
                   -> exec Failure DotP;
}.

(** ** The machine *)
Section conn.
Context `{CryptoPrims} {SaeP DotP : Type} `{PmkProvider SaeP} `{PmkProvider DotP} {build : Build SaeP DotP}.

Inductive Auth :=
| AuthOpen
| Offloaded (o : Offload)
| AuthPreAssoc (p : SaeP)
| AuthPostAssoc (p : DotP)
| Ready (pmk : Pmk)
| Running.

Record Session := {
  se_choice : Choice;
  se_auth : Auth;
  se_pmkid : option bytes;
  se_assoc_ie : bytes;
  se_handshake : option FourWay.FourWay;
}.

Record Connection := {
  device : Device;
  profiles : list Profile;
  state : State;
  target : option Target;
  session : option Session;
  attempts : Z;
  armed : option TimerId;
  pending : option Nl80211.Bss;
}.

Definition Connection_new (d : Device) (ps : list Profile) : Connection :=
  {| device := d; profiles := ps; state := Idle; target := None; session := None; attempts := 0;
     armed := None; pending := None |}.

(** *** One field at a time *)
Definition set_profiles (v : list Profile) (c : Connection) : Connection :=
  {| device := device c; profiles := v; state := state c; target := target c; session := session c;
     attempts := attempts c; armed := armed c; pending := pending c |}.
Definition set_state (v : State) (c : Connection) : Connection :=
  {| device := device c; profiles := profiles c; state := v; target := target c; session := session c;
     attempts := attempts c; armed := armed c; pending := pending c |}.
Definition set_target (v : option Target) (c : Connection) : Connection :=
  {| device := device c; profiles := profiles c; state := state c; target := v; session := session c;
     attempts := attempts c; armed := armed c; pending := pending c |}.
Definition set_session (v : option Session) (c : Connection) : Connection :=
  {| device := device c; profiles := profiles c; state := state c; target := target c; session := v;
     attempts := attempts c; armed := armed c; pending := pending c |}.
Definition set_attempts (v : Z) (c : Connection) : Connection :=
  {| device := device c; profiles := profiles c; state := state c; target := target c;
     session := session c; attempts := v; armed := armed c; pending := pending c |}.
Definition set_armed (v : option TimerId) (c : Connection) : Connection :=
  {| device := device c; profiles := profiles c; state := state c; target := target c;
     session := session c; attempts := attempts c; armed := v; pending := pending c |}.
Definition set_pending (v : option Nl80211.Bss) (c : Connection) : Connection :=
  {| device := device c; profiles := profiles c; state := state c; target := target c;
     session := session c; attempts := attempts c; armed := armed c; pending := v |}.

Definition set_auth (a : Auth) (s : Session) : Session :=
  {| se_choice := se_choice s; se_auth := a; se_pmkid := se_pmkid s; se_assoc_ie := se_assoc_ie s;
     se_handshake := se_handshake s |}.
Definition set_pmkid (p : option bytes) (s : Session) : Session :=
  {| se_choice := se_choice s; se_auth := se_auth s; se_pmkid := p; se_assoc_ie := se_assoc_ie s;
     se_handshake := se_handshake s |}.
Definition set_assoc_ie (ie : bytes) (s : Session) : Session :=
  {| se_choice := se_choice s; se_auth := se_auth s; se_pmkid := se_pmkid s; se_assoc_ie := ie;
     se_handshake := se_handshake s |}.
Definition set_handshake (h : option FourWay.FourWay) (s : Session) : Session :=
  {| se_choice := se_choice s; se_auth := se_auth s; se_pmkid := se_pmkid s;
     se_assoc_ie := se_assoc_ie s; se_handshake := h |}.
Definition set_signal (dbm : Z) (s : Session) : Session :=
  let ch := se_choice s in
  {| se_choice := {| ch_bssid := ch_bssid ch; ch_freq_mhz := ch_freq_mhz ch; ch_signal_dbm := dbm;
                     ch_advertised := ch_advertised ch; ch_negotiated := ch_negotiated ch;
                     ch_rsn := ch_rsn ch; ch_roaming := ch_roaming ch |};
     se_auth := se_auth s; se_pmkid := se_pmkid s; se_assoc_ie := se_assoc_ie s;
     se_handshake := se_handshake s |}.

(** *** Accessors and the profile store *)
Definition conn_ssid (c : Connection) : option bytes := t_ssid <$> target c.
Definition conn_bssid (c : Connection) : option bytes := (fun s => ch_bssid (se_choice s)) <$> session c.
Definition conn_security (c : Connection) : option Security :=
  (fun s => ch_negotiated (se_choice s)) <$> session c.

Definition insert_profile (p : Profile) (c : Connection) : Connection :=
  let target := match target c with
                | Some t => Some (if bool_decide (t_ssid t = p_ssid p)
                                  then {| t_ssid := t_ssid t; t_secret := t_secret t;
                                          t_retry := p_autoconnect p; t_save := t_save t |}
                                  else t)
                | None => None
                end in
  set_profiles (filter (fun q => p_ssid q <> p_ssid p) (profiles c) ++ [p]) (set_target target c).

Definition forget_profile (ssid : bytes) (c : Connection) : Connection :=
  set_profiles (filter (fun q => p_ssid q <> ssid) (profiles c)) c.

Definition associated (c : Connection) : bool :=
  match state c with Associating | Handshaking | Configuring | Connected => true | _ => false end.

Definition ssid_bytes (c : Connection) : bytes := from_option t_ssid [] (target c).

Definition profile (c : Connection) : option Profile :=
  t ← target c; find_first (fun p => bool_decide (p_ssid p = t_ssid t)) (profiles c).

Definition credential (c : Connection) (open : bool) : option Credential :=
  if open then Some CredNone
  else match profile c with
       | Some p => Some (p_credential p)
       | None => t ← target c; Passphrase <$> t_secret t
       end.

(** [Connection::evaluate] *)
Definition evaluate (c : Connection) (bss : Nl80211.Bss) (cred : option Credential) (roaming : bool)
  : exec Failure Choice :=
  rsn ← match Nl80211.bss_rsn bss with
        | None => if bool_decide (Nl80211.bss_security bss = Open) then Ok None
                  else Err UnsupportedSecurity
        | Some rsn => Some <$> negotiate (feature_enterprise (Build := build)) rsn cred
        end;
  let negotiated := match rsn with
                    | Some n => negotiated_security (n_akm n) (n_mfp_required n)
                    | None => Open
                    end in
  _ ← match profile c with
      | Some p => if accepts p negotiated then Ok tt
                  else Err (Downgrade (p_min_security p) negotiated)
      | None => Ok tt
      end;
  Ok {| ch_bssid := Nl80211.bss_bssid bss; ch_freq_mhz := Nl80211.bss_freq_mhz bss;
        ch_signal_dbm := Nl80211.bss_signal_dbm bss; ch_advertised := Nl80211.bss_security bss;
        ch_negotiated := negotiated; ch_rsn := rsn; ch_roaming := roaming |}.

(** auth.rs: [assemble] *)
Definition assemble (akm : Akm) (cred : Credential) (dc : DeviceCaps) (ctx : AuthContext)
  : exec Failure Auth :=
  match cred with
  | CredNone => Ok AuthOpen
  | Passphrase secret =>
      if is_sae akm then
        if offloads_sae dc then Ok (Offloaded (OffSaePassword secret))
        else Ok (AuthPreAssoc (sae_new secret))
      else if is_psk akm then
        step ← map_err from_crypto (snd (pp_start {| psk_passphrase := secret |} ctx));
        match step with
        | Done pmk => Ok (if offloads_4way_psk dc then Offloaded (OffPmk pmk) else Ready pmk)
        | _ => Err (Internal "a local provider asked to send or wait")
        end
      else Err UnsupportedSecurity
  | Enterprise identity anonymous_identity server_name method ca_cert =>
      if is_enterprise akm then
        provider ← enterprise_new identity anonymous_identity server_name method ca_cert;
        match pp_stage provider with
        | PostAssoc => Ok (AuthPostAssoc provider)
        | _ => Err (Internal "provider runs at a stage this crate does not stage here")
        end
      else Err UnsupportedSecurity
  end.

(** *** Transitions *)
Abbreviation handler := (act Connection Action).

Definition arm (id : TimerId) (millis : Z) : handler unit :=
  _ ← modify (set_armed (Some id)); emit (SetTimer id millis).

Definition disarm : handler unit :=
  c ← get_state;
  with_some (armed c) (fun id => _ ← modify (set_armed None); emit (ClearTimer id)).

Definition enter (s : State) : handler unit :=
  c ← get_state;
  _ ← when (is_some (armed c) && negb (bool_decide (armed c = timer_of s))) disarm;
  _ ← modify (set_state s);
  emit (Notify s).

Definition go_idle : handler unit :=
  _ ← disarm;
  _ ← modify (fun c => set_attempts 0 (set_pending None (set_session None (set_target None (set_state Idle c)))));
  emit (Notify Idle).

Definition is_disconnected (f : Failure) : bool :=
  match f with Disconnected _ _ => true | _ => false end.

Definition fail (f : Failure) : handler unit :=
  c ← get_state;
  _ ← when (associated c && negb (is_disconnected f)) (emit (ADisconnect REASON_LEAVING));
  _ ← modify (fun c => set_pending None (set_session None c));
  if negb (is_terminal f) && match target c with Some t => t_retry t | None => false end then
    _ ← modify (fun c => set_attempts (wrap 32 (attempts c + 1)) c);
    _ ← enter Reconnecting;
    c ← get_state;
    arm ReconnectBackoff (backoff_ms (attempts c))
  else
    _ ← disarm;
    _ ← modify (fun c => set_attempts 0 (set_target None (set_state Idle c)));
    emit (AFailed f).

Definition start_scan : handler unit :=
  _ ← enter Scanning;
  c ← get_state;
  _ ← emit (TriggerScan (ifindex (device c)));
  arm ScanTimeout SCAN_TIMEOUT_MS.

(** A Rust [Result] or value that the source unwraps with [expect]. *)
Definition unwrap {E A} (m : exec E A) : handler A := expect_act (to_option m).

(** *** Association *)

Definition station_rsn (n : Negotiated) (pmkid : option bytes) : StationRsn :=
  {| st_group := n_group n; st_pairwise := n_pairwise n; st_akm := n_akm n;
     st_mfp_capable := n_mfp_capable n; st_mfp_required := n_mfp_required n; st_pmkid := pmkid;
     st_group_mgmt := if n_mfp_capable n then n_group_mgmt n else None |}.

Definition take_offload (a : Auth) : option Offload * Auth :=
  match a with Offloaded o => (Some o, AuthOpen) | other => (None, other) end.

Definition associate : handler unit :=
  c ← get_state;
  t ← expect_act (target c);
  s ← expect_act (session c);
  let '(offload, auth) := take_offload (se_auth s) in
  let s := set_auth auth s in
  let request := {| as_ifindex := ifindex (device c); as_ssid := t_ssid t;
                    as_bssid := ch_bssid (se_choice s); as_freq_mhz := ch_freq_mhz (se_choice s);
                    as_auth_type := Nl80211.NL80211_AUTHTYPE_OPEN_SYSTEM; as_wpa_versions := 0;
                    as_pairwise_ciphers := []; as_group_cipher := None; as_akms := []; as_mfp := None;
                    as_ies := []; as_offload := offload; as_authenticated := false |} in
  '(request, s) ←
    match ch_rsn (se_choice s) with
    | None => mret (request, s)
    | Some n =>
        element ← unwrap (E := Failure) (StationRsn_encode (station_rsn n (se_pmkid s)));
        let here := is_sae (n_akm n) && is_none offload in
        let element := element ++ (if here then RSNXE_SAE_H2E else []) in
        mret ({| as_ifindex := as_ifindex request; as_ssid := as_ssid request;
                 as_bssid := as_bssid request; as_freq_mhz := as_freq_mhz request;
                 as_auth_type := if is_sae (n_akm n) then Nl80211.NL80211_AUTHTYPE_SAE
                                 else Nl80211.NL80211_AUTHTYPE_OPEN_SYSTEM;
                 as_wpa_versions := if is_sae (n_akm n)
                                    then Z.lor Nl80211.NL80211_WPA_VERSION_2 Nl80211.NL80211_WPA_VERSION_3
                                    else Nl80211.NL80211_WPA_VERSION_2;
                 as_pairwise_ciphers := option_list (Nl80211.cipher_suite (n_pairwise n));
                 as_group_cipher := Nl80211.cipher_suite (n_group n);
                 as_akms := [Nl80211.akm_suite (n_akm n)];
                 as_mfp := Some (if n_mfp_required n then Nl80211.NL80211_MFP_REQUIRED
                                 else if n_mfp_capable n then Nl80211.NL80211_MFP_OPTIONAL
                                 else Nl80211.NL80211_MFP_NO);
                 as_ies := element; as_offload := offload; as_authenticated := here |},
              set_assoc_ie element s)
    end;
  _ ← modify (set_session (Some s));
  _ ← enter Associating;
  _ ← emit (Associate request);
  arm AssocTimeout ASSOC_TIMEOUT_MS.

(** *** Pre-association authentication (SAE) *)

Definition auth_request (c : Connection) (frame : bytes) : option AuthRequest :=
  t ← target c;
  s ← session c;
  data ← get_from 2 frame;
  Some {| ar_ifindex := ifindex (device c); ar_ssid := t_ssid t; ar_bssid := ch_bssid (se_choice s);
          ar_freq_mhz := ch_freq_mhz (se_choice s); ar_auth_type := Nl80211.NL80211_AUTHTYPE_SAE;
          ar_data := data |}.

Definition auth_body (c : Connection) (frame : bytes) : option bytes :=
  s ← session c;
  if bool_decide (length frame < MGMT_HEADER_LEN)%nat || negb (bool_decide (frame !! 0%nat = Some FC_AUTH))
  then None
  else if negb (bool_decide (take 6 (drop 10 frame) = ch_bssid (se_choice s))) then None
  else Some (drop MGMT_HEADER_LEN frame).

Inductive SaeEvent := SaeStart | SaeFrame (f : bytes) | SaeTimeout.

Definition on_sae_step (step : exec Crypto.Error Step) : handler unit :=
  match step with
  | Panic => panics
  | Ok (Send frame) =>
      c ← get_state;
      match auth_request c frame with
      | None => fail (Internal "SAE produced a frame with no body")
      | Some request => _ ← emit (Authenticate request); arm AuthTimeout AUTH_TIMEOUT_MS
      end
  | Ok Wait => mret tt
  | Ok (Done pmk) =>
      c ← get_state;
      s ← expect_act (session c);
      let s := match se_auth s with AuthPreAssoc p => set_pmkid (sae_pmkid p) s | _ => s end in
      _ ← modify (set_session (Some (set_auth (Ready pmk) s)));
      associate
  | Err e => fail (from_crypto e)
  end.

Definition drive_sae (event : SaeEvent) : handler unit :=
  c ← get_state;
  with_some (target c) (fun t =>
  with_some (session c) (fun s =>
  match se_auth s with
  | AuthPreAssoc provider =>
      let ctx := auth_context (t_ssid t) (se_choice s) (mac (device c)) in
      let '(provider, step) := match event with
                               | SaeStart => pp_start provider ctx
                               | SaeFrame f => pp_on_frame provider ctx f
                               | SaeTimeout => pp_on_timeout provider ctx
                               end in
      _ ← modify (set_session (Some (set_auth (AuthPreAssoc provider) s)));
      on_sae_step step
  | _ => mret tt
  end)).

Definition start_sae : handler unit := _ ← enter Authenticating; drive_sae SaeStart.

(** *** Planning *)

Definition secret_prompt (ssid : bytes) : bytes := ascii_of "Passphrase for " ++ ssid_display ssid.

Definition is_pre_assoc (a : Auth) : bool := match a with AuthPreAssoc _ => true | _ => false end.

Definition plan (bss : Nl80211.Bss) (roaming : bool) : handler unit :=
  c ← get_state;
  let cred := credential c (is_none (Nl80211.bss_rsn bss)) in
  match evaluate c bss cred roaming with
  | Panic => panics
  | Err failure => when (negb roaming) (fail failure)
  | Ok choice =>
      match cred with
      | None =>
          if match ch_rsn choice with Some n => is_enterprise (n_akm n) | None => false end
          then fail NoCredential
          else
            _ ← disarm;
            _ ← emit (RequestSecret (secret_prompt (ssid_bytes c)));
            modify (set_pending (Some bss))
      | Some cred =>
          let ctx := auth_context (ssid_bytes c) choice (mac (device c)) in
          match match ch_rsn choice with
                | None => Ok AuthOpen
                | Some _ => assemble (ctx_akm ctx) cred (caps (device c)) ctx
                end with
          | Panic => panics
          | Err failure => fail failure
          | Ok auth =>
              if roaming && is_pre_assoc auth then mret tt
              else
                _ ← modify (set_session (Some {| se_choice := choice; se_auth := auth; se_pmkid := None;
                                                 se_assoc_ie := []; se_handshake := None |}));
                if is_pre_assoc auth then start_sae else associate
          end
      end
  end.

(** *** Scanning and roaming *)

Definition with_bssid (bssid : bytes) (scan : list Nl80211.Bss) : option Nl80211.Bss :=
  find_first (fun b => bool_decide (Nl80211.bss_bssid b = bssid)) scan.

Definition select (scan : list Nl80211.Bss) : handler unit :=
  c ← get_state;
  match target c with
  | Some t =>
      match best_bss scan (t_ssid t) with
      | None => fail NotFound
      | Some b => bss ← expect_act (with_bssid (Nl80211.bss_bssid b) scan); plan bss false
      end
  | None =>
      match best_known scan (profiles c) with
      | None => fail NoKnownNetwork
      | Some (b, p) =>
          _ ← modify (set_target (Some {| t_ssid := p_ssid p; t_secret := None; t_retry := true;
                                          t_save := false |}));
          bss ← expect_act (with_bssid (Nl80211.bss_bssid b) scan); plan bss false
      end
  end.

Definition consider_roam (scan : list Nl80211.Bss) : handler unit :=
  c ← get_state;
  with_some (session c) (fun s =>
  with_some (target c) (fun t =>
    let current := ch_bssid (se_choice s) in
    let signal := from_option Nl80211.bss_signal_dbm (ch_signal_dbm (se_choice s)) (with_bssid current scan) in
    match roam_target scan (t_ssid t) current signal with
    | None => modify (set_session (Some (set_signal signal s)))
    | Some b => better ← expect_act (with_bssid (Nl80211.bss_bssid b) scan); plan better true
    end)).

Definition on_scan_results (scan : list Nl80211.Bss) : handler unit :=
  c ← get_state;
  match state c with
  | Scanning => select scan
  | Connected => consider_roam scan
  | _ => mret tt
  end.

(** *** Address configuration *)

Definition configured : handler unit :=
  c ← get_state;
  if match session c with Some s => ch_roaming (se_choice s) | None => false end
  then _ ← enter Connected; modify (set_attempts 0)
  else _ ← enter Configuring; emit StartDhcp.

Definition save_profile : handler unit :=
  c ← get_state;
  with_some (target c) (fun t =>
    if negb (t_save t) then mret tt else
    with_some (session c) (fun s =>
    with_some (match ch_rsn (se_choice s) with
               | Some _ => Passphrase <$> t_secret t
               | None => Some CredNone
               end) (fun cred =>
      let p := Profile_new (t_ssid t) (ch_advertised (se_choice s)) cred in
      let p := {| p_ssid := p_ssid p; p_security := p_security p; p_credential := p_credential p;
                  p_autoconnect := true; p_min_security := p_min_security p |} in
      _ ← modify (set_target (Some {| t_ssid := t_ssid t; t_secret := t_secret t;
                                      t_retry := t_retry t; t_save := false |}));
      _ ← modify (insert_profile p);
      emit (SaveProfile p)))).

Definition on_lease (e : LeaseEvent) : handler unit :=
  match e with
  | Acquired l =>
      _ ← emit (ApplyLease l);
      _ ← enter Connected;
      _ ← modify (set_attempts 0);
      save_profile
  | Lost _ =>
      c ← get_state;
      match state c with
      | Connected => _ ← enter Configuring; emit StartDhcp
      | _ => mret tt
      end
  | LeaseFailed => fail Dhcp
  end.

(** *** The 4-way handshake *)

Definition group_suite (c : Connection) : Z :=
  default Nl80211.WLAN_CIPHER_SUITE_CCMP
    (s ← session c; n ← ch_rsn (se_choice s); Nl80211.cipher_suite (n_group n)).

Definition pairwise_install (c : Connection) (keys : FourWay.Keys) : handler KeyInstall :=
  s ← expect_act (session c);
  n ← expect_act (ch_rsn (se_choice s));
  mret {| ki_pairwise_key :=
            Some {| pk_peer := ch_bssid (se_choice s);
                    pk_cipher := default Nl80211.WLAN_CIPHER_SUITE_CCMP (Nl80211.cipher_suite (n_pairwise n));
                    pk_ptk := FourWay.keys_ptk keys |};
          ki_group_key := {| gk_cipher := group_suite c; gk_gtk := FourWay.keys_gtk keys |} |}.

Definition handshake_action (a : FourWay.Action) : handler unit :=
  match a with
  | FourWay.Send frame => emit (SendEapol frame)
  | FourWay.ArmTimer ms => arm HandshakeRetry ms
  | FourWay.DisarmTimer => disarm
  | FourWay.Complete keys =>
      c ← get_state; k ← pairwise_install c keys; emit (InstallKeys k)
  | FourWay.NewGtk gtk =>
      c ← get_state;
      emit (InstallKeys {| ki_pairwise_key := None;
                           ki_group_key := {| gk_cipher := group_suite c; gk_gtk := gtk |} |})
  end.

Definition is_complete (a : FourWay.Action) : bool :=
  match a with FourWay.Complete _ => true | _ => false end.

Definition on_handshake_actions (result : exec Eapol.Error (list FourWay.Action)) : handler unit :=
  match result with
  | Panic => panics
  | Err e => fail (from_eapol e)
  | Ok actions => _ ← for_each actions handshake_action; when (existsb is_complete actions) configured
  end.

Definition poll_handshake (i : FourWay.Input) : handler unit :=
  c ← get_state;
  with_some (session c) (fun s =>
  with_some (se_handshake s) (fun h =>
    let '(h, result) := FourWay.poll h i in
    _ ← modify (set_session (Some (set_handshake (Some h) s)));
    on_handshake_actions result)).

Definition start_handshake (nonce : exec Eapol.Error bytes) (pmk : Pmk) : handler unit :=
  c ← get_state;
  s ← expect_act (session c);
  n ← expect_act (ch_rsn (se_choice s));
  let config := {| FourWay.cfg_akm := n_akm n; FourWay.cfg_own_mac := mac (device c);
                   FourWay.cfg_bssid := ch_bssid (se_choice s);
                   FourWay.cfg_assoc_rsn_ie := se_assoc_ie s;
                   FourWay.cfg_beacon_rsn_ie := n_beacon_ie n |} in
  match FourWay.new pmk config nonce with
  | Panic => panics
  | Err e => fail (from_eapol e)
  | Ok h => _ ← modify (set_session (Some (set_handshake (Some h) s))); enter Handshaking
  end.

(** *** Post-association authentication (802.1X) *)

Definition drive_dot1x (nonce : exec Eapol.Error bytes) (frame : option bytes) : handler unit :=
  c ← get_state;
  with_some (target c) (fun t =>
  with_some (session c) (fun s =>
  match se_auth s with
  | AuthPostAssoc provider =>
      let ctx := auth_context (t_ssid t) (se_choice s) (mac (device c)) in
      let '(provider, step) := match frame with
                               | Some f => pp_on_frame provider ctx f
                               | None => pp_start provider ctx
                               end in
      _ ← modify (set_session (Some (set_auth (AuthPostAssoc provider) s)));
      match step with
      | Panic => panics
      | Ok (Send frame) => emit (SendEapol frame)
      | Ok Wait => mret tt
      | Ok (Done pmk) =>
          _ ← modify (set_session (Some (set_auth Running s)));
          start_handshake nonce pmk
      | Err e => fail (from_crypto e)
      end
  | _ => mret tt
  end)).

Definition on_associated (nonce : exec Eapol.Error bytes) : handler unit :=
  c ← get_state;
  with_some (session c) (fun s =>
    match se_auth s with
    | AuthOpen | Offloaded _ =>
        _ ← modify (set_session (Some (set_auth AuthOpen s))); configured
    | Ready pmk =>
        _ ← modify (set_session (Some (set_auth Running s))); start_handshake nonce pmk
    | AuthPostAssoc _ => _ ← enter Handshaking; drive_dot1x nonce None
    | AuthPreAssoc _ | Running => fail (Internal "associated with no authentication staged")
    end).

Definition on_eapol (nonce : exec Eapol.Error bytes) (frame : bytes) : handler unit :=
  c ← get_state;
  match state c with
  | Handshaking | Connected =>
      match Eapol.Eapol_parse frame with
      | Panic => panics
      | Err _ => mret tt
      | Ok e =>
          match Eapol.eapol_packet_type e with
          | Eapol.PtKey => poll_handshake (FourWay.Frame frame)
          | Eapol.PtEap => drive_dot1x nonce (Some frame)
          | _ => mret tt
          end
      end
  | _ => mret tt
  end.

(** *** Commands, events and timers *)

Definition on_command (cmd : Command) : handler unit :=
  match cmd with
  | Connect ssid =>
      c ← get_state;
      _ ← when (negb (bool_decide (state c = Idle))) (emit (ADisconnect REASON_LEAVING));
      let p := find_first (fun p => bool_decide (p_ssid p = ssid)) (profiles c) in
      _ ← modify (fun c => set_attempts 0 (set_pending None (set_session None (set_target
            (Some {| t_ssid := ssid; t_secret := None;
                     t_retry := from_option p_autoconnect false p; t_save := is_none p |}) c))));
      start_scan
  | Autoconnect =>
      c ← get_state;
      if negb (bool_decide (state c = Idle)) then mret tt else
      _ ← modify (fun c => set_attempts 0 (set_pending None (set_session None (set_target None c))));
      start_scan
  | Secret value =>
      c ← get_state;
      with_some (target c) (fun t =>
        _ ← modify (set_target (Some {| t_ssid := t_ssid t; t_secret := Some value;
                                        t_retry := t_retry t; t_save := t_save t |}));
        with_some (pending c) (fun bss => _ ← modify (set_pending None); plan bss false))
  | CmdDisconnect => _ ← emit (ADisconnect REASON_LEAVING); go_idle
  end.

Definition on_wireless (nonce : exec Eapol.Error bytes) (e : Nl80211.Event) : handler unit :=
  c ← get_state;
  match e with
  | Nl80211.ScanComplete _ _ =>
      match state c with
      | Scanning | Connected => emit (FetchScanResults (ifindex (device c)))
      | _ => mret tt
      end
  | Nl80211.ScanAborted _ _ => match state c with Scanning => fail NotFound | _ => mret tt end
  | Nl80211.Connected _ status =>
      match state c with
      | Associating =>
          match status with
          | Nl80211.Success => on_associated nonce
          | Nl80211.Refused code => fail (Refused code)
          | Nl80211.TimedOut => fail FAssocTimeout
          end
      | _ => mret tt
      end
  | Nl80211.Disconnected reason by_ap =>
      if associated c then fail (Disconnected reason by_ap) else mret tt
  | Nl80211.ExternalAuth _ _ abort =>
      match state c with
      | Authenticating => if abort then fail FAuthFailed else mret tt
      | _ => mret tt
      end
  | Nl80211.Authenticate frame =>
      match state c with
      | Authenticating => with_some (auth_body c frame) (fun body => drive_sae (SaeFrame body))
      | _ => mret tt
      end
  | Nl80211.AuthTimedOut => mret tt
  | Nl80211.Frame _ => mret tt
  end.

Definition on_timer (id : TimerId) : handler unit :=
  c ← get_state;
  match id, state c with
  | ScanTimeout, Scanning => if is_none (pending c) then fail NotFound else mret tt
  | AssocTimeout, Associating => fail FAssocTimeout
  | AuthTimeout, Authenticating => drive_sae SaeTimeout
  | HandshakeRetry, (Handshaking | Connected) => poll_handshake FourWay.Timeout
  | ReconnectBackoff, Reconnecting => start_scan
  | _, _ => mret tt
  end.

Definition on_input (nonce : exec Eapol.Error bytes) (i : Input) : handler unit :=
  match i with
  | ICommand cmd => on_command cmd
  | Wireless e => on_wireless nonce e
  | ScanResults scan => on_scan_results scan
  | IEapol frame => on_eapol nonce frame
  | ILease e => on_lease e
  | ITimer id => on_timer id
  end.

(** [Connection::poll]; [None] is a panic. *)
Definition poll (nonce : exec Eapol.Error bytes) (i : Input) (c : Connection)
  : option (Connection * list Action) :=
  match on_input nonce i c [] with
  | Some (_, c', out) => Some (c', out)
  | None => None
  end.
End conn.
