(* ===== verification/Enterprise.v ===== *)
(** * Building an 802.1X provider: the crate [caw-core], auth.rs ([enterprise])

    What the connection is given for an Enterprise profile: the trust anchor is
    read, the tunnel is configured and one of the three methods is put inside
    an 802.1X provider.  [enterprise_build] is the [Build] the connection asks
    for, so [Conn] runs over the provider modelled in [Dot1x] and [TlsMethods].
    The file system is an argument ([Files]). *)
From stdpp Require Import pretty.
From S2P Require Import Prelude Bytes Text Dot11 Crypto Eapol Calls Eap FourWay Dot1x Pem Mschapv2 Tunnel TlsMethods TlsSafe Profile Conn.

(** [fs::read], and the text of the errors that come from outside the crate. *)
Class Files := {
  read_file : bytes -> exec string bytes;
  errno_text : Z -> string;
}.

(** Octets as text. *)
Definition text_of (b : bytes) : string :=
  String.string_of_list_ascii (map (fun c => Ascii.ascii_of_nat (Z.to_nat c)) b).

(** [impl Display for caw_eapol::Error] *)
Definition eapol_error_text `{Files} (e : Eapol.Error) : string :=
  match e with
  | Malformed => "malformed EAPOL frame"
  | ErrCrypto e => Crypto.Error_to_string e
  | Rejected => "the authenticator rejected this station"
  | ErrIo e => "eapol io: " ++ errno_text e
  | UnsupportedPacketType t => "unsupported EAPOL packet type " ++ pretty t
  | UnsupportedEapCode c => "unsupported EAP code " ++ pretty c
  | UnsupportedDescriptor t => "unsupported EAPOL-Key descriptor type " ++ pretty t
  | UnexpectedMessage => "EAPOL-Key message out of sequence"
  | ReplayedCounter => "replayed EAPOL-Key counter"
  | NonceMismatch => "ANonce changed mid-handshake"
  | RsnMissing => "message 3 carried no RSN element"
  | RsnMismatch => "RSN element does not match the beacon (downgrade attack)"
  | GtkMissing => "no GTK in the key data"
  | ErrTimeout => "handshake timed out"
  | FragmentOutOfOrder => "EAP-TLS fragment out of order"
  | FragmentTooLarge => "EAP-TLS fragment longer than expected"
  | PrematureSuccess => "EAP-Success before the method produced key material"
  | ErrTls e => "tls: " ++ e
  | NoCryptoProvider => "no rustls crypto provider installed (see eap::tls::provider)"
  | CertificateStore e => "CA certificate: " ++ e
  | NoPeer => "no authenticator address learned yet"
  | ShortSend => "short EAPOL send"
  end.

(** [Box<dyn EapMethod>], for the methods there are. *)
Inductive AnyMethod (C : Type) :=
| MPeap (m : TlsMethods.Peap C) | MTtls (m : TlsMethods.Ttls C) | MTls (m : EapTls C).
Arguments MPeap {_}. Arguments MTtls {_}. Arguments MTls {_}.

(** [fn realm_of]: what stands behind the first [@], if it is not empty. *)
Fixpoint split_once (sep : Z) (s : bytes) : option (bytes * bytes) :=
  match s with
  | [] => None
  | c :: s => if c =? sep then Some ([], s) else '(a, b) ← split_once sep s; Some (c :: a, b)
  end.
Definition realm_of (identity : bytes) : option bytes :=
  '(_, realm) ← split_once 64 identity;
  if bool_decide (realm = []) then None else Some realm.

Section enterprise.
Context {C : Type} `{TlsStack C} `{MschapPrims} `{!TlsSetup C} `{Files}.

#[global] Instance AnyMethod_method : EapMethod (AnyMethod C) := {
  type_code m := match m with MPeap m => type_code m | MTtls m => type_code m | MTls m => type_code m end;
  em_on_request d m :=
    match m with
    | MPeap m => let (m, r) := em_on_request d m in (MPeap m, r)
    | MTtls m => let (m, r) := em_on_request d m in (MTtls m, r)
    | MTls m => let (m, r) := em_on_request d m in (MTls m, r)
    end;
  msk m := match m with MPeap m => msk m | MTtls m => msk m | MTls m => msk m end;
}.

Definition set_client_certificate (cert : ClientCertificate) (cfg : TlsConfig C) : TlsConfig C :=
  {| Tunnel.server_name := Tunnel.server_name cfg; ca_certificates := ca_certificates cfg;
     client_certificate := Some cert; crypto_provider := crypto_provider cfg;
     fragment_size := fragment_size cfg;
     danger_accept_any_server_certificate := danger_accept_any_server_certificate cfg |}.

(** [.map_err(|e| Failure::Enterprise(e.to_string()))] *)
Definition or_fail {A} (m : exec Eapol.Error A) : exec Failure A :=
  map_err (fun e => EnterpriseErr (eapol_error_text e)) m.

(** [fs::read(path).map_err(|e| Failure::Enterprise(format!("{}: {e}", ..)))] *)
Definition read_or_fail (path : bytes) : exec Failure bytes :=
  map_err (fun e => EnterpriseErr (text_of path ++ ": " ++ e)) (read_file path).

Definition enterprise (random_nonce : exec Eapol.Error bytes) (identity : bytes)
    (anonymous_identity server_name : option bytes) (method : EnterpriseMethod) (ca_cert : option bytes)
  : exec Failure (Dot1xProvider (AnyMethod C)) :=
  name ← ok_or (EnterpriseErr "no server_name in the profile and no realm in the identity")
           (match server_name with
            | Some name => Some name
            | None => realm_of (default identity anonymous_identity)
            end);
  let config := TlsConfig_new name in
  ca ← ok_or (EnterpriseErr "no ca_cert in the profile") ca_cert;
  pem ← read_or_fail ca;
  config ← or_fail (with_ca_pem pem config);
  method ← match method with
           | Profile.Peap password => MPeap <$> or_fail (Peap_new random_nonce config identity password)
           | Profile.Ttls password => MTtls <$> or_fail (Ttls_new config identity password)
           | Profile.Tls client_cert key =>
               cert ← read_or_fail client_cert;
               key_pem ← read_or_fail key;
               cert ← or_fail (ClientCertificate_from_pem cert key_pem);
               MTls <$> or_fail (EapTls_new (set_client_certificate cert config))
           end;
  let outer := default identity anonymous_identity in
  Ok (Dot1x_new outer method).

(** The [enterprise] build: SAE is whatever it is, 802.1X is this. *)
Definition enterprise_build {SaeP} (sae_new : bytes -> SaeP) (sae_pmkid : SaeP -> option bytes)
    (random_nonce : exec Eapol.Error bytes) : Build SaeP (Dot1xProvider (AnyMethod C)) := {|
  feature_enterprise := true;
  Conn.sae_new := sae_new;
  Conn.sae_pmkid := sae_pmkid;
  enterprise_new := enterprise random_nonce;
|}.

(** ** Properties *)

Definition tunnel_of (m : AnyMethod C) : Tunnel C :=
  match m with MPeap m => pe_tunnel m | MTtls m => tt_tunnel m | MTls m => et_tunnel m end.

Lemma certificates_some pem certs : certificates pem = Ok certs -> certs <> [].
Proof. unfold certificates. intros Hc. inv_ok. case_bool_decide; [done|]. by injection Hc as <-. Qed.

(** C33. An Enterprise provider exists only with a server name and a trust
    anchor that was read from the profile's file: its connection checks the
    server against every certificate of that file, whatever the method.  The
    name is the profile's; without one it is the realm, not empty, of what is said
    before the tunnel stands: of the anonymous identity when there is one, and
    of the identity otherwise.  (The profile's documentation says the realm of
    the identity; where the two realms differ, the code checks the one that is
    said in the clear.) *)
Theorem enterprise_is_anchored nonce identity anonymous server_name method ca_cert dx :
  enterprise nonce identity anonymous server_name method ca_cert = Ok dx ->
  Dot1x.identity dx = default identity anonymous /\ dx_state dx = Dot1x.Running
  /\ exists name ca pem certs versions config,
      match server_name with
      | Some n => name = n
      | None => realm_of (default identity anonymous) = Some name /\ name <> []
      end
      /\ ca_cert = Some ca /\ read_file ca = Ok pem /\ certificates pem = Ok certs /\ certs <> []
      /\ (config = with_no_client_auth versions (RootCertificates certs)
          \/ exists cert, with_client_auth_cert versions (RootCertificates certs) cert = Ok config)
      /\ connection_new config name = Ok (conn (tunnel_of (Dot1x.method dx))).
Proof.
  unfold enterprise, or_fail, read_or_fail. intros He.
  destruct (match server_name with Some name => Some name | None => _ end) as [name|] eqn:Hn;
    [|discriminate He].
  cbn [ok_or mbind exec_bind] in He. destruct ca_cert as [ca|]; [|discriminate He].
  cbn [ok_or mbind exec_bind] in He. destruct (read_file ca) as [pem| |] eqn:Hr; [|discriminate He..].
  cbn [map_err mbind exec_bind] in He. unfold with_ca_pem in He.
  destruct (certificates pem) as [certs| |] eqn:Hc; [|discriminate He..].
  cbn [map_err mbind exec_bind ca_certificates TlsConfig_new app] in He.
  inv_ok. split; [done|]. split; [done|]. cbn [Dot1x.method Dot1x_new].
  assert (match server_name with
          | Some n => name = n
          | None => realm_of (default identity anonymous) = Some name /\ name <> []
          end) as Hname.
  { destruct server_name; [by injection Hn|]. split; [done|]. unfold realm_of in Hn.
    destruct (split_once 64 _) as [[? realm]|]; [|done]. cbn in Hn. case_bool_decide; [done|].
    by injection Hn as ->. }
  assert (forall cfg b mirror t, Tunnel_build cfg b mirror = Ok t -> Tunnel.server_name cfg = name ->
    ca_certificates cfg = certs -> danger_accept_any_server_certificate cfg = false ->
    exists versions config,
      (config = with_no_client_auth versions (RootCertificates certs)
       \/ exists cert, with_client_auth_cert versions (RootCertificates certs) cert = Ok config)
      /\ connection_new config name = Ok (conn t)) as Hbuild.
  { intros cfg b mirror t Ht <- <- Hd.
    destruct (build_anchored cfg b mirror t Ht Hd) as (_ & provider & versions & config & _ & Hv & Hcn).
    exists versions, config. split; [|done]. destruct (client_certificate cfg); eauto. }
  enough (exists versions config,
      (config = with_no_client_auth versions (RootCertificates certs)
       \/ exists cert, with_client_auth_cert versions (RootCertificates certs) cert = Ok config)
      /\ connection_new config name = Ok (conn (tunnel_of x))) as (versions & config & Hv & Hcn).
  { exists name, ca, pem, certs, versions, config. split_and!; try done. by eapply certificates_some. }
  destruct method as [password|password|client_cert key].
  - apply fmap_ok in Hx as (m & Hx & ->). unfold Peap_new in Hx. inv_ok. eapply Hbuild; [eassumption|done..].
  - apply fmap_ok in Hx as (m & Hx & ->). unfold Ttls_new in Hx. inv_ok. eapply Hbuild; [eassumption|done..].
  - inv_ok. match goal with He : MTls <$> _ = Ok _ |- _ => apply fmap_ok in He as (m & Hm & ->) end.
    unfold EapTls_new in *. inv_ok. eapply Hbuild; [eassumption|done..].
Qed.
End enterprise.

Section enterprise_safe.
Context {C : Type} `{TlsLaws C} `{!TlsSafe C} `{MschapLaws} `{!TlsSetup C} `{!TlsSetupSafe C} `{Files}.

(** Whatever the method, it is safe to run 802.1X over. *)
#[global] Instance AnyMethod_safe : EapMethodSafe (AnyMethod C).
Proof.
  refine {| em_ok m := match m with MPeap m => em_ok m | MTtls m => em_ok m | MTls m => em_ok m end |}.
  intros d [m|m|m] Hok; unfold after; cbn [em_on_request AnyMethod_method];
    pose proof (em_on_request_safe d m Hok) as Hs; unfold after in Hs; by destruct (em_on_request d m).
Defined.

Lemma default_config_fits name : Z.of_nat (fragment_size (TlsConfig_new (C := C) name)) <= MAX_FRAGMENT.
Proof. by vm_compute. Qed.

Lemma tls_config_fragments pem (cfg cfg' : TlsConfig C) :
  with_ca_pem pem cfg = Ok cfg' -> fragment_size cfg' = fragment_size cfg.
Proof. unfold with_ca_pem. intros Hc. by inv_ok. Qed.

(** What [enterprise] returns is in order, given names that fit a packet. *)
Lemma enterprise_ok random_nonce identity anonymous server_name method ca_cert dx :
  enterprise random_nonce identity anonymous server_name method ca_cert = Ok dx ->
  len identity <= MAX_NAME -> len (default identity anonymous) <= MAX_NAME ->
  dx_ok dx.
Proof.
  unfold enterprise, or_fail, read_or_fail. intros He Hid Han.
  inv_ok. split; cbn [Dot1x.identity Dot1x.method Dot1x_new].
  { unfold MAX_NAME, MAX_TYPE_DATA in *. lia. }
  match goal with Hc : with_ca_pem _ _ = Ok ?cfg |- _ =>
    apply tls_config_fragments in Hc as Hf; rename cfg into config end.
  assert (Z.of_nat (fragment_size config) <= MAX_FRAGMENT) as Hfits by (rewrite Hf; apply default_config_fits).
  destruct method as [password|password|client_cert key].
  - match goal with He : MPeap <$> _ = Ok _ |- _ => apply fmap_ok in He as (m & Hm & ->) end.
    unfold Peap_new in Hm. inv_ok. unfold Tunnel_new_tls12, Mschapv2_new in *. inv_ok. split_and!; cbn.
    + by eapply build_ok.
    + split; [done|]. unfold slice in *. inv_ok.
      match goal with Hg : get_range 0 16 _ = Some _ |- _ => exact (get_range_length _ _ _ _ Hg) end.
    + done.
  - match goal with He : MTtls <$> _ = Ok _ |- _ => apply fmap_ok in He as (m & Hm & ->) end.
    unfold Ttls_new, Tunnel_new_tls12 in Hm. inv_ok. by eapply build_ok.
  - inv_ok. match goal with He : MTls <$> _ = Ok _ |- _ => apply fmap_ok in He as (m & Hm & ->) end.
    unfold EapTls_new, Tunnel_new_any_version in Hm. inv_ok. eapply build_ok; [|eassumption]. exact Hfits.
Qed.

(** C11. The whole Enterprise stack never panics: whatever profile the provider
    was built from, with names that fit a packet, and whatever frames and
    timeouts its conversation sees, EAP, the method, MSCHAPv2 inside it and the
    tunnel under it return an answer or an error. *)
Theorem enterprise_never_panics random_nonce identity anonymous server_name method ca_cert dx ins :
  enterprise random_nonce identity anonymous server_name method ca_cert = Ok dx ->
  len identity <= MAX_NAME -> len (default identity anonymous) <= MAX_NAME ->
  Forall no_panic (snd (Dot1x_run ins dx)).
Proof. intros He Hid Han. apply Dot1x_run_sound. by eapply enterprise_ok. Qed.
End enterprise_safe.

(** Without that bound it does: an identity longer than a packet can carry
    panics at the first Identity request. *)
Theorem oversized_identity_panics {M} `{EapMethod M} identity (m : M) id :
  MAX_TYPE_DATA < len identity ->
  snd (Dot1x_input (InFrame (Dot1x.Demo.eap_frame 1 id [eap_type.IDENTITY])) (Dot1x_new identity m)) = Panic.
Proof.
  intros Hl. unfold Dot1x_input, Dot1x_on_frame.
  assert (Dot1x_frame (Dot1x.Demo.eap_frame 1 id [eap_type.IDENTITY]) (Dot1x_new identity m)
    = (p ← lift (EapPacket_response id eap_type.IDENTITY identity); Dot1x_reply id p) (Dot1x_new identity m)) as ->
    by reflexivity.
  unfold lift, mbind, call_bind, EapPacket_response, EapPacket_encode, expect_u16.
  rewrite (proj2 (Z.ltb_ge _ _)); [done|]. unfold MAX_TYPE_DATA, EAP_HDR_LEN, len in *. cbn [length]. lia.
Qed.

(** ** A profile on the demo's connection *)
Module EnterpriseDemo.
#[export] Instance files : Files := {
  read_file _ := Ok (armour "CERTIFICATE" {| ar_noise := []; ar_text := ascii_of "TWFu"; ar_der := [77; 97; 110] |});
  errno_text _ := "";
}.
Definition identity : bytes := ascii_of "user@example.org".
Definition anonymous : bytes := ascii_of "anon@example.org".
End EnterpriseDemo.

Section enterprise_demo.
Import TlsDemo TlsSafeDemo MsDemo PeapDemo EnterpriseDemo.

Lemma enterprise_is_anchored_witness :
  exists dx, enterprise (C := TlsDemo.connection) (Ok (replicate 32 7)) EnterpriseDemo.identity
      (Some anonymous) None (Profile.Peap pass) (Some [99]) = Ok dx
    /\ Dot1x.identity dx = anonymous.
Proof.
  eexists. split; [vm_compute; reflexivity|].
  eapply (enterprise_is_anchored (C := TlsDemo.connection) (Ok (replicate 32 7)) EnterpriseDemo.identity
            (Some anonymous) None (Profile.Peap pass) (Some [99])).
  vm_compute. reflexivity.
Defined.

Lemma enterprise_never_panics_witness :
  exists dx, enterprise (C := TlsDemo.connection) (Ok (replicate 32 7)) EnterpriseDemo.identity
      (Some anonymous) None (Profile.Peap pass) (Some [99]) = Ok dx
    /\ Forall no_panic (snd (Dot1x_run PeapDemo.conversation dx)).
Proof.
  eexists. split; [vm_compute; reflexivity|].
  eapply (enterprise_never_panics (C := TlsDemo.connection) (Ok (replicate 32 7)) EnterpriseDemo.identity
            (Some anonymous) None (Profile.Peap pass) (Some [99])); [vm_compute; reflexivity|..];
    vm_compute; discriminate.
Defined.
End enterprise_demo.
