(* ===== verification/ConnProps.v ===== *)
(** * Properties of the connection

    The invariants of [Conn.poll], proved by weakest preconditions handler by
    handler: no input panics; the state and the timers an observer sees are
    the machine's; every state that waits on the kernel has its timer running;
    an association is only asked for at a security the profile accepts; a
    failure leaves nothing behind; a secured link only carries addresses after
    its pairwise key was installed. *)
From S2P Require Import Prelude Bytes Effects Text Dot11 Crypto Profile Policy.
From S2P Require Nl80211 Eapol FourWay DhcpClient.
From S2P Require Import Conn.

(** What a connection needs from the build. *)
Class BuildSafe {SaeP DotP} (build : Build SaeP DotP) := {
  sae_pmkid_length p k : sae_pmkid (Build := build) p = Some k -> length k = 16%nat;
  enterprise_new_safe i a s m ca : no_panic (enterprise_new (Build := build) i a s m ca);
}.

(** ** What the daemon sees of the actions *)

(** The state the notifications add up to. *)
Definition seen_step (s : State) (a : Action) : State :=
  match a with Notify s => s | AFailed _ => Idle | _ => s end.
Definition seen (s : State) (out : list Action) : State := fold_left seen_step out s.

(** The daemon's timers: arming replaces, clearing removes. *)
Definition timer_step (ts : list TimerId) (a : Action) : list TimerId :=
  match a with
  | SetTimer id _ => id :: filter (fun t => t <> id) ts
  | ClearTimer id => filter (fun t => t <> id) ts
  | _ => ts
  end.
Definition timers (ts : list TimerId) (out : list Action) : list TimerId := fold_left timer_step out ts.

(** Whether a pairwise key was installed since the last association began. *)
Definition keyed_step (k : bool) (a : Action) : bool :=
  match a with
  | Notify Associating => false
  | InstallKeys i => k || is_some (ki_pairwise_key i)
  | _ => k
  end.
Definition keyed (k : bool) (out : list Action) : bool := fold_left keyed_step out k.

(** Delivering an input: a timer that fires is no longer running. *)
Definition fired (i : Input) (ts : list TimerId) : list TimerId :=
  match i with ITimer id => filter (fun t => t <> id) ts | _ => ts end.

(** What the daemon and the entropy source hand over. *)
Definition input_ok (i : Input) : Prop :=
  match i with IEapol f => is_bytes f | _ => True end.
Definition nonce_ok (n : exec Eapol.Error bytes) : Prop :=
  match n with Ok b => length b = 32%nat | Err _ => True | Panic => False end.

Lemma fold_left_snoc {A B} (f : A -> B -> A) l x a : fold_left f (l ++ [x]) a = f (fold_left f l a) x.
Proof. by rewrite fold_left_app. Qed.

Definition offloads (dc : DeviceCaps) : bool := offloads_sae dc || offloads_4way_psk dc.
Definition secured (ch : Choice) : bool := is_some (ch_rsn ch).
Definition choice_ok (ch : Choice) : Prop :=
  ch_negotiated ch = match ch_rsn ch with
                     | Some n => negotiated_security (n_akm n) (n_mfp_required n)
                     | None => Open
                     end.

(** ** The invariant *)
Section invariant.
Context `{CryptoLaws} {SaeP DotP : Type} `{PmkProviderSafe SaeP} `{PmkProviderSafe DotP}
  {build : Build SaeP DotP} `{!BuildSafe build}.

Abbreviation connection := (@Connection SaeP DotP).
Abbreviation session_t := (@Session SaeP DotP).

Record session_ok (dc : DeviceCaps) (s : session_t) : Prop := {
  (** Key material is only ever staged for a secured network. *)
  sok_auth : match se_auth s with AuthOpen | Offloaded _ => True | _ => secured (se_choice s) = true end;
  sok_pmkid k : se_pmkid s = Some k -> length k = 16%nat;
  sok_ie : (length (se_assoc_ie s) <= 260)%nat;
  sok_handshake h : se_handshake s = Some h -> FourWay.wf h /\ secured (se_choice s) = true;
  (** A secured network is left to the device only when the device does it. *)
  sok_offload : secured (se_choice s) = true ->
    match se_auth s with AuthOpen | Offloaded _ => offloads dc = true | _ => True end;
  sok_choice : choice_ok (se_choice s);
  sok_open : secured (se_choice s) = false -> se_assoc_ie s = [];
}.

Definition core (c : connection) : Prop :=
  forall s, session c = Some s -> session_ok (caps (device c)) s /\ is_Some (target c).

Definition floor_ok (c : connection) (s : session_t) : Prop :=
  forall p, profile c = Some p -> accepts p (ch_negotiated (se_choice s)) = true.

(** What each state may rely on: a scan waits for its results, or -- without
    a timer -- for the passphrase that was asked for. *)
Definition progress (ts : list TimerId) (c : connection) : Prop :=
  match state c with
  | Scanning => ts = match pending c with None => [ScanTimeout] | Some _ => [] end
  | Authenticating => exists s, session c = Some s /\ floor_ok c s
  | Associating => ts = [AssocTimeout] /\ is_Some (session c)
  | Handshaking => is_Some (session c)
  | Reconnecting => ts = [ReconnectBackoff] /\ pending c = None
  | Idle | Configuring | Connected => True
  end.

(** Addresses are configured over a link that is keyed, open, or the
    device's own business. *)
Definition link_keyed (k : bool) (c : connection) : Prop :=
  match state c with
  | Configuring | Connected =>
      forall s, session c = Some s -> secured (se_choice s) = true ->
      offloads (caps (device c)) = false -> k = true
  | _ => True
  end.

(** An association request is the session's, at a security the profile of
    the network accepts. *)
Definition request_ok (c : connection) (r : AssocRequest) : Prop :=
  exists t s, target c = Some t /\ session c = Some s /\ floor_ok c s
    /\ as_ssid r = t_ssid t /\ as_bssid r = ch_bssid (se_choice s)
    /\ as_ies r = se_assoc_ie s
    /\ match ch_rsn (se_choice s) with
       | None => as_akms r = [] /\ as_ies r = [] /\ ch_negotiated (se_choice s) = Open
       | Some n => as_akms r = [Nl80211.akm_suite (n_akm n)]
           /\ ch_negotiated (se_choice s) = negotiated_security (n_akm n) (n_mfp_required n)
           /\ (n_mfp_required n = true -> as_mfp r = Some Nl80211.NL80211_MFP_REQUIRED)
       end.

Definition sound (c : connection) (a : Action) : Prop :=
  match a with
  | Associate r => state c = Associating /\ request_ok c r
  | AFailed _ => state c = Idle /\ session c = None /\ target c = None /\ armed c = None /\ attempts c = 0
  | _ => True
  end.
Definition quiet (a : Action) : bool :=
  match a with Associate _ | AFailed _ => false | _ => true end.

(** [s0], [ts0] and [k0]: what the daemon saw before this input; [strict]:
    leases only arrive while an address is being configured or held. *)
Context (strict : Prop) (s0 : State) (ts0 : list TimerId) (k0 : bool).

Record running (c : connection) (out : list Action) : Prop := {
  run_core : core c;
  run_armed : armed c = None \/ armed c = timer_of (state c);
  run_timers : timers ts0 out = [] \/ timers ts0 out = option_list (armed c);
  run_seen : seen s0 out = state c;
}.

Record base (c : connection) (out : list Action) : Prop := {
  base_running : running c out;
  base_quiet : Forall quiet out;
}.

Record post (c : connection) (out : list Action) : Prop := {
  post_running : running c out;
  post_progress : progress (timers ts0 out) c;
  post_keyed : strict -> link_keyed (keyed k0 out) c;
  post_sound : Forall (sound c) out;
}.

Lemma quiet_sound c out : Forall quiet out -> Forall (sound c) out.
Proof. intros Hq. eapply Forall_impl; [exact Hq|]. by intros []. Qed.

(** *** Actions that change nothing of the above *)

Lemma filter_timer_all (id : TimerId) : filter (fun t => t <> id) [id] = [].
Proof. by destruct id. Qed.

Definition plain (a : Action) : bool :=
  match a with
  | TriggerScan _ | FetchScanResults _ | Authenticate _ | ADisconnect _ | SendEapol _ | StartDhcp
  | ApplyLease _ | RequestSecret _ | SaveProfile _ | InstallKeys _ => true
  | _ => false
  end.

Lemma base_emit c out a : plain a = true -> base c out -> base c (out ++ [a]).
Proof.
  intros Hp [[] Hq]. split; [split|]; try done.
  1-2: unfold timers, seen; rewrite fold_left_snoc; by destruct a.
  apply Forall_app; split; [done|]. constructor; [by destruct a|constructor].
Qed.

(** Fields the timers and the state do not depend on. *)
Lemma base_modify c c' out :
  state c' = state c -> armed c' = armed c -> core c' -> base c out -> base c' out.
Proof. intros Hs Ha Hc [[] Hq]. split; [split|]; rewrite ?Hs, ?Ha; done. Qed.

(** *** Transitions *)
Abbreviation handler := (act connection Action).

Lemma disarm_spec c out (Q : unit -> connection -> list Action -> Prop) :
  running c out -> Forall quiet out ->
  (forall out', running (set_armed None c) out' -> Forall quiet out' -> timers ts0 out' = [] ->
     keyed k0 out' = keyed k0 out -> Q tt (set_armed None c) out') ->
  wp disarm Q c out.
Proof.
  intros [Hc Ha Ht Hs] Hq HQ. unfold disarm. wp_steps.
  - match goal with He : armed c = Some ?id |- _ => rename He into Hid end.
    apply HQ; [split; try done; [by left|left|]|..].
    all: unfold timers, seen, keyed; rewrite ?fold_left_snoc; cbn; try done.
    + rewrite Hid in Ht. unfold timers in Ht. destruct Ht as [->| ->]; [done|]. apply filter_timer_all.
    + apply Forall_app; split; [done|]. by constructor.
    + rewrite Hid in Ht. unfold timers in Ht. destruct Ht as [->| ->]; [done|]. apply filter_timer_all.
  - match goal with He : armed c = None |- _ => rename He into Hn end.
    assert (set_armed None c = c) as Heq by (destruct c; cbn in *; by subst).
    rewrite Hn in Ht. assert (timers ts0 out = []) as Hts by naive_solver.
    rewrite <- Heq at 1. apply HQ; rewrite ?Heq; try done. split; try done. rewrite Hn. by left.
Qed.

Lemma keyed_notify k out s :
  keyed k (out ++ [Notify s]) = match s with Associating => false | _ => keyed k out end.
Proof. unfold keyed. rewrite fold_left_snoc. by destruct s. Qed.

(** Entering a state leaves no timer but its own. *)
Lemma enter_spec s c out (Q : unit -> connection -> list Action -> Prop) :
  base c out ->
  (forall a out', base (set_state s (set_armed a c)) out' ->
     keyed k0 out' = match s with Associating => false | _ => keyed k0 out end ->
     Q tt (set_state s (set_armed a c)) out') ->
  wp (enter s) Q c out.
Proof.
  intros [Hr Hq] HQ. unfold enter. wp_step. wp_step. cbn beta.
  assert (Hn : forall out', timers ts0 (out' ++ [Notify s]) = timers ts0 out'
            /\ seen s0 (out' ++ [Notify s]) = s).
  { intros out'. unfold timers, seen. by rewrite !fold_left_snoc. }
  wp_step. apply wp_when; intros Hb.
  - apply disarm_spec; [done..|]. intros out' [Hc _ Ht Hs] Hq' Hts Hk. wp_steps.
    destruct (Hn out') as [Hn1 Hn2].
    apply HQ; [|rewrite keyed_notify; destruct s; congruence].
    split; [split|]; try done; [by left|rewrite Hn1; by left|].
    apply Forall_app; split; [done|by constructor].
  - wp_steps. destruct (Hn out) as [Hn1 Hn2].
    destruct Hr as [Hc Ha Ht Hs].
    assert (set_state s c = set_state s (set_armed (armed c) c)) as -> by by destruct c.
    apply HQ; [|by rewrite keyed_notify].
    split; [split|]; try done.
    + cbn. destruct (armed c) as [id|] eqn:Hid; [right|by left].
      cbn in Hb. bool_prop. done.
    + by rewrite Hn1.
    + apply Forall_app; split; [done|by constructor].
Qed.

(** Arming the timer of the state just entered: it is the one that runs. *)
Lemma arm_spec id ms c out (Q : unit -> connection -> list Action -> Prop) :
  running c out -> timer_of (state c) = Some id ->
  (forall out', running (set_armed (Some id) c) out' -> timers ts0 out' = [id] ->
     out' = out ++ [SetTimer id ms] -> Q tt (set_armed (Some id) c) out') ->
  wp (arm id ms) Q c out.
Proof.
  intros [Hc Ha Ht Hs] Hid HQ. unfold arm. wp_steps.
  assert (timers ts0 (out ++ [SetTimer id ms]) = [id]) as Hts.
  { unfold timers in *. rewrite fold_left_snoc. cbn. destruct Ht as [->| ->]; [done|].
    destruct Ha as [->| ->]; [done|]. rewrite Hid. cbn [option_list]. by rewrite filter_timer_all. }
  apply HQ; [split|..]; try done; [by right|by right|].
  unfold seen in *. by rewrite fold_left_snoc.
Qed.

Lemma keyed_timer k out id ms : keyed k (out ++ [SetTimer id ms]) = keyed k out.
Proof. unfold keyed. by rewrite fold_left_snoc. Qed.

(** A wait just begun: the state's timer runs and nothing else is promised. *)
Lemma arm_post id ms c out :
  base c out -> timer_of (state c) = Some id ->
  (progress [id] (set_armed (Some id) c)) -> link_keyed (keyed k0 out) c ->
  wp (arm id ms) (fun _ => post) c out.
Proof.
  intros [Hr Hq] Hid Hp Hk. apply arm_spec; [done..|]. intros out' Hr' Hts ->.
  split; [done|by rewrite Hts|by rewrite keyed_timer|].
  apply quiet_sound, Forall_app. split; [done|by constructor].
Qed.

Lemma core_no_session c : session c = None -> core c.
Proof. by intros Hs s; rewrite Hs. Qed.

Lemma fail_spec f c out : base c out -> wp (fail f) (fun _ => post) c out.
Proof.
  intros Hb. unfold fail. wp_step. wp_step. cbn beta. wp_step.
  apply (wp_mono _ (fun _ c' out' => c' = c /\ base c out')).
  { apply wp_when; intros _; [|done]. apply wp_emit. split; [done|]. by apply base_emit. }
  intros [] c' out1 [-> Hb1]. wp_step. wp_step.
  assert (Hb2 : base (set_pending None (set_session None c)) out1)
    by (eapply base_modify; [..|exact Hb1]; [done|done|by apply core_no_session]).
  destruct (negb _ && _).
  - wp_step. wp_step. wp_step. apply enter_spec; [by eapply base_modify; [..|exact Hb2]|].
    intros a out2 Hb3 _. wp_step. wp_step. cbn beta. by apply arm_post.
  - destruct Hb2 as [Hr Hq]. wp_step. apply disarm_spec; [done..|].
    intros out2 Hr2 Hq2 Hts _. wp_steps. split; cbn.
    + destruct Hr2 as [_ _ Ht _]. split; [by apply core_no_session|by left| |].
      * left. unfold timers in *. by rewrite fold_left_snoc.
      * unfold seen. by rewrite fold_left_snoc.
    + done.
    + done.
    + apply Forall_app. split; [by apply quiet_sound|]. by constructor.
Qed.

Lemma start_scan_spec c out : base c out -> pending c = None -> wp start_scan (fun _ => post) c out.
Proof.
  intros Hb Hpe. unfold start_scan. wp_step. apply enter_spec; [done|]. intros a out1 Hb1 _.
  wp_step. wp_step. cbn beta. wp_step. wp_step. apply arm_post; [by apply base_emit|done| |done].
  unfold progress. cbn. by rewrite Hpe.
Qed.

(** *** Association *)

Lemma station_rsn_encodes {E} n pmkid :
  (forall k, pmkid = Some k -> length k = 16%nat) ->
  exists w, @StationRsn_encode E (station_rsn n pmkid) = Ok w /\ (length w <= 257)%nat.
Proof.
  intros Hk. assert (Hl : (length (StationRsn_body (station_rsn n pmkid)) <= 42)%nat).
  { apply station_length. destruct pmkid; cbn [st_pmkid station_rsn from_option]; auto. }
  unfold StationRsn_encode. rewrite (proj2 (Z.ltb_lt _ 256)) by (unfold len; lia).
  eexists. split; [done|]. cbn [length app]. lia.
Qed.

Lemma session_ok_offload dc s :
  session_ok dc s -> session_ok dc (set_auth (snd (take_offload (se_auth s))) s).
Proof. intros []. split; cbn; try done; by destruct (se_auth s). Qed.

Lemma associate_spec c out t s :
  base c out -> target c = Some t -> session c = Some s -> floor_ok c s ->
  wp associate (fun _ => post) c out.
Proof.
  intros Hb Ht Hs Hf. unfold associate. wp_step. wp_step. cbn beta. wp_step. apply wp_expect.
  exists t. split; [done|]. wp_step. apply wp_expect. exists s. split; [done|].
  destruct (take_offload (se_auth s)) as [offload auth] eqn:Ho.
  destruct (run_core _ _ (base_running _ _ Hb) s Hs) as [Hok _].
  pose proof (session_ok_offload _ _ Hok) as Hok1. rewrite Ho in Hok1. cbn [snd] in Hok1.
  wp_step.
  (* The request and the session agree, whichever branch builds them. *)
  apply (wp_mono _ (fun '(r, s1) c' out' => c' = c /\ out' = out
    /\ session_ok (caps (device c)) s1 /\ se_choice s1 = se_choice s
    /\ request_ok (set_session (Some s1) c) r)).
  { destruct (ch_rsn (se_choice (set_auth auth s))) as [n|] eqn:Hn; cbn [se_choice set_auth] in Hn.
    - destruct (station_rsn_encodes (E := Failure) n (se_pmkid (set_auth auth s))) as (w & Hw & Hl);
        [apply Hok1|].
      wp_step. unfold unwrap. rewrite Hw. apply wp_expect. exists w. split; [done|]. wp_step.
      split_and!; [done|done| |done|].
      + destruct Hok1. split; cbn in *; try done.
        * rewrite length_app. destruct (is_sae _ && _); cbn; lia.
        * unfold secured. by rewrite Hn.
      + exists t. eexists. split_and!; cbn [target session set_session]; try done.
        cbn [se_choice set_assoc_ie set_auth]. rewrite Hn. split_and!; [done| |].
        * pose proof (sok_choice _ _ Hok) as Hc. unfold choice_ok in Hc. by rewrite Hn in Hc.
        * cbn. by intros ->.
    - wp_step. split_and!; [done|done|done|done|].
      pose proof (sok_choice _ _ Hok) as Hc. pose proof (sok_open _ _ Hok) as He.
      unfold choice_ok, secured in *. rewrite Hn in Hc, He.
      exists t. eexists. split_and!; cbn [target session set_session]; try done.
      + symmetry. by apply He.
      + cbn [se_choice set_auth]. by rewrite Hn. }
  intros [r s1] c' out' (-> & -> & Hok1' & Hch & Hr). wp_step. wp_step.
  assert (Hb1 : base (set_session (Some s1) c) out).
  { eapply base_modify; [..|exact Hb]; [done|done|]. intros s2 [= <-]. split; [done|by exists t]. }
  wp_step. apply enter_spec; [done|]. intros a out1 Hb2 _. wp_step. wp_step.
  apply arm_spec; [apply base_running in Hb2|done|].
  { destruct Hb2. split; try done; [unfold timers in *|unfold seen in *]; by rewrite fold_left_snoc. }
  intros out2 Hr2 Hts ->. split; [done|by rewrite Hts|done|].
  apply Forall_app. split; [apply Forall_app; split|]; [apply quiet_sound, Hb2| |by constructor].
  constructor; [|constructor]. split; [done|]. exact Hr.
Qed.

Lemma base_post c out :
  base c out -> progress (timers ts0 out) c -> (strict -> link_keyed (keyed k0 out) c) -> post c out.
Proof. intros [] ? ?. split; try done. by apply quiet_sound. Qed.

(** *** SAE *)

Lemma set_session_base c out s :
  base c out -> session_ok (caps (device c)) s -> is_Some (target c) -> base (set_session (Some s) c) out.
Proof. intros Hb Hs Ht. apply (base_modify c); [done|done| |done]. by intros ? [= <-]. Qed.

Lemma set_auth_ok dc s a :
  session_ok dc s -> secured (se_choice s) = true ->
  match a with AuthOpen | Offloaded _ => offloads dc = true | _ => True end ->
  session_ok dc (set_auth a s).
Proof. intros [] Hsec Ha. split; cbn; try done; by destruct a. Qed.

Lemma on_sae_step_spec step c s out :
  base c out -> state c = Authenticating -> session c = Some s -> floor_ok c s ->
  secured (se_choice s) = true -> no_panic step ->
  wp (on_sae_step step) (fun _ => post) c out.
Proof.
  intros Hb Hst Hs Hf Hsec Hp. destruct step as [[frame| |pmk]|e|]; cbn [on_sae_step]; try done.
  - wp_step. wp_step. cbn beta. destruct (auth_request c frame) as [r|]; [|by apply fail_spec].
    wp_step. wp_step. apply arm_post; [by apply base_emit|by rewrite Hst| |by unfold link_keyed; rewrite Hst].
    unfold progress. cbn. rewrite Hst. by exists s.
  - wp_step. apply base_post; [done| |by unfold link_keyed; rewrite Hst].
    unfold progress. rewrite Hst. by exists s.
  - wp_step. wp_step. cbn beta. wp_step. apply wp_expect. exists s. split; [done|].
    destruct (run_core _ _ (base_running _ _ Hb) s Hs) as [Hok [t Ht]].
    wp_step. wp_step.
    set (s1 := match se_auth s with AuthPreAssoc p => set_pmkid (sae_pmkid p) s | _ => s end).
    assert (Hok1 : session_ok (caps (device c)) s1 /\ se_choice s1 = se_choice s).
    { subst s1. destruct (se_auth s) as [| |p| | |] eqn:Ha; try done. split; [|done].
      destruct Hok. split; cbn; try done; rewrite ?Ha in *; try done.
      intros k Hk. by eapply sae_pmkid_length. }
    destruct Hok1 as [Hok1 Hch]. rewrite <- Hch in Hsec.
    apply (associate_spec _ _ t (set_auth (Ready pmk) s1)); [|done|done|].
    + apply set_session_base; [done| |by exists t]. by apply set_auth_ok.
    + unfold floor_ok. cbn. rewrite Hch. exact Hf.
  - by apply fail_spec.
Qed.

Lemma drive_sae_spec event c out :
  base c out -> state c = Authenticating -> progress (timers ts0 out) c ->
  wp (drive_sae event) (fun _ => post) c out.
Proof.
  intros Hb Hst Hpr. unfold drive_sae.
  assert (Hdone : post c out) by (apply base_post; [done|done|by unfold link_keyed; rewrite Hst]).
  unfold progress in Hpr. rewrite Hst in Hpr. destruct Hpr as (s & Hs & Hf).
  destruct (run_core _ _ (base_running _ _ Hb) s Hs) as [Hok [t Ht]].
  wp_step. wp_step. cbn beta. rewrite Ht, Hs. cbn [with_some].
  destruct (se_auth s) as [| |p| | |] eqn:Ha; try (by wp_step).
  assert (Hsec : secured (se_choice s) = true) by (pose proof (sok_auth _ _ Hok) as Hx; by rewrite Ha in Hx).
  set (ctx := auth_context _ _ _).
  destruct (match event with
            | SaeStart => pp_start p ctx
            | SaeFrame f => pp_on_frame p ctx f
            | SaeTimeout => pp_on_timeout p ctx
            end) as [p' step] eqn:Hstep.
  assert (Hsafe : no_panic step).
  { destruct event; [pose proof (pp_start_safe p ctx) as Hn|pose proof (pp_on_frame_safe p ctx f) as Hn
                    |pose proof (pp_on_timeout_safe p ctx) as Hn]; by rewrite Hstep in Hn. }
  wp_step. wp_step. apply (on_sae_step_spec _ _ (set_auth (AuthPreAssoc p') s)); try done.
  apply set_session_base; [done| |by exists t]. by apply set_auth_ok.
Qed.

Lemma start_sae_spec c s out :
  base c out -> session c = Some s -> floor_ok c s -> wp start_sae (fun _ => post) c out.
Proof.
  intros Hb Hs Hf. unfold start_sae. wp_step. apply enter_spec; [done|]. intros a out1 Hb1 _.
  apply drive_sae_spec; [done|done|]. by exists s.
Qed.

(** *** Planning *)

Lemma evaluate_spec c bss cred roaming :
  no_panic (evaluate c bss cred roaming)
  /\ forall ch, evaluate c bss cred roaming = Ok ch ->
     choice_ok ch /\ is_some (ch_rsn ch) = is_some (Nl80211.bss_rsn bss)
     /\ (forall p, profile c = Some p -> accepts p (ch_negotiated ch) = true)
     /\ (forall n, ch_rsn ch = Some n -> satisfies (n_akm n) cred = true).
Proof.
  unfold evaluate. split.
  - apply no_panic_bind.
    { destruct (Nl80211.bss_rsn bss) as [rsn|]; [|by case_bool_decide].
      unfold negotiate. destruct (choose_akm _ _ _), (choose_pairwise _); done. }
    intros rsn _. apply no_panic_bind; [|done]. destruct (profile c) as [p|]; [|done]. by destruct (accepts _ _).
  - intros ch He. inv_ok. rename x into rsn.
    split_and!; cbn [ch_rsn ch_negotiated choice_ok].
    + done.
    + destruct (Nl80211.bss_rsn bss) as [r|]; [|case_bool_decide; by simplify_eq].
      destruct (negotiate _ _ _); cbn in *; by simplify_eq.
    + intros p Hp. rewrite Hp in *. by destruct (accepts _ _).
    + intros n ->. destruct (Nl80211.bss_rsn bss) as [r|]; [|case_bool_decide; by simplify_eq].
      destruct (negotiate _ _ _) as [n'| |] eqn:Hn; cbn in *; simplify_eq.
      unfold negotiate in Hn. inv_ok. cbn [n_akm].
      match goal with Ha : choose_akm _ _ _ = Some _ |- _ => apply choose_akm_Some in Ha end.
      unfold acceptable in *. bool_prop. done.
Qed.

Lemma assemble_spec akm cred dc ctx :
  satisfies akm (Some cred) = true ->
  no_panic (assemble akm cred dc ctx)
  /\ forall a, assemble akm cred dc ctx = Ok a ->
     match a with AuthOpen => False | Offloaded _ => offloads dc = true | _ => True end.
Proof.
  intros Hsat. destruct cred as [|secret|]; cbn [assemble satisfies] in *; [done|..].
  - unfold offloads. destruct (is_sae akm).
    + destruct (offloads_sae dc); (split; [done|]); by intros a [= <-].
    + destruct (is_psk akm); [|done]. cbn. destruct (offloads_4way_psk dc) eqn:Ho; (split; [done|]);
        intros a [= <-]; [by rewrite orb_true_r|done].
  - rewrite Hsat. split.
    + apply no_panic_bind; [apply enterprise_new_safe|]. intros p _. by destruct (pp_stage p).
    + intros a Ha. inv_ok. by destruct (pp_stage _); simplify_eq.
Qed.

Lemma plan_spec bss roaming c out :
  base c out -> is_Some (target c) -> (strict -> link_keyed (keyed k0 out) c) ->
  (roaming = true -> state c = Connected) ->
  (credential c (is_none (Nl80211.bss_rsn bss)) = None -> state c = Scanning \/ state c = Connected) ->
  wp (plan bss roaming) (fun _ => post) c out.
Proof.
  intros Hb [t Ht] Hk Hro Hcr. unfold plan. wp_step. wp_step. cbn beta.
  set (cred := credential c _) in *.
  destruct (evaluate_spec c bss cred roaming) as [Hnp Hev].
  destruct (evaluate c bss cred roaming) as [ch|f|]; [|clear Hev|done].
  2:{ apply wp_when; intros Hr; [by apply fail_spec|]. apply negb_false_iff in Hr.
      apply base_post; [done| |done]. unfold progress. by rewrite Hro. }
  destruct (Hev ch eq_refl) as (Hch & Hrsn & Hfl & Hsat). clear Hev Hnp.
  destruct cred as [cred0|] eqn:Hcred; subst cred.
  2:{ destruct (match ch_rsn ch with Some n => is_enterprise (n_akm n) | None => false end);
        [by apply fail_spec|].
      destruct Hb as [Hr Hq]. wp_step. apply disarm_spec; [done..|]. intros out1 Hr1 Hq1 Hts Hkd.
      wp_step. wp_step. wp_step. apply base_post; cbn.
      - apply (base_modify (set_armed None c)); [done|done|apply Hr1|]. by apply base_emit.
      - unfold progress. cbn. destruct (Hcr eq_refl) as [-> | ->]; [|done].
        unfold timers in *. by rewrite fold_left_snoc.
      - unfold keyed in *. rewrite fold_left_snoc. cbn. by rewrite Hkd. }
  assert (Has : forall m, m = match ch_rsn ch with
                    | None => Ok AuthOpen
                    | Some _ => assemble (ctx_akm (auth_context (ssid_bytes c) ch (mac (device c)))) cred0
                                  (caps (device c)) (auth_context (ssid_bytes c) ch (mac (device c)))
                    end -> no_panic m /\ forall a, m = Ok a ->
            session_ok (caps (device c)) {| se_choice := ch; se_auth := a; se_pmkid := None;
                                            se_assoc_ie := []; se_handshake := None |}).
  { intros m ->. destruct (ch_rsn ch) as [n|] eqn:Hn.
    - destruct (assemble_spec (n_akm n) cred0 (caps (device c))
        (auth_context (ssid_bytes c) ch (mac (device c)))) as [Hp Ha]; [by apply Hsat|].
      unfold auth_context at 1 3. cbn [ctx_akm]. rewrite Hn. cbn [from_option].
      split; [done|]. intros a Hok. specialize (Ha a Hok).
      split; cbn; unfold secured; rewrite ?Hn; try done; [by destruct a|lia|by destruct a].
    - split; [done|]. intros a [= <-]. split; cbn; unfold secured; rewrite ?Hn; try done. lia. }
  specialize (Has _ eq_refl). cbn zeta in *.
  destruct (match ch_rsn ch with None => _ | Some _ => _ end) as [auth|f|];
    [|by apply fail_spec|by destruct Has].
  destruct Has as [_ Has]. specialize (Has auth eq_refl).
  destruct (roaming && is_pre_assoc auth) eqn:Hrp.
  { wp_step. apply andb_true_iff in Hrp as [Hr _]. apply base_post; [done| |done].
    unfold progress. by rewrite Hro. }
  wp_step. wp_step.
  assert (Hb1 : base (set_session (Some {| se_choice := ch; se_auth := auth; se_pmkid := None;
                                           se_assoc_ie := []; se_handshake := None |}) c) out)
    by (apply set_session_base; [done|done|by exists t]).
  destruct (is_pre_assoc auth).
  - by eapply start_sae_spec.
  - by eapply associate_spec.
Qed.

Lemma with_bssid_in b scan : b ∈ scan -> is_Some (with_bssid (Nl80211.bss_bssid b) scan).
Proof. intros Hb. eapply find_first_is_Some; [exact Hb|]. by apply bool_decide_eq_true. Qed.

Lemma select_spec scan c out :
  base c out -> state c = Scanning -> wp (select scan) (fun _ => post) c out.
Proof.
  intros Hb Hst. unfold select. wp_step. wp_step. cbn beta. destruct (target c) as [t|] eqn:Ht.
  - pose proof (best_bss_elem scan (t_ssid t)) as Hin. destruct (best_bss scan (t_ssid t)) as [b|];
      [|by apply fail_spec].
    destruct (with_bssid_in b scan) as [bss Hbss]; [by apply Hin|].
    wp_step. apply wp_expect. exists bss. split; [done|].
    apply plan_spec; [done|by exists t|by unfold link_keyed; rewrite Hst|done|by left].
  - pose proof (best_known_elem scan (profiles c)) as Hin.
    destruct (best_known scan (profiles c)) as [[b p]|]; [|by apply fail_spec].
    destruct (with_bssid_in b scan) as [bss Hbss]; [by eapply Hin|].
    wp_step. wp_step. wp_step. apply wp_expect. exists bss. split; [done|].
    apply plan_spec; [|by eexists|by unfold link_keyed; cbn; rewrite Hst|done|by left].
    apply (base_modify c); [done|done| |done]. intros s Hs. cbn in *.
    destruct (run_core _ _ (base_running _ _ Hb) s Hs). split; [done|by eexists].
Qed.

Lemma consider_roam_spec scan c out :
  base c out -> state c = Connected -> (strict -> link_keyed (keyed k0 out) c) ->
  wp (consider_roam scan) (fun _ => post) c out.
Proof.
  intros Hb Hst Hk. unfold consider_roam. wp_step. wp_step. cbn beta.
  assert (Hdone : post c out) by (apply base_post; [done|by unfold progress; rewrite Hst|done]).
  apply wp_with_some; [|done]. intros s Hs. apply wp_with_some; [|done]. intros t Ht. cbn zeta.
  pose proof (run_core _ _ (base_running _ _ Hb) s Hs) as [Hok Ht'].
  destruct (roam_target _ _ _ _) as [b|] eqn:Hr.
  - destruct (with_bssid_in b scan) as [bss Hbss]; [by eapply roam_target_elem|].
    wp_step. apply wp_expect. exists bss. split; [done|].
    apply plan_spec; [done|done|done|done|by right].
  - wp_step. apply base_post.
    + apply set_session_base; [done| |done]. by destruct Hok.
    + unfold progress. cbn. by rewrite Hst.
    + intros Hstr. specialize (Hk Hstr). unfold link_keyed in *. cbn in *. rewrite Hst in *.
      intros ? [= <-]. cbn. by apply Hk.
Qed.

Lemma on_scan_results_spec scan c out :
  base c out -> post c out -> wp (on_scan_results scan) (fun _ => post) c out.
Proof.
  intros Hb Hp. unfold on_scan_results. wp_step. wp_step. cbn beta.
  destruct (state c) eqn:Hst; try (by wp_step); [by apply select_spec|].
  apply consider_roam_spec; [done|done|apply Hp].
Qed.

(** *** Address configuration *)

Definition link_ready (k : bool) (c : connection) : Prop :=
  forall s, session c = Some s -> secured (se_choice s) = true ->
  offloads (caps (device c)) = false -> k = true.

Lemma link_keyed_ready k c :
  state c = Configuring \/ state c = Connected -> link_keyed k c -> link_ready k c.
Proof. unfold link_keyed. by intros [-> | ->]. Qed.

(** Up to [Configuring] or [Connected], and one last action. *)
Lemma up_spec st (tail : handler unit) c out :
  base c out -> (strict -> link_ready (keyed k0 out) c) -> st = Configuring \/ st = Connected ->
  (forall c' out', base c' out' -> post c' out' -> state c' = st -> wp tail (fun _ => post) c' out') ->
  wp (_ ← enter st; tail) (fun _ => post) c out.
Proof.
  intros Hb Hk Hst Ht. wp_step. apply enter_spec; [done|]. intros a out1 Hb1 Hkd.
  apply Ht; [done| |done]. apply base_post; [done|by destruct Hst as [-> | ->]|].
  intros Hstr. specialize (Hk Hstr). destruct Hst as [-> | ->]; unfold link_keyed; cbn; rewrite Hkd; exact Hk.
Qed.

Lemma emit_post a c out :
  plain a = true -> base c out -> post c out -> keyed k0 (out ++ [a]) = keyed k0 out ->
  wp (emit a) (fun _ => post) c out.
Proof.
  intros Hp Hb [_ Hpr Hk _] Hkd. wp_step. apply base_post; [by apply base_emit| |by rewrite Hkd].
  unfold timers. rewrite fold_left_snoc. by destruct a.
Qed.

Lemma keyed_emit a k out :
  match a with Notify _ | InstallKeys _ => False | _ => True end -> keyed k (out ++ [a]) = keyed k out.
Proof. unfold keyed. rewrite fold_left_snoc. by destruct a. Qed.

Lemma set_attempts_post v c out : base c out -> post c out -> post (set_attempts v c) out.
Proof.
  intros Hb [_ Hp Hk _]. apply base_post; [by apply (base_modify c); [..|apply Hb|]|exact Hp|exact Hk].
Qed.

Lemma start_dhcp_spec c out :
  base c out -> (strict -> link_ready (keyed k0 out) c) ->
  wp (_ ← enter Configuring; emit StartDhcp) (fun _ => post) c out.
Proof.
  intros Hb Hk. apply up_spec; [done|done|by left|]. intros c' out' Hb' Hp' _.
  apply emit_post; [done|done|done|by apply keyed_emit].
Qed.

Lemma configured_spec c out :
  base c out -> (strict -> link_ready (keyed k0 out) c) -> wp configured (fun _ => post) c out.
Proof.
  intros Hb Hk. unfold configured. wp_step. wp_step. cbn beta. destruct (match session c with Some _ => _ | _ => _ end).
  - apply up_spec; [done|done|by right|]. intros c' out' Hb' Hp' _. wp_step. by apply set_attempts_post.
  - by apply start_dhcp_spec.
Qed.

Lemma save_profile_spec c out :
  base c out -> post c out -> state c = Connected -> wp save_profile (fun _ => post) c out.
Proof.
  intros Hb Hp Hst. unfold save_profile. wp_step. wp_step. cbn beta.
  apply wp_with_some; [|done]. intros t Ht. destruct (negb (t_save t)); [done|].
  apply wp_with_some; [|done]. intros s Hs. apply wp_with_some; [|done]. intros cred _. cbn zeta.
  set (p := {| p_ssid := _; p_security := _; p_credential := _; p_autoconnect := _; p_min_security := _ |}).
  set (t1 := {| t_ssid := t_ssid t; t_secret := _; t_retry := _; t_save := false |}).
  wp_step. wp_step. wp_step. wp_step.
  set (c1 := insert_profile p (set_target (Some t1) c)).
  assert (Hc1 : state c1 = state c /\ armed c1 = armed c /\ session c1 = session c
                /\ device c1 = device c /\ is_Some (target c1)) by (cbn; split_and!; by try eexists).
  clearbody c1. destruct Hc1 as (Hs1 & Ha1 & Hse1 & Hd1 & Ht1).
  apply emit_post; [done| |..|by apply keyed_emit].
  - apply (base_modify c); [done|done| |done]. intros s2 Hs2. rewrite Hd1. split; [|done].
    rewrite Hse1 in Hs2. by destruct (run_core _ _ (base_running _ _ Hb) s2 Hs2).
  - apply base_post; [|by unfold progress; rewrite Hs1, Hst|].
    + apply (base_modify c); [done|done| |done]. intros s2 Hs2. rewrite Hd1. split; [|done].
      rewrite Hse1 in Hs2. by destruct (run_core _ _ (base_running _ _ Hb) s2 Hs2).
    + intros Hstr. pose proof (post_keyed _ _ Hp Hstr) as Hk. unfold link_keyed in *.
      by rewrite Hs1, Hse1, Hd1.
Qed.

Lemma on_lease_spec e c out :
  base c out -> post c out ->
  (strict -> match e with Acquired _ => state c = Configuring \/ state c = Connected | _ => True end) ->
  wp (on_lease e) (fun _ => post) c out.
Proof.
  intros Hb Hp Hord. destruct e as [l|r|]; cbn [on_lease].
  - wp_step. wp_step. apply up_spec; [by apply base_emit| |by right|].
    + intros Hstr. rewrite keyed_emit by done. apply link_keyed_ready; [by apply Hord|]. by apply Hp.
    + intros c' out' Hb' Hp' Hst'. wp_step. wp_step. apply save_profile_spec; [|by apply set_attempts_post|done].
      by apply (base_modify c'); [..|apply Hb'|].
  - wp_step. wp_step. cbn beta. destruct (state c) eqn:Hst; try (by wp_step).
    apply start_dhcp_spec; [done|]. intros Hstr. apply link_keyed_ready; [by right|]. by apply Hp.
  - by apply fail_spec.
Qed.

(** *** The handshake *)

(** A keyed exchange is in progress on the session [s]. *)
Record exchanging (s : session_t) (c : connection) (out : list Action) : Prop := {
  ex_base : base c out;
  ex_state : state c = Handshaking \/ state c = Connected;
  ex_session : session c = Some s;
  ex_secured : secured (se_choice s) = true;
}.

Lemma secured_rsn ch : secured ch = true -> exists n, ch_rsn ch = Some n.
Proof. unfold secured. destruct (ch_rsn ch) as [n|]; [by exists n|done]. Qed.

Lemma exchanging_emit a s c out : plain a = true -> exchanging s c out -> exchanging s c (out ++ [a]).
Proof. intros Hp []. split; try done. by apply base_emit. Qed.

Lemma handshake_action_spec a s c out :
  exchanging s c out ->
  wp (handshake_action a) (fun _ c' out' => exchanging s c' out' /\ state c' = state c /\ device c' = device c
    /\ keyed k0 out' = keyed k0 out || is_complete a) c out.
Proof.
  intros Hx. pose proof Hx as [[Hr Hq] Hst Hs Hsec].
  destruct a as [frame|ms| |keys|gtk]; cbn [handshake_action is_complete]; rewrite ?orb_false_r.
  - wp_step. split_and!; [by apply exchanging_emit|done|done|by apply keyed_emit].
  - assert (Ht : timer_of (state c) = Some HandshakeRetry) by (by destruct Hst as [-> | ->]).
    apply arm_spec; [done|done|]. intros out1 Hr1 _ ->. split_and!; [|done|done|by apply keyed_timer].
    split; try done. split; [done|]. apply Forall_app; split; [done|by constructor].
  - apply disarm_spec; [done|done|]. intros out1 Hr1 Hq1 _ Hk. by split_and!.
  - wp_step. wp_step. cbn beta. wp_step. unfold pairwise_install. wp_step. apply wp_expect. exists s. split; [done|].
    destruct (secured_rsn _ Hsec) as [n Hn]. wp_step. apply wp_expect. exists n. split; [done|]. wp_steps.
    split_and!; [by apply exchanging_emit|done|done|]. unfold keyed. by rewrite fold_left_snoc.
  - wp_step. wp_step. cbn beta. wp_step. split_and!; [by apply exchanging_emit|done|done|].
    unfold keyed. rewrite fold_left_snoc. cbn. apply orb_false_r.
Qed.

(** The whole list: the pairwise key is in when one of them completed. *)
Lemma handshake_actions_spec acts s c out :
  exchanging s c out ->
  wp (for_each acts handshake_action) (fun _ c' out' => exchanging s c' out' /\ state c' = state c
    /\ device c' = device c /\ keyed k0 out' = keyed k0 out || existsb is_complete acts) c out.
Proof.
  revert c out. induction acts as [|a acts IH]; intros c out Hx; cbn [for_each existsb].
  - wp_step. by rewrite orb_false_r.
  - wp_step. eapply wp_mono; [by apply handshake_action_spec|].
    intros [] c1 out1 (Hx1 & Hs1 & Hd1 & Hk1). eapply wp_mono; [by apply IH|].
    intros [] c2 out2 (Hx2 & -> & -> & Hk2). by rewrite Hk2, Hk1, <- orb_assoc.
Qed.

Lemma on_handshake_actions_spec result s c out :
  exchanging s c out -> (strict -> link_keyed (keyed k0 out) c) -> no_panic result ->
  wp (on_handshake_actions result) (fun _ => post) c out.
Proof.
  intros Hx Hk Hp. destruct result as [acts|e|]; cbn [on_handshake_actions]; [|by apply fail_spec, Hx|done].
  wp_step. eapply wp_mono; [by apply handshake_actions_spec|].
  intros [] c1 out1 ([Hb1 Hst1 Hs1 Hsec1] & Hs & Hd & Hk1). apply wp_when; intros Hc.
  - apply configured_spec; [done|]. intros _ s1 _ _ _. by rewrite Hk1, Hc, orb_true_r.
  - rewrite Hc, orb_false_r in Hk1. apply base_post; [done| |].
    + unfold progress. destruct Hst1 as [-> | ->]; [|done]. by exists s.
    + intros Hstr. specialize (Hk Hstr). unfold link_keyed in *. rewrite Hs, Hd, Hk1.
      destruct (state c); try done; intros s1 Hs1' Hsec Hoff; apply (Hk s); try done; apply Hx.
Qed.

Lemma poll_handshake_spec i c out :
  base c out -> post c out -> state c = Handshaking \/ state c = Connected -> FourWay.input_ok i ->
  wp (poll_handshake i) (fun _ => post) c out.
Proof.
  intros Hb Hp Hst Hi. unfold poll_handshake. wp_step. wp_step. cbn beta.
  apply wp_with_some; [|done]. intros s Hs. apply wp_with_some; [|done]. intros h Hh.
  destruct (run_core _ _ (base_running _ _ Hb) s Hs) as [Hok Ht].
  destruct (sok_handshake _ _ Hok h Hh) as [Hw Hsec].
  pose proof (FourWay.poll_wf h i Hw Hi) as Hw'.
  pose proof (FourWay.handle_no_panic h i Hw Hi) as Hn.
  destruct (FourWay.poll h i) as [h' result] eqn:Hpoll. cbn [fst] in Hw'.
  assert (Hnp : no_panic result).
  { unfold FourWay.poll in Hpoll. destruct (FourWay.handle h i) as [[??]| |]; by simplify_eq. }
  wp_step. wp_step. apply (on_handshake_actions_spec _ (set_handshake (Some h') s)); [|..|done].
  - split; try done. apply set_session_base; [done| |done].
    destruct Hok. split; try done. by intros ? [= <-].
  - intros Hstr. pose proof (post_keyed _ _ Hp Hstr) as Hk. unfold link_keyed in *. cbn.
    destruct (state c); try done; intros ? [= <-]; cbn; by apply Hk.
Qed.

Lemma start_handshake_spec nonce pmk c s out :
  base c out -> session c = Some s -> secured (se_choice s) = true -> nonce_ok nonce ->
  wp (start_handshake nonce pmk) (fun _ => post) c out.
Proof.
  intros Hb Hs Hsec Hn. unfold start_handshake. wp_step. wp_step. cbn beta. wp_step. apply wp_expect.
  exists s. split; [done|]. destruct (secured_rsn _ Hsec) as [n Hrsn]. wp_step. apply wp_expect.
  exists n. split; [done|]. destruct (run_core _ _ (base_running _ _ Hb) s Hs) as [Hok Ht].
  unfold FourWay.new. destruct nonce as [b|e|]; cbn in Hn |- *; [|by apply fail_spec|done].
  wp_step. wp_step. apply enter_spec.
  - apply set_session_base; [done| |done]. destruct Hok. split; try done.
    intros ? [= <-]. split; [|done]. apply FourWay.with_snonce_wf; [|done].
    unfold FourWay.config_ok, Eapol.BODY_MIN. cbn. lia.
  - intros a out1 Hb1 _. apply base_post; [done| |done]. cbn. by eexists.
Qed.

Lemma drive_dot1x_spec nonce frame c out :
  base c out -> post c out -> nonce_ok nonce -> wp (drive_dot1x nonce frame) (fun _ => post) c out.
Proof.
  intros Hb Hp Hn. unfold drive_dot1x. wp_step. wp_step. cbn beta.
  apply wp_with_some; [|done]. intros t Ht. apply wp_with_some; [|done]. intros s Hs.
  destruct (run_core _ _ (base_running _ _ Hb) s Hs) as [Hok Ht'].
  destruct (se_auth s) as [| | |p| |] eqn:Ha; try (by wp_step).
  assert (Hsec : secured (se_choice s) = true) by (pose proof (sok_auth _ _ Hok) as Hx; by rewrite Ha in Hx).
  set (ctx := auth_context _ _ _).
  destruct (match frame with Some f => pp_on_frame p ctx f | None => pp_start p ctx end) as [p' step] eqn:Hstep.
  assert (Hsafe : no_panic step).
  { destruct frame as [f|]; [pose proof (pp_on_frame_safe p ctx f) as Hx|pose proof (pp_start_safe p ctx) as Hx];
      by rewrite Hstep in Hx. }
  wp_step. wp_step. set (c1 := set_session _ c).
  assert (Hb1 : base c1 out) by (apply set_session_base; [done|by apply set_auth_ok|done]).
  assert (Hp1 : post c1 out).
  { destruct Hp as [_ Hpr Hk _]. apply base_post; [done|..].
    - unfold progress, c1 in *. cbn. destruct (state c); try done; try by eexists.
      + destruct Hpr as (s' & Hs' & Hf). eexists. split; [done|]. unfold floor_ok in *. cbn. by simplify_eq.
      + split; [apply Hpr|by eexists].
    - intros Hstr. specialize (Hk Hstr). unfold link_keyed, c1 in *. cbn.
      destruct (state c); try done; intros ? [= <-]; cbn; by apply Hk. }
  destruct step as [[f| |pmk]|e|]; [|by wp_step| |by apply fail_spec|done].
  - apply emit_post; [done|done|done|by apply keyed_emit].
  - wp_step. wp_step. eapply start_handshake_spec; [|done|done|done].
    apply set_session_base; [done|by apply set_auth_ok|done].
Qed.

Lemma on_associated_spec nonce c out :
  base c out -> post c out -> state c = Associating -> nonce_ok nonce ->
  wp (on_associated nonce) (fun _ => post) c out.
Proof.
  intros Hb Hp Hst Hn. unfold on_associated. wp_step. wp_step. cbn beta.
  apply wp_with_some; [|done]. intros s Hs.
  destruct (run_core _ _ (base_running _ _ Hb) s Hs) as [Hok Ht].
  pose proof (sok_auth _ _ Hok) as Hau. pose proof (sok_offload _ _ Hok) as Hof.
  assert (Hset : forall a, match a with AuthOpen => match se_auth s with AuthOpen | Offloaded _ => True | _ => False end
                      | Running => secured (se_choice s) = true | _ => False end ->
    base (set_session (Some (set_auth a s)) c) out).
  { intros a Hx. apply set_session_base; [done| |done]. destruct Hok.
    split; cbn; try done; destruct a; try done; by destruct (se_auth s). }
  destruct (se_auth s) as [|o|p|p|pmk|] eqn:Ha; try by apply fail_spec.
  - wp_step. wp_step. apply configured_spec; [by apply Hset|].
    intros _ s1 [= <-] Hsec Hoff. cbn in Hsec, Hoff. specialize (Hof Hsec). congruence.
  - wp_step. wp_step. apply configured_spec; [by apply Hset|].
    intros _ s1 [= <-] Hsec Hoff. cbn in Hsec, Hoff. specialize (Hof Hsec). congruence.
  - wp_step. apply enter_spec; [done|]. intros a out1 Hb1 _.
    apply drive_dot1x_spec; [done| |done]. apply base_post; [done| |done]. by exists s.
  - wp_step. wp_step. eapply start_handshake_spec; [by apply Hset|done|done|done].
Qed.

(** *** Inputs *)

Lemma on_eapol_spec nonce frame c out :
  base c out -> post c out -> nonce_ok nonce -> is_bytes frame ->
  wp (on_eapol nonce frame) (fun _ => post) c out.
Proof.
  intros Hb Hp Hn Hf. unfold on_eapol. wp_step. wp_step. cbn beta.
  assert (Hnp : no_panic (Eapol.Eapol_parse frame)) by apply Eapol.Eapol_parse_no_panic.
  destruct (state c) eqn:Hst; try (by wp_step);
    (destruct (Eapol.Eapol_parse frame) as [e| |]; [|by wp_step|done]);
    destruct (Eapol.eapol_packet_type e); try (by wp_step); try (by apply drive_dot1x_spec);
    (apply poll_handshake_spec; [done|done|rewrite Hst; auto|done]).
Qed.

Lemma on_command_spec cmd c out :
  base c out -> post c out -> wp (on_command cmd) (fun _ => post) c out.
Proof.
  intros Hb Hp. destruct cmd as [ssid| |value|]; cbn [on_command].
  - wp_step. wp_step. cbn beta. wp_step.
    apply (wp_mono _ (fun _ c' out' => base c' out')).
    { apply wp_when; intros _; [|done]. wp_step. by apply base_emit. }
    intros [] c1 out1 Hb1. wp_step. wp_step. apply start_scan_spec; [|done].
    apply (base_modify c1); [done|done|by apply core_no_session|done].
  - wp_step. wp_step. cbn beta. destruct (negb _); [by wp_step|]. wp_step. wp_step. apply start_scan_spec; [|done].
    apply (base_modify c); [done|done|by apply core_no_session|done].
  - wp_step. wp_step. cbn beta. apply wp_with_some; [|done]. intros t Ht. wp_step. wp_step.
    set (t1 := {| t_ssid := t_ssid t; t_secret := Some value; t_retry := _; t_save := _ |}).
    assert (Hb1 : base (set_target (Some t1) c) out).
    { apply (base_modify c); [done|done| |done]. intros s Hs. split; [|by eexists].
      by destruct (run_core _ _ (base_running _ _ Hb) s Hs). }
    assert (Hpf : profile (set_target (Some t1) c) = profile c) by (unfold profile; cbn; by rewrite Ht).
    apply wp_with_some.
    + intros bss Hbss. wp_step. wp_step. apply plan_spec; [|by eexists|apply Hp|done|].
      * by apply (base_modify (set_target (Some t1) c)); [..|apply Hb1|].
      * unfold credential. destruct (is_none _); [done|].
        change (profile (set_pending None (set_target (Some t1) c))) with (profile (set_target (Some t1) c)).
        by destruct (profile _).
    + intros _. destruct Hp as [_ Hpr Hk _]. apply base_post; [done| |done].
      unfold progress, floor_ok in *. rewrite Hpf. exact Hpr.
  - wp_step. wp_step. unfold go_idle. wp_step.
    pose proof (base_emit c out (ADisconnect REASON_LEAVING) eq_refl Hb) as [Hr Hq].
    apply disarm_spec; [done..|]. intros out1 Hr1 Hq1 Hts Hk. wp_steps.
    apply base_post; [|done|done]. split; [|apply Forall_app; split; [done|by constructor]].
    split; [by apply core_no_session|by left| |].
    + left. unfold timers in *. by rewrite fold_left_snoc.
    + unfold seen. by rewrite fold_left_snoc.
Qed.

Lemma on_wireless_spec nonce e c out :
  base c out -> post c out -> nonce_ok nonce -> wp (on_wireless nonce e) (fun _ => post) c out.
Proof.
  intros Hb Hp Hn. unfold on_wireless. wp_step. wp_step. cbn beta.
  assert (Hfetch : wp (emit (FetchScanResults (ifindex (device c)))) (fun _ => post) c out)
    by (apply emit_post; [done|done|done|by apply keyed_emit]).
  destruct e; try (by wp_step).
  - destruct (state c); try (by wp_step); done.
  - destruct (state c); try (by wp_step); by apply fail_spec.
  - destruct (state c) eqn:Hst; try (by wp_step). destruct status; [|by apply fail_spec..].
    by apply on_associated_spec.
  - destruct (associated c); [by apply fail_spec|by wp_step].
  - destruct (state c); try (by wp_step). destruct abort; [by apply fail_spec|by wp_step].
  - destruct (state c) eqn:Hst; try (by wp_step). apply wp_with_some; [|done]. intros body _.
    apply drive_sae_spec; [done|done|apply Hp].
Qed.

(** The one input that uses up a timer. *)
Lemma on_timer_spec ts id c out :
  ts0 = filter (fun t => t <> id) ts \/ ts0 = ts -> timers ts0 out = ts0 ->
  base c out -> progress ts c -> (strict -> link_keyed (keyed k0 out) c) ->
  wp (on_timer id) (fun _ => post) c out.
Proof.
  intros Hts Ho Hb Hpr Hk. unfold on_timer. wp_step. wp_step. cbn beta.
  assert (Hskip : progress ts0 c -> post c out) by (intros; apply base_post; [done|by rewrite Ho|done]).
  unfold progress in Hpr, Hskip.
  assert (Hwait : state c = Scanning -> is_some (pending c) = true -> post c out).
  { intros Hst Hpe. apply Hskip. rewrite Hst in *. destruct (pending c); [|done]. by destruct Hts as [->| ->]; rewrite Hpr. }
  destruct id, (state c) eqn:Hst;
    lazymatch goal with
    | |- wp (mret tt) _ _ _ => apply wp_ret, Hskip; try done
    | |- wp (fail _) _ _ _ => by apply fail_spec
    | |- wp start_scan _ _ _ => by apply start_scan_spec; [|apply Hpr]
    | |- wp (drive_sae _) _ _ _ => apply drive_sae_spec; [done|done|by unfold progress; rewrite Hst]
    | |- wp (poll_handshake _) _ _ _ =>
        apply poll_handshake_spec; [done|by apply Hskip|rewrite Hst; auto|done]
    | |- wp (if is_none ?o then _ else _) _ _ _ =>
        unfold is_none; destruct (is_some o) eqn:Hpe; cbn [negb];
        [by apply wp_ret, Hwait|by apply fail_spec]
    end.
  all: destruct Hts as [->| ->]; first [done | by rewrite Hpr | by destruct Hpr as [-> ?]; split | by rewrite Hpr; destruct (pending c)].
Qed.

(** Leases arrive while an address is being configured or held. *)
Definition lease_in_order (c : connection) (i : Input) : Prop :=
  match i with ILease (Acquired _) => state c = Configuring \/ state c = Connected | _ => True end.
#[export] Instance lease_in_order_dec c i : Decision (lease_in_order c i).
Proof. destruct i as [| | | |[]|]; apply _. Defined.

Lemma on_input_spec ts nonce i c :
  ts0 = fired i ts \/ ts0 = ts -> base c [] -> progress ts c -> (strict -> link_keyed k0 c) ->
  input_ok i -> nonce_ok nonce -> (strict -> lease_in_order c i) ->
  wp (on_input nonce i) (fun _ => post) c [].
Proof.
  intros Hts Hb Hpr Hk Hi Hn Hl.
  assert (Hp : ts0 = ts -> post c []) by (intros He; apply base_post; [done| |done]; unfold timers; cbn; by rewrite He).
  assert (Hn0 : fired i ts = ts -> post c []) by (intros He; apply Hp; by destruct Hts as [->|]).
  destruct i as [cmd|e|scan|f|e|id]; cbn [on_input fired] in *.
  - apply on_command_spec; auto.
  - apply on_wireless_spec; auto.
  - apply on_scan_results_spec; auto.
  - apply on_eapol_spec; auto.
  - apply on_lease_spec; [done|auto|]. intros Hs. specialize (Hl Hs). by destruct e.
  - by eapply on_timer_spec.
Qed.
End invariant.

(** ** The connection in its daemon *)

(** What the daemon has seen so far. *)
Record view := { v_state : State; v_timers : list TimerId; v_keyed : bool }.
Definition observe (v : view) (i : Input) (out : list Action) : view :=
  {| v_state := seen (v_state v) out; v_timers := timers (fired i (v_timers v)) out;
     v_keyed := keyed (v_keyed v) out |}.
(** A deadline that passed and was armed again before it could be delivered:
    it is delivered all the same, and the new one still runs. *)
Definition observe_late (v : view) (out : list Action) : view :=
  {| v_state := seen (v_state v) out; v_timers := timers (v_timers v) out; v_keyed := keyed (v_keyed v) out |}.

Section system.
Context `{CryptoLaws} {SaeP DotP : Type} `{PmkProviderSafe SaeP} `{PmkProviderSafe DotP}
  {build : Build SaeP DotP} `{!BuildSafe build}.

Abbreviation connection := (@Connection SaeP DotP).

(** Every history of a connection: inputs in any order, subject to [ordered],
    timers delivered late included, and the profile store changing under it
    ([forget_profile] is part of the interface, though the daemon does not call
    it). *)
Inductive reaches (ordered : connection -> Input -> Prop) : connection -> view -> Prop :=
| reaches_new d ps :
    reaches ordered (Connection_new d ps) {| v_state := Idle; v_timers := []; v_keyed := false |}
| reaches_poll c v nonce i c' out :
    reaches ordered c v -> input_ok i -> nonce_ok nonce -> ordered c i ->
    poll nonce i c = Some (c', out) -> reaches ordered c' (observe v i out)
| reaches_late c v nonce id c' out :
    reaches ordered c v -> nonce_ok nonce -> poll nonce (ITimer id) c = Some (c', out) ->
    reaches ordered c' (observe_late v out)
| reaches_saved c v p :
    reaches ordered c v -> state c = Connected -> reaches ordered (insert_profile p c) v
| reaches_forget c v ssid :
    reaches ordered c v -> reaches ordered (forget_profile ssid c) v.

Definition invariant (strict : Prop) (c : connection) (v : view) : Prop :=
  post strict (v_state v) (v_timers v) (v_keyed v) c [].

Lemma poll_invariant_from (strict : Prop) nonce i c v ts :
  invariant strict c v -> input_ok i -> nonce_ok nonce -> (strict -> lease_in_order c i) ->
  ts = fired i (v_timers v) \/ ts = v_timers v ->
  exists c' out, poll nonce i c = Some (c', out) /\ post strict (v_state v) ts (v_keyed v) c' out.
Proof.
  intros [[Hc Ha Ht Hs] Hp Hk _] Hi Hn Hl Hts.
  assert (Hw : wp (on_input nonce i) (fun _ => post strict (v_state v) ts (v_keyed v)) c []).
  { eapply on_input_spec; [exact Hts| |exact Hp|exact Hk|done|done|done].
    split; [split|constructor]; try done. cbn in Ht |- *. destruct Hts as [->| ->]; [|done].
    destruct i as [| | | | |id]; cbn [fired]; try done.
    destruct Ht as [->|Ht]; [by left|]. rewrite Ht. destruct (armed c) as [id'|]; [|by left].
    destruct (decide (id' = id)) as [->|Hne]; [left; apply filter_timer_all|right].
    unfold timers. cbn. by rewrite decide_True. }
  unfold wp, poll in *. destruct (on_input nonce i c []) as [[[[] c'] out]|]; [|done]. by eauto.
Qed.

Lemma poll_invariant (strict : Prop) nonce i c v :
  invariant strict c v -> input_ok i -> nonce_ok nonce -> (strict -> lease_in_order c i) ->
  exists c' out, poll nonce i c = Some (c', out)
    /\ post strict (v_state v) (fired i (v_timers v)) (v_keyed v) c' out.
Proof. intros. apply poll_invariant_from; auto. Qed.

Lemma post_invariant (strict : Prop) v i c out :
  post strict (v_state v) (fired i (v_timers v)) (v_keyed v) c out -> invariant strict c (observe v i out).
Proof. intros [[] Hp Hk _]. split; [split|..]; try done. Qed.

Lemma profile_forget ssid (c : connection) p : profile (forget_profile ssid c) = Some p -> profile c = Some p.
Proof.
  unfold profile, forget_profile. cbn. destruct (target c) as [t|]; cbn; [|done].
  induction (profiles c) as [|q l IH]; cbn; [done|]. case_decide as Hd; cbn.
  - by case_bool_decide.
  - intros Hf. case_bool_decide as Hq; [|by apply IH]. exfalso. apply find_first_Some in Hf as [Hin Hb]. apply list_elem_of_filter in Hin as [Hin _].
    bool_prop. congruence.
Qed.

Lemma reaches_invariant (strict : Prop) ordered c v :
  (forall c i, strict -> ordered c i -> lease_in_order c i) ->
  reaches ordered c v -> invariant strict c v.
Proof.
  intros Ho Hr.
  induction Hr as [d ps|c v nonce i c' out _ IH Hi Hn Hord Hp|c v nonce id c' out _ IH Hn Hp|c v p _ IH Hst|c v ssid _ IH].
  - split; [split|..]; try done; by left.
  - destruct (poll_invariant strict nonce i c v IH Hi Hn) as (c1 & out1 & Hp' & Hpost); [by eauto|].
    rewrite Hp in Hp'. simplify_eq. by apply post_invariant.
  - destruct (poll_invariant_from strict nonce (ITimer id) c v (v_timers v) IH) as (c1 & out1 & Hp' & Hpost);
      [done..|by right|]. rewrite Hp in Hp'. simplify_eq. destruct Hpost as [[] Hpr Hk _]. split; [split|..]; try done.
  - destruct IH as [[Hc Ha Ht Hs] Hpr Hk _]. split; [split|..]; try done.
    + intros s Hse. destruct (Hc s Hse) as [Hok [t Hta]]. split; [done|]. cbn. rewrite Hta. by eexists.
    + unfold progress. cbn. by rewrite Hst.
  - destruct IH as [[Hc Ha Ht Hs] Hpr Hk _]. split; [split|..]; try done.
    unfold progress in *. cbn. destruct (state c); try done. destruct Hpr as (s & Hse & Hf).
    exists s. split; [done|]. intros p Hp%profile_forget. by apply Hf.
Qed.

Definition any_order (c : connection) (i : Input) : Prop := True.

Lemma reaches_any c v : reaches any_order c v -> invariant False c v.
Proof. by apply reaches_invariant. Qed.

Lemma poll_post ordered c v nonce i c' out :
  reaches ordered c v -> input_ok i -> nonce_ok nonce -> poll nonce i c = Some (c', out) ->
  post False (v_state v) (fired i (v_timers v)) (v_keyed v) c' out.
Proof.
  intros Hr Hi Hn Hp. assert (Hinv : invariant False c v) by (by eapply reaches_invariant; [|exact Hr]).
  destruct (poll_invariant False nonce i c v Hinv Hi Hn) as (c1 & out1 & Hp' & Hpost); [done|].
  rewrite Hp in Hp'. by simplify_eq.
Qed.

(** C1. The connection never panics: whatever commands, kernel events, scan
    results, frames, leases and timers arrive, in any order from start-up on,
    every input is answered -- no expected target, session or suite is ever
    missing, and every RSN element encodes. *)
Theorem connection_never_panics (c : connection) v nonce i :
  reaches any_order c v -> input_ok i -> nonce_ok nonce -> exists c' out, poll nonce i c = Some (c', out).
Proof.
  intros Hr%reaches_any Hi Hn.
  destruct (poll_invariant False nonce i c v Hr Hi Hn) as (c' & out & ? & _); [done|eauto].
Qed.

Lemma sees_machine (c : connection) v :
  reaches any_order c v ->
  v_state v = state c /\ (length (v_timers v) <= 1)%nat
  /\ forall id, id ∈ v_timers v -> armed c = Some id /\ timer_of (state c) = Some id.
Proof.
  intros [[_ Ha Ht Hs] _ _ _]%reaches_any. split_and!; [done|..].
  - cbn in Ht. destruct Ht as [->| ->]; cbn; [lia|]. destruct (armed c); cbn; lia.
  - intros id Hid. cbn in Ht. destruct Ht as [Ht|Ht]; rewrite Ht in Hid; [by apply elem_of_nil in Hid|].
    destruct (armed c) as [id'|] eqn:Harm; cbn in Hid; [|by apply elem_of_nil in Hid].
    apply list_elem_of_singleton in Hid as ->. by destruct Ha.
Qed.

(** C19. The daemon sees the machine: the notifications add up to the
    machine's state, and the timers that run are at most one, which is the
    timer of that state -- no stale deadline of an earlier state survives. *)
Theorem daemon_sees_the_machine (c : connection) v :
  reaches any_order c v ->
  v_state v = state c /\ (length (v_timers v) <= 1)%nat
  /\ forall id, id ∈ v_timers v -> armed c = Some id /\ timer_of (state c) = Some id.
Proof. apply sees_machine. Qed.

Lemma poll_wp nonce i (c : connection) Q :
  wp (on_input nonce i) Q c [] -> exists c' out, poll nonce i c = Some (c', out) /\ Q tt c' out.
Proof. unfold wp, poll. destruct (on_input nonce i c []) as [[[[] c'] out]|]; [by eauto|done]. Qed.

Lemma disarm_total (c : connection) out : wp disarm (fun _ _ _ => True) c out.
Proof. unfold disarm. by wp_steps. Qed.

Lemma enter_enters s (c : connection) out : wp (enter s) (fun _ c' _ => state c' = s) c out.
Proof.
  unfold enter. wp_step. wp_step. wp_step. apply (wp_mono _ (fun _ _ _ => True)); [|by intros; wp_steps].
  apply wp_when; [intros _; apply disarm_total|done].
Qed.

Lemma fail_ends f (c : connection) out :
  wp (fail f) (fun _ c' _ => state c' = Idle \/ state c' = Reconnecting) c out.
Proof.
  unfold fail. wp_step. wp_step. wp_step. apply (wp_mono _ (fun _ _ _ => True)).
  { apply wp_when; [|done]. intros _. by wp_steps. }
  intros [] c1 out1 _. wp_step. wp_step. destruct (negb _ && _).
  - wp_step. wp_step. wp_step. eapply wp_mono; [apply enter_enters|].
    intros [] c2 out2 Hst. unfold arm. wp_steps. by right.
  - wp_step. eapply wp_mono; [apply disarm_total|]. intros [] c2 out2 _. wp_steps. by left.
Qed.

Lemma start_scan_scans (c : connection) out : wp start_scan (fun _ c' _ => state c' = Scanning) c out.
Proof.
  unfold start_scan. wp_step. eapply wp_mono; [apply enter_enters|]. intros [] c1 out1 Hst.
  unfold arm. by wp_steps.
Qed.

(** C20. Waits on the kernel are timed: while scanning with no passphrase
    asked for, associating or backing off, the timer of the state is the one
    that runs, and delivering it moves the machine on to another attempt or
    to a reported failure.  While a passphrase is asked for the wait is the
    user's: the machine stays in [Scanning] and no timer runs at all. *)
Theorem waits_are_timed (c : connection) v :
  reaches any_order c v ->
  (forall nonce, nonce_ok nonce ->
     (state c = Scanning /\ pending c = None) \/ state c = Associating \/ state c = Reconnecting ->
     exists id c' out, timer_of (state c) = Some id /\ v_timers v = [id]
       /\ poll nonce (ITimer id) c = Some (c', out)
       /\ (state c' = Idle \/ state c' = Reconnecting \/ (state c = Reconnecting /\ state c' = Scanning)))
  /\ (state c = Scanning -> pending c <> None -> v_timers v = []).
Proof.
  intros Hr. pose proof (reaches_any _ _ Hr) as [_ Hp _ _]. unfold progress in Hp. cbn in Hp. split.
  - intros nonce Hn Hst. destruct Hst as [[Hst Hpe]|[Hst|Hst]]; rewrite Hst in Hp.
    + destruct (poll_wp nonce (ITimer ScanTimeout) c _ ltac:(cbn; unfold on_timer; wp_step; wp_step; rewrite Hst, Hpe; apply fail_ends))
        as (c' & out & Hpoll & Hend). exists ScanTimeout, c', out. rewrite Hpe in Hp. split_and!; [by rewrite Hst|done..|tauto].
    + destruct (poll_wp nonce (ITimer AssocTimeout) c _ ltac:(cbn; unfold on_timer; wp_step; wp_step; rewrite Hst; apply fail_ends))
        as (c' & out & Hpoll & Hend). exists AssocTimeout, c', out. split_and!; [by rewrite Hst|apply Hp|done|tauto].
    + destruct (poll_wp nonce (ITimer ReconnectBackoff) c _ ltac:(cbn; unfold on_timer; wp_step; wp_step; rewrite Hst; apply start_scan_scans))
        as (c' & out & Hpoll & Hend). exists ReconnectBackoff, c', out. split_and!; [by rewrite Hst|apply Hp|done|tauto].
  - intros Hst Hpe. rewrite Hst in Hp. by destruct (pending c).
Qed.

(** C3. No downgrade: every association request is for the network and the BSS
    of the session, carries the session's RSN element and the suite that was
    negotiated -- with management frame protection required where the suite
    requires it -- and, when the network has a profile, at a security that
    profile accepts.  An open association is only ever requested as open. *)
Theorem no_downgrade (c : connection) v nonce i c' out r :
  reaches any_order c v -> input_ok i -> nonce_ok nonce -> poll nonce i c = Some (c', out) ->
  Associate r ∈ out -> state c' = Associating /\ request_ok c' r.
Proof.
  intros Hr Hi Hn Hp Hin. pose proof (poll_post _ _ _ _ _ _ _ Hr Hi Hn Hp) as [_ _ _ Hs].
  rewrite Forall_forall in Hs. exact (Hs _ Hin).
Qed.

(** A reported failure leaves nothing behind: the machine is idle with no
    target, no session and no timer running, and it reports once. *)
Theorem failure_is_final (c : connection) v nonce i c' out f :
  reaches any_order c v -> input_ok i -> nonce_ok nonce -> poll nonce i c = Some (c', out) ->
  AFailed f ∈ out ->
  state c' = Idle /\ session c' = None /\ target c' = None /\ attempts c' = 0
  /\ v_timers (observe v i out) = [] /\ v_state (observe v i out) = Idle.
Proof.
  intros Hr Hi Hn Hp Hin. pose proof (poll_post _ _ _ _ _ _ _ Hr Hi Hn Hp) as [[_ _ Ht Hse] _ _ Hs].
  rewrite Forall_forall in Hs. destruct (Hs _ Hin) as (Hst & ? & ? & Harm & ?).
  split_and!; try done; cbn [v_timers v_state observe].
  - rewrite Harm in Ht. by destruct Ht.
  - by rewrite Hse.
Qed.

(** The machine has, or is getting, addresses. *)
Definition up (c : connection) : Prop := state c = Configuring \/ state c = Connected.


(** A lease out of order connects nothing: the handler does not look at
    the state, so the ACK of an exchange that outlived its association (or
    arrives after [caw disconnect]) is applied and announced as connected
    by a machine that has no network and no session. *)
Theorem stale_lease_connects (c : connection) nonce l :
  state c = Idle -> target c = None -> session c = None -> armed c = None ->
  exists c', poll nonce (ILease (Acquired l)) c = Some (c', [ApplyLease l; Notify Connected])
    /\ state c' = Connected /\ session c' = None /\ target c' = None.
Proof.
  destruct c. cbn. intros -> -> -> ->. eexists. by split; [reflexivity|].
Qed.

(** *** What one input does *)

Definition clear_armed (c : connection) : list Action := ClearTimer <$> option_list (armed c).

Lemma disarm_eq (c : connection) out : disarm c out = Some (tt, set_armed None c, out ++ clear_armed c).
Proof.
  unfold disarm, clear_armed, get_state, mbind, act_bind, with_some. destruct c as [? ? ? ? ? ? [id|] ?]; cbn;
    [done|by rewrite app_nil_r].
Qed.

Lemma enter_eq s (c : connection) out :
  armed c = None \/ armed c = timer_of s ->
  enter s c out = Some (tt, set_state s c, out ++ [Notify s]).
Proof.
  intros Ha. unfold enter, get_state, mbind, act_bind. destruct c as [? ? ? ? ? ? a ?]. cbn in *.
  destruct a as [id|]; cbn; [|done]. destruct Ha as [Ha|Ha]; [done|]. rewrite <- Ha.
  by rewrite bool_decide_true.
Qed.

(** The group suite and the keys of a session whose exchange completed. *)
Definition install_of (s : @Session SaeP DotP) (n : Negotiated) (keys : FourWay.Keys) : KeyInstall :=
  {| ki_pairwise_key :=
       Some {| pk_peer := ch_bssid (se_choice s);
               pk_cipher := default Nl80211.WLAN_CIPHER_SUITE_CCMP (Nl80211.cipher_suite (n_pairwise n));
               pk_ptk := FourWay.keys_ptk keys |};
     ki_group_key := {| gk_cipher := default Nl80211.WLAN_CIPHER_SUITE_CCMP (Nl80211.cipher_suite (n_group n));
                        gk_gtk := FourWay.keys_gtk keys |} |}.

Lemma poll_key_frame nonce f e h (s : @Session SaeP DotP) (c : connection) :
  state c = Handshaking \/ state c = Connected -> Eapol.Eapol_parse f = Ok e ->
  Eapol.eapol_packet_type e = Eapol.PtKey -> session c = Some s -> se_handshake s = Some h ->
  on_input nonce (IEapol f) c [] =
    let '(h', result) := FourWay.poll h (FourWay.Frame f) in
    on_handshake_actions result (set_session (Some (set_handshake (Some h') s)) c) [].
Proof.
  intros Hst He Ht Hs Hh. cbn. unfold on_eapol, poll_handshake, get_state, mbind, act_bind, with_some.
  destruct Hst as [-> | ->]; rewrite He, Ht, Hs, Hh; by destruct (FourWay.poll h _).
Qed.

(** Completing the handshake: message 4 goes out before the keys go in,
    the keys go in -- the pairwise key for the BSS of the session, under the
    negotiated ciphers -- before an address is asked for, and the
    retransmission timer is off; a roam skips the address. *)
Theorem keys_then_address (c : connection) nonce f e s n h h' msg4 keys :
  state c = Handshaking \/ state c = Connected -> Eapol.Eapol_parse f = Ok e ->
  Eapol.eapol_packet_type e = Eapol.PtKey -> session c = Some s -> se_handshake s = Some h ->
  ch_rsn (se_choice s) = Some n ->
  FourWay.poll h (FourWay.Frame f) = (h', Ok [FourWay.Send msg4; FourWay.DisarmTimer; FourWay.Complete keys]) ->
  exists c', poll nonce (IEapol f) c
      = Some (c', [SendEapol msg4] ++ clear_armed c ++ [InstallKeys (install_of s n keys)]
                  ++ if ch_roaming (se_choice s) then [Notify Connected]
                     else [Notify Configuring; StartDhcp])
    /\ session c' = Some (set_handshake (Some h') s) /\ armed c' = None
    /\ state c' = (if ch_roaming (se_choice s) then Connected else Configuring).
Proof.
  intros Hst He Ht Hs Hh Hn Hp. unfold poll. rewrite (poll_key_frame nonce f e h s) by done. rewrite Hp.
  set (c1 := set_session _ c). assert (Hc1 : clear_armed c1 = clear_armed c) by done.
  unfold on_handshake_actions. cbn [for_each handshake_action].
  unfold mbind, act_bind, emit at 1. rewrite disarm_eq, Hc1.
  unfold get_state at 1, pairwise_install, expect_act, group_suite, mbind, act_bind. cbn [session c1 set_armed set_session].
  cbn [se_choice set_handshake mret act_ret mbind option_bind option_bind]. rewrite Hn.
  cbn [mret act_ret existsb is_complete orb when emit].
  unfold configured, get_state at 1, mbind, act_bind. cbn [session set_session set_armed se_choice set_handshake].
  change (session c1) with (Some (set_handshake (Some h') s)). cbn beta iota. cbn [se_choice set_handshake].
  destruct (ch_roaming (se_choice s)); rewrite enter_eq by (by left);
    eexists; (split; [cbn beta iota delta [emit modify]; rewrite ?app_nil_l, <- !app_assoc; reflexivity|done]).
Qed.

(** A group rekey replaces the group key only: its answer goes out, the
    new key goes in, and neither the state, the session's association, the
    pairwise key nor the address is touched. *)
Theorem group_rekey_keeps_link (c : connection) nonce f e s h h' msg2 gtk :
  state c = Connected -> Eapol.Eapol_parse f = Ok e ->
  Eapol.eapol_packet_type e = Eapol.PtKey -> session c = Some s -> se_handshake s = Some h ->
  FourWay.poll h (FourWay.Frame f) = (h', Ok [FourWay.Send msg2; FourWay.NewGtk gtk]) ->
  poll nonce (IEapol f) c
    = Some (set_session (Some (set_handshake (Some h') s)) c,
            [SendEapol msg2;
             InstallKeys {| ki_pairwise_key := None;
                            ki_group_key := {| gk_cipher := group_suite c; gk_gtk := gtk |} |}]).
Proof.
  intros Hst He Ht Hs Hh Hp. unfold poll. rewrite (poll_key_frame nonce f e h s) by (done || auto).
  rewrite Hp.
  assert (Hg : group_suite (set_session (Some (set_handshake (Some h') s)) c) = group_suite c)
    by (unfold group_suite; cbn; by rewrite Hs).
  rewrite <- Hg. reflexivity.
Qed.

(** Exponential backoff: the n-th consecutive failure waits
    2^(n-1) seconds, never more than a minute, and never less than the
    attempt before it -- for every 32-bit count, with no overflow. *)
Theorem backoff_schedule n :
  1 <= n < 2 ^ 32 ->
  backoff_ms n = Z.min (BACKOFF_BASE_MS * 2 ^ (n - 1)) BACKOFF_MAX_MS
  /\ 1000 <= backoff_ms n <= 60000 /\ backoff_ms n <= backoff_ms (n + 1).
Proof.
  intros Hn.
  assert (Hb : forall m, 1 <= m -> backoff_ms m = Z.min (BACKOFF_BASE_MS * 2 ^ (m - 1)) BACKOFF_MAX_MS).
  { intros m Hm. unfold backoff_ms, sat_sub, sat_mul, BACKOFF_BASE_MS, BACKOFF_MAX_MS.
    rewrite Z.max_r, Z.shiftl_1_l by lia.
    destruct (Z.le_gt_cases (m - 1) 20).
    - rewrite (Z.min_l (m - 1) 31), (Z.min_l (m - 1) 20) by lia.
      pose proof (Z.pow_le_mono_r 2 (m - 1) 20 ltac:(lia) ltac:(lia)). lia.
    - pose proof (Z.pow_le_mono_r 2 20 (m - 1) ltac:(lia) ltac:(lia)).
      rewrite (Z.min_r _ 20) by lia. change (2 ^ 20) with 1048576 in *. lia. }
  rewrite !Hb by lia. unfold BACKOFF_BASE_MS, BACKOFF_MAX_MS. split; [done|].
  pose proof (Z.pow_pos_nonneg 2 (n - 1) ltac:(lia) ltac:(lia)).
  replace (n + 1 - 1) with (Z.succ (n - 1)) by lia. rewrite Z.pow_succ_r by lia. lia.
Qed.

(** *** An open network, start to finish *)

Fixpoint poll_all (nonce : exec Eapol.Error bytes) (inputs : list Input) (c : connection)
  : option (connection * list (list Action)) :=
  match inputs with
  | [] => Some (c, [])
  | i :: inputs =>
      '(c, out) ← poll nonce i c;
      '(c, outs) ← poll_all nonce inputs c;
      Some (c, out :: outs)
  end.

Lemma poll_all_cons nonce i inputs (c c1 : connection) out :
  poll nonce i c = Some (c1, out) ->
  poll_all nonce (i :: inputs) c = '(c2, outs) ← poll_all nonce inputs c1; Some (c2, out :: outs).
Proof. intros Hp. cbn. by rewrite Hp. Qed.

Definition open_request (d : Device) (ssid : bytes) (bss : Nl80211.Bss) : AssocRequest :=
  {| as_ifindex := ifindex d; as_ssid := ssid; as_bssid := Nl80211.bss_bssid bss;
     as_freq_mhz := Nl80211.bss_freq_mhz bss; as_auth_type := Nl80211.NL80211_AUTHTYPE_OPEN_SYSTEM;
     as_wpa_versions := 0; as_pairwise_ciphers := []; as_group_cipher := None; as_akms := [];
     as_mfp := None; as_ies := []; as_offload := None; as_authenticated := false |}.

Definition open_profile (ssid : bytes) : Profile :=
  {| p_ssid := ssid; p_security := Open; p_credential := CredNone; p_autoconnect := true;
     p_min_security := Open |}.

(** Joining an open network: a connect command, the scan, the kernel's
    success and a lease take the machine to [Connected], one timer at a time,
    and a network that had no profile is saved. *)
Theorem open_network_connects d ps ssid scan b bss bssid l nonce :
  best_bss scan ssid = Some b -> with_bssid (Nl80211.bss_bssid b) scan = Some bss ->
  Nl80211.bss_rsn bss = None -> Nl80211.bss_security bss = Open ->
  (forall p, find_first (fun p => bool_decide (p_ssid p = ssid)) ps = Some p -> accepts p Open = true) ->
  let known := find_first (fun p => bool_decide (p_ssid p = ssid)) ps in
  exists c, poll_all nonce
      [ICommand (Connect ssid); ScanResults scan; Wireless (Nl80211.Connected bssid Nl80211.Success);
       ILease (Acquired l)] (Connection_new d ps)
    = Some (c, [[Notify Scanning; TriggerScan (ifindex d); SetTimer ScanTimeout SCAN_TIMEOUT_MS];
                [ClearTimer ScanTimeout; Notify Associating; Associate (open_request d ssid bss);
                 SetTimer AssocTimeout ASSOC_TIMEOUT_MS];
                [ClearTimer AssocTimeout; Notify Configuring; StartDhcp];
                [ApplyLease l; Notify Connected]
                ++ if is_none known then [SaveProfile (open_profile ssid)] else []])
    /\ state c = Connected /\ conn_ssid c = Some ssid /\ conn_bssid c = Some (Nl80211.bss_bssid bss)
    /\ conn_security c = Some Open.
Proof.
  intros Hb Hbss Hrsn Hsec Hacc known.
  set (t := {| t_ssid := ssid; t_secret := None; t_retry := from_option p_autoconnect false known;
               t_save := is_none known |}).
  set (ch := {| ch_bssid := Nl80211.bss_bssid bss; ch_freq_mhz := Nl80211.bss_freq_mhz bss;
                ch_signal_dbm := Nl80211.bss_signal_dbm bss; ch_advertised := Open;
                ch_negotiated := Open; ch_rsn := None; ch_roaming := false |}).
  set (s := {| se_choice := ch; se_auth := AuthOpen; se_pmkid := None; se_assoc_ie := [];
               se_handshake := None |} : @Session SaeP DotP).
  set (c0 st se ar := {| device := d; profiles := ps; state := st; target := Some t; session := se;
                         attempts := 0; armed := ar; pending := None |} : connection).
  assert (H1' : poll nonce (ICommand (Connect ssid)) (Connection_new d ps)
    = Some (c0 Scanning None (Some ScanTimeout),
            [Notify Scanning; TriggerScan (ifindex d); SetTimer ScanTimeout SCAN_TIMEOUT_MS])) by reflexivity.
  assert (Hplan : evaluate (c0 Scanning None (Some ScanTimeout)) bss (Some CredNone) false = Ok ch).
  { unfold evaluate. rewrite Hrsn, Hsec. rewrite bool_decide_true by done. cbn [mbind exec_bind].
    change (profile _) with known. destruct known as [p|] eqn:Hk; [|done].
    by rewrite Hacc. }
  assert (H2' : poll nonce (ScanResults scan) (c0 Scanning None (Some ScanTimeout))
    = Some (c0 Associating (Some s) (Some AssocTimeout),
            [ClearTimer ScanTimeout; Notify Associating; Associate (open_request d ssid bss);
             SetTimer AssocTimeout ASSOC_TIMEOUT_MS])).
  { unfold poll, on_input, on_scan_results, select, plan. unfold get_state, mbind, act_bind.
    cbn [state c0 target t_ssid t]. rewrite Hb. rewrite Hbss. unfold expect_act, mret, act_ret.
    rewrite Hrsn. cbn [is_none is_some negb]. unfold credential. rewrite Hplan. reflexivity. }
  assert (H3' : poll nonce (Wireless (Nl80211.Connected bssid Nl80211.Success))
      (c0 Associating (Some s) (Some AssocTimeout))
    = Some (c0 Configuring (Some s) None, [ClearTimer AssocTimeout; Notify Configuring; StartDhcp])) by reflexivity.
  rewrite (poll_all_cons _ _ _ _ _ _ H1'), (poll_all_cons _ _ _ _ _ _ H2'), (poll_all_cons _ _ _ _ _ _ H3').
  clear H1' H2' H3' Hplan. cbn [poll_all]. destruct known as [p|] eqn:Hk; subst t.
  - eexists. split; [reflexivity|done].
  - eexists. split; [reflexivity|]. cbn. rewrite bool_decide_true by done. done.
Qed.

(** Frames are looked at in [Handshaking] and [Connected] only: when message 4
    is lost, the access point's retransmitted message 3 goes unanswered. *)
Lemma eapol_dropped_while_configuring (c : connection) nonce f :
  state c = Configuring -> poll nonce (IEapol f) c = Some (c, []).
Proof. intros Hst. unfold poll. cbn. unfold on_eapol, get_state, mbind, act_bind. by rewrite Hst. Qed.

Lemma dhcp_idle_is_silent (dc : DhcpClient.Dhcp4) inputs :
  DhcpClient.c_state dc = DhcpClient.Init -> DhcpClient.c_lease dc = None ->
  (forall x, DhcpClient.Start x ∉ inputs) ->
  DhcpClient.run dc inputs = (dc, replicate (length inputs) []).
Proof.
  intros Hs Hl Hi. induction inputs as [|i inputs IH]; cbn; [done|].
  assert (Hp : DhcpClient.poll dc i = (dc, [])).
  { destruct i as [x|b|t]; cbn.
    - exfalso. apply (Hi x). left.
    - unfold DhcpClient.on_datagram. rewrite Hs. by repeat case_match.
    - destruct t; cbn; unfold DhcpClient.retransmit; rewrite ?Hs, ?Hl; done. }
  rewrite Hp, IH; [done|]. intros x Hx. apply (Hi x). by right.
Qed.

(** A refused request stalls the connection: the NAK of the first
    exchange is reported as a lost lease, which [Configuring] ignores; the
    client is back in [Init] and answers no datagram and no timer any more,
    and the connection has no timer of its own, so nothing asks again. *)
Theorem nak_stalls_configuration (c : connection) v nonce dc b dc' inputs :
  reaches any_order c v -> state c = Configuring -> DhcpClient.c_state dc = DhcpClient.Requesting ->
  DhcpClient.poll dc (DhcpClient.Datagram b) = (dc', [DhcpClient.Deconfigure DhcpClient.ReasonNak]) ->
  (forall x, DhcpClient.Start x ∉ inputs) ->
  poll nonce (ILease (Lost DhcpClient.ReasonNak)) c = Some (c, [])
  /\ v_timers v = []
  /\ DhcpClient.run dc' inputs = (dc', replicate (length inputs) []).
Proof.
  intros Hr Hst Hd Hp Hi. split_and!.
  - unfold poll. cbn. unfold get_state, mbind, act_bind. by rewrite Hst.
  - destruct (reaches_any _ _ Hr) as [[_ Ha Ht _] _ _ _]. cbn in Ht. rewrite Hst in Ha.
    destruct Ht as [->|Ht]; [done|]. rewrite Ht. by destruct Ha as [-> | ->].
  - assert (Hdc : dc' = DhcpClient.drop_lease dc).
    { cbn in Hp. unfold DhcpClient.on_datagram in Hp. rewrite Hd in Hp.
      destruct (to_option _) as [m|]; [|done]. destruct (_ || _); [done|].
      destruct (DhcpMessage.message_type m) as [[]|]; try done.
      - unfold DhcpClient.on_ack in Hp. by destruct (to_option _).
      - unfold DhcpClient.on_nak in Hp. congruence. }
    subst dc'. by apply dhcp_idle_is_silent.
Qed.

(** The wait for message 1 has no deadline: once the kernel reports the
    association of a network keyed here, the only timer is cleared, and until
    a frame arrives no timer can fire -- an access point that never starts
    the handshake leaves the machine in [Handshaking] for good. *)
Theorem handshake_wait_untimed (c : connection) v bssid b pmk s :
  reaches any_order c v -> state c = Associating -> session c = Some s -> se_auth s = Ready pmk ->
  length b = 32%nat ->
  exists c' v', v' = observe v (Wireless (Nl80211.Connected bssid Nl80211.Success)) [ClearTimer AssocTimeout; Notify Handshaking]
    /\ poll (Ok b) (Wireless (Nl80211.Connected bssid Nl80211.Success)) c
       = Some (c', [ClearTimer AssocTimeout; Notify Handshaking])
    /\ state c' = Handshaking /\ v_timers v' = []
    /\ forall id, poll (Ok b) (ITimer id) c' = Some (c', []).
Proof.
  intros Hr Hst Hs Ha Hb. destruct (reaches_any _ _ Hr) as [[Hc Har Ht _] Hp _ _].
  unfold progress in Hp. rewrite Hst in Hp. destruct Hp as [Hts _]. cbn in Ht, Hts.
  assert (Harm : armed c = Some AssocTimeout).
  { rewrite Hst in Har. destruct Har as [Hn|]; [|done]. rewrite Hts, Hn in Ht. by destruct Ht. }
  destruct (Hc s Hs) as [Hok _]. pose proof (sok_auth _ _ Hok) as Hsec. rewrite Ha in Hsec.
  destruct (secured_rsn _ Hsec) as [n Hn].
  set (cfg := {| FourWay.cfg_akm := n_akm n; FourWay.cfg_own_mac := mac (device c);
                 FourWay.cfg_bssid := ch_bssid (se_choice s); FourWay.cfg_assoc_rsn_ie := se_assoc_ie s;
                 FourWay.cfg_beacon_rsn_ie := n_beacon_ie n |}).
  set (s' := set_handshake (Some (FourWay.with_snonce pmk cfg b)) (set_auth Running s)).
  exists (set_armed None (set_state Handshaking (set_session (Some s') c))). eexists. split; [reflexivity|].
  split_and!.
  - clear - Hst Hs Ha Hn Harm. subst s' cfg. destruct c. cbn in Hst, Hs, Harm. subst.
    unfold poll. cbn. unfold on_wireless, on_associated. cbn. unfold get_state, mbind, act_bind. cbn. rewrite Ha.
    unfold start_handshake, get_state, mbind, act_bind. cbn. rewrite Hn. reflexivity.
  - done.
  - cbn. rewrite Hts. done.
  - intros id. destruct id; try done.
Qed.

(** *** Histories by computation *)

Fixpoint play (nonce : exec Eapol.Error bytes) (inputs : list Input) (cv : connection * view)
  : option (connection * view) :=
  match inputs with
  | [] => Some cv
  | i :: inputs =>
      if bool_decide (lease_in_order (fst cv) i) then
        '(c, out) ← poll nonce i (fst cv); play nonce inputs (c, observe (snd cv) i out)
      else None
  end.

Definition boot (d : Device) (ps : list Profile) : connection * view :=
  (Connection_new d ps, {| v_state := Idle; v_timers := []; v_keyed := false |}).

Lemma play_reaches_from nonce inputs cv cv' :
  reaches lease_in_order (fst cv) (snd cv) -> Forall input_ok inputs -> nonce_ok nonce ->
  play nonce inputs cv = Some cv' -> reaches lease_in_order (fst cv') (snd cv').
Proof.
  intros Hr Hi Hn. revert cv Hr. induction Hi as [|i inputs Hi _ IH]; intros cv Hr; cbn.
  - by intros [= <-].
  - case_bool_decide as Ho; [|done]. destruct (poll nonce i (fst cv)) as [[c out]|] eqn:Hp; cbn; [|done].
    intros Hq. eapply IH; [|exact Hq]. cbn. by eapply reaches_poll.
Qed.

Lemma play_reaches d ps nonce inputs cv :
  Forall input_ok inputs -> nonce_ok nonce -> play nonce inputs (boot d ps) = Some cv ->
  reaches lease_in_order (fst cv) (snd cv).
Proof. apply play_reaches_from. apply reaches_new. Qed.

Lemma reaches_weaken P (c : connection) v : reaches P c v -> reaches any_order c v.
Proof. induction 1; [apply reaches_new|by eapply reaches_poll|by eapply reaches_late|by apply reaches_saved|by apply reaches_forget]. Qed.
End system.

#[export] Instance input_ok_dec i : Decision (input_ok i).
Proof. destruct i; cbn; apply _. Defined.

Module Demo.
#[local] Existing Instance Toy.prims.
#[local] Existing Instance Toy.laws.

(** The default build: no 802.1X, and pre-shared keys where SAE would be. *)
#[local] Instance build : Build PskProvider PskProvider := {
  feature_enterprise := false;
  sae_new secret := {| psk_passphrase := secret |};
  sae_pmkid _ := None;
  enterprise_new _ _ _ _ _ := Err (EnterpriseErr "802.1X is not built in");
}.
#[local] Instance build_safe : BuildSafe build.
Proof. split; done. Defined.

Definition own : bytes := [2; 0; 0; 0; 0; 1].
Definition ap : bytes := [2; 0; 0; 0; 0; 2].
Definition ssid : bytes := [104; 111; 109; 101].
Definition secret : bytes := replicate 8 97.
Definition device : Device :=
  {| ifindex := 3; mac := own;
     caps := {| offloads_4way_psk := false; offloads_4way_1x := false; offloads_sae := false |} |}.
Definition beacon_rsn : bytes := [48; 20; 1; 0; 0; 15; 172; 4; 1; 0; 0; 15; 172; 4; 1; 0; 0; 15; 172; 2; 0; 0].
Definition rsn : RsnIe := match RsnIe_parse beacon_rsn with Ok r => r | _ =>
  {| rsn_version := 0; rsn_group_cipher := Ccmp128; rsn_pairwise_ciphers := []; rsn_akms := [];
     rsn_capabilities := 0; rsn_mfp_capable := false; rsn_mfp_required := false;
     rsn_group_mgmt_cipher := None; rsn_raw := [] |} end.
Definition bss (security : Security) (r : option RsnIe) : Nl80211.Bss :=
  {| Nl80211.bss_bssid := ap; Nl80211.bss_ssid := ssid; Nl80211.bss_freq_mhz := 2412;
     Nl80211.bss_signal_dbm := -50; Nl80211.bss_last_seen_ms := 0; Nl80211.bss_capability := 0;
     Nl80211.bss_security := security; Nl80211.bss_rsn := r |}.
Definition home : Nl80211.Bss := bss Wpa2Personal (Some rsn).
Definition cafe : Nl80211.Bss := bss Open None.

Definition snonce : bytes := replicate 32 1.
Definition anonce : bytes := replicate 32 2.
Definition nonce : exec Eapol.Error bytes := Ok snonce.
Definition pmk : bytes := derive_pmk secret ssid.
Definition ptk : Ptk :=
  match derive_ptk pmk Psk ap own anonce snonce with
  | Ok p => p | _ => {| kck := []; kek := []; tk := [] |} end.
Definition gtk : Eapol.Gtk := FourWay.Demo.gtk.
Definition data : bytes :=
  beacon_rsn ++ Eapol.kde OUI_IEEE Eapol.KDE_GTK (Eapol.gtk_data gtk) ++ [221; 0].
Definition signed (f : Eapol.KeyFrame) : bytes :=
  FourWay.Demo.get [] (@Eapol.KeyFrame_encode_signed _ Eapol.Error f 2 (kck ptk) HmacSha1).
Definition msg1 (c : Z) : bytes :=
  FourWay.Demo.get [] (@Eapol.KeyFrame_encode Eapol.Error (FourWay.ap_msg1 HmacSha1 c anonce) 2).
Definition msg3 (c : Z) : bytes := signed (FourWay.ap_msg3 HmacSha1 c anonce (replicate 8 166 ++ data)).

Definition up : Input := Wireless (Nl80211.Connected (Some ap) Nl80211.Success).
Definition scanned : list Input := [ICommand (Connect ssid); ScanResults [home]].
Definition associating : list Input := scanned ++ [ICommand (Secret secret)].
Definition handshaking : list Input := associating ++ [up].
Definition exchanging : list Input := handshaking ++ [IEapol (msg1 1)].
Definition last_frame : Input := IEapol (msg3 2).
Definition configuring : list Input := handshaking ++ [IEapol (msg1 1); last_frame].
Definition connected : list Input := configuring ++ [ILease (Acquired DhcpClient.Demo.lease)].

Definition at_ (inputs : list Input) : @Connection PskProvider PskProvider * view :=
  default (boot device []) (play nonce inputs (boot device [])).
Definition step (inputs : list Input) (i : Input) : @Connection PskProvider PskProvider * list Action :=
  default (fst (at_ inputs), []) (poll nonce i (fst (at_ inputs))).

(** One piece of an answer. *)
Definition request_in (out : list Action) : option AssocRequest :=
  find_map (fun a => match a with Associate r => Some r | _ => None end) out.
Definition the {A} (o : option A) (d : A) : A := default d o.
Definition the_session (inputs : list Input) : @Session PskProvider PskProvider :=
  default {| se_choice := {| ch_bssid := []; ch_freq_mhz := 0; ch_signal_dbm := 0; ch_advertised := Open;
                             ch_negotiated := Open; ch_rsn := None; ch_roaming := false |};
             se_auth := AuthOpen; se_pmkid := None; se_assoc_ie := []; se_handshake := None |}
    (session (fst (at_ inputs))).
Definition the_rsn (inputs : list Input) : Negotiated :=
  default {| n_akm := Psk; n_pairwise := Ccmp128; n_group := Ccmp128; n_group_mgmt := None;
             n_mfp_capable := false; n_mfp_required := false; n_beacon_ie := [] |}
    (ch_rsn (se_choice (the_session inputs))).
Definition the_handshake (inputs : list Input) : FourWay.FourWay :=
  default FourWay.Demo.start (se_handshake (the_session inputs)).
Definition group_msg (c : Z) : bytes :=
  signed (FourWay.ap_frame
    (Z.lor (Z.lor (Z.lor (Z.lor (version_bits HmacSha1) Eapol.KI_MIC) Eapol.KI_ACK) Eapol.KI_SECURE)
       Eapol.KI_ENCRYPTED) c anonce (replicate 8 166 ++ data)).
Definition nak : bytes :=
  DhcpMessage.Message_encode (DhcpClient.Demo.reply DhcpOptions.Nak []).
End Demo.

Section witnesses.
#[local] Existing Instance Toy.prims.
#[local] Existing Instance Toy.laws.
#[local] Existing Instance Demo.build.
#[local] Existing Instance Demo.build_safe.

Lemma demo_reaches inputs :
  bool_decide (Forall input_ok inputs) && is_some (play Demo.nonce inputs (boot Demo.device [])) = true ->
  reaches lease_in_order (fst (Demo.at_ inputs)) (snd (Demo.at_ inputs)).
Proof.
  intros Hb. apply andb_true_iff in Hb as [Hi Hp]. apply bool_decide_eq_true in Hi. unfold Demo.at_.
  destruct (play Demo.nonce inputs _) as [cv|] eqn:He; [|done]. cbn. exact (play_reaches _ _ _ _ _ Hi (eq_refl : nonce_ok Demo.nonce) He).
Qed.

Lemma demo_reaches_any inputs :
  bool_decide (Forall input_ok inputs) && is_some (play Demo.nonce inputs (boot Demo.device [])) = true ->
  reaches any_order (fst (Demo.at_ inputs)) (snd (Demo.at_ inputs)).
Proof. intros Hb. eapply reaches_weaken. by apply demo_reaches. Qed.

(** The whole WPA2 connection, from the command to the lease. *)
Example demo_connects :
  let cv := Demo.at_ Demo.connected in
  state (fst cv) = Connected /\ v_keyed (snd cv) = true /\ v_timers (snd cv) = []
  /\ p_ssid <$> profiles (fst cv) = [Demo.ssid].
Proof. vm_compute. done. Qed.

Lemma connection_never_panics_witness :
  exists c' out, poll Demo.nonce (IEapol (Demo.msg3 2)) (fst (Demo.at_ Demo.connected)) = Some (c', out).
Proof.
  apply (connection_never_panics (fst (Demo.at_ Demo.connected)) (snd (Demo.at_ Demo.connected))).
  - apply demo_reaches_any. vm_compute. reflexivity.
  - apply (bool_decide_unpack _). vm_compute. exact I.
  - reflexivity.
Defined.

Lemma daemon_sees_the_machine_witness :
  v_state (snd (Demo.at_ Demo.associating)) = state (fst (Demo.at_ Demo.associating))
  /\ (length (v_timers (snd (Demo.at_ Demo.associating))) <= 1)%nat
  /\ forall id, id ∈ v_timers (snd (Demo.at_ Demo.associating)) ->
       armed (fst (Demo.at_ Demo.associating)) = Some id
       /\ timer_of (state (fst (Demo.at_ Demo.associating))) = Some id.
Proof. apply daemon_sees_the_machine, demo_reaches_any. vm_compute. reflexivity. Defined.

Lemma waits_are_timed_witness :
  (exists id c' out, timer_of (state (fst (Demo.at_ Demo.associating))) = Some id
    /\ v_timers (snd (Demo.at_ Demo.associating)) = [id]
    /\ poll Demo.nonce (ITimer id) (fst (Demo.at_ Demo.associating)) = Some (c', out)
    /\ (state c' = Idle \/ state c' = Reconnecting
        \/ (state (fst (Demo.at_ Demo.associating)) = Reconnecting /\ state c' = Scanning)))
  /\ v_timers (snd (Demo.at_ Demo.scanned)) = [].
Proof.
  split.
  - apply (waits_are_timed (fst (Demo.at_ Demo.associating)) (snd (Demo.at_ Demo.associating))).
    + apply demo_reaches_any. vm_compute. reflexivity.
    + reflexivity.
    + right. left. vm_compute. reflexivity.
  - apply (waits_are_timed (fst (Demo.at_ Demo.scanned)) (snd (Demo.at_ Demo.scanned))).
    + apply demo_reaches_any. vm_compute. reflexivity.
    + vm_compute. reflexivity.
    + vm_compute. discriminate.
Defined.

Lemma no_downgrade_witness :
  let s := Demo.step Demo.scanned (ICommand (Secret Demo.secret)) in
  let r := Demo.the (Demo.request_in (snd s)) (open_request Demo.device [] Demo.cafe) in
  state (fst s) = Associating /\ request_ok (fst s) r.
Proof.
  apply (no_downgrade (fst (Demo.at_ Demo.scanned)) (snd (Demo.at_ Demo.scanned)) Demo.nonce
    (ICommand (Secret Demo.secret)) _ (snd (Demo.step Demo.scanned (ICommand (Secret Demo.secret))))).
  - apply demo_reaches_any. vm_compute. reflexivity.
  - exact I.
  - reflexivity.
  - vm_compute. reflexivity.
  - vm_compute. repeat (apply list_elem_of_here || apply list_elem_of_further).
Defined.

Lemma failure_is_final_witness :
  let i := Wireless (Nl80211.Connected None (Nl80211.Refused 1)) in
  let s := Demo.step Demo.associating i in
  state (fst s) = Idle /\ session (fst s) = None /\ target (fst s) = None /\ attempts (fst s) = 0
  /\ v_timers (observe (snd (Demo.at_ Demo.associating)) i (snd s)) = []
  /\ v_state (observe (snd (Demo.at_ Demo.associating)) i (snd s)) = Idle.
Proof.
  apply (failure_is_final (fst (Demo.at_ Demo.associating)) (snd (Demo.at_ Demo.associating)) Demo.nonce
    (Wireless (Nl80211.Connected None (Nl80211.Refused 1))) _ _ (Refused 1)).
  - apply demo_reaches_any. vm_compute. reflexivity.
  - exact I.
  - reflexivity.
  - vm_compute. reflexivity.
  - vm_compute. repeat (apply list_elem_of_here || apply list_elem_of_further).
Defined.


Lemma stale_lease_connects_witness :
  exists c', poll Demo.nonce (ILease (Acquired DhcpClient.Demo.lease))
               (fst (Demo.at_ (Demo.configuring ++ [ICommand CmdDisconnect])))
             = Some (c', [ApplyLease DhcpClient.Demo.lease; Notify Connected])
    /\ state c' = Connected /\ session c' = None /\ target c' = None.
Proof. apply stale_lease_connects; vm_compute; reflexivity. Defined.

Lemma keys_then_address_witness :
  let pre := Demo.handshaking ++ [IEapol (Demo.msg1 1)] in
  let c := fst (Demo.at_ pre) in
  let m3 := Demo.msg3 2 in
  exists c', poll Demo.nonce (IEapol m3) c
      = Some (c', [SendEapol (Demo.the (head (omap (fun a => match a with SendEapol m => Some m | _ => None end)
                                          (snd (Demo.step pre (IEapol m3))))) [])]
                  ++ clear_armed c
                  ++ [InstallKeys (install_of (Demo.the_session pre) (Demo.the_rsn pre)
                                     {| FourWay.keys_ptk := Demo.ptk; FourWay.keys_gtk := Demo.gtk |})]
                  ++ if ch_roaming (se_choice (Demo.the_session pre)) then [Notify Connected]
                     else [Notify Configuring; StartDhcp])
    /\ session c' = Some (set_handshake (Some (fst (FourWay.poll (Demo.the_handshake pre) (FourWay.Frame m3))))
                            (Demo.the_session pre))
    /\ armed c' = None
    /\ state c' = (if ch_roaming (se_choice (Demo.the_session pre)) then Connected else Configuring).
Proof.
  intros pre c m3. apply (keys_then_address c Demo.nonce m3 (FourWay.Demo.frame_of m3)
    (Demo.the_session pre) (Demo.the_rsn pre) (Demo.the_handshake pre));
    try (vm_compute; reflexivity). left. vm_compute. reflexivity.
Defined.

Lemma group_rekey_keeps_link_witness :
  let pre := Demo.connected in
  let c := fst (Demo.at_ pre) in
  let g := Demo.group_msg 3 in
  poll Demo.nonce (IEapol g) c
  = Some (set_session (Some (set_handshake (Some (fst (FourWay.poll (Demo.the_handshake pre) (FourWay.Frame g))))
            (Demo.the_session pre))) c,
          [SendEapol (Demo.the (head (omap (fun a => match a with SendEapol m => Some m | _ => None end)
                                 (snd (Demo.step pre (IEapol g))))) []);
           InstallKeys {| ki_pairwise_key := None;
                          ki_group_key := {| gk_cipher := group_suite c; gk_gtk := Demo.gtk |} |}]).
Proof.
  intros pre c g. apply (group_rekey_keeps_link c Demo.nonce g (FourWay.Demo.frame_of g)
    (Demo.the_session pre) (Demo.the_handshake pre)); vm_compute; reflexivity.
Defined.

Lemma backoff_schedule_witness :
  backoff_ms 4 = Z.min (BACKOFF_BASE_MS * 2 ^ (4 - 1)) BACKOFF_MAX_MS
  /\ 1000 <= backoff_ms 4 <= 60000 /\ backoff_ms 4 <= backoff_ms (4 + 1).
Proof. apply (backoff_schedule 4). lia. Defined.

Lemma open_network_connects_witness :
  exists c, poll_all Demo.nonce
      [ICommand (Connect Demo.ssid); ScanResults [Demo.cafe];
       Wireless (Nl80211.Connected None Nl80211.Success); ILease (Acquired DhcpClient.Demo.lease)]
      (Connection_new (SaeP := PskProvider) (DotP := PskProvider) Demo.device [])
    = Some (c, [[Notify Scanning; TriggerScan 3; SetTimer ScanTimeout SCAN_TIMEOUT_MS];
                [ClearTimer ScanTimeout; Notify Associating; Associate (open_request Demo.device Demo.ssid Demo.cafe);
                 SetTimer AssocTimeout ASSOC_TIMEOUT_MS];
                [ClearTimer AssocTimeout; Notify Configuring; StartDhcp];
                [ApplyLease DhcpClient.Demo.lease; Notify Connected] ++ [SaveProfile (open_profile Demo.ssid)]])
    /\ state c = Connected /\ conn_ssid c = Some Demo.ssid /\ conn_bssid c = Some Demo.ap
    /\ conn_security c = Some Open.
Proof. apply (open_network_connects Demo.device [] Demo.ssid [Demo.cafe] Demo.cafe Demo.cafe); done. Defined.

Lemma nak_stalls_configuration_witness :
  poll Demo.nonce (ILease (Lost DhcpClient.ReasonNak)) (fst (Demo.at_ Demo.configuring))
    = Some (fst (Demo.at_ Demo.configuring), [])
  /\ v_timers (snd (Demo.at_ Demo.configuring)) = []
  /\ DhcpClient.run (fst (DhcpClient.poll DhcpClient.Demo.requesting (DhcpClient.Datagram Demo.nak)))
       [DhcpClient.Timeout DhcpClient.Retransmit]
     = (fst (DhcpClient.poll DhcpClient.Demo.requesting (DhcpClient.Datagram Demo.nak)), replicate 1 []).
Proof.
  apply (nak_stalls_configuration (fst (Demo.at_ Demo.configuring)) (snd (Demo.at_ Demo.configuring)) Demo.nonce
    DhcpClient.Demo.requesting Demo.nak
    (fst (DhcpClient.poll DhcpClient.Demo.requesting (DhcpClient.Datagram Demo.nak)))
    [DhcpClient.Timeout DhcpClient.Retransmit]).
  - apply demo_reaches_any. vm_compute. reflexivity.
  - vm_compute. reflexivity.
  - vm_compute. reflexivity.
  - vm_compute. reflexivity.
  - intros x Hx. apply list_elem_of_singleton in Hx. discriminate.
Defined.

Lemma handshake_wait_untimed_witness :
  let i := Wireless (Nl80211.Connected None Nl80211.Success) in
  exists c' v', v' = observe (snd (Demo.at_ Demo.associating)) i [ClearTimer AssocTimeout; Notify Handshaking]
    /\ poll (Ok Demo.snonce) i (fst (Demo.at_ Demo.associating))
       = Some (c', [ClearTimer AssocTimeout; Notify Handshaking])
    /\ state c' = Handshaking /\ v_timers v' = []
    /\ forall id, poll (Ok Demo.snonce) (ITimer id) c' = Some (c', []).
Proof.
  apply (handshake_wait_untimed (fst (Demo.at_ Demo.associating)) (snd (Demo.at_ Demo.associating)) None Demo.snonce
    Demo.pmk (Demo.the_session Demo.associating)).
  - apply demo_reaches_any. vm_compute. reflexivity.
  - vm_compute. reflexivity.
  - vm_compute. reflexivity.
  - vm_compute. reflexivity.
  - reflexivity.
Defined.
End witnesses.
