(* ===== verification/Timers.v ===== *)
(** * Deadlines: [cawd], timers.rs

    The daemon's one table of deadlines, keyed by what armed them.  An
    [Instant] is an integer.  Of the [timerfd] that wakes the loop, what it is
    armed with; the calls on it are in [System]. *)
From S2P Require Import Prelude.

Section wheel.
Context {K : Type} `{EqDecision K}.

Record Entry := { key : K; deadline : Z }.

(** [Timers<K>]: an unordered [Vec] *)
Abbreviation Timers := (list Entry).

Fixpoint arm_at (k : K) (at_ : Z) (ts : Timers) : Timers :=
  match ts with
  | [] => [{| key := k; deadline := at_ |}]
  | e :: ts => if bool_decide (key e = k) then {| key := k; deadline := at_ |} :: ts else e :: arm_at k at_ ts
  end.
Definition arm (k : K) (delay now : Z) (ts : Timers) : Timers := arm_at k (now + delay) ts.

Definition cancel_if (p : K -> bool) (ts : Timers) : Timers := filter (fun e => p (key e) = false) ts.
Definition cancel (k : K) (ts : Timers) : Timers := filter (fun e => key e <> k) ts.

Definition next_deadline (ts : Timers) : option Z :=
  fold_left (fun acc e => Some (match acc with Some m => Z.min m (deadline e) | None => deadline e end)) ts None.

Definition expired (now : Z) (ts : Timers) : list K * Timers :=
  let due := filter (fun e => deadline e <= now) ts in
  (key <$> sort_by_key deadline due, filter (fun e => now < deadline e) ts).

Definition keys (ts : Timers) : list K := key <$> ts.

(** ** The table's invariant: one entry per key *)

Lemma elem_keys k ts : k ∈ keys ts <-> exists e, e ∈ ts /\ key e = k.
Proof. unfold keys. rewrite list_elem_of_fmap. naive_solver. Qed.

Lemma keys_filter (P : Entry -> Prop) `{forall e, Decision (P e)} ts k : k ∈ keys (filter P ts) -> k ∈ keys ts.
Proof. rewrite !elem_keys. intros (e & [_ He]%list_elem_of_filter & Hk). by exists e. Qed.

Lemma NoDup_keys_filter (P : Entry -> Prop) `{forall e, Decision (P e)} ts :
  NoDup (keys ts) -> NoDup (keys (filter P ts)).
Proof.
  induction ts as [|e ts IH]; intros Hn; [done|]. apply NoDup_cons in Hn as [Hk Hn].
  rewrite filter_cons. case_decide; [|by apply IH]. apply NoDup_cons. split; [|by apply IH].
  intros Hin. apply Hk. by eapply keys_filter.
Qed.

Lemma keys_cancel k ts : keys (cancel k ts) = filter (fun k' => k' <> k) (keys ts).
Proof.
  unfold keys, cancel. induction ts as [|e ts IH]; [done|].
  rewrite fmap_cons. destruct (decide (key e = k)).
  - by rewrite !filter_cons_False, IH by naive_solver.
  - by rewrite !filter_cons_True, fmap_cons, IH by naive_solver.
Qed.

Lemma filter_neq_id (k : K) (l : list K) : k ∉ l -> filter (fun k' => k' <> k) l = l.
Proof.
  induction l as [|x l IH]; [done|]. intros Hn%not_elem_of_cons. rewrite filter_cons_True by naive_solver.
  by rewrite IH by naive_solver.
Qed.

Lemma keys_arm k at_ ts :
  NoDup (keys ts) -> keys (arm_at k at_ ts) ≡ₚ k :: filter (fun k' => k' <> k) (keys ts).
Proof.
  unfold keys. induction ts as [|e ts IH]; intros Hn; [done|]. cbn [arm_at].
  apply NoDup_cons in Hn as [Hk Hn]. rewrite fmap_cons. case_bool_decide as He.
  - rewrite fmap_cons, filter_cons_False by naive_solver. cbn. subst k. by rewrite filter_neq_id.
  - rewrite fmap_cons, filter_cons_True by naive_solver. rewrite IH by done. apply Permutation_swap.
Qed.

Lemma NoDup_arm k at_ ts : NoDup (keys ts) -> NoDup (keys (arm_at k at_ ts)).
Proof.
  intros Hn. rewrite keys_arm by done. apply NoDup_cons. split.
  - intros [? _]%list_elem_of_filter. done.
  - by apply NoDup_filter.
Qed.

Lemma NoDup_cancel k ts : NoDup (keys ts) -> NoDup (keys (cancel k ts)).
Proof. apply NoDup_keys_filter. Qed.

Lemma elem_keys_arm k at_ ts k' : k' ∈ keys (arm_at k at_ ts) <-> k' = k \/ k' ∈ keys ts.
Proof.
  unfold keys. induction ts as [|e ts IH]; cbn [arm_at].
  - rewrite fmap_cons, elem_of_cons. done.
  - case_bool_decide as He; rewrite !fmap_cons, !elem_of_cons, ?IH; naive_solver.
Qed.

Lemma elem_keys_cancel k ts k' : k' ∈ keys (cancel k ts) <-> k' <> k /\ k' ∈ keys ts.
Proof. rewrite keys_cancel, list_elem_of_filter. done. Qed.

Lemma elem_keys_cancel_if p ts k : k ∈ keys (cancel_if p ts) <-> p k = false /\ k ∈ keys ts.
Proof.
  rewrite !elem_keys. unfold cancel_if. setoid_rewrite list_elem_of_filter. naive_solver.
Qed.

Lemma NoDup_cancel_if p ts : NoDup (keys ts) -> NoDup (keys (cancel_if p ts)).
Proof. apply NoDup_keys_filter. Qed.

(** ** Expiry *)

Lemma expired_exact_split now ts :
  exists due, fst (expired now ts) = key <$> due /\ ascending deadline due
    /\ Forall (fun e => e ∈ ts /\ deadline e <= now) due
    /\ Forall (fun e => now < deadline e) (snd (expired now ts))
    /\ due ++ snd (expired now ts) ≡ₚ ts.
Proof.
  exists (sort_by_key deadline (filter (fun e => deadline e <= now) ts)). split_and!; [done|apply sort_by_key_ascending|..].
  - rewrite sort_by_key_perm. apply Forall_forall. by intros e [? ?]%list_elem_of_filter.
  - apply Forall_forall. by intros e [? ?]%list_elem_of_filter.
  - rewrite sort_by_key_perm. cbn. clear. induction ts as [|e ts IH]; [done|].
    rewrite !filter_cons. destruct (Z.le_gt_cases (deadline e) now).
    + rewrite decide_True, decide_False by lia. cbn. by rewrite IH.
    + rewrite decide_False, decide_True by lia. by rewrite <- Permutation_middle, IH.
Qed.

(** Expiry takes exactly what is due, soonest first, and nothing is lost:
    the keys returned are those of the entries due, in the order of their
    deadlines, what is kept is what is not due, and together they are the
    table. *)
Theorem expired_exact now ts :
  exists due, fst (expired now ts) = key <$> due /\ ascending deadline due
    /\ Forall (fun e => e ∈ ts /\ deadline e <= now) due
    /\ Forall (fun e => now < deadline e) (snd (expired now ts))
    /\ due ++ snd (expired now ts) ≡ₚ ts.
Proof. apply expired_exact_split. Qed.

Lemma next_deadline_acc ts acc :
  exists m, fold_left (fun acc e => Some (match acc with Some m => Z.min m (deadline e) | None => deadline e end))
              ts (Some acc) = Some m
    /\ m <= acc /\ Forall (fun e => m <= deadline e) ts /\ (m = acc \/ exists e, e ∈ ts /\ deadline e = m).
Proof.
  revert acc. induction ts as [|e ts IH]; intros acc; cbn.
  - exists acc. split_and!; [done|lia|constructor|by left].
  - destruct (IH (Z.min acc (deadline e))) as (m & -> & Hm & Hall & Hor). exists m.
    split_and!; [done|lia|constructor; [lia|done]|].
    destruct Hor as [->|(e' & ? & ?)]; [|right; exists e'; split; [by right|done]].
    destruct (Z.le_gt_cases acc (deadline e)); [left; lia|right; exists e; split; [left|lia]].
Qed.

Lemma next_deadline_spec ts :
  match next_deadline ts with
  | Some m => Forall (fun e => m <= deadline e) ts /\ exists e, e ∈ ts /\ deadline e = m
  | None => ts = []
  end.
Proof.
  unfold next_deadline. destruct ts as [|e ts]; [done|]. cbn.
  destruct (next_deadline_acc ts (deadline e)) as (m & -> & Hm & Hall & Hor). split; [by constructor|].
  destruct Hor as [->|(e' & ? & ?)]; [exists e; split; [left|done]|exists e'; split; [by right|done]].
Qed.

(** The wake-up is right: waking at the nearest deadline finds something
    due, waking earlier finds nothing, and with nothing armed there is nothing
    to wake for. *)
Theorem wake_up_exact ts :
  match next_deadline ts with
  | Some m => fst (expired m ts) <> [] /\ forall now, now < m -> expired now ts = ([], ts)
  | None => forall now, expired now ts = ([], [])
  end.
Proof.
  pose proof (next_deadline_spec ts) as Hs. destruct (next_deadline ts) as [m|]; [|by subst].
  destruct Hs as [Hall (e & He & Hd)]. split.
  - intros Hn. destruct (expired_exact_split m ts) as (due & Hf & _ & _ & Hk & Hp). rewrite Hf in Hn.
    apply fmap_nil_inv in Hn as ->. rewrite app_nil_l in Hp.
    assert (Hin : e ∈ snd (expired m ts)) by by rewrite Hp.
    rewrite Forall_forall in Hk. specialize (Hk e Hin). cbn in Hk. lia.
  - intros now Hlt. unfold expired.
    assert (Hd0 : filter (fun e => deadline e <= now) ts = []).
    { clear - Hall Hlt. induction Hall; [done|]. rewrite filter_cons_False by lia. done. }
    assert (Hd1 : filter (fun e => now < deadline e) ts = ts).
    { clear - Hall Hlt. induction Hall as [|x l Hx Hl IH]; [done|]. rewrite filter_cons_True by lia. by rewrite IH. }
    by rewrite Hd0, Hd1.
Qed.

Lemma arm_lookup k at_ ts e : e ∈ arm_at k at_ ts -> key e = k -> NoDup (keys ts) -> deadline e = at_.
Proof.
  induction ts as [|x ts IH]; cbn [arm_at].
  - by intros ->%list_elem_of_singleton.
  - case_bool_decide as Hx; intros Hin Hk Hn; apply NoDup_cons in Hn as [Hnx Hn].
    + apply elem_of_cons in Hin as [->|Hin]; [done|]. exfalso. apply Hnx, elem_keys. exists e. naive_solver.
    + apply elem_of_cons in Hin as [->|Hin]; [done|]. by apply IH.
Qed.

(** What expires is taken out, and nothing else is. *)
Lemma expired_keys now ts : fst (expired now ts) ++ keys (snd (expired now ts)) ≡ₚ keys ts.
Proof.
  destruct (expired_exact_split now ts) as (due & Hf & _ & _ & _ & Hp). rewrite Hf. unfold keys at 1.
  rewrite <- fmap_app. by apply fmap_Permutation.
Qed.

Lemma elem_keys_expired now ts k :
  k ∈ keys ts <-> k ∈ fst (expired now ts) \/ k ∈ keys (snd (expired now ts)).
Proof. by rewrite <- (expired_keys now ts), elem_of_app. Qed.

Lemma NoDup_expired now ts : NoDup (keys ts) -> NoDup (fst (expired now ts) ++ keys (snd (expired now ts))).
Proof. by rewrite expired_keys. Qed.
End wheel.
Arguments Entry : clear implicits.

(** [TimerFd::arm]: the [it_value] for a delay in nanoseconds.  A zero value
    disarms, so a delay of zero is one nanosecond. *)
Definition it_value (delay : option Z) : Z * Z :=
  match delay with
  | None => (0, 0)
  | Some d => if d =? 0 then (0, 1) else (d / 1000000000, d mod 1000000000)
  end.
Lemma it_value_armed d : 0 <= d -> it_value (Some d) <> (0, 0).
Proof.
  intros Hd. unfold it_value. destruct (Z.eqb_spec d 0) as [->|Hne]; [done|]. intros [= Hq Hr].
  pose proof (Z.div_mod d 1000000000). lia.
Qed.

