(* ===== verification/Auth.v ===== *)
(** * Authorization: [cawd], auth.rs

    Who may ask for what, by the peer's credentials and the text of
    /etc/group and /etc/passwd.  Files are octets of valid UTF-8, as
    [read_to_string] hands them over; [str::lines], [split] and
    [parse::<u32>] of the standard library are written out. *)
From Stdlib Require Import ZifyBool.
From S2P Require Import Prelude Text.

(** ** Text, as the standard library reads it *)

(** [str::split] on one ASCII character: never empty. *)
Fixpoint split_on (sep : Z) (l : bytes) : list bytes :=
  match l with
  | [] => [[]]
  | b :: l =>
      if b =? sep then [] :: split_on sep l
      else match split_on sep l with
           | [] => [[b]]
           | f :: fs => (b :: f) :: fs
           end
  end.

Definition strip_cr (l : bytes) : bytes :=
  match last l with Some 13 => removelast l | _ => l end.

(** [str::lines]: the last line counts only if there is something on it, and
    keeps a carriage return that no newline follows. *)
Definition lines (l : bytes) : list bytes :=
  let ls := split_on 10 l in
  map strip_cr (removelast ls) ++ match last ls with Some (b :: f) => [b :: f] | _ => [] end.

(** [trim_end_matches] of '\r' and '\n' *)
Definition trim_eol (l : bytes) : bytes := rev (drop_while (fun b => (b =? 13) || (b =? 10)) (rev l)).

(** [parse::<u32>] *)
Fixpoint digits (acc : Z) (l : bytes) : option Z :=
  match l with
  | [] => Some acc
  | b :: l => if in_range 48 57 b then
                let v := acc * 10 + (b - 48) in
                if v <? 2 ^ 32 then digits v l else None
              else None
  end.
Definition parse_u32 (l : bytes) : option Z :=
  match l with
  | [] | [43] => None
  | 43 :: l => digits 0 l
  | l => digits 0 l
  end.

(** ** The databases *)

Record Peer := { pid : Z; uid : Z; gid : Z }.
Record Group := { g_gid : Z; g_members : list bytes }.

Definition commented (line : bytes) : bool := match line with [] => true | b :: _ => b =? 35 end.

Definition group_line (name line : bytes) : option Group :=
  let line := trim_eol line in
  if commented line then None else
  match split_on 58 line with
  | group_name :: _ :: gid :: rest =>
      if bool_decide (group_name = name) then
        gid ← parse_u32 (trim gid);
        Some {| g_gid := gid;
                g_members := filter (fun m => m <> []) (map trim (split_on 44 (default [] (head rest)))) |}
      else None
  | _ => None
  end.
Definition find_group (contents name : bytes) : option Group := find_map (group_line name) (lines contents).

Definition passwd_line (u : Z) (line : bytes) : option bytes :=
  if commented line then None else
  match split_on 58 line with
  | name :: _ :: field_uid :: _ => if bool_decide (parse_u32 (trim field_uid) = Some u) then Some name else None
  | _ => None
  end.
Definition user_name (contents : bytes) (u : Z) : option bytes := find_map (passwd_line u) (lines contents).

(** A file that cannot be read is empty. *)
Record Database := { db_group : bytes; db_passwd : bytes }.
Definition from_paths (group passwd : option bytes) : Database :=
  {| db_group := default [] group; db_passwd := default [] passwd |}.

(** [Database::may_change_state] *)
Definition may_change_state (db : Database) (peer : Peer) (group_name : bytes) : bool :=
  if uid peer =? 0 then true else
  match find_group (db_group db) group_name with
  | None => false
  | Some g =>
      if gid peer =? g_gid g then true
      else match user_name (db_passwd db) (uid peer) with
           | Some name => bool_decide (name ∈ g_members g)
           | None => false
           end
  end.

(** ** Splitting and joining *)

Definition free (sep : Z) (l : bytes) : Prop := sep ∉ l.

Lemma split_on_free sep l : free sep l -> split_on sep l = [l].
Proof.
  unfold free. induction l as [|b l IH]; cbn; [done|]. intros Hn%not_elem_of_cons.
  rewrite (proj2 (Z.eqb_neq b sep)) by naive_solver. by rewrite IH by naive_solver.
Qed.

Lemma split_on_app sep f l : free sep f -> split_on sep (f ++ sep :: l) = f :: split_on sep l.
Proof.
  unfold free. induction f as [|b f IH]; cbn; intros Hn; [by rewrite Z.eqb_refl|].
  apply not_elem_of_cons in Hn as [Hb Hn]. rewrite (proj2 (Z.eqb_neq b sep)) by done. by rewrite IH.
Qed.

Lemma split_on_not_nil sep l : split_on sep l <> [].
Proof. destruct l as [|b l]; cbn; [done|]. destruct (b =? sep); [done|]. by destruct (split_on sep l). Qed.

(** One line off the front. *)
Lemma lines_cons l rest : free 10 l -> lines (l ++ 10 :: rest) = strip_cr l :: lines rest.
Proof.
  intros Hl. unfold lines. rewrite split_on_app by done. pose proof (split_on_not_nil 10 rest).
  destruct (split_on 10 rest) as [|f fs]; [done|]. done.
Qed.

Lemma find_map_skip {A B} (f : A -> option B) l l' : Forall (fun x => f x = None) l -> find_map f (l ++ l') = find_map f l'.
Proof. induction 1 as [|x l Hx _ IH]; [done|]. cbn. by rewrite Hx. Qed.

Lemma strip_cr_free l : free 13 l -> strip_cr l = l.
Proof.
  intros Hf. unfold strip_cr. destruct (last l) as [b|] eqn:Hl; [|done].
  destruct (decide (b = 13)) as [->|Hb]; [by apply last_Some_elem_of in Hl|].
  destruct b as [|p|]; try done. repeat (destruct p as [p|p|]; try done).
Qed.

Lemma Forall_free sep l : free sep l <-> Forall (fun b => b <> sep) l.
Proof. unfold free. rewrite Forall_forall. naive_solver. Qed.

Lemma trim_eol_free l : free 13 l -> free 10 l -> trim_eol l = l.
Proof.
  rewrite !Forall_free. intros H13 H10. unfold trim_eol. rewrite drop_while_none; [apply rev_involutive|].
  apply Forall_rev. rewrite Forall_forall in *. intros b Hb. specialize (H13 b Hb). specialize (H10 b Hb). lia.
Qed.

Lemma trim_ascii l : Forall (fun b => 32 < b < 128) l -> trim l = l.
Proof.
  intros Hl. unfold trim. rewrite chars_ascii by (eapply Forall_impl; [exact Hl|]; cbn; lia).
  assert (Hw : Forall (fun c => is_whitespace c = false) (map (fun b => [b]) l)).
  { apply Forall_map. eapply Forall_impl; [exact Hl|]. intros b Hb. change (in_range 9 13 b || (b =? 32) = false). unfold in_range. cbn beta in *. lia. }
  rewrite (drop_while_none _ (map _ l)) by done. rewrite drop_while_none by by apply Forall_rev.
  rewrite rev_involutive. clear. induction l as [|b l IH]; [done|]. cbn. by rewrite IH.
Qed.

Lemma digits_app a l l' : digits a (l ++ l') = (v ← digits a l; digits v l').
Proof.
  revert a. induction l as [|b l IH]; intros a; [done|]. cbn. destruct (in_range 48 57 b); [|done].
  destruct (_ <? _); [apply IH|done].
Qed.

Lemma decimal_aux_spec fuel n :
  0 <= n < 10 ^ Z.of_nat fuel -> n < 2 ^ 32 -> (0 < fuel)%nat ->
  digits 0 (decimal_aux fuel n) = Some n /\ Forall (fun b => 48 <= b <= 57) (decimal_aux fuel n)
  /\ decimal_aux fuel n <> [].
Proof.
  revert n. induction fuel as [|fuel IH]; intros n Hn H32 Hf; [lia|]. cbn [decimal_aux].
  pose proof (Z.div_mod n 10). pose proof (Z.mod_pos_bound n 10).
  assert (Hd : digits 0 (if n <? 10 then [] else decimal_aux fuel (n / 10)) = Some (n / 10)
    /\ Forall (fun b => 48 <= b <= 57) (if n <? 10 then [] else decimal_aux fuel (n / 10))).
  { destruct (Z.ltb_spec n 10); [rewrite Z.div_small by lia; by split|].
    destruct fuel as [|fuel]; [cbn in Hn; lia|].
    destruct (IH (n / 10)) as (? & ? & _); [|lia|lia|done].
    split; [lia|]. apply Z.div_lt_upper_bound; [lia|]. rewrite <- Z.pow_succ_r by lia. rewrite <- Nat2Z.inj_succ. lia. }
  destruct Hd as [Hd Hall]. split_and!.
  - rewrite digits_app, Hd. cbn. unfold in_range.
    rewrite (proj2 (Z.leb_le 48 _)), (proj2 (Z.leb_le _ 57)) by lia. cbn [andb].
    replace (n / 10 * 10 + (48 + n mod 10 - 48)) with n by lia. by rewrite (proj2 (Z.ltb_lt n _)) by done.
  - apply Forall_app; split; [done|]. repeat constructor; lia.
  - intros [_ ?]%app_nil. done.
Qed.

Lemma parse_decimal n : is_u32 n -> parse_u32 (trim (decimal n)) = Some n /\ Forall (fun b => 48 <= b <= 57) (decimal n).
Proof.
  intros [H0 H32]. destruct (decimal_aux_spec 10 n) as (Hd & Hall & Hne); [cbn; lia|lia|lia|]. fold (decimal n) in *.
  split; [|done]. rewrite trim_ascii by (eapply Forall_impl; [exact Hall|]; cbn; lia).
  destruct (decimal n) as [|b l]; [done|]. apply Forall_cons in Hall as [Hb _].
  assert (b <> 43) by lia. unfold parse_u32. rewrite <- Hd.
  destruct b as [|p|]; try lia. repeat (destruct p as [p|p|]; try done).
Qed.

(** ** A database as what it says *)

Record GroupEntry := { ge_name : bytes; ge_passwd : bytes; ge_gid : Z; ge_members : list bytes }.
Record UserEntry := { ue_name : bytes; ue_passwd : bytes; ue_uid : Z; ue_rest : bytes }.

Fixpoint join (sep : Z) (l : list bytes) : bytes :=
  match l with
  | [] => []
  | [x] => x
  | x :: l => x ++ sep :: join sep l
  end.
Definition group_entry (e : GroupEntry) : bytes :=
  ge_name e ++ 58 :: ge_passwd e ++ 58 :: decimal (ge_gid e) ++ 58 :: join 44 (ge_members e).
Definition user_entry (e : UserEntry) : bytes :=
  ue_name e ++ 58 :: ue_passwd e ++ 58 :: decimal (ue_uid e) ++ 58 :: ue_rest e.
Definition text (ls : list bytes) : bytes := concat (map (fun l => l ++ [10]) ls).

Definition field (f : bytes) : Prop := free 10 f /\ free 13 f /\ free 58 f.
Definition member (m : bytes) : Prop := field m /\ free 44 m /\ m <> [] /\ trim m = m.
Definition named (f : bytes) : Prop := field f /\ head f <> Some 35.
Definition group_ok (e : GroupEntry) : Prop :=
  named (ge_name e) /\ field (ge_passwd e) /\ is_u32 (ge_gid e) /\ Forall member (ge_members e).
Definition user_ok (e : UserEntry) : Prop :=
  named (ue_name e) /\ field (ue_passwd e) /\ is_u32 (ue_uid e) /\ free 10 (ue_rest e) /\ free 13 (ue_rest e).

(** Who is let in: root, the group's own, and those it lists. *)
Definition admitted (groups : list GroupEntry) (users : list UserEntry) (peer : Peer) (name : bytes) : Prop :=
  uid peer = 0
  \/ exists g, find_first (fun g => bool_decide (ge_name g = name)) groups = Some g
     /\ (gid peer = ge_gid g
         \/ exists u, find_first (fun u => ue_uid u =? uid peer) users = Some u /\ ue_name u ∈ ge_members g).

Lemma free_app sep a b : free sep (a ++ b) <-> free sep a /\ free sep b.
Proof. unfold free. rewrite elem_of_app. naive_solver. Qed.
Lemma free_cons sep x a : free sep (x :: a) <-> x <> sep /\ free sep a.
Proof. unfold free. rewrite elem_of_cons. naive_solver. Qed.

Lemma free_decimal sep n : is_u32 n -> ~ (48 <= sep <= 57) -> free sep (decimal n).
Proof.
  intros Hn Hs. destruct (parse_decimal n Hn) as [_ Hall]. rewrite Forall_forall in Hall. intros Hin.
  by apply Hall in Hin.
Qed.

Lemma free_join sep (l : list bytes) : sep <> 44 -> Forall (free sep) l -> free sep (join 44 l).
Proof.
  intros Hs. induction 1 as [|x l Hx Hl IH]; [by apply not_elem_of_nil|]. destruct l as [|y l]; [done|].
  cbn [join]. rewrite free_app, free_cons. cbn [join] in IH. naive_solver.
Qed.

Lemma split_join l : Forall (free 44) l -> l <> [] -> split_on 44 (join 44 l) = l.
Proof.
  induction 1 as [|x l Hx Hl IH]; [done|]. intros _. destruct l as [|y l]; [by apply split_on_free|].
  cbn [join]. rewrite split_on_app by done. f_equal. by apply IH.
Qed.

Lemma members_read l : Forall member l -> filter (fun m => m <> []) (map trim (split_on 44 (join 44 l))) = l.
Proof.
  intros Hl. destruct (decide (l = [])) as [->|Hne]; [done|].
  rewrite split_join; [|by eapply Forall_impl; [exact Hl|]; intros m (_ & ? & _)|done].
  clear Hne. induction Hl as [|m l (_ & _ & Hm & Ht) _ IH]; [done|]. cbn [map]. rewrite Ht.
  rewrite filter_cons_True by done. by rewrite IH.
Qed.

Lemma commented_entry (f rest : bytes) : head f <> Some 35 -> commented (f ++ 58 :: rest) = false.
Proof.
  destruct f as [|b f]; [done|]. cbn. intros Hb. apply Z.eqb_neq. congruence.
Qed.

(** What a line of a well-formed database says, and only that. *)
Lemma group_line_entry name e :
  group_ok e ->
  group_line name (strip_cr (group_entry e)) =
  if bool_decide (ge_name e = name) then Some {| g_gid := ge_gid e; g_members := ge_members e |} else None.
Proof.
  intros ((Hf & Hh) & Hp & Hg & Hm). destruct Hf as (H10 & H13 & H58), Hp as (P10 & P13 & P58).
  assert (Hj : forall sep, sep = 10 \/ sep = 13 -> free sep (join 44 (ge_members e))).
  { intros sep Hs. apply free_join; [lia|]. eapply Forall_impl; [exact Hm|].
    intros m ((? & ? & ?) & _). by destruct Hs as [->| ->]. }
  assert (Hfree : forall sep, sep = 10 \/ sep = 13 -> free sep (group_entry e)).
  { intros sep Hs. unfold group_entry. rewrite free_app, free_cons, free_app, free_cons, free_app, free_cons.
    pose proof (free_decimal sep (ge_gid e) Hg ltac:(lia)). pose proof (Hj sep Hs).
    split_and!; try done; try lia; by destruct Hs as [->| ->]. }
  rewrite strip_cr_free by auto. unfold group_line. rewrite trim_eol_free by auto.
  unfold group_entry. rewrite commented_entry by done. rewrite !split_on_app by first [done | by apply free_decimal; [done|lia]].
  destruct (split_on 58 (join 44 (ge_members e))) as [|r rs] eqn:Hr; [by apply split_on_not_nil in Hr|].
  case_bool_decide as Hn; [|done]. destruct (parse_decimal _ Hg) as [-> _]. cbn [mbind option_bind].
  assert (r = join 44 (ge_members e)) as ->.
  { rewrite split_on_free in Hr by (apply free_join; [lia|]; eapply Forall_impl; [exact Hm|]; by intros m ((? & ? & ?) & _)).
    congruence. }
  do 2 f_equal. exact (members_read _ Hm).
Qed.

Lemma passwd_line_entry u e :
  user_ok e -> passwd_line u (strip_cr (user_entry e)) = if ue_uid e =? u then Some (ue_name e) else None.
Proof.
  intros ((Hf & Hh) & Hp & Hg & R10 & R13). destruct Hf as (H10 & H13 & H58), Hp as (P10 & P13 & P58).
  rewrite strip_cr_free.
  2: { unfold user_entry. rewrite free_app, free_cons, free_app, free_cons, free_app, free_cons.
       pose proof (free_decimal 13 (ue_uid e) Hg ltac:(lia)). by split_and!. }
  unfold passwd_line, user_entry. rewrite commented_entry by done.
  rewrite !split_on_app by first [done | by apply free_decimal; [done|lia]].
  destruct (parse_decimal _ Hg) as [-> _]. destruct (Z.eqb_spec (ue_uid e) u); case_bool_decide; congruence.
Qed.

Lemma lines_text (ls : list bytes) : Forall (free 10) ls -> lines (text ls) = map strip_cr ls.
Proof.
  unfold text. induction 1 as [|l ls Hl _ IH]; [done|]. cbn [map concat]. rewrite <- app_assoc. cbn [app].
  rewrite lines_cons by done. by rewrite IH.
Qed.

Lemma find_entries {E B} (f : bytes -> option B) (g : E -> bytes) (p : E -> bool) (h : E -> B) (es : list E) :
  Forall (fun e => f (strip_cr (g e)) = if p e then Some (h e) else None) es ->
  find_map f (map strip_cr (map g es)) = h <$> find_first p es.
Proof. induction 1 as [|e es He _ IH]; [done|]. cbn. rewrite He. by destruct (p e). Qed.

Lemma free_group_entry e : group_ok e -> free 10 (group_entry e).
Proof.
  intros ((Hf & _) & Hp & Hg & Hm). unfold group_entry.
  rewrite free_app, free_cons, free_app, free_cons, free_app, free_cons.
  pose proof (free_decimal 10 (ge_gid e) Hg ltac:(lia)). split_and!; try done; [apply Hf|apply Hp|].
  apply free_join; [lia|]. eapply Forall_impl; [exact Hm|]. by intros m ((? & ? & ?) & _).
Qed.
Lemma free_user_entry e : user_ok e -> free 10 (user_entry e).
Proof.
  intros ((Hf & _) & Hp & Hg & R10 & _). unfold user_entry.
  rewrite free_app, free_cons, free_app, free_cons, free_app, free_cons.
  pose proof (free_decimal 10 (ue_uid e) Hg ltac:(lia)). split_and!; try done; [apply Hf|apply Hp].
Qed.

(** Authorization is what the databases say: over any well-formed group and
    user databases, written out as files, a peer may change state exactly when
    it is root, or the first entry of the group's name has its primary group
    or lists the name of the first user with its uid. *)
Theorem may_change_state_exact groups users peer name :
  Forall group_ok groups -> Forall user_ok users ->
  may_change_state {| db_group := text (map group_entry groups); db_passwd := text (map user_entry users) |} peer name
    = true <-> admitted groups users peer name.
Proof.
  intros Hg Hu.
  assert (Hgroups : find_group (text (map group_entry groups)) name =
    (fun e => {| g_gid := ge_gid e; g_members := ge_members e |})
      <$> find_first (fun g => bool_decide (ge_name g = name)) groups).
  { unfold find_group. rewrite lines_text by (apply Forall_map; eapply Forall_impl; [exact Hg|]; apply free_group_entry).
    apply find_entries. eapply Forall_impl; [exact Hg|]. intros e He. rewrite group_line_entry by done.
    by case_bool_decide. }
  assert (Husers : user_name (text (map user_entry users)) (uid peer) =
    ue_name <$> find_first (fun u => ue_uid u =? uid peer) users).
  { unfold user_name. rewrite lines_text by (apply Forall_map; eapply Forall_impl; [exact Hu|]; apply free_user_entry).
    apply find_entries. eapply Forall_impl; [exact Hu|]. intros e He. by apply passwd_line_entry. }
  unfold may_change_state, admitted. cbn [db_group db_passwd]. rewrite Hgroups, Husers.
  destruct (Z.eqb_spec (uid peer) 0) as [H0|H0]; [by split; [left|]|].
  destruct (find_first _ groups) as [g|]; cbn [fmap option_fmap option_map]; [|naive_solver].
  cbn [g_gid g_members]. destruct (Z.eqb_spec (gid peer) (ge_gid g)) as [Hgid|Hgid]; [split; [eauto|done]|].
  destruct (find_first _ users) as [u|]; cbn [fmap option_fmap option_map]; [|naive_solver].
  rewrite bool_decide_eq_true. naive_solver.
Qed.

(** Damage denies rather than grants: whatever the files hold, a peer that
    is not root is refused unless some line of the group file is an entry of
    that very group with a gid that parses. *)
Theorem damage_denies db peer name :
  uid peer <> 0 -> (forall line, line ∈ lines (db_group db) -> group_line name line = None) ->
  may_change_state db peer name = false.
Proof.
  intros H0 Hl. unfold may_change_state. rewrite (proj2 (Z.eqb_neq _ _) H0).
  assert (find_group (db_group db) name = None) as ->; [|done].
  unfold find_group. induction (lines (db_group db)) as [|l ls IH]; [done|]. cbn.
  rewrite Hl by left. apply IH. intros. apply Hl. by right.
Qed.

Module Demo.
Definition word (s : string) : bytes := ascii_of s.
Definition caw : bytes := word "caw".
Definition groups : list GroupEntry :=
  [{| ge_name := word "root"; ge_passwd := word "x"; ge_gid := 0; ge_members := [] |};
   {| ge_name := caw; ge_passwd := word "x"; ge_gid := 975; ge_members := [word "alice"; word "bob"] |}].
Definition users : list UserEntry :=
  [{| ue_name := word "alice"; ue_passwd := word "x"; ue_uid := 1000; ue_rest := word "1000::/home/alice:/bin/sh" |};
   {| ue_name := word "mallory"; ue_passwd := word "x"; ue_uid := 1002; ue_rest := word "1002::/:/bin/sh" |}].
Definition db : Database :=
  {| db_group := text (map group_entry groups); db_passwd := text (map user_entry users) |}.
Definition peer (u : Z) : Peer := {| pid := 42; uid := u; gid := u |}.
End Demo.

Example demo_alice : may_change_state Demo.db (Demo.peer 1000) Demo.caw = true.
Proof. vm_compute. reflexivity. Qed.
Example demo_mallory : may_change_state Demo.db (Demo.peer 1002) Demo.caw = false.
Proof. vm_compute. reflexivity. Qed.

#[export] Instance free_dec sep l : Decision (free sep l).
Proof. unfold free. apply _. Defined.
#[export] Instance group_ok_dec e : Decision (group_ok e).
Proof.
  assert (forall m, Decision (member m)) by (intros; unfold member, field; apply _).
  unfold group_ok, named, field. apply _.
Defined.
#[export] Instance user_ok_dec e : Decision (user_ok e).
Proof. unfold user_ok, named, field. apply _. Defined.

Lemma may_change_state_exact_witness :
  Forall group_ok Demo.groups /\ Forall user_ok Demo.users
  /\ (may_change_state Demo.db (Demo.peer 1000) Demo.caw = true
      <-> admitted Demo.groups Demo.users (Demo.peer 1000) Demo.caw).
Proof.
  assert (Hg : Forall group_ok Demo.groups) by (apply (bool_decide_unpack _); vm_compute; exact I).
  assert (Hu : Forall user_ok Demo.users) by (apply (bool_decide_unpack _); vm_compute; exact I).
  split_and!; [exact Hg|exact Hu|]. exact (may_change_state_exact _ _ (Demo.peer 1000) Demo.caw Hg Hu).
Defined.
