(* ===== verification/Server.v ===== *)
(** * The socket server: [cawd], ipc.rs

    The daemon's connections: who they are, what they asked, and what is still
    to be written to each.  Every system call's answers are arguments, the
    list of what the kernel said to that loop's calls; a list that ends is
    answered EAGAIN.  Binding the socket and removing a stale one are in
    [Startup]. *)
From S2P Require Import Prelude.
From S2P Require Ipc Auth.

Definition ClientId : Type := Z.
Definition MAX_OUTBOX : Z := Z.shiftl 1 20.

Record Client := {
  id : ClientId; peer : Auth.Peer; decoder : bytes; out : bytes; sent : nat; closed : bool;
}.
Record Server := { clients : list Client; next_id : ClientId }.

Definition set_decoder (v : bytes) (c : Client) : Client :=
  {| id := id c; peer := peer c; decoder := v; out := out c; sent := sent c; closed := closed c |}.
Definition set_output (o : bytes) (n : nat) (c : Client) : Client :=
  {| id := id c; peer := peer c; decoder := decoder c; out := o; sent := n; closed := closed c |}.
Definition set_closed (c : Client) : Client :=
  {| id := id c; peer := peer c; decoder := decoder c; out := out c; sent := sent c; closed := true |}.

(** [client], [client_mut] *)
Definition client (i : ClientId) (s : Server) : option Client := find_first (fun c => id c =? i) (clients s).
Fixpoint update (i : ClientId) (f : Client -> Client) (l : list Client) : list Client :=
  match l with
  | [] => []
  | c :: l => if id c =? i then f c :: l else c :: update i f l
  end.
Definition client_mut (i : ClientId) (f : Client -> Client) (s : Server) : Server :=
  {| clients := update i f (clients s); next_id := next_id s |}.

(** ** Output *)

Definition has_pending_output (c : Client) : bool := bool_decide (sent c < length (out c))%nat.

Inductive Sent := Took (n : nat) | SendAgain | SendInterrupted | SendFailed.

(** [Client::flush]: the write loop, then the accounting.  Also what reached
    the socket. *)
Definition settle (c : Client) : Client :=
  if bool_decide (sent c = length (out c)) then set_output [] 0 c
  else if MAX_OUTBOX <? len (out c) - Z.of_nat (sent c) then set_output [] 0 (set_closed c)
  else c.
Fixpoint flush (ks : list Sent) (c : Client) : Client * bytes :=
  if has_pending_output c then
    match ks with
    | [] | SendAgain :: _ => (settle c, [])
    | SendInterrupted :: ks => flush ks c
    | SendFailed :: _ => (set_output [] 0 (set_closed c), [])
    | Took n :: ks =>
        let (c', written) := flush ks (set_output (out c) (sent c + n) c) in
        (c', take n (drop (sent c) (out c)) ++ written)
    end
  else (settle c, []).

(** [Server::send] on the connection's record: a message that would not
    encode is dropped. *)
Definition send_to (encoded : option bytes) (ks : list Sent) (c : Client) : Client * bytes :=
  match encoded with
  | Some b => flush ks (set_output (out c ++ b) (sent c) c)
  | None => (c, [])
  end.
Definition send (i : ClientId) (encoded : option bytes) (ks : list Sent) (s : Server) : Server :=
  client_mut i (fun c => fst (send_to encoded ks c)) s.
Definition flush_client (i : ClientId) (ks : list Sent) (s : Server) : Server :=
  client_mut i (fun c => fst (flush ks c)) s.
Definition close (i : ClientId) (s : Server) : Server := client_mut i set_closed s.

(** ** Connections *)

(** [None]: no credentials could be read. *)
Inductive Accepted := Connection (p : option Auth.Peer) | AcceptAgain | AcceptInterrupted | AcceptFailed.

Fixpoint accept (ks : list Accepted) (s : Server) : list ClientId * Server :=
  match ks with
  | [] | AcceptAgain :: _ | AcceptFailed :: _ => ([], s)
  | AcceptInterrupted :: ks | Connection None :: ks => accept ks s
  | Connection (Some p) :: ks =>
      let i := next_id s in
      let c := {| id := i; peer := p; decoder := []; out := []; sent := 0; closed := false |} in
      let (ids, s) := accept ks {| clients := clients s ++ [c]; next_id := i + 1 |} in
      (i :: ids, s)
  end.

(** [reap] *)
Definition keep (c : Client) : bool := negb (closed c) || has_pending_output c.
Definition reap (s : Server) : list ClientId * Server :=
  (map id (List.filter (fun c => negb (keep c)) (clients s)),
   {| clients := List.filter keep (clients s); next_id := next_id s |}).

(** ** Input *)

Inductive Received := Data (b : bytes) | Eof | ReadAgain | ReadInterrupted | ReadFailed.
Fixpoint receive (ks : list Received) (c : Client) : Client :=
  match ks with
  | [] | ReadAgain :: _ => c
  | ReadInterrupted :: ks => receive ks c
  | Eof :: _ | ReadFailed :: _ => set_closed c
  | Data b :: ks => receive ks (set_decoder (decoder c ++ b) c)
  end.

Section requests.
Context (from_slice : bytes -> option Ipc.Request).

(** [Server::read] without the sending of its refusals: the requests, what
    was refused, and the connection. *)
Definition requests_of (ds : list (Ipc.Decoded (T := Ipc.Request))) : list Ipc.Request :=
  omap (fun d => match d with Ipc.Message r => Some r | _ => None end) ds.
Definition refusals_of (ds : list (Ipc.Decoded (T := Ipc.Request))) : list (Ipc.Decoded (T := Ipc.Request)) :=
  List.filter (fun d => match d with Ipc.Message _ => false | _ => true end) ds.
Definition read (ks : list Received) (c : Client) : list Ipc.Request * list (Ipc.Decoded (T := Ipc.Request)) * Client :=
  let c := receive ks c in
  let (ds, rest) := Ipc.drain from_slice Ipc.MAX_LINE (decoder c) in
  let c := set_decoder rest c in
  let c := if existsb (fun d => match d with Ipc.TooLong => true | _ => false end) ds then set_closed c else c in
  (requests_of ds, refusals_of ds, c).
End requests.

(** ** Identities *)

(** Every connection has an identity of its own, older than the next. *)
Definition wf (s : Server) : Prop := NoDup (map id (clients s)) /\ Forall (fun c => id c < next_id s) (clients s).

Lemma update_ids i f l : (forall c, id (f c) = id c) -> map id (update i f l) = map id l.
Proof.
  intros Hf. induction l as [|c l IH]; [done|]. cbn. destruct (id c =? i); cbn; [by rewrite Hf|by rewrite IH].
Qed.

Lemma settle_id c : id (settle c) = id c.
Proof. unfold settle. by repeat case_match. Qed.
Lemma flush_id ks c : id (fst (flush ks c)) = id c.
Proof.
  revert c. induction ks as [|k ks IH]; intros c; cbn [flush]; destruct (has_pending_output c);
    try (by apply settle_id). destruct k as [n| | |].
  - specialize (IH (set_output (out c) (sent c + n) c)). destruct (flush ks _) as [c' w]. exact IH.
  - apply settle_id.
  - apply IH.
  - done.
Qed.

Lemma client_mut_wf i f s : (forall c, id (f c) = id c) -> wf s -> wf (client_mut i f s).
Proof.
  intros Hf [Hn Hl]. unfold wf, client_mut. cbn [clients next_id]. rewrite update_ids by done. split; [done|].
  apply Forall_forall. intros c Hc. assert (Hi : id c ∈ map id (clients s)).
  { rewrite <- (update_ids i f) by done. by apply list_elem_of_fmap_2. }
  apply list_elem_of_fmap in Hi as (c' & -> & Hc'). by apply (proj1 (Forall_forall _ _) Hl).
Qed.

Lemma accept_fresh ks s : wf s ->
  wf (snd (accept ks s)) /\ Forall (fun i => next_id s <= i < next_id (snd (accept ks s))) (fst (accept ks s))
  /\ next_id s <= next_id (snd (accept ks s)).
Proof.
  revert s. induction ks as [|k ks IH]; intros s Hs; cbn [accept]; [by split_and!|].
  destruct k as [[p|]| | |]; try (by split_and!); try (by apply IH).
  set (s1 := {| clients := _; next_id := _ |}).
  assert (Hs1 : wf s1).
  { destruct Hs as [Hn Hl]. split; cbn [clients next_id s1].
    - rewrite map_app. apply NoDup_app. split_and!; [done| |apply NoDup_singleton].
      intros i Hi ->%list_elem_of_singleton. apply list_elem_of_fmap in Hi as (c & Hid & Hc).
      apply (proj1 (Forall_forall _ _) Hl) in Hc. cbn in Hid. lia.
    - apply Forall_app. split; [|repeat constructor; cbn; lia]. eapply Forall_impl; [exact Hl|]. cbn. lia. }
  destruct (IH s1 Hs1) as (Hw & Hr & Hle). destruct (accept ks s1) as [ids s2]. cbn [fst snd] in *.
  change (next_id s1) with (next_id s + 1) in *. split_and!; [done| |lia].
  apply Forall_cons_2; [lia|]. eapply Forall_impl; [exact Hr|]. cbn. lia.
Qed.

Lemma reap_wf s : wf s -> wf (snd (reap s)).
Proof.
  intros [Hn Hl]. unfold reap. split; cbn [snd clients next_id].
  - clear Hl. induction (clients s) as [|c l IH]; [done|]. cbn [map List.filter] in *.
    apply NoDup_cons in Hn as [Hc Hn]. destruct (keep c); [|by apply IH]. cbn [map].
    apply NoDup_cons. split; [|by apply IH]. intros Hin. apply Hc.
    apply list_elem_of_fmap in Hin as (c' & -> & Hc'). apply list_elem_of_fmap_2.
    apply list_elem_of_In, filter_In in Hc' as [Hc' _]. by apply list_elem_of_In.
  - apply Forall_forall. intros c Hc. apply list_elem_of_In, filter_In in Hc as [Hc _].
    apply (proj1 (Forall_forall _ _) Hl). by apply list_elem_of_In.
Qed.

(** ** The outbox *)

(** The kernel takes at least an octet and at most what it is offered. *)
Fixpoint honest (ks : list Sent) (offered : nat) : Prop :=
  match ks with
  | Took n :: ks => (1 <= n <= offered)%nat /\ honest ks (offered - n)
  | _ :: ks => honest ks offered
  | [] => True
  end.
Definition pending (c : Client) : bytes := drop (sent c) (out c).
Definition dropped (c c' : Client) : Prop := closed c' = true /\ out c' = [].

Lemma pending_length c : length (pending c) = (length (out c) - sent c)%nat.
Proof. apply length_drop. Qed.

(** One write loop: what is written goes on from where the last stopped, and
    a connection that is not given up keeps exactly the rest. *)
Lemma flush_spec ks c :
  (sent c <= length (out c))%nat -> honest ks (length (pending c)) ->
  let (c', w) := flush ks c in
  (exists t, pending c = w ++ t)
  /\ (dropped c c' \/ (pending c = w ++ pending c' /\ closed c' = closed c))
  /\ len (pending c') <= MAX_OUTBOX /\ (sent c' <= length (out c'))%nat.
Proof.
  revert c. assert (Hset : forall c, (sent c <= length (out c))%nat ->
    (exists t, pending c = [] ++ t)
    /\ (dropped c (settle c) \/ (pending c = [] ++ pending (settle c) /\ closed (settle c) = closed c))
    /\ len (pending (settle c)) <= MAX_OUTBOX /\ (sent (settle c) <= length (out (settle c)))%nat).
  { intros c Hs. split; [by eexists|]. unfold settle, pending.
    case_bool_decide as He; [|destruct (Z.ltb_spec MAX_OUTBOX (len (out c) - Z.of_nat (sent c))) as [Hb|Hb]].
    - cbn. split_and!; [right|done|lia]. by rewrite He, drop_all.
    - cbn. split_and!; [left; by split|done|lia].
    - unfold len in *. rewrite length_drop. split_and!; [by right|lia|done]. }
  induction ks as [|k ks IH]; intros c Hs Hk; cbn [flush]; destruct (has_pending_output c) eqn:Hp;
    try (by apply Hset). destruct k.
  - destruct Hk as [Hn Hk]. rewrite pending_length in Hn, Hk.
    specialize (IH (set_output (out c) (sent c + n) c)). cbn [out sent set_output] in IH.
    rewrite pending_length in IH. cbn [out sent set_output] in IH.
    specialize (IH ltac:(lia)). replace (length (out c) - (sent c + n))%nat with (length (out c) - sent c - n)%nat in IH by lia.
    specialize (IH Hk). destruct (flush ks _) as [c' w].
    assert (Hsplit : pending c = take n (drop (sent c) (out c)) ++ drop (sent c + n) (out c)).
    { unfold pending. rewrite <- drop_drop. by rewrite take_drop. }
    destruct IH as ((t & Ht) & Hd & Hb & Hl). unfold pending in Ht, Hd at 1. cbn [out sent set_output] in Ht, Hd.
    split_and!; [|destruct Hd as [Hd|[Hd Hc]]; [by left|right]|done|done].
    + exists t. by rewrite Hsplit, Ht, app_assoc.
    + split; [|done]. by rewrite Hsplit, Hd, app_assoc.
  - by apply Hset.
  - by apply IH.
  - split_and!; [by eexists|left; by split|done|cbn; lia].
Qed.

(** A connection's life: messages queued and writes retried, each with what
    the kernel said; what reached the socket; and what was asked to. *)
Inductive Step := Queue (b : bytes) (ks : list Sent) | Retry (ks : list Sent).
Fixpoint life (steps : list Step) (c : Client) : Client * bytes :=
  match steps with
  | [] => (c, [])
  | step :: steps =>
      let (c, w) := match step with
                    | Queue b ks => send_to (Some b) ks c
                    | Retry ks => flush ks c
                    end in
      let (c, w') := life steps c in (c, w ++ w')
  end.
Definition queued (steps : list Step) : bytes :=
  concat (map (fun s => match s with Queue b _ => b | Retry _ => [] end) steps).
Fixpoint honest_life (steps : list Step) (c : Client) : Prop :=
  match steps with
  | [] => True
  | Queue b ks :: steps => honest ks (length (pending c) + length b) /\ honest_life steps (fst (send_to (Some b) ks c))
  | Retry ks :: steps => honest ks (length (pending c)) /\ honest_life steps (fst (flush ks c))
  end.

Lemma life_spec steps c :
  (sent c <= length (out c))%nat -> len (pending c) <= MAX_OUTBOX -> honest_life steps c -> closed c = false ->
  let (c', w) := life steps c in
  (closed c' = false -> pending c ++ queued steps = w ++ pending c')
  /\ len (pending c') <= MAX_OUTBOX.
Proof.
  intros Hs Hb Hh Hc. assert (Hgen : forall steps c, (sent c <= length (out c))%nat -> len (pending c) <= MAX_OUTBOX ->
    honest_life steps c -> let (c', w) := life steps c in
    (closed c' = false -> closed c = false /\ pending c ++ queued steps = w ++ pending c')
    /\ len (pending c') <= MAX_OUTBOX).
  { clear. induction steps as [|step steps IH]; intros c Hs Hb Hh; cbn [life].
    { unfold queued. cbn. rewrite app_nil_r. done. }
    assert (Hstep : exists c0, (sent c0 <= length (out c0))%nat /\ closed c0 = closed c
      /\ (match step with Queue b ks => send_to (Some b) ks c | Retry ks => flush ks c end)
         = flush (match step with Queue _ ks | Retry ks => ks end) c0
      /\ pending c0 = pending c ++ (match step with Queue b _ => b | Retry _ => [] end)
      /\ honest (match step with Queue _ ks | Retry ks => ks end) (length (pending c0))
      /\ honest_life steps (fst (flush (match step with Queue _ ks | Retry ks => ks end) c0))).
    { destruct step as [b ks|ks]; cbn [honest_life] in Hh.
      - exists (set_output (out c ++ b) (sent c) c). cbn [out sent closed set_output send_to].
        assert (Hp : pending (set_output (out c ++ b) (sent c) c) = pending c ++ b).
        { unfold pending. cbn. by rewrite drop_app_le. }
        rewrite Hp, !length_app. split_and!; [lia|done|done|done|apply Hh..].
      - exists c. rewrite app_nil_r. by destruct Hh; split_and!. }
    destruct Hstep as (c0 & Hs0 & Hc0 & -> & Hp0 & Hk & Hl).
    pose proof (flush_spec _ c0 Hs0 Hk) as Hf. destruct (flush _ c0) as [c1 w1] eqn:Hfl. cbn [fst] in Hl.
    destruct Hf as (_ & Hd & Hb1 & Hs1). specialize (IH c1 Hs1 Hb1 Hl).
    destruct (life steps c1) as [c2 w2]. destruct IH as [IH Hb2]. split; [|done].
    intros Hopen. destruct (IH Hopen) as [Hopen1 Hrest]. destruct Hd as [[Hcl _]|[Hp1 Hcl]]; [congruence|].
    split; [congruence|]. change (queued (step :: steps))
      with ((match step with Queue b _ => b | Retry _ => [] end) ++ queued steps).
    rewrite app_assoc, <- Hp0, Hp1, <- !app_assoc. by rewrite Hrest. }
  specialize (Hgen steps c Hs Hb Hh). destruct (life steps c) as [c' w]. destruct Hgen as [Hg ?].
  split; [|done]. intros Ho. by apply Hg.
Qed.

(** C38. What a client is sent arrives whole and in order, or it is dropped:
    over any sequence of messages and retries, however little the socket takes
    at a time, the octets written followed by those still pending are the
    messages one after the other, as long as the connection is open; and never
    more than a megabyte is pending. *)
Theorem outbox_in_order steps c :
  out c = [] -> sent c = 0%nat -> closed c = false -> honest_life steps c ->
  let (c', w) := life steps c in
  (closed c' = false -> queued steps = w ++ pending c') /\ len (pending c') <= MAX_OUTBOX.
Proof.
  intros Ho Hs Hc Hh. pose proof (life_spec steps c) as Hl. destruct (life steps c) as [c' w].
  assert (Hp : pending c = []) by (unfold pending; by rewrite Ho, Hs). rewrite Hp, Hs, Ho in Hl.
  apply Hl; [lia|done|done|done].
Qed.

(** The cap is on what is pending, not on what is held: a connection that
    always leaves one octet unread is never dropped, and the octets already
    written to it are never let go of. *)
Fixpoint slow_reader (n : nat) : list Step :=
  match n with O => [] | S n => slow_reader n ++ [Queue [1; 2; 3] [Took 3; SendAgain]] end.

Lemma life_app a b c :
  life (a ++ b) c = let (c1, w1) := life a c in let (c2, w2) := life b c1 in (c2, w1 ++ w2).
Proof.
  revert c. induction a as [|step a IH]; intros c; cbn [app life]; [by destruct (life b c)|].
  destruct (match step with Queue _ _ => _ | Retry _ => _ end) as [c0 w0]. rewrite IH.
  destruct (life a c0) as [c1 w1]. destruct (life b c1) as [c2 w2]. by rewrite app_assoc.
Qed.

Lemma slow_reader_grows c n :
  out c = [9] -> sent c = 0%nat -> closed c = false ->
  let c' := fst (life (slow_reader n) c) in
  closed c' = false /\ length (pending c') = 1%nat /\ length (out c') = (1 + 3 * n)%nat.
Proof.
  intros Ho Hs Hc. induction n as [|n IH]; cbv zeta.
  { cbn. unfold pending. rewrite Ho, Hs. by split_and!. }
  cbn [slow_reader]. rewrite life_app. destruct (life (slow_reader n) c) as [c1 w1]. cbn [fst] in *.
  destruct IH as (Hc1 & Hp1 & Ho1). rewrite pending_length in Hp1. cbn [life send_to].
  assert (Hsent : sent c1 = (3 * n)%nat) by lia.
  assert (Hf : flush [Took 3; SendAgain] (set_output (out c1 ++ [1; 2; 3]) (sent c1) c1)
    = (set_output (out c1 ++ [1; 2; 3]) (sent c1 + 3) c1, take 3 (drop (sent c1) (out c1 ++ [1; 2; 3])))).
  { cbn [flush]. unfold has_pending_output. cbn [set_output sent out].
    rewrite !bool_decide_true by (rewrite length_app; cbn [length]; lia).
    unfold settle. cbn [set_output sent out]. rewrite bool_decide_false by (rewrite length_app; cbn [length]; lia).
    rewrite (proj2 (Z.ltb_ge _ _)) by (unfold len; rewrite length_app; cbn [length]; change MAX_OUTBOX with 1048576; lia).
    cbn. by rewrite app_nil_r. }
  rewrite Hf. cbn [fst]. rewrite pending_length. cbn [out sent closed set_output]. rewrite length_app. cbn [length].
  split_and!; [done|lia..].
Qed.

(** ** Witness *)
Definition demo_client : Client :=
  {| id := 1; peer := Auth.Build_Peer 10 0 0; decoder := []; out := []; sent := 0; closed := false |}.

Lemma outbox_in_order_witness :
  let (c, w) := life [Queue [1; 2; 3] [Took 2; SendAgain]; Retry [SendInterrupted]; Queue [4] [Took 1]] demo_client in
  w = [1; 2; 3] /\ pending c = [4].
Proof.
  pose proof (outbox_in_order [Queue [1; 2; 3] [Took 2; SendAgain]; Retry [SendInterrupted]; Queue [4] [Took 1]]
    demo_client eq_refl eq_refl eq_refl) as Hl.
  assert (Hh : honest_life [Queue [1; 2; 3] [Took 2; SendAgain]; Retry [SendInterrupted]; Queue [4] [Took 1]] demo_client)
    by (vm_compute; repeat split; lia).
  specialize (Hl Hh). destruct Hl as [_ _]. vm_compute. split; reflexivity.
Defined.
