(* ===== verification/ConnAsks.v ===== *)
(** * What each input can make the connection ask for

    Bounds on the actions of [Conn.poll] by the shape of its handlers alone:
    only an announced scan is followed by a fetch of its results, and only a
    lease by a profile to save. *)
From S2P Require Import Prelude Effects.
From S2P Require Crypto Nl80211 Eapol FourWay Profile DhcpClient.
From S2P Require Import Conn.

Section asks.
Context `{Crypto.CryptoPrims} {SaeP DotP : Type} `{Crypto.PmkProvider SaeP} `{Crypto.PmkProvider DotP}
  {build : Build SaeP DotP}.

Abbreviation connection := (@Connection SaeP DotP).

(** The two actions that make a turn more than a turn: one feeds the machine
    again, the other writes its profiles. *)
Definition calm (a : Action) : Prop :=
  match a with FetchScanResults _ | SaveProfile _ => False | _ => True end.
Abbreviation calms := (emits (S := connection) calm).

Lemma disarm_calm : calms disarm.
Proof. unfold disarm. solve_emits. Qed.
#[local] Hint Resolve disarm_calm : caw.
Lemma arm_calm id ms : calms (arm id ms).
Proof. unfold arm. solve_emits. Qed.
Lemma enter_calm s : calms (enter s).
Proof. unfold enter. solve_emits. Qed.
Lemma go_idle_calm : calms go_idle.
Proof. unfold go_idle. solve_emits. Qed.
#[local] Hint Resolve arm_calm enter_calm go_idle_calm : caw.
Lemma fail_calm f : calms (fail f).
Proof. unfold fail. solve_emits. Qed.
Lemma start_scan_calm : calms start_scan.
Proof. unfold start_scan. solve_emits. Qed.
Lemma associate_calm : calms associate.
Proof. unfold associate, unwrap. solve_emits. Qed.
#[local] Hint Resolve fail_calm start_scan_calm associate_calm : caw.
Lemma on_sae_step_calm step : calms (on_sae_step step).
Proof. unfold on_sae_step. solve_emits. Qed.
#[local] Hint Resolve on_sae_step_calm : caw.
Lemma drive_sae_calm e : calms (drive_sae e).
Proof. unfold drive_sae. solve_emits. Qed.
#[local] Hint Resolve drive_sae_calm : caw.
Lemma plan_calm bss r : calms (plan bss r).
Proof. unfold plan, start_sae. solve_emits. Qed.
#[local] Hint Resolve plan_calm : caw.
Lemma on_scan_results_calm scan : calms (on_scan_results scan).
Proof. unfold on_scan_results, select, consider_roam. solve_emits. Qed.
Lemma configured_calm : calms configured.
Proof. unfold configured. solve_emits. Qed.
#[local] Hint Resolve configured_calm : caw.
Lemma handshake_action_calm a : calms (handshake_action a).
Proof. unfold handshake_action, pairwise_install. solve_emits. Qed.
#[local] Hint Resolve handshake_action_calm : caw.
Lemma poll_handshake_calm i : calms (poll_handshake i).
Proof. unfold poll_handshake, on_handshake_actions. solve_emits. Qed.
Lemma start_handshake_calm nonce pmk : calms (start_handshake nonce pmk).
Proof. unfold start_handshake. solve_emits. Qed.
#[local] Hint Resolve poll_handshake_calm start_handshake_calm : caw.
Lemma drive_dot1x_calm nonce f : calms (drive_dot1x nonce f).
Proof. unfold drive_dot1x. solve_emits. Qed.
#[local] Hint Resolve drive_dot1x_calm : caw.
Lemma on_associated_calm nonce : calms (on_associated nonce).
Proof. unfold on_associated. solve_emits. Qed.
Lemma on_eapol_calm nonce f : calms (on_eapol nonce f).
Proof. unfold on_eapol. solve_emits. Qed.
Lemma on_command_calm cmd : calms (on_command cmd).
Proof. unfold on_command. solve_emits. Qed.
Lemma on_timer_calm id : calms (on_timer id).
Proof. unfold on_timer. solve_emits. Qed.
#[local] Hint Resolve on_associated_calm on_eapol_calm on_command_calm on_timer_calm on_scan_results_calm : caw.

Definition is_scan_complete (i : Input) : bool :=
  match i with Wireless (Nl80211.ScanComplete _ _) => true | _ => false end.
Definition is_acquired (i : Input) : bool := match i with ILease (Acquired _) => true | _ => false end.

Lemma on_input_calm nonce i :
  is_scan_complete i = false -> is_acquired i = false -> calms (on_input nonce i).
Proof.
  intros Hs Ha. destruct i as [| e | | | e |]; cbn [on_input]; [eauto with caw| |eauto with caw..| |eauto with caw].
  - unfold on_wireless. destruct e; try done; solve_emits.
  - destruct e; try done; cbn [on_lease]; solve_emits.
Qed.

Lemma poll_calm nonce i (c : connection) c' out :
  is_scan_complete i = false -> is_acquired i = false -> poll nonce i c = Some (c', out) -> Forall calm out.
Proof.
  intros Hs Ha. unfold poll. pose proof (on_input_calm nonce i Hs Ha c [] (Forall_nil_2 _)) as He.
  destruct (on_input nonce i c []) as [[[[] ?] ?]|]; [|done]. by intros [= <- <-].
Qed.

(** An announced scan is answered by one fetch, or ignored. *)
Lemma poll_scan_complete nonce i (c : connection) c' out :
  is_scan_complete i = true -> poll nonce i c = Some (c', out) ->
  c' = c /\ (out = [] \/ exists ifindex, out = [FetchScanResults ifindex]).
Proof.
  destruct i as [|e| | | |]; try done. destruct e; try done. intros _. unfold poll. cbn.
  unfold on_wireless, get_state, mbind, act_bind. destruct (state c); cbn; intros [= <- <-]; eauto.
Qed.

(** A profile is saved last of all, once connected. *)
Definition acquired (a : Action) : Prop := match a with FetchScanResults _ => False | _ => True end.

Lemma poll_acquired nonce i (c : connection) c' out :
  is_acquired i = true -> poll nonce i c = Some (c', out) -> state c' = Connected /\ Forall acquired out.
Proof.
  destruct i as [| | | |e|]; try done. destruct e as [l| |]; try done. intros _ Hp. split.
  - revert Hp. unfold poll. cbn [on_input on_lease].
    assert (Hw : wp (enter Connected) (fun _ c' _ => state c' = Connected) c ([] ++ [ApplyLease l]) ->
      match (_ ← emit (ApplyLease l); _ ← enter Connected; _ ← modify (set_attempts 0); save_profile) c [] with
      | Some (_, c', _) => state c' = Connected | None => True end).
    { unfold wp, emit, mbind, act_bind. cbn. destruct (enter Connected c _) as [[[[] c1] out1]|]; [|done].
      intros Hc1. cbn. unfold save_profile, get_state, mbind, act_bind. cbn.
      destruct (target c1) as [t|] eqn:Ht; cbn; [|done]. destruct (t_save t); cbn; [|done].
      destruct (session c1) as [s|]; cbn; [|done].
      destruct (match ch_rsn _ with Some _ => _ | None => _ end); done. }
    destruct ((_ ← emit (ApplyLease l); _) c []) as [[[[] c1] out1]|] eqn:He; [|done].
    intros [= <- <-]. apply Hw. unfold enter, disarm. repeat (wp_step; cbn beta); done.
  - assert (He : emits acquired (on_input nonce (ILease (Acquired l)))).
    { cbn [on_input on_lease]. unfold save_profile, enter, disarm. solve_emits. }
    specialize (He c [] (Forall_nil_2 _)). revert Hp. unfold poll.
    destruct (on_input nonce _ c []) as [[[[] ?] ?]|]; [|done]. by intros [= <- <-].
Qed.

(** How many times a turn asks to be fed again. *)
Definition is_fetch (a : Action) : bool := match a with FetchScanResults _ => true | _ => false end.
Definition fetches (l : list Action) : nat := length (filter (fun a => is_fetch a = true) l).

Lemma fetches_none l : Forall acquired l -> fetches l = 0%nat.
Proof.
  unfold fetches. induction 1 as [|a l Ha _ IH]; [done|].
  rewrite filter_cons_False by (by destruct a). exact IH.
Qed.

Lemma poll_fetches nonce i (c : connection) c' out :
  poll nonce i c = Some (c', out) -> (fetches out <= if is_scan_complete i then 1 else 0)%nat.
Proof.
  intros Hp. destruct (is_scan_complete i) eqn:Hs.
  - destruct (poll_scan_complete nonce i c c' out Hs Hp) as [_ [->|[ifindex ->]]]; [apply Nat.le_0_l|exact (le_n 1)].
  - rewrite fetches_none; [lia|]. destruct (is_acquired i) eqn:Ha; [by eapply poll_acquired|].
    eapply Forall_impl; [by eapply poll_calm|]. by intros [].
Qed.
End asks.
