(* ===== verification/Engine.v ===== *)
(** * The engine: [cawd], engine.rs

    The seam between the daemon's descriptors and the decisions of
    [Conn.poll]: actions performed against the kernel, answers fed back, and
    what the watching client is told.  The kernel is the class [Kernel]: every
    system call of the engine is a value of [sys], logged with its answer
    taken from an abstract world, so that every theorem holds whatever the
    kernel answers and whichever call it refuses.  The engine's own state and
    the reactor's fields it is lent ([Ports]) are one record, [Daemon].

    A reason for failure is the value its text is rendered from ([Cause]); log
    lines are left out. *)
From S2P Require Import Prelude Effects.
From S2P Require Text Crypto Nl80211 Rtnl Wiphy Links Ipc Server Eapol FourWay Profile Timers DhcpClient Conn.

#[local] Existing Instances Conn.TimerId_eq_dec Conn.State_eq_dec DhcpClient.Timer_eq_dec.

Abbreviation ClientId := Server.ClientId.

(** [Key] of reactor.rs: what a timer belongs to. *)
Inductive Key :=
| KCore (id : Conn.TimerId)
| KScan (client : ClientId)
| KAutoconnect
| KDhcp (t : DhcpClient.Timer).
#[export] Instance Key_eq_dec : EqDecision Key.
Proof. unfold Server.ClientId. solve_decision. Defined.

#[export] Instance DeviceCaps_eq_dec : EqDecision Conn.DeviceCaps.
Proof. solve_decision. Defined.
#[export] Instance Device_eq_dec : EqDecision Conn.Device.
Proof. solve_decision. Defined.

(** ** What the kernel says *)

(** An error of the netlink, socket and file layers: the kernel's code for a
    netlink request, or anything else. *)
Inductive SysError := EKernel (errno : Z) | EOther (what : string).
#[export] Instance SysError_eq_dec : EqDecision SysError.
Proof. solve_decision. Defined.

(** [DeviceCaps::from] and [DeviceCaps::default] *)
Definition caps_of (w : Wiphy.Wiphy) : Conn.DeviceCaps :=
  {| Conn.offloads_4way_psk := Wiphy.w_offloads_4way_psk w; Conn.offloads_4way_1x := Wiphy.w_offloads_4way_1x w;
     Conn.offloads_sae := Wiphy.w_offloads_sae w |}.
Definition no_caps : Conn.DeviceCaps :=
  {| Conn.offloads_4way_psk := false; Conn.offloads_4way_1x := false; Conn.offloads_sae := false |}.

Inductive sys : Type -> Type :=
(* nl80211 *)
| NlInterfaces : sys (list Wiphy.Interface)
| NlWiphys : sys (list Wiphy.Wiphy)
| NlTriggerScan (ifindex : Z) : sys unit
| NlScanResults (ifindex : Z) : sys (list Nl80211.Bss)
| NlConnect (r : Conn.AssocRequest) : sys unit
| NlAssociate (r : Conn.AssocRequest) : sys unit
| NlAuthenticate (r : Conn.AuthRequest) : sys unit
| NlDisconnect (ifindex reason : Z) : sys unit
| NlNewPairwiseKey (ifindex : Z) (peer : bytes) (cipher : Z) (tk : bytes) : sys unit
| NlNewGroupKey (ifindex : Z) (index : Z) (cipher : Z) (key : bytes) : sys unit
| NlSetDefaultKey (ifindex : Z) (index : Z) : sys unit
| NlSetPowerSave (ifindex : Z) (enabled : bool) : sys unit
(* the EAPOL socket *)
| EapolOpen (ifindex : Z) : sys unit
| EapolSend (frame : bytes) : sys unit
(* rtnetlink *)
| RtLinks : sys (list Rtnl.Link)
| RtAddresses : sys (list Rtnl.Address)
| RtSetUp (ifindex : Z) (up : bool) : sys unit
| RtDelAddress (ifindex addr prefix_len : Z) : sys unit
| RtAddAddress (ifindex addr prefix_len : Z) : sys unit
| RtAddDefaultRoute (ifindex gateway : Z) : sys unit
| RtAddBroadcastRoute (ifindex : Z) : sys unit
| RtAddProbeRoute (ifindex : Z) : sys unit
| RtDelProbeRoute (ifindex : Z) : sys unit
(* the DHCP socket *)
| DhcpOpen : sys unit
| DhcpBroadcast (data : bytes) : sys unit
| DhcpSend (to : Z) (data : bytes) : sys unit
(* files: the trimmed text of /etc/hostname, the resolver file and whether
   /etc/resolv.conf leads to it, the profile directory *)
| Hostname : sys bytes
| WriteResolvConf (dns : list Z) : sys unit
| ResolverPointsHere : sys bool
| StoreRead : sys unit
| StoreStep (s : Profile.FsStep) : sys unit
| StoreRemove (name : bytes) : sys unit
(* the group and user databases *)
| ReadGroup : sys bytes
| ReadPasswd : sys bytes
(* entropy: a transaction id, a nonce *)
| NewXid : sys Z
| NewNonce : sys bytes.

(** Besides the calls that may fail, three clocks: the one deadlines are
    counted on, in milliseconds, and the two whose difference shows a suspend
    (CLOCK_BOOTTIME and CLOCK_MONOTONIC), in nanoseconds. *)
Class Kernel (W : Type) := {
  answer : forall A, sys A -> W -> (SysError + A) * W;
  instant : W -> Z * W;
  boot_and_monotonic : W -> (Z * Z) * W;
}.
Arguments answer {W _ A} _ _.

(** Entropy comes in the length asked for. *)
Class KernelOk W `{Kernel W} := {
  answer_nonce w n w' : answer NewNonce w = (inr n, w') -> length n = 32%nat;
}.

(** ** What clients are told *)

Inductive Cause :=
| CText (what : string)
| CMessage (text : bytes)
| CSys (what : string) (e : SysError)
| CNamed (what : string) (name : bytes)
| CBringUp (name : bytes) (e : Cause)
| CPort (what : string) (ifindex : Z)
| CFailure (f : Conn.Failure)
| CConnectedTo (current other : bytes)
| CNotSaved (ssid : bytes)
| CProfile (e : Profile.Error).

(** [ConnectionStatus] of caw-ipc, with the state it names *)
Record ConnectionStatus := {
  cs_port : bytes; cs_ssid : option bytes; cs_state : Conn.State; cs_addrs : list (Rtnl.IpAddr * Z);
}.

(** [caw_ipc::Event] and [caw_ipc::Response] *)
Inductive Reply :=
| EvScanning
| EvAuthenticating
| EvAssociating (bssid : option bytes)
| EvConfiguring
| EvConnected
| EvFailed (reason : Cause)
| EvNeedSecret (token : Z) (prompt : bytes)
| RspOk
| RspPorts (l : list Ipc.PortSummary)
| RspNetworks (l : list Ipc.NetworkSummary)
| RspStatus (s : ConnectionStatus)
| RspError (reason : Cause).

Inductive Effect :=
| Call {A} (s : sys A)
| Send (client : ClientId) (r : Reply).

Definition MAX_TURNS : nat := 32.
Definition NO_WIRELESS : Cause := CText "no wireless stack: the kernel has no nl80211 family".
Definition EBUSY : Z := 16.

(** ** The daemon *)
Section engine.
Context `{Crypto.CryptoPrims} {SaeP DotP : Type} `{Crypto.PmkProvider SaeP} `{Crypto.PmkProvider DotP}
  {build : Conn.Build SaeP DotP} `{Profile.Json} {W : Type} `{Kernel W}.

Abbreviation connection := (@Conn.Connection SaeP DotP).

Record PendingSecret := { ps_token : Z; ps_client : ClientId }.

Record DhcpRun := { dr_machine : DhcpClient.Dhcp4; dr_ifindex : Z; dr_probe_route : bool }.

(** [Engine] *)
Record Engine := {
  core : option connection;
  device : option Conn.Device;
  watcher : option ClientId;
  pending_secret : option PendingSecret;
  next_token : Z;
  resolver_warned : bool;
}.

(** [Ports]: what the reactor lends, the world behind it and the profile
    directory.  [eapol] is whether the socket is open. *)
Record Ports := {
  nl : bool;
  eapol : bool;
  rtnl : bool;
  dhcp : option DhcpRun;
  timers : list (Timers.Entry Key);
  now : Z;
  world : W;
  store : Profile.Fs;
}.

Record Daemon := { engine : Engine; ports : Ports }.

Definition Engine_new : Engine :=
  {| core := None; device := None; watcher := None; pending_secret := None; next_token := 1;
     resolver_warned := false |}.

(** *** One field at a time *)
Definition on_engine (f : Engine -> Engine) (d : Daemon) : Daemon := {| engine := f (engine d); ports := ports d |}.
Definition on_ports (f : Ports -> Ports) (d : Daemon) : Daemon := {| engine := engine d; ports := f (ports d) |}.

Definition set_core (v : option connection) : Daemon -> Daemon := on_engine (fun e =>
  {| core := v; device := device e; watcher := watcher e; pending_secret := pending_secret e;
     next_token := next_token e; resolver_warned := resolver_warned e |}).
Definition set_device (v : option Conn.Device) : Daemon -> Daemon := on_engine (fun e =>
  {| core := core e; device := v; watcher := watcher e; pending_secret := pending_secret e;
     next_token := next_token e; resolver_warned := resolver_warned e |}).
Definition set_watcher (v : option ClientId) : Daemon -> Daemon := on_engine (fun e =>
  {| core := core e; device := device e; watcher := v; pending_secret := pending_secret e;
     next_token := next_token e; resolver_warned := resolver_warned e |}).
Definition set_pending_secret (v : option PendingSecret) : Daemon -> Daemon := on_engine (fun e =>
  {| core := core e; device := device e; watcher := watcher e; pending_secret := v;
     next_token := next_token e; resolver_warned := resolver_warned e |}).
Definition set_next_token (v : Z) : Daemon -> Daemon := on_engine (fun e =>
  {| core := core e; device := device e; watcher := watcher e; pending_secret := pending_secret e;
     next_token := v; resolver_warned := resolver_warned e |}).
Definition set_resolver_warned (v : bool) : Daemon -> Daemon := on_engine (fun e =>
  {| core := core e; device := device e; watcher := watcher e; pending_secret := pending_secret e;
     next_token := next_token e; resolver_warned := v |}).
Definition set_eapol (v : bool) : Daemon -> Daemon := on_ports (fun p =>
  {| nl := nl p; eapol := v; rtnl := rtnl p; dhcp := dhcp p; timers := timers p; now := now p;
     world := world p; store := store p |}).
Definition set_dhcp (v : option DhcpRun) : Daemon -> Daemon := on_ports (fun p =>
  {| nl := nl p; eapol := eapol p; rtnl := rtnl p; dhcp := v; timers := timers p; now := now p;
     world := world p; store := store p |}).
Definition set_timers (v : list (Timers.Entry Key)) : Daemon -> Daemon := on_ports (fun p =>
  {| nl := nl p; eapol := eapol p; rtnl := rtnl p; dhcp := dhcp p; timers := v; now := now p;
     world := world p; store := store p |}).
Definition set_world (v : W) : Daemon -> Daemon := on_ports (fun p =>
  {| nl := nl p; eapol := eapol p; rtnl := rtnl p; dhcp := dhcp p; timers := timers p; now := now p;
     world := v; store := store p |}).
Definition set_store (v : Profile.Fs) : Daemon -> Daemon := on_ports (fun p =>
  {| nl := nl p; eapol := eapol p; rtnl := rtnl p; dhcp := dhcp p; timers := timers p; now := now p;
     world := world p; store := v |}).
(** [with_engine] reads the clock for each call into the engine. *)
Definition at_time (v : Z) : Daemon -> Daemon := on_ports (fun p =>
  {| nl := nl p; eapol := eapol p; rtnl := rtnl p; dhcp := dhcp p; timers := timers p; now := v;
     world := world p; store := store p |}).

Abbreviation op := (act Daemon Effect).

(** *** Fallible steps: [Result<_, String>], and [?] *)
Abbreviation fallible A := (op (Cause + A)).
Definition try {A B} (m : fallible A) (k : A -> fallible B) : fallible B :=
  r ← m; match r with inl e => mret (inl e) | inr a => k a end.
Definition done_ {A} (a : A) : fallible A := mret (inr a).
Definition failing {A} (e : Cause) : fallible A := mret (inl e).

Definition call {A} (s : sys A) : op (SysError + A) :=
  d ← get_state;
  let (r, w) := answer s (world (ports d)) in
  _ ← modify (set_world w);
  _ ← emit (Call s);
  mret r.
(** [.map_err(..)?], with what the text says besides the error. *)
Definition call_or {A} (what : string) (s : sys A) : fallible A :=
  r ← call s; mret (match r with inl e => inl (CSys what e) | inr a => inr a end).
(** A call whose failure is at most logged. *)
Definition call_logged {A} (s : sys A) : op unit := _ ← call s; mret tt.
Definition send (c : ClientId) (r : Reply) : op unit := emit (Send c r).

(** [ports.nl()?], [.ok_or(..)?] *)
Definition need_nl : fallible unit :=
  d ← get_state; mret (if nl (ports d) then inr tt else inl NO_WIRELESS).
Definition need_rtnl (what : string) : fallible unit :=
  d ← get_state; mret (if rtnl (ports d) then inr tt else inl (CText what)).
Definition ifindex_of (d : Daemon) : option Z := Conn.ifindex <$> device (engine d).
Definition need_ifindex (what : string) : fallible Z :=
  d ← get_state; mret (match ifindex_of d with Some i => inr i | None => inl (CText what) end).

Definition state_of (d : Daemon) : Conn.State := from_option Conn.state Conn.Idle (core (engine d)).
Definition is_idle (d : Daemon) : bool := bool_decide (state_of d = Conn.Idle).
(** [Engine::ssid]: the name as text, whatever octets it holds. *)
Definition ssid_of (d : Daemon) : option bytes := Text.utf8_lossy <$> (core (engine d) ≫= Conn.conn_ssid).

(** *** Deadlines *)
Definition arm_key (k : Key) (delay : Z) : op unit :=
  d ← get_state; modify (set_timers (Timers.arm k delay (now (ports d)) (timers (ports d)))).
Definition cancel_key (k : Key) : op unit :=
  d ← get_state; modify (set_timers (Timers.cancel k (timers (ports d)))).
Definition is_core (k : Key) : bool := match k with KCore _ => true | _ => false end.
Definition cancel_core_timers : op unit :=
  d ← get_state; modify (set_timers (Timers.cancel_if is_core (timers (ports d)))).

(** *** Address configuration *)

(** Once: the route is given back at the first call. *)
Definition drop_probe_route : op unit :=
  d ← get_state;
  with_some (dhcp (ports d)) (fun run =>
    when (dr_probe_route run) (
      _ ← modify (set_dhcp (Some {| dr_machine := dr_machine run; dr_ifindex := dr_ifindex run;
                                    dr_probe_route := false |}));
      call_logged (RtDelProbeRoute (dr_ifindex run)))).

Definition stop_dhcp : op unit :=
  d ← get_state;
  _ ← when (rtnl (ports d)) drop_probe_route;
  _ ← modify (set_dhcp None);
  for_each [DhcpClient.Retransmit; DhcpClient.Renew; DhcpClient.Rebind; DhcpClient.Expire]
    (fun t => cancel_key (KDhcp t)).

(** One action of the exchange, and the lease event it amounts to. *)
Definition perform_dhcp (a : DhcpClient.Action) : op (option Conn.LeaseEvent) :=
  match a with
  | DhcpClient.Broadcast data => _ ← call_logged (DhcpBroadcast data); mret None
  | DhcpClient.Unicast to data => _ ← call_logged (DhcpSend to data); mret None
  | DhcpClient.SetTimer t secs => _ ← arm_key (KDhcp t) (secs * 1000); mret None
  | DhcpClient.Configured l => mret (Some (Conn.Acquired l))
  | DhcpClient.Deconfigure r => mret (Some (Conn.Lost r))
  | DhcpClient.Failed => mret (Some Conn.LeaseFailed)
  end.
Fixpoint perform_dhcp_all (l : list DhcpClient.Action) (out : option Conn.LeaseEvent)
  : op (option Conn.LeaseEvent) :=
  match l with
  | [] => mret out
  | a :: l => e ← perform_dhcp a; perform_dhcp_all l (match e with Some e => Some e | None => out end)
  end.
Definition drive_dhcp (i : DhcpClient.Input) : op (option Conn.LeaseEvent) :=
  d ← get_state;
  match dhcp (ports d) with
  | None => mret None
  | Some run =>
      let (m, actions) := DhcpClient.poll (dr_machine run) i in
      _ ← modify (set_dhcp (Some {| dr_machine := m; dr_ifindex := dr_ifindex run;
                                    dr_probe_route := dr_probe_route run |}));
      perform_dhcp_all actions None
  end.

(** *** Actions *)

(** Once: whether the resolver reads what was written. *)
Definition check_resolver_link : op unit :=
  d ← get_state;
  when (negb (resolver_warned (engine d))) (
    points ← call ResolverPointsHere;
    when (match points with inr true => false | _ => true end) (modify (set_resolver_warned true))).

(** [Action::ApplyLease]: addresses an earlier lease left behind go first. *)
Definition apply_lease (l : DhcpClient.Lease) : fallible unit :=
  try (need_ifindex "no interface to configure") (fun ifindex =>
  try (need_rtnl "no rtnetlink socket to apply the lease") (fun _ =>
  try (call_or "cannot list addresses before applying DHCP" RtAddresses) (fun addresses =>
  _ ← for_each addresses (fun a =>
        match Rtnl.a_addr a with
        | Rtnl.V4 addr =>
            when ((Rtnl.a_index a =? ifindex) && negb (addr =? DhcpClient.l_addr l))
              (call_logged (RtDelAddress ifindex addr (Rtnl.a_prefix_len a)))
        | Rtnl.V6 _ => mret tt
        end);
  try (call_or "cannot add" (RtAddAddress ifindex (DhcpClient.l_addr l) (DhcpClient.l_prefix_len l))) (fun _ =>
  try (match DhcpClient.l_gateway l with
       | Some gateway => call_or "cannot add the default route" (RtAddDefaultRoute ifindex gateway)
       | None => done_ tt
       end) (fun _ =>
  _ ← drop_probe_route;
  r ← call (WriteResolvConf (DhcpClient.l_dns l));
  _ ← match r with inr _ => check_resolver_link | inl _ => mret tt end;
  done_ tt))))).

(** [Action::InstallKeys] *)
Definition install_keys (k : Conn.KeyInstall) : fallible unit :=
  try (need_ifindex "no interface to key") (fun ifindex =>
  try need_nl (fun _ =>
  try (match Conn.ki_pairwise_key k with
       | Some p => call_or "" (NlNewPairwiseKey ifindex (Conn.pk_peer p) (Conn.pk_cipher p) (Crypto.tk (Conn.pk_ptk p)))
       | None => done_ tt
       end) (fun _ =>
  let g := Conn.ki_group_key k in
  let gtk := Conn.gk_gtk g in
  try (call_or "" (NlNewGroupKey ifindex (Eapol.gtk_index gtk) (Conn.gk_cipher g) (Eapol.gtk_key gtk))) (fun _ =>
  call_or "" (NlSetDefaultKey ifindex (Eapol.gtk_index gtk)))))).

(** [Action::StartDhcp]: the lease event is [None] unless the machine's first
    step already ends the exchange. *)
Definition start_dhcp : fallible (option Conn.Input) :=
  try (need_ifindex "no interface for DHCP") (fun ifindex =>
  d ← get_state;
  match Conn.mac <$> device (engine d) with
  | None => failing (CText "no device MAC for DHCP")
  | Some mac =>
      _ ← stop_dhcp;
      probe_route ← (if rtnl (ports d) then
                       _ ← call_logged (RtAddBroadcastRoute ifindex);
                       r ← call (RtAddProbeRoute ifindex);
                       mret (match r with inr _ => true | inl _ => false end)
                     else mret false);
      try (call_or "cannot open the DHCP socket (binding port 68 needs root)" DhcpOpen) (fun _ =>
      try (call_or "" NewXid) (fun xid =>
      r ← call Hostname;
      let machine := DhcpClient.Dhcp4_new mac xid in
      let machine := match r with
                     | inr hostname => if bool_decide (hostname = []) then machine
                                       else DhcpClient.with_hostname machine hostname
                     | inl _ => machine
                     end in
      _ ← modify (set_dhcp (Some {| dr_machine := machine; dr_ifindex := ifindex; dr_probe_route := probe_route |}));
      e ← drive_dhcp (DhcpClient.Start xid);
      done_ (Conn.ILease <$> e)))
  end).

(** [profile::save], one system call at a time *)
Fixpoint run_store (steps : list Profile.FsStep) : fallible unit :=
  match steps with
  | [] => done_ tt
  | s :: steps =>
      try (call_or "" (StoreStep s)) (fun _ =>
      d ← get_state;
      _ ← modify (set_store (Profile.fs_step (store (ports d)) s));
      run_store steps)
  end.
Definition store_profile (p : Profile.Profile) : fallible unit :=
  match Profile.save p with
  | Ok steps => run_store steps
  | Err Profile.EmptySsid => failing (CProfile Profile.EmptySsid)
  | Err e => try (run_store [Profile.Mkdir]) (fun _ => failing (CProfile e))
  | Panic => panics
  end.
Definition save_profile (p : Profile.Profile) : fallible unit :=
  try (store_profile p) (fun _ =>
  d ← get_state;
  _ ← with_some (core (engine d)) (fun c => modify (set_core (Some (Conn.insert_profile p c))));
  done_ tt).

(** [Action::RequestSecret] *)
Definition request_secret (prompt : bytes) : fallible unit :=
  d ← get_state;
  match watcher (engine d) with
  | None => failing (CText "this network needs a passphrase and no client is attached")
  | Some client =>
      let token := next_token (engine d) in
      _ ← modify (set_next_token (token + 1));
      _ ← modify (set_pending_secret (Some {| ps_token := token; ps_client := client |}));
      _ ← send client (EvNeedSecret token prompt);
      done_ tt
  end.

(** [Engine::notify] *)
Definition event_for (s : Conn.State) (bssid : option bytes) : option Reply :=
  match s with
  | Conn.Scanning => Some EvScanning
  | Conn.Authenticating | Conn.Handshaking => Some EvAuthenticating
  | Conn.Associating => Some (EvAssociating bssid)
  | Conn.Configuring => Some EvConfiguring
  | Conn.Connected => Some EvConnected
  | Conn.Reconnecting | Conn.Idle => None
  end.
Definition notify (s : Conn.State) : op unit :=
  d ← get_state;
  with_some (watcher (engine d)) (fun client =>
    let bssid := core (engine d) ≫= Conn.conn_bssid in
    _ ← with_some (event_for s bssid) (send client);
    when (match s with Conn.Connected | Conn.Idle => true | _ => false end) (
      _ ← send client RspOk;
      modify (set_watcher None))).

(** [Action::Failed] *)
Definition report_failure (f : Conn.Failure) : op unit :=
  d ← get_state;
  _ ← with_some (watcher (engine d)) (fun client =>
        _ ← modify (set_watcher None);
        _ ← send client (EvFailed (CFailure f));
        send client (RspError (CFailure f)));
  _ ← modify (set_pending_secret None);
  when (Conn.is_terminal f) (_ ← modify (set_eapol false); stop_dhcp).

Definition nothing (m : fallible unit) : fallible (option Conn.Input) := try m (fun _ => done_ None).

(** [Engine::perform]: one action, and the input it leads to. *)
Definition perform (a : Conn.Action) : fallible (option Conn.Input) :=
  match a with
  | Conn.TriggerScan ifindex => nothing (
      try need_nl (fun _ =>
      r ← call (NlTriggerScan ifindex);
      mret (match r with
            | inr _ => inr tt
            | inl e => if bool_decide (e = EKernel EBUSY) then inr tt else inl (CSys "" e)
            end)))
  | Conn.FetchScanResults ifindex =>
      try need_nl (fun _ =>
      try (call_or "" (NlScanResults ifindex)) (fun results => done_ (Some (Conn.ScanResults results))))
  | Conn.Associate r => nothing (
      match Conn.as_offload r with
      | Some _ => failing (CText "this device runs the handshake in firmware, which needs NL80211_ATTR_PMK support in caw-nl80211")
      | None =>
          try need_nl (fun _ =>
          call_or "" (if Conn.as_authenticated r then NlAssociate r else NlConnect r))
      end)
  | Conn.Authenticate r => nothing (try need_nl (fun _ => call_or "" (NlAuthenticate r)))
  | Conn.ADisconnect reason => nothing (
      try (need_ifindex "no interface to disconnect") (fun ifindex =>
      try need_nl (fun _ => call_or "" (NlDisconnect ifindex reason))))
  | Conn.SendEapol frame => nothing (
      d ← get_state;
      if eapol (ports d) then call_or "" (EapolSend frame) else failing (CText "no EAPOL socket"))
  | Conn.InstallKeys k => nothing (install_keys k)
  | Conn.StartDhcp => start_dhcp
  | Conn.ApplyLease l => nothing (apply_lease l)
  | Conn.SetTimer id millis => _ ← arm_key (KCore id) millis; done_ None
  | Conn.ClearTimer id => _ ← cancel_key (KCore id); done_ None
  | Conn.RequestSecret prompt => nothing (request_secret prompt)
  | Conn.SaveProfile p => nothing (save_profile p)
  | Conn.Notify s => _ ← notify s; done_ None
  | Conn.AFailed f => _ ← report_failure f; done_ None
  end.

(** *** Ending an attempt *)

(** [core.poll(..)]: the entropy a handshake may need is drawn with it. *)
Definition poll_core (c : connection) (i : Conn.Input) : op (list Conn.Action) :=
  r ← call NewNonce;
  '(c', out) ← expect_act (Conn.poll (match r with inr n => Ok n | inl _ => Err (Eapol.ErrIo 0) end) i c);
  _ ← modify (set_core (Some c'));
  mret out.

(** [Engine::reset] *)
Definition reset : op unit :=
  d ← get_state;
  with_some (core (engine d)) (fun c =>
    out ← poll_core c (Conn.ICommand Conn.CmdDisconnect);
    _ ← for_each out (fun a => _ ← perform a; mret tt);
    _ ← cancel_core_timers;
    _ ← modify (set_eapol false);
    stop_dhcp).

(** [Engine::abort] *)
Definition abort (reason : Cause) : op unit :=
  d ← get_state;
  _ ← with_some (watcher (engine d)) (fun client =>
        _ ← modify (set_watcher None);
        _ ← send client (EvFailed reason);
        send client (RspError reason));
  _ ← modify (set_pending_secret None);
  reset.

(** *** The loop *)

(** The actions of one turn: the inputs they led to, or the first failure,
    after which the rest of the turn is dropped. *)
Fixpoint perform_all (l : list Conn.Action) (next : list Conn.Input) : fallible (list Conn.Input) :=
  match l with
  | [] => done_ next
  | a :: l => try (perform a) (fun i => perform_all l (next ++ option_list i))
  end.
Fixpoint feed_loop (turns : nat) (queue : list Conn.Input) : op unit :=
  match turns, queue with
  | O, _ | _, [] => mret tt
  | S turns, i :: queue =>
      d ← get_state;
      with_some (core (engine d)) (fun c =>
        out ← poll_core c i;
        r ← perform_all out queue;
        match r with
        | inl e => abort e
        | inr queue => feed_loop turns queue
        end)
  end.
Definition feed (i : Conn.Input) : op unit := feed_loop MAX_TURNS [i].

(** *** Requests *)

(** [Engine::describe] *)
Definition describe (ifindex : Z) : fallible Conn.Device :=
  try need_nl (fun _ =>
  try (call_or "" NlInterfaces) (fun interfaces =>
  match find_first (fun i => Wiphy.i_ifindex i =? ifindex) interfaces with
  | None => failing (CText "no such wireless port")
  | Some interface =>
      match Wiphy.i_mac interface with
      | None => failing (CText "the interface has no address to derive keys from")
      | Some mac =>
          try (call_or "" NlWiphys) (fun wiphys =>
          let caps := from_option caps_of no_caps (find_first (fun w => Wiphy.w_index w =? Wiphy.i_wiphy interface) wiphys) in
          done_ {| Conn.ifindex := ifindex; Conn.mac := mac; Conn.caps := caps |})
      end
  end)).

(** [Engine::prepare] *)
Definition prepare (ifindex : Z) : fallible unit :=
  try (describe ifindex) (fun dev =>
  d ← get_state;
  _ ← when (negb (bool_decide (device (engine d) = Some dev))) (
        _ ← when (negb (is_idle d)) (abort (CPort "the address or capabilities changed" ifindex));
        _ ← cancel_core_timers;
        r ← call StoreRead;
        d ← get_state;
        let profiles := match r with inr _ => Profile.load_all (store (ports d)) | inl _ => [] end in
        _ ← modify (set_core (Some (Conn.Connection_new dev profiles)));
        _ ← modify (set_device (Some dev));
        _ ← modify (set_eapol false);
        stop_dhcp);
  d ← get_state;
  if eapol (ports d) then done_ tt else
  try (call_or "cannot open the EAPOL socket (needs CAP_NET_RAW)" (EapolOpen ifindex)) (fun _ =>
  _ ← modify (set_eapol true); done_ tt)).

(** A request that takes over from an earlier one answers it first. *)
Definition take_over (client : ClientId) (what : string) : op unit :=
  d ← get_state;
  _ ← modify (set_watcher (Some client));
  with_some (watcher (engine d)) (fun previous =>
    when (negb (previous =? client)) (send previous (RspError (CText what)))).

(** [Engine::connect] *)
Definition connect (ifindex : Z) (ssid : bytes) (client : ClientId) : fallible unit :=
  if bool_decide (ssid = []) then failing (CText "a network name cannot be empty") else
  try (prepare ifindex) (fun _ =>
  _ ← take_over client "superseded by another connect request";
  _ ← modify (set_pending_secret None);
  _ ← feed (Conn.ICommand (Conn.Connect ssid));
  done_ tt).

(** [Engine::autoconnect] *)
Definition autoconnect (ifindex : Z) : fallible unit :=
  try (prepare ifindex) (fun _ => _ ← feed (Conn.ICommand Conn.Autoconnect); done_ tt).

(** [Engine::disconnect] *)
Definition disconnect (ssid : bytes) (client : ClientId) : fallible unit :=
  d ← get_state;
  match ssid_of d with
  | None => failing (CText "not connected")
  | Some current =>
      if bool_decide (current = ssid) then
        _ ← take_over client "superseded by a disconnect request";
        _ ← modify (set_pending_secret None);
        _ ← feed (Conn.ICommand Conn.CmdDisconnect);
        done_ tt
      else failing (CConnectedTo current ssid)
  end.

(** [Engine::forget] *)
Definition forget (ssid : bytes) (client : ClientId) : fallible bool :=
  try (call_or "" (StoreRemove (Profile.file_name ssid))) (fun _ =>
  d ← get_state;
  let (deleted, fs) := Profile.delete_profile (store (ports d)) ssid in
  _ ← modify (set_store fs);
  if bool_decide (ssid_of d = Some ssid) then try (disconnect ssid client) (fun _ => done_ true) else
  if deleted then done_ false else failing (CNotSaved ssid)).

(** [Engine::secret]: only from the client asked, for the prompt it was
    asked. *)
Definition secret (token : Z) (value : bytes) (client : ClientId) : fallible unit :=
  d ← get_state;
  match pending_secret (engine d) with
  | None => failing (CText "nothing is waiting for a secret")
  | Some p =>
      if (ps_token p =? token) && (ps_client p =? client) then
        _ ← modify (set_pending_secret None);
        _ ← feed (Conn.ICommand (Conn.Secret value));
        done_ tt
      else failing (CText "no secret was asked of you")
  end.

(** *** Events *)
Definition on_wireless (e : Nl80211.Event) : op unit := feed (Conn.Wireless e).
Definition on_eapol (frame : bytes) : op unit := feed (Conn.IEapol frame).
Definition on_timer (id : Conn.TimerId) : op unit := feed (Conn.ITimer id).
Definition on_dhcp_datagram (b : bytes) : op unit :=
  e ← drive_dhcp (DhcpClient.Datagram b); with_some e (fun e => feed (Conn.ILease e)).
Definition on_dhcp_timer (t : DhcpClient.Timer) : op unit :=
  e ← drive_dhcp (DhcpClient.Timeout t);
  with_some e (fun e =>
    _ ← when (match e with Conn.LeaseFailed => true | _ => false end) stop_dhcp;
    feed (Conn.ILease e)).

(** [Engine::on_link] *)
Definition on_link (e : Links.LinkEvent) : op unit :=
  d ← get_state;
  with_some (ifindex_of d) (fun ifindex =>
    match e with
    | Links.Removed gone =>
        when (gone =? ifindex) (
          _ ← abort (CPort "was removed" ifindex);
          _ ← modify (set_core None);
          modify (set_device None))
    | Links.Changed changed false _ =>
        when ((changed =? ifindex) && negb (is_idle d)) (abort (CPort "was taken down" ifindex))
    | Links.Changed changed true false =>
        when ((changed =? ifindex) && bool_decide (state_of d = Conn.Connected))
          (feed (Conn.Wireless (Nl80211.Disconnected 0 false)))
    | _ => mret tt
    end).

(** [Engine::forget_client] *)
Definition forget_client (client : ClientId) : op unit :=
  d ← get_state;
  _ ← when (bool_decide (watcher (engine d) = Some client)) (modify (set_watcher None));
  d ← get_state;
  when (match pending_secret (engine d) with Some p => ps_client p =? client | None => false end)
    (modify (set_pending_secret None)).

Definition resume : op unit :=
  d ← get_state; when (negb (is_idle d)) (abort (CText "system resumed; re-establishing connection")).
Definition shut_down : op unit :=
  d ← get_state;
  when (is_some (core (engine d)) && negb (is_idle d)) (feed (Conn.ICommand Conn.CmdDisconnect)).
End engine.

Arguments Daemon : clear implicits.
Arguments Engine : clear implicits.
Arguments Ports : clear implicits.
