(* ===== verification/EngineProps.v ===== *)
(** * Properties of the engine

    The daemon refines the connection: whatever is asked of it and whatever
    the kernel answers, its machine is in a state [ConnProps.reaches] and the
    deadlines its table holds are the ones the machine's theorems speak of.
    Then what only the daemon can promise: its loop settles, a secret comes
    from the client that was asked, and every waiting client is answered. *)
From S2P Require Import Prelude Effects.
From S2P Require Text Crypto Nl80211 Eapol FourWay Profile DhcpClient Timers.
From S2P Require Import Conn ConnAsks ConnProps.
From S2P Require Import Engine.


#[local] Existing Instances Engine.Key_eq_dec.

Section daemon.
Context `{Crypto.CryptoLaws} {SaeP DotP : Type} `{Crypto.PmkProviderSafe SaeP} `{Crypto.PmkProviderSafe DotP}
  {build : Build SaeP DotP} `{!BuildSafe build} `{Profile.Json} {W : Type} `{KernelOk W}.

Abbreviation connection := (@Connection SaeP DotP).
Abbreviation daemon := (Daemon SaeP DotP W).

(** ** The table of deadlines *)

Definition holds_key (d : daemon) (k : Key) : Prop := k ∈ Timers.keys (timers (ports d)).
Abbreviation runs d id := (holds_key d (KCore id)).

(** One deadline per key, and none of an exchange that is over. *)
Record tidy (d : daemon) : Prop := {
  tidy_keys : NoDup (Timers.keys (timers (ports d)));
  tidy_dhcp : dhcp (ports d) = None -> forall t, ~ holds_key d (KDhcp t);
}.

(** What most of the engine leaves alone. *)
Record frame (d d' : daemon) : Prop := {
  frame_core : core (engine d') = core (engine d);
  frame_tidy : tidy d -> tidy d';
  frame_runs id : runs d' id <-> runs d id;
}.
#[local] Instance frame_preorder : PreOrder frame.
Proof.
  split; [by split|]. intros d1 d2 d3 [Hc1 Ht1 Hr1] [Hc2 Ht2 Hr2].
  split; [by rewrite Hc2|auto|]. intros id. by rewrite Hr2.
Qed.

(** A change to the fields the invariant does not speak of. *)
Lemma frame_same d d' :
  core (engine d') = core (engine d) -> timers (ports d') = timers (ports d) ->
  dhcp (ports d') = dhcp (ports d) -> frame d d'.
Proof.
  intros Hc Ht Hd. split; [done| |by intros id; unfold holds_key; rewrite Ht].
  intros [Hk Hn]. split; [by rewrite Ht|]. unfold holds_key. by rewrite Ht, Hd.
Qed.

Lemma tidy_same d d' :
  timers (ports d') = timers (ports d) -> dhcp (ports d') = dhcp (ports d) -> tidy d -> tidy d'.
Proof. intros Ht Hd [Hk Hn]. split; [by rewrite Ht|]. unfold holds_key. by rewrite Ht, Hd. Qed.

(** The exchange is replaced by one that goes on. *)
Lemma frame_dhcp d run : frame d (set_dhcp (Some run) d).
Proof. split; [done| |done]. intros [Hk _]. by split. Qed.

Lemma frame_arm_dhcp d t at_ :
  dhcp (ports d) <> None -> frame d (set_timers (Timers.arm_at (KDhcp t) at_ (timers (ports d))) d).
Proof.
  intros Hd. split; [done| |].
  - intros [Hk Hn]. split; [by apply Timers.NoDup_arm|]. by intros Hd'.
  - intros id. unfold holds_key. cbn [ports set_timers on_ports timers]. rewrite Timers.elem_keys_arm. naive_solver.
Qed.

Abbreviation op := (act daemon Effect).

(** A system call changes the world and nothing else. *)
Definition only_world (d d' : daemon) : Prop := d' = set_world (world (ports d')) d.
#[local] Instance only_world_preorder : PreOrder only_world.
Proof.
  unfold only_world. split; [by intros [? []]|]. intros d1 d2 d3 H12 H23. rewrite H23, H12. done.
Qed.

Lemma call_only_world {A} (s : sys A) d : moves only_world (call s) d.
Proof. unfold call. moves_step. destruct (answer _ _). by repeat moves_step. Qed.

Lemma only_world_frame d d' : only_world d d' -> frame d d'.
Proof. intros ->. by apply frame_same. Qed.

Ltac frame_leaf := first [ by apply frame_same | by apply frame_dhcp ].

Lemma call_frame {A} (s : sys A) d : moves frame (call s) d.
Proof. eapply moves_mono; [apply only_world_frame|apply call_only_world]. Qed.
#[local] Hint Resolve call_frame : caw.

Lemma call_or_frame {A} what (s : sys A) d : moves frame (call_or what s) d.
Proof. unfold call_or. moves_step; [apply call_frame|apply moves_ret, _]. Qed.

Lemma call_logged_frame {A} (s : sys A) d : moves frame (call_logged s) d.
Proof. unfold call_logged. moves_step; [apply call_frame|apply moves_ret, _]. Qed.
#[local] Hint Resolve call_or_frame call_logged_frame : caw.

Lemma moves_try {A B} (R : daemon -> daemon -> Prop) `{!PreOrder R} (m : op (Cause + A)) (k : A -> op (Cause + B)) d :
  moves R m d -> (forall a d', R d d' -> moves R (k a) d') -> moves R (try m k) d.
Proof.
  intros Hm Hk. unfold try. apply moves_bind; [exact _|done|].
  intros [] d' Hf; [apply moves_ret, _|by apply Hk].
Qed.

Ltac solve_frame := repeat first
  [ moves_step
  | lazymatch goal with
    | |- moves _ (try _ _) _ => apply moves_try; [exact _| |intros ? ? ?]
    | |- moves _ (done_ _) _ => apply moves_ret, _
    | |- moves _ (failing _) _ => apply moves_ret, _
    | |- moves _ (send _ _) _ => apply moves_emit, _
    | |- moves _ ((fun _ => _) _) _ => cbn beta
    | |- moves _ (let _ := _ in _) _ => cbv zeta
    | |- frame _ _ => frame_leaf
    end
  | solve [eauto with caw] ].

Lemma need_nl_frame d : moves frame need_nl d.
Proof. unfold need_nl. solve_frame. Qed.
Lemma need_rtnl_frame what d : moves frame (need_rtnl what) d.
Proof. unfold need_rtnl. solve_frame. Qed.
Lemma need_ifindex_frame what d : moves frame (need_ifindex what) d.
Proof. unfold need_ifindex. solve_frame. Qed.
Lemma drop_probe_route_frame d : moves frame drop_probe_route d.
Proof. unfold drop_probe_route. solve_frame. Qed.
#[local] Hint Resolve need_nl_frame need_rtnl_frame need_ifindex_frame drop_probe_route_frame : caw.

(** The end of an exchange takes its deadlines along. *)
Lemma stop_dhcp_frame d : moves frame stop_dhcp d.
Proof.
  unfold stop_dhcp. moves_step. moves_step; [solve_frame|]. intros out. wp_steps. cbn [for_each].
  unfold cancel_key. wp_steps.
  split; [done| |].
  - intros [Hk _]. split; [cbn; do 4 apply Timers.NoDup_cancel; done|].
    intros _ t. unfold holds_key. cbn [ports set_timers on_ports timers set_dhcp].
    rewrite !Timers.elem_keys_cancel. destruct t; naive_solver.
  - intros id. unfold holds_key. cbn [ports set_timers on_ports timers set_dhcp].
    rewrite !Timers.elem_keys_cancel. naive_solver.
Qed.
#[local] Hint Resolve stop_dhcp_frame : caw.

(** A step of the exchange keeps it going. *)
Record going (d d' : daemon) : Prop := {
  going_frame : frame d d';
  going_dhcp : dhcp (ports d) <> None -> dhcp (ports d') <> None;
}.
#[local] Instance going_preorder : PreOrder going.
Proof.
  split; [intros d; split; [reflexivity|done]|].
  intros d1 d2 d3 [Hf1 Hg1] [Hf2 Hg2]. split; [by etrans|auto].
Qed.

Lemma only_world_going d d' : only_world d d' -> going d d'.
Proof. intros ->. split; [by apply frame_same|done]. Qed.

Lemma perform_dhcp_all_going l e d : dhcp (ports d) <> None -> moves going (perform_dhcp_all l e) d.
Proof.
  revert e d. induction l as [|a l IH]; intros e d Hd; cbn [perform_dhcp_all]; [apply moves_ret, _|].
  apply moves_bind; [exact _| |intros e' d' [_ Hg]; by apply IH, Hg].
  assert (Hc : forall A (s : sys A), moves going (call_logged s) d).
  { intros A s. eapply moves_mono; [apply only_world_going|]. unfold call_logged. moves_step; [apply call_only_world|].
    apply moves_ret, _. }
  destruct a; cbn [perform_dhcp]; repeat first [apply Hc | moves_step].
  unfold arm_key. repeat moves_step. split; [by apply frame_arm_dhcp|done].
Qed.

Lemma drive_dhcp_frame i d : moves frame (drive_dhcp i) d.
Proof.
  unfold drive_dhcp. moves_step. destruct (dhcp (ports d)) as [run|]; [|apply moves_ret, _].
  destruct (DhcpClient.poll _ _) as [m actions]. intros out. wp_steps.
  eapply wp_mono; [by apply perform_dhcp_all_going|]. cbn. intros _ d' _ [Hf _].
  etrans; [|exact Hf]. frame_leaf.
Qed.
#[local] Hint Resolve drive_dhcp_frame : caw.

(** *** Actions that leave the machine and its deadlines alone *)

Lemma apply_lease_frame l d : moves frame (apply_lease l) d.
Proof. unfold apply_lease, check_resolver_link. solve_frame. Qed.
Lemma install_keys_frame k d : moves frame (install_keys k) d.
Proof. unfold install_keys. solve_frame. Qed.
Lemma start_dhcp_frame d : moves frame start_dhcp d.
Proof. unfold start_dhcp. solve_frame. Qed.
Lemma request_secret_frame prompt d : moves frame (request_secret prompt) d.
Proof. unfold request_secret. solve_frame. Qed.
Lemma notify_frame s d : moves frame (notify s) d.
Proof. unfold notify. solve_frame. Qed.
Lemma report_failure_frame f d : moves frame (report_failure f) d.
Proof. unfold report_failure. solve_frame. Qed.
Lemma run_store_frame steps d : moves frame (run_store steps) d.
Proof.
  revert d. induction steps as [|s steps IH]; intros d; cbn [run_store]; solve_frame.
Qed.
#[local] Hint Resolve apply_lease_frame install_keys_frame start_dhcp_frame request_secret_frame notify_frame
  report_failure_frame run_store_frame : caw.
Lemma store_profile_frame p d : moves frame (store_profile p) d.
Proof.
  unfold store_profile. pose proof (Profile.save_no_panic p) as Hn.
  destruct (Profile.save p) as [steps|[]|]; [..|done]; solve_frame.
Qed.

(** *** One action *)

(** The deadlines the table holds are those [V] of the machine's theorems,
    except the ones already taken out and still to be delivered. *)
Record tracks (due V : list TimerId) (d : daemon) : Prop := {
  tracks_runs id : runs d id -> id ∈ V;
  tracks_view id : id ∈ V -> runs d id \/ id ∈ due;
}.

Lemma tracks_frame due V d d' : frame d d' -> tracks due V d -> tracks due V d'.
Proof. intros [_ _ Hr] [Hr1 Hr2]. split; intros id; rewrite Hr; auto. Qed.

Lemma elem_timer_step V a id :
  id ∈ timer_step V a <-> match a with
                          | SetTimer i _ => id = i \/ id ∈ V
                          | ClearTimer i => id <> i /\ id ∈ V
                          | _ => id ∈ V
                          end.
Proof.
  destruct a; cbn [timer_step]; try done.
  - rewrite elem_of_cons, list_elem_of_filter. destruct (decide (id = id0)); naive_solver.
  - by rewrite list_elem_of_filter.
Qed.

Definition saves (a : Action) (d d' : daemon) : Prop :=
  core (engine d') = core (engine d)
  \/ exists p, a = SaveProfile p /\ core (engine d') = insert_profile p <$> core (engine d).

Definition performed due V (a : Action) (d : daemon) (r : Cause + option Input) (d' : daemon) : Prop :=
  tidy d' /\ saves a d d' /\ match r with inr _ => tracks due (timer_step V a) d' | inl _ => True end.

Lemma nothing_frame (m : op (Cause + unit)) d : moves frame m d -> moves frame (nothing m) d.
Proof. intros Hm. unfold nothing. apply moves_try; [exact _|done|]. intros. apply moves_ret, _. Qed.

Lemma perform_frame a d :
  match a with SetTimer _ _ | ClearTimer _ | SaveProfile _ => False | _ => True end -> moves frame (perform a) d.
Proof. destruct a; intros Ha; try done; cbn [perform]; try apply nothing_frame; solve_frame. Qed.

Lemma performed_frame due V a d r d' :
  (forall id, id ∈ timer_step V a <-> id ∈ V) -> tidy d -> tracks due V d -> frame d d' -> performed due V a d r d'.
Proof.
  intros Hv Ht Hk Hf. split_and!; [by apply Hf|by left; apply Hf|]. destruct r; [done|].
  destruct (tracks_frame due V d d' Hf Hk). split; intros id; rewrite Hv; auto.
Qed.

Lemma perform_spec due V a d out :
  tidy d -> tracks due V d -> wp (perform a) (fun r d' _ => performed due V a d r d') d out.
Proof.
  intros Ht Hk.
  assert (Hf : match a with SetTimer _ _ | ClearTimer _ | SaveProfile _ => False | _ => True end ->
    wp (perform a) (fun r d' _ => performed due V a d r d') d out).
  { intros Ha. eapply moves_wp; [by apply perform_frame|]. cbn. intros r d' _. apply performed_frame; [|done..].
    intros id. rewrite elem_timer_step. by destruct a. }
  destruct a; try (by apply Hf); clear Hf.
  - cbn [perform]. unfold arm_key, done_. wp_steps. destruct Ht as [Hn Hd], Hk as [Hr1 Hr2]. split_and!; [split| |split].
    + by apply Timers.NoDup_arm.
    + intros Hdh t. unfold holds_key. cbn [ports set_timers on_ports timers]. unfold Timers.arm.
      rewrite Timers.elem_keys_arm. intros [|Hin]; [done|]. by apply (Hd Hdh t).
    + by left.
    + intros i. rewrite elem_timer_step. unfold holds_key. cbn [ports set_timers on_ports timers]. unfold Timers.arm.
      rewrite Timers.elem_keys_arm. naive_solver.
    + intros i. rewrite elem_timer_step. unfold holds_key. cbn [ports set_timers on_ports timers]. unfold Timers.arm.
      rewrite Timers.elem_keys_arm. naive_solver.
  - cbn [perform]. unfold cancel_key, done_. wp_steps. destruct Ht as [Hn Hd], Hk as [Hr1 Hr2]. split_and!; [split| |split].
    + by apply Timers.NoDup_cancel.
    + intros Hdh t. unfold holds_key. cbn [ports set_timers on_ports timers].
      rewrite Timers.elem_keys_cancel. intros [_ Hin]. by apply (Hd Hdh t).
    + by left.
    + intros i. rewrite elem_timer_step. unfold holds_key. cbn [ports set_timers on_ports timers].
      rewrite Timers.elem_keys_cancel. naive_solver.
    + intros i. rewrite elem_timer_step. unfold holds_key. cbn [ports set_timers on_ports timers].
      rewrite Timers.elem_keys_cancel. naive_solver.
  - cbn [perform]. unfold nothing, save_profile, try. wp_step. wp_step.
    eapply wp_mono; [apply store_profile_frame|]. cbn beta. intros [e|[]] d1 out1 Hf1.
    + wp_steps. by apply performed_frame.
    + unfold done_. wp_steps.
      * destruct (frame_tidy _ _ Hf1 Ht), (tracks_frame _ _ _ _ Hf1 Hk). split_and!; [by split| |by split].
        right. exists p. split; [done|]. cbn. rewrite <- (frame_core _ _ Hf1).
        by match goal with Hc : core _ = _ |- _ => rewrite Hc end.
      * by apply performed_frame.
Qed.

(** *** What an action leads to *)

Lemma frame_total {A} (m : op A) (d : daemon) out (Q : A -> daemon -> list Effect -> Prop) :
  moves frame m d -> (forall a d' out', Q a d' out') -> wp m Q d out.
Proof. intros Hm HQ. eapply wp_mono; [apply Hm|]. cbn. auto. Qed.

(** Lease events come from an exchange under way, never from its start. *)
Lemma start_no_event xid (d : daemon) out :
  wp (drive_dhcp (DhcpClient.Start xid)) (fun e (_ : daemon) _ => e = None) d out.
Proof.
  unfold drive_dhcp. wp_step. wp_step. cbn beta. destruct (dhcp (ports d)) as [run|]; [|by wp_step].
  cbn. unfold call_logged, arm_key. wp_steps. apply (frame_total _ _ _ _ (call_frame _ _)). intros; cbn beta. by wp_steps.
Qed.

Definition leads (a : Action) (r : Cause + option Input) : Prop :=
  match r with
  | inr (Some i) => exists ifindex scan, a = FetchScanResults ifindex /\ i = ScanResults scan
  | _ => True
  end.

Lemma nothing_leads a (m : op (Cause + unit)) (d : daemon) out :
  wp m (fun _ _ _ => True) d out -> wp (nothing m) (fun r (_ : daemon) _ => leads a r) d out.
Proof.
  intros Hm. unfold nothing, try. apply wp_bind. eapply wp_mono; [exact Hm|]. cbn. intros [] ? ? _; unfold done_; by wp_step.
Qed.

Lemma wp_try {A B} (m : op (Cause + A)) (k : A -> op (Cause + B)) (Q : Cause + B -> daemon -> list Effect -> Prop) d out :
  wp m (fun r d' out' => match r with inl e => Q (inl e) d' out' | inr a => wp (k a) Q d' out' end) d out ->
  wp (try m k) Q d out.
Proof. intros Hm. unfold try. apply wp_bind. eapply wp_mono; [exact Hm|]. by intros []. Qed.

Lemma wp_try_frame {A B} (m : op (Cause + A)) (k : A -> op (Cause + B)) (Q : Cause + B -> daemon -> list Effect -> Prop) d out :
  moves frame m d -> (forall e d' out', Q (inl e) d' out') -> (forall a d' out', wp (k a) Q d' out') ->
  wp (try m k) Q d out.
Proof. intros Hm He Hk. apply wp_try, (frame_total _ _ _ _ Hm). intros []; auto. Qed.

Lemma start_dhcp_leads (d : daemon) out : wp start_dhcp (fun r (_ : daemon) _ => leads StartDhcp r) d out.
Proof.
  unfold start_dhcp. apply wp_try_frame; [solve_frame|done|]. intros ifindex d1 out1.
  wp_step. wp_step. cbn beta. destruct (mac <$> _); [|by unfold failing; wp_step].
  wp_step. apply (frame_total _ _ _ _ (stop_dhcp_frame _)). intros _ d2 out2. cbn beta. wp_step.
  eapply frame_total; [solve_frame|]. cbn beta. intros probe d3 out3.
  apply wp_try_frame; [solve_frame|done|]. intros _ d4 out4.
  apply wp_try_frame; [solve_frame|done|]. intros x d5 out5.
  wp_step. apply (frame_total _ _ _ _ (call_frame _ _)). intros r d6 out6. cbn beta zeta. wp_steps.
  eapply wp_mono; [apply start_no_event|]. cbn. intros e d7 out7 ->. done.
Qed.

Lemma save_profile_total p (d : daemon) out : wp (save_profile p) (fun _ _ _ => True) d out.
Proof.
  unfold save_profile. apply wp_try_frame; [apply store_profile_frame|done|]. intros _ d1 out1. unfold done_. by wp_steps.
Qed.

Lemma perform_leads a (d : daemon) out : wp (perform a) (fun r _ _ => leads a r) d out.
Proof.
  destruct a; cbn [perform]; try (apply nothing_leads; by eapply frame_total; [solve_frame|]).
  - apply wp_try_frame; [solve_frame|done|]. intros _ d1 out1.
    apply wp_try_frame; [solve_frame|done|]. intros scan d2 out2. unfold done_. wp_step. cbn. eauto.
  - apply start_dhcp_leads.
  - unfold arm_key, done_. by wp_steps.
  - unfold cancel_key, done_. by wp_steps.
  - apply nothing_leads, save_profile_total.
  - wp_step. apply (frame_total _ _ _ _ (notify_frame _ _)). intros; cbn beta. by unfold done_; wp_step.
  - wp_step. apply (frame_total _ _ _ _ (report_failure_frame _ _)). intros; cbn beta. by unfold done_; wp_step.
Qed.

(** ** The loop *)

(** The machine, when there is one, is where a history leads, and the table
    holds its deadlines. *)
Definition held (due : list TimerId) (d : daemon) : Prop :=
  match core (engine d) with
  | Some c => exists v, reaches any_order c v /\ tracks due (v_timers v) d
  | None => forall id, ~ runs d id
  end.
Definition good (due : list TimerId) (d : daemon) : Prop := tidy d /\ held due d.

Lemma poll_core_spec i (c : connection) v (d : daemon) out :
  reaches any_order c v -> input_ok i ->
  wp (poll_core c i) (fun acts d' _ => exists c' nonce, nonce_ok nonce /\ poll nonce i c = Some (c', acts)
    /\ d' = set_core (Some c') (set_world (world (ports d')) d)) d out.
Proof.
  intros Hr Hi. unfold poll_core, call. wp_step. wp_step. wp_step. cbn beta.
  destruct (answer NewNonce (world (ports d))) as [r w] eqn:Hans. wp_steps.
  set (nonce := match r with inl _ => Err (Eapol.ErrIo 0) | inr n => Ok n end).
  assert (Hn : nonce_ok nonce).
  { subst nonce. destruct r as [|n]; [done|]. by eapply answer_nonce. }
  destruct (poll_invariant False nonce i c v (reaches_any c v Hr) Hi Hn) as (c' & acts & Hp & _); [done|].
  apply wp_expect. exists (c', acts). split; [done|]. cbn beta iota. wp_steps. by exists c', nonce.
Qed.

Lemma reaches_turn (c : connection) v nonce i c' acts :
  reaches any_order c v -> input_ok i -> nonce_ok nonce -> poll nonce i c = Some (c', acts) ->
  reaches any_order c' (observe v i acts).
Proof. intros. by eapply reaches_poll. Qed.

(** Profiles are saved where the store may change. *)
Lemma saves_connected nonce i (c : connection) c' acts p :
  poll nonce i c = Some (c', acts) -> SaveProfile p ∈ acts -> state c' = Connected.
Proof.
  intros Hp Hin. destruct (is_acquired i) eqn:Ha; [by eapply poll_acquired|]. exfalso.
  assert (Hc : Forall calm acts \/ exists ifindex, acts = [FetchScanResults ifindex]).
  { destruct (is_scan_complete i) eqn:Hs; [|left; by eapply poll_calm].
    destruct (poll_scan_complete nonce i c c' acts Hs Hp) as [_ [->|?]]; [by left; constructor|by right]. }
  destruct Hc as [Hc|[ifindex ->]]; [|by apply list_elem_of_singleton in Hin].
  by apply (proj1 (Forall_forall _ _) Hc) in Hin.
Qed.

Lemma saves_reach a (d d' : daemon) (c : connection) v :
  core (engine d) = Some c -> reaches any_order c v -> (forall p, a = SaveProfile p -> v_state v = Connected) ->
  saves a d d' -> exists c', core (engine d') = Some c' /\ reaches any_order c' v.
Proof.
  intros Hc Hr Hs [Heq|(p & Ha & Heq)]; rewrite Hc in Heq; [by eauto|].
  exists (insert_profile p c). split; [done|]. apply reaches_saved; [done|].
  destruct (sees_machine c v Hr) as [<- _]. by eapply Hs.
Qed.

(** What an action leads to: never a frame, never a deadline. *)
Definition follow_up (i : Input) : Prop := match i with IEapol _ | ITimer _ => False | _ => True end.

Lemma follow_up_ok i : follow_up i -> input_ok i.
Proof. by destruct i. Qed.

Lemma perform_all_spec due v l V next (d : daemon) (c : connection) out :
  tidy d -> core (engine d) = Some c -> reaches any_order c v -> tracks due V d ->
  (forall p, SaveProfile p ∈ l -> v_state v = Connected) -> Forall follow_up next ->
  wp (perform_all l next) (fun r d' _ => tidy d'
    /\ (exists c', core (engine d') = Some c' /\ reaches any_order c' v)
    /\ match r with inr q => tracks due (ConnProps.timers V l) d' /\ Forall follow_up q | inl _ => True end) d out.
Proof.
  revert V next d c out. induction l as [|a l IH]; intros V next d c out Ht Hc Hr Hk Hs Hn; cbn [perform_all].
  - unfold done_. wp_step. split_and!; eauto.
  - apply wp_try. eapply wp_mono; [apply wp_and; [by apply perform_spec|apply perform_leads]|]. cbn beta.
    intros r d' out' [(Ht' & Hsv & Hr') Hl].
    destruct (saves_reach a d d' c v Hc Hr) as (c' & Hc' & Hrc'); [intros p ->; by eapply Hs; left|done|].
    destruct r as [e|o]; [by eauto|]. eapply IH; try done.
    + intros p Hp. by eapply Hs; right.
    + apply Forall_app; split; [done|]. destruct o as [i|]; cbn; [|constructor].
      destruct Hl as (? & scan & _ & ->). by repeat constructor.
Qed.

(** *** Ending an attempt *)

Lemma disconnect_idles nonce (c : connection) c' acts :
  poll nonce (ICommand CmdDisconnect) c = Some (c', acts) -> state c' = Idle.
Proof.
  unfold poll. cbn [on_input on_command].
  assert (Hw : wp (_ ← emit (ADisconnect REASON_LEAVING); go_idle) (fun _ c' _ => state c' = Idle) c []).
  { unfold go_idle. wp_steps. eapply wp_mono; [apply disarm_total|]. intros. by wp_steps. }
  unfold wp in Hw. destruct ((_ ← _; go_idle) c []) as [[[[] ?] ?]|]; [|done]. by intros [= <- <-].
Qed.

Lemma tracks_itself (d : daemon) : exists V, tracks [] V d.
Proof.
  exists (omap (fun k => match k with KCore id => Some id | _ => None end) (Timers.keys (timers (ports d)))).
  split; intros id; rewrite list_elem_of_omap.
  - intros Hr. by exists (KCore id).
  - intros ([?| | |] & Hk & Hid); try done. injection Hid as ->. by left.
Qed.

Lemma cancel_core_spec (d : daemon) out :
  tidy d -> wp cancel_core_timers (fun _ d' _ => tidy d' /\ (forall id, ~ runs d' id)
    /\ engine d' = engine d) d out.
Proof.
  intros [Hn Hd]. unfold cancel_core_timers. wp_steps. split_and!; [split| |done].
  - by apply Timers.NoDup_cancel_if.
  - intros Hdh t. unfold holds_key. cbn [ports set_timers on_ports timers].
    rewrite Timers.elem_keys_cancel_if. intros [_ Hin]. by apply (Hd Hdh t).
  - intros id. unfold holds_key. cbn [ports set_timers on_ports timers].
    rewrite Timers.elem_keys_cancel_if. by intros [? _].
Qed.

(** Everything an attempt had going is over. *)
Record quiescent (d : daemon) : Prop := {
  qu_idle : is_idle d = true;
  qu_timers id : ~ runs d id;
  qu_eapol : eapol (ports d) = false;
  qu_dhcp : dhcp (ports d) = None;
}.

Lemma good_no_timers (d : daemon) (c : connection) v :
  tidy d -> core (engine d) = Some c -> reaches any_order c v -> state c = Idle -> (forall id, ~ runs d id) -> good [] d.
Proof.
  intros Ht Hc Hr Hi Hn. split; [done|]. unfold held. rewrite Hc. exists v. split; [done|].
  destruct (sees_machine c v Hr) as (_ & _ & Hv). split; intros id Hid; [by apply Hn in Hid|].
  destruct (Hv id Hid) as [_ Ht']. by rewrite Hi in Ht'.
Qed.

Lemma stop_dhcp_stops (d : daemon) out :
  wp stop_dhcp (fun _ d' _ => dhcp (ports d') = None /\ eapol (ports d') = eapol (ports d)) d out.
Proof.
  unfold stop_dhcp. wp_step. wp_step. cbn beta. wp_step.
  apply (wp_mono _ (fun _ d' _ => eapol (ports d') = eapol (ports d))).
  - apply wp_when; intros _; [|done]. unfold drop_probe_route, call_logged, call. wp_steps; try done.
    by destruct (answer _ _); wp_steps.
  - intros _ d1 out1 He. cbn beta. wp_steps. cbn [for_each]. unfold cancel_key. by wp_steps.
Qed.

Lemma reset_spec (d : daemon) (c : connection) v out :
  tidy d -> core (engine d) = Some c -> reaches any_order c v ->
  wp reset (fun _ d' _ => good [] d' /\ quiescent d') d out.
Proof.
  intros Ht Hc Hr. unfold reset. wp_step. wp_step. cbn beta. rewrite Hc. cbn [with_some]. wp_step.
  eapply wp_mono; [by eapply poll_core_spec|]. cbn beta. intros acts d1 out1 (c1 & nonce & Hn & Hp & Hd1).
  pose proof (reaches_turn c v nonce (ICommand CmdDisconnect) c1 acts Hr I Hn Hp) as Hr1.
  set (v1 := observe v _ acts) in Hr1. pose proof (disconnect_idles _ _ _ _ Hp) as Hidle.
  wp_step. eapply wp_mono; [apply (wp_for_each _ _ (fun d' _ => tidy d' /\
    exists c', core (engine d') = Some c' /\ reaches any_order c' v1))|].
  - split; [|by exists c1; rewrite Hd1]. rewrite Hd1. by apply (tidy_same d).
  - cbn beta. intros a d' out' Ha [Ht' (c' & Hc' & Hr')]. wp_step. destruct (tracks_itself d') as [V Hk].
    eapply wp_mono; [by apply perform_spec|]. cbn beta. intros r d2 out2 (Ht2 & Hsv & _). wp_step. split; [done|].
    eapply saves_reach; [exact Hc'|exact Hr'| |exact Hsv]. intros p ->. exfalso.
    apply (saves_connected _ _ _ _ _ _ Hp) in Ha. congruence.
  - cbn beta. intros _ d2 out2 [Ht2 (c2 & Hc2 & Hr2)]. wp_step. eapply wp_mono; [by apply cancel_core_spec|].
    cbn beta. intros _ d3 out3 (Ht3 & Hn3 & He3). wp_step. wp_step. cbn beta.
    assert (Hst2 : state c2 = Idle).
    { destruct (sees_machine _ _ Hr1) as [Hv1 _], (sees_machine _ _ Hr2) as [Hv2 _]. congruence. }
    eapply wp_mono; [apply wp_and; [apply stop_dhcp_frame|apply stop_dhcp_stops]|]. cbn beta.
    intros _ d4 out4 [Hf [Hdh Hea]]. assert (Hc4 : core (engine d4) = Some c2).
    { rewrite (frame_core _ _ Hf). cbn. by rewrite He3. }
    assert (Hn4 : forall id, ~ runs d4 id) by (intros id; rewrite (frame_runs _ _ Hf); apply Hn3).
    split.
    + eapply good_no_timers; [|exact Hc4|exact Hr2|done|done]. apply (frame_tidy _ _ Hf).
      by apply (tidy_same d3).
    + split; [|done..]. unfold is_idle, state_of. rewrite Hc4. by apply bool_decide_eq_true.
Qed.

(** What is left of the invariant in the middle of a turn. *)
Definition alive (d : daemon) : Prop :=
  match core (engine d) with
  | Some c => exists v, reaches any_order c v
  | None => forall id, ~ runs d id
  end.

Lemma alive_frame d d' : frame d d' -> alive d -> alive d'.
Proof.
  intros [Hc _ Hr]. unfold alive. rewrite Hc. destruct (core (engine d)); [done|]. intros Hn id. by rewrite Hr.
Qed.

Lemma held_alive due d : held due d -> alive d.
Proof. unfold held, alive. destruct (core (engine d)); [|done]. by intros (v & ? & _); eauto. Qed.

Lemma held_weaken due due' d : (forall id, id ∈ due -> id ∈ due') -> held due d -> held due' d.
Proof.
  intros Hd. unfold held. destruct (core (engine d)); [|done]. intros (v & Hr & [H1' H2']). exists v.
  split; [done|]. split; [done|]. naive_solver.
Qed.

Lemma good_weaken due d : good [] d -> good due d.
Proof. intros [Ht Hh]. split; [done|]. eapply held_weaken; [|done]. by intros id ?%elem_of_nil. Qed.

Lemma tell_frame reason (d : daemon) :
  moves frame (_ ← with_some (watcher (engine d)) (fun client =>
                 _ ← modify (set_watcher None); _ ← send client (EvFailed reason); send client (RspError reason));
               modify (set_pending_secret None)) d.
Proof. solve_frame. Qed.

Lemma abort_spec reason (d : daemon) out :
  tidy d -> alive d ->
  wp (abort reason) (fun _ d' _ => good [] d'
    /\ is_idle d' = true /\ (forall id, ~ runs d' id) /\ (is_some (core (engine d)) = true -> quiescent d')) d out.
Proof.
  intros Ht Ha. unfold abort. wp_step. wp_step. cbn beta.
  pose proof (tell_frame reason d) as Hm.
  set (tell := with_some _ _) in *. wp_step. specialize (Hm out). unfold mbind at 1 in Hm.
  apply (wp_mono _ (fun _ d' _ => frame d (set_pending_secret None d'))).
  { revert Hm. unfold wp. cbn. unfold act_bind. by destruct (tell d out) as [[[[] ?] ?]|]. }
  intros _ d1 out1 Hf. cbn beta. wp_step. wp_step. cbn beta.
  set (d2 := set_pending_secret None d1) in *. clearbody d2.
  pose proof (frame_tidy _ _ Hf Ht) as Ht2. pose proof (alive_frame _ _ Hf Ha) as Ha2.
  rewrite <- (frame_core _ _ Hf). unfold alive in Ha2. destruct (core (engine d2)) as [c|] eqn:Hc.
  - destruct Ha2 as [v Hr]. eapply wp_mono; [by eapply reset_spec|]. cbn beta. intros _ d3 out3 [Hg Hq].
    split_and!; [done|apply Hq..|done].
  - unfold reset. wp_step. wp_step. cbn beta. rewrite Hc. cbn [with_some]. wp_step.
    split_and!; [|by unfold is_idle, state_of; rewrite Hc|done|done]. split; [done|]. unfold held. by rewrite Hc.
Qed.

(** *** Turns *)

(** A deadline is delivered once. *)
Definition undelivered (i : Input) (due : list TimerId) : list TimerId :=
  match i with ITimer id => filter (fun t => t <> id) due | _ => due end.

#[local] Instance runs_dec (d : daemon) id : Decision (runs d id).
Proof. unfold holds_key. apply _. Defined.

Lemma turn_spec due i (c : connection) (d : daemon) out :
  good due d -> core (engine d) = Some c -> input_ok i ->
  wp (poll_core c i) (fun acts d1 _ => exists V u c1, tidy d1 /\ core (engine d1) = Some c1
    /\ reaches any_order c1 u /\ v_timers u = ConnProps.timers V acts
    /\ tracks (undelivered i due) V d1 /\ (forall p, SaveProfile p ∈ acts -> v_state u = Connected)) d out.
Proof.
  intros [Ht Hh] Hc Hi. unfold held in Hh. rewrite Hc in Hh. destruct Hh as (v & Hr & [Hrun Hview]).
  eapply wp_mono; [by eapply poll_core_spec|]. cbn beta. intros acts d1 out1 (c1 & nonce & Hn & Hp & Hd1).
  assert (Hruns : forall id, runs d1 id <-> runs d id) by (intros id; rewrite Hd1; done).
  assert (Htd : tidy d1) by (rewrite Hd1; by apply (tidy_same d)).
  assert (Hc1 : core (engine d1) = Some c1) by (by rewrite Hd1).
  assert (Hu : exists V u, reaches any_order c1 u /\ v_timers u = ConnProps.timers V acts
    /\ tracks (undelivered i due) V d1).
  { pose proof (reaches_turn c v nonce i c1 acts Hr Hi Hn Hp) as Hturn.
    assert (Hplain : fired i (v_timers v) = v_timers v -> undelivered i due = due ->
      exists V u, reaches any_order c1 u /\ v_timers u = ConnProps.timers V acts /\ tracks (undelivered i due) V d1).
    { intros Hf ->. exists (v_timers v), (observe v i acts). split_and!; [done|cbn; by rewrite Hf|].
      split; intros id; rewrite Hruns; auto. }
    destruct i as [| | | | |id]; try (by apply Hplain). clear Hplain.
    destruct (decide (runs d id)) as [Hid|Hid].
    - exists (v_timers v), (observe_late v acts). split_and!; [by eapply reaches_late|done|].
      split; intros id'; rewrite Hruns; [auto|]. intros Hin. destruct (decide (id' = id)) as [->|]; [by left|].
      destruct (Hview id' Hin); [by left|right]. cbn. by apply list_elem_of_filter.
    - exists (filter (fun t => t <> id) (v_timers v)), (observe v (ITimer id) acts).
      split_and!; [exact Hturn|done|].
      split; intros id'; rewrite Hruns.
      + intros Hid'. apply list_elem_of_filter. split; [by intros ->|auto].
      + intros [Hne Hin]%list_elem_of_filter. destruct (Hview id' Hin); [by left|right]. by apply list_elem_of_filter. }
  destruct Hu as (V & u & Hru & Hvu & Htr). exists V, u, c1. split_and!; try done. intros p Hin.
  destruct (sees_machine c1 u Hru) as [-> _]. by eapply saves_connected.
Qed.

Lemma turn_end_spec n due V u acts (c1 : connection) queue (d1 : daemon) out :
  (forall queue d out, good due d -> Forall follow_up queue -> wp (feed_loop n queue) (fun _ d' _ => good due d') d out) ->
  tidy d1 -> core (engine d1) = Some c1 -> reaches any_order c1 u -> v_timers u = ConnProps.timers V acts ->
  tracks due V d1 -> (forall p, SaveProfile p ∈ acts -> v_state u = Connected) -> Forall follow_up queue ->
  wp (r ← perform_all acts queue; match r with inl e => abort e | inr q => feed_loop n q end)
     (fun _ d' _ => good due d') d1 out.
Proof.
  intros Hloop Ht Hc Hr Hv Hk Hs Hq. wp_step. eapply wp_mono; [by eapply perform_all_spec|]. cbn beta.
  intros r d2 out2 (Ht2 & (c2 & Hc2 & Hr2) & Hres). destruct r as [e|q].
  - eapply wp_mono; [apply abort_spec; [done|unfold alive; rewrite Hc2; eauto]|]. cbn beta.
    intros _ d3 out3 [Hg _]. by apply good_weaken.
  - destruct Hres as [Hk2 Hq2]. apply Hloop; [|done]. split; [done|]. unfold held. rewrite Hc2. exists u.
    by rewrite Hv.
Qed.

Lemma undelivered_follow_up i due : follow_up i -> undelivered i due = due.
Proof. by destruct i. Qed.

Lemma feed_loop_cons n i queue :
  feed_loop (S n) (i :: queue) =
  (d ← get_state;
   with_some (core (engine (d : daemon))) (fun c =>
     out ← poll_core c i;
     r ← perform_all out queue;
     match r with inl e => abort e | inr queue => feed_loop n queue end)).
Proof. done. Qed.

Lemma feed_loop_spec n due queue (d : daemon) out :
  good due d -> Forall follow_up queue -> wp (feed_loop n queue) (fun _ d' _ => good due d') d out.
Proof.
  revert queue d out. induction n as [|n IH]; intros queue d out Hg Hq; [exact Hg|].
  destruct queue as [|i queue]; [exact Hg|]. apply Forall_cons in Hq as [Hi Hq]. rewrite feed_loop_cons.
  wp_step. wp_step. cbn beta. apply wp_with_some; [|done]. intros c Hc. wp_step.
  eapply wp_mono; [apply turn_spec; [exact Hg|exact Hc|by apply follow_up_ok]|]. cbn beta.
  intros acts d1 out1 (V & u & c1 & Ht & Hc1 & Hr & Hv & Hk & Hs). rewrite undelivered_follow_up in Hk by done.
  by eapply turn_end_spec.
Qed.

Lemma feed_spec due i (d : daemon) out :
  good due d -> input_ok i -> wp (feed i) (fun _ d' _ => good (undelivered i due) d') d out.
Proof.
  intros Hg Hi. unfold feed. change MAX_TURNS with (S 31). rewrite feed_loop_cons. wp_step. wp_step. cbn beta.
  apply wp_with_some.
  - intros c Hc. wp_step. eapply wp_mono; [by apply turn_spec|]. cbn beta.
    intros acts d1 out1 (V & u & c1 & Ht & Hc1 & Hr & Hv & Hk & Hs).
    eapply turn_end_spec; try done. intros. by apply (feed_loop_spec 31).
  - intros Hc. destruct Hg as [Ht Hh]. split; [done|]. unfold held in *. by rewrite Hc in *.
Qed.

(** ** Requests and events *)

(** An operation that keeps the invariant, whatever else it does. *)
Definition keeps {A} (due : list TimerId) (m : op A) (d : daemon) : Prop :=
  good due d -> forall out, wp m (fun _ d' _ => good due d') d out.

Lemma good_frame due d d' : frame d d' -> good due d -> good due d'.
Proof.
  intros Hf [Ht Hh]. split; [by apply (frame_tidy _ _ Hf)|]. unfold held in *. rewrite (frame_core _ _ Hf).
  destruct (core (engine d)); [|by intros id; rewrite (frame_runs _ _ Hf)].
  destruct Hh as (v & Hr & Hk). exists v. split; [done|]. by eapply tracks_frame.
Qed.

Lemma keeps_ret {A} due (a : A) d : keeps due (mret a) d.
Proof. intros Hg out. by wp_step. Qed.
Lemma keeps_bind {A B} due (m : op A) (k : A -> op B) d :
  keeps due m d -> (forall a d', good due d' -> keeps due (k a) d') -> keeps due (m ≫= k) d.
Proof.
  intros Hm Hk Hg out. wp_step. eapply wp_mono; [by apply Hm|]. cbn beta. intros a d' out' Hg'. by apply Hk.
Qed.
Lemma keeps_get {B} due (k : daemon -> op B) d : keeps due (k d) d -> keeps due (get_state ≫= k) d.
Proof. intros Hk Hg out. wp_step. wp_step. by apply Hk. Qed.
Lemma keeps_frame {A} due (m : op A) d : moves frame m d -> keeps due m d.
Proof. intros Hm Hg out. eapply wp_mono; [apply Hm|]. cbn beta. intros _ d' _ Hf. by eapply good_frame. Qed.
Lemma keeps_try {A B} due (m : op (Cause + A)) (k : A -> op (Cause + B)) d :
  keeps due m d -> (forall a d', good due d' -> keeps due (k a) d') -> keeps due (try m k) d.
Proof.
  intros Hm Hk. unfold try. apply keeps_bind; [done|]. intros [e|a] d' Hg; [apply keeps_ret|by apply Hk].
Qed.
Lemma keeps_when due b (m : op unit) d : (b = true -> keeps due m d) -> keeps due (when b m) d.
Proof. intros Hm. destruct b; [by apply Hm|apply keeps_ret]. Qed.
Lemma keeps_with_some {A} due (o : option A) (k : A -> op unit) d :
  (forall a, o = Some a -> keeps due (k a) d) -> keeps due (with_some o k) d.
Proof. intros Hk. destruct o; [by apply Hk|apply keeps_ret]. Qed.

Lemma keeps_feed due i d : follow_up i -> keeps due (feed i) d.
Proof.
  intros Hi Hg out. rewrite <- (undelivered_follow_up i due) by done. apply feed_spec; [done|by apply follow_up_ok].
Qed.
Lemma keeps_abort due reason d : keeps due (abort reason) d.
Proof.
  intros [Ht Hh] out. eapply wp_mono; [apply abort_spec; [done|by eapply held_alive]|]. cbn beta.
  intros _ d' _ [Hg _]. by apply good_weaken.
Qed.

Ltac keeps_step :=
  lazymatch goal with
  | |- keeps _ (mret _) _ => apply keeps_ret
  | |- keeps _ (done_ _) _ => apply keeps_ret
  | |- keeps _ (failing _) _ => apply keeps_ret
  | |- keeps _ (get_state ≫= _) _ => apply keeps_get
  | |- keeps _ (try _ _) _ => apply keeps_try; [|intros ? ? ?]
  | |- keeps _ (_ ≫= _) _ => apply keeps_bind; [|intros ? ? ?]
  | |- keeps _ (when _ _) _ => apply keeps_when; intros ?
  | |- keeps _ (with_some _ _) _ => apply keeps_with_some; intros ? ?
  | |- keeps _ (feed _) _ => by apply keeps_feed
  | |- keeps _ (abort _) _ => apply keeps_abort
  | |- keeps _ (match ?x with _ => _ end) _ => destruct x eqn:?
  | |- keeps _ _ _ => apply keeps_frame; solve_frame; done
  end; cbv beta zeta.

Lemma describe_frame ifindex d : moves frame (describe ifindex) d.
Proof. unfold describe. solve_frame. Qed.
#[local] Hint Resolve describe_frame : caw.

(** A machine built afresh starts with no deadline. *)
Lemma rebuild_spec due ifindex dev (d : daemon) out :
  good due d ->
  wp (_ ← when (negb (is_idle d)) (abort (CPort "the address or capabilities changed" ifindex));
      _ ← cancel_core_timers;
      r ← call StoreRead;
      d ← get_state;
      let profiles := match r with inr _ => Profile.load_all (store (ports (d : daemon))) | inl _ => [] end in
      _ ← modify (set_core (Some (Connection_new dev profiles)));
      _ ← modify (set_device (Some dev));
      _ ← modify (set_eapol false);
      stop_dhcp) (fun _ d' _ => good due d') d out.
Proof.
  intros Hg. wp_step. apply (wp_mono _ (fun _ d' _ => good due d')).
  { apply (keeps_when _ _ _ _ (fun _ => keeps_abort _ _ _) Hg). }
  intros _ d1 out1 [Ht1 _]. cbn beta. wp_step. eapply wp_mono; [by apply cancel_core_spec|]. cbn beta.
  intros _ d2 out2 (Ht2 & Hn2 & _). wp_step. eapply wp_mono; [apply call_only_world|]. cbn beta.
  intros r d3 out3 Hw. wp_step. wp_step. cbn beta zeta. wp_steps.
  set (c := Connection_new _ _). eapply wp_mono; [apply stop_dhcp_frame|]. cbn beta. intros _ d4 _ Hf.
  eapply good_frame; [exact Hf|]. split.
  - apply (tidy_same d2); [by rewrite Hw..|done].
  - unfold held. cbn. eexists. split; [apply reaches_new|]. split; cbn [v_timers]; intros id Hid.
    + exfalso. apply (Hn2 id). revert Hid. by rewrite Hw.
    + by apply elem_of_nil in Hid.
Qed.

Lemma prepare_keeps due ifindex d : keeps due (prepare ifindex) d.
Proof.
  unfold prepare. keeps_step; [keeps_step|]. keeps_step. keeps_step.
  - keeps_step. intros Hg out. by apply rebuild_spec.
  - keeps_step. keeps_step; [keeps_step|]. apply keeps_frame. solve_frame.
Qed.

Lemma take_over_frame client what d : moves frame (take_over client what) d.
Proof. unfold take_over. solve_frame. Qed.
#[local] Hint Resolve take_over_frame : caw.

Lemma connect_keeps due ifindex ssid client d : keeps due (connect ifindex ssid client) d.
Proof. unfold connect. repeat first [apply prepare_keeps | keeps_step]. Qed.
Lemma autoconnect_keeps due ifindex d : keeps due (autoconnect ifindex) d.
Proof. unfold autoconnect. repeat first [apply prepare_keeps | keeps_step]. Qed.
Lemma disconnect_keeps due ssid client d : keeps due (disconnect ssid client) d.
Proof. unfold disconnect. repeat keeps_step. Qed.
Lemma forget_keeps due ssid client d : keeps due (forget ssid client) d.
Proof. unfold forget. repeat first [apply disconnect_keeps | keeps_step]. Qed.
Lemma secret_keeps due token value client d : keeps due (secret token value client) d.
Proof. unfold secret. repeat keeps_step. Qed.
Lemma on_wireless_keeps due e d : keeps due (Engine.on_wireless e) d.
Proof. unfold Engine.on_wireless. repeat keeps_step. Qed.
Lemma on_eapol_keeps due frame d : is_bytes frame -> keeps due (Engine.on_eapol frame) d.
Proof. intros Hf Hg out. apply (feed_spec due (IEapol frame)); done. Qed.
Lemma on_timer_due due id (d : daemon) out :
  good due d -> wp (Engine.on_timer id) (fun _ d' _ => good (filter (fun t => t <> id) due) d') d out.
Proof. intros Hg. by apply (feed_spec due (ITimer id)). Qed.
Lemma on_dhcp_datagram_keeps due b d : keeps due (on_dhcp_datagram b) d.
Proof. unfold on_dhcp_datagram. repeat keeps_step. Qed.
Lemma on_dhcp_timer_keeps due t d : keeps due (on_dhcp_timer t) d.
Proof. unfold on_dhcp_timer. repeat keeps_step. Qed.
Lemma forget_client_frame client d : moves frame (forget_client client) d.
Proof. unfold forget_client. solve_frame. Qed.
Lemma resume_keeps due d : keeps due resume d.
Proof. unfold resume. repeat keeps_step. Qed.
Lemma shut_down_keeps due d : keeps due shut_down d.
Proof. unfold shut_down. repeat keeps_step. Qed.

Lemma on_link_keeps due e d : keeps due (on_link e) d.
Proof.
  unfold on_link. keeps_step. keeps_step. destruct e as [changed [] []|gone|]; [repeat keeps_step..|keeps_step|keeps_step].
  intros Hg out. wp_step. eapply wp_mono; [apply abort_spec; [apply Hg|eapply held_alive, Hg]|]. cbn beta.
  intros _ d' out' ([Ht _] & _ & Hn & _). wp_steps. split; [by apply (tidy_same d')|]. unfold held. cbn. exact Hn.
Qed.

(** ** The loop settles *)

Lemma bind_ext {A B} (m : op A) (k k' : A -> op B) (d : daemon) out (Q : A -> Prop) :
  match m d out with Some (a, _, _) => Q a | None => True end ->
  (forall a d' out', Q a -> k a d' out' = k' a d' out') -> (m ≫= k) d out = (m ≫= k') d out.
Proof.
  intros Hm Hk. unfold mbind, act_bind. destruct (m d out) as [[[a d'] out']|]; [by apply Hk|done].
Qed.

Lemma perform_all_leads l next (d : daemon) out :
  wp (perform_all l next) (fun r _ _ => match r with
    | inr q => exists scans, q = next ++ (ScanResults <$> scans) /\ (length scans <= fetches l)%nat
    | inl _ => True
    end) d out.
Proof.
  revert next d out. induction l as [|a l IH]; intros next d out; cbn [perform_all].
  - unfold done_. wp_step. exists []. by rewrite app_nil_r.
  - apply wp_try. eapply wp_mono; [apply perform_leads|]. cbn beta. intros [e|o] d' out' Hl; [done|].
    eapply wp_mono; [apply IH|]. cbn beta. intros [e|q] d2 out2; [done|]. intros (scans & -> & Hlen).
    destruct o as [i|]; cbn [option_list]; [|exists scans; rewrite app_nil_r; split; [done|]].
    + destruct Hl as (ifindex & scan & -> & ->). exists (scan :: scans). rewrite <- app_assoc. split; [done|].
      unfold fetches in *. rewrite filter_cons_True by done. cbn. lia.
    + etrans; [exact Hlen|]. unfold fetches. rewrite filter_cons. case_decide; cbn; lia.
Qed.

(** The rest of the loop after one turn. *)
Lemma turn_next i (c : connection) queue (d : daemon) out :
  match (acts ← poll_core c i; perform_all acts queue) d out with
  | Some (inr q, _, _) => exists scans, q = queue ++ (ScanResults <$> scans)
                          /\ (length scans <= if is_scan_complete i then 1 else 0)%nat
  | _ => True
  end.
Proof.
  unfold poll_core, mbind, act_bind. destruct (call NewNonce d out) as [[[r d1] out1]|]; [|done].
  unfold expect_act. destruct (poll _ i c) as [[c' acts]|] eqn:Hp; cbn; [|done].
  pose proof (perform_all_leads acts queue (set_core (Some c') d1) out1) as Hw. unfold wp in Hw.
  destruct (perform_all acts queue _ _) as [[[[e|q] d2] out2]|]; [done| |done].
  destruct Hw as (scans & -> & Hlen). exists scans. split; [done|]. etrans; [exact Hlen|]. by eapply poll_fetches.
Qed.

Lemma feed_loop_nil n (d : daemon) out : feed_loop n [] d out = Some (tt, d, out).
Proof. by destruct n. Qed.

Lemma run_get {B} (k : daemon -> op B) (d : daemon) out : (get_state ≫= k) d out = k d d out.
Proof. done. Qed.

(** With nothing but fetched results to feed, one turn each is enough. *)
Lemma feed_loop_turn n i queue (d : daemon) out (n' : nat) :
  (forall scans d' out', (length scans <= if is_scan_complete i then 1 else 0)%nat ->
     feed_loop n (queue ++ (ScanResults <$> scans)) d' out' = feed_loop n' (queue ++ (ScanResults <$> scans)) d' out') ->
  feed_loop (S n) (i :: queue) d out = feed_loop (S n') (i :: queue) d out.
Proof.
  intros Hloop. rewrite !feed_loop_cons, !run_get.
  destruct (core (engine d)) as [c|]; cbn [with_some]; [|done].
  pose proof (turn_next i c queue d out) as Ht. unfold mbind, act_bind in *.
  destruct (poll_core c i d out) as [[[acts d1] out1]|]; [|done].
  destruct (perform_all acts queue d1 out1) as [[[[e|q] d2] out2]|]; [done| |done].
  destruct Ht as (scans & -> & Hlen). by apply Hloop.
Qed.

(** A machine told to disconnect ends idle, whatever the kernel says of it. *)
Lemma disconnect_feed_idle due (d : daemon) out :
  good due d -> wp (feed (ICommand CmdDisconnect)) (fun _ d' _ => good due d' /\ is_idle d' = true) d out.
Proof.
  intros Hg. apply wp_and; [by apply (feed_spec due (ICommand CmdDisconnect))|].
  unfold feed. change MAX_TURNS with (S 31). rewrite feed_loop_cons. wp_step. wp_step. cbn beta.
  destruct (core (engine d)) as [c|] eqn:Hc; cbn [with_some];
    [|wp_step; unfold is_idle, state_of; by rewrite Hc].
  destruct Hg as [Ht Hh]. unfold held in Hh. rewrite Hc in Hh. destruct Hh as (v & Hr & Hk).
  wp_step. eapply wp_mono; [by eapply poll_core_spec|]. cbn beta. intros acts d1 out1 (c1 & nonce & Hn & Hp & Hd1).
  pose proof (disconnect_idles _ _ _ _ Hp) as Hidle.
  pose proof (reaches_turn c v nonce (ICommand CmdDisconnect) c1 acts Hr I Hn Hp) as Hr1.
  set (v1 := observe v _ acts) in Hr1. destruct (tracks_itself d1) as [V Hk1].
  pose proof (poll_fetches nonce (ICommand CmdDisconnect) c c1 acts Hp) as Hf. cbn in Hf.
  wp_step. eapply wp_mono; [apply wp_and; [|apply perform_all_leads]|].
  { apply (perform_all_spec [] v1 acts V [] d1 c1 out1).
    - rewrite Hd1. by apply (tidy_same d).
    - by rewrite Hd1.
    - exact Hr1.
    - exact Hk1.
    - intros p Hin. pose proof (saves_connected _ _ _ _ _ _ Hp Hin). congruence.
    - constructor. }
  cbn beta. intros r d2 out2 [(Ht2 & (c2 & Hc2 & Hr2) & _) Hl]. destruct r as [e|q].
  - eapply wp_mono; [apply abort_spec; [done|unfold alive; rewrite Hc2; eauto]|]. cbn beta. by intros _ d3 _ (_ & ? & _).
  - destruct Hl as (scans & -> & Hlen). destruct scans; [|cbn in Hlen; lia]. cbn [fmap list_fmap app].
    change (is_idle d2 = true). unfold is_idle, state_of. rewrite Hc2. cbn.
    apply bool_decide_eq_true. destruct (sees_machine _ _ Hr1) as [H1' _], (sees_machine _ _ Hr2) as [H2' _]. congruence.
Qed.

Lemma shut_down_idles due (d : daemon) out :
  good due d -> wp shut_down (fun _ d' _ => good due d' /\ is_idle d' = true) d out.
Proof.
  intros Hg. unfold shut_down. wp_step. wp_step. cbn beta. apply wp_when.
  - intros _. by apply disconnect_feed_idle.
  - intros Hb. split; [done|]. apply andb_false_iff in Hb as [Hb|Hb]; [|by destruct (is_idle d)].
    unfold is_idle, state_of. by destruct (core (engine d)).
Qed.

(** The loop settles: feeding an input takes at most two turns -- the input
    and the scan results it may ask for -- so the budget of [MAX_TURNS] is never
    what ends it, and any budget of two or more gives the same run. *)
Theorem feed_settles n i (d : daemon) out :
  Engine.feed_loop (2 + n) [i] d out = Engine.feed i d out.
Proof.
  assert (Hs : forall m, feed_loop (2 + m) [i] d out = feed_loop 2 [i] d out).
  { intros m. apply feed_loop_turn. intros scans d' out' Hlen.
    destruct scans as [|scan [|]]; cbn [fmap list_fmap app].
    - by rewrite !feed_loop_nil.
    - apply feed_loop_turn. intros [|] d2 out2 Hl; cbn in Hl; [|lia]. by rewrite !feed_loop_nil.
    - destruct (is_scan_complete i); cbn in Hlen; lia. }
  rewrite Hs. symmetry. apply (Hs 30%nat).
Qed.
End daemon.
