(* ===== verification/EngineClients.v ===== *)
(** * The engine's clients

    Who is answered, and by whom a secret may be given.  A client waits while
    it is the engine's watcher; the ledger below counts what it is still owed
    and what it was sent, over every path of the engine, errors included.
    Also: the loop that feeds the machine settles, and a secret is taken from
    nobody but the client that was asked. *)
From S2P Require Import Prelude Effects.
From S2P Require Text Crypto Nl80211 Eapol FourWay Profile DhcpClient Timers.
From S2P Require Import Conn ConnAsks.
From S2P Require Import Engine.

Section clients.
Context `{Crypto.CryptoPrims} {SaeP DotP : Type} `{Crypto.PmkProvider SaeP} `{Crypto.PmkProvider DotP}
  {build : Build SaeP DotP} `{Profile.Json} {W : Type} `{Kernel W}.

Abbreviation daemon := (Daemon SaeP DotP W).
Abbreviation op := (act daemon Effect).

(** The deadlines of scans, which the engine leaves to the reactor. *)
Definition scan_keys (d : daemon) (c : ClientId) : Prop := KScan c ∈ Timers.keys (timers (ports d)).

(** ** What no path of the engine breaks

    A preorder on states and logs that the few steps below respect is respected
    by every operation: those steps are all that touches a client. *)
Class Leaves (R : daemon * list Effect -> daemon * list Effect -> Prop) := {
  leaves_preorder :: PreOrder R;
  leaf_state (d d' : daemon) out :
    watcher (engine d') = watcher (engine d) -> pending_secret (engine d') = pending_secret (engine d) ->
    next_token (engine d') = next_token (engine d) -> (forall c, scan_keys d' c <-> scan_keys d c) ->
    R (d, out) (d', out);
  leaf_unprompt (d : daemon) out : R (d, out) (set_pending_secret None d, out);
  leaf_call A (s : sys A) (d : daemon) out : R (d, out) (d, out ++ [Call s]);
  leaf_tell reason (d : daemon) out :
    drifts_at R (with_some (watcher (engine d)) (fun client =>
      _ ← modify (set_watcher None); _ ← send client (EvFailed reason); send client (RspError reason))) d out;
  leaf_notify s : drifts R (notify s);
  leaf_prompt prompt : drifts R (request_secret prompt);
}.

Section drifting.
Context (R : daemon * list Effect -> daemon * list Effect -> Prop) `{!Leaves R}.

Abbreviation settled m := (drifts R m).

Lemma drifts_at_bind {A B} (m : op A) (k : A -> op B) d out :
  drifts_at R m d out -> (forall a, settled (k a)) -> drifts_at R (m ≫= k) d out.
Proof.
  intros Hm Hk. unfold drifts_at, mbind, act_bind in *. destruct (m d out) as [[[a d'] out']|]; [|done].
  specialize (Hk a d' out'). unfold drifts_at in Hk. destruct (k a d' out') as [[[b d2] out2]|]; [|done].
  by etrans.
Qed.
Lemma drifts_at_get {B} (k : daemon -> op B) d out :
  drifts_at R (k d) d out -> drifts_at R (get_state ≫= k) d out.
Proof. done. Qed.

Lemma try_drifts {A B} (m : op (Cause + A)) (k : A -> op (Cause + B)) :
  settled m -> (forall a, settled (k a)) -> settled (try m k).
Proof. intros Hm Hk. unfold try. drifts_step; [done|]. destruct a; [apply drifts_ret, _|apply Hk]. Qed.

Ltac drift_leaf :=
  first [ by apply leaf_state | by apply leaf_unprompt | by apply leaf_call ].
Ltac solve_drifts := repeat first
  [ drifts_step
  | lazymatch goal with
    | |- drifts _ (try _ _) => apply try_drifts; [|intros ?]
    | |- R _ _ => drift_leaf
    end
  | solve [eauto with caw] ].
Lemma call_drifts {A} (s : sys A) : settled (call s).
Proof. unfold call. drifts_step. destruct (answer _ _). solve_drifts. Qed.
#[local] Hint Resolve call_drifts : caw.
Lemma call_or_drifts {A} what (s : sys A) : settled (call_or what s).
Proof. unfold call_or. solve_drifts. Qed.
Lemma call_logged_drifts {A} (s : sys A) : settled (call_logged s).
Proof. unfold call_logged. solve_drifts. Qed.
#[local] Hint Resolve call_or_drifts call_logged_drifts : caw.
#[local] Hint Resolve try_drifts : caw.
Lemma done_drifts {A} (a : A) : settled (done_ a).
Proof. apply drifts_ret, _. Qed.
Lemma failing_drifts {A} e : settled (failing (A := A) e).
Proof. apply drifts_ret, _. Qed.
#[local] Hint Resolve done_drifts failing_drifts : caw.
Lemma need_nl_drifts : settled need_nl.
Proof. unfold need_nl. solve_drifts. Qed.
Lemma need_rtnl_drifts what : settled (need_rtnl what).
Proof. unfold need_rtnl. solve_drifts. Qed.
Lemma need_ifindex_drifts what : settled (need_ifindex what).
Proof. unfold need_ifindex. solve_drifts. Qed.
Lemma drop_probe_route_drifts : settled drop_probe_route.
Proof. unfold drop_probe_route. solve_drifts. Qed.
#[local] Hint Resolve need_nl_drifts need_rtnl_drifts need_ifindex_drifts drop_probe_route_drifts : caw.

(** The deadlines of the engine are not those of scans. *)
Definition engine_key (k : Key) : Prop := match k with KCore _ | KDhcp _ => True | _ => False end.
Lemma arm_key_drifts k delay : engine_key k -> settled (arm_key k delay).
Proof.
  intros Hk. unfold arm_key. apply (drifts_update R (fun d => _)). intros d out. apply leaf_state; [done..|].
  intros c. unfold scan_keys, Timers.arm. cbn [ports set_timers on_ports timers]. rewrite Timers.elem_keys_arm. split; [|by right].
  intros [<-|]; done.
Qed.
Lemma cancel_key_drifts k : engine_key k -> settled (cancel_key k).
Proof.
  intros Hk. unfold cancel_key. apply (drifts_update R (fun d => _)). intros d out. apply leaf_state; [done..|].
  intros c. unfold scan_keys. cbn [ports set_timers on_ports timers]. rewrite Timers.elem_keys_cancel. split; [by intros []|].
  intros Hin. split; [|done]. by intros <-.
Qed.
Lemma cancel_core_timers_drifts : settled cancel_core_timers.
Proof.
  unfold cancel_core_timers. apply (drifts_update R (fun d => _)). intros d out. apply leaf_state; [done..|].
  intros c. unfold scan_keys. cbn [ports set_timers on_ports timers]. rewrite Timers.elem_keys_cancel_if. split; [by intros []|]. done.
Qed.
#[local] Hint Extern 1 (drifts _ (arm_key _ _)) => apply arm_key_drifts; exact I : caw.
#[local] Hint Extern 1 (drifts _ (cancel_key _)) => apply cancel_key_drifts; exact I : caw.
Lemma stop_dhcp_drifts : settled stop_dhcp.
Proof. unfold stop_dhcp. solve_drifts. Qed.
Lemma perform_dhcp_all_drifts l e : settled (perform_dhcp_all l e).
Proof.
  revert e. induction l as [|a l IH]; intros e; cbn [perform_dhcp_all]; [apply drifts_ret, _|].
  drifts_step; [|apply IH]. destruct a; cbn [perform_dhcp]; solve_drifts.
Qed.
#[local] Hint Resolve stop_dhcp_drifts cancel_core_timers_drifts perform_dhcp_all_drifts : caw.
Lemma drive_dhcp_drifts i : settled (drive_dhcp i).
Proof. unfold drive_dhcp. solve_drifts. Qed.
#[local] Hint Resolve drive_dhcp_drifts : caw.
Lemma apply_lease_drifts l : settled (apply_lease l).
Proof. unfold apply_lease, check_resolver_link. solve_drifts. Qed.
Lemma install_keys_drifts k : settled (install_keys k).
Proof. unfold install_keys. solve_drifts. Qed.
Lemma start_dhcp_drifts : settled start_dhcp.
Proof. unfold start_dhcp. solve_drifts. Qed.
Lemma run_store_drifts steps : settled (run_store steps).
Proof. induction steps as [|s steps IH]; cbn [run_store]; solve_drifts. Qed.
#[local] Hint Resolve apply_lease_drifts install_keys_drifts start_dhcp_drifts run_store_drifts : caw.
Lemma store_profile_drifts p : settled (store_profile p).
Proof.
  unfold store_profile. pose proof (Profile.save_no_panic p) as Hn.
  destruct (Profile.save p) as [steps|[]|]; [..|done]; solve_drifts.
Qed.
#[local] Hint Resolve store_profile_drifts : caw.
Lemma save_profile_drifts p : settled (Engine.save_profile p).
Proof. unfold Engine.save_profile. solve_drifts. Qed.
Lemma request_secret_drifts prompt : settled (request_secret prompt).
Proof. apply leaf_prompt. Qed.
#[local] Hint Resolve save_profile_drifts request_secret_drifts : caw.

Lemma report_failure_drifts f : settled (report_failure f).
Proof.
  intros d out. unfold report_failure. apply drifts_at_get, drifts_at_bind; [apply leaf_tell|].
  intros _. solve_drifts.
Qed.

Lemma notify_drifts s : settled (notify s).
Proof. apply leaf_notify. Qed.
#[local] Hint Resolve report_failure_drifts notify_drifts : caw.

Lemma nothing_drifts (m : op (Cause + unit)) : settled m -> settled (nothing m).
Proof. intros Hm. unfold nothing. by solve_drifts. Qed.

Lemma perform_drifts a : settled (perform a).
Proof. destruct a; cbn [perform]; try apply nothing_drifts; solve_drifts. Qed.
#[local] Hint Resolve perform_drifts : caw.

Lemma poll_core_drifts c i : settled (poll_core c i).
Proof. unfold poll_core. solve_drifts. Qed.
#[local] Hint Resolve poll_core_drifts : caw.

Lemma reset_drifts : settled reset.
Proof. unfold reset. solve_drifts. Qed.
#[local] Hint Resolve reset_drifts : caw.
Lemma abort_drifts reason : settled (abort reason).
Proof.
  intros d out. unfold abort. apply drifts_at_get, drifts_at_bind; [apply leaf_tell|]. intros _. solve_drifts.
Qed.
#[local] Hint Resolve abort_drifts : caw.

Lemma perform_all_drifts l next : settled (perform_all l next).
Proof. revert next. induction l as [|a l IH]; intros next; cbn [perform_all]; solve_drifts. Qed.
#[local] Hint Resolve perform_all_drifts : caw.
Lemma feed_loop_drifts n queue : settled (feed_loop n queue).
Proof.
  revert queue. induction n as [|n IH]; intros [|i queue]; cbn [feed_loop]; try apply drifts_ret, _. solve_drifts.
Qed.
Lemma feed_drifts i : settled (feed i).
Proof. apply feed_loop_drifts. Qed.
#[local] Hint Resolve feed_drifts : caw.

Lemma describe_drifts ifindex : settled (describe ifindex).
Proof. unfold describe. solve_drifts. Qed.
#[local] Hint Resolve describe_drifts : caw.
Lemma prepare_drifts ifindex : settled (prepare ifindex).
Proof. unfold prepare. solve_drifts. Qed.
Lemma on_wireless_drifts e : settled (Engine.on_wireless e).
Proof. unfold Engine.on_wireless. solve_drifts. Qed.
Lemma on_eapol_drifts frame : settled (Engine.on_eapol frame).
Proof. unfold Engine.on_eapol. solve_drifts. Qed.
Lemma on_timer_drifts id : settled (Engine.on_timer id).
Proof. unfold Engine.on_timer. solve_drifts. Qed.
Lemma on_dhcp_datagram_drifts b : settled (on_dhcp_datagram b).
Proof. unfold on_dhcp_datagram. solve_drifts. Qed.
Lemma on_dhcp_timer_drifts t : settled (on_dhcp_timer t).
Proof. unfold on_dhcp_timer. solve_drifts. Qed.
Lemma on_link_drifts e : settled (on_link e).
Proof. unfold on_link. solve_drifts. Qed.
Lemma resume_drifts : settled resume.
Proof. unfold resume. solve_drifts. Qed.
Lemma shut_down_drifts : settled shut_down.
Proof. unfold shut_down. solve_drifts. Qed.
Lemma secret_drifts token value client : settled (secret token value client).
Proof. unfold secret. solve_drifts. Qed.
#[local] Hint Resolve prepare_drifts : caw.
Lemma autoconnect_drifts ifindex : settled (autoconnect ifindex).
Proof. unfold autoconnect. solve_drifts. Qed.
End drifting.

(** ** The ledger *)

Definition is_final (r : Reply) : bool := 
  match r with RspOk | RspPorts _ | RspNetworks _ | RspStatus _ | RspError _ => true | _ => false end.
Definition answers_to (client : ClientId) (e : Effect) : bool :=
  match e with Send c r => (c =? client) && is_final r | _ => false end.
(** The final responses sent to a client. *)
Definition answers (client : ClientId) (out : list Effect) : Z :=
  Z.of_nat (length (filter (fun e => answers_to client e = true) out)).
Definition waits (client : ClientId) (d : daemon) : Z :=
  if bool_decide (watcher (engine d) = Some client) then 1 else 0.
Definition ledger (client : ClientId) (d : daemon) (out : list Effect) : Z := waits client d + answers client out.

Definition balanced (x y : daemon * list Effect) : Prop :=
  forall client, ledger client (fst y) (snd y) = ledger client (fst x) (snd x).
#[export] Instance balanced_preorder : PreOrder balanced.
Proof. split; [done|]. intros x y z H1' H2' c. by rewrite H2'. Qed.

Lemma answers_snoc client out e :
  answers client (out ++ [e]) = answers client out + (if answers_to client e then 1 else 0).
Proof.
  unfold answers. rewrite filter_app, length_app. destruct (answers_to client e) eqn:He.
  - rewrite filter_cons_True by done. cbn. lia.
  - rewrite filter_cons_False by congruence. cbn. lia.
Qed.

(** Nothing to do with any client. *)
Lemma balanced_state (d d' : daemon) out : watcher (engine d') = watcher (engine d) -> balanced (d, out) (d', out).
Proof. intros Hw c. unfold ledger, waits. cbn. by rewrite Hw. Qed.
Lemma balanced_emit (d : daemon) out e :
  (forall client, answers_to client e = false) -> balanced (d, out) (d, out ++ [e]).
Proof. intros He c. unfold ledger. cbn [fst snd]. rewrite answers_snoc, He. lia. Qed.

(** A client stops waiting as it is answered. *)
Lemma balanced_answer (d d' : daemon) out l r client :
  watcher (engine d) = Some client -> watcher (engine d') = None -> is_final r = true ->
  (forall x, answers x l = 0) -> balanced (d, out) (d', (out ++ l) ++ [Send client r]).
Proof.
  intros Hw Hw' Hr Hl x. unfold ledger, waits. cbn [fst snd]. rewrite Hw, Hw', answers_snoc. cbn [answers_to].
  unfold answers in *. rewrite filter_app, length_app. specialize (Hl x).
  rewrite bool_decide_false by done. destruct (client =? x) eqn:He; bool_prop.
  - subst x. rewrite bool_decide_true, Hr by done. cbn. lia.
  - rewrite bool_decide_false by congruence. cbn. lia.
Qed.

Lemma tell_balanced reason (d : daemon) out :
  drifts_at balanced (with_some (watcher (engine d)) (fun client =>
    _ ← modify (set_watcher None); _ ← send client (EvFailed reason); send client (RspError reason))) d out.
Proof.
  destruct (watcher (engine d)) as [client|] eqn:Hw; cbn [with_some]; [|apply drifts_ret, _].
  unfold drifts_at, send. cbn. apply balanced_answer; try done. intros x. unfold answers.
  cbn. rewrite andb_false_r. done.
Qed.

Lemma notify_balanced s : drifts balanced (notify s).
Proof.
  intros d out. unfold notify. apply drifts_at_get. destruct (watcher (engine d)) as [client|] eqn:Hw;
    cbn [with_some]; [|apply drifts_ret, _].
  unfold drifts_at, send. destruct s; cbn; try (apply balanced_emit; intros x; cbn; by rewrite andb_false_r);
    try done.
  - pose proof (balanced_answer d (set_watcher None d) out [] RspOk client) as Hb. rewrite app_nil_r in Hb. by apply Hb.
  - apply balanced_answer; try done. intros x. unfold answers. cbn. by rewrite andb_false_r.
Qed.

Lemma prompt_balanced prompt : drifts balanced (request_secret prompt).
Proof.
  unfold request_secret, send, failing, done_. repeat drifts_step; try (by apply balanced_state).
  apply balanced_emit. intros x. cbn. by rewrite andb_false_r.
Qed.

#[export] Instance balanced_leaves : Leaves balanced.
Proof.
  split; [exact _|..].
  - intros d d' out Hw _ _ _. by apply balanced_state.
  - intros d out. by apply balanced_state.
  - intros A s d out. by apply balanced_emit.
  - apply tell_balanced.
  - apply notify_balanced.
  - apply prompt_balanced.
Qed.

(** ** Prompts *)

(** Tokens are handed out in order, and a prompt outstanding was sent to the
    client it names, with its token. *)
Definition prompted (x y : daemon * list Effect) : Prop :=
  exists new, snd y = snd x ++ new
  /\ next_token (engine (fst x)) <= next_token (engine (fst y))
  /\ forall p, pending_secret (engine (fst y)) = Some p ->
     pending_secret (engine (fst x)) = Some p
     \/ (next_token (engine (fst x)) <= ps_token p < next_token (engine (fst y))
         /\ exists prompt, Send (ps_client p) (EvNeedSecret (ps_token p) prompt) ∈ new).
#[export] Instance prompted_preorder : PreOrder prompted.
Proof.
  split.
  - intros x. exists []. rewrite app_nil_r. split_and!; [done|lia|auto].
  - intros x y z (n1 & He1 & Hn1 & Hp1) (n2 & He2 & Hn2 & Hp2). exists (n1 ++ n2).
    split_and!; [by rewrite He2, He1, app_assoc|lia|]. intros p Hp.
    destruct (Hp2 p Hp) as [Hy|(Hr & prompt & Hin)].
    + destruct (Hp1 p Hy) as [Hx|(Hr & prompt & Hin)]; [by left|right]. split; [lia|]. exists prompt.
      apply elem_of_app. by left.
    + right. split; [lia|]. exists prompt. apply elem_of_app. by right.
Qed.

Lemma prompted_same (d d' : daemon) out new :
  next_token (engine d') = next_token (engine d) ->
  (pending_secret (engine d') = pending_secret (engine d) \/ pending_secret (engine d') = None) ->
  prompted (d, out) (d', out ++ new).
Proof. intros Hn Hp. exists new. cbn. split_and!; [done|lia|]. intros p ?. left. destruct Hp; congruence. Qed.

#[export] Instance prompted_leaves : Leaves prompted.
Proof.
  assert (Hs : forall (d d' : daemon) out, next_token (engine d') = next_token (engine d) ->
    (pending_secret (engine d') = pending_secret (engine d) \/ pending_secret (engine d') = None) ->
    prompted (d, out) (d', out)).
  { intros d d' out Hn Hp. rewrite <- (app_nil_r out) at 2. by apply prompted_same. }
  split; [exact _|..].
  - intros d d' out _ Hp Hn _. apply Hs; auto.
  - intros d out. apply Hs; auto.
  - intros A s d out. apply prompted_same; auto.
  - intros reason d out. destruct (watcher (engine d)); cbn [with_some]; [|apply drifts_ret, _].
    unfold drifts_at, send. cbn. unfold mbind, act_bind, modify, emit. rewrite <- app_assoc. apply prompted_same; auto.
  - intros s. unfold notify, send. repeat drifts_step; first [by apply Hs; auto | by apply prompted_same; auto].
  - intros prompt d out. unfold request_secret. apply drifts_at_get.
    destruct (watcher (engine d)) as [client|]; [|apply drifts_ret, _].
    exists [Send client (EvNeedSecret (next_token (engine d)) prompt)]. cbn. split_and!; [done|lia|].
    intros p [= <-]. right. cbn. split; [lia|]. exists prompt. left.
Qed.

(** Taking over and going away ask nobody anything. *)
Lemma take_over_prompted client what : drifts prompted (take_over client what).
Proof.
  unfold take_over, send. repeat drifts_step.
  - rewrite <- (app_nil_r out) at 2. apply prompted_same; auto.
  - apply prompted_same; auto.
Qed.
Lemma command_prompted i : drifts prompted (_ ← modify (set_pending_secret None); feed i).
Proof. drifts_step; [|by apply feed_drifts, _]. drifts_step. by apply leaf_unprompt. Qed.
Lemma takes_over_prompted {A} client what i (a : A) :
  drifts prompted (_ ← take_over client what; _ ← modify (set_pending_secret None); _ ← feed i; done_ a).
Proof.
  drifts_step; [apply take_over_prompted|]. drifts_step; [drifts_step; by apply leaf_unprompt|].
  drifts_step; [by apply feed_drifts, _|by apply drifts_ret, _].
Qed.
Lemma connect_prompted ifindex ssid client : drifts prompted (connect ifindex ssid client).
Proof.
  unfold connect. case_bool_decide; [by apply failing_drifts, _|].
  apply (try_drifts prompted); [by apply prepare_drifts, _|]. intros _. apply takes_over_prompted.
Qed.
Lemma disconnect_prompted ssid client : drifts prompted (disconnect ssid client).
Proof.
  unfold disconnect. drifts_step. destruct (ssid_of _); [|by apply failing_drifts, _].
  case_bool_decide; [apply takes_over_prompted|by apply failing_drifts, _].
Qed.
Lemma forget_prompted ssid client : drifts prompted (forget ssid client).
Proof.
  unfold forget. apply (try_drifts prompted); [by apply call_or_drifts, _|]. intros _. drifts_step.
  destruct (Profile.delete_profile _ ssid) as [deleted fs].
  drifts_step; [drifts_step; by apply leaf_state|]. case_bool_decide.
  - apply (try_drifts prompted); [apply disconnect_prompted|]. intros _. by apply drifts_ret, _.
  - destruct deleted; by apply drifts_ret, _.
Qed.
Lemma forget_client_prompted client : drifts prompted (forget_client client).
Proof.
  unfold forget_client. repeat drifts_step; rewrite <- (app_nil_r out) at 2; apply prompted_same; auto.
Qed.

(** ** Who waits

    The engine starts waiting on a client's behalf only in [take_over]; every
    other path keeps the watcher or lets it go, and leaves the deadlines of
    scans alone. *)
Definition lent (x y : daemon * list Effect) : Prop :=
  (watcher (engine (fst y)) = watcher (engine (fst x)) \/ watcher (engine (fst y)) = None)
  /\ forall c, scan_keys (fst y) c <-> scan_keys (fst x) c.
#[export] Instance lent_preorder : PreOrder lent.
Proof.
  split; [intros x; split; [by left|done]|]. intros x y z [Hw1 Hk1] [Hw2 Hk2]. split.
  - destruct Hw1 as [Hw1|Hw1], Hw2 as [Hw2|Hw2]; rewrite ?Hw2, ?Hw1; auto.
  - intros c. by rewrite Hk2, Hk1.
Qed.

#[export] Instance lent_leaves : Leaves lent.
Proof.
  assert (Hs : forall (d d' : daemon) out out', timers (ports d') = timers (ports d) ->
    (watcher (engine d') = watcher (engine d) \/ watcher (engine d') = None) -> lent (d, out) (d', out')).
  { intros d d' out out' Ht Hw. split; [done|]. intros c. unfold scan_keys. cbn [fst]. by rewrite Ht. }
  split; [exact _|..].
  - intros d d' out Hw _ _ Hk. split; [by left|done].
  - intros d out. apply Hs; auto.
  - intros A s d out. apply Hs; auto.
  - intros reason d out. destruct (watcher (engine d)); cbn [with_some]; [|apply drifts_ret, _].
    unfold drifts_at, send. cbn. apply Hs; auto.
  - intros s. unfold notify, send. repeat drifts_step; apply Hs; auto.
  - intros prompt. unfold request_secret, send, failing, done_. repeat drifts_step; apply Hs; auto.
Qed.

(** What a step adds to the accounts: [k] to one client's, nothing to any
    other's, and no deadline of a scan. *)
Definition owes (client : ClientId) (k : Z) (x y : daemon * list Effect) : Prop :=
  (forall c, ledger c (fst y) (snd y) = ledger c (fst x) (snd x) + (if c =? client then k else 0))
  /\ forall c, scan_keys (fst y) c <-> scan_keys (fst x) c.

Lemma owes_trans client k1 k2 x y z : owes client k1 x y -> owes client k2 y z -> owes client (k1 + k2) x z.
Proof.
  intros [Hl1 Hk1] [Hl2 Hk2]. split; [|intros c; by rewrite Hk2, Hk1].
  intros c. rewrite Hl2, Hl1. destruct (c =? client); lia.
Qed.

(** An operation that takes over from nobody. *)
Lemma settled_owes {A} (m : op A) client (d : daemon) out :
  drifts balanced m -> drifts lent m ->
  wlp m (fun _ d' out' => owes client 0 (d, out) (d', out')
                          /\ (watcher (engine d') = watcher (engine d) \/ watcher (engine d') = None)) d out.
Proof.
  intros Hb Hl. specialize (Hb d out). specialize (Hl d out). unfold drifts_at, wlp in *.
  destruct (m d out) as [[[a d'] out']|]; [|done]. destruct Hl as [Hw Hk]. split; [|done]. split; [|done].
  intros c. rewrite Hb. destruct (c =? client); lia.
Qed.

Lemma waits_eq c (d : daemon) p : watcher (engine d) = Some p -> waits c d = if p =? c then 1 else 0.
Proof.
  intros Hw. unfold waits. rewrite Hw. destruct (Z.eqb_spec p c) as [->|]; [by rewrite bool_decide_true|].
  by rewrite bool_decide_false by congruence.
Qed.
Lemma waits_none c (d : daemon) : watcher (engine d) = None -> waits c d = 0.
Proof. intros Hw. unfold waits. by rewrite Hw. Qed.

Lemma take_over_owes client what (d : daemon) out :
  watcher (engine d) <> Some client ->
  wlp (take_over client what) (fun _ d' out' => owes client 1 (d, out) (d', out')) d out.
Proof.
  intros Hw. unfold take_over. apply wlp_get, wlp_bind, wlp_modify.
  destruct (watcher (engine d)) as [previous|] eqn:Hp; cbn [with_some].
  - assert (Hne : previous <> client) by congruence. rewrite (proj2 (Z.eqb_neq _ _)) by done. cbn [negb when].
    unfold send, wlp. cbn. split; [|done]. intros c. unfold ledger. cbn [fst snd].
    rewrite answers_snoc, (waits_eq c d previous) by done. rewrite (waits_eq _ _ client) by done.
    cbn [answers_to is_final]. rewrite andb_true_r, (Z.eqb_sym client c).
    destruct (Z.eqb_spec previous c), (Z.eqb_spec c client); lia.
  - unfold wlp. cbn. split; [|done]. intros c. unfold ledger. cbn [fst snd].
    rewrite (waits_none c d) by done. rewrite (waits_eq _ _ client), (Z.eqb_sym client c) by done.
    destruct (c =? client); lia.
Qed.

Lemma wlp_try {A B} (m : op (Cause + A)) (k : A -> op (Cause + B)) (Q : Cause + B -> daemon -> list Effect -> Prop) d out :
  wlp m (fun r d' out' => match r with inl e => Q (inl e) d' out' | inr a => wlp (k a) Q d' out' end) d out ->
  wlp (try m k) Q d out.
Proof. intros Hm. unfold try. apply wlp_bind. eapply wlp_mono; [exact Hm|]. by intros []. Qed.

(** The rest of a request after it was taken over. *)
Lemma command_owes client (i : Input) (d : daemon) out :
  wlp (_ ← modify (set_pending_secret None); feed i) (fun _ d' out' => owes client 0 (d, out) (d', out')) d out.
Proof.
  eapply wlp_mono; [apply settled_owes|by intros ? ? ? [? _]].
  - apply drifts_bind; [exact _|apply drifts_modify; intros; by apply balanced_state|intros _; by apply feed_drifts, _].
  - apply drifts_bind; [exact _|apply drifts_modify; intros; by apply leaf_unprompt|intros _; by apply feed_drifts, _].
Qed.

(** What a request that takes over adds: one answer owed, if it gets that far. *)
Definition taken {A} (r : Cause + A) : Z := match r with inr _ => 1 | inl _ => 0 end.

Lemma takes_over_owes {A} client what (i : Input) (a : A) (d : daemon) out :
  watcher (engine d) <> Some client ->
  wlp (_ ← take_over client what; _ ← modify (set_pending_secret None); _ ← feed i; done_ a)
    (fun r d' out' => owes client (taken r) (d, out) (d', out')) d out.
Proof.
  intros Hw. apply wlp_bind. eapply wlp_mono; [by apply take_over_owes|]. intros [] d1 out1 H1'.
  pose proof (command_owes client i d1 out1) as Hc. unfold wlp, mbind, act_bind in *.
  destruct (modify (set_pending_secret None) d1 out1) as [[[[] d2] out2]|]; [|done].
  destruct (feed i d2 out2) as [[[[] d3] out3]|]; [|done]. cbn. by eapply (owes_trans client 1 0).
Qed.

Lemma owes_refl client x : owes client 0 x x.
Proof. split; [|done]. intros c. destruct (c =? client); lia. Qed.

Lemma connect_owes ifindex ssid client (d : daemon) out :
  watcher (engine d) <> Some client ->
  wlp (connect ifindex ssid client) (fun r d' out' => owes client (taken r) (d, out) (d', out')) d out.
Proof.
  intros Hw. unfold connect. case_bool_decide; [apply wlp_ret, owes_refl|].
  apply wlp_try. eapply wlp_mono.
  { apply (settled_owes _ client); by apply prepare_drifts, _. }
  cbn beta. intros r d1 out1 [Ho Hw1]. destruct r as [e|[]]; [exact Ho|].
  eapply wlp_mono; [apply takes_over_owes; by destruct Hw1 as [-> | ->]|]. cbn beta. intros r d2 out2 Ho2.
  by eapply (owes_trans client 0).
Qed.

Lemma disconnect_owes ssid client (d : daemon) out :
  watcher (engine d) <> Some client ->
  wlp (disconnect ssid client) (fun r d' out' => owes client (taken r) (d, out) (d', out')) d out.
Proof.
  intros Hw. unfold disconnect. apply wlp_get. destruct (ssid_of d); [|apply wlp_ret, owes_refl].
  case_bool_decide; [by apply takes_over_owes|apply wlp_ret, owes_refl].
Qed.

Lemma forget_owes ssid client (d : daemon) out :
  watcher (engine d) <> Some client ->
  wlp (forget ssid client)
    (fun r d' out' => owes client (match r with inr true => 1 | _ => 0 end) (d, out) (d', out')) d out.
Proof.
  intros Hw. unfold forget. apply wlp_try. eapply wlp_mono.
  { apply (settled_owes _ client); by apply call_or_drifts, _. }
  cbn beta. intros r d1 out1 [Ho Hw1]. destruct r as [e|[]]; [exact Ho|].
  apply wlp_get. destruct (Profile.delete_profile _ ssid) as [deleted fs]. apply wlp_bind, wlp_modify.
  set (d2 := set_store fs d1).
  assert (Ho2 : owes client 0 (d, out) (d2, out1)) by (destruct Ho as [Hl Hk]; by split).
  case_bool_decide.
  - apply wlp_try. eapply wlp_mono; [apply disconnect_owes; by destruct Hw1 as [Hw1|Hw1]; cbn; rewrite Hw1|].
    cbn beta. intros r d3 out3 Ho3. destruct r as [e|[]]; [|apply wlp_ret]; by eapply (owes_trans client 0).
  - destruct deleted; by apply wlp_ret.
Qed.

Lemma secret_owes token value client (d : daemon) out :
  wlp (secret token value client) (fun _ d' out' => owes client 0 (d, out) (d', out')) d out.
Proof.
  eapply wlp_mono; [apply (settled_owes _ client); by apply secret_drifts, _|]. by intros ? ? ? [? _].
Qed.

(** A client that went away is waited for no more; the others are none the
    wiser. *)
Lemma forget_client_owes client (d : daemon) out :
  wlp (forget_client client) (fun _ d' out' => out' = out /\ (forall c, scan_keys d' c <-> scan_keys d c)
    /\ forall c, c <> client -> ledger c d' out' = ledger c d out) d out.
Proof.
  unfold forget_client, wlp. cbn. unfold mbind, act_bind, get_state, modify, when.
  destruct (bool_decide (watcher (engine d) = Some client)) eqn:Hw; bool_prop; cbn.
  - destruct (match pending_secret (engine d) with Some p => _ | None => false end); cbn; (split_and!; [done..|]);
      intros c Hc; unfold ledger, waits; cbn; rewrite Hw, !bool_decide_false by congruence; done.
  - destruct (match pending_secret (engine d) with Some p => _ | None => false end); cbn; by split_and!.
Qed.
End clients.
