(* ===== verification/Reactor.v ===== *)
(** * The reactor: [cawd], reactor.rs

    One turn of the poll loop at a time: what the ready descriptors delivered
    is the argument of [dispatch], and what the handlers do is the code's,
    call for call.  The engine's operations run on the reactor's own fields,
    as [with_engine] lends them; each reads the clock first.  Waiting on the
    descriptors and dispatching on what poll reports of them is [Loop]. *)
From S2P Require Import Prelude Effects.
From S2P Require Crypto Nl80211 Rtnl Wiphy Links Ipc Auth Profile Timers DhcpClient Conn Engine.

#[local] Existing Instances Engine.Key_eq_dec Engine.SysError_eq_dec Wiphy.IfType_eq_dec Rtnl.Kind_eq_dec.

(** Milliseconds, but for the two bounds of the backoff. *)
Definition SCAN_TIMEOUT : Z := 15000.
Definition AUTOCONNECT_START : Z := 2000.
Definition AUTOCONNECT_MIN : Z := 10.
Definition AUTOCONNECT_MAX : Z := 300.
Definition AUTOCONNECT_SETTLED : Z := 60000.
(** The longest [rearm] leaves the timer. *)
Definition MAX_SLEEP : Z := 2000.
(** Nanoseconds. *)
Definition SUSPEND_THRESHOLD : Z := 500 * 1000000.
Definition ENETDOWN : Z := 100.

Definition autoconnect_backoff (attempts : Z) : Z :=
  let doublings := Z.min (sat_sub attempts 1) 16 in
  let secs := Z.min (sat_mul 64 AUTOCONNECT_MIN (Z.shiftl 1 doublings)) AUTOCONNECT_MAX in
  secs * 1000.

Record PendingScan := { sc_client : Engine.ClientId; sc_ifindex : Z }.

(** What a ready descriptor delivered. *)
Inductive Source :=
| STimer
| SSignal
| SListener (accepted : list (Engine.ClientId * Auth.Peer * list Ipc.Request))
| SClient (id : Engine.ClientId) (requests : list Ipc.Request)
| SWireless (events : list Nl80211.Event)
| SLinks (events : list Links.LinkEvent)
| SEapol (frames : list bytes)
| SDhcp (datagrams : list bytes).
(** One turn: the descriptors that are ready, and the connections that are
    finished after it. *)
Record Turn := { ready : list Source; gone : list Engine.ClientId }.

Section reactor.
Context `{Crypto.CryptoPrims} {SaeP DotP : Type} `{Crypto.PmkProvider SaeP} `{Crypto.PmkProvider DotP}
  {build : Conn.Build SaeP DotP} `{Profile.Json} {W : Type} `{Engine.Kernel W}.

Abbreviation daemon := (Engine.Daemon SaeP DotP W).

Record Reactor := {
  inner : daemon;
  has_links : bool;
  clients : list (Engine.ClientId * Auth.Peer);
  scans : list PendingScan;
  power_save_off : list (Z * bool);
  autoconnect : bool;
  auto_attempts : Z;
  stopping : bool;
  suspend_offset : Z;
  auto_paused : bool;
  (* what the timerfd was last armed with *)
  alarm : Z;
}.

(** What could be opened at start-up: the wireless sockets, rtnetlink, its
    notifications. *)
Definition Reactor_new (auto wireless rtnl links : bool) (w : W) (store : Profile.Fs) : Reactor :=
  let '((boot, mono), w) := Engine.boot_and_monotonic w in
  {| inner := {| Engine.engine := Engine.Engine_new;
                 Engine.ports := {| Engine.nl := wireless; Engine.eapol := false; Engine.rtnl := rtnl;
                                    Engine.dhcp := None; Engine.timers := []; Engine.now := 0;
                                    Engine.world := w; Engine.store := store |} |};
     has_links := links; clients := []; scans := []; power_save_off := []; autoconnect := auto;
     auto_attempts := 0; stopping := false; suspend_offset := sat_sub boot mono; auto_paused := false;
     alarm := 0 |}.

(** *** One field at a time *)
Definition set_inner (v : daemon) (r : Reactor) : Reactor :=
  {| inner := v; has_links := has_links r; clients := clients r; scans := scans r;
     power_save_off := power_save_off r; autoconnect := autoconnect r; auto_attempts := auto_attempts r;
     stopping := stopping r; suspend_offset := suspend_offset r; auto_paused := auto_paused r; alarm := alarm r |}.
Definition set_clients v (r : Reactor) : Reactor :=
  {| inner := inner r; has_links := has_links r; clients := v; scans := scans r;
     power_save_off := power_save_off r; autoconnect := autoconnect r; auto_attempts := auto_attempts r;
     stopping := stopping r; suspend_offset := suspend_offset r; auto_paused := auto_paused r; alarm := alarm r |}.
Definition set_scans v (r : Reactor) : Reactor :=
  {| inner := inner r; has_links := has_links r; clients := clients r; scans := v;
     power_save_off := power_save_off r; autoconnect := autoconnect r; auto_attempts := auto_attempts r;
     stopping := stopping r; suspend_offset := suspend_offset r; auto_paused := auto_paused r; alarm := alarm r |}.
Definition set_power_save_off v (r : Reactor) : Reactor :=
  {| inner := inner r; has_links := has_links r; clients := clients r; scans := scans r;
     power_save_off := v; autoconnect := autoconnect r; auto_attempts := auto_attempts r;
     stopping := stopping r; suspend_offset := suspend_offset r; auto_paused := auto_paused r; alarm := alarm r |}.
Definition set_auto_attempts v (r : Reactor) : Reactor :=
  {| inner := inner r; has_links := has_links r; clients := clients r; scans := scans r;
     power_save_off := power_save_off r; autoconnect := autoconnect r; auto_attempts := v;
     stopping := stopping r; suspend_offset := suspend_offset r; auto_paused := auto_paused r; alarm := alarm r |}.
Definition set_stopping v (r : Reactor) : Reactor :=
  {| inner := inner r; has_links := has_links r; clients := clients r; scans := scans r;
     power_save_off := power_save_off r; autoconnect := autoconnect r; auto_attempts := auto_attempts r;
     stopping := v; suspend_offset := suspend_offset r; auto_paused := auto_paused r; alarm := alarm r |}.
Definition set_suspend_offset v (r : Reactor) : Reactor :=
  {| inner := inner r; has_links := has_links r; clients := clients r; scans := scans r;
     power_save_off := power_save_off r; autoconnect := autoconnect r; auto_attempts := auto_attempts r;
     stopping := stopping r; suspend_offset := v; auto_paused := auto_paused r; alarm := alarm r |}.
Definition set_auto_paused v (r : Reactor) : Reactor :=
  {| inner := inner r; has_links := has_links r; clients := clients r; scans := scans r;
     power_save_off := power_save_off r; autoconnect := autoconnect r; auto_attempts := auto_attempts r;
     stopping := stopping r; suspend_offset := suspend_offset r; auto_paused := v; alarm := alarm r |}.
Definition set_alarm v (r : Reactor) : Reactor :=
  {| inner := inner r; has_links := has_links r; clients := clients r; scans := scans r;
     power_save_off := power_save_off r; autoconnect := autoconnect r; auto_attempts := auto_attempts r;
     stopping := stopping r; suspend_offset := suspend_offset r; auto_paused := auto_paused r; alarm := v |}.

Abbreviation op := (act Reactor Engine.Effect).

(** *** The fields lent to the engine *)
Definition lend {A} (m : act daemon Engine.Effect A) : op A := fun r out =>
  match m (inner r) out with Some (a, d, out) => Some (a, set_inner d r, out) | None => None end.
Definition on_inner (f : daemon -> daemon) : op unit := modify (fun r => set_inner (f (inner r)) r).

(** [Instant::now()] *)
Definition instant_now : op Z :=
  r ← get_state;
  let (t, w) := Engine.instant (Engine.world (Engine.ports (inner r))) in
  _ ← on_inner (Engine.set_world w); mret t.
Definition with_engine {A} (m : act daemon Engine.Effect A) : op A :=
  t ← instant_now; _ ← on_inner (Engine.at_time t); lend m.

Definition call {A} (s : Engine.sys A) : op (Engine.SysError + A) := lend (Engine.call s).
Definition reply (id : Engine.ClientId) (r : Engine.Reply) : op unit := lend (Engine.send id r).

(** [timers.arm(key, delay, Instant::now())] *)
Definition arm (k : Engine.Key) (delay : Z) : op unit :=
  t ← instant_now;
  on_inner (fun d => Engine.set_timers (Timers.arm k delay t (Engine.timers (Engine.ports d))) d).
Definition cancel (k : Engine.Key) : op unit :=
  on_inner (fun d => Engine.set_timers (Timers.cancel k (Engine.timers (Engine.ports d))) d).

(** *** Fallible steps *)
Abbreviation fallible A := (op (Engine.Cause + A)).
Definition try {A B} (m : fallible A) (k : A -> fallible B) : fallible B :=
  r ← m; match r with inl e => mret (inl e) | inr a => k a end.
Definition ok {A} (a : A) : fallible A := mret (inr a).
Definition fails {A} (e : Engine.Cause) : fallible A := mret (inl e).
Definition call_or {A} (s : Engine.sys A) : fallible A :=
  r ← call s; mret (match r with inl e => inl (Engine.CSys "" e) | inr a => inr a end).
Definition need (has : daemon -> bool) (e : Engine.Cause) : fallible unit :=
  r ← get_state; mret (if has (inner r) then inr tt else inl e).
Definition need_wireless : fallible unit := need (fun d => Engine.nl (Engine.ports d)) Engine.NO_WIRELESS.
Definition need_rtnl : fallible unit :=
  need (fun d => Engine.rtnl (Engine.ports d)) (Engine.CText "rtnetlink is not available").

(** *** Interfaces *)

Definition set_link_up (ifindex : Z) (up : bool) : fallible unit :=
  try need_rtnl (fun _ => call_or (Engine.RtSetUp ifindex up)).

Definition is_station (i : Wiphy.Interface) : bool := bool_decide (Wiphy.i_iftype i = Wiphy.Station).
Definition wireless_interface (port : option bytes) : fallible (Z * bytes) :=
  try need_wireless (fun _ =>
  try (call_or Engine.NlInterfaces) (fun interfaces =>
  match port with
  | Some name =>
      match find_first (fun i => bool_decide (Wiphy.i_name i = name)) interfaces with
      | Some i => ok (Wiphy.i_ifindex i, Wiphy.i_name i)
      | None => fails (Engine.CNamed "is not a wireless port" name)
      end
  | None =>
      match List.filter is_station interfaces with
      | [only] => ok (Wiphy.i_ifindex only, Wiphy.i_name only)
      | [] => fails (Engine.CText "no wireless port")
      | _ => fails (Engine.CText "several wireless ports; name one")
      end
  end)).

(** The outcome of the last attempt per interface. *)
Fixpoint note_power_save (ifindex : Z) (ok : bool) (l : list (Z * bool)) : list (Z * bool) :=
  match l with
  | [] => [(ifindex, ok)]
  | (i, was) :: l => if i =? ifindex then (i, ok) :: l else (i, was) :: note_power_save ifindex ok l
  end.
Definition disable_power_save (ifindex : Z) : op unit :=
  r ← get_state;
  when (Engine.nl (Engine.ports (inner r))) (
    res ← call (Engine.NlSetPowerSave ifindex false);
    r ← get_state;
    modify (set_power_save_off
      (note_power_save ifindex (match res with inr _ => true | inl _ => false end) (power_save_off r)))).

Definition wireless_ifindex_up (port : option bytes) : fallible Z :=
  try (wireless_interface port) (fun '(ifindex, name) =>
  res ← set_link_up ifindex true;
  match res with
  | inl e => fails (Engine.CBringUp name e)
  | inr _ => _ ← disable_power_save ifindex; ok ifindex
  end).

Definition shown (a : Rtnl.Address) : Rtnl.IpAddr * Z := (Rtnl.a_addr a, Rtnl.a_prefix_len a).
Definition addrs_of (index : Z) (l : list Rtnl.Address) : list (Rtnl.IpAddr * Z) :=
  map shown (List.filter (fun a => Rtnl.a_index a =? index) l).

Definition port_summary (addrs : list Rtnl.Address) (l : Rtnl.Link) : Ipc.PortSummary :=
  {| Ipc.ps_name := Rtnl.name l; Ipc.ps_mac := from_option Rtnl.format_mac [] (Rtnl.mac l);
     Ipc.ps_up := Rtnl.is_up l; Ipc.ps_carrier := Rtnl.has_carrier l;
     Ipc.ps_wireless := bool_decide (Rtnl.kind l = Rtnl.Wireless);
     Ipc.ps_addrs := addrs_of (Rtnl.index l) addrs |}.
Definition ports_summary (only : option bytes) : fallible (list Ipc.PortSummary) :=
  try need_rtnl (fun _ =>
  try (call_or Engine.RtLinks) (fun links =>
  try (call_or Engine.RtAddresses) (fun addrs =>
  let wanted l := match only with None => true | Some name => bool_decide (Rtnl.name l = name) end in
  let summary := map (port_summary addrs) (List.filter wanted links) in
  match only, summary with
  | Some name, [] => fails (Engine.CNamed "no such port" name)
  | _, _ => ok summary
  end))).

Definition set_port_up (name : bytes) (up : bool) : fallible unit :=
  try need_rtnl (fun _ =>
  try (call_or Engine.RtLinks) (fun links =>
  match find_first (fun l => bool_decide (Rtnl.name l = name)) links with
  | None => fails (Engine.CNamed "no such port" name)
  | Some link =>
      try (set_link_up (Rtnl.index link) up) (fun _ =>
      let wireless := bool_decide (Rtnl.kind link = Rtnl.Wireless) in
      _ ← when wireless (modify (set_auto_paused (negb up)));
      _ ← when (up && wireless) (disable_power_save (Rtnl.index link));
      ok tt)
  end)).

Definition status : op Engine.ConnectionStatus :=
  r ← get_state;
  '(port, addrs) ←
    match Engine.ifindex_of (inner r), Engine.rtnl (Engine.ports (inner r)) with
    | Some ifindex, true =>
        links ← call Engine.RtLinks;
        addrs ← call Engine.RtAddresses;
        let name := match links with
                    | inr links => from_option Rtnl.name [] (find_first (fun l => Rtnl.index l =? ifindex) links)
                    | inl _ => []
                    end in
        mret (name, match addrs with inr addrs => addrs_of ifindex addrs | inl _ => [] end)
    | _, _ => mret ([], [])
    end;
  r ← get_state;
  mret {| Engine.cs_port := port; Engine.cs_ssid := Engine.ssid_of (inner r);
          Engine.cs_state := Engine.state_of (inner r); Engine.cs_addrs := addrs |}.

(** *** Scans *)

Definition waiting_on (ifindex : Z) (r : Reactor) : list Engine.ClientId :=
  map sc_client (List.filter (fun s => sc_ifindex s =? ifindex) (scans r)).
Definition without_scan (client : Engine.ClientId) (l : list PendingScan) : list PendingScan :=
  List.filter (fun s => negb (sc_client s =? client)) l.

Definition finish_scan (client : Engine.ClientId) (response : Engine.Reply) : op unit :=
  _ ← modify (fun r => set_scans (without_scan client (scans r)) r);
  _ ← cancel (Engine.KScan client);
  reply client response.

Definition start_scan (client : Engine.ClientId) (port : option bytes) : fallible unit :=
  try (wireless_interface port) (fun '(ifindex, name) =>
  try need_wireless (fun _ =>
  res ← call (Engine.NlTriggerScan ifindex);
  let started := match res with
                 | inr _ => inr tt
                 | inl e => if bool_decide (e = Engine.EKernel Engine.EBUSY) then inr tt
                            else if bool_decide (e = Engine.EKernel ENETDOWN)
                            then inl (Engine.CNamed "is down" name) else inl (Engine.CSys "" e)
                 end in
  try (mret started) (fun _ =>
  _ ← modify (fun r => set_scans (scans r ++ [{| sc_client := client; sc_ifindex := ifindex |}]) r);
  _ ← arm (Engine.KScan client) SCAN_TIMEOUT;
  _ ← reply client Engine.EvScanning;
  ok tt))).

Definition network_summary (profiles : list Profile.Profile) (b : Nl80211.Bss) : Ipc.NetworkSummary :=
  {| Ipc.ns_ssid := Text.utf8_lossy (Nl80211.bss_ssid b); Ipc.ns_bssid := Rtnl.format_mac (Nl80211.bss_bssid b);
     Ipc.ns_signal_dbm := Nl80211.bss_signal_dbm b; Ipc.ns_freq_mhz := Nl80211.bss_freq_mhz b;
     Ipc.ns_security := Nl80211.bss_security b;
     Ipc.ns_known := existsb (fun p => bool_decide (Profile.p_ssid p = Nl80211.bss_ssid b)) profiles |}.
(** Strongest first. *)
Definition by_strength (l : list Nl80211.Bss) : list Nl80211.Bss :=
  sort_by_key (fun b => - Nl80211.bss_signal_dbm b) l.
Definition networks (ifindex : Z) : fallible (list Ipc.NetworkSummary) :=
  try need_wireless (fun _ =>
  try (call_or (Engine.NlScanResults ifindex)) (fun results =>
  try (call_or Engine.StoreRead) (fun _ =>
  r ← get_state;
  let profiles := Profile.load_all (Engine.store (Engine.ports (inner r))) in
  ok (map (network_summary profiles) (by_strength results))))).

Definition on_scan_done (ifindex : Z) : op unit :=
  r ← get_state;
  match waiting_on ifindex r with
  | [] => mret tt
  | waiting =>
      res ← networks ifindex;
      let response := match res with inr l => Engine.RspNetworks l | inl e => Engine.RspError e end in
      for_each waiting (fun client => finish_scan client response)
  end.

(** *** Connecting without being asked *)

Definition begin_autoconnect : fallible unit :=
  try (wireless_ifindex_up None) (fun ifindex => with_engine (Engine.autoconnect ifindex)).

Definition on_autoconnect : op unit :=
  r ← get_state;
  when (autoconnect r) (
    if auto_paused r || negb (Engine.is_idle (inner r)) then
      _ ← modify (set_auto_attempts 0);
      arm Engine.KAutoconnect AUTOCONNECT_SETTLED
    else
      _ ← begin_autoconnect;
      r ← get_state;
      let attempts := sat_add 32 (auto_attempts r) 1 in
      _ ← modify (set_auto_attempts attempts);
      arm Engine.KAutoconnect (autoconnect_backoff attempts)).

(** *** Requests *)

(** The group database is read afresh for each request that needs it. *)
Definition may_change_state (id : Engine.ClientId) : op bool :=
  r ← get_state;
  match find_first (fun c => fst c =? id) (clients r) with
  | None => mret false
  | Some (_, peer) =>
      group ← call Engine.ReadGroup;
      passwd ← call Engine.ReadPasswd;
      let file f := match f with inr text => Some text | inl _ => None end in
      mret (Auth.may_change_state (Auth.from_paths (file group) (file passwd)) peer (Text.ascii_of Ipc.GROUP))
  end.

Definition answer_with {A} (id : Engine.ClientId) (f : A -> option Engine.Reply) (m : fallible A) : op unit :=
  res ← m;
  match res with
  | inr a => with_some (f a) (reply id)
  | inl e => reply id (Engine.RspError e)
  end.

Definition serve (id : Engine.ClientId) (request : Ipc.Request) : op unit :=
  match request with
  | Ipc.ListPorts => answer_with id (fun l => Some (Engine.RspPorts l)) (ports_summary None)
  | Ipc.PortInfo name => answer_with id (fun l => Some (Engine.RspPorts l)) (ports_summary (Some name))
  | Ipc.PortUp name up => answer_with id (fun _ => Some Engine.RspOk) (set_port_up name up)
  | Ipc.Scan port => answer_with id (fun _ => None) (start_scan id port)
  | Ipc.Status => s ← status; reply id (Engine.RspStatus s)
  | Ipc.Connect ssid port =>
      _ ← modify (set_auto_paused false);
      answer_with id (fun _ => None)
        (try (wireless_ifindex_up port) (fun ifindex => with_engine (Engine.connect ifindex ssid id)))
  | Ipc.Disconnect ssid =>
      res ← with_engine (Engine.disconnect ssid id);
      match res with
      | inl e => reply id (Engine.RspError e)
      | inr _ => modify (set_auto_paused true)
      end
  | Ipc.Forget ssid =>
      answer_with id (fun left : bool => if left then None else Some Engine.RspOk)
        (with_engine (Engine.forget ssid id))
  | Ipc.Secret token value => answer_with id (fun _ => None) (with_engine (Engine.secret token value id))
  | Ipc.Shutdown => _ ← reply id Engine.RspOk; modify (set_stopping true)
  end.

Definition DENIED : Engine.Cause := Engine.CText "permission denied: this needs root or membership of the caw group".
Definition handle (id : Engine.ClientId) (request : Ipc.Request) : op unit :=
  allowed ← (if Ipc.is_state_changing request then may_change_state id else mret true);
  if allowed : bool then serve id request else reply id (Engine.RspError DENIED).

(** *** Events *)

Definition on_expired (k : Engine.Key) : op unit :=
  match k with
  | Engine.KScan client => finish_scan client (Engine.RspError (Engine.CText "scan timed out"))
  | Engine.KCore id => with_engine (Engine.on_timer id)
  | Engine.KAutoconnect => on_autoconnect
  | Engine.KDhcp t => with_engine (Engine.on_dhcp_timer t)
  end.
Definition on_timer : op unit :=
  t ← instant_now;
  r ← get_state;
  let (expired, rest) := Timers.expired t (Engine.timers (Engine.ports (inner r))) in
  _ ← on_inner (Engine.set_timers rest);
  for_each expired on_expired.

Definition on_wireless (events : list Nl80211.Event) : op unit :=
  r ← get_state;
  when (Engine.nl (Engine.ports (inner r))) (
    for_each events (fun e =>
      _ ← match e with
          | Nl80211.ScanComplete _ ifindex => on_scan_done ifindex
          | Nl80211.ScanAborted _ ifindex =>
              r ← get_state;
              for_each (waiting_on ifindex r) (fun client =>
                finish_scan client (Engine.RspError (Engine.CText "the kernel aborted the scan")))
          | _ => mret tt
          end;
      with_engine (Engine.on_wireless e))).

Definition on_links (events : list Links.LinkEvent) : op unit :=
  r ← get_state;
  when (has_links r) (
    for_each events (fun e =>
      _ ← with_engine (Engine.on_link e);
      r ← get_state;
      when (autoconnect r && negb (auto_paused r) && Engine.is_idle (inner r)) (
        _ ← modify (set_auto_attempts 0);
        arm Engine.KAutoconnect AUTOCONNECT_START))).

(** Frames are read from the socket if it is still open. *)
Definition on_eapol (frames : list bytes) : op unit :=
  r ← get_state;
  when (Engine.eapol (Engine.ports (inner r)))
    (for_each frames (fun frame => with_engine (Engine.on_eapol frame))).
Definition on_dhcp (datagrams : list bytes) : op unit :=
  r ← get_state;
  when (is_some (Engine.dhcp (Engine.ports (inner r))))
    (for_each datagrams (fun b => with_engine (Engine.on_dhcp_datagram b))).

Definition dispatch (s : Source) : op unit :=
  match s with
  | STimer => on_timer
  | SSignal => modify (set_stopping true)
  | SListener accepted =>
      _ ← modify (fun r => set_clients (clients r ++ map fst accepted) r);
      for_each accepted (fun '(id, _, requests) => for_each requests (handle id))
  | SClient id requests => for_each requests (handle id)
  | SWireless events => on_wireless events
  | SLinks events => on_links events
  | SEapol frames => on_eapol frames
  | SDhcp datagrams => on_dhcp datagrams
  end.

(** *** The loop *)

(** [suspend_offset()] *)
Definition read_suspend_offset : op Z :=
  r ← get_state;
  let '((boot, mono), w) := Engine.boot_and_monotonic (Engine.world (Engine.ports (inner r))) in
  _ ← on_inner (Engine.set_world w); mret (sat_sub boot mono).

Definition check_resume : op unit :=
  offset ← read_suspend_offset;
  r ← get_state;
  _ ← when (SUSPEND_THRESHOLD <? sat_sub offset (suspend_offset r)) (
        _ ← with_engine Engine.resume;
        r ← get_state;
        _ ← for_each (map sc_client (scans r)) (fun client =>
              finish_scan client (Engine.RspError (Engine.CText "scan interrupted by suspend")));
        _ ← modify (set_auto_attempts 0);
        when (autoconnect r) (arm Engine.KAutoconnect 0));
  modify (set_suspend_offset offset).

Definition rearm : op unit :=
  r ← get_state;
  delay ← match Timers.next_deadline (Engine.timers (Engine.ports (inner r))) with
          | Some at_ => t ← instant_now; mret (sat_sub at_ t)
          | None => mret MAX_SLEEP
          end;
  modify (set_alarm (Z.min delay MAX_SLEEP)).

(** A client went away. *)
Definition forget (id : Engine.ClientId) : op unit :=
  _ ← modify (fun r => set_scans (without_scan id (scans r)) r);
  _ ← cancel (Engine.KScan id);
  lend (Engine.forget_client id).
Definition reap (id : Engine.ClientId) : op unit :=
  _ ← modify (fun r => set_clients (List.filter (fun c => negb (fst c =? id)) (clients r)) r);
  forget id.

Definition turn (t : Turn) : op unit :=
  _ ← check_resume;
  _ ← for_each (ready t) dispatch;
  _ ← for_each (gone t) reap;
  rearm.

(** [run], over the turns the kernel gives it, and [shutdown] *)
Fixpoint turns (l : list Turn) : op unit :=
  match l with
  | [] => mret tt
  | t :: l => r ← get_state; when (negb (stopping r)) (_ ← turn t; turns l)
  end.
Definition start : op unit :=
  r ← get_state;
  _ ← when (autoconnect r) (arm Engine.KAutoconnect AUTOCONNECT_START);
  rearm.
Definition shutdown : op unit := with_engine Engine.shut_down.
Definition run (l : list Turn) : op unit := _ ← start; _ ← turns l; shutdown.
End reactor.

Arguments Reactor : clear implicits.
