(* ===== verification/DaemonDemo.v ===== *)
(** * A daemon to run

    A kernel with one radio and a network in range, and a session with it,
    evaluated: what the theorems about the reactor are tried on. *)
From S2P Require Import Prelude.
From S2P Require Crypto Nl80211 Rtnl Wiphy Links Ipc Auth Profile Text Timers DhcpMessage DhcpClient Conn ConnProps Engine Reactor.

#[local] Existing Instances Crypto.Toy.prims Crypto.Toy.laws ConnProps.Demo.build ConnProps.Demo.build_safe
  Profile.demo_json Profile.demo_json_laws.

(** The world is the clock. *)
#[export] Instance kernel : Engine.Kernel Z := {
  answer A s w :=
    (match s in Engine.sys A return Engine.SysError + A with
     | Engine.NlInterfaces =>
         inr [{| Wiphy.i_ifindex := 3; Wiphy.i_wiphy := 0; Wiphy.i_name := Text.ascii_of "wlan0";
                 Wiphy.i_iftype := Wiphy.Station; Wiphy.i_mac := Some ConnProps.Demo.own |}]
     | Engine.NlWiphys => inr []
     | Engine.NlTriggerScan _ => inr tt
     | Engine.NlScanResults _ => inr [ConnProps.Demo.home]
     | Engine.NlConnect _ | Engine.NlAssociate _ => inr tt
     | Engine.NlAuthenticate _ => inr tt
     | Engine.NlDisconnect _ _ => inr tt
     | Engine.NlNewPairwiseKey _ _ _ _ => inr tt
     | Engine.NlNewGroupKey _ _ _ _ => inr tt
     | Engine.NlSetDefaultKey _ _ => inr tt
     | Engine.NlSetPowerSave _ _ => inl (Engine.EKernel 95)
     | Engine.EapolOpen _ => inr tt
     | Engine.EapolSend _ => inr tt
     | Engine.RtLinks => inr []
     | Engine.RtAddresses => inr []
     | Engine.RtSetUp _ _ => inr tt
     | Engine.RtDelAddress _ _ _ | Engine.RtAddAddress _ _ _ => inr tt
     | Engine.RtAddDefaultRoute _ _ => inr tt
     | Engine.RtAddBroadcastRoute _ | Engine.RtAddProbeRoute _ | Engine.RtDelProbeRoute _ => inr tt
     | Engine.DhcpOpen => inr tt
     | Engine.DhcpBroadcast _ | Engine.DhcpSend _ _ => inr tt
     | Engine.Hostname => inr []
     | Engine.WriteResolvConf _ => inr tt
     | Engine.ResolverPointsHere => inr true
     | Engine.StoreRead => inr tt
     | Engine.StoreStep _ => inr tt
     | Engine.StoreRemove _ => inr tt
     | Engine.ReadGroup => inr (Text.ascii_of "caw:x:100:alice")
     | Engine.ReadPasswd => inr (Text.ascii_of "bob:x:1001:1001::/home/bob:/bin/sh")
     | Engine.NewXid => inr 77
     | Engine.NewNonce => inr ConnProps.Demo.snonce
     end, w);
  instant w := (w, w + 1);
  boot_and_monotonic w := ((0, 0), w);
}.
#[export] Instance kernel_ok : Engine.KernelOk Z.
Proof. split. intros w n w'. cbn. intros [= <- _]. reflexivity. Defined.

Abbreviation reactor := (Reactor.Reactor Crypto.PskProvider Crypto.PskProvider Z).

(** Just started: root is client 1, an outsider client 2. *)
Definition root : Auth.Peer := Auth.Build_Peer 10 0 0.
Definition bob : Auth.Peer := Auth.Build_Peer 11 1001 1001.
Definition booted : reactor := Reactor.Reactor_new true true true true 0 None.

(** A session: both clients arrive, root asks for the network and is asked
    for its passphrase, the handshake runs, and an address is obtained. *)
Definition one (s : Reactor.Source) : Reactor.Turn := {| Reactor.ready := [s]; Reactor.gone := [] |}.
Definition arrive : Reactor.Turn :=
  one (Reactor.SListener [(1, root, [Ipc.Connect ConnProps.Demo.ssid None]); (2, bob, [Ipc.Status])]).
Definition scanned : Reactor.Turn := one (Reactor.SWireless [Nl80211.ScanComplete 0 3]).
Definition secret : Reactor.Turn := one (Reactor.SClient 1 [Ipc.Secret 1 ConnProps.Demo.secret]).
Definition joined : Reactor.Turn :=
  one (Reactor.SWireless [Nl80211.Connected (Some ConnProps.Demo.ap) Nl80211.Success]).
Definition keyed : Reactor.Turn := one (Reactor.SEapol [ConnProps.Demo.msg1 1; ConnProps.Demo.msg3 2]).
Definition leased : Reactor.Turn :=
  one (Reactor.SDhcp [DhcpMessage.Message_encode DhcpClient.Demo.offer; DhcpMessage.Message_encode DhcpClient.Demo.ack]).
Definition session : list Reactor.Turn := [arrive; scanned; secret; joined; keyed; leased].

Definition after (l : list Reactor.Turn) : reactor * list Engine.Effect :=
  match (_ ← Reactor.start; Reactor.turns l) booted [] with
  | Some (_, r, out) => (r, out)
  | None => (booted, [])
  end.
(** What a client was told. *)
Definition told (id : Engine.ClientId) (out : list Engine.Effect) : list Engine.Reply :=
  omap (fun e => match e with Engine.Send c r => if c =? id then Some r else None | _ => None end) out.

Example session_told :
  told 1 (snd (after session))
  = [Engine.EvScanning; Engine.EvNeedSecret 1 (Text.ascii_of "Passphrase for home"); Engine.EvAssociating (Some ConnProps.Demo.ap);
     Engine.EvAuthenticating; Engine.EvConfiguring; Engine.EvConnected; Engine.RspOk].
Proof. vm_compute. reflexivity. Qed.
