(* ===== verification/ReactorProps.v ===== *)
(** * The daemon refines the connection

    Whatever the reactor is given, in whatever order, and whatever the kernel
    answers to whichever call, the daemon does not panic, the connection it
    drives is in a state the connection's own theorems speak of, and its table
    holds the deadlines of that connection and no others.  The interface
    between the two is [EngineProps.keeps]: what every operation of the engine
    promises its caller. *)
From S2P Require Import Prelude Effects.
From S2P Require Crypto Nl80211 Links Ipc Auth Profile Timers DhcpClient Engine EngineProps DaemonDemo.
From S2P Require Import Conn ConnProps Reactor.

#[local] Existing Instances Engine.Key_eq_dec EngineProps.frame_preorder.

Section reactor.
Context `{Crypto.CryptoLaws} {SaeP DotP : Type} `{Crypto.PmkProviderSafe SaeP} `{Crypto.PmkProviderSafe DotP}
  {build : Build SaeP DotP} `{!BuildSafe build} `{Profile.Json} {W : Type} `{Engine.KernelOk W}.

Abbreviation daemon := (Engine.Daemon SaeP DotP W).
Abbreviation reactor := (Reactor SaeP DotP W).
Abbreviation op := (act reactor Engine.Effect).

(** ** An operation that keeps the engine's invariant *)

Definition good (due : list TimerId) (r : reactor) : Prop := EngineProps.good due (inner r).
Definition keeps {A} (due : list TimerId) (m : op A) : Prop :=
  forall r out, good due r -> wp m (fun _ r' _ => good due r') r out.

Lemma kept_ret {A} due (a : A) : keeps due (mret a).
Proof. intros r out Hg. by wp_step. Qed.
Lemma kept_bind {A B} due (m : op A) (k : A -> op B) :
  keeps due m -> (forall a, keeps due (k a)) -> keeps due (m ≫= k).
Proof. intros Hm Hk r out Hg. wp_step. eapply wp_mono; [by apply Hm|]. cbn beta. intros a r' out' Hg'. by apply Hk. Qed.
Lemma kept_get {B} due (k : reactor -> op B) : (forall r, keeps due (k r)) -> keeps due (get_state ≫= k).
Proof. intros Hk r out Hg. wp_step. wp_step. by apply Hk. Qed.
Lemma kept_when due b (m : op unit) : keeps due m -> keeps due (when b m).
Proof. intros Hm. destruct b; [done|apply kept_ret]. Qed.
Lemma kept_with_some {A} due (o : option A) (k : A -> op unit) : (forall a, keeps due (k a)) -> keeps due (with_some o k).
Proof. intros Hk. destruct o; [apply Hk|apply kept_ret]. Qed.
Lemma keeps_for_each {A} due (l : list A) (k : A -> op unit) : (forall a, a ∈ l -> keeps due (k a)) -> keeps due (for_each l k).
Proof.
  intros Hk r out Hg. apply (wp_for_each l k (fun r _ => good due r)); [done|].
  intros a r' out' Ha Hg'. by apply Hk.
Qed.
Lemma kept_try {A B} due (m : op (Engine.Cause + A)) (k : A -> op (Engine.Cause + B)) :
  keeps due m -> (forall a, keeps due (k a)) -> keeps due (try m k).
Proof. intros Hm Hk. unfold try. apply kept_bind; [done|]. intros [e|a]; [apply kept_ret|apply Hk]. Qed.

(** The reactor's own fields are none of the engine's business. *)
Lemma keeps_modify due f : (forall r, inner (f r) = inner r) -> keeps due (modify f).
Proof. intros Hf r out Hg. wp_step. unfold good in *. by rewrite Hf. Qed.
Lemma keeps_on_inner due f : (forall d, EngineProps.frame d (f d)) -> keeps due (on_inner f).
Proof. intros Hf r out Hg. unfold on_inner. wp_step. eapply EngineProps.good_frame; [apply Hf|exact Hg]. Qed.
Lemma keeps_lend {A} due (m : act daemon Engine.Effect A) :
  (forall d, EngineProps.keeps due m d) -> keeps due (lend m).
Proof.
  intros Hm r out Hg. specialize (Hm (inner r) Hg out). unfold wp, lend in *.
  by destruct (m (inner r) out) as [[[a d] out']|].
Qed.
Lemma keeps_lend_frame {A} due (m : act daemon Engine.Effect A) :
  (forall d, moves EngineProps.frame m d) -> keeps due (lend m).
Proof. intros Hm. apply keeps_lend. intros d. by apply EngineProps.keeps_frame. Qed.

Lemma world_frame w (d : daemon) : EngineProps.frame d (Engine.set_world w d).
Proof. by apply EngineProps.frame_same. Qed.
Lemma time_frame t (d : daemon) : EngineProps.frame d (Engine.at_time t d).
Proof. by apply EngineProps.frame_same. Qed.

Lemma keeps_instant due : keeps due instant_now.
Proof.
  unfold instant_now. apply kept_get. intros r. destruct (Engine.instant _) as [t w].
  apply kept_bind; [apply keeps_on_inner, world_frame|intros; apply kept_ret].
Qed.
Lemma keeps_call {A} due (s : Engine.sys A) : keeps due (call s).
Proof. apply keeps_lend_frame, EngineProps.call_frame. Qed.
Lemma keeps_reply due id r : keeps due (reply id r).
Proof. apply keeps_lend_frame. intros d. apply moves_emit, _. Qed.

(** A key that is not the connection's nor the exchange's. *)
Definition own_key (k : Engine.Key) : Prop :=
  match k with Engine.KScan _ | Engine.KAutoconnect => True | _ => False end.

Lemma arm_own_frame k at_ (d : daemon) :
  own_key k -> EngineProps.frame d (Engine.set_timers (Timers.arm_at k at_ (Engine.timers (Engine.ports d))) d).
Proof.
  intros Hk. split; [done| |].
  - intros [Hn Hd]. split; [by apply Timers.NoDup_arm|]. intros Hdh t. unfold EngineProps.holds_key.
    cbn [Engine.ports Engine.set_timers Engine.on_ports Engine.timers]. rewrite Timers.elem_keys_arm.
    intros [<-|Hin]; [done|]. by apply (Hd Hdh t).
  - intros id. unfold EngineProps.holds_key. cbn [Engine.ports Engine.set_timers Engine.on_ports Engine.timers].
    rewrite Timers.elem_keys_arm. split; [|by right]. intros [<-|]; done.
Qed.
Lemma cancel_own_frame k (d : daemon) :
  own_key k -> EngineProps.frame d (Engine.set_timers (Timers.cancel k (Engine.timers (Engine.ports d))) d).
Proof.
  intros Hk. split; [done| |].
  - intros [Hn Hd]. split; [by apply Timers.NoDup_cancel|]. intros Hdh t. unfold EngineProps.holds_key.
    cbn [Engine.ports Engine.set_timers Engine.on_ports Engine.timers]. rewrite Timers.elem_keys_cancel.
    intros [_ Hin]. by apply (Hd Hdh t).
  - intros id. unfold EngineProps.holds_key. cbn [Engine.ports Engine.set_timers Engine.on_ports Engine.timers].
    rewrite Timers.elem_keys_cancel. split; [by intros []|]. intros Hin. split; [|done]. by intros <-.
Qed.

Lemma keeps_arm due k delay : own_key k -> keeps due (arm k delay).
Proof.
  intros Hk. unfold arm. apply kept_bind; [apply keeps_instant|]. intros t.
  apply keeps_on_inner. intros d. by apply arm_own_frame.
Qed.
Lemma keeps_cancel due k : own_key k -> keeps due (cancel k).
Proof. intros Hk. apply keeps_on_inner. intros d. by apply cancel_own_frame. Qed.

(** The engine's operations, run at the time of the call. *)
Lemma keeps_with_engine {A} due (m : act daemon Engine.Effect A) :
  (forall d, EngineProps.keeps due m d) -> keeps due (with_engine m).
Proof.
  intros Hm. unfold with_engine. apply kept_bind; [apply keeps_instant|]. intros t.
  apply kept_bind; [apply keeps_on_inner, time_frame|]. intros _. by apply keeps_lend.
Qed.

Create HintDb reactor.
#[local] Hint Resolve kept_ret keeps_instant keeps_call keeps_reply : reactor.

Ltac keeps_step :=
  lazymatch goal with
  | |- keeps _ (mret _) => apply kept_ret
  | |- keeps _ (ok _) => apply kept_ret
  | |- keeps _ (fails _) => apply kept_ret
  | |- keeps _ (get_state ≫= _) => apply kept_get; intros ?
  | |- keeps _ (try _ _) => apply kept_try; [|intros ?]
  | |- keeps _ (_ ≫= _) => apply kept_bind; [|intros ?]
  | |- keeps _ (when _ _) => apply kept_when
  | |- keeps _ (with_some _ _) => apply kept_with_some; intros ?
  | |- keeps _ (for_each _ _) => apply keeps_for_each; intros ? ?
  | |- keeps _ (modify _) => apply keeps_modify; done
  | |- keeps _ (arm _ _) => apply keeps_arm; done
  | |- keeps _ (cancel _) => apply keeps_cancel; done
  | |- keeps _ (let '(_, _) := ?x in _) => destruct x
  | |- keeps _ (match ?x with _ => _ end) => destruct x
  end; cbv beta zeta.
Ltac solve_keeps := repeat first [keeps_step | solve [eauto with reactor]].

Section steps.
Context (due : list TimerId).

Lemma call_or_keeps {A} (s : Engine.sys A) : keeps due (call_or s).
Proof. unfold call_or. solve_keeps. Qed.
Lemma need_wireless_keeps : keeps due need_wireless.
Proof. unfold need_wireless, need. solve_keeps. Qed.
Lemma need_rtnl_keeps : keeps due need_rtnl.
Proof. unfold need_rtnl, need. solve_keeps. Qed.
#[local] Hint Resolve call_or_keeps need_wireless_keeps need_rtnl_keeps : reactor.
Lemma set_link_up_keeps ifindex up : keeps due (set_link_up ifindex up).
Proof. unfold set_link_up. solve_keeps. Qed.
Lemma wireless_interface_keeps port : keeps due (wireless_interface port).
Proof. unfold wireless_interface. solve_keeps. Qed.
Lemma disable_power_save_keeps ifindex : keeps due (disable_power_save ifindex).
Proof. unfold disable_power_save. solve_keeps. Qed.
#[local] Hint Resolve set_link_up_keeps wireless_interface_keeps disable_power_save_keeps : reactor.
Lemma wireless_ifindex_up_keeps port : keeps due (wireless_ifindex_up port).
Proof. unfold wireless_ifindex_up. solve_keeps. Qed.
Lemma ports_summary_keeps only : keeps due (ports_summary only).
Proof. unfold ports_summary. solve_keeps. Qed.
Lemma set_port_up_keeps name up : keeps due (set_port_up name up).
Proof. unfold set_port_up. solve_keeps. Qed.
Lemma status_keeps : keeps due status.
Proof. unfold status. solve_keeps. Qed.
Lemma finish_scan_keeps client response : keeps due (finish_scan client response).
Proof. unfold finish_scan. solve_keeps. Qed.
Lemma start_scan_keeps client port : keeps due (start_scan client port).
Proof. unfold start_scan. solve_keeps. Qed.
Lemma networks_keeps ifindex : keeps due (networks ifindex).
Proof. unfold networks. solve_keeps. Qed.
#[local] Hint Resolve wireless_ifindex_up_keeps ports_summary_keeps set_port_up_keeps status_keeps
  finish_scan_keeps start_scan_keeps networks_keeps : reactor.
Lemma on_scan_done_keeps ifindex : keeps due (on_scan_done ifindex).
Proof. unfold on_scan_done. solve_keeps. Qed.
Lemma may_change_state_keeps id : keeps due (may_change_state id).
Proof. unfold may_change_state. solve_keeps. Qed.
#[local] Hint Resolve on_scan_done_keeps may_change_state_keeps : reactor.

Lemma autoconnect_kept ifindex : keeps due (with_engine (Engine.autoconnect ifindex)).
Proof. apply keeps_with_engine. intros d. apply EngineProps.autoconnect_keeps. Qed.
Lemma connect_kept ifindex ssid id : keeps due (with_engine (Engine.connect ifindex ssid id)).
Proof. apply keeps_with_engine. intros d. apply EngineProps.connect_keeps. Qed.
Lemma disconnect_kept ssid id : keeps due (with_engine (Engine.disconnect ssid id)).
Proof. apply keeps_with_engine. intros d. apply EngineProps.disconnect_keeps. Qed.
Lemma forget_network_keeps ssid id : keeps due (with_engine (Engine.forget ssid id)).
Proof. apply keeps_with_engine. intros d. apply EngineProps.forget_keeps. Qed.
Lemma secret_kept token value id : keeps due (with_engine (Engine.secret token value id)).
Proof. apply keeps_with_engine. intros d. apply EngineProps.secret_keeps. Qed.
Lemma link_keeps e : keeps due (with_engine (Engine.on_link e)).
Proof. apply keeps_with_engine. intros d. apply EngineProps.on_link_keeps. Qed.
Lemma wireless_event_keeps e : keeps due (with_engine (Engine.on_wireless e)).
Proof. apply keeps_with_engine. intros d. apply EngineProps.on_wireless_keeps. Qed.
Lemma frame_keeps f : is_bytes f -> keeps due (with_engine (Engine.on_eapol f)).
Proof. intros Hf. apply keeps_with_engine. intros d. by apply EngineProps.on_eapol_keeps. Qed.
Lemma datagram_keeps b : keeps due (with_engine (Engine.on_dhcp_datagram b)).
Proof. apply keeps_with_engine. intros d. apply EngineProps.on_dhcp_datagram_keeps. Qed.
Lemma dhcp_timer_keeps t : keeps due (with_engine (Engine.on_dhcp_timer t)).
Proof. apply keeps_with_engine. intros d. apply EngineProps.on_dhcp_timer_keeps. Qed.
Lemma resume_kept : keeps due (with_engine Engine.resume).
Proof. apply keeps_with_engine. intros d. apply EngineProps.resume_keeps. Qed.
Lemma shutdown_keeps : keeps due shutdown.
Proof. apply keeps_with_engine. intros d. apply EngineProps.shut_down_keeps. Qed.
#[local] Hint Resolve autoconnect_kept connect_kept disconnect_kept forget_network_keeps secret_kept link_keeps
  wireless_event_keeps frame_keeps datagram_keeps dhcp_timer_keeps resume_kept : reactor.

Lemma on_autoconnect_keeps : keeps due on_autoconnect.
Proof. unfold on_autoconnect, begin_autoconnect. solve_keeps. Qed.
Lemma answer_with_keeps {A} id (f : A -> option Engine.Reply) m : keeps due m -> keeps due (answer_with id f m).
Proof. intros Hm. unfold answer_with. solve_keeps. Qed.
#[local] Hint Resolve on_autoconnect_keeps answer_with_keeps : reactor.
Lemma serve_keeps id request : keeps due (serve id request).
Proof. destruct request; cbn [serve]; repeat first
  [ lazymatch goal with |- keeps _ (answer_with _ _ _) => apply answer_with_keeps end
  | keeps_step | solve [eauto with reactor] ]. Qed.
#[local] Hint Resolve serve_keeps : reactor.
Lemma handle_keeps id request : keeps due (handle id request).
Proof. unfold handle. solve_keeps. Qed.
#[local] Hint Resolve handle_keeps : reactor.
Lemma on_wireless_kept events : keeps due (on_wireless events).
Proof. unfold on_wireless. solve_keeps. Qed.
Lemma on_links_keeps events : keeps due (on_links events).
Proof. unfold on_links. solve_keeps. Qed.
Lemma on_eapol_kept frames : Forall is_bytes frames -> keeps due (on_eapol frames).
Proof.
  intros Hf. unfold on_eapol. do 2 keeps_step. apply keeps_for_each. intros f Hin.
  apply frame_keeps. by apply (proj1 (Forall_forall _ _) Hf).
Qed.
Lemma on_dhcp_keeps datagrams : keeps due (on_dhcp datagrams).
Proof. unfold on_dhcp. solve_keeps. Qed.
Lemma forget_kept id : keeps due (forget id).
Proof.
  unfold forget. solve_keeps. apply keeps_lend_frame, EngineProps.forget_client_frame.
Qed.
#[local] Hint Resolve forget_kept : reactor.
Lemma reap_keeps id : keeps due (reap id).
Proof. unfold reap. solve_keeps. Qed.
Lemma rearm_keeps : keeps due rearm.
Proof. unfold rearm. solve_keeps. Qed.
Lemma read_suspend_offset_keeps : keeps due read_suspend_offset.
Proof.
  unfold read_suspend_offset. keeps_step. destruct (Engine.boot_and_monotonic _) as [[boot mono] w].
  keeps_step; [apply keeps_on_inner, world_frame|keeps_step].
Qed.
#[local] Hint Resolve read_suspend_offset_keeps : reactor.
Lemma check_resume_keeps : keeps due check_resume.
Proof. unfold check_resume. solve_keeps. Qed.
End steps.

(** ** Deadlines that expire *)

(** The connection's deadlines among the keys taken out and not delivered. *)
Definition core_ids (l : list Engine.Key) : list TimerId :=
  omap (fun k => match k with Engine.KCore id => Some id | _ => None end) l.

Lemma elem_core_ids l id : id ∈ core_ids l <-> Engine.KCore id ∈ l.
Proof.
  unfold core_ids. rewrite list_elem_of_omap. split; [|by intros ?; exists (Engine.KCore id)].
  intros (k & Hk & Hid). destruct k; by simplify_eq.
Qed.

Lemma good_sooner due due' r : (forall id, id ∈ due -> id ∈ due') -> good due r -> good due' r.
Proof. intros Hd [Ht Hh]. split; [done|]. by eapply EngineProps.held_weaken. Qed.

(** Taking the expired keys out leaves the connection's among them due. *)
Lemma take_expired t (r : reactor) :
  good [] r ->
  let '(expired, rest) := Timers.expired t (Engine.timers (Engine.ports (inner r))) in
  good (core_ids expired) (set_inner (Engine.set_timers rest (inner r)) r).
Proof.
  intros [[Hn Hd] Hh]. pose proof (Timers.NoDup_expired t _ Hn) as Hnd.
  pose proof (Timers.elem_keys_expired t (Engine.timers (Engine.ports (inner r)))) as Hel.
  destruct (Timers.expired t _) as [expired rest]. cbn [fst snd] in *.
  split; [split|].
  - by apply NoDup_app in Hnd as (_ & _ & ?).
  - intros Hdh k Hk. apply (Hd Hdh k). unfold EngineProps.holds_key in *. apply Hel. by right.
  - unfold EngineProps.held in *. cbn [set_inner inner Engine.set_timers Engine.on_ports Engine.engine].
    assert (Hrest : forall id, EngineProps.holds_key (Engine.set_timers rest (inner r)) (Engine.KCore id) ->
                               EngineProps.holds_key (inner r) (Engine.KCore id)).
    { intros id Hid. unfold EngineProps.holds_key in *. apply Hel. by right. }
    destruct (Engine.core (Engine.engine (inner r))); [|intros id Hid; by apply (Hh id), Hrest].
    destruct Hh as (v & Hr & [Hrun Hview]). exists v. split; [done|]. split; intros id Hid; [by apply Hrun, Hrest|].
    destruct (Hview id Hid) as [Hin|Hin]; [|by apply elem_of_nil in Hin].
    unfold EngineProps.holds_key in Hin. apply Hel in Hin as [Hin|Hin]; [right|by left].
    by apply elem_core_ids.
Qed.

Lemma deliver_timer ids id r out :
  good (id :: ids) r -> wp (with_engine (Engine.on_timer id)) (fun _ r' _ => good ids r') r out.
Proof.
  intros Hg. unfold with_engine. wp_step. eapply wp_mono; [by apply keeps_instant|]. cbn beta. intros t r1 out1 Hg1.
  wp_step. eapply wp_mono; [by eapply (keeps_on_inner _ _ (time_frame t))|]. cbn beta. intros _ r2 out2 Hg2.
  pose proof (EngineProps.on_timer_due (id :: ids) id (inner r2) out2 Hg2) as Hspec.
  unfold wp, lend in *. destruct (Engine.on_timer id (inner r2) out2) as [[[a d] out3]|]; [|done].
  eapply good_sooner; [|exact Hspec]. intros id' [Hne Hin]%list_elem_of_filter.
  apply elem_of_cons in Hin as [->|]; done.
Qed.

Lemma on_expired_all l r out :
  good (core_ids l) r -> wp (for_each l on_expired) (fun _ r' _ => good [] r') r out.
Proof.
  revert r out. induction l as [|k l IH]; intros r out Hg; cbn [for_each]; [exact Hg|].
  wp_step. apply (wp_mono _ (fun _ r' _ => good (core_ids l) r')); [|by intros; apply IH].
  destruct k as [id|client| |t]; cbn [on_expired].
  - by apply deliver_timer.
  - by apply finish_scan_keeps.
  - by apply on_autoconnect_keeps.
  - by apply dhcp_timer_keeps.
Qed.

Lemma on_timer_keeps : keeps [] on_timer.
Proof.
  intros r out Hg. unfold on_timer. wp_step. eapply wp_mono; [by apply keeps_instant|]. cbn beta.
  intros t r1 out1 Hg1. wp_step. wp_step. cbn beta.
  pose proof (take_expired t r1 Hg1) as Ht. destruct (Timers.expired _ _) as [expired rest].
  unfold on_inner. wp_step. wp_step. by apply on_expired_all.
Qed.

(** ** Turns *)

(** What the packet socket delivers is octets. *)
Definition source_ok (s : Source) : Prop := match s with SEapol frames => Forall is_bytes frames | _ => True end.
Definition turn_ok (t : Turn) : Prop := Forall source_ok (ready t).
#[global] Instance source_ok_dec s : Decision (source_ok s).
Proof. destruct s; apply _. Defined.
#[global] Instance turn_ok_dec t : Decision (turn_ok t).
Proof. apply Forall_dec. apply _. Defined.

Lemma dispatch_keeps s : source_ok s -> keeps [] (dispatch s).
Proof.
  intros Hs. destruct s; cbn [dispatch].
  - apply on_timer_keeps.
  - by apply keeps_modify.
  - apply kept_bind; [by apply keeps_modify|]. intros _. apply keeps_for_each. intros [[id p] requests] _.
    apply keeps_for_each. intros q _. apply handle_keeps.
  - apply keeps_for_each. intros q _. apply handle_keeps.
  - apply on_wireless_kept.
  - apply on_links_keeps.
  - by apply on_eapol_kept.
  - apply on_dhcp_keeps.
Qed.

Lemma turn_keeps t : turn_ok t -> keeps [] (turn t).
Proof.
  intros Ht. unfold turn. apply kept_bind; [apply check_resume_keeps|]. intros _.
  apply kept_bind; [|intros _; apply kept_bind; [|intros _; apply rearm_keeps]].
  - apply keeps_for_each. intros s Hs. apply dispatch_keeps. by apply (proj1 (Forall_forall _ _) Ht).
  - apply keeps_for_each. intros id _. apply reap_keeps.
Qed.

Lemma turns_keeps l : Forall turn_ok l -> keeps [] (turns l).
Proof.
  induction 1 as [|t l Ht _ IH]; cbn [turns]; [apply kept_ret|].
  apply kept_get. intros r. apply kept_when, kept_bind; [by apply turn_keeps|]. by intros _.
Qed.

Lemma start_keeps due : keeps due start.
Proof. unfold start. do 2 keeps_step; [keeps_step; keeps_step|apply rearm_keeps]. Qed.

(** ** The refinement *)

(** The daemon as an observer of its connection sees it: the connection is
    where a history of inputs leads, its timers in the table are the ones the
    history left running, and a daemon with no connection has none. *)
Definition refines (d : daemon) : Prop :=
  match Engine.core (Engine.engine d) with
  | Some c => exists v, reaches any_order c v
      /\ forall id, EngineProps.holds_key d (Engine.KCore id) <-> id ∈ v_timers v
  | None => forall id, ~ EngineProps.holds_key d (Engine.KCore id)
  end.

Lemma good_refines r : good [] r -> refines (inner r).
Proof.
  intros [_ Hh]. unfold refines, EngineProps.held in *. destruct (Engine.core _); [|done].
  destruct Hh as (v & Hr & [Hrun Hview]). exists v. split; [done|]. intros id. split; [apply Hrun|].
  intros Hid. destruct (Hview id Hid) as [|Hin]; [done|by apply elem_of_nil in Hin].
Qed.

(** As [Reactor::new] leaves it. *)
Definition cold (r : reactor) : Prop :=
  Engine.core (Engine.engine (inner r)) = None /\ Engine.timers (Engine.ports (inner r)) = []
  /\ Engine.dhcp (Engine.ports (inner r)) = None.

Lemma new_cold auto wireless rtnl links w store : cold (Reactor_new auto wireless rtnl links w store).
Proof. unfold cold, Reactor_new. by destruct (Engine.boot_and_monotonic w) as [[? ?] ?]. Qed.

Lemma cold_good r : cold r -> good [] r.
Proof.
  intros (Hc & Ht & Hd). split; [split|].
  - rewrite Ht. constructor.
  - intros _ t. unfold EngineProps.holds_key. rewrite Ht. by intros ?%elem_of_nil.
  - unfold EngineProps.held. rewrite Hc. intros id. unfold EngineProps.holds_key. rewrite Ht. by intros ?%elem_of_nil.
Qed.

Lemma run_good r l out :
  cold r -> Forall turn_ok l -> wp (_ ← start; turns l) (fun _ r' _ => good [] r') r out.
Proof.
  intros Hr Hl. wp_step. eapply wp_mono; [by apply start_keeps, cold_good|]. cbn beta.
  intros _ r1 out1 Hg. by apply turns_keeps.
Qed.

Lemma shutdown_idles r out :
  good [] r -> wp shutdown (fun _ r' _ => Engine.is_idle (inner r') = true) r out.
Proof.
  intros Hg. unfold shutdown, with_engine. wp_step. eapply wp_mono; [by apply keeps_instant|]. cbn beta.
  intros t r1 out1 Hg1. wp_step. eapply wp_mono; [by eapply (keeps_on_inner _ _ (time_frame t))|]. cbn beta.
  intros _ r2 out2 Hg2. pose proof (EngineProps.shut_down_idles [] (inner r2) out2 Hg2) as Hs.
  unfold wp, lend in *. destruct (Engine.shut_down (inner r2) out2) as [[[a d] out3]|]; [|done]. apply Hs.
Qed.

(** C4. The daemon refines the connection: started cold and run over any turns
    -- requests from any clients, notifications, frames, datagrams, deadlines
    early or late, in any order -- with the kernel answering every call as it
    likes, it never panics, its connection is in a state the connection's
    theorems speak of, and the timers it runs are exactly that connection's. *)
Theorem daemon_refines_connection (r : reactor) l :
  cold r -> Forall turn_ok l ->
  exists r' out, (_ ← start; turns l) r [] = Some (tt, r', out) /\ refines (inner r').
Proof.
  intros Hr Hl. pose proof (run_good r l [] Hr Hl) as Hw. unfold wp in Hw.
  destruct ((_ ← start; turns l) r []) as [[[[] r'] out]|]; [|done].
  exists r', out. split; [done|]. by apply good_refines.
Qed.

(** Stopping is clean however the daemon is stopped: after any turns,
    shutting down neither panics nor leaves a connection that is still joined
    or joining. *)
Theorem shutdown_leaves_idle (r : reactor) l :
  cold r -> Forall turn_ok l ->
  exists r' out, run l r [] = Some (tt, r', out) /\ Engine.is_idle (inner r') = true.
Proof.
  intros Hr Hl. pose proof (run_good r l [] Hr Hl) as Hw.
  assert (Hs : wp (run l) (fun _ r' _ => Engine.is_idle (inner r') = true) r []).
  { unfold run. unfold wp in Hw |- *. unfold mbind, act_bind in *. destruct (start r []) as [[[[] r1] out1]|]; [|done].
    destruct (turns l r1 out1) as [[[[] r2] out2]|]; [|done].
    pose proof (shutdown_idles r2 out2 Hw) as Hsd. unfold wp in Hsd. exact Hsd. }
  unfold wp in Hs. destruct (run l r []) as [[[[] r'] out]|]; [|done]. by exists r', out.
Qed.
End reactor.

(** ** The loop's own clock *)
Section clock.
Context `{Crypto.CryptoPrims} {SaeP DotP : Type} `{Crypto.PmkProvider SaeP} `{Crypto.PmkProvider DotP}
  {build : Build SaeP DotP} `{Profile.Json} {W : Type} `{Engine.Kernel W}.
Abbreviation reactor := (Reactor SaeP DotP W).

(** The deadlines the timer is set for were read at [n], the last moment the
    turn looked at the clock. *)
Definition set_for (n : Z) (r : reactor) : Prop :=
  0 <= alarm r <= MAX_SLEEP
  /\ Forall (fun e => alarm r <= sat_sub (Timers.deadline e) n) (Engine.timers (Engine.ports (inner r)))
  /\ Timers.it_value (Some (alarm r * 1000000)) <> (0, 0).

Lemma rearm_sets (r : reactor) out :
  wlp rearm (fun _ r' _ => exists n, set_for n r'
    /\ (Engine.timers (Engine.ports (inner r')) <> [] ->
        exists w, Engine.instant w = (n, Engine.world (Engine.ports (inner r'))))) r out.
Proof.
  assert (Harmed : forall n (r' : reactor), 0 <= alarm r' <= MAX_SLEEP ->
    Forall (fun e => alarm r' <= sat_sub (Timers.deadline e) n) (Engine.timers (Engine.ports (inner r'))) -> set_for n r').
  { intros n r' Ha Hf. split; [done|split; [done|]]. apply Timers.it_value_armed. lia. }
  unfold rearm. apply wlp_get. pose proof (Timers.next_deadline_spec (Engine.timers (Engine.ports (inner r)))) as Hn.
  destruct (Timers.next_deadline _) as [at_|].
  - unfold instant_now, on_inner. apply wlp_bind, wlp_bind, wlp_get. destruct (Engine.instant _) as [t w] eqn:Hi.
    apply wlp_bind, wlp_modify, wlp_ret, wlp_ret, wlp_modify. exists t. split; [|by eexists].
    destruct Hn as [Hall _]. apply Harmed; cbn [alarm set_alarm]; unfold sat_sub, MAX_SLEEP; [lia|].
    eapply Forall_impl; [exact Hall|]. cbn beta. intros e He. lia.
  - apply wlp_bind, wlp_ret, wlp_modify. exists 0. cbn [inner set_alarm]. rewrite Hn. split; [|done].
    apply Harmed; cbn [alarm set_alarm inner]; [unfold MAX_SLEEP; lia|]. rewrite Hn. constructor.
Qed.

(** No deadline is slept through: after any turn the timer is armed, for at
    most two seconds and for no longer than any deadline in the table is away,
    so whatever is due is found by the turn that the timer wakes. *)
Theorem no_deadline_slept_through t (r r' : reactor) out out' :
  turn t r out = Some (tt, r', out') ->
  exists n, set_for n r' /\ (Engine.timers (Engine.ports (inner r')) <> [] ->
    exists w, Engine.instant w = (n, Engine.world (Engine.ports (inner r')))).
Proof.
  intros Ht. assert (Hw : wlp (turn t) (fun _ r' _ => exists n, set_for n r'
    /\ (Engine.timers (Engine.ports (inner r')) <> [] ->
        exists w, Engine.instant w = (n, Engine.world (Engine.ports (inner r'))))) r out).
  { unfold turn. do 3 (apply wlp_bind; eapply wlp_mono; [apply (wlp_true _ _ _)|]; cbn beta; intros _ ? ? _).
    apply rearm_sets. }
  unfold wlp in Hw. by rewrite Ht in Hw.
Qed.
End clock.

Lemma backoff_value a : 0 <= a < 2 ^ 32 -> autoconnect_backoff a = Z.min (10000 * 2 ^ Z.min (sat_sub a 1) 16) 300000.
Proof.
  intros Ha. unfold autoconnect_backoff, sat_sub, sat_mul, AUTOCONNECT_MIN, AUTOCONNECT_MAX.
  set (d := Z.min (Z.max 0 (a - 1)) 16). assert (Hd : 0 <= d <= 16) by lia. rewrite Z.shiftl_1_l.
  assert (2 ^ d <= 2 ^ 16) by (apply Z.pow_le_mono_r; lia). lia.
Qed.

(** Between ten seconds and five minutes: the wait between attempts never
    leaves those bounds, never shrinks as attempts fail, and doubles until it
    reaches the upper one. *)
Theorem backoff_climbs a b :
  0 <= a <= b -> b < 2 ^ 32 ->
  10000 <= autoconnect_backoff a <= autoconnect_backoff b /\ autoconnect_backoff b <= 300000
  /\ (1 <= a -> b = a + 1 -> autoconnect_backoff b = Z.min (2 * autoconnect_backoff a) 300000).
Proof.
  intros Hab Hb. rewrite !backoff_value by lia. unfold sat_sub.
  set (m := Z.min (Z.max 0 (a - 1)) 16). set (n := Z.min (Z.max 0 (b - 1)) 16).
  assert (Hmn : 2 ^ 0 <= 2 ^ m <= 2 ^ n) by (split; apply Z.pow_le_mono_r; lia). split_and!; [lia..|].
  intros Ha ->. destruct (Z.le_gt_cases a 16).
  - replace n with (m + 1) by lia. rewrite Z.pow_add_r by lia. lia.
  - replace n with 16 by lia. replace m with 16 by lia. reflexivity.
Qed.

(** ** Witnesses *)
Section witnesses.
#[local] Existing Instances Crypto.Toy.prims Crypto.Toy.laws ConnProps.Demo.build ConnProps.Demo.build_safe
  Profile.demo_json DaemonDemo.kernel DaemonDemo.kernel_ok.

Lemma daemon_refines_connection_witness :
  exists r' out, (_ ← start; turns DaemonDemo.session) DaemonDemo.booted [] = Some (tt, r', out)
    /\ refines (inner r') /\ Engine.state_of (inner r') = Connected.
Proof.
  destruct (daemon_refines_connection DaemonDemo.booted DaemonDemo.session) as (r' & out & Hr & Href).
  - apply new_cold.
  - apply (bool_decide_unpack _). vm_compute. exact I.
  - exists r', out. split; [exact Hr|]. split; [exact Href|].
    assert (Hs : Reactor.inner r' = inner (fst (DaemonDemo.after DaemonDemo.session)))
      by (unfold DaemonDemo.after; by rewrite Hr).
    rewrite Hs. vm_compute. reflexivity.
Defined.

Lemma shutdown_leaves_idle_witness :
  exists r' out, run DaemonDemo.session DaemonDemo.booted [] = Some (tt, r', out) /\ Engine.is_idle (inner r') = true.
Proof.
  apply shutdown_leaves_idle; [apply new_cold|]. apply (bool_decide_unpack _). vm_compute. exact I.
Defined.

Lemma no_deadline_slept_through_witness :
  let x := DaemonDemo.after [DaemonDemo.arrive] in
  exists n, set_for n (fst x) /\ (Engine.timers (Engine.ports (inner (fst x))) <> [] ->
    exists w, Engine.instant w = (n, Engine.world (Engine.ports (inner (fst x))))).
Proof.
  intros x. apply (no_deadline_slept_through DaemonDemo.arrive (fst (DaemonDemo.after [])) (fst x) (snd (DaemonDemo.after [])) (snd x)).
  vm_compute. reflexivity.
Defined.

Lemma backoff_climbs_witness :
  10000 <= autoconnect_backoff 3 <= autoconnect_backoff 4 /\ autoconnect_backoff 4 <= 300000
  /\ (1 <= 3 -> 4 = 3 + 1 -> autoconnect_backoff 4 = Z.min (2 * autoconnect_backoff 3) 300000).
Proof. apply (backoff_climbs 3 4); lia. Defined.
End witnesses.
