(* ===== verification/ReactorClients.v ===== *)
(** * Requests and responses

    What the clients of the daemon can count on.  [EngineClients] keeps the
    books of one engine call; here they are kept for the reactor, with the
    scans it holds itself, over any history of requests, events and departures:
    who asks one thing at a time gets one response for each, who may not change
    anything changes nothing, and a secret is taken from nobody who was not
    asked for it. *)
From S2P Require Import Prelude Effects.
From S2P Require Crypto Nl80211 Links Ipc Auth Profile Text Timers DhcpClient Conn ConnProps Engine EngineProps EngineClients DaemonDemo.
From S2P Require Import Reactor ReactorProps.

#[local] Existing Instances Engine.Key_eq_dec EngineClients.prompted_preorder EngineClients.balanced_preorder
  EngineClients.lent_preorder EngineClients.prompted_leaves EngineClients.balanced_leaves EngineClients.lent_leaves.

Section reactor.
Context `{Crypto.CryptoPrims} {SaeP DotP : Type} `{Crypto.PmkProvider SaeP} `{Crypto.PmkProvider DotP}
  {build : Conn.Build SaeP DotP} `{Profile.Json} {W : Type} `{Engine.Kernel W}.

Abbreviation daemon := (Engine.Daemon SaeP DotP W).
Abbreviation reactor := (Reactor SaeP DotP W).
Abbreviation op := (act reactor Engine.Effect).

Definition waiting (r : reactor) : list Engine.ClientId := map sc_client (scans r).
Definition scan_keys (r : reactor) (c : Engine.ClientId) : Prop := EngineClients.scan_keys (inner r) c.

(** ** What the reactor's own steps leave alone

    As [EngineClients.Leaves], for a relation on the reactor's state: it holds
    of what changes no client's affairs, and of any call of the engine that
    breaks no [EngineClients.Leaves]. *)
Definition settled {A} (m : act daemon Engine.Effect A) : Prop :=
  forall R, EngineClients.Leaves R -> drifts R m.

Record alike (d d' : daemon) : Prop := {
  alike_watcher : Engine.watcher (Engine.engine d') = Engine.watcher (Engine.engine d);
  alike_pending : Engine.pending_secret (Engine.engine d') = Engine.pending_secret (Engine.engine d);
  alike_token : Engine.next_token (Engine.engine d') = Engine.next_token (Engine.engine d);
  alike_keys : forall c, EngineClients.scan_keys d' c <-> EngineClients.scan_keys d c;
}.

Class Carries (R : reactor * list Engine.Effect -> reactor * list Engine.Effect -> Prop) := {
  carries_preorder :: PreOrder R;
  carry_own (r r' : reactor) out : scans r' = scans r -> alike (inner r) (inner r') -> R (r, out) (r', out);
  carry_engine A (m : act daemon Engine.Effect A) : settled m -> drifts R (lend m);
}.

Section carried.
Context (R : reactor * list Engine.Effect -> reactor * list Engine.Effect -> Prop) `{!Carries R}.

Abbreviation carried m := (drifts R m).

Lemma on_inner_carried f : (forall d, alike d (f d)) -> carried (on_inner f).
Proof. intros Hf. unfold on_inner. apply drifts_modify. intros r out. by apply carry_own. Qed.
Lemma own_carried f : (forall r, scans (f r) = scans r /\ inner (f r) = inner r) -> carried (modify f).
Proof.
  intros Hf. apply drifts_modify. intros r out. destruct (Hf r) as [Hs Hi]. apply carry_own; [done|].
  by rewrite Hi.
Qed.
Lemma try_carried {A B} (m : op (Engine.Cause + A)) (k : A -> op (Engine.Cause + B)) :
  carried m -> (forall a, carried (k a)) -> carried (try m k).
Proof. intros Hm Hk. unfold try. drifts_step; [done|]. destruct a; [apply drifts_ret, _|apply Hk]. Qed.

Lemma instant_carried : carried instant_now.
Proof.
  unfold instant_now. drifts_step. destruct (Engine.instant _) as [t w].
  drifts_step; [by apply on_inner_carried|apply drifts_ret, _].
Qed.
Lemma call_carried {A} (s : Engine.sys A) : carried (call s).
Proof. apply carry_engine. intros R' HR'. by apply EngineClients.call_drifts. Qed.
Lemma with_engine_carried {A} (m : act daemon Engine.Effect A) : settled m -> carried (with_engine m).
Proof.
  intros Hm. unfold with_engine. drifts_step; [apply instant_carried|].
  drifts_step; [by apply on_inner_carried|by apply carry_engine].
Qed.
(** A deadline that is no scan's. *)
Lemma arm_carried k delay : (forall c, k <> Engine.KScan c) -> carried (arm k delay).
Proof.
  intros Hk. unfold arm. drifts_step; [apply instant_carried|]. apply on_inner_carried. intros d. split; [done..|].
  intros c. unfold EngineClients.scan_keys, Timers.arm.
  cbn [Engine.ports Engine.set_timers Engine.on_ports Engine.timers]. rewrite Timers.elem_keys_arm.
  split; [|by right]. intros [Heq|]; [|done]. by destruct (Hk c).
Qed.

#[local] Hint Resolve instant_carried call_carried : clients.
#[local] Hint Extern 1 (drifts _ (modify _)) => apply own_carried; done : clients.
#[local] Hint Extern 1 (drifts _ (arm _ _)) => apply arm_carried; done : clients.

Ltac carry_step :=
  lazymatch goal with
  | |- drifts _ (try _ _) => apply try_carried; [|intros ?]
  | |- drifts _ (ok _) => apply drifts_ret, _
  | |- drifts _ (fails _) => apply drifts_ret, _
  | |- drifts _ (modify _) => fail
  | |- _ => drifts_step
  end.
Ltac solve_carried := repeat first [solve [eauto with clients] | carry_step].

Lemma call_or_carried {A} (s : Engine.sys A) : carried (call_or s).
Proof. unfold call_or. solve_carried. Qed.
Lemma need_carried has e : carried (need has e).
Proof. unfold need. solve_carried. Qed.
#[local] Hint Resolve call_or_carried need_carried : clients.
Lemma set_link_up_carried ifindex up : carried (set_link_up ifindex up).
Proof. unfold set_link_up, need_rtnl. solve_carried. Qed.
Lemma wireless_interface_carried port : carried (wireless_interface port).
Proof. unfold wireless_interface, need_wireless. solve_carried. Qed.
Lemma disable_power_save_carried ifindex : carried (disable_power_save ifindex).
Proof. unfold disable_power_save. solve_carried. Qed.
#[local] Hint Resolve set_link_up_carried wireless_interface_carried disable_power_save_carried : clients.
Lemma wireless_ifindex_up_carried port : carried (wireless_ifindex_up port).
Proof. unfold wireless_ifindex_up. solve_carried. Qed.
Lemma ports_summary_carried only : carried (ports_summary only).
Proof. unfold ports_summary, need_rtnl. solve_carried. Qed.
Lemma set_port_up_carried name up : carried (set_port_up name up).
Proof. unfold set_port_up, need_rtnl. solve_carried. Qed.
Lemma status_carried : carried status.
Proof. unfold status. solve_carried. Qed.
Lemma networks_carried ifindex : carried (networks ifindex).
Proof. unfold networks, need_wireless. solve_carried. Qed.
Lemma may_change_state_carried id : carried (may_change_state id).
Proof. unfold may_change_state. solve_carried. Qed.
#[local] Hint Resolve wireless_ifindex_up_carried : clients.

Lemma autoconnect_carried ifindex : carried (with_engine (Engine.autoconnect ifindex)).
Proof. apply with_engine_carried. intros R' HR'. by apply EngineClients.autoconnect_drifts. Qed.
#[local] Hint Resolve autoconnect_carried : clients.
Lemma on_autoconnect_carried : carried on_autoconnect.
Proof. unfold on_autoconnect, begin_autoconnect. solve_carried. Qed.
Lemma secret_carried token value id : carried (with_engine (Engine.secret token value id)).
Proof. apply with_engine_carried. intros R' HR'. by apply EngineClients.secret_drifts. Qed.
Lemma link_carried e : carried (with_engine (Engine.on_link e)).
Proof. apply with_engine_carried. intros R' HR'. by apply EngineClients.on_link_drifts. Qed.
Lemma wireless_carried e : carried (with_engine (Engine.on_wireless e)).
Proof. apply with_engine_carried. intros R' HR'. by apply EngineClients.on_wireless_drifts. Qed.
Lemma frame_carried f : carried (with_engine (Engine.on_eapol f)).
Proof. apply with_engine_carried. intros R' HR'. by apply EngineClients.on_eapol_drifts. Qed.
Lemma datagram_carried b : carried (with_engine (Engine.on_dhcp_datagram b)).
Proof. apply with_engine_carried. intros R' HR'. by apply EngineClients.on_dhcp_datagram_drifts. Qed.
Lemma core_timer_carried id : carried (with_engine (Engine.on_timer id)).
Proof. apply with_engine_carried. intros R' HR'. by apply EngineClients.on_timer_drifts. Qed.
Lemma dhcp_timer_carried t : carried (with_engine (Engine.on_dhcp_timer t)).
Proof. apply with_engine_carried. intros R' HR'. by apply EngineClients.on_dhcp_timer_drifts. Qed.
Lemma resume_carried : carried (with_engine Engine.resume).
Proof. apply with_engine_carried. intros R' HR'. by apply EngineClients.resume_drifts. Qed.
Lemma shutdown_carried : carried shutdown.
Proof. apply with_engine_carried. intros R' HR'. by apply EngineClients.shut_down_drifts. Qed.
#[local] Hint Resolve link_carried frame_carried datagram_carried : clients.
Lemma on_links_carried events : carried (on_links events).
Proof. unfold on_links. solve_carried. Qed.
Lemma on_eapol_carried frames : carried (on_eapol frames).
Proof. unfold on_eapol. solve_carried. Qed.
Lemma on_dhcp_carried datagrams : carried (on_dhcp datagrams).
Proof. unfold on_dhcp. solve_carried. Qed.
Lemma rearm_carried : carried rearm.
Proof. unfold rearm. solve_carried. Qed.
Lemma start_carried : carried start.
Proof. unfold start. do 2 drifts_step; [solve_carried|apply rearm_carried]. Qed.
Lemma read_suspend_offset_carried : carried read_suspend_offset.
Proof.
  unfold read_suspend_offset. drifts_step. destruct (Engine.boot_and_monotonic _) as [[boot mono] w].
  drifts_step; [by apply on_inner_carried|apply drifts_ret, _].
Qed.
End carried.

(** ** Prompts

    The reactor prompts nobody itself: over any of its operations tokens grow,
    and a prompt outstanding was sent with its token to the client it is for. *)
Definition asks (x y : reactor * list Engine.Effect) : Prop :=
  EngineClients.prompted (inner (fst x), snd x) (inner (fst y), snd y).
#[export] Instance asks_preorder : PreOrder asks.
Proof. split; [intros x; unfold asks; reflexivity|]. intros x y z Hxy Hyz. unfold asks in *. by etrans. Qed.

Lemma lend_asks {A} (m : act daemon Engine.Effect A) : drifts EngineClients.prompted m -> drifts asks (lend m).
Proof.
  intros Hm r out. specialize (Hm (inner r) out). unfold drifts_at, lend in *.
  by destruct (m (inner r) out) as [[[a d] out']|].
Qed.
Lemma same_asks (r r' : reactor) out new :
  Engine.next_token (Engine.engine (inner r')) = Engine.next_token (Engine.engine (inner r)) ->
  Engine.pending_secret (Engine.engine (inner r')) = Engine.pending_secret (Engine.engine (inner r)) ->
  asks (r, out) (r', out ++ new).
Proof. intros Hn Hp. unfold asks. cbn [fst snd]. apply EngineClients.prompted_same; auto. Qed.
#[export] Instance asks_carries : Carries asks.
Proof.
  split; [exact _| |].
  - intros r r' out _ [_ Hp Hn _]. rewrite <- (app_nil_r out) at 2. by apply same_asks.
  - intros A m Hm. apply lend_asks, Hm, _.
Qed.

Lemma reply_asks id r : drifts asks (reply id r).
Proof. apply lend_asks. unfold Engine.send. drifts_step. by apply EngineClients.prompted_same; auto. Qed.
Lemma modify_asks f : (forall r, Engine.engine (inner (f r)) = Engine.engine (inner r)) -> drifts asks (modify f).
Proof.
  intros Hf. drifts_step. rewrite <- (app_nil_r out) at 2. specialize (Hf s). apply same_asks; by rewrite Hf.
Qed.
Lemma instant_asks : drifts asks instant_now.
Proof. apply instant_carried, _. Qed.
Lemma arm_asks k delay : drifts asks (arm k delay).
Proof. unfold arm. drifts_step; [apply instant_asks|]. by apply modify_asks. Qed.
Lemma with_engine_asks {A} (m : act daemon Engine.Effect A) :
  drifts EngineClients.prompted m -> drifts asks (with_engine m).
Proof.
  intros Hm. unfold with_engine. drifts_step; [apply instant_asks|].
  drifts_step; [by apply modify_asks|by apply lend_asks].
Qed.

#[local] Hint Resolve reply_asks arm_asks : clients.
#[local] Hint Extern 1 (drifts asks (modify _)) => apply modify_asks; done : clients.
#[local] Hint Extern 1 (drifts asks (cancel _)) => apply modify_asks; done : clients.
#[local] Hint Resolve call_carried call_or_carried need_carried wireless_interface_carried wireless_ifindex_up_carried
  ports_summary_carried set_port_up_carried status_carried networks_carried may_change_state_carried
  secret_carried on_autoconnect_carried wireless_carried core_timer_carried dhcp_timer_carried
  on_links_carried on_eapol_carried on_dhcp_carried resume_carried instant_carried
  read_suspend_offset_carried rearm_carried shutdown_carried : clients.
Ltac carry_step :=
  lazymatch goal with
  | |- drifts _ (try _ _) => apply try_carried; [exact _| |intros ?]
  | |- drifts _ (ok _) => apply drifts_ret, _
  | |- drifts _ (fails _) => apply drifts_ret, _
  | |- drifts _ (modify _) => fail
  | |- _ => drifts_step
  end.
Ltac solve_carried := repeat first [solve [eauto with clients typeclass_instances] | carry_step].

Lemma finish_scan_asks client response : drifts asks (finish_scan client response).
Proof. unfold finish_scan. solve_carried. Qed.
Lemma start_scan_asks client port : drifts asks (start_scan client port).
Proof. unfold start_scan, need_wireless. solve_carried. Qed.
Lemma answer_with_asks {A} id (f : A -> option Engine.Reply) m : drifts asks m -> drifts asks (answer_with id f m).
Proof. intros Hm. unfold answer_with. solve_carried. Qed.
#[local] Hint Resolve finish_scan_asks start_scan_asks : clients.
Ltac carry_answer := lazymatch goal with |- drifts _ (answer_with _ _ _) => apply answer_with_asks end.
Lemma connect_asks ifindex ssid id : drifts asks (with_engine (Engine.connect ifindex ssid id)).
Proof. apply with_engine_asks, EngineClients.connect_prompted. Qed.
Lemma disconnect_asks ssid id : drifts asks (with_engine (Engine.disconnect ssid id)).
Proof. apply with_engine_asks, EngineClients.disconnect_prompted. Qed.
Lemma forget_network_asks ssid id : drifts asks (with_engine (Engine.forget ssid id)).
Proof. apply with_engine_asks, EngineClients.forget_prompted. Qed.
#[local] Hint Resolve connect_asks disconnect_asks forget_network_asks : clients.
Lemma serve_asks id request : drifts asks (serve id request).
Proof. destruct request; cbn [serve]; repeat first [carry_answer | carry_step | solve [eauto with clients typeclass_instances]]. Qed.
#[local] Hint Resolve serve_asks : clients.
Lemma handle_asks id request : drifts asks (handle id request).
Proof. unfold handle. solve_carried. Qed.
#[local] Hint Resolve handle_asks : clients.
Lemma on_timer_asks : drifts asks on_timer.
Proof.
  unfold on_timer. solve_carried; [by apply modify_asks|].
  match goal with k : Engine.Key |- _ => destruct k end; cbn [on_expired]; solve_carried.
Qed.
Lemma on_wireless_asks events : drifts asks (on_wireless events).
Proof. unfold on_wireless, on_scan_done. solve_carried. Qed.
#[local] Hint Resolve on_timer_asks on_wireless_asks : clients.
Lemma dispatch_asks s : drifts asks (dispatch s).
Proof. destruct s; cbn [dispatch]; solve_carried. Qed.
Lemma check_resume_asks : drifts asks check_resume.
Proof. unfold check_resume. solve_carried. Qed.
Lemma reap_asks id : drifts asks (reap id).
Proof. unfold reap, forget. solve_carried. apply lend_asks, EngineClients.forget_client_prompted. Qed.
#[local] Hint Resolve dispatch_asks check_resume_asks reap_asks : clients.
Lemma turn_asks t : drifts asks (turn t).
Proof. unfold turn. solve_carried. Qed.
#[local] Hint Resolve turn_asks : clients.
Lemma turns_asks l : drifts asks (turns l).
Proof. induction l as [|t l IH]; cbn [turns]; solve_carried. Qed.

(** ** Accounts

    A client is owed a response while the engine or a scan waits on its
    behalf. *)
Definition pending (c : Engine.ClientId) (r : reactor) : Z := if bool_decide (c ∈ waiting r) then 1 else 0.
Definition owed (c : Engine.ClientId) (r : reactor) : Z := EngineClients.waits c (inner r) + pending c r.
Definition account (c : Engine.ClientId) (r : reactor) (out : list Engine.Effect) : Z :=
  EngineClients.answers c out + owed c r.

(** Every deadline of a scan, and every scan that is about to be ended, is a
    client's that waits for it; none waits twice. *)
Record tidy (due : list Engine.ClientId) (r : reactor) : Prop := {
  tidy_once : NoDup (waiting r);
  tidy_keys : forall c, scan_keys r c \/ c ∈ due -> c ∈ waiting r;
}.

(** Nothing to do with scans, and nothing that is not accounted for. *)
Record quiet (x y : reactor * list Engine.Effect) : Prop := {
  quiet_scans : scans (fst y) = scans (fst x);
  quiet_lent : EngineClients.lent (inner (fst x), snd x) (inner (fst y), snd y);
  quiet_balanced : EngineClients.balanced (inner (fst x), snd x) (inner (fst y), snd y);
}.
#[export] Instance quiet_preorder : PreOrder quiet.
Proof.
  split; [intros x; by split|]. intros x y z [Hs1 Hl1 Hb1] [Hs2 Hl2 Hb2].
  split; [by rewrite Hs2|by etrans..].
Qed.
#[export] Instance quiet_carries : Carries quiet.
Proof.
  split; [exact _| |].
  - intros r r' out Hs [Hw _ _ Hk]. split; [done|split; [by left|done]|by apply EngineClients.balanced_state].
  - intros A m Hm r out. pose proof (Hm _ EngineClients.lent_leaves (inner r) out) as Hl.
    pose proof (Hm _ EngineClients.balanced_leaves (inner r) out) as Hb. unfold drifts_at, lend in *.
    destruct (m (inner r) out) as [[[a d] out']|]; [by split|done].
Qed.

(** What an operation adds: [k] to one client's account. *)
Definition adds (due : list Engine.ClientId) (client : Engine.ClientId) (k : Z) (x y : reactor * list Engine.Effect) : Prop :=
  (tidy due (fst x) -> tidy due (fst y))
  /\ forall c, account c (fst y) (snd y) = account c (fst x) (snd x) + (if c =? client then k else 0).

Lemma adds_trans due client k1 k2 x y z :
  adds due client k1 x y -> adds due client k2 y z -> adds due client (k1 + k2) x z.
Proof.
  intros [Ht1 Ha1] [Ht2 Ha2]. split; [auto|]. intros c. rewrite Ha2, Ha1. destruct (c =? client); lia.
Qed.
Lemma account_ledger c (r : reactor) out : account c r out = EngineClients.ledger c (inner r) out + pending c r.
Proof. unfold account, owed, EngineClients.ledger. lia. Qed.

Lemma tidy_alike due (r r' : reactor) :
  scans r' = scans r -> (forall c, scan_keys r' c <-> scan_keys r c) -> tidy due r -> tidy due r'.
Proof.
  intros Hs Hk [Hn Ht]. unfold waiting in *. split; unfold waiting; rewrite Hs; [done|].
  intros c. rewrite Hk. apply Ht.
Qed.
(** A call of the engine on a client's behalf. *)
Lemma owes_adds due client k d out d' out' (r : reactor) :
  inner r = d -> EngineClients.owes client k (d, out) (d', out') ->
  adds due client k (r, out) (set_inner d' r, out').
Proof.
  intros <- [Ho Hk]. split; [by apply tidy_alike|]. intros c. rewrite !account_ledger. specialize (Ho c).
  cbn [fst snd set_inner inner] in *. unfold pending, waiting. cbn [set_inner scans]. lia.
Qed.
Lemma quiet_adds due client x y : quiet x y -> adds due client 0 x y.
Proof.
  intros [Hs [_ Hk] Hb]. split; [by apply tidy_alike|]. intros c. rewrite !account_ledger.
  specialize (Hb c). cbn [fst snd] in Hb. unfold pending, waiting. rewrite Hs. destruct (c =? client); lia.
Qed.

(** A client that is owed nothing. *)
Definition free (id : Engine.ClientId) (r : reactor) : Prop :=
  Engine.watcher (Engine.engine (inner r)) <> Some id /\ id ∉ waiting r.
Lemma owed_free id (r : reactor) : owed id r = 0 <-> free id r.
Proof.
  unfold owed, free, EngineClients.waits, pending. do 2 case_bool_decide; naive_solver lia.
Qed.
Lemma quiet_free id (x y : reactor * list Engine.Effect) : quiet x y -> free id (fst x) -> free id (fst y).
Proof.
  intros [Hs [Hw _] _] [Hf Hn]. unfold free, waiting. rewrite Hs. cbn [fst snd] in Hw.
  split; [by destruct Hw as [-> | ->]|done].
Qed.

(** *** Running *)
Definition pays {A} due client (k : A -> Z) (m : op A) (r : reactor) out : Prop :=
  wlp m (fun a r' out' => adds due client (k a) (r, out) (r', out')) r out.

Lemma drifts_wlp {A} (R : reactor * list Engine.Effect -> reactor * list Engine.Effect -> Prop) (m : op A) r out :
  drifts R m -> wlp m (fun _ r' out' => R (r, out) (r', out')) r out.
Proof. intros Hm. apply (Hm r out). Qed.

(** First something quiet, then the rest. *)
Lemma pays_after {A B} due client (m : op A) (k : A -> op B) kb r out :
  drifts quiet m ->
  (forall a r' out', quiet (r, out) (r', out') -> pays due client kb (k a) r' out') ->
  pays due client kb (m ≫= k) r out.
Proof.
  intros Hm Hk. apply wlp_bind. eapply wlp_mono; [by apply (drifts_wlp quiet)|]. cbn beta. intros a r' out' Hq.
  eapply wlp_mono; [by apply Hk|]. cbn beta. intros b r2 out2 Ha.
  by eapply (adds_trans _ _ 0 _ _ _ _ (quiet_adds _ _ _ _ Hq)).
Qed.
Lemma pays_quiet {A} due client (m : op A) r out : drifts quiet m -> pays due client (fun _ => 0) m r out.
Proof. intros Hm. eapply wlp_mono; [by apply (drifts_wlp quiet)|]. intros. by apply quiet_adds. Qed.

(** A final response, by itself. *)
Lemma reply_pays due id resp r out : EngineClients.is_final resp = true -> pays due id (fun _ => 1) (reply id resp) r out.
Proof.
  intros Hf. unfold pays, reply, lend, Engine.send, wlp. cbn. split; [by apply tidy_alike|].
  intros c. unfold account, owed, pending, waiting. cbn [fst snd set_inner inner scans].
  rewrite EngineClients.answers_snoc. cbn [EngineClients.answers_to]. rewrite Hf, andb_true_r, (Z.eqb_sym id c).
  destruct (c =? id); lia.
Qed.

(** What is left of a request after its steps: an answer now, or later. *)
Definition due_of {A} (f : A -> option Engine.Reply) (res : Engine.Cause + A) : Z :=
  match res with inr a => match f a with Some _ => 0 | None => 1 end | inl _ => 0 end.
Lemma answer_pays {A} due id (f : A -> option Engine.Reply) (m : op (Engine.Cause + A)) r out :
  (forall a resp, f a = Some resp -> EngineClients.is_final resp = true) ->
  pays due id (due_of f) m r out -> pays due id (fun _ => 1) (answer_with id f m) r out.
Proof.
  intros Hf Hm. apply wlp_bind. eapply wlp_mono; [exact Hm|]. cbn beta. intros res r1 out1 Ha.
  assert (Hr : forall resp, EngineClients.is_final resp = true -> adds due id 0 (r, out) (r1, out1) ->
    wlp (reply id resp) (fun _ r' out' => adds due id 1 (r, out) (r', out')) r1 out1).
  { intros resp Hf' Ha'. apply (wlp_mono _ _ _ _ _ (reply_pays due id resp r1 out1 Hf')). intros _ r2 out2 Hb.
    by apply (adds_trans _ _ 0 1 _ _ _ Ha'). }
  destruct res as [e|a]; cbn [due_of] in Ha; [by apply Hr|].
  specialize (Hf a). destruct (f a) as [resp|]; cbn [with_some]; [|by apply wlp_ret].
  apply Hr; [by apply Hf|done].
Qed.

(** *** Scans *)

Lemma without_scan_clients c l : map sc_client (without_scan c l) = filter (fun x => x <> c) (map sc_client l).
Proof.
  induction l as [|s l IH]; [done|]. unfold without_scan in *. cbn [List.filter map].
  rewrite filter_cons. destruct (Z.eqb_spec (sc_client s) c) as [He|He]; cbn [negb].
  - rewrite decide_False by (intros Hn; by apply Hn). exact IH.
  - rewrite decide_True by done. cbn [map]. by rewrite IH.
Qed.
Lemma scan_keys_cancel c (d : daemon) x :
  EngineClients.scan_keys (Engine.set_timers (Timers.cancel (Engine.KScan c) (Engine.timers (Engine.ports d))) d) x
  <-> x <> c /\ EngineClients.scan_keys d x.
Proof.
  unfold EngineClients.scan_keys. cbn [Engine.ports Engine.set_timers Engine.on_ports Engine.timers].
  rewrite Timers.elem_keys_cancel. split; intros [Hn Hin]; (split; [congruence|done]).
Qed.

(** A scan ends: the client that waited for it is answered, and no other. *)
Lemma finish_scan_spec due c resp r out :
  tidy (c :: due) r -> c ∉ due -> EngineClients.is_final resp = true ->
  wlp (finish_scan c resp) (fun _ r' out' => tidy due r' /\ forall x, account x r' out' = account x r out) r out.
Proof.
  intros [Hn Hk] Hc Hf. unfold finish_scan, cancel, on_inner, reply, lend, Engine.send, wlp. cbn.
  assert (Hin : c ∈ waiting r) by (apply Hk; right; left).
  split; [split|].
  - unfold waiting. cbn [scans set_inner set_scans]. rewrite without_scan_clients. by apply NoDup_filter.
  - intros x. unfold scan_keys, waiting. cbn [scans inner set_inner set_scans].
    rewrite without_scan_clients, list_elem_of_filter, scan_keys_cancel. intros [[Hne Hx]|Hx].
    + split; [done|]. apply Hk. by left.
    + split; [by intros ->|]. apply Hk. right. by right.
  - intros x. unfold account, owed, pending, waiting. cbn [scans inner set_inner set_scans].
    rewrite without_scan_clients, EngineClients.answers_snoc. cbn [EngineClients.answers_to].
    rewrite Hf, andb_true_r. unfold EngineClients.waits. cbn [Engine.engine Engine.set_timers Engine.on_ports].
    destruct (Z.eqb_spec c x) as [<-|Hne].
    + rewrite (bool_decide_false (c ∈ filter _ _)) by (rewrite list_elem_of_filter; naive_solver).
      rewrite (bool_decide_true (c ∈ map sc_client (scans r))) by done. lia.
    + assert (He : bool_decide (x ∈ filter (fun y => y <> c) (map sc_client (scans r)))
                   = bool_decide (x ∈ map sc_client (scans r)))
        by (apply bool_decide_ext; rewrite list_elem_of_filter; naive_solver).
      rewrite He. lia.
Qed.

(** What keeps every account as it is. *)
Definition level due (x y : reactor * list Engine.Effect) : Prop :=
  tidy due (fst y) /\ forall c, account c (fst y) (snd y) = account c (fst x) (snd x).
Lemma quiet_level due x y z : level due x y -> quiet y z -> level due x z.
Proof.
  intros [Ht Ha] Hq. destruct (quiet_adds due 0 _ _ Hq) as [Ht' Ha']. split; [by apply Ht'|].
  intros c. rewrite Ha', Ha. destruct (c =? 0); lia.
Qed.
Lemma level_refl due x : tidy due (fst x) -> level due x x.
Proof. by split. Qed.

Lemma finish_scans l resp x r out :
  EngineClients.is_final resp = true -> NoDup l -> level l x (r, out) ->
  wlp (for_each l (fun c => finish_scan c resp)) (fun _ r' out' => level [] x (r', out')) r out.
Proof.
  intros Hf. revert r out. induction l as [|c l IH]; intros r out Hn Hl; cbn [for_each]; [by apply wlp_ret|].
  apply NoDup_cons in Hn as [Hc Hn]. destruct Hl as [Ht Ha].
  apply wlp_bind. eapply wlp_mono; [by apply finish_scan_spec|]. cbn beta. intros _ r' out' [Ht' Ha'].
  apply IH; [done|]. split; [done|]. intros y. cbn [fst snd] in *. by rewrite Ha', Ha.
Qed.

Lemma tidy_weaken due due' (r : reactor) : (forall c, c ∈ due' -> c ∈ waiting r) -> tidy due r -> tidy due' r.
Proof. intros Hd [Hn Hk]. split; [done|]. intros c [Hc|Hc]; [apply Hk; by left|by apply Hd]. Qed.
Lemma waiting_on_sub ifindex (r : reactor) : NoDup (waiting r) ->
  NoDup (waiting_on ifindex r) /\ forall c, c ∈ waiting_on ifindex r -> c ∈ waiting r.
Proof.
  unfold waiting_on, waiting. induction (scans r) as [|s l IH]; cbn [List.filter map]; [done|].
  intros [Hs Hn]%NoDup_cons. destruct (IH Hn) as [IHn IHin]. destruct (sc_ifindex s =? ifindex); cbn [map].
  - split; [apply NoDup_cons; split; [by intros ?%IHin|done]|].
    intros c [->|Hc]%elem_of_cons; [left|right; by apply IHin].
  - split; [done|]. intros c Hc. right. by apply IHin.
Qed.

Lemma arm_runs k delay (Q : unit -> reactor -> list Engine.Effect -> Prop) r out :
  (forall t w, Q tt (set_inner (Engine.set_timers (Timers.arm k delay t (Engine.timers (Engine.ports (inner r))))
                                 (Engine.set_world w (inner r))) r) out) ->
  wlp (arm k delay) Q r out.
Proof.
  intros HQ. unfold arm, instant_now, on_inner. apply wlp_bind, wlp_get. destruct (Engine.instant _) as [t w].
  apply wlp_bind, wlp_modify, wlp_ret, wlp_modify. apply HQ.
Qed.

Lemma start_scan_pays id port r out :
  free id r -> tidy [] r -> pays [] id (due_of (fun _ : unit => None)) (start_scan id port) r out.
Proof.
  intros Hfree Ht. unfold start_scan, need_wireless, call.
  assert (Htry : forall A B (m : op (Engine.Cause + A)) (k : A -> op (Engine.Cause + B)) f r1 out1,
    quiet (r, out) (r1, out1) -> drifts quiet m ->
    (forall a r2 out2, quiet (r, out) (r2, out2) -> pays [] id (due_of f) (k a) r2 out2) ->
    pays [] id (due_of f) (try m k) r1 out1).
  { intros A B m k f r1 out1 Hq Hm Hk. unfold try. apply pays_after; [done|]. intros res r2 out2 Hq2.
    destruct res as [e|a]; [|by apply Hk; etrans]. apply wlp_ret. apply (quiet_adds [] id). reflexivity. }
  apply Htry; [reflexivity|by apply wireless_interface_carried, _|]. intros [ifindex name] r1 out1 Hq1.
  apply Htry; [done|by apply need_carried, _|]. intros _ r2 out2 Hq2.
  apply pays_after; [by apply (call_carried quiet)|]. intros res r3 out3 Hq3. cbv zeta.
  apply Htry; [by etrans|apply drifts_ret, _|]. intros _ r4 out4 Hq4.
  destruct (quiet_free id _ _ Hq4 Hfree) as [_ Hw]. cbn [fst] in Hw.
  assert (Ht4 : tidy [] r4) by (by apply (quiet_adds [] id _ _ Hq4)). clear Hq1 Hq2 Hq3 Hq4 Htry.
  destruct Ht4 as [Hn Hk].
  assert (Hws : forall x l s, x ∈ map sc_client (l ++ [s]) <-> x ∈ map sc_client l \/ x = sc_client s).
  { intros x l s. rewrite map_app, elem_of_app. cbn. by rewrite list_elem_of_singleton. }
  unfold pays. apply wlp_bind, wlp_modify, wlp_bind, arm_runs. intros t w.
  unfold reply, lend, Engine.send, ok, wlp. cbn.
  split.
  - intros _. split; unfold waiting; cbn [scans set_inner set_scans fst].
    + rewrite map_app. apply NoDup_app. split_and!; [done| |apply NoDup_singleton]. cbn.
      intros c Hc ->%list_elem_of_singleton. by apply Hw.
    + intros c [Hc|Hc]; [|by apply elem_of_nil in Hc]. apply Hws.
      unfold scan_keys, EngineClients.scan_keys, Timers.arm in Hc.
      cbn [inner set_inner set_scans Engine.ports Engine.set_timers Engine.set_world Engine.on_ports Engine.timers fst] in Hc.
      apply Timers.elem_keys_arm in Hc as [[= ->]|Hc]; [by right|left]. apply Hk. by left.
  - intros c. unfold account, owed, pending, waiting, EngineClients.waits.
    cbn [inner scans set_inner set_scans Engine.engine Engine.set_timers Engine.set_world Engine.on_ports fst snd].
    rewrite EngineClients.answers_snoc. cbn [EngineClients.answers_to EngineClients.is_final]. rewrite andb_false_r.
    destruct (Z.eqb_spec c id) as [->|Hne]; cbn [due_of].
    + rewrite (bool_decide_true (id ∈ _)) by (apply Hws; by right). rewrite (bool_decide_false (id ∈ map _ (scans r4))) by done. lia.
    + assert (He : bool_decide (c ∈ map sc_client (scans r4 ++ [{| sc_client := id; sc_ifindex := ifindex |}]))
                   = bool_decide (c ∈ map sc_client (scans r4)))
        by (apply bool_decide_ext; rewrite Hws; cbn; naive_solver).
      rewrite He. lia.
Qed.

(** *** Requests *)

Lemma with_engine_pays {A} due id (k : A -> Z) (m : act daemon Engine.Effect A) r out :
  (forall d out, Engine.watcher (Engine.engine d) <> Some id ->
     wlp m (fun a d' out' => EngineClients.owes id (k a) (d, out) (d', out')) d out) ->
  free id r -> pays due id k (with_engine m) r out.
Proof.
  intros Hm Hf. unfold with_engine. apply pays_after; [by apply instant_carried, _|]. intros t r1 out1 Hq1.
  apply pays_after; [by apply on_inner_carried; [exact _|]|]. intros _ r2 out2 Hq2.
  assert (Hq : quiet (r, out) (r2, out2)) by (by etrans).
  destruct (quiet_free id _ _ Hq Hf) as [Hw _]. specialize (Hm (inner r2) out2 Hw). unfold pays, wlp, lend in *.
  destruct (m (inner r2) out2) as [[[a d'] out']|]; [|done]. by apply (owes_adds _ _ _ (inner r2) out2).
Qed.

Lemma pays_same {A} due id (k k' : A -> Z) m r out : (forall a, k a = k' a) -> pays due id k m r out -> pays due id k' m r out.
Proof. intros Hk Hp. eapply wlp_mono; [exact Hp|]. cbn beta. intros a r' out'. by rewrite Hk. Qed.
Lemma pays_quiet_answer {A} due id (f : A -> option Engine.Reply) (m : op (Engine.Cause + A)) r out :
  drifts quiet m -> (forall a, exists resp, f a = Some resp /\ EngineClients.is_final resp = true) ->
  pays due id (fun _ => 1) (answer_with id f m) r out.
Proof.
  intros Hm Hf. apply answer_pays.
  - intros a resp Ha. destruct (Hf a) as (resp' & Ha' & ?). congruence.
  - apply (pays_same _ _ (fun _ => 0)); [|by apply pays_quiet]. intros [e|a]; [done|]. cbn. by destruct (Hf a) as (? & -> & _).
Qed.

(** Every request is answered, but a secret that was wanted. *)
Definition answerable (q : Ipc.Request) : bool := match q with Ipc.Secret _ _ => false | _ => true end.

Lemma connect_pays id ssid port r out :
  free id r ->
  pays [] id (fun _ => 1)
    (answer_with id (fun _ => None)
       (try (wireless_ifindex_up port) (fun ifindex => with_engine (Engine.connect ifindex ssid id)))) r out.
Proof.
  intros Hf. apply answer_pays; [done|]. unfold try. apply pays_after; [by apply wireless_ifindex_up_carried, _|].
  intros res r1 out1 Hq. destruct res as [e|ifindex]; [by apply wlp_ret, quiet_adds|].
  apply (pays_same _ _ EngineClients.taken); [by intros [|[]]|].
  apply with_engine_pays; [|by apply (quiet_free id _ _ Hq)]. intros d o Hw. by apply EngineClients.connect_owes.
Qed.
Lemma disconnect_pays id ssid r out : free id r -> pays [] id (fun _ => 1) (serve id (Ipc.Disconnect ssid)) r out.
Proof.
  intros Hf. cbn [serve]. unfold pays. apply wlp_bind.
  eapply wlp_mono; [apply (with_engine_pays [] id EngineClients.taken)|].
  - intros d o Hw. by apply EngineClients.disconnect_owes.
  - done.
  - cbn beta. intros [e|[]] r1 out1 Ha; cbn [EngineClients.taken] in Ha.
    + eapply wlp_mono; [by apply (reply_pays [] id)|]. cbn beta. intros _ r2 out2 Hb. by apply (adds_trans _ _ 0 1 _ _ _ Ha).
    + apply wlp_modify. by apply (adds_trans _ _ 1 0 _ _ _ Ha), quiet_adds, carry_own.
Qed.
Lemma forget_pays id ssid r out : free id r -> pays [] id (fun _ => 1) (serve id (Ipc.Forget ssid)) r out.
Proof.
  intros Hf. cbn [serve]. apply answer_pays; [by intros [] resp [= <-]|].
  apply (pays_same _ _ (fun res => match res with inr true => 1 | _ => 0 end)); [by intros [|[]]|].
  apply with_engine_pays; [|done]. intros d o Hw. by apply EngineClients.forget_owes.
Qed.

Lemma serve_pays id q r out :
  answerable q = true -> free id r -> tidy [] r -> pays [] id (fun _ => 1) (serve id q) r out.
Proof.
  intros Hq Hf Ht. destruct q; cbn [serve] in *; try done.
  - apply pays_quiet_answer; [by apply ports_summary_carried, _|by eexists].
  - apply pays_quiet_answer; [by apply ports_summary_carried, _|by eexists].
  - apply pays_quiet_answer; [by apply set_port_up_carried, _|by eexists].
  - apply answer_pays; [done|by apply start_scan_pays].
  - apply pays_after; [by apply own_carried; [exact _|]|]. intros _ r1 out1 Hq1. apply connect_pays.
    by apply (quiet_free id _ _ Hq1).
  - by apply disconnect_pays.
  - by apply forget_pays.
  - apply pays_after; [by apply status_carried, _|]. intros s r1 out1 _. by apply reply_pays.
  - unfold pays. apply wlp_bind. eapply wlp_mono; [by apply (reply_pays [] id)|]. cbn beta. intros _ r1 out1 Ha.
    apply wlp_modify. by apply (adds_trans _ _ 1 0 _ _ _ Ha), quiet_adds, carry_own.
Qed.

(** The reactor after a call that only read the clock. *)
Definition ticked (t : Z) (w : W) (r : reactor) : reactor :=
  set_inner (Engine.at_time t (Engine.set_world w (inner r))) r.

Lemma with_engine_runs {A} (m : act (Engine.Daemon SaeP DotP W) Engine.Effect A) (r : reactor) out :
  with_engine m r out
  = let (t, w) := Engine.instant (Engine.world (Engine.ports (inner r))) in lend m (ticked t w r) out.
Proof.
  unfold with_engine, instant_now, on_inner, mbind, act_bind, get_state. destruct (Engine.instant _) as [t w].
  reflexivity.
Qed.
(** Whether a secret is the one that was asked of this client: then it is
    taken without a word, and any other is refused. *)
Definition wanted (token : Z) (id : Engine.ClientId) (r : reactor) : bool :=
  match Engine.pending_secret (Engine.engine (inner r)) with
  | Some p => (Engine.ps_token p =? token) && (Engine.ps_client p =? id)
  | None => false
  end.
(** The final responses a request is good for. *)
Definition bill (id : Engine.ClientId) (q : Ipc.Request) (r : reactor) : Z :=
  match q with Ipc.Secret token _ => if wanted token id r then 0 else 1 | _ => 1 end.

Lemma secret_result id token value (r : reactor) out :
  wlp (with_engine (Engine.secret token value id))
    (fun res _ _ => match res with inr _ => wanted token id r = true | inl _ => wanted token id r = false end) r out.
Proof.
  unfold wlp. rewrite with_engine_runs. destruct (Engine.instant _) as [t w].
  unfold lend, Engine.secret, wanted, mbind, act_bind, get_state.
  cbn [ticked inner set_inner Engine.engine Engine.at_time Engine.set_world Engine.on_ports].
  destruct (Engine.pending_secret _) as [p|]; [|done].
  destruct ((Engine.ps_token p =? token) && (Engine.ps_client p =? id)); [|done].
  cbn -[Engine.feed]. match goal with |- context [Engine.feed ?i ?d ?o] => by destruct (Engine.feed i d o) as [[[[] ?] ?]|] end.
Qed.
Lemma secret_pays id token value r out :
  wlp (serve id (Ipc.Secret token value))
    (fun _ r' out' => adds [] id (if wanted token id r then 0 else 1) (r, out) (r', out')) r out.
Proof.
  cbn [serve]. apply wlp_bind. pose proof (secret_result id token value r out) as Hres.
  pose proof (drifts_wlp quiet _ r out (secret_carried quiet token value id)) as Hq. unfold wlp in Hres, Hq. unfold wlp at 1.
  destruct (with_engine _ r out) as [[[res r1] out1]|]; [|done]. apply (quiet_adds [] id) in Hq.
  destruct res as [e|[]]; cbn [with_some]; rewrite Hres.
  - eapply wlp_mono; [by apply (reply_pays [] id)|]. cbn beta. intros _ r2 out2. by apply (adds_trans _ _ 0 1 _ _ _ Hq).
  - by apply wlp_ret.
Qed.

Lemma handle_spec id q r out :
  (answerable q = true -> free id r) -> tidy [] r ->
  wlp (handle id q) (fun _ r' out' => adds [] id (bill id q r) (r, out) (r', out')) r out.
Proof.
  intros Hf Ht. destruct (answerable q) eqn:Hans; [|destruct q; try done; by apply secret_pays].
  replace (bill id q r) with 1 by (by destruct q). unfold handle. apply wlp_bind.
  assert (Hq : drifts quiet (if Ipc.is_state_changing q then may_change_state id else mret true)).
  { destruct (Ipc.is_state_changing q); [by apply may_change_state_carried, _|apply drifts_ret, _]. }
  eapply wlp_mono; [by apply (drifts_wlp quiet)|]. cbn beta. intros allowed r1 out1 Hq1.
  pose proof (quiet_adds [] id _ _ Hq1) as Ha1. assert (Ht1 : tidy [] r1) by (by apply Ha1).
  assert (Hone : forall m : op unit, pays [] id (fun _ => 1) m r1 out1 ->
    wlp m (fun _ r' out' => adds [] id 1 (r, out) (r', out')) r1 out1).
  { intros m Hm. eapply wlp_mono; [exact Hm|]. cbn beta. intros _ r2 out2. by apply (adds_trans _ _ 0 1 _ _ _ Ha1). }
  destruct allowed; apply Hone; [|by apply reply_pays].
  apply serve_pays; [done| |done]. by apply (quiet_free id _ _ Hq1), Hf.
Qed.

(** *** Events *)

(** Whatever came before, the accounts stay as they were. *)
Definition steady {A} (m : op A) : Prop :=
  forall x r out, level [] x (r, out) -> wlp m (fun _ r' out' => level [] x (r', out')) r out.

Lemma steady_quiet {A} (m : op A) : drifts quiet m -> steady m.
Proof.
  intros Hm x r out Hl. eapply wlp_mono; [by apply (drifts_wlp quiet)|]. cbn beta. intros a r' out'. by apply quiet_level.
Qed.
Lemma steady_bind {A B} (m : op A) (k : A -> op B) : steady m -> (forall a, steady (k a)) -> steady (m ≫= k).
Proof.
  intros Hm Hk x r out Hl. apply wlp_bind. eapply wlp_mono; [by apply Hm|]. cbn beta. intros a r' out'. apply Hk.
Qed.
Lemma steady_get {B} (k : reactor -> op B) : (forall r, steady (k r)) -> steady (get_state ≫= k).
Proof. intros Hk x r out Hl. apply wlp_get. by apply Hk. Qed.
Lemma steady_when b (m : op unit) : steady m -> steady (when b m).
Proof. intros Hm. destruct b; [done|]. intros x r out Hl. by apply wlp_ret. Qed.
Lemma steady_for_each {A} (l : list A) (k : A -> op unit) : (forall a, steady (k a)) -> steady (for_each l k).
Proof.
  intros Hk x r out Hl. apply (wlp_for_each l k (fun _ r' out' => level [] x (r', out'))); [done|]. intros a l' r' out' Hl'.
  by apply Hk.
Qed.
(** Scans that end, all of them waited for. *)
Lemma steady_finish resp (who : reactor -> list Engine.ClientId) :
  EngineClients.is_final resp = true ->
  (forall r, NoDup (waiting r) -> NoDup (who r) /\ forall c, c ∈ who r -> c ∈ waiting r) ->
  steady (r ← get_state; for_each (who r) (fun c => finish_scan c resp)).
Proof.
  intros Hf Hwho x r out [Ht Ha]. apply wlp_get. destruct (Hwho r) as [Hn Hin]; [by apply Ht|].
  apply finish_scans; [done|done|]. split; [|done]. by apply (tidy_weaken []).
Qed.

Lemma on_scan_done_steady ifindex : steady (on_scan_done ifindex).
Proof.
  intros x r out Hl. unfold on_scan_done. apply wlp_get.
  destruct (waiting_on ifindex r) as [|c l] eqn:Hw; [by apply wlp_ret|].
  apply wlp_bind. eapply wlp_mono; [by apply (drifts_wlp quiet), networks_carried, _|]. cbn beta. intros res r1 out1 Hq.
  pose proof (quiet_scans _ _ Hq) as Hs. cbn [fst] in Hs. pose proof (quiet_level _ _ _ _ Hl Hq) as [Ht Ha].
  destruct (waiting_on_sub ifindex r1) as [Hn Hin]; [by apply Ht|].
  assert (Hw1 : waiting_on ifindex r1 = c :: l) by (unfold waiting_on in *; by rewrite Hs).
  rewrite Hw1 in Hn, Hin. apply finish_scans; [by destruct res|done|]. split; [|done]. by apply (tidy_weaken []).
Qed.
Lemma aborted_steady ifindex resp : EngineClients.is_final resp = true ->
  steady (r ← get_state; for_each (waiting_on ifindex r) (fun c => finish_scan c resp)).
Proof. intros Hf. apply steady_finish; [done|]. intros r. apply waiting_on_sub. Qed.

Lemma on_wireless_steady events : steady (on_wireless events).
Proof.
  unfold on_wireless. apply steady_get. intros r. apply steady_when, steady_for_each. intros e.
  apply steady_bind; [|intros _; apply steady_quiet, wireless_carried, _].
  destruct e; try (apply steady_quiet, drifts_ret, _).
  - apply on_scan_done_steady.
  - by apply aborted_steady.
Qed.

Lemma check_resume_steady : steady check_resume.
Proof.
  unfold check_resume. apply steady_bind; [apply steady_quiet, read_suspend_offset_carried, _|]. intros offset.
  apply steady_get. intros r. apply steady_bind; [|intros _; apply steady_quiet, own_carried; [exact _|done]].
  apply steady_when. apply steady_bind; [apply steady_quiet, resume_carried, _|]. intros _.
  change (steady ((r ← get_state; _ ← for_each (waiting r) (fun client =>
      finish_scan client (Engine.RspError (Engine.CText "scan interrupted by suspend")));
    _ ← modify (set_auto_attempts 0); when (autoconnect r) (arm Engine.KAutoconnect 0)))).
  intros x r1 out Hl. apply wlp_get, wlp_bind. destruct Hl as [Ht Ha].
  eapply wlp_mono; [apply (finish_scans _ _ x); [done|by apply Ht|split; [by apply (tidy_weaken [])|done]]|].
  cbn beta. intros _ r2 out2 Hl.
  apply (steady_bind (modify (set_auto_attempts 0)) (fun _ => when (autoconnect r1) (arm Engine.KAutoconnect 0)));
    [|intros _; apply steady_when|done].
  - by apply steady_quiet, own_carried; [exact _|].
  - by apply steady_quiet, arm_carried; [exact _|].
Qed.

(** The deadlines of scans among those that expired. *)
Definition scan_ids (l : list Engine.Key) : list Engine.ClientId :=
  omap (fun k => match k with Engine.KScan c => Some c | _ => None end) l.
Lemma elem_scan_ids l c : c ∈ scan_ids l <-> Engine.KScan c ∈ l.
Proof.
  unfold scan_ids. rewrite list_elem_of_omap. split; [|by intros ?; exists (Engine.KScan c)].
  intros (k & Hk & Hc). destruct k; by simplify_eq.
Qed.
Lemma NoDup_scan_ids l : NoDup l -> NoDup (scan_ids l).
Proof.
  induction 1 as [|k l Hk Hn IH]; [constructor|]. destruct k; cbn; try done.
  constructor; [|done]. by rewrite elem_scan_ids.
Qed.

Lemma expired_level l x r out :
  NoDup (scan_ids l) -> level (scan_ids l) x (r, out) ->
  wlp (for_each l on_expired) (fun _ r' out' => level [] x (r', out')) r out.
Proof.
  revert r out. induction l as [|k l IH]; intros r out Hn Hl; cbn [for_each]; [by apply wlp_ret|].
  apply wlp_bind. destruct k as [id|client| |t]; cbn [on_expired scan_ids omap list_omap] in *.
  2: { apply NoDup_cons in Hn as [Hc Hn]. destruct Hl as [Ht Ha].
       eapply wlp_mono; [by apply finish_scan_spec|]. cbn beta. intros _ r' out' [Ht' Ha']. apply IH; [done|].
       split; [done|]. intros c. cbn [fst snd] in *. by rewrite Ha', Ha. }
  all: (eapply wlp_mono; [apply (drifts_wlp quiet)|cbn beta; intros _ r' out' Hq; apply IH; [done|by eapply quiet_level]]).
  - by apply core_timer_carried, _.
  - by apply on_autoconnect_carried, _.
  - by apply dhcp_timer_carried, _.
Qed.

Lemma on_timer_level x r out :
  NoDup (Timers.keys (Engine.timers (Engine.ports (inner r)))) -> level [] x (r, out) ->
  wlp on_timer (fun _ r' out' => level [] x (r', out')) r out.
Proof.
  intros Hn [[Hw Hk] Ha]. unfold on_timer, instant_now, on_inner. apply wlp_bind, wlp_bind, wlp_get.
  destruct (Engine.instant _) as [t w]. apply wlp_bind, wlp_modify, wlp_ret, wlp_get.
  cbn [inner set_inner Engine.ports Engine.set_world Engine.on_ports Engine.timers].
  pose proof (Timers.NoDup_expired t _ Hn) as Hnd.
  pose proof (Timers.elem_keys_expired t (Engine.timers (Engine.ports (inner r)))) as Hel.
  destruct (Timers.expired t _) as [expired rest]. cbn [fst snd] in *. apply wlp_bind, wlp_modify.
  apply NoDup_app in Hnd as [Hnd _]. apply expired_level; [by apply NoDup_scan_ids|]. split; [split; [done|]|done].
  intros c Hc. apply Hk. left. unfold scan_keys, EngineClients.scan_keys in *. apply Hel.
  destruct Hc as [Hc|Hc%elem_scan_ids]; [by right|by left].
Qed.
End reactor.

(** ** Histories

    What the loop does, one step at a time. *)
Inductive Step :=
| Start
| Resume
| Arrive (l : list (Engine.ClientId * Auth.Peer))
| Ask (id : Engine.ClientId) (q : Ipc.Request)
| Event (s : Source)
| Gone (id : Engine.ClientId)
| Rearm
| Stop.

Definition asked_in (c : Engine.ClientId) (st : Step) : Z :=
  match st with Ask id q => if (c =? id) && answerable q then 1 else 0 | _ => 0 end.
(** The requests of a client, but for the secrets it offered. *)
Definition asked (c : Engine.ClientId) (l : list Step) : Z := foldr (fun st n => asked_in c st + n) 0 l.
Definition left (c : Engine.ClientId) (l : list Step) : bool :=
  existsb (fun st => match st with Gone id => id =? c | _ => false end) l.

Definition source_steps (s : Source) : list Step :=
  match s with
  | SListener accepted =>
      Arrive (map fst accepted) :: flat_map (fun '(id, _, requests) => map (Ask id) requests) accepted
  | SClient id requests => map (Ask id) requests
  | _ => [Event s]
  end.
Definition turn_steps (t : Turn) : list Step :=
  Resume :: flat_map source_steps (ready t) ++ map Gone (gone t) ++ [Rearm].

Section history.
Context `{Crypto.CryptoLaws} {SaeP DotP : Type} `{Crypto.PmkProviderSafe SaeP} `{Crypto.PmkProviderSafe DotP}
  {build : Conn.Build SaeP DotP} `{!ConnProps.BuildSafe build} `{Profile.Json} {W : Type} `{Engine.KernelOk W}.

Abbreviation reactor := (Reactor SaeP DotP W).
Abbreviation op := (act reactor Engine.Effect).

Definition step_op (st : Step) : op unit :=
  match st with
  | Start => start
  | Resume => check_resume
  | Arrive l => modify (fun r => set_clients (clients r ++ l) r)
  | Ask id q => handle id q
  | Event s => dispatch s
  | Gone id => reap id
  | Rearm => rearm
  | Stop => shutdown
  end.
Definition play (l : list Step) : op unit := for_each l step_op.

(** The loop is such a play. *)
Lemma for_each_app {A} (l l' : list A) (k : A -> op unit) r out :
  for_each (l ++ l') k r out = (_ ← for_each l k; for_each l' k) r out.
Proof.
  revert r out. induction l as [|a l IH]; intros r out; [done|]. cbn [app for_each]. unfold mbind, act_bind in *.
  destruct (k a r out) as [[[[] r1] out1]|]; [apply IH|done].
Qed.
Lemma for_each_map {A B} (f : B -> A) (l : list B) (k : A -> op unit) r out :
  for_each (map f l) k r out = for_each l (fun b => k (f b)) r out.
Proof.
  revert r out. induction l as [|b l IH]; intros r out; [done|]. cbn [map for_each]. unfold mbind, act_bind in *.
  destruct (k (f b) r out) as [[[[] r1] out1]|]; [apply IH|done].
Qed.
Lemma for_each_flat {A B} (f : B -> list A) (l : list B) (k : A -> op unit) (k' : B -> op unit) r out :
  (forall b r out, b ∈ l -> for_each (f b) k r out = k' b r out) ->
  for_each (flat_map f l) k r out = for_each l k' r out.
Proof.
  revert r out. induction l as [|b l IH]; intros r out Hk; [done|]. cbn [flat_map]. rewrite for_each_app.
  cbn [for_each]. unfold mbind, act_bind in *. rewrite Hk by left.
  destruct (k' b r out) as [[[[] r1] out1]|]; [|done]. apply IH. intros. apply Hk. by right.
Qed.

Lemma dispatch_plays s r out : play (source_steps s) r out = dispatch s r out.
Proof.
  assert (Hone : play [Event s] r out = dispatch s r out).
  { unfold play. cbn [for_each step_op]. unfold mbind, act_bind. by destruct (dispatch s r out) as [[[[] ?] ?]|]. }
  destruct s; try exact Hone; unfold play; cbn [source_steps dispatch].
  - cbn [for_each step_op]. unfold mbind, act_bind. cbn [modify]. apply for_each_flat.
    intros [[id p] requests] r' out' _. by rewrite for_each_map.
  - by rewrite for_each_map.
Qed.
Lemma turn_plays t r out : play (turn_steps t) r out = turn t r out.
Proof.
  unfold play, turn_steps, turn. cbn [for_each step_op]. unfold mbind, act_bind.
  destruct (check_resume r out) as [[[[] r1] out1]|]; [|done]. rewrite for_each_app. unfold mbind, act_bind.
  rewrite (for_each_flat _ _ step_op dispatch) by (intros; apply dispatch_plays).
  destruct (for_each (ready t) dispatch r1 out1) as [[[[] r2] out2]|]; [|done].
  rewrite for_each_app. unfold mbind, act_bind. rewrite for_each_map. cbn [step_op].
  destruct (for_each (gone t) _ r2 out2) as [[[[] r3] out3]|]; [|done].
  cbn [for_each step_op]. unfold mbind, act_bind. by destruct (rearm r3 out3) as [[[[] ?] ?]|].
Qed.

(** *** One thing at a time

    A client asks nothing more while it is owed a response (an answer to a
    prompt apart). *)
Definition event_ok (s : Source) : Prop :=
  match s with SListener _ | SClient _ _ => False | _ => source_ok s end.
Definition step_ok (st : Step) : Prop := match st with Event s => event_ok s | _ => True end.
Definition polite_step (r : reactor) (st : Step) : Prop :=
  match st with
  | Ask id q => answerable q = true -> owed id r = 0
  | Event s => event_ok s
  | _ => True
  end.
Fixpoint polite (l : list Step) (r : reactor) (out : list Engine.Effect) : Prop :=
  match l with
  | [] => True
  | st :: l => polite_step r st
      /\ match step_op st r out with Some (_, r', out') => polite l r' out' | None => True end
  end.

(** As the daemon starts: nobody waits. *)
Definition fresh (r : reactor) : Prop :=
  cold r /\ scans r = [] /\ Engine.watcher (Engine.engine (inner r)) = None
  /\ Engine.pending_secret (Engine.engine (inner r)) = None.
Lemma new_fresh auto wireless rtnl links w store : fresh (Reactor_new auto wireless rtnl links w store).
Proof. unfold fresh, cold, Reactor_new. by destruct (Engine.boot_and_monotonic w) as [[? ?] ?]. Qed.

Lemma step_keeps st : step_ok st -> keeps [] (step_op st).
Proof.
  intros Hp. destruct st; cbn [step_op step_ok] in *.
  - apply start_keeps.
  - apply check_resume_keeps.
  - by apply keeps_modify.
  - apply handle_keeps.
  - apply dispatch_keeps. by destruct s.
  - apply reap_keeps.
  - apply rearm_keeps.
  - apply shutdown_keeps.
Qed.
Lemma polite_ok st r : polite_step r st -> step_ok st.
Proof. by destruct st. Qed.

(** The secrets a client offered that were not wanted when it did. *)
Definition unwanted_in (c : Engine.ClientId) (r : reactor) (st : Step) : Z :=
  match st with
  | Ask id (Ipc.Secret token _) => if (c =? id) && negb (wanted token id r) then 1 else 0
  | _ => 0
  end.
Fixpoint unwanted (c : Engine.ClientId) (l : list Step) (r : reactor) (out : list Engine.Effect) : Z :=
  match l with
  | [] => 0
  | st :: l => unwanted_in c r st
      + match step_op st r out with Some (_, r', out') => unwanted c l r' out' | None => 0 end
  end.

(** What a step does to the account of a client that stays. *)
Definition settles (st : Step) (x y : reactor * list Engine.Effect) : Prop :=
  tidy [] (fst y) /\ forall c, st <> Gone c ->
    account c (fst y) (snd y) = account c (fst x) (snd x) + asked_in c st + unwanted_in c (fst x) st.

Lemma level_settles st x y :
  (forall c r, asked_in c st = 0 /\ unwanted_in c r st = 0) -> level [] x y -> settles st x y.
Proof. intros Hz [Ht Ha]. split; [done|]. intros c _. destruct (Hz c (fst x)) as [-> ->]. rewrite Ha. lia. Qed.
Lemma steady_settles st (m : op unit) r out :
  (forall c r, asked_in c st = 0 /\ unwanted_in c r st = 0) -> tidy [] r -> steady m ->
  wlp m (fun _ r' out' => settles st (r, out) (r', out')) r out.
Proof.
  intros Hz Ht Hm. eapply wlp_mono; [by apply (Hm (r, out))|]. cbn beta. intros _ r' out'. by apply level_settles.
Qed.

Lemma ask_settles id q r out :
  (answerable q = true -> owed id r = 0) -> tidy [] r ->
  wlp (handle id q) (fun _ r' out' => settles (Ask id q) (r, out) (r', out')) r out.
Proof.
  intros Hq Ht. eapply wlp_mono; [apply handle_spec; [|done]|].
  { intros Ha. by apply owed_free, Hq. }
  cbn beta. intros _ r' out' (Ht' & Ha). split; [by apply Ht'|]. intros c _. cbn [asked_in unwanted_in fst snd] in *.
  rewrite Ha. destruct q as [| | | | | | | |token value|]; cbn [bill answerable]; destruct (c =? id); cbn [andb]; try lia.
  destruct (wanted token id r); cbn [negb]; lia.
Qed.

Lemma gone_settles id r out :
  tidy [] r -> wlp (reap id) (fun _ r' out' => settles (Gone id) (r, out) (r', out')) r out.
Proof.
  intros [Hn Hk]. unfold reap, forget, cancel, on_inner. apply wlp_bind, wlp_modify, wlp_bind, wlp_modify, wlp_bind, wlp_modify.
  cbn [set_scans set_clients set_inner inner scans]. set (d := Engine.set_timers _ _).
  pose proof (EngineClients.forget_client_owes id d out) as Ho. unfold wlp, lend in *. cbn [inner set_inner].
  destruct (Engine.forget_client id d out) as [[[[] d'] out']|]; [|done]. destruct Ho as (-> & Hkeys & Hl).
  split; [split|]; cbn [fst snd].
  - unfold waiting. cbn [scans set_inner set_scans set_clients]. rewrite without_scan_clients. by apply NoDup_filter.
  - intros c [Hc|Hc]; [|by apply elem_of_nil in Hc]. unfold scan_keys in Hc. cbn [inner set_inner] in Hc.
    apply Hkeys, scan_keys_cancel in Hc as [Hne Hc]. unfold waiting. cbn [scans set_inner set_scans set_clients].
    rewrite without_scan_clients, list_elem_of_filter. split; [done|]. apply Hk. by left.
  - intros c Hne. cbn [asked_in unwanted_in fst snd]. rewrite !account_ledger. assert (Hc : c <> id) by congruence.
    specialize (Hl c Hc). cbn [inner set_inner]. rewrite Hl. unfold pending, waiting. cbn [scans set_inner set_scans set_clients].
    rewrite without_scan_clients.
    assert (He : bool_decide (c ∈ filter (fun y => y <> id) (map sc_client (scans r)))
                 = bool_decide (c ∈ map sc_client (scans r)))
      by (apply bool_decide_ext; rewrite list_elem_of_filter; naive_solver).
    rewrite He. unfold EngineClients.ledger, EngineClients.waits, d. cbn [Engine.engine Engine.set_timers Engine.on_ports]. lia.
Qed.

Lemma event_settles s r out :
  good [] r -> event_ok s -> tidy [] r ->
  wlp (dispatch s) (fun _ r' out' => settles (Event s) (r, out) (r', out')) r out.
Proof.
  intros [[Hn _] _] Hs Ht. destruct s; cbn [dispatch event_ok] in *; try done.
  - eapply wlp_mono; [by apply (on_timer_level (r, out))|]. cbn beta. intros _ r' out'. by apply level_settles.
  - apply steady_settles; [done|done|]. by apply steady_quiet, own_carried; [exact _|].
  - apply steady_settles; [done|done|]. apply on_wireless_steady.
  - apply steady_settles; [done|done|]. apply steady_quiet, on_links_carried, _.
  - apply steady_settles; [done|done|]. apply steady_quiet, on_eapol_carried, _.
  - apply steady_settles; [done|done|]. apply steady_quiet, on_dhcp_carried, _.
Qed.

Lemma step_settles st r out :
  good [] r -> tidy [] r -> polite_step r st ->
  wp (step_op st) (fun _ r' out' => good [] r' /\ settles st (r, out) (r', out')) r out.
Proof.
  intros Hg Ht Hp. pose proof (step_keeps st (polite_ok st r Hp) r out Hg) as Hk.
  assert (Hs : wlp (step_op st) (fun _ r' out' => settles st (r, out) (r', out')) r out).
  { destruct st; cbn [step_op polite_step] in *.
    - apply steady_settles; [done|done|]. apply steady_quiet, start_carried, _.
    - apply steady_settles; [done|done|]. apply check_resume_steady.
    - apply steady_settles; [done|done|]. by apply steady_quiet, own_carried; [exact _|].
    - by apply ask_settles.
    - by apply event_settles.
    - by apply gone_settles.
    - apply steady_settles; [done|done|]. apply steady_quiet, rearm_carried, _.
    - apply steady_settles; [done|done|]. apply steady_quiet, shutdown_carried, _. }
  unfold wp, wlp in *. by destruct (step_op st r out) as [[[[] r'] out']|].
Qed.

Lemma play_settles l r out :
  good [] r -> tidy [] r -> polite l r out ->
  wp (play l) (fun _ r' out' => good [] r' /\ tidy [] r' /\ forall c, left c l = false ->
    account c r' out' = account c r out + asked c l + unwanted c l r out) r out.
Proof.
  revert r out. induction l as [|st l IH]; intros r out Hg Ht Hp; unfold play; cbn [for_each].
  - apply wp_ret. split_and!; [done..|]. intros c _. cbn. lia.
  - destruct Hp as [Hp Hl]. apply wp_bind. pose proof (step_settles st r out Hg Ht Hp) as Hs. cbn [unwanted].
    unfold wp in Hs at 1. unfold wp at 1. destruct (step_op st r out) as [[[[] r1] out1]|]; [|done]. destruct Hs as (Hg1 & Ht1 & Ha1).
    eapply wp_mono; [by apply IH|]. cbn beta. intros _ r2 out2 (Hg2 & Ht2 & Ha2). split_and!; [done..|].
    intros c Hc. unfold left in Hc. cbn [existsb] in Hc. apply orb_false_iff in Hc as [Hc Hnl].
    assert (Hne : st <> Gone c) by (intros ->; by rewrite Z.eqb_refl in Hc).
    specialize (Ha1 c Hne). specialize (Ha2 c Hnl).
    unfold asked in *. cbn [foldr fst snd] in *. lia.
Qed.

(** C5. One response for each request: over any history in which every client
    asks one thing at a time -- with others asking, scans finishing or timing
    out, links failing, the machine suspended, and any call of the kernel
    refused -- the daemon does not panic, and every client still there has been
    sent, or is still owed, exactly one final response for each thing it asked;
    a secret it offered has none when it is the one it was asked for, and one
    when it is not. *)
Theorem one_response_each (r : reactor) l c :
  fresh r -> polite l r [] -> left c l = false ->
  exists r' out, play l r [] = Some (tt, r', out)
    /\ EngineClients.answers c out + owed c r' = asked c l + unwanted c l r [].
Proof.
  intros (Hcold & Hs & Hw & _) Hp Hc.
  assert (Ht : tidy [] r).
  { split; unfold waiting; rewrite Hs; [constructor|]. intros x [Hx|Hx]; [|by apply elem_of_nil in Hx].
    unfold scan_keys, EngineClients.scan_keys in Hx. destruct Hcold as (_ & Hti & _). rewrite Hti in Hx. by apply elem_of_nil in Hx. }
  pose proof (play_settles l r [] (cold_good r Hcold) Ht Hp) as Hplay. unfold wp in Hplay.
  destruct (play l r []) as [[[[] r'] out]|]; [|done]. exists r', out. split; [done|].
  destruct Hplay as (_ & _ & Ha). specialize (Ha c Hc).
  assert (Hz : account c r [] = 0).
  { unfold account, owed, pending, waiting, EngineClients.waits. rewrite Hs, Hw. cbn.
    case_bool_decide as H1'; [done|]. case_bool_decide as H2'; [by apply elem_of_nil in H2'|done]. }
  unfold account in *. lia.
Qed.

#[export] Instance event_ok_dec s : Decision (event_ok s).
Proof. destruct s; apply _. Defined.
#[export] Instance polite_step_dec r st : Decision (polite_step r st).
Proof. destruct st; cbn; apply _. Defined.
#[export] Instance polite_dec l r out : Decision (polite l r out).
Proof.
  revert r out. induction l as [|st l IH]; intros r out; cbn; [apply _|].
  apply and_dec; [apply _|]. destruct (step_op st r out) as [[[? ?] ?]|]; apply _.
Defined.

(** ** Whose secret is taken *)

(** What a prompt that is outstanding goes back to. *)
Lemma step_asks st : drifts asks (step_op st).
Proof.
  destruct st; cbn [step_op].
  - apply start_carried, _.
  - apply check_resume_asks.
  - by apply modify_asks.
  - apply handle_asks.
  - apply dispatch_asks.
  - apply reap_asks.
  - apply rearm_carried, _.
  - apply shutdown_carried, _.
Qed.
Lemma play_asks l : drifts asks (play l).
Proof. apply drifts_for_each; [exact _|]. apply step_asks. Qed.

Lemma wrong_secret id token value (r : reactor) out :
  match Engine.pending_secret (Engine.engine (inner r)) with
  | Some p => (Engine.ps_token p =? token) && (Engine.ps_client p =? id) = false
  | None => True
  end ->
  exists e t w, handle id (Ipc.Secret token value) r out
    = Some (tt, ticked t w r, out ++ [Engine.Send id (Engine.RspError e)]).
Proof.
  intros Hp. unfold handle. cbn [Ipc.is_state_changing serve]. unfold answer_with, mbind, act_bind.
  cbn [mret act_ret]. rewrite with_engine_runs. destruct (Engine.instant _) as [t w].
  unfold lend, Engine.secret, mbind, act_bind, get_state.
  cbn [ticked inner set_inner Engine.engine Engine.at_time Engine.set_world Engine.on_ports].
  destruct (Engine.pending_secret _) as [p|]; [rewrite Hp|]; by eexists _, t, w.
Qed.

(** C22. A secret is taken only from the client that was asked for it: at any
    point of any history, a client that offers one either was sent the prompt
    with that token itself, or is answered with an error, the engine
    untouched. *)
Theorem secret_from_whom_was_asked (r : reactor) l r1 out1 id token value r2 out2 :
  fresh r -> play l r [] = Some (tt, r1, out1) ->
  handle id (Ipc.Secret token value) r1 out1 = Some (tt, r2, out2) ->
  (exists prompt, Engine.Send id (Engine.EvNeedSecret token prompt) ∈ out1)
  \/ (exists e t w, out2 = out1 ++ [Engine.Send id (Engine.RspError e)] /\ r2 = ticked t w r1).
Proof.
  intros (_ & _ & _ & Hfresh) Hplay Hh. pose proof (play_asks l r []) as Ha. unfold drifts_at in Ha. rewrite Hplay in Ha.
  destruct Ha as (new & Hout & _ & Hp). cbn [fst snd app] in *. subst new.
  destruct (Engine.pending_secret (Engine.engine (inner r1))) as [p|] eqn:Hpend;
    [destruct ((Engine.ps_token p =? token) && (Engine.ps_client p =? id)) eqn:Hm|].
  - apply andb_true_iff in Hm as [<-%Z.eqb_eq <-%Z.eqb_eq]. left.
    destruct (Hp p eq_refl) as [Hx|[_ Hx]]; [by rewrite Hfresh in Hx|done].
  - right. destruct (wrong_secret id token value r1 out1) as (e & t & w & He); [by rewrite Hpend|].
    rewrite He in Hh. injection Hh as <- <-. by exists e, t, w.
  - right. destruct (wrong_secret id token value r1 out1) as (e & t & w & He); [by rewrite Hpend|].
    rewrite He in Hh. injection Hh as <- <-. by exists e, t, w.
Qed.

(** ** Who may change anything *)

Definition text_of (f : Engine.SysError + bytes) : option bytes := match f with inr text => Some text | inl _ => None end.
(** The group and user files as they are now do not let the client in. *)
Definition refused (id : Engine.ClientId) (r : reactor) : Prop :=
  match find_first (fun c => fst c =? id) (clients r) with
  | None => True
  | Some (_, peer) =>
      let (group, w) := Engine.answer Engine.ReadGroup (Engine.world (Engine.ports (inner r))) in
      let passwd := fst (Engine.answer Engine.ReadPasswd w) in
      Auth.may_change_state (Auth.from_paths (text_of group) (text_of passwd)) peer (Text.ascii_of Ipc.GROUP) = false
  end.

(** C21. Who may not change anything changes nothing: a state-changing request
    from a client that is neither root nor of the group, as the files say at
    that moment, is answered with the refusal and leaves the whole daemon as it
    was; the two files are all that was touched, to read them. *)
Theorem outsider_changes_nothing id q (r : reactor) out :
  Ipc.is_state_changing q = true -> refused id r ->
  exists w reads, handle id q r out
      = Some (tt, set_inner (Engine.set_world w (inner r)) r, out ++ reads ++ [Engine.Send id (Engine.RspError DENIED)])
    /\ Forall (fun e => e = Engine.Call Engine.ReadGroup \/ e = Engine.Call Engine.ReadPasswd) reads.
Proof.
  intros Hq. unfold refused, handle, may_change_state. rewrite Hq.
  unfold call, reply, lend, Engine.call, Engine.send, mbind, act_bind, get_state, modify, emit.
  destruct (find_first _ _) as [[i peer]|].
  - destruct (Engine.answer Engine.ReadGroup _) as [group w1] eqn:Hg. cbn.
    destruct (Engine.answer Engine.ReadPasswd w1) as [passwd w2] eqn:Hp. cbn.
    intros Href. unfold text_of in Href. rewrite Href.
    exists w2, [Engine.Call Engine.ReadGroup; Engine.Call Engine.ReadPasswd]. split; [|by repeat constructor; auto].
    cbn. by rewrite <- !app_assoc.
  - intros _. exists (Engine.world (Engine.ports (inner r))), []. split; [|constructor].
    cbn. do 3 f_equal. by destruct r as [[? []]].
Qed.
End history.

(** ** Witnesses *)
Section witnesses.
#[local] Existing Instances Crypto.Toy.prims Crypto.Toy.laws ConnProps.Demo.build ConnProps.Demo.build_safe
  Profile.demo_json DaemonDemo.kernel DaemonDemo.kernel_ok.

(** The session of [DaemonDemo], with two clients. *)
Definition demo_steps : list Step := Start :: flat_map turn_steps DaemonDemo.session.

Lemma one_response_each_witness :
  exists r' out, play demo_steps DaemonDemo.booted [] = Some (tt, r', out)
    /\ EngineClients.answers 1 out + owed 1 r' = asked 1 demo_steps + unwanted 1 demo_steps DaemonDemo.booted [].
Proof.
  apply one_response_each.
  - apply new_fresh.
  - apply (bool_decide_unpack _). vm_compute. exact I.
  - reflexivity.
Defined.
Example both_answered :
  match play demo_steps DaemonDemo.booted [] with
  | Some (_, r', out) => (EngineClients.answers 1 out, owed 1 r', EngineClients.answers 2 out, owed 2 r')
  | None => (0, 0, 0, 0)
  end = (1, 0, 1, 0).
Proof. vm_compute. reflexivity. Qed.

(** Bob offers a passphrase where root was asked for it. *)
Definition prompted_steps : list Step := Start :: flat_map turn_steps [DaemonDemo.arrive; DaemonDemo.scanned].
Definition prompted_state : option (unit * DaemonDemo.reactor * list Engine.Effect) := play prompted_steps DaemonDemo.booted [].
Definition after_bob : option (unit * DaemonDemo.reactor * list Engine.Effect) :=
  match prompted_state with
  | Some (_, r, out) => handle 2 (Ipc.Secret 1 ConnProps.Demo.secret) r out
  | None => None
  end.
Definition reactor_of (o : option (unit * DaemonDemo.reactor * list Engine.Effect)) : DaemonDemo.reactor :=
  match o with Some (_, r, _) => r | None => DaemonDemo.booted end.
Definition log_of (o : option (unit * DaemonDemo.reactor * list Engine.Effect)) : list Engine.Effect :=
  match o with Some (_, _, out) => out | None => [] end.

Lemma secret_from_whom_was_asked_witness :
  (exists prompt, Engine.Send 2 (Engine.EvNeedSecret 1 prompt) ∈ log_of prompted_state)
  \/ (exists e t w, log_of after_bob = log_of prompted_state ++ [Engine.Send 2 (Engine.RspError e)]
        /\ reactor_of after_bob = ticked t w (reactor_of prompted_state)).
Proof.
  apply (secret_from_whom_was_asked DaemonDemo.booted prompted_steps (reactor_of prompted_state) (log_of prompted_state)
           2 1 ConnProps.Demo.secret (reactor_of after_bob) (log_of after_bob)).
  - apply new_fresh.
  - vm_compute. reflexivity.
  - vm_compute. reflexivity.
Defined.

(** Bob may not shut the daemon down. *)
Lemma outsider_changes_nothing_witness :
  let r := reactor_of prompted_state in
  exists w reads, handle 2 Ipc.Shutdown r []
      = Some (tt, set_inner (Engine.set_world w (inner r)) r, [] ++ reads ++ [Engine.Send 2 (Engine.RspError DENIED)])
    /\ Forall (fun e => e = Engine.Call Engine.ReadGroup \/ e = Engine.Call Engine.ReadPasswd) reads.
Proof.
  intros r. apply outsider_changes_nothing; [reflexivity|]. vm_compute. reflexivity.
Defined.
End witnesses.
