(* ===== verification/Startup.v ===== *)
(** * How the daemon starts: [cawd] main.rs, log.rs and the binding of its sockets

    The arguments, the socket the daemon listens on -- which it takes over from
    a daemon that died and never from one that lives -- and the DHCP socket.
    What a system call answers is an argument; the calls made are a list, in
    order. *)
From S2P Require Import Prelude Text Calls.
From S2P Require DhcpOptions DhcpClient.

(** ** main.rs *)

Inductive Error := Socket (errno : Z) | AlreadyRunning (path : bytes) | Usage (msg : bytes).
#[export] Instance Error_eq_dec : EqDecision Error.
Proof. solve_decision. Defined.

Definition line (s : string) : bytes := ascii_of s ++ [10].
Definition USAGE : bytes :=
  line "usage: cawd [--socket PATH] [--no-autoconnect]" ++ [10]
    ++ line "  --socket PATH     listen here instead of /run/caw/caw.sock"
    ++ line "  --no-autoconnect  never join a saved network unless asked to"
    ++ line "  -h, --help        show this".

Definition SOCKET_PATH : bytes := ascii_of "/run/caw/caw.sock".
Record Options := { socket : bytes; autoconnect : bool }.

(** [std::env::args]: taking a word that is not UTF-8 panics. *)
Definition word (arg : bytes) : exec Error bytes := expect (from_utf8 arg).

Fixpoint args_loop (options : Options) (args : list bytes) : exec Error (option Options) :=
  match args with
  | [] => Ok (Some options)
  | arg :: args =>
      arg ← word arg;
      if bool_decide (arg = ascii_of "-h") || bool_decide (arg = ascii_of "--help") then Ok None
      else if bool_decide (arg = ascii_of "--socket") then
        match args with
        | [] => Err (Usage (ascii_of "--socket needs a path"))
        | path :: args =>
            path ← word path;
            args_loop {| socket := path; autoconnect := autoconnect options |} args
        end
      else if bool_decide (arg = ascii_of "--no-autoconnect") then
        args_loop {| socket := socket options; autoconnect := false |} args
      else Err (Usage (ascii_of "unknown argument " ++ arg))
  end.
(** [parse_args] on the program's words, its own name first ([skip(1)] takes
    it): nothing when the help was asked for, and shown. *)
Definition parse_args (argv : list bytes) : exec Error (option Options) :=
  let options := {| socket := SOCKET_PATH; autoconnect := true |} in
  match argv with
  | [] => args_loop options []
  | name :: args => _ ← word name; args_loop options args
  end.

Definition Error_fmt (errno_text : Z -> bytes) (e : Error) : bytes :=
  match e with
  | Socket e => errno_text e
  | AlreadyRunning path => ascii_of "another cawd is listening on " ++ path
  | Usage msg => msg ++ [10; 10] ++ USAGE
  end.

(** ** log.rs *)
Definition log_info (text : bytes) : bytes := ascii_of "cawd: " ++ text ++ [10].
Definition log_warn (text : bytes) : bytes := ascii_of "cawd: warning: " ++ text ++ [10].
Definition log_error (text : bytes) : bytes := ascii_of "cawd: error: " ++ text ++ [10].

(** Standard output and standard error: whether a write succeeds.  [print!] and
    [eprintln!] panic when it does not. *)
Class Console := { stdout_takes : bytes -> bool; stderr_takes : bytes -> bool }.

(** ** signals.rs: [drain]'s loop over what the reads give, and what is unread *)
Inductive Drained := Octets (n : nat) | NoMore | Interrupted | DrainFailed.
Fixpoint drain (reads : list Drained) : list Drained :=
  match reads with
  | (Octets O | NoMore | DrainFailed) :: reads => reads
  | (Octets _ | Interrupted) :: reads => drain reads
  | [] => []
  end.

(** ** ipc.rs: [Server::bind] *)

Definition EEXIST : Z := 17.
Definition ENOENT : Z := 2.
Definition ECONNREFUSED : Z := 111.
Definition MODE_DIR : Z := 493. (* 0o755 *)
Definition MODE_SOCKET : Z := 438. (* 0o666 *)
Definition BACKLOG : Z := 32.

Inductive Op :=
| Mkdir (dir : bytes) (mode : Z)
| OpenSocket (nonblocking : bool)
| ConnectTo (path : bytes)
| Unlink (path : bytes)
| BindTo (path : bytes)
| Chmod (path : bytes) (mode : Z)
| Listen (backlog : Z).
#[export] Instance Op_eq_dec : EqDecision Op.
Proof. solve_decision. Defined.

(** What the kernel answers to each call, and whether the path exists. *)
Class Host := { answer : Op -> option Z; path_exists : bytes -> bool }.

Section bind.
Context `{Host}.

Abbreviation starting := (call (list Op) Error).
Definition perform (op : Op) : starting (option Z) :=
  _ ← update (fun ops => ops ++ [op]); mret (answer op).
Definition attempt (op : Op) : starting unit :=
  r ← perform op; match r with Some e => throw (Socket e) | None => mret tt end.

Definition clear_stale (path : bytes) : starting unit :=
  if negb (path_exists path) then mret tt
  else
    _ ← attempt (OpenSocket false);
    r ← perform (ConnectTo path);
    match r with
    | None => throw (AlreadyRunning path)
    | Some e =>
        if (e =? ECONNREFUSED) || (e =? ENOENT) then attempt (Unlink path) else throw (Socket e)
    end.

(** [dir] is the path's parent, when it has one. *)
Definition Server_bind (dir : option bytes) (path : bytes) : starting unit :=
  _ ← match dir with
      | None => mret tt
      | Some dir =>
          r ← perform (Mkdir dir MODE_DIR);
          match r with Some e => throw_if (negb (e =? EEXIST)) (Socket e) | None => mret tt end
      end;
  _ ← clear_stale path;
  _ ← attempt (OpenSocket true);
  _ ← attempt (BindTo path);
  _ ← attempt (Chmod path MODE_SOCKET);
  attempt (Listen BACKLOG).

(** Whether another daemon answers on the path. *)
Definition lives (path : bytes) : Prop := path_exists path = true /\ answer (ConnectTo path) = None.
End bind.

(** ** caw-dhcp, socket.rs *)

Definition CLIENT_PORT : Z := 68.
Definition SERVER_PORT : Z := 67.

Inductive DhcpOp :=
| OpenUdp
| SetReuseAddr
| SetBroadcast
| BindAny (port : Z)
| SendDatagram (server port : Z) (data : bytes).
(** A call fails, or gives what it returns: octets sent. *)
Class DhcpHost := { dhcp_answer : DhcpOp -> Z + Z }.

Section dhcp_socket.
Context `{DhcpHost}.
Abbreviation udp := (call (list DhcpOp) DhcpOptions.Error).
Definition dhcp_call (op : DhcpOp) : udp Z :=
  _ ← update (fun ops => ops ++ [op]);
  match dhcp_answer op with inl e => throw (DhcpOptions.ErrIo e) | inr n => mret n end.

Definition Dhcp4Socket_open : udp unit :=
  _ ← dhcp_call OpenUdp;
  _ ← dhcp_call SetReuseAddr;
  _ ← dhcp_call SetBroadcast;
  _ ← dhcp_call (BindAny CLIENT_PORT);
  mret tt.
Definition Dhcp4Socket_send_to (server : Z) (data : bytes) : udp unit :=
  n ← dhcp_call (SendDatagram server SERVER_PORT data);
  throw_if (negb (n =? len data)) DhcpOptions.ErrShortSend.
Definition Dhcp4Socket_send_broadcast (data : bytes) : udp unit :=
  Dhcp4Socket_send_to DhcpOptions.BROADCAST data.
(** [recv] into a buffer of [n] octets: what the datagram has beyond is lost. *)
Definition Dhcp4Socket_recv (n : nat) (datagram : Z + bytes) : exec DhcpOptions.Error bytes :=
  match datagram with inl e => Err (DhcpOptions.ErrIo e) | inr d => Ok (take n d) end.
End dhcp_socket.

(** ** A running daemon keeps its socket *)

Section binding.
Context `{Host}.

(** The calls of a start leave those before them where they are. *)
Definition touches (path : bytes) (op : Op) : Prop :=
  match op with Unlink p | BindTo p | Chmod p _ => p = path | Listen _ => True | _ => False end.

Lemma clear_stale_live path ops :
  lives path ->
  clear_stale path ops =
  match answer (OpenSocket false) with
  | Some e => (ops ++ [OpenSocket false], Err (Socket e))
  | None => ((ops ++ [OpenSocket false]) ++ [ConnectTo path], Err (AlreadyRunning path))
  end.
Proof.
  intros [Hex Hc]. unfold clear_stale, attempt, perform, mbind, call_bind, update, mret, call_ret, throw.
  rewrite Hex. cbn [negb]. destruct (answer (OpenSocket false)); [done|]. by rewrite Hc.
Qed.

(** C25. A daemon that is listening keeps its socket: a second one started on
    the same path stops with an error -- the one that says so, unless the
    kernel refused it something before -- and it never unlinks, binds, changes
    the mode of or listens on anything. *)
Theorem live_socket_kept dir path :
  lives path ->
  after (Server_bind dir path) [] (fun ops r =>
    is_err r = true /\ Forall (fun op => ~ touches path op) ops
    /\ (answer (OpenSocket false) = None ->
        match dir with Some dir => answer (Mkdir dir MODE_DIR) ∈ [None; Some EEXIST] | None => True end ->
        r = Err (AlreadyRunning path))).
Proof.
  intros Hlive. unfold Server_bind.
  assert (Hstop : forall ops (k : unit -> call (list Op) Error unit), Forall (fun op => ~ touches path op) ops ->
    after (clear_stale path ≫= k) ops (fun ops r => is_err r = true /\ Forall (fun op => ~ touches path op) ops
      /\ (answer (OpenSocket false) = None -> r = Err (AlreadyRunning path)))).
  { intros ops k Hops. unfold after, mbind, call_bind. rewrite clear_stale_live by done.
    destruct (answer (OpenSocket false)); cbn [fst snd is_err]; split_and!; try done;
      rewrite ?Forall_app; split_and?; try done; apply Forall_cons_2; first [by intros []|by constructor]. }
  assert (Hmkdir : forall d m, Forall (fun op => ~ touches path op) [Mkdir d m]) by (intros; apply Forall_cons_2; [by intros []|by constructor]).
  destruct dir as [dir|].
  - unfold perform, after, mbind, call_bind, update, mret, call_ret. cbn [app].
    destruct (answer (Mkdir dir MODE_DIR)) as [e|] eqn:Hm.
    + unfold throw_if. destruct (Z.eqb_spec e EEXIST) as [->|He]; cbn [negb mret call_ret throw fst snd].
      * destruct (Hstop [Mkdir dir MODE_DIR] (fun _ => _ ← attempt (OpenSocket true); _ ← attempt (BindTo path);
          _ ← attempt (Chmod path MODE_SOCKET); attempt (Listen BACKLOG)) (Hmkdir _ _)) as (H1 & H2 & H3).
        split_and!; auto.
      * split_and!; [done|apply Hmkdir|]. intros _ Hin. set_solver.
    + destruct (Hstop [Mkdir dir MODE_DIR] (fun _ => _ ← attempt (OpenSocket true); _ ← attempt (BindTo path);
        _ ← attempt (Chmod path MODE_SOCKET); attempt (Listen BACKLOG)) (Hmkdir _ _)) as (H1 & H2 & H3).
      split_and!; auto.
  - eapply after_mono; [apply (Hstop []); constructor|]. cbn. naive_solver.
Qed.
End binding.

(** The arguments read one by one: options in any order and any number, the
    last socket named being the one used. *)
Inductive Argument := ASocket (path : bytes) | ANoAutoconnect.
Definition argument_words (a : Argument) : list bytes :=
  match a with ASocket path => [ascii_of "--socket"; path] | ANoAutoconnect => [ascii_of "--no-autoconnect"] end.
Definition apply_argument (o : Options) (a : Argument) : Options :=
  match a with
  | ASocket path => {| socket := path; autoconnect := autoconnect o |}
  | ANoAutoconnect => {| socket := socket o; autoconnect := false |}
  end.
Definition argument_text (a : Argument) : Prop :=
  match a with ASocket path => from_utf8 path = Some path | ANoAutoconnect => True end.
Lemma args_loop_socket o path rest :
  from_utf8 path = Some path ->
  args_loop o (ascii_of "--socket" :: path :: rest) = args_loop {| socket := path; autoconnect := autoconnect o |} rest.
Proof.
  intros Ht. cbn [args_loop].
  assert (word (ascii_of "--socket") = Ok (ascii_of "--socket")) as -> by (vm_compute; reflexivity). cbn [mbind exec_bind].
  rewrite (bool_decide_false (_ = ascii_of "-h")), (bool_decide_false (_ = ascii_of "--help")), (bool_decide_true (_ = ascii_of "--socket")) by done.
  cbn [orb]. assert (word path = Ok path) as -> by (unfold word; by rewrite Ht). done.
Qed.
Lemma args_loop_no_autoconnect o rest :
  args_loop o (ascii_of "--no-autoconnect" :: rest) = args_loop {| socket := socket o; autoconnect := false |} rest.
Proof.
  cbn [args_loop].
  assert (word (ascii_of "--no-autoconnect") = Ok (ascii_of "--no-autoconnect")) as -> by (vm_compute; reflexivity).
  cbn [mbind exec_bind].
  by rewrite (bool_decide_false (_ = ascii_of "-h")), (bool_decide_false (_ = ascii_of "--help")),
    (bool_decide_false (_ = ascii_of "--socket")), (bool_decide_true (_ = ascii_of "--no-autoconnect")) by done.
Qed.
Lemma args_applied o args rest :
  Forall argument_text args ->
  args_loop o (concat (map argument_words args) ++ rest) = args_loop (fold_left apply_argument args o) rest.
Proof.
  intros Ha. revert o. induction Ha as [|[path|] args Ht _ IH]; intros o; cbn [map concat fold_left argument_words]; [done| |];
    rewrite <- app_assoc; cbn [app].
  - by rewrite args_loop_socket, IH.
  - by rewrite args_loop_no_autoconnect, IH.
Qed.

(** The arguments are at fault for a panic. *)
Lemma word_panics a : word a = Panic -> from_utf8 a = None.
Proof. unfold word. by destruct (from_utf8 a). Qed.
Lemma args_panic n o args :
  (length args <= n)%nat -> args_loop o args = Panic -> exists a, a ∈ args /\ from_utf8 a = None.
Proof.
  revert o args. induction n as [|n IH]; intros o [|arg args] Hl; cbn in Hl; try done; [lia|]. cbn [args_loop].
  destruct (word arg) as [v|e|] eqn:Hw; cbn [mbind exec_bind]; [|done|].
  2: { intros _. exists arg. split; [left|by apply word_panics]. }
  repeat case_bool_decide; cbn [orb]; try done.
  - destruct args as [|path args]; [done|]. destruct (word path) as [w|e|] eqn:Hp; cbn [mbind exec_bind]; [|done|].
    + intros Ha. cbn in Hl. destruct (IH _ args ltac:(lia) Ha) as (a & Hin & ?). exists a. set_solver.
    + intros _. exists path. split; [set_solver|by apply word_panics].
  - intros Ha. destruct (IH _ args ltac:(lia) Ha) as (a & Hin & ?). exists a. set_solver.
Qed.
Lemma parse_args_panics argv : parse_args argv = Panic -> exists a, a ∈ argv /\ from_utf8 a = None.
Proof.
  unfold parse_args. destruct argv as [|name args]; [done|].
  destruct (word name) as [v|e|] eqn:Hw; cbn [mbind exec_bind]; [|done|].
  - intros (a & Hin & ?)%(args_panic (length args)); [|done]. exists a. set_solver.
  - intros _. exists name. split; [left|by apply word_panics].
Qed.

(** *** The socket that is left *)
Section standing.
Context `{Host}.

(** Whether a socket this program bound is there after its calls. *)
Definition standing_step (path : bytes) (there : bool) (op : Op) : bool :=
  match op with
  | BindTo p => there || bool_decide (p = path) && is_none (answer op)
  | Unlink p => if bool_decide (p = path) && is_none (answer op) then false else there
  | _ => there
  end.
Definition standing (path : bytes) (ops : list Op) : bool := fold_left (standing_step path) ops false.

(** Binding does not panic; it leaves a socket when it succeeds, and when
    what failed came after the socket was bound. *)
Lemma bind_standing dir path :
  let (ops, r) := Server_bind dir path [] in
  r <> Panic
  /\ (r = Ok tt -> standing path ops = true)
  /\ (is_err r = true -> standing path ops = true ->
       answer (Chmod path MODE_SOCKET) <> None \/ answer (Listen BACKLOG) <> None).
Proof.
  unfold Server_bind, clear_stale, attempt, perform, throw_if, throw, update, mbind, call_bind, mret, call_ret.
  repeat case_match; simplify_eq; (split_and!; [done|..]); try done;
    unfold standing; cbn -[EEXIST ENOENT ECONNREFUSED];
    repeat match goal with Hop : answer _ = _ |- _ => rewrite Hop end;
    rewrite ?bool_decide_true by done; cbn; auto.
Qed.

(** A socket that was bound stays when setting its mode or listening fails:
    nothing removes it before there is a [Server] to drop. *)
Lemma failed_bind_leaves_socket path e :
  path_exists path = false -> answer (OpenSocket true) = None -> answer (BindTo path) = None ->
  answer (Chmod path MODE_SOCKET) = Some e ->
  let (ops, r) := Server_bind None path [] in r = Err (Socket e) /\ standing path ops = true.
Proof.
  intros Hx Ho Hb Hc.
  unfold Server_bind, clear_stale, attempt, perform, throw, update, mbind, call_bind, mret, call_ret.
  rewrite Hx. cbn [negb]. rewrite Ho, Hb, Hc. split; [done|]. unfold standing. cbn. by rewrite Hb, bool_decide_true.
Qed.
End standing.

(** ** A machine where the daemon runs *)
Definition busy : Host := {| answer _ := None; path_exists _ := true |}.

Lemma live_socket_kept_witness :
  snd (Server_bind (H := busy) (Some (ascii_of "/run/caw")) SOCKET_PATH []) = Err (AlreadyRunning SOCKET_PATH)
  /\ fst (Server_bind (H := busy) (Some (ascii_of "/run/caw")) SOCKET_PATH [])
     = [Mkdir (ascii_of "/run/caw") MODE_DIR; OpenSocket false; ConnectTo SOCKET_PATH].
Proof.
  pose proof (live_socket_kept (H := busy) (Some (ascii_of "/run/caw")) SOCKET_PATH (conj eq_refl eq_refl)) as (_ & _ & Hr).
  split; [apply Hr; [reflexivity|left]|reflexivity].
Defined.
