(* ===== verification/System.v ===== *)
(** * What the daemon asks of the system

    Opening its sockets, the timer and the signal pipe, as the calls made over a
    kernel that answers each as it likes; the EAPOL socket, which answers
    whoever spoke last; the loops that draw random octets; and the writing of
    resolv.conf, as the steps it takes on the file system, any of which may be the
    last. *)
From S2P Require Import Prelude Bytes Text Calls.
From S2P Require Netlink Wiphy Sae Eapol DhcpOptions Timers.

(** ** The calls *)

Inductive SysOp :=
| NetlinkSocket (nonblocking : bool) (protocol : option Z)
| BindNetlink (pid groups : Z)
| PacketSocket (nonblocking : bool) (ethertype : Z)
| SendBytes (data : bytes)
| SendTo (peer : bytes) (data : bytes)
| MakePipe (nonblocking : bool)
| CloneWriter
| Register (signal : Z)
| TimerfdCreate (nonblocking : bool)
| TimerfdSettime (it_value : Z * Z).
#[export] Instance SysOp_eq_dec : EqDecision SysOp.
Proof. solve_decision. Defined.
(** A call fails, or gives what it returns. *)
Class System := { returns : SysOp -> Z + Z }.

Section opening.
Context `{System}.

Abbreviation system E := (call (list SysOp) E).
(** The call, its error as the caller's [?] converts it. *)
Definition ask {E} (io : Z -> E) (op : SysOp) : system E Z :=
  _ ← update (fun ops => ops ++ [op]); match returns op with inl e => throw (io e) | inr n => mret n end.

(** caw-netlink, lib.rs *)
Definition NETLINK_GENERIC : Z := 16.
Definition Socket_open (protocol : option Z) : system Netlink.Error unit :=
  _ ← ask Netlink.ErrIo (NetlinkSocket false protocol);
  _ ← ask Netlink.ErrIo (BindNetlink 0 0);
  mret tt.
Definition Socket_route : system Netlink.Error unit := Socket_open None.
Definition Socket_generic : system Netlink.Error unit := Socket_open (Some NETLINK_GENERIC).
Definition Socket_send (msg : bytes) : system Netlink.Error unit :=
  n ← ask Netlink.ErrIo (SendBytes msg); throw_if (negb (n =? len msg)) Netlink.ErrShortSend.

(** caw-nl80211, sock.rs: a group that does not fit the mask is an error
    before anything is opened; here, its name and number. *)
Definition Events_open (groups : Wiphy.Groups) : system ((string * Z) + Z) unit :=
  mask ← lift (map_err inl (Wiphy.mask groups));
  _ ← ask inr (NetlinkSocket true (Some NETLINK_GENERIC));
  _ ← ask inr (BindNetlink 0 mask);
  mret tt.

(** cawd, links.rs *)
Definition RTNLGRP_LINK : Z := 1.
Definition RTNLGRP_IPV4_IFADDR : Z := 5.
Definition RTNLGRP_IPV6_IFADDR : Z := 9.
Definition LinkEvents_open : system Z unit :=
  _ ← ask id (NetlinkSocket true None);
  let groups := Z.lor (Z.lor (Z.shiftl 1 (RTNLGRP_LINK - 1)) (Z.shiftl 1 (RTNLGRP_IPV4_IFADDR - 1)))
                      (Z.shiftl 1 (RTNLGRP_IPV6_IFADDR - 1)) in
  _ ← ask id (BindNetlink 0 groups);
  mret tt.

(** cawd, signals.rs *)
Definition SIGTERM : Z := 15.
Definition SIGINT : Z := 2.
Definition Signals_open : system Z unit :=
  _ ← ask id (MakePipe true);
  _ ← ask id CloneWriter;
  _ ← ask id (Register SIGTERM);
  _ ← ask id (Register SIGINT);
  mret tt.

(** cawd, timers.rs *)
Definition TimerFd_new : system Z unit := _ ← ask id (TimerfdCreate true); mret tt.
Definition TimerFd_arm (delay : option Z) : system Z unit :=
  _ ← ask id (TimerfdSettime (Timers.it_value delay)); mret tt.
End opening.

(** The mask of the link notifications asks for those three groups and no other. *)
Lemma link_groups_exact g :
  1 <= g <= 32 ->
  Z.testbit (Z.lor (Z.lor (Z.shiftl 1 (RTNLGRP_LINK - 1)) (Z.shiftl 1 (RTNLGRP_IPV4_IFADDR - 1)))
                   (Z.shiftl 1 (RTNLGRP_IPV6_IFADDR - 1))) (g - 1) = true
  <-> g ∈ [RTNLGRP_LINK; RTNLGRP_IPV4_IFADDR; RTNLGRP_IPV6_IFADDR].
Proof.
  intros Hg. change (Z.lor _ _) with 273. rewrite !elem_of_cons, elem_of_nil.
  assert (Hall : forallb (fun g => Bool.eqb (Z.testbit 273 (g - 1)) (bool_decide (g ∈ [RTNLGRP_LINK; RTNLGRP_IPV4_IFADDR; RTNLGRP_IPV6_IFADDR])))
                   (map Z.of_nat (seq 1 32)) = true) by (vm_compute; reflexivity).
  rewrite forallb_forall in Hall. specialize (Hall g).
  rewrite Bool.eqb_true_iff in Hall. rewrite Hall.
  - rewrite bool_decide_eq_true, !elem_of_cons, elem_of_nil. done.
  - apply in_map_iff. exists (Z.to_nat g). split; [lia|]. apply in_seq. lia.
Qed.

(** ** caw-eapol, socket.rs *)

Definition ETH_PAE : Z := 0x888E.
Record EapolSocket := { ifindex : Z; peer : option bytes }.
(** What [recvfrom] finds: the frame as it was sent, and whom from. *)
Record Arrived := { arrived : bytes; from : option bytes }.

Section eapol.
Context `{System}.

Definition EapolSocket_open (i : Z) : call (list SysOp) Eapol.Error EapolSocket :=
  _ ← ask Eapol.ErrIo (PacketSocket true ETH_PAE); mret {| ifindex := i; peer := None |}.
(** Into a buffer of [n] octets; [MSG_TRUNC] says how long the frame was. *)
Definition EapolSocket_recv (n : nat) (r : Z + Arrived) : call EapolSocket Eapol.Error bytes :=
  match r with
  | inl e => throw (Eapol.ErrIo e)
  | inr a =>
      let buf := take n (arrived a) in
      _ ← throw_if (bool_decide (length buf < length (arrived a))%nat) Eapol.Malformed;
      _ ← match from a with
          | Some p => update (fun s => {| ifindex := ifindex s; peer := Some p |})
          | None => mret tt
          end;
      mret buf
  end.
Definition EapolSocket_send (s : EapolSocket) (frame : bytes) : call (list SysOp) Eapol.Error unit :=
  match peer s with
  | None => throw Eapol.NoPeer
  | Some p =>
      n ← ask Eapol.ErrIo (SendTo p frame);
      throw_if (negb (n =? len frame)) Eapol.ShortSend
  end.

(** A socket's use: frames read and frames sent, and the calls made. *)
Inductive Use := Recv (r : Z + Arrived) | Send (frame : bytes).
Fixpoint uses (n : nat) (l : list Use) (s : EapolSocket) : list SysOp * EapolSocket :=
  match l with
  | [] => ([], s)
  | Recv r :: l => uses n l (fst (EapolSocket_recv n r s))
  | Send frame :: l =>
      let (ops, s') := uses n l s in (fst (EapolSocket_send s frame []) ++ ops, s')
  end.
(** Who spoke last, of the frames that came whole. *)
Fixpoint last_peer (n : nat) (l : list Use) (p : option bytes) : option bytes :=
  match l with
  | [] => p
  | Recv (inr a) :: l =>
      last_peer n l (if bool_decide (length (arrived a) <= n)%nat then match from a with Some q => Some q | None => p end else p)
  | _ :: l => last_peer n l p
  end.

Lemma recv_peer n r s :
  peer (fst (EapolSocket_recv n r s)) = last_peer n [Recv r] (peer s)
  /\ (snd (EapolSocket_recv n r s) = match r with
      | inl e => Err (Eapol.ErrIo e)
      | inr a => if bool_decide (length (arrived a) <= n)%nat then Ok (arrived a) else Err Eapol.Malformed
      end).
Proof.
  destruct r as [e|a]; [done|]. unfold EapolSocket_recv. cbn [last_peer]. unfold throw_if.
  rewrite length_take. repeat case_bool_decide; try lia; cbn; [done|].
  destruct (from a); cbn; by rewrite take_ge by lia.
Qed.

(** Whatever is read and sent in whatever order, each frame goes to whoever
    spoke last, truncated frames apart, and nothing is sent before that. *)
Fixpoint answered (n : nat) (p : option bytes) (l : list Use) : list SysOp :=
  match l with
  | [] => []
  | Recv r :: l => answered n (last_peer n [Recv r] p) l
  | Send frame :: l => option_list ((fun q => SendTo q frame) <$> p) ++ answered n p l
  end.
Lemma eapol_answers_last_peer n l s :
  fst (uses n l s) = answered n (peer s) l /\ peer (snd (uses n l s)) = last_peer n l (peer s).
Proof.
  revert s. induction l as [|[r|frame] l IH]; intros s; cbn [uses answered]; [done| |].
  - destruct (recv_peer n r s) as [Hp _]. destruct (IH (fst (EapolSocket_recv n r s))) as [H1 H2].
    rewrite H1, H2, Hp. split; [done|]. by destruct r.
  - destruct (IH s) as [H1 H2]. destruct (uses n l s) as [ops s']. cbn [fst snd last_peer] in *. split; [|done].
    rewrite H1. f_equal. unfold EapolSocket_send. destruct (peer s) as [q|]; [|done].
    change (option_list _) with [SendTo q frame]. unfold ask, mbind, call_bind, update, mret, call_ret, throw, throw_if.
    cbn [app]. destruct (returns (SendTo q frame)) as [e|k]; [done|]. by destruct (negb _).
Qed.
End eapol.

(** ** Random octets

    [getrandom] may stop short, so it is asked again for what is missing.  The
    answers are an error or what it filled in, never more than was asked for;
    with no answer left the loop is still waiting. *)
Fixpoint fill (want : nat) (got : bytes) (answers : list (Z + bytes)) : option (Z + bytes) :=
  if bool_decide (want <= length got)%nat then Some (inr got)
  else match answers with
       | [] => None
       | inl e :: _ => Some (inl e)
       | inr b :: answers => fill want (got ++ take (want - length got) b) answers
       end.
Section entropy.
Context {he : HostEndian}.
Definition new_xid (answers : list (Z + bytes)) : option (exec DhcpOptions.Error Z) :=
  (fun r => match r with inl e => Err (DhcpOptions.ErrIo e) | inr b => Ok (ne_decode b) end) <$> fill 4 [] answers.
Definition random_nonce (answers : list (Z + bytes)) : option (exec Eapol.Error bytes) :=
  (fun r => match r with inl e => Err (Eapol.ErrIo e) | inr b => Ok b end) <$> fill 32 [] answers.
(** In [SaeProvider::new] an error is a panic. *)
Definition random_seed (answers : list (Z + bytes)) : option (exec Empty_set bytes) :=
  (fun r => match r with inl _ => Panic | inr b => Ok b end) <$> fill Sae.SEED_LEN [] answers.
End entropy.

(** However short the answers are, as long as each gives something, the loop ends
    with exactly the first octets they gave: nothing is left zero, skipped or
    taken twice. *)
Lemma fill_exact want got chunks rest :
  Forall (fun b => b <> []) chunks -> (want <= length got + length (concat chunks))%nat -> (length got <= want)%nat ->
  fill want got (map inr chunks ++ rest) = Some (inr (take want (got ++ concat chunks))).
Proof.
  intros Hne. revert got. induction Hne as [|b chunks Hb Hne IH]; intros got Hw Hg; cbn [map concat app] in *.
  - cbn in Hw. destruct rest; cbn [fill]; rewrite bool_decide_true by lia; by rewrite app_nil_r, take_ge by lia.
  - cbn [fill]. case_bool_decide as Hd.
    + by rewrite take_app_le, take_ge by lia.
    + destruct (decide (length b <= want - length got)%nat) as [Hle|Hgt].
      * rewrite (take_ge b) by done. rewrite IH; rewrite ?length_app in *; [by rewrite <- app_assoc|lia|lia].
      * assert (Hl : length (take (want - length got) b) = (want - length got)%nat) by (rewrite length_take; lia).
        assert (Hend : forall l, fill want (got ++ take (want - length got) b) l = Some (inr (got ++ take (want - length got) b)))
          by (intros l; destruct l; cbn [fill]; rewrite bool_decide_true by (rewrite length_app; lia); done).
        rewrite Hend, take_app, (take_ge got) by lia. by rewrite take_app_le by lia.
Qed.
Lemma nonce_drawn chunks rest :
  Forall (fun b => b <> []) chunks -> (32 <= length (concat chunks))%nat ->
  random_nonce (map inr chunks ++ rest) = Some (Ok (take 32 (concat chunks))).
Proof. intros Hne Hl. unfold random_nonce. by rewrite fill_exact by (cbn; auto; lia). Qed.
Lemma seed_drawn chunks rest :
  Forall (fun b => b <> []) chunks -> (Sae.SEED_LEN <= length (concat chunks))%nat ->
  random_seed (map inr chunks ++ rest) = Some (Ok (take Sae.SEED_LEN (concat chunks))).
Proof. intros Hne Hl. unfold random_seed. by rewrite fill_exact by (first [done|cbn [length]; lia]). Qed.

(** ** resolv.conf: [write_resolv_conf] of engine.rs *)

Definition RESOLV_CONF : bytes := ascii_of "/run/caw/resolv.conf".
Definition RESOLV_TMP : bytes := ascii_of "/run/caw/.resolv.conf.tmp".
Definition MODE_READABLE : Z := 420. (* 0o644 *)

Definition nameserver (server : Z) : bytes := ascii_of "nameserver " ++ ipv4_text (be_encode 4 server) ++ [10].
Definition resolv_text (servers : list Z) : bytes :=
  ascii_of "# Written by cawd from a DHCP lease." ++ [10] ++ concat (map nameserver servers).

(** A directory of files, each with its mode; [create] makes a file with the
    mode the umask leaves. *)
Abbreviation Dir := (gmap bytes (Z * bytes)).
Inductive FileStep :=
| CreateDirAll
| Create (name : bytes) (umasked : Z)
| SetPermissions (name : bytes) (mode : Z)
| Append (name : bytes) (b : Z)
| SyncAll (name : bytes)
| Rename (from to : bytes).
Definition file_step (d : Dir) (s : FileStep) : Dir :=
  match s with
  | CreateDirAll | SyncAll _ => d
  | Create n mode => <[n := (from_option fst mode (d !! n), [])]> d
  | SetPermissions n mode => alter (fun f => (mode, snd f)) n d
  | Append n b => alter (fun f => (fst f, snd f ++ [b])) n d
  | Rename a b => match d !! a with Some f => <[b := f]> (delete a d) | None => d end
  end.
Definition file_run (d : Dir) (steps : list FileStep) : Dir := fold_left file_step steps d.

Definition write_resolv_conf (umasked : Z) (servers : list Z) : list FileStep :=
  match servers with
  | [] => []
  | _ => [CreateDirAll; Create RESOLV_TMP umasked; SetPermissions RESOLV_TMP MODE_READABLE]
         ++ map (Append RESOLV_TMP) (resolv_text servers) ++ [SyncAll RESOLV_TMP; Rename RESOLV_TMP RESOLV_CONF]
  end.

(** What the steps before the renaming touch. *)
Definition on_tmp (s : FileStep) : Prop :=
  match s with
  | CreateDirAll | SyncAll _ => True
  | Create n _ | SetPermissions n _ | Append n _ => n = RESOLV_TMP
  | Rename _ _ => False
  end.
Lemma on_tmp_run steps d name : Forall on_tmp steps -> name <> RESOLV_TMP -> file_run d steps !! name = d !! name.
Proof.
  intros Hs Hn%not_eq_sym. revert d. induction Hs as [|s steps Hs _ IH]; intros d; [done|]. unfold file_run in *. cbn [fold_left].
  rewrite IH. destruct s; cbn [on_tmp file_step] in *; subst; first [done|by rewrite lookup_insert_ne|by rewrite lookup_alter_ne].
Qed.
Lemma appended d name f text : d !! name = Some f ->
  file_run d (map (Append name) text) !! name = Some (fst f, snd f ++ text).
Proof.
  revert d f. induction text as [|b text IH]; intros d [m c] Hd; cbn [map fst snd]; [by rewrite app_nil_r|].
  unfold file_run in *. cbn [fold_left file_step]. rewrite (IH _ (m, c ++ [b])); [cbn; by rewrite <- app_assoc|].
  by rewrite lookup_alter, Hd; destruct (decide (name = name)).
Qed.

Definition before_rename (umasked : Z) (servers : list Z) : list FileStep :=
  [CreateDirAll; Create RESOLV_TMP umasked; SetPermissions RESOLV_TMP MODE_READABLE]
  ++ map (Append RESOLV_TMP) (resolv_text servers) ++ [SyncAll RESOLV_TMP].
Lemma before_rename_on_tmp umasked servers : Forall on_tmp (before_rename umasked servers).
Proof.
  unfold before_rename. rewrite !Forall_app. split; [repeat constructor|]. split; [|repeat constructor].
  apply Forall_map, Forall_forall. done.
Qed.
Lemma written_tmp umasked servers d :
  file_run d (before_rename umasked servers) !! RESOLV_TMP = Some (MODE_READABLE, resolv_text servers).
Proof.
  unfold before_rename, file_run. rewrite !fold_left_app. cbn [fold_left file_step].
  set (d1 := alter _ _ _). assert (Hd : d1 !! RESOLV_TMP = Some (MODE_READABLE, [])).
  { unfold d1. rewrite lookup_alter, lookup_insert. by repeat case_decide. }
  exact (appended d1 RESOLV_TMP _ (resolv_text servers) Hd).
Qed.

(** C35. Writing resolv.conf is atomic: cut after any of its steps, each octet of
    the write one of them, the file is what it was, or it holds the servers of
    the lease in their order and is readable by everyone, whatever the umask; the
    second only when every step was made; and no other file is touched but its
    temporary one. *)
Theorem resolv_conf_atomic umasked servers d k name :
  let d' := file_run d (take k (write_resolv_conf umasked servers)) in
  (name <> RESOLV_TMP -> name <> RESOLV_CONF -> d' !! name = d !! name)
  /\ (servers <> [] ->
      d' !! RESOLV_CONF = if bool_decide (length (write_resolv_conf umasked servers) <= k)%nat
                          then Some (MODE_READABLE, resolv_text servers) else d !! RESOLV_CONF)
  /\ (servers = [] -> d' = d).
Proof.
  cbv zeta. destruct servers as [|s0 ss]; [cbn; by rewrite take_nil|]. set (servers := s0 :: ss).
  assert (Hw : write_resolv_conf umasked servers = before_rename umasked servers ++ [Rename RESOLV_TMP RESOLV_CONF]).
  { unfold write_resolv_conf, before_rename, servers. rewrite <- !app_assoc. done. }
  rewrite Hw, length_app. cbn [length]. set (pre := before_rename umasked servers).
  assert (Hne : RESOLV_CONF <> RESOLV_TMP) by done.
  destruct (decide (k <= length pre)%nat) as [Hk|Hk].
  - rewrite take_app_le by done. assert (Hp : Forall on_tmp (take k pre)) by apply Forall_take, before_rename_on_tmp.
    split_and!; [intros; by apply on_tmp_run| |done]. intros _. rewrite bool_decide_false by lia. by apply on_tmp_run.
  - rewrite take_ge by (rewrite length_app; cbn [length]; lia). rewrite bool_decide_true by lia.
    unfold file_run at 1 2 3. rewrite !fold_left_app. fold (file_run d pre). cbn [fold_left file_step].
    pose proof (written_tmp umasked servers d) as Ht. fold pre in Ht. rewrite Ht. split_and!; [| |done].
    + intros H1 H2. rewrite lookup_insert_ne, lookup_delete_ne by congruence. apply on_tmp_run; [apply before_rename_on_tmp|done].
    + intros _. by rewrite lookup_insert; destruct (decide _).
Qed.
(** Cut before the renaming, an earlier lease's file is still there; after it,
    the new one's is. *)
Lemma resolv_conf_atomic_witness :
  let d : Dir := {[RESOLV_CONF := (MODE_READABLE, resolv_text [0x01010101])]} in
  let steps := write_resolv_conf 384 [0xC0A80001; 0x08080808] in
  file_run d (take (length steps - 1) steps) !! RESOLV_CONF = Some (MODE_READABLE, resolv_text [0x01010101])
  /\ file_run d steps !! RESOLV_CONF
     = Some (MODE_READABLE, ascii_of "# Written by cawd from a DHCP lease." ++ [10]
         ++ ascii_of "nameserver 192.168.0.1" ++ [10] ++ ascii_of "nameserver 8.8.8.8" ++ [10]).
Proof.
  intros d steps. split.
  - destruct (resolv_conf_atomic 384 [0xC0A80001; 0x08080808] d (length steps - 1) RESOLV_CONF) as (_ & H & _).
    etransitivity; [apply H; discriminate|]. vm_compute. reflexivity.
  - destruct (resolv_conf_atomic 384 [0xC0A80001; 0x08080808] d (length steps) RESOLV_CONF) as (_ & H & _).
    rewrite take_ge in H by (apply le_n). etransitivity; [apply H; discriminate|]. vm_compute. reflexivity.
Defined.
