(* ===== verification/Loop.v ===== *)
(** * The daemon on its descriptors: [cawd], reactor.rs, ipc.rs and main.rs

    [Reactor] is given what each ready descriptor delivered.  Here the loop is
    on the descriptors themselves: which are watched and for what ([wait]), what
    is done with what poll reports ([dispatch]), the octets read from the
    clients' sockets and written to them ([Server]), and every way the loop
    ends; then the program around it, from its arguments to its exit code.

    A [Wake] is what the kernel says when poll returns: what it reports of each
    descriptor, and what the reads that follow will find.  [traffic] is what has
    gone over the clients' sockets, in order. *)
From S2P Require Import Prelude Effects Text.
From S2P Require Calls Crypto Nl80211 Links Ipc Auth Profile Server Startup Conn Engine Reactor.

(** ** What poll watches and reports *)

Inductive Watched := WTimer | WSignal | WListener | WWireless | WLinks | WEapol | WDhcp | WClient (id : Server.ClientId).
#[export] Instance Watched_eq_dec : EqDecision Watched.
Proof. solve_decision. Defined.

Record PollFlags := { f_in : bool; f_out : bool; f_err : bool; f_hup : bool; f_nval : bool }.
Definition IN : PollFlags := {| f_in := true; f_out := false; f_err := false; f_hup := false; f_nval := false |}.
Definition OUT : PollFlags := {| f_in := false; f_out := true; f_err := false; f_hup := false; f_nval := false |}.
Definition union (a b : PollFlags) : PollFlags :=
  {| f_in := f_in a || f_in b; f_out := f_out a || f_out b; f_err := f_err a || f_err b;
     f_hup := f_hup a || f_hup b; f_nval := f_nval a || f_nval b |}.
Definition is_empty (f : PollFlags) : bool := negb (f_in f || f_out f || f_err f || f_hup f || f_nval f).

Record Wake := {
  revents : Watched -> PollFlags;
  accepted : list Server.Accepted;
  received : Server.ClientId -> list Server.Received;
  wireless_events : list Nl80211.Event;
  link_events : list Links.LinkEvent;
  frames : list bytes;
  datagrams : list bytes;
  (* what [timerfd_settime] answers at the end of the turn *)
  armed : option Z;
}.
Inductive Poll := Woke (t : Wake) | Interrupted | PollFailed (errno : Z).

(** What went over the clients' sockets: who connected, the octets read and the
    requests they made, what each client was to be told -- by the reactor, or of a
    line that is no request --, the octets queued for it and those written. *)
Inductive Traffic :=
| Came (id : Server.ClientId)
| Got (id : Server.ClientId) (data : bytes)
| Asked (id : Server.ClientId) (q : Ipc.Request)
| Said (id : Server.ClientId) (r : Engine.Reply)
| Refused (id : Server.ClientId) (r : Engine.Reply)
| Queued (id : Server.ClientId) (data : bytes)
| Wrote (id : Server.ClientId) (data : bytes).

(** [serde_json], as the daemon uses it: a line read as a request, the text of
    its complaint, a reply as a line; and the sockets: what [send] answers to
    the writes of the n-th flush, given what is pending. *)
Class Wires := {
  from_slice : bytes -> option Ipc.Request;
  json_error : bytes -> bytes;
  encode : Engine.Reply -> option bytes;
  taken : nat -> bytes -> list Server.Sent;
}.

Section loop.
Context `{Crypto.CryptoPrims} {SaeP DotP : Type} `{Crypto.PmkProvider SaeP} `{Crypto.PmkProvider DotP}
  {build : Conn.Build SaeP DotP} `{Profile.Json} {W : Type} `{Engine.Kernel W} `{Wires}.

Record Loop := {
  reactor : Reactor.Reactor SaeP DotP W;
  ipc : Server.Server;
  signals : bool;
  flushes : nat;
  traffic : list Traffic;
}.

Definition set_reactor v (l : Loop) : Loop :=
  {| reactor := v; ipc := ipc l; signals := signals l; flushes := flushes l; traffic := traffic l |}.
Definition set_ipc v (l : Loop) : Loop :=
  {| reactor := reactor l; ipc := v; signals := signals l; flushes := flushes l; traffic := traffic l |}.
Definition flushed (l : Loop) : Loop :=
  {| reactor := reactor l; ipc := ipc l; signals := signals l; flushes := S (flushes l); traffic := traffic l |}.
Definition note (t : list Traffic) (l : Loop) : Loop :=
  {| reactor := reactor l; ipc := ipc l; signals := signals l; flushes := flushes l; traffic := traffic l ++ t |}.

Abbreviation op := (act Loop Engine.Effect).

(** *** Writing *)

(** [Client::flush] on a connection's record *)
Definition flush_with (i : Server.ClientId) (c : Server.Client) : op unit :=
  l ← get_state;
  let (c', w) := Server.flush (taken (flushes l) (Server.pending c)) c in
  _ ← modify flushed;
  _ ← modify (set_ipc (Server.client_mut i (fun _ => c') (ipc l)));
  modify (note [Wrote i w]).
(** [Server::flush] *)
Definition flush (i : Server.ClientId) : op unit :=
  l ← get_state; with_some (Server.client i (ipc l)) (flush_with i).
(** [Server::send]: a reply that would not encode is dropped. *)
Definition send (i : Server.ClientId) (r : Engine.Reply) : op unit :=
  l ← get_state;
  with_some (Server.client i (ipc l)) (fun c =>
    with_some (encode r) (fun b =>
      _ ← modify (note [Queued i b]);
      flush_with i (Server.set_output (Server.out c ++ b) (Server.sent c) c))).

(** *** The reactor's fields lent to its handlers

    The replies a handler makes go to the sockets in the order it makes them. *)
Definition post (e : Engine.Effect) : op unit :=
  match e with
  | Engine.Send i r => _ ← modify (note [Said i r]); send i r
  | Engine.Call _ => mret tt
  end.
Definition serving (m : act (Reactor.Reactor SaeP DotP W) Engine.Effect unit) : op unit := fun l out =>
  match m (reactor l) out with
  | Some (_, r, out') => for_each (drop (length out) out') post (set_reactor r l) out'
  | None => None
  end.

(** *** Reading *)

(** What one pass of [Server::read]'s loop takes in. *)
Fixpoint octets (ks : list Server.Received) : bytes :=
  match ks with
  | Server.ReadInterrupted :: ks => octets ks
  | Server.Data b :: ks => b ++ octets ks
  | _ => []
  end.

Definition refusal (d : Ipc.Decoded (T := Ipc.Request)) : Engine.Reply :=
  Engine.RspError match d with
  | Ipc.Malformed line => Engine.CMessage (ascii_of "malformed message: " ++ json_error line)
  | _ => Engine.CText "request too long"
  end.

(** [Server::read] *)
Definition read (ks : list Server.Received) (i : Server.ClientId) : op (list Ipc.Request) :=
  l ← get_state;
  match Server.client i (ipc l) with
  | None => mret []
  | Some c =>
      let '(requests, refusals, c') := Server.read from_slice ks c in
      _ ← modify (set_ipc (Server.client_mut i (fun _ => c') (ipc l)));
      _ ← modify (note [Got i (octets ks)]);
      _ ← for_each refusals (fun d => _ ← modify (note [Refused i (refusal d)]); send i (refusal d));
      mret requests
  end.

(** [for request in self.ipc.read(id) { self.handle(id, request) }] *)
Definition serve (ks : list Server.Received) (i : Server.ClientId) : op unit :=
  requests ← read ks i;
  for_each requests (fun q => _ ← modify (note [Asked i q]); serving (Reactor.handle i q)).

(** *** Connections *)

(** What the reactor sees of the clients: who they are. *)
Definition peers (s : Server.Server) : list (Server.ClientId * Auth.Peer) :=
  map (fun c => (Server.id c, Server.peer c)) (Server.clients s).
Definition accept (ks : list Server.Accepted) : op (list Server.ClientId) :=
  l ← get_state;
  let (ids, s) := Server.accept ks (ipc l) in
  _ ← modify (set_ipc s);
  _ ← modify (note (map Came ids));
  _ ← modify (fun l => set_reactor (Reactor.set_clients (peers s) (reactor l)) l);
  mret ids.
(** [for id in self.ipc.reap() { self.forget(id) }] *)
Definition reap : op unit :=
  l ← get_state;
  let (gone, s) := Server.reap (ipc l) in
  _ ← modify (set_ipc s);
  for_each gone (fun i => serving (Reactor.reap i)).

(** *** The poll set *)

Definition watch_if (b : bool) (w : Watched) : list (Watched * PollFlags) := if b then [(w, IN)] else [].
Definition client_flags (c : Server.Client) : PollFlags := if Server.has_pending_output c then union IN OUT else IN.
Definition watched (l : Loop) : list (Watched * PollFlags) :=
  let ports := Engine.ports (Reactor.inner (reactor l)) in
  [(WTimer, IN)] ++ watch_if (signals l) WSignal ++ [(WListener, IN)]
  ++ watch_if (Engine.nl ports) WWireless ++ watch_if (Reactor.has_links (reactor l)) WLinks
  ++ watch_if (Engine.eapol ports) WEapol ++ watch_if (is_some (Engine.dhcp ports)) WDhcp
  ++ map (fun c => (WClient (Server.id c), client_flags c)) (Server.clients (ipc l)).
(** What [wait] returns once poll has *)
Definition wait (t : Wake) (l : Loop) : list (Watched * PollFlags) :=
  List.filter (fun r => negb (is_empty (snd r))) (map (fun w => (fst w, revents t (fst w))) (watched l)).

(** *** The turn *)

Definition dispatch (t : Wake) (ready : Watched * PollFlags) : op unit :=
  let (source, re) := ready in
  match source with
  | WTimer => serving (Reactor.dispatch Reactor.STimer)
  | WSignal => serving (Reactor.dispatch Reactor.SSignal)
  | WListener => ids ← accept (accepted t); for_each ids (fun i => serve (received t i) i)
  | WClient i =>
      _ ← when (f_in re || f_hup re) (serve (received t i) i);
      _ ← when (f_out re) (flush i);
      when (f_err re || f_nval re) (l ← get_state; modify (set_ipc (Server.close i (ipc l))))
  | WWireless => serving (Reactor.dispatch (Reactor.SWireless (wireless_events t)))
  | WLinks => serving (Reactor.dispatch (Reactor.SLinks (link_events t)))
  | WEapol => serving (Reactor.dispatch (Reactor.SEapol (frames t)))
  | WDhcp => serving (Reactor.dispatch (Reactor.SDhcp (datagrams t)))
  end.

Definition turn (t : Wake) : op unit :=
  l ← get_state;
  let ready := wait t l in
  _ ← serving Reactor.check_resume;
  _ ← for_each ready (dispatch t);
  _ ← reap;
  serving Reactor.rearm.

(** How [run] ends, if it has: by being asked to, or on an error of poll or of
    the timer. *)
Inductive Outcome := Running | Stopped | Failed (errno : Z).

Fixpoint turns (l : list Poll) : op Outcome :=
  s ← get_state;
  if Reactor.stopping (reactor s) then _ ← serving Reactor.shutdown; mret Stopped
  else match l with
  | [] => mret Running
  | Interrupted :: l => turns l
  | PollFailed e :: _ => mret (Failed e)
  | Woke t :: l =>
      _ ← turn t;
      match armed t with Some e => mret (Failed e) | None => turns l end
  end.
(** [run]; [first] is what arming the timer before the loop answers. *)
Definition run (first : option Z) (l : list Poll) : op Outcome :=
  _ ← serving Reactor.start;
  match first with Some e => mret (Failed e) | None => turns l end.

(** ** The program *)

(** What could be opened: each missing piece is warned of, and done without;
    only the listening socket and the timer are asked for. *)
Record Opened := {
  o_signals : option bytes;
  o_nl : option bytes;
  o_events : option bytes;
  o_rtnl : option bytes;
  o_links : option bytes;
  o_timer : option Z;
}.
Definition there (o : option bytes) : bool := match o with None => true | Some _ => false end.
Definition warn (o : option bytes) (text : bytes -> bytes) : list bytes :=
  match o with None => [] | Some e => [Startup.log_warn (text e)] end.
Definition warnings (o : Opened) : list bytes :=
  warn (o_signals o) (fun e => ascii_of "no signal handling: " ++ e ++ ascii_of "; stop with `caw shutdown`")
  ++ (if there (o_nl o) then warn (o_events o) (fun e => ascii_of "no wireless events: " ++ e) else warn (o_nl o) id)
  ++ warn (o_rtnl o) (fun e => ascii_of "no rtnetlink: " ++ e)
  ++ warn (o_links o) (fun e => ascii_of "no link notifications: " ++ e).

(** [Reactor::new], behind the binding of the socket *)
Definition Loop_new (auto : bool) (o : Opened) (w : W) (store : Profile.Fs) : Loop :=
  {| reactor := Reactor.Reactor_new auto (there (o_nl o) && there (o_events o)) (there (o_rtnl o)) (there (o_links o)) w store;
     ipc := {| Server.clients := []; Server.next_id := 1 |};
     signals := there (o_signals o); flushes := 0; traffic := [] |}.

(** What the program leaves behind: its exit code once it has one, what it
    printed and logged, the calls on its socket, and the loop's own state. *)
Record Ended := {
  code : option Z;
  printed : bytes;
  logged : list bytes;
  socket_ops : list Startup.Op;
  final : option (Loop * list Engine.Effect);
}.
Definition EXIT_SUCCESS : Z := 0.
Definition EXIT_FAILURE : Z := 1.
(** The lines logged, in order; one that cannot be written panics. *)
Definition logging `{Startup.Console} (lines : list bytes) (k : option Ended) : option Ended :=
  if forallb Startup.stderr_takes lines then k else None.
Definition gave_up `{Startup.Console} (errno_text : Z -> bytes) (e : Startup.Error) (logged : list bytes)
    (ops : list Startup.Op) (final : option (Loop * list Engine.Effect)) : option Ended :=
  let line := Startup.log_error (Startup.Error_fmt errno_text e) in
  logging [line] (Some {| code := Some EXIT_FAILURE; printed := []; logged := logged ++ [line];
                          socket_ops := ops; final := final |}).

(** [main]: whatever the loop ends in, dropping the server removes its socket;
    until the server is there, nothing does.  [parent] is [Path::parent]. *)
Definition main `{Startup.Host} `{Startup.Console} (errno_text : Z -> bytes) (parent : bytes -> option bytes)
    (argv : list bytes) (o : Opened) (first : option Z) (l : list Poll) (w : W) (store : Profile.Fs) : option Ended :=
  match Startup.parse_args argv with
  | Panic => None
  | Err e => gave_up errno_text e [] [] None
  | Ok None =>
      if Startup.stdout_takes Startup.USAGE
      then Some {| code := Some EXIT_SUCCESS; printed := Startup.USAGE; logged := []; socket_ops := []; final := None |}
      else None
  | Ok (Some options) =>
      let path := Startup.socket options in
      match Startup.Server_bind (parent path) path [] with
      | (_, Panic) => None
      | (ops, Err e) => gave_up errno_text e [] ops None
      | (ops, Ok _) =>
          let logged := Startup.log_info (ascii_of "listening on " ++ path) :: warnings o in
          let dropped := ops ++ [Startup.Unlink path] in
          logging logged
            match o_timer o with
            | Some e => gave_up errno_text (Startup.Socket e) logged dropped None
            | None =>
                match run first l (Loop_new (Startup.autoconnect options) o w store) [] with
                | None => None
                | Some (Running, s, out) =>
                    Some {| code := None; printed := []; logged := logged; socket_ops := ops; final := Some (s, out) |}
                | Some (Stopped, s, out) =>
                    Some {| code := Some EXIT_SUCCESS; printed := []; logged := logged; socket_ops := dropped;
                            final := Some (s, out) |}
                | Some (Failed e, s, out) => gave_up errno_text (Startup.Socket e) logged dropped (Some (s, out))
                end
            end
      end
  end.
End loop.

Arguments Loop : clear implicits.
