(* ===== verification/LoopProps.v ===== *)
(** * What the loop makes of the sockets

    Whatever the kernel reports, in whatever pieces the clients' octets come and
    however little their sockets take, the loop of [Loop] plays a history of the
    reactor: so what [ReactorProps] and [ReactorClients] show of histories
    holds of the daemon on its descriptors.  The requests of that history are those the
    octets spell, and what it answers is what is written. *)
From S2P Require Import Prelude Effects Text.
From S2P Require Crypto Nl80211 Ipc Auth Profile Text Server Startup Conn ConnProps Engine EngineProps EngineClients DaemonDemo.
From S2P Require Import Reactor ReactorProps ReactorClients.
From S2P Require Import Loop.

#[local] Existing Instances EngineClients.prompted_leaves.

(** ** The traffic of one client *)

Section traffic.
Context `{Wires}.

Definition got (i : Server.ClientId) (tr : list Traffic) : list bytes :=
  omap (fun t => match t with Got c b => if c =? i then Some b else None | _ => None end) tr.
Definition asked_on (i : Server.ClientId) (tr : list Traffic) : list Ipc.Request :=
  omap (fun t => match t with Asked c q => if c =? i then Some q else None | _ => None end) tr.
Definition said (i : Server.ClientId) (tr : list Traffic) : list Engine.Reply :=
  omap (fun t => match t with Said c r => if c =? i then Some r else None | _ => None end) tr.
Definition queued (i : Server.ClientId) (tr : list Traffic) : bytes :=
  concat (omap (fun t => match t with Queued c b => if c =? i then Some b else None | _ => None end) tr).
Definition wrote (i : Server.ClientId) (tr : list Traffic) : bytes :=
  concat (omap (fun t => match t with Wrote c b => if c =? i then Some b else None | _ => None end) tr).

(** What a client was told: by the reactor or of its lines, since it connected. *)
Definition refused (i : Server.ClientId) (tr : list Traffic) : list Engine.Reply :=
  omap (fun t => match t with Refused c r => if c =? i then Some r else None | _ => None end) tr.
Definition tells (i : Server.ClientId) (t : Traffic) : option Engine.Reply :=
  match t with Said c r | Refused c r => if c =? i then Some r else None | _ => None end.
Definition came (i : Server.ClientId) (tr : list Traffic) : bool :=
  existsb (fun t => match t with Came c => c =? i | _ => false end) tr.
Fixpoint told (i : Server.ClientId) (tr : list Traffic) : list Engine.Reply :=
  match tr with
  | [] => []
  | Came c :: tr => if c =? i then omap (tells i) tr else told i tr
  | _ :: tr => told i tr
  end.

(** The requests of a client in a history, and what it was sent in a log. *)
Definition requests_in (i : Server.ClientId) (l : list Step) : list Ipc.Request :=
  omap (fun st => match st with Ask c q => if c =? i then Some q else None | _ => None end) l.
Definition sends (i : Server.ClientId) (out : list Engine.Effect) : list Engine.Reply :=
  omap (fun e => match e with Engine.Send c r => if c =? i then Some r else None | _ => None end) out.

Lemma got_app i a b : got i (a ++ b) = got i a ++ got i b.
Proof. apply omap_app. Qed.
Lemma asked_app i a b : asked_on i (a ++ b) = asked_on i a ++ asked_on i b.
Proof. apply omap_app. Qed.
Lemma said_app i a b : said i (a ++ b) = said i a ++ said i b.
Proof. apply omap_app. Qed.
Lemma refused_app i a b : refused i (a ++ b) = refused i a ++ refused i b.
Proof. apply omap_app. Qed.
Lemma queued_app i a b : queued i (a ++ b) = queued i a ++ queued i b.
Proof. unfold queued. by rewrite omap_app, concat_app. Qed.
Lemma wrote_app i a b : wrote i (a ++ b) = wrote i a ++ wrote i b.
Proof. unfold wrote. by rewrite omap_app, concat_app. Qed.

Lemma came_app i a b : came i (a ++ b) = came i a || came i b.
Proof. apply existsb_app. Qed.
Lemma told_came i a b : came i a = true -> told i (a ++ b) = told i a ++ omap (tells i) b.
Proof.
  induction a as [|t a IH]; cbn [app told]; [done|]. destruct t; cbn; try exact IH.
  destruct (id =? i); cbn; [by intros _; rewrite omap_app|exact IH].
Qed.
Lemma told_coming i a b : came i a = false -> told i (a ++ b) = told i b.
Proof. induction a as [|t a IH]; [done|]. destruct t; cbn; try exact IH. destruct (id =? i); [done|exact IH]. Qed.

(** What a connection's passes of reading make of their octets, each decoded
    with what was held back. *)
Fixpoint decoded (held : bytes) (passes : list bytes) : list (Ipc.Decoded (T := Ipc.Request)) * bytes :=
  match passes with
  | [] => ([], held)
  | p :: passes =>
      let (ds, held) := Ipc.drain from_slice Ipc.MAX_LINE (held ++ p) in
      let (ds', held) := decoded held passes in (ds ++ ds', held)
  end.

Lemma decoded_app held a b :
  decoded held (a ++ b)
  = (let (ds, held) := decoded held a in let (ds', held) := decoded held b in (ds ++ ds', held)).
Proof.
  revert held. induction a as [|p a IH]; intros held; cbn [app decoded]; [by destruct (decoded held b)|].
  destruct (Ipc.drain _ _ _) as [ds held1]. rewrite IH. destruct (decoded held1 a) as [ds1 held2].
  destruct (decoded held2 b) as [ds2 held3]. by rewrite app_assoc.
Qed.

(** They say what is heard, pause by pause. *)
Lemma decoded_heard held passes :
  Ipc.split_line held = None -> fst (decoded held passes) = Ipc.heard from_slice Ipc.MAX_LINE held passes.
Proof.
  revert held. induction passes as [|p passes IH]; intros held Hh; cbn [decoded Ipc.heard]; [done|].
  pose proof (Ipc.lines_rest held p Hh) as Hr. rewrite Ipc.drain_held by done.
  destruct (Ipc.lines held p) as [ls rest]. cbn [snd] in Hr. destruct (Ipc.MAX_LINE <? len rest).
  - specialize (IH [] eq_refl). destruct (decoded [] passes) as [ds held']. cbn [fst] in *. by rewrite IH, <- app_assoc.
  - specialize (IH rest Hr). destruct (decoded rest passes) as [ds held']. cbn [fst] in *. by rewrite IH.
Qed.
End traffic.

(** ** The server's records *)

Lemma client_found i s c : Server.client i s = Some c -> c ∈ Server.clients s /\ Server.id c = i.
Proof.
  unfold Server.client. induction (Server.clients s) as [|x l IH]; cbn; [done|].
  destruct (Z.eqb_spec (Server.id x) i); [intros [= ->]; split; [left|done]|].
  intros Hc. destruct (IH Hc). split; [by right|done].
Qed.
Lemma update_found i c' l c :
  Server.id c' = i -> NoDup (map Server.id l) -> c ∈ Server.update i (fun _ => c') l ->
  c = c' \/ (c ∈ l /\ Server.id c <> i).
Proof.
  intros Hi. induction l as [|x l IH]; cbn [Server.update map]; [by intros _ ?%elem_of_nil|].
  intros [Hx Hn]%NoDup_cons. destruct (Z.eqb_spec (Server.id x) i) as [Hxi|Hxi]; intros [->|Hc]%elem_of_cons.
  - by left.
  - right. split; [by right|]. intros Hci. apply Hx. rewrite Hxi, <- Hci. by apply list_elem_of_fmap_2.
  - right. split; [left|done].
  - destruct (IH Hn Hc) as [->|[? ?]]; [by left|right; split; [by right|done]].
Qed.
(** What of a record no flush changes. *)
Definition same_input (c c' : Server.Client) : Prop :=
  Server.id c' = Server.id c /\ Server.peer c' = Server.peer c /\ Server.decoder c' = Server.decoder c
  /\ (Server.closed c = true -> Server.closed c' = true).
Lemma settle_same c : same_input c (Server.settle c).
Proof. unfold Server.settle, same_input. by repeat case_match. Qed.
Lemma flush_same ks c : same_input c (fst (Server.flush ks c)).
Proof.
  revert c. induction ks as [|k ks IH]; intros c; cbn [Server.flush]; destruct (Server.has_pending_output c);
    try (by apply settle_same). destruct k as [n| | |]; cbn [fst].
  - specialize (IH (Server.set_output (Server.out c) (Server.sent c + n) c)). destruct (Server.flush ks _) as [c' w]. exact IH.
  - apply settle_same.
  - apply IH.
  - by split_and!.
Qed.

(** ** The clients, as the reactor's handlers leave them *)
Section seen.
Context `{Crypto.CryptoPrims} {SaeP DotP : Type} `{Crypto.PmkProvider SaeP} `{Crypto.PmkProvider DotP}
  {build : Conn.Build SaeP DotP} `{Profile.Json} {W : Type} `{Engine.Kernel W}.

Abbreviation reactor_state := (Reactor.Reactor SaeP DotP W).
Abbreviation handler A := (act reactor_state Engine.Effect A).

Definition same_clients (x y : reactor_state * list Engine.Effect) : Prop :=
  Reactor.clients (fst y) = Reactor.clients (fst x).
#[local] Instance same_clients_preorder : PreOrder same_clients.
Proof. split; [done|]. intros x y z. unfold same_clients. congruence. Qed.

Lemma lend_seen {A} (m : act (Engine.Daemon SaeP DotP W) Engine.Effect A) : drifts same_clients (Reactor.lend m).
Proof. intros r out. unfold drifts_at, Reactor.lend. by destruct (m _ _) as [[[a d] out']|]. Qed.
Lemma modify_seen f : (forall r : reactor_state, Reactor.clients (f r) = Reactor.clients r) -> drifts same_clients (modify f).
Proof. intros Hf. apply drifts_modify. intros r out. apply Hf. Qed.

Lemma try_seen {A B} (m : handler (Engine.Cause + A)) (k : A -> handler (Engine.Cause + B)) :
  drifts same_clients m -> (forall a, drifts same_clients (k a)) -> drifts same_clients (try m k).
Proof. intros Hm Hk. unfold try. drifts_step; [done|]. destruct a; [apply drifts_ret, _|apply Hk]. Qed.

Ltac seen_step :=
  first
  [ solve [eauto with seen]
  | lazymatch goal with
    | |- drifts _ (try _ _) => apply try_seen; [|intros ?]
    | |- drifts _ (Reactor.lend _) => apply lend_seen
    | |- drifts _ (modify _) => by apply modify_seen
    | |- drifts _ (Reactor.answer_with _ _ _) => unfold Reactor.answer_with
    end
  | progress unfold Reactor.ok, Reactor.fails, Reactor.call_or, Reactor.call, Reactor.reply, Reactor.on_inner,
      Reactor.need_wireless, Reactor.need_rtnl, Reactor.need, Reactor.arm, Reactor.cancel, Reactor.with_engine,
      Reactor.instant_now
  | drifts_step ].
Ltac solve_seen := repeat seen_step.

Lemma set_link_up_seen ifindex up : drifts same_clients (Reactor.set_link_up ifindex up).
Proof. unfold Reactor.set_link_up. solve_seen. Qed.
Lemma disable_power_save_seen ifindex : drifts same_clients (Reactor.disable_power_save ifindex).
Proof. unfold Reactor.disable_power_save. solve_seen. Qed.
Lemma wireless_interface_seen port : drifts same_clients (Reactor.wireless_interface port).
Proof. unfold Reactor.wireless_interface. solve_seen. Qed.
#[local] Hint Resolve set_link_up_seen disable_power_save_seen wireless_interface_seen : seen.
Lemma up_seen port : drifts same_clients (Reactor.wireless_ifindex_up port).
Proof. unfold Reactor.wireless_ifindex_up. solve_seen. Qed.
Lemma finish_scan_seen i r : drifts same_clients (Reactor.finish_scan i r).
Proof. unfold Reactor.finish_scan. solve_seen. Qed.
Lemma start_scan_seen i port : drifts same_clients (Reactor.start_scan i port).
Proof. unfold Reactor.start_scan. solve_seen. Qed.
Lemma networks_seen ifindex : drifts same_clients (Reactor.networks ifindex).
Proof. unfold Reactor.networks. solve_seen. Qed.
Lemma ports_summary_seen only : drifts same_clients (Reactor.ports_summary only).
Proof. unfold Reactor.ports_summary. solve_seen. Qed.
Lemma set_port_up_seen name up : drifts same_clients (Reactor.set_port_up name up).
Proof. unfold Reactor.set_port_up. solve_seen. Qed.
Lemma may_change_state_seen i : drifts same_clients (Reactor.may_change_state i).
Proof. unfold Reactor.may_change_state. solve_seen. Qed.
Lemma status_seen : drifts same_clients Reactor.status.
Proof. unfold Reactor.status. solve_seen. Qed.
#[local] Hint Resolve up_seen finish_scan_seen start_scan_seen networks_seen ports_summary_seen set_port_up_seen
  may_change_state_seen status_seen : seen.
Lemma serve_seen i q : drifts same_clients (Reactor.serve i q).
Proof. destruct q; cbn [Reactor.serve]; solve_seen. Qed.
Lemma on_scan_done_seen ifindex : drifts same_clients (Reactor.on_scan_done ifindex).
Proof. unfold Reactor.on_scan_done. solve_seen. Qed.
Lemma on_autoconnect_seen : drifts same_clients Reactor.on_autoconnect.
Proof. unfold Reactor.on_autoconnect, Reactor.begin_autoconnect. solve_seen. Qed.
#[local] Hint Resolve serve_seen on_scan_done_seen on_autoconnect_seen : seen.
Lemma handle_seen i q : drifts same_clients (Reactor.handle i q).
Proof. unfold Reactor.handle. solve_seen. Qed.
#[local] Hint Resolve handle_seen : seen.
Lemma event_seen s : event_ok s -> drifts same_clients (Reactor.dispatch s).
Proof.
  destruct s; cbn [event_ok Reactor.dispatch]; intros Hs; try done;
    unfold Reactor.on_timer, Reactor.on_expired, Reactor.on_wireless, Reactor.on_links, Reactor.on_eapol, Reactor.on_dhcp;
    solve_seen.
Qed.
Lemma check_resume_seen : drifts same_clients Reactor.check_resume.
Proof. unfold Reactor.check_resume, Reactor.read_suspend_offset. solve_seen. Qed.
Lemma rearm_seen : drifts same_clients Reactor.rearm.
Proof. unfold Reactor.rearm. solve_seen. Qed.
#[local] Hint Resolve event_seen check_resume_seen rearm_seen : seen.

Definition clients_after (st : Step) (l : list (Engine.ClientId * Auth.Peer)) : list (Engine.ClientId * Auth.Peer) :=
  match st with
  | Arrive new => l ++ new
  | Gone i => List.filter (fun c => negb (fst c =? i)) l
  | _ => l
  end.
Lemma step_seen st r out :
  step_ok st -> wlp (step_op st) (fun _ r' _ => Reactor.clients r' = clients_after st (Reactor.clients r)) r out.
Proof.
  intros Hs. assert (Hd : forall m : handler unit, drifts same_clients m ->
    wlp m (fun _ r' _ => Reactor.clients r' = Reactor.clients r) r out) by (intros m Hm; apply Hm).
  destruct st; cbn [step_op clients_after step_ok] in *; try (apply Hd; solve [unfold Reactor.start, Reactor.shutdown; solve_seen]).
  - done.
  - unfold Reactor.reap. apply wlp_bind, wlp_modify. eapply wlp_mono.
    + assert (Hf : drifts same_clients (Reactor.forget id)) by (unfold Reactor.forget; solve_seen). apply Hf.
    + cbn. by unfold same_clients.
Qed.
End seen.

(** What the sockets take is at least an octet and at most what is offered. *)
Class WiresOk `{Wires} := taken_honest n b : Server.honest (taken n b) (length b).

(** ** Output *)
Section loop.
Context `{Crypto.CryptoPrims} {SaeP DotP : Type} `{Crypto.PmkProvider SaeP} `{Crypto.PmkProvider DotP}
  {build : Conn.Build SaeP DotP} `{Profile.Json} {W : Type} `{Engine.Kernel W} `{WiresOk}.

Abbreviation state := (Loop SaeP DotP W).
Abbreviation op := (act state Engine.Effect).

(** A connection's record against the traffic: what was queued for it was
    written or is pending, unless it was given up; and what was queued is all it
    was told. *)
Definition box (tr : list Traffic) (c : Server.Client) : Prop :=
  came (Server.id c) tr = true /\ queued (Server.id c) tr = concat (omap encode (told (Server.id c) tr))
  /\ (Server.sent c <= length (Server.out c))%nat /\ len (Server.pending c) <= Server.MAX_OUTBOX
  /\ (Server.closed c = false -> queued (Server.id c) tr = wrote (Server.id c) tr ++ Server.pending c).
Record outs (l : state) : Prop := {
  outs_wf : Server.wf (ipc l);
  outs_box : forall c, c ∈ Server.clients (ipc l) -> box (traffic l) c;
  outs_new : forall i, Server.next_id (ipc l) <= i ->
    queued i (traffic l) = [] /\ wrote i (traffic l) = [] /\ came i (traffic l) = false;
}.
(** Traffic that is nothing to a client. *)
Definition quiet (j : Server.ClientId) (t : list Traffic) : Prop :=
  queued j t = [] /\ wrote j t = [] /\ omap (tells j) t = [] /\ came j t = false.
Lemma box_quiet tr t c : quiet (Server.id c) t -> box tr c -> box (tr ++ t) c.
Proof.
  intros (Hq & Hw & Ht & _) (Hc & Hb & ? & ? & ?). unfold box.
  by rewrite came_app, Hc, queued_app, wrote_app, told_came, Hq, Hw, Ht, !app_nil_r by done.
Qed.
Lemma outs_note t (l : state) : (forall j, quiet j t) -> outs l -> outs (note t l).
Proof.
  intros Ht [? Hb Hn]. split; cbn [note ipc traffic]; [done|intros c Hc; by apply box_quiet, Hb|].
  intros i Hi. destruct (Ht i) as (Hq & Hw & _ & Hc), (Hn i Hi) as (? & ? & ?).
  rewrite queued_app, wrote_app, came_app, Hq, Hw, Hc. by rewrite !app_nil_r, orb_false_r.
Qed.

(** Between two states nothing was read and nobody came or left. *)
Record held (l l' : state) : Prop := {
  held_reactor : reactor l' = reactor l;
  held_signals : signals l' = signals l;
  held_next : Server.next_id (ipc l') = Server.next_id (ipc l);
  held_peers : peers (ipc l') = peers (ipc l);
  held_records : forall c', c' ∈ Server.clients (ipc l') -> exists c, c ∈ Server.clients (ipc l) /\ same_input c c';
  held_got : forall i, got i (traffic l') = got i (traffic l);
  held_asked : forall i, asked_on i (traffic l') = asked_on i (traffic l);
}.
#[global] Instance held_preorder : PreOrder held.
Proof.
  split.
  - intros l. split; try done. intros c Hc. by exists c.
  - intros a b c [] []. split; try congruence. intros c2 Hc2.
    destruct (held_records1 c2 Hc2) as (c1 & Hc1 & (? & ? & ? & ?)).
    destruct (held_records0 c1 Hc1) as (c0 & Hc0 & (? & ? & ? & ?)). exists c0. split; [done|].
    split_and!; [congruence..|auto].
Qed.

Lemma peers_update i c c' s :
  Server.client i s = Some c -> Server.peer c' = Server.peer c -> Server.id c' = i ->
  peers (Server.client_mut i (fun _ => c') s) = peers s.
Proof.
  unfold Server.client, peers, Server.client_mut. cbn [Server.clients]. intros Hc Hp Hi.
  induction (Server.clients s) as [|x l IH]; [done|]. cbn in *. destruct (Z.eqb_spec (Server.id x) i) as [Hx|Hx].
  - injection Hc as ->. cbn. by rewrite Hp, Hi, Hx.
  - cbn. by rewrite IH.
Qed.

Lemma client_mut_ids i c' s : Server.id c' = i ->
  map Server.id (Server.clients (Server.client_mut i (fun _ => c') s)) = map Server.id (Server.clients s).
Proof.
  intros Hi. unfold Server.client_mut. cbn [Server.clients]. induction (Server.clients s) as [|x l IH]; [done|]. cbn.
  destruct (Z.eqb_spec (Server.id x) i); cbn; congruence.
Qed.
Lemma wf_ids s s' :
  map Server.id (Server.clients s') = map Server.id (Server.clients s) -> Server.next_id s' = Server.next_id s ->
  Server.wf s -> Server.wf s'.
Proof.
  intros Hm Hn [Hnd Hl]. split; [by rewrite Hm|]. rewrite Hn. apply Forall_forall. intros c Hc.
  assert (Hi : Server.id c ∈ map Server.id (Server.clients s)) by (rewrite <- Hm; by apply list_elem_of_fmap_2).
  apply list_elem_of_fmap in Hi as (c0 & -> & Hc0). by apply (proj1 (Forall_forall _ _) Hl).
Qed.
Lemma replace_wf i c' s : Server.id c' = i -> Server.wf s -> Server.wf (Server.client_mut i (fun _ => c') s).
Proof. intros Hi. apply wf_ids; [by apply client_mut_ids|done]. Qed.

(** One connection's record is replaced, and the traffic of no other grows. *)
Lemma outs_replace i c c' t f (l : state) :
  outs l -> Server.client i (ipc l) = Some c -> Server.id c' = i ->
  (forall j, j <> i -> quiet j t) ->
  box (traffic l ++ t) c' ->
  outs {| reactor := reactor l; ipc := Server.client_mut i (fun _ => c') (ipc l); signals := signals l;
          flushes := f; traffic := traffic l ++ t |}.
Proof.
  intros [Hwf Hbox Hnew] Hc Hi Ht Hb. apply client_found in Hc as [Hc Hci].
  split; cbn [ipc traffic].
  - by apply replace_wf.
  - intros x Hx. destruct (update_found i c' (Server.clients (ipc l)) x Hi (proj1 Hwf) Hx) as [->|[Hx' Hxi]]; [done|].
    apply box_quiet; [by apply Ht|by apply Hbox].
  - intros j Hj. cbn in Hj. destruct (Ht j) as (Hq & Hw & _ & Hcm).
    { intros ->. apply (proj1 (Forall_forall _ _) (proj2 Hwf)) in Hc. cbn in Hc. lia. }
    destruct (Hnew j Hj) as (? & ? & Hcm'). rewrite queued_app, wrote_app, came_app, Hq, Hw, Hcm, Hcm', !app_nil_r. done.
Qed.

Lemma held_replace i c c' t f (l : state) :
  Server.client i (ipc l) = Some c -> same_input c c' ->
  (forall j, got j t = [] /\ asked_on j t = []) ->
  held l {| reactor := reactor l; ipc := Server.client_mut i (fun _ => c') (ipc l); signals := signals l;
            flushes := f; traffic := traffic l ++ t |}.
Proof.
  intros Hc Hsame Ht. pose proof (client_found _ _ _ Hc) as [Hin Hi]. pose proof Hsame as (Hid & Hp & Hd & Hcl).
  split; cbn [reactor signals ipc traffic]; try done.
  - by apply (peers_update i c); [|done|congruence].
  - intros x Hx. unfold Server.client_mut in Hx. cbn [Server.clients] in Hx.
    assert (Hor : x = c' \/ x ∈ Server.clients (ipc l)).
    { clear -Hx. induction (Server.clients (ipc l)) as [|y l' IH]; cbn in Hx; [by apply elem_of_nil in Hx|].
      destruct (Server.id y =? i); apply elem_of_cons in Hx as [->|Hx]; [by left|right; by right|right; left|].
      destruct (IH Hx); [by left|right; by right]. }
    destruct Hor as [->|Hx']; [by exists c|exists x; by split_and!].
  - intros j. unfold got. rewrite omap_app. fold (got j t). destruct (Ht j) as [-> _]. by rewrite app_nil_r.
  - intros j. unfold asked_on. rewrite omap_app. fold (asked_on j t). destruct (Ht j) as [_ ->]. by rewrite app_nil_r.
Qed.

(** A flush of a record to which octets were queued, or none; [pre] is what was
    noted of it before. *)
Definition about (i : Server.ClientId) (b : bytes) (pre : list Traffic) : Prop :=
  (forall j, j <> i -> quiet j pre) /\ (forall j, got j pre = [] /\ asked_on j pre = [])
  /\ queued i pre = b /\ wrote i pre = [] /\ concat (omap encode (omap (tells i) pre)) = b.
Lemma flush_holds i c b pre (l : state) :
  outs l -> Server.client i (ipc l) = Some c -> about i b pre ->
  let c0 := Server.set_output (Server.out c ++ b) (Server.sent c) c in
  let (c', w) := Server.flush (taken (flushes l) (Server.pending c0)) c0 in
  let l' := {| reactor := reactor l; ipc := Server.client_mut i (fun _ => c') (ipc l); signals := signals l;
               flushes := S (flushes l); traffic := traffic l ++ pre ++ [Wrote i w] |} in
  outs l' /\ held l l'.
Proof.
  intros Hl Hc (Hoth & Hin' & Hqp & Hwp & Htp) c0. pose proof (client_found _ _ _ Hc) as [Hin Hi].
  destruct (outs_box l Hl c Hin) as (Hcm & Hq' & Hs & Hm & Hq).
  assert (Hp0 : Server.pending c0 = Server.pending c ++ b) by (unfold Server.pending, c0; cbn; by rewrite drop_app_le).
  pose proof (Server.flush_spec (taken (flushes l) (Server.pending c0)) c0) as Hf.
  pose proof (flush_same (taken (flushes l) (Server.pending c0)) c0) as Hsame.
  destruct (Server.flush _ c0) as [c' w]. cbn [fst] in Hsame. cbn zeta.
  destruct Hf as (_ & Hd & Hb & Hs'); [cbn; rewrite length_app; lia|apply taken_honest|].
  assert (Hid : Server.id c' = i) by (destruct Hsame as (-> & _); done).
  assert (Hw : forall j, j <> i -> wrote j [Wrote i w] = [])
    by (intros j Hj; unfold wrote; cbn; by rewrite (proj2 (Z.eqb_neq i j)) by done).
  assert (Hwi : wrote i [Wrote i w] = w) by (unfold wrote; cbn; by rewrite Z.eqb_refl; cbn; rewrite app_nil_r).
  split; [|apply (held_replace i c); [done|exact Hsame|]].
  - apply (outs_replace i c); [done..| |].
    + intros j Hj. destruct (Hoth j Hj) as (H1' & H2' & H3' & H4'). unfold quiet.
      rewrite queued_app, wrote_app, omap_app, came_app, H1', H2', H3', H4', Hw by done. done.
    + rewrite Hi in Hcm, Hq', Hq. unfold box. rewrite Hid, came_app, Hcm, queued_app, queued_app, wrote_app, wrote_app.
      rewrite told_came by done. rewrite !omap_app, !concat_app, Htp, Hqp, Hwp, Hwi, Hq'. cbn.
      change (queued i [Wrote i w]) with (@nil Z). rewrite !app_nil_r. split_and!; [done..|].
      intros Hcl. destruct Hd as [[Hd _]|[Hd Hcl']]; [congruence|].
      change (Server.closed c0) with (Server.closed c) in Hcl'.
      rewrite <- app_assoc, <- Hd, Hp0, <- Hq', Hq, app_assoc; [done|congruence].
  - intros j. destruct (Hin' j) as [Hg Ha]. rewrite got_app, asked_app, Hg, Ha. done.
Qed.

(** What is written does not say more. *)
Definition mute (t : Traffic) : Prop := match t with Said _ _ | Refused _ _ => False | _ => True end.
Definition writes (l l' : state) : Prop :=
  held l l' /\ outs l' /\ forall j, said j (traffic l') = said j (traffic l) /\ refused j (traffic l') = refused j (traffic l).

Lemma said_silent j a b : Forall mute b -> said j (a ++ b) = said j a /\ refused j (a ++ b) = refused j a.
Proof.
  intros Hb. rewrite said_app, refused_app. enough (said j b = [] /\ refused j b = []) as [-> ->] by (by rewrite !app_nil_r).
  induction Hb as [|t b Ht _ IH]; [done|]. destruct t; by try exact IH.
Qed.

Lemma set_output_same c : Server.set_output (Server.out c ++ []) (Server.sent c) c = c.
Proof. rewrite app_nil_r. by destruct c. Qed.

Lemma flush_writes i (l : state) out : outs l -> wp (flush i) (fun _ l' out' => out' = out /\ writes l l') l out.
Proof.
  intros Hl. unfold flush. wp_steps; [|split; [done|split; [reflexivity|done]]].
  unfold flush_with. wp_steps. pose proof (flush_holds i a [] [] l Hl) as Hf.
  specialize (Hf ltac:(done) ltac:(done)).
  cbn zeta in Hf. rewrite set_output_same in Hf. destruct (Server.flush _ a) as [c' w]. wp_steps.
  destruct Hf as [Ho Hh]. split; [done|]. split; [exact Hh|]. split; [exact Ho|].
  intros j. apply (said_silent j _ [Wrote i w]). by constructor.
Qed.

(** A client is told something, and it is sent. *)
Definition telling (i : Server.ClientId) (r : Engine.Reply) (t : Traffic) : Prop := t = Said i r \/ t = Refused i r.
Lemma telling_other i r t j : telling i r t -> j <> i -> quiet j [t].
Proof.
  intros Ht Hj. apply not_eq_sym, Z.eqb_neq in Hj.
  destruct Ht as [-> | ->]; split_and!; try done; cbn; by rewrite Hj.
Qed.
Lemma telling_reads i r t j : telling i r t -> got j [t] = [] /\ asked_on j [t] = [].
Proof. by intros [-> | ->]. Qed.
Lemma telling_said i r t : telling i r t -> omap (tells i) [t] = [r].
Proof. intros [-> | ->]; cbn; by rewrite Z.eqb_refl. Qed.
Lemma held_note t (l : state) : (forall j, got j t = [] /\ asked_on j t = []) -> held l (note t l).
Proof.
  intros Ht. split; try done; [intros c Hc; by exists c|..]; intros j; cbn [note traffic];
    rewrite ?got_app, ?asked_app; destruct (Ht j) as [Hg Ha]; by rewrite ?Hg, ?Ha, app_nil_r.
Qed.

Definition told_of (l : state) (t : list Traffic) (l' : state) : Prop :=
  held l l' /\ outs l' /\ forall j, said j (traffic l') = said j (traffic l ++ t) /\ refused j (traffic l') = refused j (traffic l ++ t).
Lemma tell_holds i r t (l : state) out :
  outs l -> telling i r t ->
  wp (_ ← modify (note [t]); send i r) (fun _ l' out' => out' = out /\ told_of l [t] l') l out.
Proof.
  intros Hl Ht. wp_steps. unfold send. wp_steps.
  - unfold flush_with. wp_steps. destruct (telling_reads i r t i Ht) as [_ _].
    assert (Hab : about i a0 [t; Queued i a0]).
    { split_and!.
      - intros j Hj. pose proof (telling_other i r t j Ht Hj) as (H1' & H2' & H3' & H4').
        assert (Hij : (i =? j) = false) by (by apply Z.eqb_neq, not_eq_sym).
        change [t; Queued i a0] with ([t] ++ [Queued i a0]). unfold quiet.
        rewrite queued_app, wrote_app, omap_app, came_app, H1', H2', H3', H4'. unfold queued. cbn. by rewrite Hij.
      - intros j. change [t; Queued i a0] with ([t] ++ [Queued i a0]). rewrite got_app, asked_app.
        destruct (telling_reads i r t j Ht) as [-> ->]. done.
      - unfold queued. destruct Ht as [-> | ->]; cbn; rewrite Z.eqb_refl; cbn; by rewrite app_nil_r.
      - by destruct Ht as [-> | ->].
      - change [t; Queued i a0] with ([t] ++ [Queued i a0]). rewrite omap_app, (telling_said i r t Ht). cbn.
        match goal with He : encode r = Some a0 |- _ => rewrite He end. cbn. by rewrite app_nil_r. }
    pose proof (flush_holds i a a0 [t; Queued i a0] l Hl) as Hf. specialize (Hf ltac:(done) Hab).
    cbn zeta in Hf. cbn [flushes note ipc]. destruct (Server.flush _ _) as [c' w]. wp_steps.
    destruct Hf as [Ho Hh]. unfold note, set_ipc, flushed. cbn. rewrite <- !app_assoc.
    split; [done|]. split; [exact Hh|]. split; [exact Ho|].
    intros j. change ([t] ++ [Queued i a0] ++ [Wrote i w]) with ([t] ++ [Queued i a0; Wrote i w]). rewrite app_assoc.
    apply said_silent. by repeat constructor.
  - split; [done|]. split; [apply held_note; intros; by apply (telling_reads i r)|]. split; [|done].
    destruct Hl as [? Hb Hn]. split; cbn [note ipc traffic]; [done| |].
    + intros c Hc. destruct (decide (Server.id c = i)) as [Hci|Hci].
      * destruct (Hb c Hc) as (Hcm & Hq & ? & ? & Hcl). rewrite Hci in *. unfold box.
        rewrite Hci, came_app, Hcm, queued_app, wrote_app, told_came, omap_app, concat_app, (telling_said i r t Ht) by done.
        assert (queued i [t] = [] /\ wrote i [t] = []) as [-> ->] by (by destruct Ht as [-> | ->]).
        cbn [omap list_omap]. match goal with He : encode r = None |- _ => rewrite He end. by rewrite !app_nil_r.
      * apply box_quiet; [by apply (telling_other i r)|by apply Hb].
    + intros j Hj. destruct (Hn j Hj) as (Hq & Hw & Hcm). rewrite queued_app, wrote_app, came_app, Hq, Hw, Hcm.
      by destruct Ht as [-> | ->].
  - split; [done|]. split; [apply held_note; intros; by apply (telling_reads i r)|]. split; [|done].
    destruct Hl as [? Hb Hn]. split; cbn [note ipc traffic]; [done| |].
    + intros c Hc. apply box_quiet; [|by apply Hb]. apply (telling_other i r); [done|]. intros Hci.
      enough (is_Some (Server.client i (ipc l))) as [? ?] by (cbn in *; congruence).
      subst i. unfold Server.client. apply (find_first_is_Some _ _ c Hc), Z.eqb_refl.
    + intros j Hj. destruct (Hn j Hj) as (Hq & Hw & Hcm). rewrite queued_app, wrote_app, came_app, Hq, Hw, Hcm.
      by destruct Ht as [-> | ->].
Qed.

(** The replies of a handler, posted. *)
Definition posts (es : list Engine.Effect) (l l' : state) : Prop :=
  held l l' /\ outs l' /\ forall j, said j (traffic l') = said j (traffic l) ++ sends j es /\ refused j (traffic l') = refused j (traffic l).
Lemma post_posts e (l : state) out : outs l -> wp (post e) (fun _ l' out' => out' = out /\ posts [e] l l') l out.
Proof.
  intros Hl. destruct e as [A s|i r]; cbn [post].
  - wp_steps. split; [done|]. split; [reflexivity|]. split; [done|]. intros j. cbn. by rewrite app_nil_r.
  - eapply wp_mono; [apply (tell_holds i r (Said i r)); [done|by left]|]. cbn beta.
    intros _ l' out' (-> & Hh & Ho & Hs). split; [done|]. split; [done|]. split; [done|]. intros j.
    destruct (Hs j) as [-> ->]. rewrite said_app, refused_app. by rewrite (app_nil_r (refused j _)).
Qed.
Lemma post_all es (l : state) out : outs l -> wp (for_each es post) (fun _ l' out' => out' = out /\ posts es l l') l out.
Proof.
  revert l. induction es as [|e es IH]; intros l Hl; cbn [for_each].
  - wp_steps. split; [done|]. split; [reflexivity|]. split; [done|]. intros j. cbn. by rewrite app_nil_r.
  - wp_steps. eapply wp_mono; [by apply post_posts|]. cbn beta. intros _ l1 out1 (-> & Hh1 & Ho1 & Hs1).
    eapply wp_mono; [by apply IH|]. cbn beta. intros _ l2 out2 (-> & Hh2 & Ho2 & Hs2). split; [done|].
    split; [by etrans|]. split; [done|]. intros j. destruct (Hs2 j) as [-> ->], (Hs1 j) as [-> ->].
    rewrite <- app_assoc. split; [|done]. f_equal. change (e :: es) with ([e] ++ es). unfold sends. by rewrite omap_app.
Qed.
End loop.

(** ** The loop plays a history *)
Section plays.
Context `{Crypto.CryptoLaws} {SaeP DotP : Type} `{Crypto.PmkProviderSafe SaeP} `{Crypto.PmkProviderSafe DotP}
  {build : Conn.Build SaeP DotP} `{!ConnProps.BuildSafe build} `{Profile.Json} {W : Type} `{Engine.KernelOk W}
  `{WiresOk}.

Abbreviation state := (Loop SaeP DotP W).
Abbreviation op := (act state Engine.Effect).

(** From [r0], with the requests of each client read and not yet handled, and
    its lines not yet answered, [due]: the reactor is where the history leads, and
    the traffic says so. *)
Abbreviation pending_lines := (list (Ipc.Decoded (T := Ipc.Request))).
Record inv (r0 : Reactor.Reactor SaeP DotP W) (due : Server.ClientId -> list Ipc.Request * pending_lines) (hist : list Step)
    (l : state) (out : list Engine.Effect) : Prop := {
  inv_outs : outs l;
  inv_held : forall c, c ∈ Server.clients (ipc l) -> snd (decoded [] (got (Server.id c) (traffic l))) = Server.decoder c;
  inv_asked : forall i, asked_on i (traffic l) ++ fst (due i) = Server.requests_of (fst (decoded [] (got i (traffic l))));
  inv_refused : forall i, refused i (traffic l) ++ map refusal (snd (due i))
    = map refusal (Server.refusals_of (fst (decoded [] (got i (traffic l)))));
  inv_new : forall i, Server.next_id (ipc l) <= i -> got i (traffic l) = [];
  inv_said : forall i, said i (traffic l) = sends i out;
  inv_play : play hist r0 [] = Some (tt, reactor l, out);
  inv_good : good [] (reactor l);
}.
(** The requests of the history are those of the traffic, and the reactor sees
    the server's clients. *)
Definition matched (hist : list Step) (l : state) : Prop :=
  forall i, asked_on i (traffic l) = requests_in i hist.
Definition sees (l : state) : Prop := Reactor.clients (reactor l) = peers (ipc l).

Lemma play_snoc hist st r0 r out r' out' :
  play hist r0 [] = Some (tt, r, out) -> step_op st r out = Some (tt, r', out') ->
  play (hist ++ [st]) r0 [] = Some (tt, r', out').
Proof.
  intros Hp Hs. unfold play in *. rewrite for_each_app. unfold mbind, act_bind. rewrite Hp. cbn [for_each].
  unfold mbind, act_bind. by rewrite Hs.
Qed.

Lemma held_inv r0 due hist (l l' : state) out :
  held l l' -> outs l' ->
  (forall j, said j (traffic l') = said j (traffic l) /\ refused j (traffic l') = refused j (traffic l)) ->
  inv r0 due hist l out -> inv r0 due hist l' out.
Proof.
  intros [] Ho Hs []. split; [done|..].
  - intros c' Hc'. destruct (held_records0 c' Hc') as (c & Hc & (Hid & _ & Hd & _)).
    rewrite Hid, Hd, held_got0. by apply inv_held0.
  - intros i. rewrite held_asked0, held_got0. apply inv_asked0.
  - intros i. destruct (Hs i) as [_ ->]. rewrite held_got0. apply inv_refused0.
  - intros i. rewrite held_next0, held_got0. apply inv_new0.
  - intros i. destruct (Hs i) as [-> _]. apply inv_said0.
  - by rewrite held_reactor0.
  - by rewrite held_reactor0.
Qed.
Lemma held_matched hist (l l' : state) : held l l' -> matched hist l -> matched hist l'.
Proof. intros Hh Hm i. rewrite (held_asked _ _ Hh). apply Hm. Qed.
Lemma held_sees (l l' : state) : held l l' -> sees l -> sees l'.
Proof. unfold sees. intros Hh Hs. by rewrite (held_reactor _ _ Hh), (held_peers _ _ Hh). Qed.

Lemma serving_step r0 st due hist (l : state) out :
  inv r0 due hist l out -> step_ok st ->
  wp (serving (step_op st)) (fun _ l' out' =>
    inv r0 due (hist ++ [st]) l' out' /\ held (set_reactor (reactor l') l) l'
    /\ Reactor.clients (reactor l') = clients_after st (Reactor.clients (reactor l))) l out.
Proof.
  intros Hi Hst. pose proof (step_keeps st Hst (reactor l) out (inv_good _ _ _ _ _ Hi)) as Hk.
  pose proof (step_asks st (reactor l) out) as Ha. pose proof (step_seen st (reactor l) out Hst) as Hc.
  unfold wp, serving. unfold wp in Hk. unfold drifts_at in Ha. unfold wlp in Hc.
  destruct (step_op st (reactor l) out) as [[[[] r'] out1]|] eqn:Hstep; [|done].
  destruct Ha as (new & Hnew & _). cbn [snd] in Hnew. subst out1. rewrite drop_app_length.
  assert (Ho : outs (set_reactor r' l)) by (destruct (inv_outs _ _ _ _ _ Hi); by split).
  pose proof (post_all new (set_reactor r' l) (out ++ new) Ho) as Hp. unfold wp in Hp.
  destruct (for_each new post _ _) as [[[[] l'] out']|]; [|done].
  destruct Hp as (-> & Hh & Ho' & Hs).
  assert (Hr : reactor l' = r') by apply (held_reactor _ _ Hh).
  split_and!; [|by rewrite Hr|by rewrite Hr].
  destruct Hi, Hh. cbn [ipc traffic set_reactor] in *. split; try done.
  - intros c' Hc'. destruct (held_records0 c' Hc') as (c & Hcin & (Hid & _ & Hd & _)).
    rewrite Hid, Hd, held_got0. by apply inv_held0.
  - intros i. rewrite held_asked0, held_got0. apply inv_asked0.
  - intros i. destruct (Hs i) as [_ ->]. rewrite held_got0. apply inv_refused0.
  - intros i. rewrite held_next0, held_got0. apply inv_new0.
  - intros i. destruct (Hs i) as [-> _]. rewrite inv_said0. unfold sends. by rewrite omap_app.
  - rewrite Hr. by eapply play_snoc.
  - by rewrite Hr.
Qed.

(** *** Reading *)

Lemma receive_spec ks c :
  let c' := Server.receive ks c in
  Server.id c' = Server.id c /\ Server.peer c' = Server.peer c /\ Server.out c' = Server.out c
  /\ Server.sent c' = Server.sent c /\ Server.decoder c' = Server.decoder c ++ octets ks
  /\ (Server.closed c' = false -> Server.closed c = false).
Proof.
  revert c. induction ks as [|k ks IH]; intros c; cbn [Server.receive octets].
  - by rewrite app_nil_r.
  - destruct k; cbn; rewrite ?app_nil_r; try (by split_and!); [|apply IH].
    destruct (IH (Server.set_decoder (Server.decoder c ++ b) c)) as (? & ? & ? & ? & Hd & ?).
    cbn in *. split_and!; try done. by rewrite Hd, app_assoc.
Qed.

Definition nothing_due (i : Server.ClientId) : list Ipc.Request * pending_lines := ([], []).
Definition only (i : Server.ClientId) (qs : list Ipc.Request) (ds : pending_lines) (j : Server.ClientId) : list Ipc.Request * pending_lines :=
  if j =? i then (qs, ds) else ([], []).

Lemma requests_app a b : Server.requests_of (a ++ b) = Server.requests_of a ++ Server.requests_of b.
Proof. apply omap_app. Qed.
Lemma refusals_app a b : Server.refusals_of (a ++ b) = Server.refusals_of a ++ Server.refusals_of b.
Proof. apply List.filter_app. Qed.

(** One pass over one connection's socket, before the refusals go out. *)
Definition passed (i : Server.ClientId) (ks : list Server.Received) (c' : Server.Client) (l : state) : state :=
  note [Got i (octets ks)] (set_ipc (Server.client_mut i (fun _ => c') (ipc l)) l).
Lemma pass_holds r0 ks i c hist (l : state) out :
  inv r0 nothing_due hist l out -> Server.client i (ipc l) = Some c ->
  let '(qs, ds, c') := Server.read from_slice ks c in
  inv r0 (only i qs ds) hist (passed i ks c' l) out /\ peers (ipc (passed i ks c' l)) = peers (ipc l).
Proof.
  intros Hi Hc. pose proof (client_found _ _ _ Hc) as [Hin Hid]. unfold Server.read.
  destruct (receive_spec ks c) as (Hid' & Hp' & Ho' & Hs' & Hd' & Hcl').
  pose proof (inv_held _ _ _ _ _ Hi c Hin) as Hheld.
  destruct (Ipc.drain from_slice Ipc.MAX_LINE (Server.decoder (Server.receive ks c))) as [ds rest] eqn:Hdrain.
  set (c' := if existsb _ ds then _ else _).
  assert (Hc' : Server.id c' = i /\ Server.peer c' = Server.peer c /\ Server.decoder c' = rest
    /\ Server.out c' = Server.out c /\ Server.sent c' = Server.sent c /\ (Server.closed c' = false -> Server.closed c = false)).
  { unfold c'. destruct (existsb _ ds); cbn; rewrite ?Hid', ?Hp', ?Ho', ?Hs'; split_and!; auto; done. }
  clearbody c'. destruct Hc' as (Hci & Hcp & Hcd & Hco & Hcs & Hcc).
  assert (Hgot : got i [Got i (octets ks)] = [octets ks] /\ forall j, j <> i -> got j [Got i (octets ks)] = []).
  { split; [|intros j Hj]; unfold got; cbn; [by rewrite Z.eqb_refl|by rewrite (proj2 (Z.eqb_neq i j)) by done]. }
  destruct Hgot as [Hgot Hgot'].
  assert (Hnext : decoded [] (got i (traffic l) ++ [octets ks]) = (fst (decoded [] (got i (traffic l))) ++ ds, rest)).
  { rewrite decoded_app. rewrite Hid in Hheld. destruct (decoded [] (got i (traffic l))) as [ds0 held0].
    cbn [snd] in Hheld. subst held0. cbn [decoded fst]. rewrite Hd' in Hdrain. rewrite Hdrain. by rewrite app_nil_r. }
  split; [|by apply (peers_update i c)].
  destruct Hi as [Houts Hrec Hask Href Hnew Hsaid Hplay Hgood]. split; cbn [ipc traffic reactor passed note set_ipc]; try done.
  - refine (outs_replace i c c' [Got i (octets ks)] (flushes l) l Houts Hc Hci _ _); [done|].
    apply box_quiet; [done|]. destruct (outs_box l Houts c Hin) as (Hb1 & Hb2 & Hb3 & Hb4 & Hb5).
    rewrite Hid in *. unfold box, Server.pending in *. rewrite Hco, Hcs, Hci. split_and!; auto.
  - intros x Hx. destruct (update_found i c' _ x Hci (proj1 (outs_wf l Houts)) Hx) as [->|[Hx' Hxi]]; rewrite got_app.
    + by rewrite Hci, Hgot, Hnext, Hcd.
    + rewrite Hgot', app_nil_r by done. by apply Hrec.
  - intros j. rewrite asked_app, got_app. change (asked_on j [Got i (octets ks)]) with (@nil Ipc.Request). rewrite app_nil_r.
    specialize (Hask j). unfold nothing_due in Hask. cbn in Hask. rewrite app_nil_r in Hask. unfold only.
    destruct (Z.eqb_spec j i) as [->|Hj]; [by rewrite Hgot, Hnext, Hask; cbn [fst]; rewrite requests_app|by rewrite Hgot', !app_nil_r].
  - intros j. rewrite refused_app, got_app. change (refused j [Got i (octets ks)]) with (@nil Engine.Reply). rewrite app_nil_r.
    specialize (Href j). unfold nothing_due in Href. cbn in Href. rewrite app_nil_r in Href. unfold only.
    destruct (Z.eqb_spec j i) as [->|Hj]; [|by rewrite Hgot', !app_nil_r].
    by rewrite Hgot, Hnext, Href; cbn [fst snd]; rewrite refusals_app, map_app.
  - intros j Hj. rewrite got_app, Hnew by done. apply Hgot'. intros ->.
    apply (proj1 (Forall_forall _ _) (proj2 (outs_wf l Houts))) in Hin. cbn in Hin, Hj. lia.
  - intros j. rewrite said_app. change (said j [Got i (octets ks)]) with (@nil Engine.Reply). rewrite app_nil_r. apply Hsaid.
Qed.

(** What a step of the loop that plays nothing leaves. *)
Definition at_rest r0 due hist (l : state) out : Prop := inv r0 due hist l out /\ matched hist l /\ sees l.

(** The lines that are no requests, answered in order. *)
Lemma refuse_all i qs ds r0 hist (l : state) out :
  at_rest r0 (only i qs ds) hist l out ->
  wp (for_each ds (fun d => _ ← modify (note [Refused i (refusal d)]); send i (refusal d)))
    (fun _ l' out' => out' = out /\ at_rest r0 (only i qs []) hist l' out) l out.
Proof.
  revert l. induction ds as [|d ds IH]; intros l (Hi & Hm & Hs); cbn [for_each].
  - apply wp_ret. by split.
  - apply wp_bind. eapply wp_mono; [apply (tell_holds i (refusal d)); [apply (inv_outs _ _ _ _ _ Hi)|by right]|].
    cbn beta. intros _ l1 out1 (-> & Hh & Ho & Hsd). apply IH. split; [|split].
    + destruct Hi as [Houts Hrec Hask Href Hnew Hsaid Hplay Hgood], Hh. split; try done.
      * intros c' Hc'. destruct (held_records0 c' Hc') as (c & Hc & (Hid & _ & Hd & _)).
        rewrite Hid, Hd, held_got0. by apply Hrec.
      * intros j. rewrite held_asked0, held_got0, <- Hask. unfold only. by destruct (j =? i).
      * intros j. destruct (Hsd j) as [_ ->]. rewrite refused_app, held_got0, <- Href, <- app_assoc. f_equal.
        unfold only, refused. cbn. rewrite (Z.eqb_sym i j). by destruct (j =? i).
      * intros j. rewrite held_next0, held_got0. apply Hnew.
      * intros j. destruct (Hsd j) as [-> _]. rewrite said_app, (app_nil_r (said j _)). apply Hsaid.
      * by rewrite held_reactor0.
      * by rewrite held_reactor0.
    + by apply (held_matched _ _ _ Hh).
    + by apply (held_sees _ _ Hh).
Qed.
Lemma read_holds r0 ks i hist (l : state) out :
  at_rest r0 nothing_due hist l out ->
  wp (read ks i) (fun qs l' out' => out' = out /\ at_rest r0 (only i qs []) hist l' out) l out.
Proof.
  intros (Hi & Hm & Hs). unfold read. wp_steps. destruct (Server.client i (ipc l)) as [c|] eqn:Hc.
  - pose proof (pass_holds r0 ks i c hist l out Hi Hc) as Hpass. destruct (Server.read from_slice ks c) as [[qs refusals] c'].
    destruct Hpass as [Hi1 Hp1]. wp_steps. change (note _ _) with (passed i ks c' l).
    eapply wp_mono; [apply (refuse_all i qs refusals r0 hist)|].
    + split; [exact Hi1|]. split.
      * intros j. cbn [passed note traffic set_ipc]. rewrite asked_app.
        change (asked_on j [Got i (octets ks)]) with (@nil Ipc.Request). rewrite app_nil_r. apply Hm.
      * unfold sees. by rewrite Hp1.
    + cbn beta. intros _ l' out' [-> Hl']. apply wp_ret. by split.
  - apply wp_ret. split; [done|]. split; [|done]. destruct Hi. split; try done; intros j;
    unfold only; destruct (j =? i); [apply inv_asked0|apply inv_asked0|apply inv_refused0|apply inv_refused0].
Qed.

(** *** Steps that advance the history *)
Definition advances {A} (m : op A) : Prop :=
  forall r0 hist l out, at_rest r0 nothing_due hist l out ->
  wp m (fun _ l' out' => exists more, at_rest r0 nothing_due (hist ++ more) l' out') l out.

Lemma advances_ret {A} (a : A) : advances (mret a).
Proof. intros r0 hist l out Hl. apply wp_ret. exists []. by rewrite app_nil_r. Qed.
Lemma advances_bind {A B} (m : op A) (k : A -> op B) : advances m -> (forall a, advances (k a)) -> advances (m ≫= k).
Proof.
  intros Hm Hk r0 hist l out Hl. apply wp_bind. eapply wp_mono; [by apply Hm|]. cbn beta. intros a l1 out1 (m1 & H1').
  eapply wp_mono; [by apply Hk|]. cbn beta. intros _ l2 out2 (m2 & H2'). exists (m1 ++ m2). by rewrite app_assoc.
Qed.
Lemma advances_get {B} (k : state -> op B) : (forall l, advances (k l)) -> advances (get_state ≫= k).
Proof. intros Hk r0 hist l out Hl. apply wp_bind, wp_get, Hk, Hl. Qed.
Lemma advances_when b (m : op unit) : advances m -> advances (when b m).
Proof. intros Hm. destruct b; [exact Hm|apply advances_ret]. Qed.
Lemma advances_for_each {A} (l : list A) (k : A -> op unit) : (forall a, advances (k a)) -> advances (for_each l k).
Proof. intros Hk. induction l as [|a l IH]; [apply advances_ret|by apply advances_bind]. Qed.

Lemma requests_in_app i a b : requests_in i (a ++ b) = requests_in i a ++ requests_in i b.
Proof. apply omap_app. Qed.

(** A step of the reactor that is no request and no client's coming or going. *)
Definition plain (st : Step) : Prop := match st with Ask _ _ | Arrive _ | Gone _ => False | _ => step_ok st end.
Lemma serving_advances st : plain st -> advances (serving (step_op st)).
Proof.
  intros Hst r0 hist l out (Hi & Hm & Hs). eapply wp_mono; [apply serving_step; [exact Hi|by destruct st]|].
  cbn beta. intros _ l' out' (Hi' & Hh & Hc). exists [st]. split; [done|]. split.
  - intros i. rewrite (held_asked _ _ Hh), requests_in_app. cbn [set_reactor traffic]. rewrite Hm.
    destruct st; try done; by rewrite app_nil_r.
  - unfold sees. rewrite Hc, (held_peers _ _ Hh). destruct st; try done; exact Hs.
Qed.

(** The requests of one pass, handled in order. *)
Lemma handle_all i qs r0 hist (l : state) out :
  at_rest r0 (only i qs []) hist l out ->
  wp (for_each qs (fun q => _ ← modify (note [Asked i q]); serving (Reactor.handle i q)))
    (fun _ l' out' => exists more, at_rest r0 nothing_due (hist ++ more) l' out') l out.
Proof.
  revert hist l out. induction qs as [|q qs IH]; intros hist l out (Hi & Hm & Hs); cbn [for_each].
  - apply wp_ret. exists []. rewrite app_nil_r. split; [|done]. destruct Hi. split; try done; intros j.
    + specialize (inv_asked0 j). unfold only in inv_asked0. by destruct (j =? i).
    + specialize (inv_refused0 j). unfold only in inv_refused0. by destruct (j =? i).
  - wp_steps. set (l1 := note [Asked i q] l).
    assert (Ha : forall j, asked_on j (traffic l1) = asked_on j (traffic l) ++ (if j =? i then [q] else [])).
    { intros j. unfold l1. cbn [note traffic]. rewrite asked_app. unfold asked_on at 2. cbn. rewrite Z.eqb_sym. by destruct (j =? i). }
    assert (Hi1 : inv r0 (only i qs []) hist l1 out).
    { destruct Hi as [Houts Hrec Hask Href Hnew Hsaid Hplay Hgood].
      assert (Hsame : forall j, got j (traffic l1) = got j (traffic l) /\ said j (traffic l1) = said j (traffic l)
        /\ refused j (traffic l1) = refused j (traffic l)).
      { intros j. unfold l1. cbn [note traffic]. rewrite got_app, said_app, refused_app.
        unfold got at 2, said at 2, refused at 2. cbn. by rewrite !app_nil_r. }
      split; try done.
      - by apply outs_note.
      - intros c Hc. destruct (Hsame (Server.id c)) as (-> & _). by apply Hrec.
      - intros j. destruct (Hsame j) as (-> & _). rewrite Ha, <- Hask, <- app_assoc. f_equal. unfold only.
        by destruct (j =? i).
      - intros j. destruct (Hsame j) as (-> & _ & ->). rewrite <- Href. unfold only. by destruct (j =? i).
      - intros j Hj. destruct (Hsame j) as (-> & _). by apply Hnew.
      - intros j. destruct (Hsame j) as (_ & -> & _). apply Hsaid. }
    change (Reactor.handle i q) with (step_op (SaeP := SaeP) (DotP := DotP) (W := W) (Ask i q)).
    eapply wp_mono; [by apply serving_step|]. cbn beta. intros _ l2 out2 (Hi2 & Hh & Hc).
    eapply wp_mono; [apply (IH (hist ++ [Ask i q]))|].
    + split; [done|]. split.
      * intros j. rewrite (held_asked _ _ Hh), requests_in_app. cbn [set_reactor traffic]. rewrite Ha, Hm. f_equal.
        unfold requests_in. cbn. rewrite Z.eqb_sym. by destruct (i =? j).
      * unfold sees. rewrite Hc, (held_peers _ _ Hh). exact Hs.
    + cbn beta. intros _ l3 out3 (more & H3'). exists (Ask i q :: more). by rewrite (app_assoc hist [Ask i q] more : hist ++ Ask i q :: more = _).
Qed.
Lemma serve_advances ks i : advances (serve ks i).
Proof.
  intros r0 hist l out Hl. unfold serve. wp_steps. eapply wp_mono; [by apply read_holds|]. cbn beta.
  intros qs l' out' (-> & Hl'). by apply handle_all.
Qed.

Lemma flush_advances i : advances (flush i).
Proof.
  intros r0 hist l out (Hi & Hm & Hs). eapply wp_mono; [apply flush_writes, (inv_outs _ _ _ _ _ Hi)|]. cbn beta.
  intros _ l' out' (-> & Hh & Ho & Hsd). exists []. rewrite app_nil_r. split; [by apply (held_inv _ _ _ l)|].
  split; [by apply (held_matched _ l)|by apply (held_sees l)].
Qed.

(** *** Connections *)

Lemma close_advances i : advances (l ← get_state; modify (set_ipc (Server.close i (ipc l)))).
Proof.
  intros r0 hist l out (Hi & Hm & Hs). wp_steps. exists []. rewrite app_nil_r.
  assert (Hsame : forall (cs : list Server.Client) c', c' ∈ Server.update i Server.set_closed cs ->
    exists c, c ∈ cs /\ (c' = c \/ c' = Server.set_closed c)).
  { induction cs as [|x cs IH]; intros c'; cbn [Server.update]; [by intros ?%elem_of_nil|].
    destruct (Server.id x =? i); intros [->|Hc]%elem_of_cons.
    - exists x. split; [left|by right].
    - exists c'. split; [by right|by left].
    - exists x. split; [left|by left].
    - destruct (IH c' Hc) as (c & ? & ?). exists c. split; [by right|done]. }
  assert (Hpeers : peers (Server.close i (ipc l)) = peers (ipc l)).
  { unfold peers, Server.close, Server.client_mut. cbn [Server.clients]. induction (Server.clients (ipc l)) as [|x cs IH]; [done|].
    cbn. destruct (Server.id x =? i); cbn; [done|by rewrite IH]. }
  destruct Hi as [[Hw Hb Hn] Hrec Hask Href Hnew Hsaid Hplay Hgood].
  split; [|split; [done|by unfold sees; cbn [ipc set_ipc reactor]; rewrite Hpeers]]. split; try done.
  - split; [by apply Server.client_mut_wf| |done]. intros c' Hc'. destruct (Hsame _ c' Hc') as (c & Hc & [->| ->]).
    + by apply Hb.
    + destruct (Hb c Hc) as (? & ? & ? & ? & _). split_and!; [done..|]. by cbn.
  - intros c' Hc'. destruct (Hsame _ c' Hc') as (c & Hc & [->| ->]); [by apply Hrec|exact (Hrec c Hc)].
Qed.

(** What accepting adds: connections with nothing read or to be written, whose
    identities nobody had. *)
Definition blank (c : Server.Client) : Prop :=
  Server.out c = [] /\ Server.sent c = 0%nat /\ Server.decoder c = [].
Lemma accept_adds ks s :
  exists new, Server.clients (snd (Server.accept ks s)) = Server.clients s ++ new
    /\ Forall (fun c => blank c /\ Server.next_id s <= Server.id c) new
    /\ Server.next_id s <= Server.next_id (snd (Server.accept ks s))
    /\ fst (Server.accept ks s) = map Server.id new.
Proof.
  revert s. induction ks as [|k ks IH]; intros s; cbn [Server.accept]; [exists []; rewrite app_nil_r; by split_and!|].
  destruct k as [[p|]| | |]; try (exists []; rewrite app_nil_r; by split_and!); [|apply IH..].
  set (s1 := {| Server.clients := _; Server.next_id := _ |}). destruct (IH s1) as (new & Hc & Hn & Hle & Hids).
  destruct (Server.accept ks s1) as [ids s2]. cbn [fst snd s1 Server.clients Server.next_id] in *. eexists (_ :: new).
  split; [by rewrite Hc, <- app_assoc|]. split; [|split; [lia|by rewrite Hids]]. apply Forall_cons_2; [by split|].
  eapply Forall_impl; [exact Hn|]. cbn. intros c [? ?]. split; [done|lia].
Qed.

(** The coming of connections, in the traffic. *)
Lemma came_only j ids :
  queued j (map Came ids) = [] /\ wrote j (map Came ids) = [] /\ omap (tells j) (map Came ids) = []
  /\ got j (map Came ids) = [] /\ asked_on j (map Came ids) = [] /\ said j (map Came ids) = []
  /\ refused j (map Came ids) = [] /\ told j (map Came ids) = [] /\ came j (map Came ids) = existsb (fun c => c =? j) ids.
Proof.
  induction ids as [|i ids (? & ? & Ht & ? & ? & ? & ? & Hl & Hc)]; [done|]. split_and!; try done; cbn [map told came existsb].
  - by rewrite Ht, Hl; destruct (i =? j).
  - unfold came in *. cbn [existsb]. by rewrite Hc.
Qed.

Lemma accept_advances ks : advances (accept ks).
Proof.
  intros r0 hist l out (Hi & Hm & Hs). unfold accept. wp_steps.
  destruct (accept_adds ks (ipc l)) as (new & Hcl & Hnew & Hle & Hids).
  pose proof (Server.accept_fresh ks (ipc l) (outs_wf l (inv_outs _ _ _ _ _ Hi))) as (Hwf & _).
  destruct (Server.accept ks (ipc l)) as [ids s]. cbn [fst snd] in *. subst ids. wp_steps. cbn [note set_ipc reactor].
  set (arrived := map (fun c => (Server.id c, Server.peer c)) new). set (ids := map Server.id new).
  assert (Hp : peers s = Reactor.clients (reactor l) ++ arrived) by (unfold peers, arrived; by rewrite Hcl, map_app, Hs).
  exists [Arrive arrived]. destruct Hi as [[Hw Hb Hn] Hrec Hask Href Hgot Hsaid Hplay Hgood].
  assert (Hblank : forall c, c ∈ Server.clients s -> c ∈ Server.clients (ipc l) \/ c ∈ new).
  { intros c. by rewrite Hcl, elem_of_app. }
  rewrite Forall_forall in Hnew.
  assert (Hold : forall c, c ∈ Server.clients (ipc l) -> came (Server.id c) (map Came ids) = false).
  { intros c Hc. destruct (came_only (Server.id c) ids) as (_ & _ & _ & _ & _ & _ & _ & _ & ->).
    apply not_true_iff_false. intros (i & Hin & ->%Z.eqb_eq)%existsb_exists.
    apply list_elem_of_In, list_elem_of_fmap in Hin as (c' & Heq & Hc'). destruct (Hnew c' Hc') as [_ Hge].
    apply (proj1 (Forall_forall _ _) (proj2 Hw)) in Hc. cbn in Hc. lia. }
  split; [|split].
  - split; cbn [set_reactor note set_ipc ipc traffic reactor]; try done.
    + split; cbn [set_reactor note set_ipc ipc traffic reactor]; [done| |].
      * intros c Hc. destruct (came_only (Server.id c) ids) as (Hq & Hwr & Ht & _ & _ & _ & _ & Hto & Hcm).
        destruct (Hblank c Hc) as [Hin|Hin]; [apply box_quiet; [|by apply Hb]; by split_and!; auto|].
        destruct (Hnew c Hin) as [(Ho & Hse & _) Hge], (Hn _ Hge) as (Hq0 & Hw0 & Hc0).
        unfold box, Server.pending. rewrite Ho, Hse, queued_app, wrote_app, came_app, told_coming, Hq, Hwr, Hq0, Hw0, Hc0, Hto by done.
        split_and!; try done. rewrite Hcm. apply existsb_exists. exists (Server.id c).
        split; [by apply list_elem_of_In, list_elem_of_fmap_2|apply Z.eqb_refl].
      * intros i Hge. destruct (came_only i ids) as (Hq & Hwr & _ & _ & _ & _ & _ & _ & Hcm), (Hn i ltac:(lia)) as (Hq0 & Hw0 & Hc0).
        rewrite queued_app, wrote_app, came_app, Hq, Hwr, Hq0, Hw0, Hc0, Hcm. split_and!; [done..|].
        apply not_true_iff_false. intros (j & Hin & ->%Z.eqb_eq)%existsb_exists.
        apply list_elem_of_In, list_elem_of_fmap in Hin as (c' & Heq & Hc').
        assert (Hlt : Server.id c' < Server.next_id s) by (apply (proj1 (Forall_forall _ _) (proj2 Hwf)); rewrite Hcl, elem_of_app; by right).
        cbn in Hge. lia.
    + intros c Hc. destruct (came_only (Server.id c) ids) as (_ & _ & _ & Hg & _). rewrite got_app, Hg, app_nil_r.
      destruct (Hblank c Hc) as [Hin|Hin]; [by apply Hrec|]. destruct (Hnew c Hin) as [(_ & _ & Hd) Hge]. by rewrite Hgot, Hd.
    + intros i. destruct (came_only i ids) as (_ & _ & _ & Hg & Ha & _). rewrite asked_app, got_app, Hg, Ha, !app_nil_r. by rewrite <- Hask, app_nil_r.
    + intros i. destruct (came_only i ids) as (_ & _ & _ & Hg & _ & _ & Hr & _). rewrite refused_app, got_app, Hg, Hr, !app_nil_r. by rewrite <- Href, app_nil_r.
    + intros i Hge. destruct (came_only i ids) as (_ & _ & _ & Hg & _). rewrite got_app, Hg, app_nil_r. apply Hgot. lia.
    + intros i. destruct (came_only i ids) as (_ & _ & _ & _ & _ & Hsd & _). rewrite said_app, Hsd, app_nil_r. apply Hsaid.
    + rewrite Hp. eapply play_snoc; [exact Hplay|]. done.
  - intros i. destruct (came_only i ids) as (_ & _ & _ & _ & Ha & _). cbn [set_reactor note set_ipc traffic].
    rewrite requests_in_app, asked_app, Ha. unfold requests_in at 2. cbn. rewrite !app_nil_r. apply Hm.
  - unfold sees. cbn. done.
Qed.

(** *** Reaping *)

Definition without (gone : list Z) (l : list (Server.ClientId * Auth.Peer)) : list (Server.ClientId * Auth.Peer) :=
  List.filter (fun c => negb (existsb (Z.eqb (fst c)) gone)) l.
Lemma filter_twice {A} (p q : A -> bool) l : List.filter p (List.filter q l) = List.filter (fun x => q x && p x) l.
Proof. induction l as [|x l IH]; [done|]. cbn. destruct (q x); cbn; [destruct (p x); by rewrite IH|exact IH]. Qed.
Lemma without_snoc gone i l :
  List.filter (fun c => negb (fst c =? i)) (without gone l) = without (gone ++ [i]) l.
Proof.
  unfold without. rewrite filter_twice. apply List.filter_ext. intros c. rewrite existsb_app. cbn [existsb].
  by rewrite orb_false_r, negb_orb.
Qed.
Lemma without_reaped s : NoDup (map Server.id (Server.clients s)) ->
  without (fst (Server.reap s)) (peers s) = peers (snd (Server.reap s)).
Proof.
  unfold without, peers, Server.reap. cbn [fst snd Server.clients]. intros Hn.
  assert (Hk : forall c, c ∈ Server.clients s ->
    existsb (Z.eqb (Server.id c)) (map Server.id (List.filter (fun c => negb (Server.keep c)) (Server.clients s)))
    = negb (Server.keep c)).
  { intros c Hc. destruct (Server.keep c) eqn:Hkc; cbn [negb].
    - apply not_true_iff_false. intros (i & Hi & Heq)%existsb_exists. apply Z.eqb_eq in Heq as <-.
      apply in_map_iff in Hi as (c2 & Heq & Hin). apply filter_In in Hin as [Hin Hkc2]. apply list_elem_of_In in Hin.
      enough (c2 = c) as -> by (by rewrite Hkc in Hkc2).
      apply list_elem_of_lookup in Hc as [a Ha]. apply list_elem_of_lookup in Hin as [b Hb].
      assert (Hab : b = a) by (eapply NoDup_lookup; [exact Hn|rewrite list_lookup_fmap, Hb; done|rewrite list_lookup_fmap, Ha; cbn; by rewrite Heq]).
      subst b. congruence.
    - apply existsb_exists. exists (Server.id c). split; [|apply Z.eqb_refl]. apply in_map, filter_In.
      split; [by apply list_elem_of_In|by rewrite Hkc]. }
  revert Hk. generalize (map Server.id (List.filter (fun c => negb (Server.keep c)) (Server.clients s))). intros gone.
  induction (Server.clients s) as [|c cs IH]; intros Hk; [done|]. cbn [map] in Hn. apply NoDup_cons in Hn as [_ Hn].
  cbn [map List.filter fst]. rewrite Hk by left. rewrite negb_involutive.
  destruct (Server.keep c); cbn [map]; rewrite IH; auto; intros; apply Hk; by right.
Qed.

Lemma reap_records s c : c ∈ Server.clients (snd (Server.reap s)) -> c ∈ Server.clients s.
Proof.
  unfold Server.reap. cbn [snd Server.clients]. intros [Hc _]%list_elem_of_In%filter_In. by apply list_elem_of_In.
Qed.
(** Forgetting those who are gone, one by one, from [seen]: what the server had
    before them. *)
Lemma reap_all r0 seen s todo past hist (l : state) out :
  without (past ++ todo) seen = peers s -> inv r0 nothing_due hist l out -> matched hist l ->
  peers (ipc l) = peers s -> Reactor.clients (reactor l) = without past seen ->
  wp (for_each todo (fun i => serving (Reactor.reap i)))
    (fun _ l' out' => exists more, at_rest r0 nothing_due (hist ++ more) l' out') l out.
Proof.
  revert past hist l out. induction todo as [|i todo IH]; intros past hist l out Hw Hi Hm Hp Hc; cbn [for_each].
  - apply wp_ret. exists []. rewrite app_nil_r in Hw |- *. split; [done|]. split; [done|]. unfold sees. by rewrite Hc, Hp, Hw.
  - wp_steps. change (Reactor.reap i) with (step_op (SaeP := SaeP) (DotP := DotP) (W := W) (Gone i)).
    eapply wp_mono; [by apply serving_step|]. cbn beta. intros _ l1 out1 (Hi1 & Hh & Hc1).
    eapply wp_mono; [apply (IH (past ++ [i]) (hist ++ [Gone i]))|].
    + by rewrite <- app_assoc.
    + done.
    + intros j. rewrite (held_asked _ _ Hh), requests_in_app. cbn. rewrite app_nil_r. apply Hm.
    + by rewrite (held_peers _ _ Hh).
    + rewrite Hc1, Hc. apply without_snoc.
    + cbn beta. intros _ l2 out2 (more & H2'). exists (Gone i :: more).
      by rewrite (app_assoc hist [Gone i] more : hist ++ Gone i :: more = _).
Qed.
Lemma reap_advances : advances reap.
Proof.
  intros r0 hist l out (Hi & Hm & Hs). unfold reap. wp_steps.
  pose proof (inv_outs _ _ _ _ _ Hi) as Ho.
  pose proof (without_reaped (ipc l) (proj1 (outs_wf l Ho))) as Hw.
  pose proof (reap_records (ipc l)) as Hrec. pose proof (Server.reap_wf (ipc l) (outs_wf l Ho)) as Hwf.
  assert (Hn : Server.next_id (snd (Server.reap (ipc l))) = Server.next_id (ipc l)) by done.
  destruct (Server.reap (ipc l)) as [gone s]. cbn [fst snd] in *. wp_steps. rewrite <- Hs in Hw.
  apply (reap_all r0 (Reactor.clients (reactor l)) s gone []); [done| |done|done|].
  - destruct Hi as [[_ Hb Hnew] Hh Hask Href Hgot Hsaid Hplay Hgood]. split; cbn [set_ipc ipc traffic reactor]; try done; auto.
    + split; cbn [set_ipc ipc traffic]; [done|by auto|intros j Hj; apply Hnew; lia].
    + intros j Hj. apply Hgot. lia.
  - unfold without. cbn. clear. by induction (Reactor.clients _) as [|c cs IH]; cbn; [|rewrite <- IH].
Qed.

(** *** The turn, and the loop *)

Definition wake_ok (t : Wake) : Prop := Forall is_bytes (frames t).
Definition poll_ok (p : Poll) : Prop := match p with Woke t => wake_ok t | _ => True end.

Lemma event_advances s : source_ok s -> (match s with SListener _ | SClient _ _ => False | _ => True end) ->
  advances (serving (Reactor.dispatch s)).
Proof. intros Hs Hc. apply (serving_advances (Event s)). by destruct s. Qed.
Lemma dispatch_advances t ready : wake_ok t -> advances (dispatch t ready).
Proof.
  intros Ht. destruct ready as [[] re]; cbn [dispatch]; try (by apply event_advances).
  - apply advances_bind; [apply accept_advances|]. intros ids. apply advances_for_each. intros i. apply serve_advances.
  - apply advances_bind; [apply advances_when, serve_advances|]. intros _.
    apply advances_bind; [apply advances_when, flush_advances|]. intros _. apply advances_when, close_advances.
Qed.
Lemma turn_advances t : wake_ok t -> advances (turn t).
Proof.
  intros Ht. unfold turn. apply advances_get. intros l.
  apply advances_bind; [by apply (serving_advances Resume)|]. intros _.
  apply advances_bind; [apply advances_for_each; intros; by apply dispatch_advances|]. intros _.
  apply advances_bind; [apply reap_advances|]. intros _. by apply (serving_advances Rearm).
Qed.

Lemma shutdown_serves r0 hist (l : state) out :
  at_rest r0 nothing_due hist l out ->
  wp (serving Reactor.shutdown) (fun _ l' out' =>
    (exists more, at_rest r0 nothing_due (hist ++ more) l' out') /\ Engine.is_idle (inner (reactor l')) = true) l out.
Proof.
  intros Hl. pose proof (serving_advances Stop I r0 hist l out Hl) as Ha. cbn [step_op] in Ha.
  destruct Hl as (Hi & _ & _). pose proof (shutdown_idles (reactor l) out (inv_good _ _ _ _ _ Hi)) as Hs.
  pose proof (serving_step r0 Stop nothing_due hist l out Hi I) as Hst. cbn [step_op] in Hst.
  apply wp_and; [done|]. unfold serving, wp in *. destruct (Reactor.shutdown (reactor l) out) as [[[[] r'] out']|]; [|done].
  destruct (for_each _ post _ _) as [[[[] l'] out2]|] eqn:Hpost; [|done].
  assert (Hr : reactor l' = r'); [|by rewrite Hr].
  assert (Hp : wp (for_each (drop (length out) out') post) (fun _ l' out2 => out2 = out' /\ posts (drop (length out) out') (set_reactor r' l) l') (set_reactor r' l) out').
  { apply post_all. destruct (inv_outs _ _ _ _ _ Hi). by split. }
  unfold wp in Hp. rewrite Hpost in Hp. apply (held_reactor _ _ (proj1 (proj2 Hp))).
Qed.

Definition ends r0 hist (o : Outcome) (l : state) out : Prop :=
  (exists more, at_rest r0 nothing_due (hist ++ more) l out)
  /\ (o = Stopped -> Engine.is_idle (inner (reactor l)) = true).
Lemma turns_end r0 ps hist (l : state) out :
  Forall poll_ok ps -> at_rest r0 nothing_due hist l out -> wp (turns ps) (ends r0 hist) l out.
Proof.
  intros Hps. revert hist l out. assert (Hout : forall hist l out o, o <> Stopped -> at_rest r0 nothing_due hist l out ->
    ends r0 hist o l out) by (intros; split; [exists []; by rewrite app_nil_r|done]).
  induction Hps as [|p ps Hp Hps IH]; intros hist l out Hl; cbn [turns]; wp_step; wp_step; cbn beta;
    (destruct (Reactor.stopping (reactor l)); [wp_step; eapply wp_mono; [by apply shutdown_serves|];
      cbn beta; intros _ l' out' [Hl' Hid]; wp_step; by split|]).
  - wp_step. by apply Hout.
  - destruct p as [t| |e]; [|by apply IH|wp_step; by apply Hout].
    wp_step. eapply wp_mono; [by apply turn_advances|]. cbn beta. intros _ l1 out1 (more & Hl1).
    assert (Hrest : wp (match armed t with Some e => mret (Failed e) | None => turns ps end) (ends r0 (hist ++ more)) l1 out1).
    { destruct (armed t); [wp_step; by apply Hout|by apply IH]. }
    eapply wp_mono; [exact Hrest|]. intros o l2 out2 [(more' & H2') Hid]. split; [|done]. exists (more ++ more'). by rewrite app_assoc.
Qed.
Lemma run_ends r0 first ps (l : state) out :
  Forall poll_ok ps -> at_rest r0 nothing_due [] l out -> wp (run first ps) (ends r0 []) l out.
Proof.
  intros Hps Hl. unfold run. wp_step. eapply wp_mono; [by apply (serving_advances Start)|]. cbn beta.
  intros _ l1 out1 (more & Hl1). cbn [app] in Hl1.
  assert (Hrest : wp (match first with Some e => mret (Failed e) | None => turns ps end) (ends r0 more) l1 out1).
  { destruct first; [wp_step; split; [exists []; by rewrite app_nil_r|done]|by apply turns_end]. }
  eapply wp_mono; [exact Hrest|]. intros o l2 out2 [(more' & H2') Hid]. split; [|done]. exists (more ++ more'). exact H2'.
Qed.

(** ** The daemon on its sockets *)

(** As it starts: nobody is connected and nothing was read or written. *)
Definition started (l : state) : Prop :=
  cold (reactor l) /\ Reactor.clients (reactor l) = [] /\ ipc l = {| Server.clients := []; Server.next_id := 1 |}
  /\ traffic l = [].
Lemma new_started auto o w store : started (Loop_new auto o w store).
Proof.
  split_and!; [apply new_cold|..]; try done. cbn. unfold Reactor.Reactor_new.
  by destruct (Engine.boot_and_monotonic w) as [[? ?] ?].
Qed.
Lemma started_at_rest (l : state) : started l -> at_rest (reactor l) nothing_due [] l [].
Proof.
  intros (Hc & Hr & Hi & Ht). split; [|split; [by intros i; rewrite Ht|by unfold sees; rewrite Hr, Hi]].
  split; rewrite ?Hi, ?Ht; cbn; try done.
  - split; rewrite ?Hi, ?Ht; cbn; [by split; constructor|by intros c ?%elem_of_nil|done].
  - by intros c ?%elem_of_nil.
  - by apply cold_good.
Qed.

(** C6. The daemon on its sockets is the reactor: whatever poll reports, however
    the clients' octets are cut up, however little their sockets take and
    whatever fails, the loop never panics, and it plays a history of the reactor
    in which every client asks exactly the requests heard in what it sent, in
    order, and is refused, in order, whatever else is heard.  What is heard is the
    complete lines, and at each pause of the reading where more than [MAX_LINE]
    octets of an unfinished line have come, a complaint, with what came of the line
    thrown away; so where no line outgrows the limit at a pause, it is the complete
    lines of the octets, wherever the pauses fall.  A client is told exactly
    what the reactor says to it and those refusals, each queued for it as its line
    in the order they were made, and what is queued has been written, in order, or
    is pending.  The reactor's clients are the server's, and when the loop is asked
    to stop, the connection is idle. *)
Theorem daemon_on_its_sockets first ps (l : state) :
  started l -> Forall poll_ok ps ->
  exists o l' out hist, run first ps l [] = Some (o, l', out)
    /\ play hist (reactor l) [] = Some (tt, reactor l', out)
    /\ Reactor.clients (reactor l') = peers (ipc l')
    /\ (forall i, let passes := got i (traffic l') in
         let heard := Ipc.heard from_slice Ipc.MAX_LINE [] passes in
         requests_in i hist = Server.requests_of heard
         /\ refused i (traffic l') = map refusal (Server.refusals_of heard)
         /\ (Ipc.paused_fits Ipc.MAX_LINE [] passes ->
              heard = omap (Ipc.said from_slice) (fst (Ipc.lines [] (concat passes)))))
    /\ (forall i, said i (traffic l') = sends i out)
    /\ (forall c, c ∈ Server.clients (ipc l') ->
         queued (Server.id c) (traffic l') = concat (omap encode (told (Server.id c) (traffic l')))
         /\ (Server.closed c = false ->
              queued (Server.id c) (traffic l') = wrote (Server.id c) (traffic l') ++ Server.pending c))
    /\ (o = Stopped -> Engine.is_idle (inner (reactor l')) = true).
Proof.
  intros Hl Hps. pose proof (run_ends (reactor l) first ps l [] Hps (started_at_rest l Hl)) as Hr. unfold wp in Hr.
  destruct (run first ps l []) as [[[o l'] out]|]; [|done]. destruct Hr as [(hist & Hi & Hm & Hs) Hidle].
  exists o, l', out, hist. split_and!; [done|apply (inv_play _ _ _ _ _ Hi)|done| |apply (inv_said _ _ _ _ _ Hi)| |done].
  - intros i. cbn zeta. rewrite <- Hm. pose proof (inv_asked _ _ _ _ _ Hi i) as Ha.
    pose proof (inv_refused _ _ _ _ _ Hi i) as Hf. cbn in Ha, Hf. rewrite app_nil_r in Ha, Hf.
    rewrite Ha, Hf, decoded_heard by done. split_and!; [done..|apply Ipc.heard_lines].
  - intros c Hc. destruct (outs_box l' (inv_outs _ _ _ _ _ Hi) c Hc) as (_ & Hq & _ & _ & Hw). by split.
Qed.

(** Every descriptor that is open is watched, once, and a connection for
    writing exactly when something is pending for it. *)
Definition is_watched (l : state) (w : Watched) : Prop :=
  match w with
  | WTimer | WListener => True
  | WSignal => signals l = true
  | WWireless => Engine.nl (Engine.ports (inner (reactor l))) = true
  | WLinks => Reactor.has_links (reactor l) = true
  | WEapol => Engine.eapol (Engine.ports (inner (reactor l))) = true
  | WDhcp => is_Some (Engine.dhcp (Engine.ports (inner (reactor l))))
  | WClient i => is_Some (Server.client i (ipc l))
  end.
Lemma elem_watch_if w b x : w ∈ map fst (watch_if b x) <-> b = true /\ w = x.
Proof. destruct b; cbn; [rewrite list_elem_of_singleton; naive_solver|]. split; [by intros ?%elem_of_nil|by intros []]. Qed.
Lemma client_listed i s : is_Some (Server.client i s) <-> i ∈ map Server.id (Server.clients s).
Proof.
  unfold Server.client. split.
  - intros [c Hc]. destruct (client_found i s c Hc) as [Hin <-]. by apply list_elem_of_fmap_2.
  - intros (c & -> & Hin)%list_elem_of_fmap. apply (find_first_is_Some _ _ c Hin), Z.eqb_refl.
Qed.
Lemma watched_exactly (l : state) w : w ∈ map fst (watched l) <-> is_watched l w.
Proof.
  unfold watched. rewrite !map_app, !elem_of_app, !elem_watch_if, map_map. cbn [map fst].
  rewrite !list_elem_of_singleton.
  assert (Hc : w ∈ map (fun c => WClient (Server.id c)) (Server.clients (ipc l))
               <-> exists i, w = WClient i /\ is_Some (Server.client i (ipc l))).
  { setoid_rewrite client_listed. rewrite list_elem_of_fmap. setoid_rewrite list_elem_of_fmap. naive_solver. }
  rewrite Hc. unfold is_watched. destruct w; try (split; [naive_solver|tauto]).
  - destruct (Engine.dhcp _) as [d|]; cbn; (split; [naive_solver|]); [tauto|by intros []].
  - split; [naive_solver|]. intros Hi. do 7 right. by exists id.
Qed.

Lemma watched_once (l : state) : Server.wf (ipc l) -> NoDup (map fst (watched l)).
Proof.
  intros [Hn _]. unfold watched. rewrite !map_app, map_map. cbn [map fst].
  assert (Hc : NoDup (map (fun c => WClient (Server.id c)) (Server.clients (ipc l)))).
  { rewrite <- (map_map Server.id WClient). apply NoDup_fmap; [|exact Hn]. intros a b Hab. by injection Hab. }
  assert (Hin : forall w, w ∈ map (fun c => WClient (Server.id c)) (Server.clients (ipc l)) -> exists i, w = WClient i)
    by (intros w (c & -> & _)%list_elem_of_fmap; by eexists).
  destruct (signals l), (Engine.nl _), (Reactor.has_links _), (Engine.eapol _), (is_some _); cbn [watch_if map app fst];
    repeat (apply NoDup_cons; split; [rewrite ?elem_of_cons; by intros Hx; decompose [or] Hx; try (by simplify_eq);
      match goal with H : _ ∈ _ |- _ => destruct (Hin _ H) as [? ?] end|]); exact Hc.
Qed.
(** What [wait] returns: each open descriptor of which poll reports something,
    once. *)
Lemma wait_exact t (l : state) :
  Server.wf (ipc l) ->
  NoDup (map fst (wait t l))
  /\ forall w f, (w, f) ∈ wait t l <-> is_watched l w /\ f = revents t w /\ is_empty f = false.
Proof.
  intros Hw. unfold wait. split.
  - pose proof (watched_once l Hw) as Hn. induction (watched l) as [|x ws IH]; [done|]. cbn [map List.filter fst snd] in *.
    apply NoDup_cons in Hn as [Hx Hn]. destruct (negb _); [|by apply IH]. cbn [map fst]. apply NoDup_cons.
    split; [|by apply IH]. intros ([w f] & Heq & Hin)%list_elem_of_fmap. apply Hx. cbn in Heq. subst w.
    apply list_elem_of_In, filter_In in Hin as [Hin _]. apply in_map_iff in Hin as (y & [= <- _] & Hy).
    by apply list_elem_of_fmap_2, list_elem_of_In.
  - intros w f. rewrite <- (watched_exactly l w). split.
    + intros [Hin Hf]%list_elem_of_In%filter_In. apply in_map_iff in Hin as (y & [= <- <-] & Hy).
      split; [by apply list_elem_of_fmap_2, list_elem_of_In|]. split; [done|]. by apply negb_true_iff.
    + intros ((y & -> & Hy)%list_elem_of_fmap & -> & Hf). apply list_elem_of_In, filter_In. split; [|by apply negb_true_iff].
      apply in_map_iff. exists y. split; [done|]. by apply list_elem_of_In.
Qed.

(** A connection that has ended but has something pending stays in the poll set
    for reading, where an end of file is always ready: until its socket takes
    the rest, every turn of the loop finds it again. *)
Lemma ended_still_polled (l : state) c :
  c ∈ Server.clients (ipc l) -> Server.has_pending_output c = true ->
  c ∈ Server.clients (snd (Server.reap (ipc l))) /\ (WClient (Server.id c), union IN OUT) ∈ watched l.
Proof.
  intros Hc Hp. split.
  - unfold Server.reap. cbn. apply list_elem_of_In, filter_In. split; [by apply list_elem_of_In|].
    unfold Server.keep. by rewrite Hp, orb_true_r.
  - unfold watched. rewrite !elem_of_app. do 7 right. apply list_elem_of_fmap. exists c.
    unfold client_flags. by rewrite Hp.
Qed.

(** ** The program *)

(** Removing a path leaves no socket there, unless the kernel refuses it. *)
Lemma unlinked_stands `{Startup.Host} path ops :
  Startup.standing path (ops ++ [Startup.Unlink path]) = true -> Startup.answer (Startup.Unlink path) <> None.
Proof.
  unfold Startup.standing. rewrite fold_left_app. cbn. rewrite bool_decide_true by done. by destruct (Startup.answer _).
Qed.

(** The ways it may panic, and what holds when it does not. *)
Definition panics_or `{Startup.Console} (argv : list bytes) (P : Ended (SaeP := SaeP) (DotP := DotP) (W := W) -> Prop)
    (r : option Ended) : Prop :=
  match r with
  | None => (exists a, a ∈ argv /\ from_utf8 a = None)
            \/ (exists t, Startup.stdout_takes t = false) \/ (exists t, Startup.stderr_takes t = false)
  | Some e => P e
  end.
Lemma logging_ends `{Startup.Console} argv P lines r : panics_or argv P r -> panics_or argv P (logging lines r).
Proof.
  intros Hr. unfold logging. destruct (forallb Startup.stderr_takes lines) eqn:Hl; [done|]. right. right.
  clear -Hl. induction lines as [|t lines IH]; [done|]. cbn in Hl.
  destruct (Startup.stderr_takes t) eqn:Ht; [by apply IH|by exists t].
Qed.
Lemma gave_up_ends `{Startup.Console} argv P errno_text err logged ops l :
  (forall line, P {| code := Some EXIT_FAILURE; printed := []; logged := logged ++ [line]; socket_ops := ops; final := l |}) ->
  panics_or argv P (gave_up errno_text err logged ops l).
Proof. intros HP. apply logging_ends. exact (HP _). Qed.

(** What the program leaves on its socket's path, told from its arguments. *)
Definition leaves_socket `{Startup.Host} (parent : bytes -> option bytes) (argv : list bytes)
    (e : Ended (SaeP := SaeP) (DotP := DotP) (W := W)) : Prop :=
  match Startup.parse_args argv with
  | Ok (Some options) =>
      let path := Startup.socket options in
      let (ops, r) := Startup.Server_bind (parent path) path [] in
      socket_ops e = ops ++ (if negb (is_err r) && is_some (code e) then [Startup.Unlink path] else [])
      /\ (code e <> None -> Startup.standing path (socket_ops e) = true ->
           Startup.answer (Startup.Chmod path Startup.MODE_SOCKET) <> None
           \/ Startup.answer (Startup.Listen Startup.BACKLOG) <> None
           \/ Startup.answer (Startup.Unlink path) <> None)
  | _ => socket_ops e = []
  end.

(** C26. The program panics only on an argument that is not UTF-8 or when
    standard output or standard error does not take what it writes, whatever the
    kernel answers; it succeeds only after showing its help or stopping with
    the connection idle; once its server is bound, every way it ends removes the
    socket; so when it has ended, a socket it bound is still there only if the kernel
    refused to set its mode, to listen on it or to remove it. *)
Theorem program_ends `{Startup.Host} `{Startup.Console} errno_text parent argv o first ps w store :
  Forall poll_ok ps ->
  panics_or argv
    (fun e => (code e = Some EXIT_SUCCESS ->
                 Startup.parse_args argv = Ok None
                 \/ exists l out, final e = Some (l, out) /\ Engine.is_idle (inner (reactor l)) = true)
              /\ leaves_socket parent argv e)
    (main errno_text parent argv o first ps w store).
Proof.
  intros Hps. unfold main, leaves_socket.
  destruct (Startup.parse_args argv) as [[options|]|err|] eqn:Hargs.
  - pose proof (Startup.bind_standing (parent (Startup.socket options)) (Startup.socket options)) as Hb.
    destruct (Startup.Server_bind _ _ _) as [ops [[]|err|]]; destruct Hb as (Hnp & _ & Hb); [| |done].
    + pose proof (unlinked_stands (Startup.socket options) ops) as Hu.
      apply logging_ends. destruct (o_timer o) as [e|]; [apply gave_up_ends; intros line; cbn; split_and!; by auto|].
      pose proof (run_ends _ first ps _ [] Hps (started_at_rest _ (new_started (Startup.autoconnect options) o w store))) as Hr.
      unfold wp in Hr. destruct (run _ _ _ _) as [[[oc l'] out]|]; [|done]. destruct Hr as [_ Hidle].
      destruct oc; [| |apply gave_up_ends; intros line; cbn; split_and!; by auto].
      * cbn. rewrite app_nil_r. by split_and!.
      * cbn. split; [|by auto]. intros _. right. exists l', out. split; [done|by apply Hidle].
    + apply gave_up_ends. intros line. cbn. rewrite app_nil_r. split; [done|]. split; [done|]. intros _ Hs. destruct (Hb eq_refl Hs); auto.
  - destruct (Startup.stdout_takes Startup.USAGE) eqn:Ht; [|right; left; by exists Startup.USAGE].
    cbn. split; [by left|done].
  - by apply gave_up_ends.
  - left. by apply Startup.parse_args_panics.
Qed.
End plays.

(** ** A daemon on its sockets, evaluated *)
Module Demo.
#[local] Existing Instances Crypto.Toy.prims Crypto.Toy.laws ConnProps.Demo.build ConnProps.Demo.build_safe
  Profile.demo_json DaemonDemo.kernel DaemonDemo.kernel_ok.

(** A wire of one octet per message, and sockets that take two octets at a
    time. *)
#[global] Instance wires : Wires := {
  from_slice b :=
    if bool_decide (b = ascii_of "connect") then Some (Ipc.Connect ConnProps.Demo.ssid None)
    else if bool_decide (b = ascii_of "secret") then Some (Ipc.Secret 1 ConnProps.Demo.secret)
    else if bool_decide (b = ascii_of "ports") then Some Ipc.ListPorts else None;
  json_error _ := ascii_of "expected value";
  encode r := Some (ascii_of (match r with
    | Engine.RspOk => "ok" | Engine.RspError _ => "error" | Engine.RspPorts _ => "ports" | _ => "event" end) ++ [10]);
  taken _ b := match b with [] => [] | [_] => [Server.Took 1] | _ => [Server.Took 2; Server.SendAgain] end;
}.
#[global] Instance wires_ok : WiresOk.
Proof. intros n [|x [|y b]]; cbn; lia. Qed.

Definition wake (w : Watched) : Wake := {|
  revents x := if bool_decide (x = w) then IN else {| f_in := false; f_out := false; f_err := false; f_hup := false; f_nval := false |};
  accepted := []; received _ := []; wireless_events := []; link_events := []; frames := []; datagrams := []; armed := None |}.
Definition hears (w : Wake) (b : bytes) : Wake := {|
  revents := revents w; accepted := accepted w; received _ := [Server.Data b]; wireless_events := []; link_events := [];
  frames := []; datagrams := []; armed := None |}.
Definition arrives : Wake :=
  {| revents := revents (wake WListener); accepted := [Server.Connection (Some DaemonDemo.root)];
     received _ := [Server.Data (ascii_of "connect" ++ [10] ++ ascii_of "po")]; wireless_events := []; link_events := [];
     frames := []; datagrams := []; armed := None |}.
Definition radio (es : list Nl80211.Event) : Wake :=
  {| revents := revents (wake WWireless); accepted := []; received _ := []; wireless_events := es; link_events := [];
     frames := []; datagrams := []; armed := None |}.

(** The first half of a request comes with one read and the rest with the next;
    something that is no request comes with the secret. *)
Definition joining : list Poll :=
  [Woke arrives; Interrupted; Woke (radio [Nl80211.ScanComplete 0 3]);
   Woke (hears (wake (WClient 1)) (ascii_of "rts" ++ [10]));
   Woke (hears (wake (WClient 1)) (ascii_of "secret" ++ [10] ++ ascii_of "what" ++ [10]));
   Woke (radio [Nl80211.Connected (Some ConnProps.Demo.ap) Nl80211.Success])].
Definition opened : Opened :=
  {| o_signals := None; o_nl := None; o_events := None; o_rtnl := None; o_links := None; o_timer := None |}.
Abbreviation state := (Loop Crypto.PskProvider Crypto.PskProvider Z).
Definition boot : state := Loop_new true opened 0 None.
Definition after (ps : list Poll) : option (Outcome * state * list Engine.Effect) := run None ps boot [].

Definition asks_and_is_told (o : option (Outcome * state * list Engine.Effect)) :
    option (Outcome * list Ipc.Request * list Engine.Reply * bool) :=
  match o with
  | Some (o, l, out) => Some (o, asked_on 1 (traffic l), said 1 (traffic l), Engine.is_idle (inner (reactor l)))
  | None => None
  end.

(** A signal stops it with the connection idle; an error of poll ends it with
    the station still joined. *)
Definition stop_by_signal : list Poll := joining ++ [Woke (wake WSignal)].
Definition stop_by_error : list Poll := joining ++ [PollFailed 12].

Lemma stopped_and_failed :
  match asks_and_is_told (after stop_by_signal), asks_and_is_told (after stop_by_error) with
  | Some (o1, asked1, _, idle1), Some (o2, _, _, idle2) =>
      o1 = Stopped /\ idle1 = true /\ o2 = Failed 12 /\ idle2 = false
      /\ asked1 = [Ipc.Connect ConnProps.Demo.ssid None; Ipc.ListPorts; Ipc.Secret 1 ConnProps.Demo.secret]
  | _, _ => False
  end.
Proof. vm_compute. by repeat split. Qed.

Lemma daemon_on_its_sockets_witness :
  match run None stop_by_signal boot [] with
  | Some (_, l, out) => said 1 (traffic l) = sends 1 out /\ length (sends 1 out) = 6%nat
  | None => False
  end.
Proof.
  assert (Hps : Forall poll_ok stop_by_signal) by (repeat constructor).
  assert (Hn : match run None stop_by_signal boot [] with Some (_, l, out) => length (sends 1 out) = 6%nat | None => False end)
    by (vm_compute; reflexivity).
  destruct (daemon_on_its_sockets None stop_by_signal boot (new_started true opened 0 None) Hps)
    as (o & l & out & hist & Hrun & _ & _ & _ & Hs & _).
  rewrite Hrun in Hn |- *. split; [apply Hs|exact Hn].
Defined.

(** The same daemon as a program, on a machine where nothing listens yet. *)
#[global] Instance free : Startup.Host := {| Startup.answer _ := None; Startup.path_exists _ := false |}.
#[global] Instance console : Startup.Console := {| Startup.stdout_takes _ := true; Startup.stderr_takes _ := true |}.
Definition words : list bytes := [ascii_of "cawd"; ascii_of "--socket"; ascii_of "/tmp/s"].
Lemma program_ends_witness :
  match main (fun _ => []) (fun _ => None) words opened None stop_by_signal 0 None with
  | Some e => code e = Some EXIT_SUCCESS /\ socket_ops e
      = [Startup.OpenSocket true; Startup.BindTo (ascii_of "/tmp/s"); Startup.Chmod (ascii_of "/tmp/s") Startup.MODE_SOCKET;
         Startup.Listen Startup.BACKLOG] ++ [Startup.Unlink (ascii_of "/tmp/s")]
  | None => False
  end.
Proof.
  assert (Hps : Forall poll_ok stop_by_signal) by (repeat constructor).
  assert (Hc : match main (fun _ => []) (fun _ => None) words opened None stop_by_signal 0 None with
               | Some e => code e = Some EXIT_SUCCESS | None => False end) by (vm_compute; reflexivity).
  pose proof (program_ends (fun _ => []) (fun _ => None) words opened None stop_by_signal 0 None Hps) as He.
  destruct (main _ _ _ _ _ _ _ _) as [e|]; [|done]. destruct He as (_ & He & _). split; [exact Hc|].
  unfold words in He. rewrite He, Hc. reflexivity.
Defined.
End Demo.
