(* ===== verification/Words.v ===== *)
(** * What people are told: the [Display] of the crates' names and errors

    The texts of suites, interface types, reason codes and errors, as octets or
    as strings where they are plain.  The text of an errno and of a JSON error
    are the libraries', and arguments. *)
From S2P Require Import Prelude Bytes Text.
From S2P Require Dot11 Netlink Rtnl Wiphy NlMsg DhcpOptions Profile Crypto Eapol Enterprise Conn.

Local Open Scope string_scope.

(** ** caw-80211 *)

(** ["{:02x}-{:02x}-{:02x}:{}"] of a selector *)
Definition selector_text (s : Dot11.selector) : bytes :=
  let '(a, b, c, d) := s in Rtnl.hex2 a ++ [45%Z] ++ Rtnl.hex2 b ++ [45%Z] ++ Rtnl.hex2 c ++ [58%Z] ++ decimal d.

Definition Cipher_fmt (c : Dot11.Cipher) : bytes :=
  match c with
  | Dot11.UseGroup => ascii_of "use-group"
  | Dot11.Wep40 => ascii_of "WEP-40"
  | Dot11.Tkip => ascii_of "TKIP"
  | Dot11.Ccmp128 => ascii_of "CCMP-128"
  | Dot11.Wep104 => ascii_of "WEP-104"
  | Dot11.BipCmac128 => ascii_of "BIP-CMAC-128"
  | Dot11.Gcmp128 => ascii_of "GCMP-128"
  | Dot11.Gcmp256 => ascii_of "GCMP-256"
  | Dot11.Ccmp256 => ascii_of "CCMP-256"
  | Dot11.CipherUnknown s => selector_text s
  end.

Definition Akm_fmt (a : Dot11.Akm) : bytes :=
  match a with
  | Dot11.Psk => ascii_of "PSK"
  | Dot11.PskSha256 => ascii_of "PSK-SHA256"
  | Dot11.Sae => ascii_of "SAE"
  | Dot11.Dot1x => ascii_of "802.1X"
  | Dot11.Dot1xSha256 => ascii_of "802.1X-SHA256"
  | Dot11.Owe => ascii_of "OWE"
  | Dot11.FtPsk => ascii_of "FT-PSK"
  | Dot11.FtSae => ascii_of "FT-SAE"
  | Dot11.FtDot1x => ascii_of "FT-802.1X"
  | Dot11.Dot1xSuiteB192 => ascii_of "802.1X-SuiteB-192"
  | Dot11.AkmUnknown s => selector_text s
  end.

Definition Dot11Error_fmt (e : Dot11.Error) : string :=
  match e with
  | Dot11.Truncated => "truncated 802.11 element"
  | Dot11.Malformed => "malformed 802.11 element"
  end.

Definition reason_text (code : Z) : option string :=
  match code with
  | 1 => Some "unspecified reason"
  | 2 => Some "previous authentication no longer valid"
  | 3 => Some "the station is leaving the network"
  | 4 => Some "inactive for too long"
  | 5 => Some "the access point cannot handle any more stations"
  | 6 => Some "a frame arrived from a station that had not authenticated"
  | 7 => Some "a frame arrived from a station that had not associated"
  | 8 => Some "the station is leaving the access point"
  | 9 => Some "reassociation requested by a station that had not authenticated"
  | 10 => Some "power capability unacceptable"
  | 11 => Some "supported channels unacceptable"
  | 12 => Some "moved off by BSS transition management"
  | 13 => Some "invalid information element"
  | 14 => Some "message integrity check failure"
  | 15 => Some "4-way handshake timeout (often a wrong passphrase)"
  | 16 => Some "group key handshake timeout"
  | 17 => Some "security element differs from the one advertised"
  | 18 => Some "invalid group cipher"
  | 19 => Some "invalid pairwise cipher"
  | 20 => Some "invalid key management suite"
  | 21 => Some "unsupported RSN element version"
  | 22 => Some "invalid RSN capabilities"
  | 23 => Some "802.1X authentication failed"
  | 24 => Some "cipher suite rejected by security policy"
  | 25 => Some "TDLS direct link unreachable"
  | 26 => Some "TDLS direct link torn down"
  | 32 => Some "unspecified QoS reason"
  | 33 => Some "not enough bandwidth for this station"
  | 34 => Some "too many frames went unacknowledged (poor signal)"
  | 35 => Some "transmitting outside the station's transmit opportunity limits"
  | 36 => Some "the peer is leaving"
  | 37 => Some "the peer does not want this mechanism"
  | 38 => Some "the peer has not set up this mechanism"
  | 39 => Some "the peer timed out"
  | 45 => Some "cipher suite not supported by the peer"
  | 46 => Some "the access point disassociated the station for another reason"
  | _ => None
  end.

(** ** caw-nl80211 *)

Definition IfType_as_str (t : Wiphy.IfType) : string :=
  match t with
  | Wiphy.Unspecified => "unspecified"
  | Wiphy.AdHoc => "ad-hoc"
  | Wiphy.Station => "managed"
  | Wiphy.Ap => "AP"
  | Wiphy.Monitor => "monitor"
  | Wiphy.MeshPoint => "mesh"
  | Wiphy.P2pClient => "P2P-client"
  | Wiphy.P2pGo => "P2P-GO"
  | Wiphy.P2pDevice => "P2P-device"
  | Wiphy.Other _ => "other"
  end.

Section errors.
Context (errno_text : Z -> bytes) (json_error : bytes) (io_error : bytes).

(** ** caw-netlink, caw-dhcp and caw-core *)

Definition NetlinkError_fmt (e : Netlink.Error) : bytes :=
  match e with
  | Netlink.ErrIo e => ascii_of "netlink io: " ++ errno_text e
  | Netlink.ErrTruncated => ascii_of "truncated netlink message"
  | Netlink.ErrShortSend => ascii_of "short netlink send"
  | Netlink.ErrOverrun => ascii_of "netlink message exceeded the receive buffer"
  | Netlink.ErrKernel 1 => ascii_of "operation not permitted (try running as root)"
  | Netlink.ErrKernel e => ascii_of "kernel returned " ++ errno_text e
  end.

Definition DhcpError_fmt (e : DhcpOptions.Error) : bytes :=
  match e with
  | DhcpOptions.Malformed => ascii_of "malformed message"
  | DhcpOptions.Incomplete code => ascii_of "server did not send option " ++ decimal code
  | DhcpOptions.ErrNak => ascii_of "server refused the request"
  | DhcpOptions.ErrIo e => ascii_of "dhcp io: " ++ errno_text e
  | DhcpOptions.ErrShortSend => ascii_of "short dhcp send"
  end.

Definition ProfileError_fmt (e : Profile.Error) : bytes :=
  match e with
  | Profile.IoError => ascii_of "profile store: " ++ io_error
  | Profile.JsonError => ascii_of "unreadable profile: " ++ json_error
  | Profile.EmptySsid => ascii_of "a profile needs a non-empty SSID"
  end.

(** ** [Failure] *)

Definition why_text `{Enterprise.Files} (why : Crypto.Error + Eapol.Error) : string :=
  match why with inl e => Crypto.Error_to_string e | inr e => Enterprise.eapol_error_text e end.

Definition disconnected_by (by_ap : bool) : bytes :=
  ascii_of (if by_ap then "the access point disconnected us" else "this machine ended the connection").

Definition Failure_fmt `{Enterprise.Files} (f : Conn.Failure) : bytes :=
  match f with
  | Conn.NotFound => ascii_of "no access point is advertising that network"
  | Conn.NoKnownNetwork => ascii_of "no saved network is in range"
  | Conn.Downgrade recorded offered =>
      ascii_of "refusing to join at " ++ ascii_of (Dot11.Security_as_str offered)
        ++ ascii_of ": this network was saved as " ++ ascii_of (Dot11.Security_as_str recorded)
  | Conn.UnsupportedSecurity => ascii_of "this network's security is not one caw can join"
  | Conn.NoCredential => ascii_of "this network needs a passphrase"
  | Conn.Refused code => ascii_of "the access point refused us (status " ++ decimal code ++ ascii_of ")"
  | Conn.FAssocTimeout => ascii_of "no answer from the access point"
  | Conn.WrongCredential => ascii_of "wrong passphrase"
  | Conn.FRsnMismatch => ascii_of "the access point's security does not match its beacon (downgrade attack)"
  | Conn.FAuthFailed => ascii_of "authentication rejected"
  | Conn.Handshake why => ascii_of "handshake failed: " ++ ascii_of (why_text why)
  | Conn.Disconnected 0 false => ascii_of "the connection was lost (the driver gave no reason)"
  | Conn.Disconnected reason by_ap =>
      disconnected_by by_ap
        ++ match reason_text reason with
           | Some why => ascii_of ": " ++ ascii_of why ++ ascii_of " (reason " ++ decimal reason ++ ascii_of ")"
           | None => ascii_of " (reason " ++ decimal reason ++ ascii_of ")"
           end
  | Conn.Dhcp => ascii_of "no address could be configured"
  | Conn.EnterpriseErr why => ascii_of why
  | Conn.Internal why => ascii_of "internal error: " ++ ascii_of why
  end.
End errors.

(** ** What the texts tell *)

(** The reasons of the table have texts, no two of them the same. *)
Definition known_reasons : list Z := filter (fun c => is_Some (reason_text c)) (map Z.of_nat (seq 0 256)).

Lemma reasons_distinct : length known_reasons = 36%nat /\ NoDup (map reason_text known_reasons).
Proof. split; [vm_compute; reflexivity|]. apply (bool_decide_unpack _). vm_compute. exact I. Qed.

(** A disconnection the access point ordered is never told as this machine's. *)
Lemma disconnection_attributed `{Enterprise.Files} reason :
  exists rest, Failure_fmt (Conn.Disconnected reason true) = (ascii_of "the access point disconnected us" ++ rest)%list.
Proof. destruct reason; eexists; reflexivity. Qed.
