(* ===== verification/Render.v ===== *)
(** * What the command line prints: [caw], table.rs and render.rs

    Tables of aligned columns, the scan table and the status block.  Everything
    here takes a value and gives the text; a [String] is its UTF-8 octets, and
    a column is as wide as its longest cell in characters. *)
From Stdlib Require Import List.
From stdpp Require Import sorting.
From S2P Require Import Prelude Text.

(** ** Characters *)

Definition is_text (s : bytes) : Prop := utf8_lossy s = s.

(** [str::trim_end] *)
Definition trim_end (l : bytes) : bytes := concat (rev (drop_while is_whitespace (rev (utf8_chars_lossy l)))).

Lemma text_app a b : is_text a -> is_text b -> utf8_chars_lossy (a ++ b) = utf8_chars_lossy a ++ utf8_chars_lossy b.
Proof.
  unfold is_text, utf8_lossy. intros Ha Hb. rewrite <- Ha at 1. rewrite <- Hb at 1. rewrite <- concat_app.
  apply utf8_chars_concat, Forall_app. split; apply utf8_chars_valid.
Qed.

Lemma is_text_app a b : is_text a -> is_text b -> is_text (a ++ b).
Proof. intros Ha Hb. unfold is_text, utf8_lossy. rewrite text_app, concat_app by done. by f_equal. Qed.

Lemma is_text_concat l : Forall is_text l -> is_text (concat l) /\ utf8_chars_lossy (concat l) = concat (map utf8_chars_lossy l).
Proof.
  induction 1 as [|s l Hs _ [IHt IHc]]; [done|]. cbn [concat map]. rewrite text_app, IHc by done.
  split; [by apply is_text_app|done].
Qed.

Lemma is_text_ascii l : Forall (fun b => 0 <= b < 128) l -> is_text l.
Proof. apply utf8_lossy_ascii. Qed.

Lemma drop_while_suffix {A} (p : A -> bool) l : exists pre, l = pre ++ drop_while p l /\ Forall (fun x => p x = true) pre.
Proof.
  induction l as [|x l (pre & He & Hp)]; cbn; [by exists []|]. destruct (p x) eqn:Hx; [|by exists []].
  exists (x :: pre). cbn. rewrite <- He. by split; [|constructor].
Qed.

(** What is cut off the end is whitespace, and nothing else is. *)
Lemma trim_end_chars l :
  exists blanks, utf8_chars_lossy (trim_end l) ++ blanks = utf8_chars_lossy l
    /\ Forall (fun c => is_whitespace c = true) blanks.
Proof.
  unfold trim_end. destruct (drop_while_suffix is_whitespace (rev (utf8_chars_lossy l))) as (pre & He & Hp).
  exists (rev pre). apply (f_equal (@rev bytes)) in He. rewrite rev_involutive, rev_app_distr in He.
  split; [|by apply Forall_rev]. rewrite He at 2. f_equal. apply utf8_chars_concat.
  pose proof (utf8_chars_valid l) as Hv. rewrite He in Hv. by apply Forall_app in Hv as [? _].
Qed.

(** ** table.rs *)

Definition width (s : bytes) : nat := length (utf8_chars_lossy s).

(** [for (w, cell) in widths.iter_mut().zip(row)] *)
Fixpoint widen (widths : list nat) (row : list bytes) : list nat :=
  match widths, row with
  | w :: widths, cell :: row => Nat.max w (width cell) :: widen widths row
  | _, _ => widths
  end.
Definition column_widths (headers : list bytes) (rows : list (list bytes)) : list nat :=
  fold_left widen rows (map width headers).

Definition blank (n : nat) : bytes := repeat 32 n.

(** One cell of [push_row]'s line: padded unless its column is the last. *)
Definition padded (widths : list nat) (i : nat) (cell : bytes) : bytes :=
  cell ++ (if bool_decide (i + 1 < length widths)%nat
           then blank (default 0%nat (widths !! i) - width cell + 2) else []).
Definition push_row (widths : list nat) (cells : list bytes) : bytes :=
  trim_end (concat (imap (padded widths) cells)) ++ [10].

Definition render (headers : list bytes) (rows : list (list bytes)) : bytes :=
  let widths := column_widths headers rows in
  push_row widths headers ++ concat (map (push_row widths) rows).

(** ** render.rs *)

Definition HIDDEN : bytes := ascii_of "(hidden)".

Definition quality (dbm : Z) : string :=
  if -50 <=? dbm then "excellent"
  else if -60 <=? dbm then "good"
  else if -67 <=? dbm then "fair"
  else if -80 <=? dbm then "weak"
  else "poor".

(** [Display] of an [i32] *)
Definition signed (n : Z) : bytes := if n <? 0 then 45 :: decimal (- n) else decimal n.

Definition signal_cell (dbm : Z) : bytes :=
  signed dbm ++ ascii_of " dBm (" ++ ascii_of (quality dbm) ++ ascii_of ")".

Definition channel (freq_mhz : Z) : option (Z * string) :=
  if freq_mhz =? 2484 then Some (14, "2.4 GHz"%string)
  else if in_range 2412 2472 freq_mhz then Some ((freq_mhz - 2407) / 5, "2.4 GHz"%string)
  else if freq_mhz =? 5935 then Some (2, "6 GHz"%string)
  else if in_range 5170 5895 freq_mhz then Some ((freq_mhz - 5000) / 5, "5 GHz"%string)
  else if in_range 5955 7115 freq_mhz then Some ((freq_mhz - 5950) / 5, "6 GHz"%string)
  else None.

Definition channel_cell (freq_mhz : Z) : bytes :=
  match channel freq_mhz with
  | Some (ch, band) => decimal ch ++ ascii_of " (" ++ ascii_of band ++ ascii_of ")"
  | None => decimal freq_mhz ++ ascii_of " MHz"
  end.

(** [caw_ipc::NetworkSummary] and [ConnectionStatus], as the socket carries them *)
Record NetworkSummary := {
  ssid : bytes; bssid : bytes; signal_dbm : Z; freq_mhz : Z; security : bytes; known : bool;
}.
Record ConnectionStatus := { st_port : bytes; st_ssid : option bytes; st_state : bytes; st_addrs : list bytes }.

(** [Vec::sort_by], which is stable. *)
Section sort_by.
Context {A : Type} (cmp : A -> A -> comparison).
Fixpoint insert_by (x : A) (l : list A) : list A :=
  match l with
  | [] => [x]
  | y :: l' => match cmp x y with Lt => x :: l | _ => y :: insert_by x l' end
  end.
Definition sort_by (l : list A) : list A := fold_left (fun acc x => insert_by x acc) l [].
End sort_by.

(** [Ord for String]: by octets. *)
Definition text_cmp : bytes -> bytes -> comparison := list_compare Z.compare.

Definition stronger (a b : NetworkSummary) : comparison :=
  match Z.compare (signal_dbm b) (signal_dbm a) with
  | Eq => text_cmp (ssid a) (ssid b)
  | c => c
  end.

(** What a row of the table stands for. *)
Definition row_key (n : NetworkSummary) : bytes := if bool_decide (ssid n = []) then bssid n else ssid n.

(** [networks.retain(|n| seen.insert(..))] *)
Fixpoint retain_new (seen : gset bytes) (networks : list NetworkSummary) : list NetworkSummary :=
  match networks with
  | [] => []
  | n :: networks =>
      if decide (row_key n ∈ seen) then retain_new seen networks
      else n :: retain_new ({[row_key n]} ∪ seen) networks
  end.

Definition listed (networks : list NetworkSummary) : list NetworkSummary := retain_new ∅ (sort_by stronger networks).

Definition scan_row (n : NetworkSummary) : list bytes :=
  [if bool_decide (ssid n = []) then HIDDEN else ssid n; signal_cell (signal_dbm n); channel_cell (freq_mhz n);
   security n; if known n then ascii_of "*" else []].

Definition SCAN_HEADERS : list bytes := map ascii_of ["SSID"; "SIGNAL"; "CHANNEL"; "SECURITY"; "KNOWN"]%string.
Definition scan_table (networks : list NetworkSummary) : bytes :=
  render SCAN_HEADERS (map scan_row (listed networks)).

(** [{label:<11}] *)
Definition field (label value : bytes) : bytes :=
  ascii_of "  " ++ label ++ blank (11 - width label) ++ value ++ [10].

Definition status_family (addrs : list bytes) (label : string) (is_v6 : bool) : bytes :=
  match filter (fun a => bool_decide (58 ∈ a) = is_v6) addrs with
  | [] => field (ascii_of label) (ascii_of "-")
  | l => concat (map (field (ascii_of label)) l)
  end.
Definition status_block (s : ConnectionStatus) : bytes :=
  st_port s ++ [10]
    ++ field (ascii_of "state") (st_state s)
    ++ field (ascii_of "network") (default (ascii_of "-") (st_ssid s))
    ++ status_family (st_addrs s) "ipv4" false ++ status_family (st_addrs s) "ipv6" true.

(** [caw_ipc::Event] and [SecretKind] *)
Inductive SecretKind := Passphrase | Username | Password.
Inductive Event :=
| Scanning
| Associating (bssid : bytes)
| Authenticating
| Configuring
| Connected
| Failed (reason : bytes)
| NeedSecret (token : Z) (prompt : bytes) (kind : SecretKind).

Definition progress (event : Event) : option bytes :=
  match event with
  | Scanning => Some (ascii_of "scanning")
  | Associating bssid => Some (ascii_of "associating with " ++ bssid)
  | Authenticating => Some (ascii_of "authenticating")
  | Configuring => Some (ascii_of "configuring addresses")
  | Connected | Failed _ | NeedSecret _ _ _ => None
  end.

(** ** Columns line up *)

(** Where a column begins, counted in characters. *)
Definition column (widths : list nat) (j : nat) : nat := sum_list (map (fun w => (w + 2)%nat) (take j widths)).

Lemma widen_length ws row : length (widen ws row) = length ws.
Proof. revert row. induction ws as [|w ws IH]; intros [|c row]; cbn; [done..|by rewrite IH]. Qed.

Lemma widen_le ws row i w : ws !! i = Some w -> exists w', widen ws row !! i = Some w' /\ (w <= w')%nat.
Proof.
  revert row i. induction ws as [|w' ws IH]; intros [|c row] [|i] Hw; cbn in *; simplify_eq; eauto with lia.
Qed.

Lemma widen_cell ws row i cell :
  row !! i = Some cell -> (i < length ws)%nat -> exists w, widen ws row !! i = Some w /\ (width cell <= w)%nat.
Proof.
  revert row i. induction ws as [|w ws IH]; intros [|c row] [|i] Hc Hi; cbn in *; simplify_eq; try lia.
  - eexists. split; [done|lia].
  - apply IH; [done|lia].
Qed.

Lemma widened_length rows ws : length (fold_left widen rows ws) = length ws.
Proof. revert ws. induction rows as [|r rows IH]; intros ws; cbn; [done|]. by rewrite IH, widen_length. Qed.

Lemma widened_le rows ws i w : ws !! i = Some w -> exists w', fold_left widen rows ws !! i = Some w' /\ (w <= w')%nat.
Proof.
  revert ws w. induction rows as [|r rows IH]; intros ws w Hw; cbn; [eauto|].
  destruct (widen_le ws r i w Hw) as (w1 & H1 & ?). destruct (IH _ _ H1) as (w2 & H2 & ?). eauto with lia.
Qed.

(** Every cell fits the column it is in. *)
Lemma column_fits headers rows row i cell :
  row ∈ headers :: rows -> row !! i = Some cell -> (i < length headers)%nat ->
  exists w, column_widths headers rows !! i = Some w /\ (width cell <= w)%nat.
Proof.
  unfold column_widths. intros [->|Hr]%elem_of_cons Hc Hi.
  - apply widened_le. by rewrite list_lookup_fmap, Hc.
  - apply list_elem_of_split in Hr as (above & below & ->). rewrite fold_left_app. cbn [fold_left].
    destruct (widen_cell (fold_left widen above (map width headers)) row i cell Hc) as (w & Hw & ?).
    { by rewrite widened_length, length_map. }
    destruct (widened_le below _ _ _ Hw) as (w' & ? & ?). eauto with lia.
Qed.

Lemma blank_text n : is_text (blank n) /\ length (utf8_chars_lossy (blank n)) = n.
Proof.
  assert (Hb : Forall (fun b => 0 <= b < 128) (blank n)) by (unfold blank; induction n; repeat constructor; cbn in *; lia || done).
  split; [by apply is_text_ascii|]. rewrite chars_ascii by done. by rewrite length_map; unfold blank; rewrite repeat_length.
Qed.

Lemma padded_text ws i cell :
  is_text cell -> is_text (padded ws i cell)
  /\ exists after, utf8_chars_lossy (padded ws i cell) = utf8_chars_lossy cell ++ after.
Proof.
  intros Hc. unfold padded. case_bool_decide; [|rewrite app_nil_r; split; [done|exists []; by rewrite app_nil_r]].
  destruct (blank_text (default 0%nat (ws !! i) - width cell + 2)) as [Hb _].
  split; [by apply is_text_app|]. rewrite text_app by done. eauto.
Qed.

(** A cell before the last fills its column. *)
Lemma padded_width ws i cell w :
  is_text cell -> ws !! i = Some w -> (width cell <= w)%nat -> (i + 1 < length ws)%nat ->
  length (utf8_chars_lossy (padded ws i cell)) = (w + 2)%nat.
Proof.
  intros Hc Hw Hle Hi. unfold padded. rewrite bool_decide_eq_true_2 by done. rewrite Hw. change (default 0%nat (Some w)) with w.
  destruct (blank_text (w - width cell + 2)) as [Hb Hl]. rewrite text_app, length_app by done.
  unfold width in *. lia.
Qed.

(** What a row's line holds before its end is trimmed. *)
Definition row_cells (ws : list nat) (row : list bytes) : bytes := concat (imap (padded ws) row).

Definition fits_row (ws : list nat) (row : list bytes) : Prop :=
  forall i c, row !! i = Some c -> (i < length ws)%nat -> exists w, ws !! i = Some w /\ (width c <= w)%nat.

Lemma padded_row_text ws row : Forall is_text row -> Forall is_text (imap (padded ws) row).
Proof.
  intros Ht. apply Forall_lookup. intros i x. rewrite list_lookup_imap. intros (c & Hc & ->)%fmap_Some.
  destruct (padded_text ws i c) as [? _]; [by eapply Forall_lookup_1|done].
Qed.

(** The cells before the [j]th take up exactly the columns before it. *)
Lemma cells_before ws row j :
  Forall is_text row -> fits_row ws row -> (j <= length row)%nat -> (j < length ws)%nat ->
  length (concat (map utf8_chars_lossy (imap (padded ws) (take j row)))) = column ws j.
Proof.
  intros Ht Hfit. induction j as [|j IH]; intros Hr Hj; [done|].
  destruct (lookup_lt_is_Some_2 row j) as [c Hc]; [lia|]. destruct (Hfit j c Hc) as (w & Hw & Hle); [lia|].
  rewrite (take_S_r row j c Hc), imap_app, map_app, concat_app, length_app, IH by lia.
  rewrite length_take_le by lia. unfold column. rewrite (take_S_r ws j w Hw), map_app. rewrite imap_cons; cbn [map concat]; rewrite imap_nil.
  rewrite app_nil_r, Nat.add_0_r, (padded_width ws j c w); [|by eapply Forall_lookup_1|done..|lia].
  induction (map _ (take j ws)) as [|x l IHl]; cbn in *; lia.
Qed.

Lemma row_column ws row j cell :
  Forall is_text row -> fits_row ws row -> row !! j = Some cell -> (j < length ws)%nat ->
  exists before after, utf8_chars_lossy (row_cells ws row) = before ++ utf8_chars_lossy cell ++ after
    /\ length before = column ws j.
Proof.
  intros Ht Hfit Hc Hj. unfold row_cells. pose proof (lookup_lt_Some _ _ _ Hc).
  rewrite (proj2 (is_text_concat _ (padded_row_text ws row Ht))).
  replace (imap (padded ws) row) with (imap (padded ws) (take j row ++ cell :: drop (S j) row))
    by by rewrite take_drop_middle.
  rewrite imap_app, map_app, concat_app.
  rewrite length_take_le by lia. rewrite imap_cons. cbn [map concat]. rewrite Nat.add_0_r.
  destruct (padded_text ws j cell) as [_ [after ->]]; [by eapply Forall_lookup_1|].
  rewrite <- app_assoc. do 2 eexists. split; [reflexivity|]. apply cells_before; [done..|lia|done].
Qed.

(** The tables line up: on every line a table prints -- the headers' and
    each row's -- the cell of a column begins the same number of characters
    from the left, whatever the cells hold, and only blanks are cut off the
    end of a line. *)
Theorem table_columns headers rows row j cell :
  row ∈ headers :: rows -> Forall is_text row -> row !! j = Some cell -> (j < length headers)%nat ->
  exists line before after blanks,
    push_row (column_widths headers rows) row = line ++ [10]
    /\ utf8_chars_lossy line ++ blanks = before ++ utf8_chars_lossy cell ++ after
    /\ length before = column (column_widths headers rows) j
    /\ Forall (fun c => is_whitespace c = true) blanks.
Proof.
  intros Hr Ht Hc Hj. assert (Hl : length (column_widths headers rows) = length headers)
    by (unfold column_widths; by rewrite widened_length, length_map).
  destruct (row_column (column_widths headers rows) row j cell) as (before & after & Hrow & Hb); [done| |done|lia|].
  { intros i c Hi Hlt. apply column_fits with row; [done..|lia]. }
  destruct (trim_end_chars (row_cells (column_widths headers rows) row)) as (blanks & Htr & Hbl).
  exists (trim_end (row_cells (column_widths headers rows) row)), before, after, blanks. by rewrite Htr, Hrow.
Qed.

(** ** The scan table's rows *)

Section sort_by_facts.
Context {A : Type} (cmp : A -> A -> comparison) (R : A -> A -> Prop) `{!Transitive R}.
Hypothesis cmp_lt : forall x y, cmp x y = Lt -> R x y.
Hypothesis cmp_ge : forall x y, cmp x y <> Lt -> R y x.

Lemma insert_by_perm x l : insert_by cmp x l ≡ₚ x :: l.
Proof using Type.
  induction l as [|y l IH]; cbn; [done|]. destruct (cmp x y); [|done|]; rewrite IH; apply Permutation_swap.
Qed.

Lemma insert_by_sorted x l : StronglySorted R l -> StronglySorted R (insert_by cmp x l).
Proof using All.
  induction 1 as [|y l Hl IH Hy]; cbn; [by repeat constructor|].
  assert (Hrest : cmp x y <> Lt -> StronglySorted R (y :: insert_by cmp x l)).
  { intros Hc. constructor; [done|]. rewrite insert_by_perm. constructor; [by apply cmp_ge|done]. }
  destruct (cmp x y) eqn:Hc; [by apply Hrest| |by apply Hrest].
  constructor; [by constructor|]. constructor; [by apply cmp_lt|].
  eapply Forall_impl; [exact Hy|]. intros z Hz. etransitivity; [by apply cmp_lt|exact Hz].
Qed.

Lemma sort_by_perm l : sort_by cmp l ≡ₚ l.
Proof using Type.
  unfold sort_by. rewrite <- (app_nil_r l) at 2. generalize (@nil A) as acc.
  induction l as [|x l IH]; intros acc; cbn; [done|]. by rewrite IH, insert_by_perm, Permutation_middle.
Qed.

Lemma sort_by_sorted l : StronglySorted R (sort_by cmp l).
Proof using All.
  unfold sort_by. assert (Hn : StronglySorted R []) by constructor. revert Hn. generalize (@nil A) as acc.
  induction l as [|x l IH]; intros acc Ha; cbn; [done|]. by apply IH, insert_by_sorted.
Qed.
End sort_by_facts.

Definition at_least_as_strong (a b : NetworkSummary) : Prop := signal_dbm b <= signal_dbm a.

Lemma sorted_by_strength l : StronglySorted at_least_as_strong (sort_by stronger l).
Proof.
  unfold at_least_as_strong, stronger. apply sort_by_sorted; [by intros x y z; lia|..]; intros x y;
    destruct (Z.compare_spec (signal_dbm y) (signal_dbm x)); intros; try done; lia.
Qed.

Lemma retain_new_sublist seen l : sublist (retain_new seen l) l.
Proof. revert seen. induction l as [|n l IH]; intros seen; cbn; [done|]. case_decide; by constructor. Qed.

Lemma retain_new_keys seen l :
  NoDup (map row_key (retain_new seen l)) /\ Forall (fun n => row_key n ∉ seen) (retain_new seen l).
Proof.
  revert seen. induction l as [|n l IH]; intros seen; cbn; [by repeat constructor|].
  case_decide as Hn; [apply IH|]. destruct (IH ({[row_key n]} ∪ seen)) as [Hd Hs]. cbn [map]. split.
  - constructor; [|done]. intros (m & Hm & Hin)%list_elem_of_fmap. rewrite Forall_forall in Hs.
    specialize (Hs m Hin). set_solver.
  - constructor; [done|]. eapply Forall_impl; [exact Hs|]. cbn. set_solver.
Qed.

(** The first network of each key is kept, and in a sorted list nothing of its
    key is above it. *)
Lemma retain_new_first seen l n :
  StronglySorted at_least_as_strong l -> n ∈ l -> row_key n ∉ seen ->
  exists m, m ∈ retain_new seen l /\ row_key m = row_key n /\ at_least_as_strong m n.
Proof.
  intros Hs. revert seen. induction Hs as [|x l Hl IH Hx]; intros seen Hn Hk; [set_solver|].
  rewrite Forall_forall in Hx. cbn. destruct (decide (row_key x = row_key n)) as [He|He].
  - rewrite decide_False by (rewrite He; done). exists x. split_and!; [set_solver|done|].
    apply elem_of_cons in Hn as [->|Hn]; [unfold at_least_as_strong; lia|by apply Hx].
  - apply elem_of_cons in Hn as [->|Hn]; [done|]. case_decide; [by apply IH|].
    destruct (IH ({[row_key x]} ∪ seen) Hn) as (m & ? & ?); [set_solver|]. exists m. set_solver.
Qed.

Lemma sublist_sorted {A} (R : A -> A -> Prop) l l' : sublist l l' -> StronglySorted R l' -> StronglySorted R l.
Proof.
  induction 1 as [|x l l' Hl IH|x l l' Hl IH]; [done|..]; intros [Hs Hx]%StronglySorted_inv; [|by apply IH].
  constructor; [by apply IH|]. rewrite Forall_forall in *. intros y Hy. by apply Hx, (elem_of_sublist l l').
Qed.

(** Networks a user takes for one: of the same name or, hiding their names, of
    the same address. *)
Definition same_network (a b : NetworkSummary) : Prop :=
  ssid a = ssid b /\ (ssid a = [] -> bssid a = bssid b).
(** A network may call itself by the address of one that hides its name. *)
Definition spells (a b : NetworkSummary) : Prop := ssid a <> [] /\ ssid b = [] /\ ssid a = bssid b.
Definition same_row (a b : NetworkSummary) : Prop := same_network a b \/ spells a b \/ spells b a.

Lemma row_key_same a b : row_key a = row_key b <-> same_row a b.
Proof.
  unfold row_key, same_row, same_network, spells. repeat case_bool_decide; intuition congruence.
Qed.

Lemma NoDup_fmap_lookup {A B} (f : A -> B) l i j x y :
  NoDup (map f l) -> l !! i = Some x -> l !! j = Some y -> f x = f y -> i = j.
Proof.
  intros Hn Hi Hj He. apply (NoDup_lookup (f <$> l) i j (f x)); [done|..]; rewrite list_lookup_fmap.
  - by rewrite Hi.
  - by rewrite Hj, He.
Qed.

(** C40. What a scan shows, strongest first: only networks that were found;
    for each of them a row of its name -- of its address, when it hides its
    name -- and the row shown is the strongest of those; and no two rows of
    one name, or hidden of one address.  So each hidden network has a row of
    its own, but for the one whose address another network uses as its name:
    the louder of those two stands for both. *)
Theorem scan_listed networks :
  StronglySorted at_least_as_strong (listed networks)
  /\ (forall m, m ∈ listed networks -> m ∈ networks)
  /\ (forall n, n ∈ networks ->
        exists m, m ∈ listed networks /\ same_row m n /\ at_least_as_strong m n
          /\ ((forall k, k ∈ networks -> ~ spells k n /\ ~ spells n k) -> same_network m n))
  /\ (forall i j m m', listed networks !! i = Some m -> listed networks !! j = Some m' -> same_row m m' -> i = j).
Proof.
  unfold listed. pose proof (sorted_by_strength networks) as Hs.
  assert (Hin : forall m, m ∈ retain_new ∅ (sort_by stronger networks) -> m ∈ networks).
  { intros m Hm. rewrite <- (sort_by_perm stronger networks).
    eapply elem_of_sublist; [exact Hm|]. apply retain_new_sublist. }
  split_and!; [|done|..].
  - eapply sublist_sorted; [apply retain_new_sublist|exact Hs].
  - intros n Hn. destruct (retain_new_first ∅ _ n Hs) as (m & Hm & Hk%row_key_same & Hst);
      [by rewrite sort_by_perm|set_solver|].
    exists m. split_and!; [done..|]. intros Hno. destruct (Hno m (Hin m Hm)). by destruct Hk as [|[]].
  - intros i j m m' Hi Hj Hr%row_key_same. eapply NoDup_fmap_lookup; [apply retain_new_keys|done..].
Qed.

(** ** The channels of the bands *)

(** The centre of a channel, by IEEE 802.11: what [channel] inverts. *)
Definition centre (band : string) (ch : Z) : Z :=
  if bool_decide (band = "2.4 GHz") then (if ch =? 14 then 2484 else 2407 + 5 * ch)
  else if bool_decide (band = "5 GHz") then 5000 + 5 * ch
  else (if ch =? 2 then 5935 else 5950 + 5 * ch).
Definition channels : list (string * Z) :=
  map (fun n => ("2.4 GHz"%string, Z.of_nat n)) (seq 1 14) ++ map (fun n => ("5 GHz"%string, Z.of_nat n)) (seq 34 146)
    ++ map (fun n => ("6 GHz"%string, Z.of_nat n)) (seq 1 233).

Lemma channel_centre : Forall (fun '(band, ch) => channel (centre band ch) = Some (ch, band)) channels.
Proof. apply (bool_decide_unpack _). vm_compute. exact I. Qed.

(** ** The outputs the code's own tests pin *)
Module RenderDemo.
Definition net (ssid bssid : string) (dbm freq : Z) (security : string) (known : bool) : NetworkSummary :=
  Build_NetworkSummary (ascii_of ssid) (ascii_of bssid) dbm freq (ascii_of security) known.
Definition networks : list NetworkSummary :=
  [net "Neighbour" "aa:00:00:00:00:01" (-78) 2462 "WPA2-Personal" false;
   net "HomeNet" "aa:00:00:00:00:02" (-42) 5180 "WPA3-Personal" true;
   net "CoffeeShop" "aa:00:00:00:00:03" (-61) 2437 "Open" false;
   net "HomeNet" "aa:00:00:00:00:04" (-70) 2437 "WPA3-Personal" true]%string.
Definition text_lines (l : list string) : bytes := concat (map (fun s => ascii_of s ++ [10]) l).
End RenderDemo.

Example scan_table_pinned : scan_table RenderDemo.networks = RenderDemo.text_lines
  ["SSID        SIGNAL               CHANNEL       SECURITY       KNOWN";
   "HomeNet     -42 dBm (excellent)  36 (5 GHz)    WPA3-Personal  *";
   "CoffeeShop  -61 dBm (fair)       6 (2.4 GHz)   Open";
   "Neighbour   -78 dBm (weak)       11 (2.4 GHz)  WPA2-Personal"].
Proof. vm_compute. reflexivity. Qed.

Example status_pinned :
  status_block (Build_ConnectionStatus (ascii_of "wlan0") None (ascii_of "disconnected") [ascii_of "fe80::1/64"])
  = RenderDemo.text_lines ["wlan0"; "  state      disconnected"; "  network    -"; "  ipv4       -"; "  ipv6       fe80::1/64"].
Proof. vm_compute. reflexivity. Qed.

Lemma table_columns_witness :
  exists line before after blanks,
    push_row (column_widths SCAN_HEADERS (map scan_row (listed RenderDemo.networks)))
        (scan_row (RenderDemo.net "CoffeeShop" "aa:00:00:00:00:03" (-61) 2437 "Open" false)) = line ++ [10]
    /\ utf8_chars_lossy line ++ blanks = before ++ utf8_chars_lossy (ascii_of "Open") ++ after
    /\ length before = column (column_widths SCAN_HEADERS (map scan_row (listed RenderDemo.networks))) 3
    /\ Forall (fun c => is_whitespace c = true) blanks.
Proof.
  apply (table_columns SCAN_HEADERS (map scan_row (listed RenderDemo.networks)) _ 3);
    apply (bool_decide_unpack _); vm_compute; exact I.
Defined.

(** A network may call itself by another's address: one that hides its name is
    then no row of its own, the louder of the two standing for both. *)
Example named_like_an_address :
  listed [RenderDemo.net "aa:00:00:00:00:02" "aa:00:00:00:00:01" (-40) 2462 "open" false;
          RenderDemo.net "" "aa:00:00:00:00:02" (-50) 2462 "open" false]
  = [RenderDemo.net "aa:00:00:00:00:02" "aa:00:00:00:00:01" (-40) 2462 "open" false].
Proof. vm_compute. reflexivity. Qed.
