(* ===== verification/Prompt.v ===== *)
(** * Asking at the terminal: [caw], prompt.rs

    A credential is typed at a terminal whose echo is off and whose signals are
    bytes, so the loop does its own line editing and nothing gets past the
    guard that puts the terminal back.

    [Terminal] is what the process shares with its kernel: the terminal's
    attributes, what will be read from standard input, and what the system
    calls answer.  Standard output, standard error and every key read are one
    [log] in the order they happen; a key is logged with whether the terminal's
    own ECHO was on when it was read. *)
From S2P Require Import Prelude Bytes Text Calls.

Definition ETX : Z := 0x03.
Definition EOT : Z := 0x04.
Definition BS : Z := 0x08.
Definition NAK : Z := 0x15.
Definition DEL : Z := 0x7f.

Inductive Error := Interrupted | Eof | NotUtf8 | Io (errno : Z).
#[export] Instance Error_eq_dec : EqDecision Error.
Proof. solve_decision. Defined.

Inductive Echo := Shown | Hidden.
#[export] Instance Echo_eq_dec : EqDecision Echo.
Proof. solve_decision. Defined.

(** How a call can end without a result: an error, or still waiting when there
    is nothing left to read. *)
Inductive Stop (E : Type) := Fails (e : E) | Waits.
Arguments Fails {_} _.
Arguments Waits {_}.

(** [Termios]: the flags and characters the prompt changes, and the rest. *)
Record Termios := { icanon : bool; isig : bool; echoes : bool; vmin : Z; vtime : Z; other_modes : bytes }.
#[export] Instance Termios_eq_dec : EqDecision Termios.
Proof. solve_decision. Defined.

(** What one [read] of the terminal gives. *)
Inductive Key := Typed (b : Z) | EndOfInput | Signal | ReadFault (errno : Z).

Inductive Logged := ToStdout (text : bytes) | ToStderr (text : bytes) | KeyRead (b : Z) (echoed : bool).
#[export] Instance Logged_eq_dec : EqDecision Logged.
Proof. solve_decision. Defined.

(** [ahead] was typed before the call, [keys] is typed from then on; [get_fault]
    is what [tcgetattr] fails with, [set_faults] what each [tcsetattr] does, the
    rest of which succeed.  [piped] is what is left of a standard input that
    is not a terminal, and [piped_fault] how reading past it ends. *)
Record Terminal := {
  is_tty : bool; attrs : Termios; get_fault : option Z; set_faults : list (option Z);
  ahead : list Key; keys : list Key; piped : bytes; piped_fault : option Z; log : list Logged;
}.
Definition set_attrs a t := Build_Terminal (is_tty t) a (get_fault t) (set_faults t) (ahead t) (keys t) (piped t) (piped_fault t) (log t).
Definition set_set_faults f t := Build_Terminal (is_tty t) (attrs t) (get_fault t) f (ahead t) (keys t) (piped t) (piped_fault t) (log t).
Definition set_keys a k t := Build_Terminal (is_tty t) (attrs t) (get_fault t) (set_faults t) a k (piped t) (piped_fault t) (log t).
Definition set_piped p t := Build_Terminal (is_tty t) (attrs t) (get_fault t) (set_faults t) (ahead t) (keys t) p (piped_fault t) (log t).
Definition set_log l t := Build_Terminal (is_tty t) (attrs t) (get_fault t) (set_faults t) (ahead t) (keys t) (piped t) (piped_fault t) l.

Abbreviation reading := (call Terminal (Stop Error)).

Definition say (what : Logged) : reading unit := update (fun t => set_log (log t ++ [what]) t).
Definition eprint (text : bytes) : reading unit := say (ToStderr text).

(** One [read] of one byte: what was typed ahead comes first. *)
Definition read_key : reading Key :=
  t ← self;
  '(k, t') ← lift (match ahead t, keys t with
                  | k :: a, ks => Ok (k, set_keys a ks t)
                  | [], k :: ks => Ok (k, set_keys [] ks t)
                  | [], [] => Err Waits
                  end);
  _ ← update (fun _ => t');
  _ ← match k with Typed b => say (KeyRead b (echoes (attrs t'))) | _ => mret tt end;
  mret k.

(** [tcsetattr] with [Now], or with [Flush], which drops what was typed ahead. *)
Definition tcsetattr (flush : bool) (a : Termios) : reading unit :=
  t ← self;
  let fault := default None (head (set_faults t)) in
  _ ← update (set_set_faults (tail (set_faults t)));
  match fault with
  | Some e => throw (Fails (Io e))
  | None => update (fun t => set_attrs a (if flush then set_keys [] (keys t) t else t))
  end.

(** ** [Restore] *)

Definition raw_mode (echo : Echo) (saved : Termios) : Termios :=
  Build_Termios false false (if decide (echo = Hidden) then false else echoes saved) 1 0 (other_modes saved).

Definition Restore_apply (echo : Echo) : reading Termios :=
  t ← self;
  _ ← match get_fault t with Some e => throw (Fails (Io e)) | None => mret tt end;
  let saved := attrs t in
  _ ← tcsetattr true (raw_mode echo saved);
  mret saved.

(** [Drop for Restore]: at the end of the scope, however it is left; a failure
    to restore is ignored.  A process still waiting has not left it. *)
Definition with_restore {A} (saved : Termios) (body : reading A) : reading A := fun t =>
  let (t, r) := body t in
  match r with
  | Err Waits => (t, r)
  | _ => (fst (tcsetattr false saved t), r)
  end.

(** ** The loop *)

(** [erase_char]: pops octets up to and including one that begins a character. *)
Fixpoint erase_rev (rbuf : bytes) : bytes :=
  match rbuf with
  | [] => []
  | b :: rbuf => if Z.land b 0xc0 =? 0x80 then erase_rev rbuf else rbuf
  end.
Definition erase_char (buf : bytes) : bytes := rev (erase_rev (rev buf)).

Definition when_shown (echo : Echo) (text : bytes) : reading unit :=
  if decide (echo = Shown) then eprint text else mret tt.

(** [read_tty]'s loop; each turn reads a key, so the keys there are bound it. *)
Fixpoint read_loop (fuel : nat) (echo : Echo) (typed : bytes) : reading bytes :=
  match fuel with
  | O => throw Waits
  | S fuel =>
      key ← read_key;
      match key with
      | EndOfInput => throw (Fails Eof)
      | Signal => read_loop fuel echo typed
      | ReadFault e => throw (Fails (Io e))
      | Typed b =>
          if (b =? 10) || (b =? 13) then mret typed
          else if b =? ETX then throw (Fails Interrupted)
          else if b =? EOT then (if bool_decide (typed = []) then throw (Fails Eof) else mret typed)
          else if (b =? BS) || (b =? DEL) then
            _ ← when_shown echo [8; 32; 8]; read_loop fuel echo (erase_char typed)
          else if b =? NAK then
            _ ← when_shown echo [13; 27; 91; 50; 75]; read_loop fuel echo []
          else if b <? 0x20 then read_loop fuel echo typed
          else _ ← when_shown echo [b]; read_loop fuel echo (typed ++ [b])
      end
  end.

Definition read_tty (echo : Echo) : reading bytes :=
  saved ← Restore_apply echo;
  with_restore saved (
    t ← self;
    typed ← read_loop (S (length (ahead t ++ keys t))) echo [];
    lift (ok_or (Fails NotUtf8) (from_utf8 typed))).

(** ** Standard input that is not a terminal *)

Definition trim_line_end (l : bytes) : bytes := rev (drop_while (fun b => (b =? 10) || (b =? 13)) (rev l)).

(** An error without an errno -- text that is not UTF-8 -- becomes [Eof]: [io_errno]. *)
Definition read_piped : reading bytes :=
  t ← self;
  let '(line, rest, ended) := take_line (piped t) in
  _ ← update (set_piped rest);
  _ ← match piped_fault t with Some e => throw_if (negb ended) (Fails (Io e)) | None => mret tt end;
  line ← lift (ok_or (Fails Eof) (from_utf8 line));
  _ ← throw_if (bool_decide (line = [])) (Fails Eof);
  mret (trim_line_end line).

Definition ask (prompt : bytes) (echo : Echo) : reading bytes := fun t =>
  if negb (is_tty t) then read_piped t
  else
    let (t, _) := eprint prompt t in
    let (t, result) := read_tty echo t in
    match result with
    | Err Waits => (t, result)
    | _ => if bool_decide (echo = Hidden) || is_err result then (fst (eprint [10] t), result) else (t, result)
    end.

(** [impl Display for Error]; the text of an errno is the library's. *)
Definition Error_fmt (errno_text : Z -> bytes) (e : Error) : bytes :=
  match e with
  | Interrupted => ascii_of "cancelled"
  | Eof => ascii_of "no input: the prompt reached end of file"
  | NotUtf8 => ascii_of "what was typed is not valid UTF-8"
  | Io e => ascii_of "reading from the terminal: " ++ errno_text e
  end.

(** ** The terminal is left as it was found *)

(** What a stretch of reading may do: read keys, and with [Hidden] nothing else
    that shows. *)
Definition only_reads (echo : Echo) (t t' : Terminal) : Prop :=
  attrs t' = attrs t /\ set_faults t' = set_faults t /\ is_tty t' = is_tty t
  /\ (echo = Hidden -> exists typed, log t' = log t ++ map (fun b => KeyRead b (echoes (attrs t))) typed).

Lemma only_reads_refl echo t : only_reads echo t t.
Proof. unfold only_reads. split_and!; [done..|]. intros _. exists []. by rewrite app_nil_r. Qed.

Lemma only_reads_trans echo t1 t2 t3 : only_reads echo t1 t2 -> only_reads echo t2 t3 -> only_reads echo t1 t3.
Proof.
  intros (A1 & F1 & I1 & L1) (A2 & F2 & I2 & L2). unfold only_reads. rewrite A2, F2, I2. split_and!; [done..|].
  intros He. destruct (L1 He) as [k1 H1], (L2 He) as [k2 H2]. exists (k1 ++ k2).
  by rewrite H2, H1, A1, map_app, app_assoc.
Qed.

Lemma read_key_reads echo t : after read_key t (fun t' _ => only_reads echo t t').
Proof.
  unfold read_key, say. apply after_self. apply after_lift_bind.
  assert (Hstep : forall k a ks, only_reads echo t
    (match k with Typed b => set_log (log t ++ [KeyRead b (echoes (attrs t))]) (set_keys a ks t) | _ => set_keys a ks t end)).
  { intros k a ks. unfold only_reads. destruct k as [b| | |]; split_and!; try done; intros _;
      [by exists [b]|exists []; by rewrite app_nil_r..]. }
  destruct (ahead t) as [|k a], (keys t) as [|k' ks]; cbn [and_then]; [apply only_reads_refl|..];
    apply after_update; apply after_bind; unfold after.
  - specialize (Hstep k' [] ks). by destruct k'.
  - specialize (Hstep k a []). by destruct k.
  - specialize (Hstep k a (k' :: ks)). by destruct k.
Qed.

Lemma when_shown_reads echo text t : after (when_shown echo text) t (fun t' _ => only_reads echo t t').
Proof.
  unfold when_shown. case_decide as He; [|apply only_reads_refl]. unfold after, only_reads. cbn.
  split_and!; try done. intros Hh. by rewrite Hh in He.
Qed.

Lemma read_loop_reads fuel echo typed t : after (read_loop fuel echo typed) t (fun t' _ => only_reads echo t t').
Proof.
  revert typed t. induction fuel as [|fuel IH]; intros typed t; cbn [read_loop]; [apply only_reads_refl|].
  apply after_bind. eapply after_mono; [apply read_key_reads|]. intros t1 r1 H1.
  destruct r1 as [key| |]; cbn [and_then]; [|exact H1..].
  assert (Hrest : forall typed, after (read_loop fuel echo typed) t1 (fun t' _ => only_reads echo t t')).
  { intros typed'. eapply after_mono; [apply IH|]. intros t' r'. by apply only_reads_trans. }
  assert (Hsay : forall text typed, after (_ ← when_shown echo text; read_loop fuel echo typed) t1
    (fun t' _ => only_reads echo t t')).
  { intros text typed'. apply after_bind. eapply after_mono; [apply when_shown_reads|].
    intros t2 r2 H2. pose proof (only_reads_trans _ _ _ _ H1 H2) as H12.
    destruct r2; cbn [and_then]; [|exact H12..]. eapply after_mono; [apply IH|]. intros t' r'. by apply only_reads_trans. }
  destruct key as [b| | |]; [|exact H1|apply Hrest|exact H1].
  repeat case_match; first [exact H1|apply Hrest|apply Hsay].
Qed.

Lemma Restore_apply_eq echo t :
  Restore_apply echo t =
  match get_fault t, default None (head (set_faults t)) with
  | Some e, _ => (t, Err (Fails (Io e)))
  | None, Some e => (set_set_faults (tail (set_faults t)) t, Err (Fails (Io e)))
  | None, None =>
      (set_attrs (raw_mode echo (attrs t)) (set_keys [] (keys t) (set_set_faults (tail (set_faults t)) t)),
       Ok (attrs t))
  end.
Proof.
  unfold Restore_apply, tcsetattr, mbind, call_bind, self, update, throw, mret, call_ret.
  destruct (get_fault t); [done|]. by destruct (default None (head (set_faults t))).
Qed.

(** The attributes are those that were saved, if the system call works. *)
Lemma restored saved t :
  Forall (eq None) (set_faults t) ->
  attrs (fst (tcsetattr false saved t)) = saved /\ log (fst (tcsetattr false saved t)) = log t.
Proof.
  intros Hf. unfold tcsetattr, mbind, call_bind, self, update, throw. destruct (set_faults t) as [|f fs]; [done|].
  apply Forall_cons in Hf as [<- _]. done.
Qed.

Lemma read_tty_reads echo t :
  Forall (eq None) (tail (set_faults t)) ->
  after (read_tty echo) t (fun t' r => r <> Err Waits ->
    attrs t' = attrs t
    /\ (echo = Hidden -> exists typed, log t' = log t ++ map (fun b => KeyRead b false) typed)).
Proof.
  intros Hset. unfold read_tty. apply after_bind. unfold after at 1. rewrite Restore_apply_eq.
  assert (Hnone : exists typed, log t = log t ++ map (fun b => KeyRead b false) typed)
    by (exists []; by rewrite app_nil_r).
  destruct (get_fault t) as [e|]; [done|]. destruct (default None (head (set_faults t))) as [e|]; [done|].
  cbn [fst snd and_then]. set (t1 := set_attrs _ _).
  unfold after, with_restore, mbind, call_bind, self, lift. cbv beta iota zeta.
  set (fuel := S (length (ahead t1 ++ keys t1))). destruct (read_loop fuel echo [] t1) as [t2 r] eqn:Hrun.
  pose proof (after_eq _ _ _ _ _ (read_loop_reads fuel echo [] t1) Hrun) as (Ha & Hs & _ & Hl).
  assert (Hend : attrs (fst (tcsetattr false (attrs t) t2)) = attrs t
    /\ (echo = Hidden -> exists typed, log (fst (tcsetattr false (attrs t) t2)) = log t ++ map (fun b => KeyRead b false) typed)).
  { destruct (restored (attrs t) t2) as [-> ->]; [by rewrite Hs|]. split; [done|]. intros ->. by apply Hl. }
  destruct r as [typed|[e|]|]; cbn [fst snd lift]; [|done..].
  by destruct (ok_or _ (from_utf8 typed)) as [|[]|] eqn:Ho.
Qed.

(** C24. However a prompt ends -- a line, Ctrl-C, Ctrl-D, a read error, text that
    is not UTF-8 -- the terminal has exactly the attributes it was found with;
    and when the answer is a secret, nothing of it is shown: every key is read
    while the terminal's echo is off, and what the program itself writes is the
    prompt and the newline at the end. *)
Theorem prompt_leaves_no_trace prompt echo t :
  is_tty t = true -> Forall (eq None) (tail (set_faults t)) ->
  after (ask prompt echo) t (fun t' r => r <> Err Waits ->
    attrs t' = attrs t
    /\ (echo = Hidden -> exists typed, log t' =
          log t ++ [ToStderr prompt] ++ map (fun b => KeyRead b false) typed ++ [ToStderr [10]])).
Proof.
  intros Htty Hset. unfold after, ask. rewrite Htty. cbn [negb eprint say update].
  set (t1 := set_log _ t). pose proof (read_tty_reads echo t1 Hset) as Hread. unfold after in Hread.
  destruct (read_tty echo t1) as [t2 r]. cbn [fst snd] in Hread.
  assert (Hend : r <> Err Waits ->
    attrs (set_log (log t2 ++ [ToStderr [10]]) t2) = attrs t
    /\ (echo = Hidden -> exists typed, log (set_log (log t2 ++ [ToStderr [10]]) t2) =
          log t ++ [ToStderr prompt] ++ map (fun b => KeyRead b false) typed ++ [ToStderr [10]])).
  { intros Hr. destruct (Hread Hr) as [Ha Hl]. split; [done|]. intros He. destruct (Hl He) as [typed Ht].
    exists typed. cbn. rewrite Ht. cbn. by rewrite <- !app_assoc. }
  assert (Hopen : echo <> Hidden -> r <> Err Waits -> attrs t2 = attrs t
    /\ (echo = Hidden -> exists typed, log t2 =
          log t ++ [ToStderr prompt] ++ map (fun b => KeyRead b false) typed ++ [ToStderr [10]])).
  { intros He Hr. by destruct (Hread Hr) as [Ha _]. }
  destruct r as [l|[e|]|]; cbn [is_err orb]; [|rewrite orb_true_r; exact Hend|done|];
    case_bool_decide as He; cbn [orb]; first [exact Hend|by apply Hopen].
Qed.

(** ** Editing a line of characters *)

(** The octets of one character: one that begins it, and those that go on. *)
Lemma char_shape c :
  valid_char c -> is_bytes c ->
  exists b conts, c = b :: conts /\ is_cont b = false /\ Forall (fun x => is_cont x = true) conts
    /\ match conts with [] => 0 <= b < 0x80 | _ => 0x80 <= b end.
Proof.
  intros Hv Hb. destruct c as [|b l]; [done|]. exists b, l. split; [done|].
  assert (Hlead : forall x, is_uint 8 x -> x < 0x80 \/ 0xC2 <= x -> is_cont x = false).
  { intros x Hx Hge. pose proof (all_octets (fun x => in_range 0x80 0xC1 x || negb (is_cont x)) eq_refl x Hx) as Ho.
    cbn beta in Ho. assert (Hr : in_range 0x80 0xC1 x = false)
      by (unfold in_range; apply andb_false_iff; destruct Hge; [left|right]; lia).
    rewrite Hr in Ho. by apply negb_true_iff. }
  assert (Hsec : forall x, is_uint 8 x -> second_ok b x = true -> is_cont x = true).
  { intros x Hx Hs. pose proof (all_octets (fun x => negb (in_range 0x80 0xBF x) || is_cont x) eq_refl x Hx) as Ho.
    cbn beta in Ho. assert (Hr : in_range 0x80 0xBF x = true)
      by (unfold second_ok, in_range in *; repeat case_match; bool_prop; apply andb_true_iff; split; lia).
    by rewrite Hr in Ho. }
  apply Forall_cons in Hb as [Hb Hl]. unfold is_uint in Hb.
  unfold valid_char in Hv. cbn [utf8_next] in Hv. destruct (utf8_step b l) as [[] n] eqn:Hs; [|by injection Hv as <- <- _].
  assert (Hn : n = S (length l)).
  { injection Hv as _ Hd. apply (f_equal length) in Hd. rewrite length_drop in Hd. cbn in Hd.
    apply utf8_step_valid in Hs as [? _]. lia. }
  subst n. unfold utf8_step, utf8_char_width, in_range in Hs.
  destruct l as [|c1 [|c2 [|c3 [|c4 l]]]]; repeat (case_match; try done); bool_prop; try lia; cbn in *;
    repeat match goal with H : Forall _ (_ :: _) |- _ => apply Forall_cons in H as [? H] end;
    (split; [apply Hlead; unfold is_uint; lia|split; [repeat constructor; auto|lia]]).
Qed.

Lemma erase_conts conts b rbuf :
  Forall (fun x => is_cont x = true) conts -> is_cont b = false -> erase_rev (conts ++ b :: rbuf) = rbuf.
Proof.
  unfold is_cont. induction 1 as [|x conts Hx _ IH]; intros Hb; cbn [app erase_rev]; [by rewrite Hb|]. rewrite Hx. by apply IH.
Qed.

(** Erasing takes away the last character, whole. *)
Lemma erase_char_whole buf c : valid_char c -> is_bytes c -> erase_char (buf ++ c) = buf.
Proof.
  intros Hv Hb. destruct (char_shape c Hv Hb) as (b & conts & -> & Hl & Hc & _). unfold erase_char.
  rewrite rev_app_distr. cbn [rev]. rewrite <- app_assoc. cbn [app].
  rewrite erase_conts; [apply rev_involutive|by apply Forall_rev|done].
Qed.

(** What a person does at the prompt, and what it makes of the characters so far. *)
Inductive Edit := EChar (c : bytes) | EErase (key : Z) | EKill | EControl (b : Z) | ESignal.
Definition edit_keys (e : Edit) : list Key :=
  match e with
  | EChar c => map Typed c
  | EErase key => [Typed key]
  | EKill => [Typed NAK]
  | EControl b => [Typed b]
  | ESignal => [Signal]
  end.
Definition apply_edit (cs : list bytes) (e : Edit) : list bytes :=
  match e with EChar c => cs ++ [c] | EErase _ => removelast cs | EKill => [] | EControl _ | ESignal => cs end.
(** A character of UTF-8 that is not a control character; a key that erases; a
    control character that has no meaning here. *)
Definition edit_ok (e : Edit) : Prop :=
  match e with
  | EChar c => valid_char c /\ is_bytes c /\ Forall (fun b => 0x20 <= b /\ b <> DEL) c
  | EErase key => key = BS \/ key = DEL
  | EControl b => 0 <= b < 0x20 /\ b ∉ [10; 13; ETX; EOT; BS; NAK]
  | EKill | ESignal => True
  end.
Definition char_ok (c : bytes) : Prop := valid_char c /\ is_bytes c.

Lemma read_key_next t k ks :
  ahead t = [] -> keys t = k :: ks ->
  exists t', read_key t = (t', Ok k) /\ ahead t' = [] /\ keys t' = ks /\ set_faults t' = set_faults t.
Proof.
  intros Ha Hk. unfold read_key, say, self, update, lift, mbind, call_bind, mret, call_ret.
  rewrite Ha, Hk. destruct k; eexists; (split; [reflexivity|done]).
Qed.

(** What a key that does not end the line makes of what was typed. *)
Definition next_typed (typed : bytes) (b : Z) : bytes :=
  if (b =? BS) || (b =? DEL) then erase_char typed
  else if b =? NAK then []
  else if b <? 0x20 then typed
  else typed ++ [b].

Lemma loop_key t b ks fuel echo typed :
  ahead t = [] -> keys t = Typed b :: ks -> b ∉ [10; 13; ETX; EOT] ->
  exists t', read_loop (S fuel) echo typed t = read_loop fuel echo (next_typed typed b) t'
    /\ ahead t' = [] /\ keys t' = ks.
Proof.
  intros Ha Hk Hb. destruct (read_key_next t _ _ Ha Hk) as (t' & Hr & Ha' & Hk' & _). cbn [read_loop].
  rewrite (call_bind_ok _ _ _ _ _ Hr). rewrite !not_elem_of_cons in Hb. destruct Hb as (H1 & H2 & H3 & H4 & _).
  rewrite !(proj2 (Z.eqb_neq b _)) by done. cbn [orb]. unfold next_typed.
  assert (Hsay : forall text rest, exists t'',
    (_ ← when_shown echo text; rest) t' = (rest : reading bytes) t'' /\ ahead t'' = [] /\ keys t'' = ks).
  { intros text rest. unfold when_shown. case_decide; [|by exists t'].
    by exists (set_log (log t' ++ [ToStderr text]) t'). }
  repeat case_match; first [apply Hsay|by exists t'].
Qed.

Lemma loop_keys l t ks fuel echo typed :
  ahead t = [] -> keys t = map Typed l ++ ks -> Forall (fun b => b ∉ [10; 13; ETX; EOT]) l -> (length l <= fuel)%nat ->
  exists t', read_loop fuel echo typed t = read_loop (fuel - length l) echo (fold_left next_typed l typed) t'
    /\ ahead t' = [] /\ keys t' = ks.
Proof.
  revert t fuel typed. induction l as [|b l IH]; intros t fuel typed Ha Hk Hl Hf.
  - exists t. by rewrite Nat.sub_0_r.
  - apply Forall_cons in Hl as [Hb Hl]. destruct fuel as [|fuel]; [cbn in Hf; lia|].
    destruct (loop_key t b (map Typed l ++ ks) fuel echo typed Ha Hk Hb) as (t1 & -> & Ha1 & Hk1).
    apply IH; [done..|cbn in Hf; lia].
Qed.

Lemma next_typed_char c typed :
  valid_char c -> is_bytes c -> Forall (fun b => 0x20 <= b /\ b <> DEL) c -> fold_left next_typed c typed = typed ++ c.
Proof.
  intros _ _. revert typed. induction c as [|b c IH]; intros typed Hc; cbn [fold_left]; [by rewrite app_nil_r|].
  apply Forall_cons in Hc as [[Hb Hd] Hc]. rewrite IH by done. unfold next_typed, BS, NAK, DEL in *.
  rewrite !(proj2 (Z.eqb_neq b _)), (proj2 (Z.ltb_ge b _)) by lia. cbn [orb]. by rewrite <- app_assoc.
Qed.

Lemma erase_last cs : Forall char_ok cs -> erase_char (concat cs) = concat (removelast cs).
Proof.
  intros Hcs. destruct cs as [|c cs _] using rev_ind; [done|]. apply Forall_app in Hcs as [_ [[Hv Hb] _]%Forall_cons].
  rewrite removelast_last, concat_app. cbn [concat]. rewrite app_nil_r. by apply erase_char_whole.
Qed.

Lemma apply_edit_ok cs e : Forall char_ok cs -> edit_ok e -> Forall char_ok (apply_edit cs e).
Proof.
  intros Hcs He. destruct e as [c| | | |]; cbn; try done.
  - destruct He as (? & ? & _). apply Forall_app; split; [done|by repeat constructor].
  - destruct cs as [|c cs _] using rev_ind; [done|]. rewrite removelast_last. by apply Forall_app in Hcs as [? _].
Qed.

Lemma loop_edit t e cs ks fuel echo :
  ahead t = [] -> keys t = edit_keys e ++ ks -> edit_ok e -> Forall char_ok cs -> (length (edit_keys e) <= fuel)%nat ->
  exists t', read_loop fuel echo (concat cs) t
      = read_loop (fuel - length (edit_keys e)) echo (concat (apply_edit cs e)) t'
    /\ ahead t' = [] /\ keys t' = ks.
Proof.
  intros Ha Hk He Hcs Hf.
  assert (Htyped : forall l, edit_keys e = map Typed l -> Forall (fun b => b ∉ [10; 13; ETX; EOT]) l ->
    fold_left next_typed l (concat cs) = concat (apply_edit cs e) ->
    exists t', read_loop fuel echo (concat cs) t
      = read_loop (fuel - length (edit_keys e)) echo (concat (apply_edit cs e)) t' /\ ahead t' = [] /\ keys t' = ks).
  { intros l Hl Hall Hfold. rewrite Hl in Hk, Hf |- *. rewrite length_map in Hf |- *. rewrite <- Hfold.
    by apply loop_keys. }
  destruct e as [c|key| |b|].
  - destruct He as (Hv & Hb & Hp). apply (Htyped c); [done| |].
    + eapply Forall_impl; [exact Hp|]. cbn. intros b [? _]. rewrite !not_elem_of_cons. unfold ETX, EOT. 
      split_and!; [lia..|apply not_elem_of_nil].
    + rewrite next_typed_char by done. cbn [apply_edit]. rewrite concat_app. cbn. by rewrite app_nil_r.
  - apply (Htyped [key]); [done| |].
    + destruct He as [->| ->]; apply (bool_decide_unpack _); vm_compute; exact I.
    + cbn. rewrite <- erase_last by done. by destruct He as [->| ->].
  - apply (Htyped [NAK]); [done| |done]. apply (bool_decide_unpack _); vm_compute; exact I.
  - destruct He as [Hb Hn]. rewrite !not_elem_of_cons in Hn. destruct Hn as (? & ? & ? & ? & ? & ? & _).
    apply (Htyped [b]); [done| |].
    + repeat constructor. rewrite !not_elem_of_cons. split_and!; [done..|apply not_elem_of_nil].
    + cbn. unfold next_typed, DEL in *. rewrite !(proj2 (Z.eqb_neq b _)), (proj2 (Z.ltb_lt b _)) by lia. done.
  - destruct (read_key_next t _ _ Ha Hk) as (t' & Hr & Ha' & Hk' & _). destruct fuel as [|fuel]; [cbn in Hf; lia|].
    exists t'. cbn [read_loop edit_keys length apply_edit Nat.sub]. rewrite Nat.sub_0_r.
    rewrite (call_bind_ok _ _ _ _ _ Hr). done.
Qed.

Lemma loop_edits t edits cs ks fuel echo :
  ahead t = [] -> keys t = concat (map edit_keys edits) ++ ks -> Forall edit_ok edits -> Forall char_ok cs ->
  (length (concat (map edit_keys edits)) <= fuel)%nat ->
  exists t', read_loop fuel echo (concat cs) t
      = read_loop (fuel - length (concat (map edit_keys edits))) echo (concat (fold_left apply_edit edits cs)) t'
    /\ ahead t' = [] /\ keys t' = ks /\ Forall char_ok (fold_left apply_edit edits cs).
Proof.
  revert t cs fuel. induction edits as [|e edits IH]; intros t cs fuel Ha Hk He Hcs Hf; cbn [map concat fold_left] in *.
  - exists t. by rewrite Nat.sub_0_r.
  - apply Forall_cons in He as [He Hes]. rewrite <- app_assoc in Hk. rewrite length_app in Hf |- *.
    destruct (loop_edit t e cs _ fuel echo Ha Hk He Hcs) as (t1 & -> & Ha1 & Hk1); [lia|].
    destruct (IH t1 (apply_edit cs e) (fuel - length (edit_keys e))%nat Ha1 Hk1 Hes) as (t2 & -> & H2);
      [by apply apply_edit_ok|lia|].
    exists t2. by rewrite Nat.sub_add_distr.
Qed.

Lemma from_utf8_chars cs : Forall char_ok cs -> from_utf8 (concat cs) = Some (concat cs).
Proof.
  intros Hcs. unfold from_utf8, utf8_lossy. rewrite utf8_chars_concat; [by rewrite bool_decide_eq_true_2|].
  eapply Forall_impl; [exact Hcs|]. by intros c [? _].
Qed.

Lemma loop_enter t enter ks fuel echo typed :
  ahead t = [] -> keys t = Typed enter :: ks -> enter = 10 \/ enter = 13 ->
  exists t', read_loop (S fuel) echo typed t = (t', Ok typed) /\ ahead t' = [] /\ keys t' = ks /\ set_faults t' = set_faults t.
Proof.
  intros Ha Hk He. destruct (read_key_next t _ _ Ha Hk) as (t' & Hr & Hrest). exists t'. split; [|done].
  cbn [read_loop]. rewrite (call_bind_ok _ _ _ _ _ Hr). by destruct He as [->| ->].
Qed.

(** C39. The prompt edits characters, not octets: what is typed -- characters of
    UTF-8, erasures, kills, stray control characters, signals in between --
    reads as the characters that are left when each erasure removes one and
    each kill all of them; what was typed before the prompt is not part of it,
    and what is typed after the line is left for later. *)
Theorem prompt_edits_characters prompt echo t edits enter rest :
  is_tty t = true -> get_fault t = None -> Forall (eq None) (set_faults t) ->
  keys t = concat (map edit_keys edits) ++ Typed enter :: rest -> enter = 10 \/ enter = 13 ->
  Forall edit_ok edits ->
  after (ask prompt echo) t (fun t' r =>
    r = Ok (concat (fold_left apply_edit edits [])) /\ ahead t' = [] /\ keys t' = rest).
Proof.
  intros Htty Hget Hset Hk Henter He. unfold after, ask. rewrite Htty. cbn [negb eprint say update].
  set (t0 := set_log _ t). unfold read_tty. rewrite (call_bind_ok _ _ t0 (set_attrs (raw_mode echo (attrs t))
    (set_keys [] (keys t) (set_set_faults (tail (set_faults t)) t0))) (attrs t)).
  2: { rewrite Restore_apply_eq. change (get_fault t0) with (get_fault t). change (set_faults t0) with (set_faults t).
       rewrite Hget. destruct (set_faults t) as [|f fs]; [done|]. by apply Forall_cons in Hset as [<- _]. }
  set (t1 := set_attrs _ _). unfold with_restore, mbind, call_bind, self, lift. cbv beta iota zeta.
  change (ahead t1 ++ keys t1) with (keys t).
  set (n := length (concat (map edit_keys edits))).
  assert (Hfuel : S (length (keys t)) = (n + S (S (length rest)))%nat) by (rewrite Hk, length_app; cbn; lia).
  rewrite Hfuel.
  destruct (loop_edits t1 edits [] (Typed enter :: rest) (n + S (S (length rest))) echo) as (t2 & Hrun & Ha2 & Hk2 & Hok);
    [done|done|done|done|lia|]. cbn [concat] in Hrun. rewrite Hrun. fold n.
  replace (n + S (S (length rest)) - n)%nat with (S (S (length rest))) by lia.
  destruct (loop_enter t2 enter rest (S (length rest)) echo (concat (fold_left apply_edit edits [])) Ha2 Hk2 Henter)
    as (t3 & -> & Ha3 & Hk3 & _). rewrite from_utf8_chars by done. cbn [ok_or].
  assert (Hdone : forall s, ahead (fst (tcsetattr false s t3)) = [] /\ keys (fst (tcsetattr false s t3)) = rest).
  { intros s. unfold tcsetattr, self, update, throw, mbind, call_bind. by destruct (default None (head (set_faults t3))). }
  destruct (bool_decide (echo = Hidden) || _); cbn [fst snd]; (split; [done|apply Hdone]).
Qed.

(** ** At a terminal *)
Module PromptDemo.
Definition cooked : Termios := Build_Termios true true true 1 0 [7].
(** Left over from before the prompt: a "z".  Then: "aé", an erasure, "b",
    Ctrl-A, an interrupted read, Return, and "x" after it. *)
Definition typing : list Edit := [EChar [97]; EChar [0xC3; 0xA9]; EErase DEL; EChar [98]; EControl 1; ESignal].
Definition at_keyboard : Terminal :=
  Build_Terminal true cooked None [] [Typed 122] (concat (map edit_keys typing) ++ Typed 13 :: [Typed 120]) [] None [].
Definition interrupted : Terminal := set_keys [] (map Typed [104; 117; ETX; 110]) at_keyboard.
Definition piped_in (text : bytes) : Terminal := Build_Terminal false cooked None [] [] [] text None [].
End PromptDemo.

Lemma prompt_edits_characters_witness :
  after (ask (ascii_of "Passphrase: ") Hidden) PromptDemo.at_keyboard (fun t' r =>
    r = Ok [97; 98] /\ ahead t' = [] /\ keys t' = [Typed 120]).
Proof.
  apply (prompt_edits_characters _ Hidden PromptDemo.at_keyboard PromptDemo.typing 13 [Typed 120]);
    [reflexivity|reflexivity|constructor|reflexivity|by right|].
  unfold PromptDemo.typing. repeat apply Forall_cons_2; [..|apply Forall_nil_2]; cbn [edit_ok].
  - split_and!; [reflexivity|repeat constructor; lia|repeat constructor; discriminate].
  - split_and!; [reflexivity|repeat constructor; lia|repeat constructor; discriminate].
  - by right.
  - split_and!; [reflexivity|repeat constructor; lia|repeat constructor; discriminate].
  - split; [lia|]. apply (bool_decide_unpack _). vm_compute. exact I.
  - exact I.
Defined.

Lemma prompt_leaves_no_trace_witness :
  snd (ask (ascii_of "Passphrase: ") Hidden PromptDemo.interrupted) = Err (Fails Interrupted)
  /\ after (ask (ascii_of "Passphrase: ") Hidden) PromptDemo.interrupted (fun t' r =>
       r <> Err Waits -> attrs t' = PromptDemo.cooked
       /\ (Hidden = Hidden -> exists typed, log t' =
            [] ++ [ToStderr (ascii_of "Passphrase: ")] ++ map (fun b => KeyRead b false) typed ++ [ToStderr [10]])).
Proof.
  split; [vm_compute; reflexivity|].
  apply (prompt_leaves_no_trace _ Hidden PromptDemo.interrupted); [reflexivity|constructor].
Defined.

(** A username is typed with the terminal's own echo still on, and the program
    writes each octet as well: what is typed appears twice. *)
Lemma shown_is_echoed_twice :
  log (fst (ask (ascii_of "Username: ") Shown (set_keys [] (map Typed [97; 10]) PromptDemo.at_keyboard)))
  = [ToStderr (ascii_of "Username: "); KeyRead 97 true; ToStderr [97]; KeyRead 10 true].
Proof. vm_compute. reflexivity. Qed.

(** Piped text that is not UTF-8 is reported as the end of the input. *)
Lemma piped_text_misreported :
  snd (ask [] Hidden (PromptDemo.piped_in [0xFF; 10])) = Err (Fails Eof)
  /\ snd (ask [] Hidden (set_keys [] (map Typed [0xFF; 10]) PromptDemo.at_keyboard)) = Err (Fails NotUtf8).
Proof. split; vm_compute; reflexivity. Qed.

Example piped_line : snd (ask [] Hidden (PromptDemo.piped_in [104; 105; 13; 10; 120])) = Ok [104; 105].
Proof. vm_compute. reflexivity. Qed.
