(* ===== verification/Cli.v ===== *)
(** * The command line: [caw], ipc.rs, wireless.rs, port.rs and main.rs

    A command that goes through the daemon connects, sends one request and
    reads what comes back; [connect] answers questions on the way, with what is
    typed at the prompt.  The port commands show what rtnetlink told them.

    [World] is the process's side of the system calls: the terminal and the
    log of what was shown (file Prompt), and the socket -- what each [read]
    will give, what each [write] will take, and what has been written. *)
From S2P Require Import Prelude Bytes Text Calls Render Prompt.
From S2P Require Ipc Rtnl Netlink Words.

(** ** caw-ipc's messages, as text *)

Record PortSummary := {
  p_name : bytes; p_mac : bytes; p_up : bool; p_carrier : bool; p_wireless : bool; p_addrs : list bytes;
}.
Inductive Response :=
| ROk
| RPorts (l : list PortSummary)
| RNetworks (l : list NetworkSummary)
| RStatus (s : ConnectionStatus)
| RError (message : bytes).
Inductive ServerMessage := MEvent (e : Event) | MResponse (r : Response).

(** ** ipc.rs *)

Definition SERVICE : bytes := ascii_of "cawd".
Definition SOCKET_PATH : bytes := ascii_of "/run/caw/caw.sock".

(** [frame::Error], of what the decoder can report *)
Inductive FrameError := FrameJson | FrameTooLong.
Inductive IpcError :=
| NotRunning
| Forbidden
| Closed
| Daemon (message : bytes)
| Unexpected
| Frame (e : FrameError)
| IpcIo (errno : Z).

(** What one [read] of the socket gives -- no octets at its end -- and what one
    [write] takes; a socket whose answers have run out takes what it is given. *)
Inductive Incoming := Got (chunk : bytes) | ReadSignal | ReadFailed (errno : Z).
Inductive Room := Took (n : nat) | WriteSignal | WriteFailed (errno : Z).

Record Client := { incoming : list Incoming; room : list Room; sent : bytes; decoder : bytes }.

(** [Box<dyn Error>], of what the commands put in it *)
Inductive CliError :=
| EIpc (e : IpcError)
| EPrompt (e : Prompt.Error)
| EText (message : bytes)
| ERtnl (e : Netlink.Error).

(** [route_fault] is what opening rtnetlink fails with, [kernel] what is
    delivered to each rtnetlink request in turn. *)
Record World := {
  term : Terminal; socket_fault : option Z; connect_fault : option Z; link : Client;
  route_fault : option Netlink.Error; kernel : list (list Netlink.Datagram);
}.
Definition set_term t w :=
  Build_World t (socket_fault w) (connect_fault w) (link w) (route_fault w) (kernel w).
Definition set_link c w :=
  Build_World (term w) (socket_fault w) (connect_fault w) c (route_fault w) (kernel w).
Definition set_kernel k w :=
  Build_World (term w) (socket_fault w) (connect_fault w) (link w) (route_fault w) k.

Definition ENOENT : Z := 2.
Definition ECONNREFUSED : Z := 111.
Definition EACCES : Z := 13.
Definition EPERM : Z := 1.

(** A method of [Client], or a question, as part of a command. *)
Definition lift_stop {E F A} (f : E -> F) (r : exec (Stop E) A) : exec (Stop F) A :=
  map_err (fun s => match s with Fails e => Fails (f e) | Waits => Waits end) r.
Abbreviation command := (call World (Stop CliError)).
Definition on_client {A} (m : call Client (Stop IpcError) A) : command A := fun w =>
  let (c, r) := m (link w) in (set_link c w, lift_stop EIpc r).
Definition on_terminal {A} (m : reading A) : command A := fun w =>
  let (t, r) := m (term w) in (set_term t w, lift_stop EPrompt r).
Definition eprintln (text : bytes) : command unit := on_terminal (eprint (text ++ [10])).
Definition print (text : bytes) : command unit := on_terminal (say (ToStdout text)).
Definition fail {A} (e : CliError) : command A := throw (Fails e).

Definition Client_connect : command unit :=
  w ← self;
  _ ← match socket_fault w with Some e => fail (EIpc (IpcIo e)) | None => mret tt end;
  match connect_fault w with
  | None => mret tt
  | Some e =>
      if (e =? ENOENT) || (e =? ECONNREFUSED) then fail (EIpc NotRunning)
      else if (e =? EACCES) || (e =? EPERM) then fail (EIpc Forbidden)
      else fail (EIpc (IpcIo e))
  end.

(** [Client::write_all]: each turn uses up an answer of the socket. *)
Fixpoint write_loop (room : list Room) (sent bytes : bytes) : (list Room * list Z) * exec (Stop IpcError) unit :=
  match bytes with
  | [] => ((room, sent), Ok tt)
  | _ =>
      match room with
      | [] => (([], sent ++ bytes), Ok tt)
      | Took O :: room => ((room, sent), Err (Fails Closed))
      | Took n :: room => write_loop room (sent ++ take n bytes) (drop n bytes)
      | WriteSignal :: room => write_loop room sent bytes
      | WriteFailed e :: room => ((room, sent), Err (Fails (IpcIo e)))
      end
  end.

Section client.
Context `{Ipc.Wire Ipc.Request} `{Ipc.Wire ServerMessage}.

(** [Client::send]; the wiping of the line is not observable here. *)
Definition Client_send (request : Ipc.Request) : call Client (Stop IpcError) unit := fun c =>
  let '((room, sent), r) := write_loop (room c) (sent c) (Ipc.encode request) in
  (Build_Client (incoming c) room sent (decoder c), r).

Definition of_decoded (d : @Ipc.Decoded ServerMessage) : exec (Stop IpcError) ServerMessage :=
  match d with
  | Ipc.Message m => Ok m
  | Ipc.Malformed _ => Err (Fails (Frame FrameJson))
  | Ipc.TooLong => Err (Fails (Frame FrameTooLong))
  end.

(** [Client::next]: each turn that does not return reads once. *)
Fixpoint next_loop (incoming : list Incoming) (decoder : bytes)
  : (list Incoming * bytes) * exec (Stop IpcError) ServerMessage :=
  match Ipc.next Ipc.from_slice Ipc.MAX_LINE decoder with
  | (Some d, decoder) => ((incoming, decoder), of_decoded d)
  | (None, decoder) =>
      match incoming with
      | [] => (([], decoder), Err Waits)
      | Got [] :: incoming => ((incoming, decoder), Err (Fails Closed))
      | Got chunk :: incoming => next_loop incoming (decoder ++ chunk)
      | ReadSignal :: incoming => next_loop incoming decoder
      | ReadFailed e :: incoming => ((incoming, decoder), Err (Fails (IpcIo e)))
      end
  end.
Definition Client_next : call Client (Stop IpcError) ServerMessage := fun c =>
  let '((incoming, decoder), r) := next_loop (incoming c) (decoder c) in
  (Build_Client incoming (room c) (sent c) decoder, r).

(** Octets still to come, which bound the messages still to come. *)
Definition octets_left (c : Client) : nat :=
  length (decoder c) + sum_list (map (fun i => match i with Got chunk => length chunk | _ => 0%nat end) (incoming c)).

(** [loop { match self.next()? .. }]: [step] returns, or goes on. *)
Fixpoint message_loop {A} (fuel : nat) (step : ServerMessage -> command (option A)) : command A :=
  match fuel with
  | O => throw Waits
  | S fuel =>
      message ← on_client Client_next;
      r ← step message;
      match r with Some a => mret a | None => message_loop fuel step end
  end.
Definition loop_messages {A} (step : ServerMessage -> command (option A)) : command A :=
  w ← self; message_loop (S (octets_left (link w))) step.

(** [fn report] of wireless.rs *)
Definition report (event : Event) : command unit :=
  match progress event with Some line => eprintln line | None => mret tt end.

(** [Client::request], with [report] *)
Definition request_step (message : ServerMessage) : command (option Response) :=
  match message with
  | MEvent event => _ ← report event; mret None
  | MResponse (RError message) => fail (EIpc (Daemon message))
  | MResponse response => mret (Some response)
  end.
Definition Client_request (request : Ipc.Request) : command Response :=
  _ ← on_client (Client_send request); loop_messages request_step.

(** ** wireless.rs *)

Definition unexpected {A} : command A := fail (EIpc Unexpected).

Definition scan (port : option bytes) : command unit :=
  _ ← Client_connect;
  response ← Client_request (Ipc.Scan port);
  match response with
  | RNetworks [] => eprintln (ascii_of "no networks in range")
  | RNetworks networks => print (scan_table networks)
  | _ => unexpected
  end.

(** [fn ask] *)
Definition echo_for (kind : SecretKind) : Echo := match kind with Username => Shown | Passphrase | Password => Hidden end.
Definition ask_secret (text : bytes) (kind : SecretKind) : command bytes :=
  on_terminal (ask (text ++ ascii_of ": ") (echo_for kind)).

Definition connect_step (ssid : bytes) (message : ServerMessage) : command (option unit) :=
  match message with
  | MEvent (NeedSecret token prompt kind) =>
      value ← ask_secret prompt kind;
      _ ← on_client (Client_send (Ipc.Secret token value));
      mret None
  | MEvent Connected => _ ← eprintln (ascii_of "connected to " ++ ssid); mret None
  | MEvent (Failed reason) => fail (EText (ascii_of "could not connect to " ++ ssid ++ ascii_of ": " ++ reason))
  | MEvent event => _ ← report event; mret None
  | MResponse (RError message) => fail (EIpc (Daemon message))
  | MResponse ROk => mret (Some tt)
  | MResponse _ => unexpected
  end.
Definition connect (ssid : bytes) (port : option bytes) : command unit :=
  _ ← Client_connect;
  _ ← on_client (Client_send (Ipc.Connect ssid port));
  loop_messages (connect_step ssid).

Definition disconnect (ssid : bytes) : command unit :=
  _ ← Client_connect;
  response ← Client_request (Ipc.Disconnect ssid);
  match response with ROk => eprintln (ascii_of "disconnected from " ++ ssid) | _ => unexpected end.

Definition forget (ssid : bytes) : command unit :=
  _ ← Client_connect;
  response ← Client_request (Ipc.Forget ssid);
  match response with ROk => eprintln (ascii_of "forgot " ++ ssid) | _ => unexpected end.

Definition status : command unit :=
  _ ← Client_connect;
  response ← Client_request Ipc.Status;
  match response with RStatus s => print (status_block s) | _ => unexpected end.

Definition shutdown : command unit :=
  _ ← Client_connect;
  (fun w =>
    match Client_request Ipc.Shutdown w with
    | (w, Ok ROk) | (w, Err (Fails (EIpc Closed))) => eprintln (ascii_of "cawd stopped") w
    | (w, Ok _) => unexpected w
    | (w, Err e) => (w, Err e)
    | (w, Panic) => (w, Panic)
    end) : command unit.

Definition set_dhcp (name : bytes) : command unit :=
  fail (EText (ascii_of "cannot configure dhcp on " ++ name ++ ascii_of " yet: the cawd protocol has no request for it")).
End client.

(** ** port.rs *)

Definition Kind_as_str (k : Rtnl.Kind) : string :=
  match k with Rtnl.Loopback => "loopback" | Rtnl.Ethernet => "ethernet" | Rtnl.Wireless => "wireless" end.
Definition OperState_as_str (o : Rtnl.OperState) : string :=
  match o with
  | Rtnl.Unknown => "unknown"
  | Rtnl.NotPresent => "not-present"
  | Rtnl.Down => "down"
  | Rtnl.LowerLayerDown => "no-carrier"
  | Rtnl.Testing => "testing"
  | Rtnl.Dormant => "dormant"
  | Rtnl.Up => "up"
  end.

(** [Display] of [Ipv6Addr]: the longest run of two or more zero groups, the
    first of them when there are several, is written as two colons; an IPv4
    address inside is written as one. *)
Definition hex_group (n : Z) : bytes :=
  (if n <? 4096 then [] else [hex_digit (n / 4096)])
    ++ (if n <? 256 then [] else [hex_digit (n / 256 mod 16)])
    ++ (if n <? 16 then [] else [hex_digit (n / 16 mod 16)]) ++ [hex_digit (n mod 16)].
Fixpoint groups (octets : bytes) : list Z :=
  match octets with a :: b :: octets => a * 256 + b :: groups octets | _ => [] end.
(** The best run so far and the current one, each as where it starts and how
    long it is. *)
Fixpoint zero_run (i : nat) (best current : nat * nat) (l : list Z) : nat * nat :=
  match l with
  | [] => best
  | g :: l =>
      if g =? 0 then
        let current := (if bool_decide (current.2 = 0%nat) then i else current.1, S current.2) in
        zero_run (S i) (if bool_decide (best.2 < current.2)%nat then current else best) current l
      else zero_run (S i) best (0%nat, 0%nat) l
  end.
Definition groups_text (l : list Z) : bytes := join [58] (map hex_group l).
Definition ipv6_text (octets : bytes) : bytes :=
  if bool_decide (take 12 octets = [0; 0; 0; 0; 0; 0; 0; 0; 0; 0; 255; 255])
  then ascii_of "::ffff:" ++ ipv4_text (drop 12 octets)
  else
    let gs := groups octets in
    let '(start, n) := zero_run 0 (0%nat, 0%nat) (0%nat, 0%nat) gs in
    if bool_decide (1 < n)%nat
    then groups_text (take start gs) ++ [58; 58] ++ groups_text (drop (start + n) gs)
    else groups_text gs.
Definition ip_text (a : Rtnl.IpAddr) : bytes :=
  match a with Rtnl.V4 addr => ipv4_text (be_encode 4 addr) | Rtnl.V6 octets => ipv6_text octets end.

Definition addrs_for (addrs : list Rtnl.Address) (index : Z) : list bytes :=
  map (fun a => ip_text (Rtnl.a_addr a) ++ [47] ++ decimal (Rtnl.a_prefix_len a))
    (filter (fun a => Rtnl.a_index a = index) addrs).

Definition state_of (l : Rtnl.Link) : bytes :=
  if negb (Rtnl.is_up l) then ascii_of "down"
  else if Rtnl.has_carrier l then ascii_of "up"
  else ascii_of "no-carrier".

Definition dash : bytes := ascii_of "-".
Definition port_row (addrs : list Rtnl.Address) (l : Rtnl.Link) : list bytes :=
  let a := addrs_for addrs (Rtnl.index l) in
  [Rtnl.name l; ascii_of (Kind_as_str (Rtnl.kind l)); state_of l; default dash (Rtnl.format_mac <$> Rtnl.mac l);
   match a with [] => dash | _ => join (ascii_of ", ") a end].
Definition PORT_HEADERS : list bytes := map ascii_of ["NAME"; "TYPE"; "STATE"; "MAC"; "ADDRESSES"]%string.

Section ports.
Context {he : HostEndian} (sysfs : bytes -> bool).

(** [Rtnl::open], and one request on the handle. *)
Definition Rtnl_open : command Rtnl.Rtnl :=
  w ← self; match route_fault w with Some e => fail (ERtnl e) | None => mret 0 end.
Definition on_rtnl {A} (m : list Netlink.Datagram -> Rtnl.Rtnl * option (exec Netlink.Error A)) : command (Rtnl.Rtnl * A) :=
  w ← self;
  _ ← update (set_kernel (tail (kernel w)));
  let (r, res) := m (default [] (head (kernel w))) in
  match res with
  | None => throw Waits
  | Some res => a ← lift (map_err (fun e => Fails (ERtnl e)) res); mret (r, a)
  end.

Definition list_ports : command unit :=
  rtnl ← Rtnl_open;
  '(rtnl, links) ← on_rtnl (Rtnl.links sysfs rtnl);
  '(_, addrs) ← on_rtnl (Rtnl.addresses rtnl);
  print (render PORT_HEADERS (map (port_row addrs) links)).

Definition no_such_port (name : bytes) : CliError := EText (ascii_of "no such port: " ++ name).
Definition find_port (rtnl : Rtnl.Rtnl) (name : bytes) : command (Rtnl.Rtnl * Rtnl.Link) :=
  '(rtnl, found) ← on_rtnl (Rtnl.link_by_name sysfs rtnl name);
  link ← lift (ok_or (Fails (no_such_port name)) found);
  mret (rtnl, link).

Definition line (text : bytes) : bytes := text ++ [10].

(** What [info] prints of one family of addresses. *)
Definition info_family (show_all : bool) (addrs : list bytes) (label : string) (is_v6 : bool) : bytes :=
  match filter (fun a => bool_decide (58 ∈ a) = is_v6) addrs with
  | [] => if show_all then line (ascii_of "  " ++ ascii_of label ++ ascii_of "       -") else []
  | set => concat (map (fun a => line (if show_all then ascii_of "  " ++ ascii_of label ++ ascii_of "       " ++ a else a)) set)
  end.
Definition info_text (link : Rtnl.Link) (addrs : list bytes) (protocol mac : bool) : bytes :=
  let show_all := negb protocol && negb mac in
  (if show_all then
     line (Rtnl.name link)
       ++ line (ascii_of "  type       " ++ ascii_of (Kind_as_str (Rtnl.kind link)))
       ++ line (ascii_of "  state      " ++ state_of link)
       ++ line (ascii_of "  oper       " ++ ascii_of (OperState_as_str (Rtnl.oper_state link)))
       ++ line (ascii_of "  index      " ++ decimal (Rtnl.index link))
       ++ line (ascii_of "  mtu        " ++ decimal (Rtnl.mtu link))
   else [])
    ++ (if show_all || mac then
          match Rtnl.mac link with
          | Some m => line ((if show_all then ascii_of "  mac        " else []) ++ Rtnl.format_mac m)
          | None => if show_all then line (ascii_of "  mac        -") else []
          end
        else [])
    ++ (if show_all || protocol then info_family show_all addrs "ipv4" false ++ info_family show_all addrs "ipv6" true
        else []).

Definition info (name : bytes) (protocol mac : bool) : command unit :=
  rtnl ← Rtnl_open;
  '(rtnl, link) ← find_port rtnl name;
  '(_, addrs) ← on_rtnl (Rtnl.addresses rtnl);
  print (info_text link (addrs_for addrs (Rtnl.index link)) protocol mac).

Definition up_or_down (up : bool) : bytes := ascii_of (if up then "up" else "down").
Definition set_up (name : bytes) (up : bool) : command unit :=
  rtnl ← Rtnl_open;
  '(rtnl, link) ← find_port rtnl name;
  if Bool.eqb (Rtnl.is_up link) up then print (line (name ++ ascii_of " is already " ++ up_or_down up))
  else
    _ ← on_rtnl (Rtnl.set_up rtnl (Rtnl.index link) up);
    _ ← print (line (name ++ ascii_of " is now " ++ up_or_down up));
    if up && match Rtnl.kind link with Rtnl.Wireless => true | _ => false end
    then print (line (ascii_of "note: wireless ports also need `caw connect <ssid>` to carry traffic"))
    else mret tt.
End ports.

(** ** What an error says

    The text of an errno and of a JSON error are the libraries'. *)
Section errors.
Context (errno_text : Z -> bytes) (json_text : bytes).

Definition FrameError_fmt (e : FrameError) : bytes :=
  match e with
  | FrameJson => ascii_of "malformed message: " ++ json_text
  | FrameTooLong => ascii_of "message longer than " ++ decimal Ipc.MAX_LINE ++ ascii_of " bytes"
  end.
Definition IpcError_fmt (e : IpcError) : bytes :=
  match e with
  | NotRunning =>
      line (ascii_of "the " ++ SERVICE ++ ascii_of " service is not running, and wireless commands go through it.")
        ++ line (ascii_of "  start it now:      sudo systemctl start " ++ SERVICE)
        ++ ascii_of "  start it at boot:  sudo systemctl enable --now " ++ SERVICE
  | Forbidden =>
      line (ascii_of "not allowed to open " ++ SOCKET_PATH ++ ascii_of ".")
        ++ line (ascii_of "  changing the network needs root or membership of the `" ++ ascii_of Ipc.GROUP ++ ascii_of "` group:")
        ++ ascii_of "    sudo usermod -aG " ++ ascii_of Ipc.GROUP ++ [32; 34] ++ ascii_of "$USER" ++ [34]
  | Closed => ascii_of "the " ++ SERVICE ++ ascii_of " service closed the connection"
  | Daemon message => message
  | Unexpected => ascii_of "the " ++ SERVICE ++ ascii_of " service sent an unexpected reply"
  | Frame e => FrameError_fmt e
  | IpcIo e => ascii_of "talking to " ++ SERVICE ++ ascii_of ": " ++ errno_text e
  end.
Definition CliError_fmt (e : CliError) : bytes :=
  match e with
  | EIpc e => IpcError_fmt e
  | EPrompt e => Prompt.Error_fmt errno_text e
  | EText message => message
  | ERtnl e => Words.NetlinkError_fmt errno_text e
  end.

(** ** cli.rs and main.rs *)

Inductive AddressMode := Dhcp.
Inductive PortAction := Up (name : bytes) | Info (name : bytes) (protocol mac : bool) | SetMode (name : bytes) (mode : AddressMode).
Inductive Command :=
| Ports
| Port (action : PortAction)
| Scan (port : option bytes)
| Connect (ssid : bytes) (port : option bytes)
| Disconnect (ssid : bytes)
| Forget (ssid : bytes)
| Status
| Shutdown.

Context {he : HostEndian} (sysfs : bytes -> bool) `{Ipc.Wire Ipc.Request} `{Ipc.Wire ServerMessage}.

Definition run (c : Command) : command unit :=
  match c with
  | Ports => list_ports sysfs
  | Port (Up name) => set_up sysfs name true
  | Port (Info name protocol mac) => info sysfs name protocol mac
  | Port (SetMode name Dhcp) => set_dhcp name
  | Scan port => scan port
  | Connect ssid port => connect ssid port
  | Disconnect ssid => disconnect ssid
  | Forget ssid => forget ssid
  | Status => status
  | Shutdown => shutdown
  end.

(** [main], once the arguments are parsed: whether it exits with success, or
    nothing while it waits. *)
Definition main (c : Command) (w : World) : World * option bool :=
  match run c w with
  | (w, Ok _) => (w, Some true)
  | (w, Err (Fails e)) => (fst (eprintln (ascii_of "caw: " ++ CliError_fmt e) w), Some false)
  | (w, Err Waits) => (w, None)
  | (w, Panic) => (w, Some false)
  end.
End errors.
