(* ===== verification/CliProps.v ===== *)
(** * The command line's exchange with the daemon

    However the socket cuts the stream up, a command sees the daemon's messages
    one by one, and [caw connect] is the dialogue over them that [dialogue]
    spells out: a question is asked at the terminal, and its answer is sent
    with the question's token. *)
From S2P Require Import Prelude Text Calls Render Prompt Cli.
From S2P Require Ipc.

(** ** What the socket delivers *)

(** The chunks read before the stream ends, and how it ends. *)
Fixpoint chunks_of (incoming : list Incoming) : list bytes * Stop IpcError :=
  match incoming with
  | [] => ([], Waits)
  | Got [] :: _ => ([], Fails Closed)
  | Got chunk :: incoming => let (l, e) := chunks_of incoming in (chunk :: l, e)
  | ReadSignal :: incoming => chunks_of incoming
  | ReadFailed e :: _ => ([], Fails (IpcIo e))
  end.

(** A socket that takes something whenever it is written to. *)
Definition roomy (room : list Room) : Prop :=
  Forall (fun r => match r with Took n => n <> 0%nat | WriteSignal => True | WriteFailed _ => False end) room.

Section exchange.
Context `{Ipc.WireOk Ipc.Request} `{Ipc.WireOk ServerMessage}.

Abbreviation said := (Ipc.said (T := ServerMessage) Ipc.from_slice).
Abbreviation lines := Ipc.lines.

(** What is still to be read from a client: the messages, and then the end. *)
Definition inbox (incoming : list Incoming) (decoder : bytes) (ds : list Ipc.Decoded) (e : Stop IpcError) : Prop :=
  Ipc.fits Ipc.MAX_LINE (snd (lines [] decoder))
  /\ Ipc.paused_fits Ipc.MAX_LINE (snd (lines [] decoder)) (fst (chunks_of incoming))
  /\ omap said (fst (lines [] (decoder ++ concat (fst (chunks_of incoming))))) = ds
  /\ snd (chunks_of incoming) = e.

Lemma omap_lines_app s t :
  omap said (fst (lines [] (s ++ t)))
  = omap said (fst (lines [] s)) ++ omap said (fst (lines (snd (lines [] s)) t)).
Proof using Type.
  rewrite Ipc.lines_app. destruct (lines [] s) as [ls rest], (lines rest t) as [ls' rest'] eqn:He.
  cbn [fst snd]. rewrite He. apply omap_app.
Qed.

(** What is held back after the lines are taken out has no line in it. *)
Lemma lines_held s : lines [] (snd (lines [] s)) = ([], snd (lines [] s)).
Proof using Type.
  pose proof (Ipc.lines_rest [] s eq_refl) as Hn. pose proof (Ipc.split_line_lines [] (snd (lines [] s))) as Hs.
  by rewrite Hn in Hs.
Qed.

Lemma lines_after s t : lines [] (snd (lines [] s) ++ t) = lines (snd (lines [] s)) t.
Proof using Type. rewrite Ipc.lines_app, lines_held. by destruct (lines (snd (lines [] s)) t). Qed.

(** The messages of what is held back and of a chunk after it. *)
Lemma inbox_chunk incoming decoder chunk ds e :
  omap said (fst (lines [] decoder)) = [] -> inbox (Got chunk :: incoming) decoder ds e -> chunk <> [] ->
  inbox incoming (snd (lines [] decoder) ++ chunk) ds e.
Proof using Type.
  unfold inbox. intros Hnone (Hf & Hp & Hm & He) Hne. destruct chunk as [|b chunk]; [done|]. cbn [chunks_of] in *.
  destruct (chunks_of incoming) as [l e']. cbn [fst snd Ipc.paused_fits concat] in *.
  set (held := snd (lines [] decoder)) in *.
  assert (Hl : lines [] (held ++ b :: chunk) = lines held (b :: chunk)) by apply lines_after.
  rewrite Hl. destruct Hp as [Hp1 Hp2]. split; [exact Hp1|split; [exact Hp2|split; [|exact He]]].
  rewrite omap_lines_app, Hnone in Hm. cbn [app] in Hm. fold held in Hm. rewrite <- Hm, <- app_assoc.
  unfold held at 1. by rewrite lines_after.
Qed.

Lemma next_cases incoming decoder ds e :
  inbox incoming decoder ds e ->
  (exists m ds' decoder', ds = m :: ds'
     /\ Ipc.next Ipc.from_slice Ipc.MAX_LINE decoder = (Some m, decoder') /\ inbox incoming decoder' ds' e)
  \/ omap said (fst (lines [] decoder)) = []
     /\ Ipc.next Ipc.from_slice Ipc.MAX_LINE decoder = (None, snd (lines [] decoder)).
Proof using Type.
  intros (Hf & Hp & Hm & He).
  pose proof (Ipc.next_message Ipc.from_slice (S (length decoder)) Ipc.MAX_LINE decoder ltac:(lia)) as Hn.
  unfold Ipc.next. rewrite omap_lines_app in Hm. destruct (lines [] decoder) as [ls rest] eqn:Hls. cbn [fst snd] in *.
  assert (Hgo : forall m held, (exists ls', lines [] held = (ls', rest) /\ omap said ls = m :: omap said ls') ->
    exists ds', ds = m :: ds' /\ inbox incoming held ds' e).
  { intros m held (ls' & Hl' & Hs). rewrite Hs in Hm. eexists. split; [by rewrite <- Hm|].
    unfold inbox. rewrite omap_lines_app, Hl'. done. }
  destruct (Ipc.next_loop _ _ _ _) as [[[m|line|]|] held].
  1-2: destruct Hn as [_ Hn]; destruct (Hgo _ _ Hn) as (ds' & -> & Hi); left; by eexists _, ds', held.
  - destruct Hn as (_ & _ & Ho). unfold Ipc.fits in Hf. apply Z.ltb_lt in Ho. lia.
  - destruct Hn as (-> & -> & _). by right.
Qed.

Lemma next_loop_inbox incoming decoder ds e :
  inbox incoming decoder ds e ->
  match ds with
  | [] => exists i d, next_loop incoming decoder = ((i, d), Err e)
  | m :: ds => exists i d, next_loop incoming decoder = ((i, d), of_decoded m) /\ inbox i d ds e
  end.
Proof using Type.
  revert decoder. induction incoming as [|i incoming IH]; intros decoder Hin; cbn [next_loop];
    (destruct (next_cases _ _ _ _ Hin) as [(m & ds' & d' & -> & -> & Hin')|[Hnone ->]]; [by eauto|]).
  - destruct Hin as (_ & _ & Hm & He). cbn in Hm, He. rewrite app_nil_r, Hnone in Hm. subst ds e. eauto.
  - assert (Hdone : fst (chunks_of (i :: incoming)) = [] -> ds = [] /\ snd (chunks_of (i :: incoming)) = e).
    { intros Hc. destruct Hin as (_ & _ & Hm & He). rewrite Hc in Hm. cbn [concat] in Hm.
      rewrite app_nil_r, Hnone in Hm. done. }
    destruct i as [[|b chunk]| |errno].
    + destruct Hdone as [-> <-]; [done|]. eauto.
    + apply IH. by apply inbox_chunk.
    + apply IH. destruct Hin as (Hf & Hp & Hm & He). cbn [chunks_of] in *. unfold inbox. rewrite lines_held. cbn [snd].
      split_and!; try done. rewrite lines_after. by rewrite omap_lines_app, Hnone in Hm.
    + destruct Hdone as [-> <-]; [done|]. eauto.
Qed.

(** The same of a client; what it has sent is not touched. *)
Definition client_inbox (c : Client) := inbox (incoming c) (decoder c).

Lemma Client_next_inbox c ds e :
  client_inbox c ds e ->
  exists c', sent c' = sent c /\ room c' = room c
    /\ match ds with
       | [] => Client_next c = (c', Err e)
       | m :: ds => Client_next c = (c', of_decoded m) /\ client_inbox c' ds e
       end.
Proof using Type.
  intros Hin. apply next_loop_inbox in Hin. unfold Client_next. destruct ds as [|m ds].
  - destruct Hin as (i & d & ->). by exists (Build_Client i (room c) (sent c) d).
  - destruct Hin as (i & d & -> & Hin). by exists (Build_Client i (room c) (sent c) d).
Qed.

Lemma write_loop_roomy room sent bytes :
  roomy room -> exists room', write_loop room sent bytes = ((room', sent ++ bytes), Ok tt) /\ roomy room'.
Proof using Type.
  intros Hr. revert sent bytes. induction Hr as [|r room Hr1 Hr IH]; intros sent [|b bytes]; cbn [write_loop].
  - exists []. rewrite app_nil_r. by split; [|constructor].
  - exists []. by split; [|constructor].
  - exists (r :: room). rewrite app_nil_r. by split; [|constructor].
  - destruct r as [[|n]| |e]; [done|..|done]; [|apply IH].
    destruct (IH (sent ++ take (S n) (b :: bytes)) (drop (S n) (b :: bytes))) as (room' & -> & Hr').
    exists room'. by rewrite <- app_assoc, take_drop.
Qed.

Lemma Client_send_roomy c request :
  roomy (room c) ->
  exists c', Client_send request c = (c', Ok tt) /\ sent c' = sent c ++ Ipc.encode request
    /\ roomy (room c') /\ forall ds e, client_inbox c ds e -> client_inbox c' ds e.
Proof using Type.
  intros Hr. unfold Client_send. destruct (write_loop_roomy (room c) (sent c) (Ipc.encode request) Hr) as (room' & -> & Hr').
  by exists (Build_Client (incoming c) room' (sent c ++ Ipc.encode request) (decoder c)).
Qed.

(** ** The dialogue of [caw connect] *)

Definition shows (text : bytes) (t : Terminal) : Terminal := set_log (log t ++ [ToStderr (text ++ [10])]) t.
Definition ends (e : Stop IpcError) : Stop CliError := match e with Fails e => Fails (EIpc e) | Waits => Waits end.

(** What a list of messages makes of the terminal, what is sent in answer, and
    how the command ends; [e] is how the stream ends after them. *)
Fixpoint dialogue (ssid : bytes) (ms : list ServerMessage) (e : Stop IpcError) (t : Terminal)
  : Terminal * list Ipc.Request * exec (Stop CliError) unit :=
  match ms with
  | [] => (t, [], Err (ends e))
  | MEvent (NeedSecret token prompt kind) :: ms =>
      let (t, r) := ask (prompt ++ ascii_of ": ") (echo_for kind) t in
      match r with
      | Ok value =>
          let '(t, answers, r) := dialogue ssid ms e t in (t, Ipc.Secret token value :: answers, r)
      | Err (Fails e) => (t, [], Err (Fails (EPrompt e)))
      | Err Waits => (t, [], Err Waits)
      | Panic => (t, [], Panic)
      end
  | MEvent Connected :: ms => dialogue ssid ms e (shows (ascii_of "connected to " ++ ssid) t)
  | MEvent (Failed reason) :: _ =>
      (t, [], Err (Fails (EText (ascii_of "could not connect to " ++ ssid ++ ascii_of ": " ++ reason))))
  | MEvent event :: ms =>
      dialogue ssid ms e (match progress event with Some text => shows text t | None => t end)
  | MResponse ROk :: _ => (t, [], Ok tt)
  | MResponse (RError message) :: _ => (t, [], Err (Fails (EIpc (Daemon message))))
  | MResponse _ :: _ => (t, [], Err (Fails (EIpc Unexpected)))
  end.

(** A command's run ends in a given state of the terminal, having sent the
    given requests more. *)
Definition ends_as {A} (w : World) (out : World * exec (Stop CliError) A) (t : Terminal) (answers : list Ipc.Request)
    (r : exec (Stop CliError) A) : Prop :=
  term (fst out) = t /\ sent (link (fst out)) = sent (link w) ++ concat (map Ipc.encode answers) /\ snd out = r.

Lemma loop_next {A} fuel (step : ServerMessage -> command (option A)) w m ds e :
  client_inbox (link w) (Ipc.Message m :: ds) e ->
  exists c, client_inbox c ds e /\ sent c = sent (link w) /\ room c = room (link w)
    /\ message_loop (S fuel) step w
       = match step m (set_link c w) with
         | (w, Ok None) => message_loop fuel step w
         | (w, Ok (Some a)) => (w, Ok a)
         | (w, Err s) => (w, Err s)
         | (w, Panic) => (w, Panic)
         end.
Proof using Type.
  intros Hin. destruct (Client_next_inbox _ _ _ Hin) as (c & Hs & Hr & Hn & Hin'). exists c. split_and!; [done..|].
  cbn [message_loop]. unfold on_client at 1, mbind, call_bind. rewrite Hn. cbn [of_decoded lift_stop map_err].
  by destruct (step m (set_link c w)) as [w' [[a|]| |]].
Qed.

Lemma loop_end {A} fuel (step : ServerMessage -> command (option A)) w e :
  client_inbox (link w) [] e ->
  exists c, sent c = sent (link w) /\ message_loop (S fuel) step w = (set_link c w, Err (ends e)).
Proof using Type.
  intros Hin. destruct (Client_next_inbox _ _ _ Hin) as (c & Hs & Hr & Hn). exists c. split; [done|].
  cbn [message_loop]. unfold on_client at 1, mbind, call_bind. rewrite Hn. cbn [lift_stop map_err]. by destruct e.
Qed.

Lemma ends_as_after {A} w w' (out : World * exec (Stop CliError) A) t requests answers r :
  sent (link w') = sent (link w) ++ concat (map Ipc.encode requests) ->
  ends_as w' out t answers r -> ends_as w out t (requests ++ answers) r.
Proof using Type.
  intros Hs (Ht & Ha & Hr). split_and!; [done| |done]. by rewrite Ha, Hs, map_app, concat_app, app_assoc.
Qed.

Lemma ends_as_now {A} w w' (r : exec (Stop CliError) A) t :
  term w' = t -> sent (link w') = sent (link w) -> ends_as w (w', r) t [] r.
Proof using Type. intros <- Hs. split_and!; [done| |done]. cbn. by rewrite app_nil_r. Qed.

Lemma connect_loop ssid ms e fuel w :
  client_inbox (link w) (map Ipc.Message ms) e -> roomy (room (link w)) -> (length ms < fuel)%nat ->
  let '(t, answers, r) := dialogue ssid ms e (term w) in
  ends_as w (message_loop fuel (connect_step ssid) w) t answers r.
Proof using Type.
  revert fuel w. induction ms as [|m ms IH]; intros fuel w Hin Hroom Hf; (destruct fuel as [|fuel]; [cbn in Hf; lia|]).
  { destruct (loop_end fuel (connect_step ssid) w e Hin) as (c & Hs & ->). by apply ends_as_now. }
  destruct (loop_next fuel (connect_step ssid) w m _ e Hin) as (c & Hin' & Hs & Hr & ->).
  assert (Hgo : forall text,
    let '(t, answers, r) := dialogue ssid ms e (shows text (term w)) in
    ends_as w (message_loop fuel (connect_step ssid) (set_term (shows text (term w)) (set_link c w))) t answers r).
  { intros text. specialize (IH fuel (set_term (shows text (term w)) (set_link c w)) Hin').
    cbn [term set_term] in IH. destruct (dialogue ssid ms e (shows text (term w))) as [[t answers] r].
    apply (ends_as_after _ (set_link c w) _ _ []); [cbn; by rewrite app_nil_r|].
    apply IH; [cbn; by rewrite Hr|cbn in Hf; lia]. }
  destruct m as [event|response].
  - destruct event; try (cbn [dialogue progress]; apply Hgo); cbn [dialogue].
    + by apply ends_as_now.
    + cbn [connect_step]. unfold ask_secret, on_terminal, mbind, call_bind. cbn [term set_link].
      destruct (ask (prompt ++ ascii_of ": ") (echo_for kind) (term w)) as [t r].
      destruct r as [value|[e'|]|]; cbn [lift_stop map_err]; try by apply ends_as_now.
      destruct (Client_send_roomy c (Ipc.Secret token value)) as (c' & Hsend & Hs' & Hr' & Hin''); [by rewrite Hr|].
      unfold on_client. cbn [link set_term set_link]. rewrite Hsend. cbn [lift_stop map_err mret call_ret].
      specialize (IH fuel (set_link c' (set_term t (set_link c w))) (Hin'' _ _ Hin') Hr').
      cbn [term set_link set_term] in IH. destruct (dialogue ssid ms e t) as [[t' answers] r'].
      apply (ends_as_after _ (set_link c' (set_term t (set_link c w))) _ _ [Ipc.Secret token value]).
      * cbn. by rewrite Hs', Hs, app_nil_r.
      * apply IH. cbn in Hf. lia.
  - destruct response; cbn [dialogue]; by apply ends_as_now.
Qed.

(** ** What the daemon wrote is what is read *)

Lemma lines_count held s : (length (fst (lines held s)) <= length s)%nat.
Proof using Type.
  revert held. induction s as [|b s IH]; intros held; cbn [Ipc.lines]; [done|]. destruct (b =? 10).
  - specialize (IH []). destruct (lines [] s). cbn in *. lia.
  - specialize (IH (held ++ [b])). cbn. lia.
Qed.

Lemma octets_arrive incoming : (length (concat (fst (chunks_of incoming))) <=
  sum_list (map (fun i => match i with Got chunk => length chunk | _ => 0%nat end) incoming))%nat.
Proof using Type.
  induction incoming as [|[[|b chunk]| |] incoming IH]; cbn; try lia. destruct (chunks_of incoming). cbn in *.
  rewrite length_app. lia.
Qed.

(** A client whose incoming octets are messages, however they are cut up. *)
Definition receives (c : Client) (ms : list ServerMessage) (e : Stop IpcError) : Prop :=
  decoder c = [] /\ concat (fst (chunks_of (incoming c))) = concat (map Ipc.encode ms)
  /\ Forall (fun m => len (Ipc.to_vec m) <= Ipc.MAX_LINE) ms /\ snd (chunks_of (incoming c)) = e.

Lemma receives_inbox c ms e :
  receives c ms e -> client_inbox c (map Ipc.Message ms) e /\ (length ms <= octets_left c)%nat.
Proof using Type*.
  intros (Hd & Hc & Hl & He). split.
  - unfold client_inbox, inbox. rewrite Hd. cbn [Ipc.lines snd app]. split_and!; [| | |done].
    + unfold Ipc.fits. cbn. vm_compute. discriminate.
    + apply Ipc.paused_prefix; rewrite Hc, Ipc.lines_encode; cbn [fst snd]; [by apply Forall_map|].
      vm_compute. discriminate.
    + rewrite Hc, Ipc.lines_encode. apply Ipc.said_wire.
  - unfold octets_left. rewrite Hd. pose proof (octets_arrive (incoming c)) as Ho. rewrite Hc in Ho.
    pose proof (lines_count [] (concat (map Ipc.encode ms))) as Hn. rewrite Ipc.lines_encode in Hn. cbn in Hn.
    rewrite length_map in Hn. cbn. lia.
Qed.

Lemma on_client_send w request :
  roomy (room (link w)) ->
  exists c, on_client (Client_send request) w = (set_link c w, Ok tt)
    /\ sent c = sent (link w) ++ Ipc.encode request /\ roomy (room c)
    /\ incoming c = incoming (link w) /\ decoder c = decoder (link w).
Proof using Type.
  intros Hr. unfold on_client, Client_send.
  destruct (write_loop_roomy (room (link w)) (sent (link w)) (Ipc.encode request) Hr) as (room' & -> & Hr').
  by exists (Build_Client (incoming (link w)) room' (sent (link w) ++ Ipc.encode request) (decoder (link w))).
Qed.

Lemma Client_connect_up w : socket_fault w = None -> connect_fault w = None -> Client_connect w = (w, Ok tt).
Proof using Type. intros Hs Hc. unfold Client_connect, mbind, call_bind, self, mret, call_ret. by rewrite Hs, Hc. Qed.

(** C23. [caw connect] is a dialogue.  However the stream is cut into reads and
    the writes into what the socket takes, with signals in between, the command
    is what [dialogue] makes of the daemon's messages in order: the request
    goes out first, every question is asked at the terminal and its answer sent
    with that question's token, progress is shown, and the command ends with
    the daemon's reply, its failure, or the end of the stream -- and nothing
    else is ever sent.  The daemon's decoder reads from what was sent, however
    it arrives, exactly those requests. *)
Theorem connect_is_dialogue ssid port ms e w :
  socket_fault w = None -> connect_fault w = None -> roomy (room (link w)) -> sent (link w) = [] ->
  receives (link w) ms e ->
  let '(t, answers, r) := dialogue ssid ms e (term w) in
  exists w', connect ssid port w = (w', r) /\ term w' = t
    /\ sent (link w') = concat (map Ipc.encode (Ipc.Connect ssid port :: answers))
    /\ (Forall (fun q => len (Ipc.to_vec q) <= Ipc.MAX_LINE) (Ipc.Connect ssid port :: answers) ->
        forall arriving, concat arriving = sent (link w') ->
        Ipc.feed Ipc.from_slice Ipc.MAX_LINE [] arriving
        = (map Ipc.Message (Ipc.Connect ssid port :: answers), [])).
Proof using Type*.
  intros Hsock Hconn Hroom Hsent Hrec.
  destruct (on_client_send w (Ipc.Connect ssid port) Hroom) as (c & Hsend & Hs & Hr & Hi & Hd).
  assert (Hrec' : receives c ms e) by (unfold receives in *; by rewrite Hi, Hd).
  destruct (receives_inbox c ms e Hrec') as [Hin Hlen].
  pose proof (connect_loop ssid ms e (S (octets_left c)) (set_link c w) Hin Hr ltac:(lia)) as Hloop.
  cbn [term set_link link] in Hloop. unfold connect.
  rewrite (call_bind_ok _ _ _ _ _ (Client_connect_up w Hsock Hconn)), (call_bind_ok _ _ _ _ _ Hsend).
  change (loop_messages (connect_step ssid) (set_link c w))
    with (message_loop (S (octets_left c)) (connect_step ssid) (set_link c w)).
  destruct (dialogue ssid ms e (term w)) as [[t answers] r].
  destruct (message_loop _ _ _) as [w' r']. destruct Hloop as (<- & Ha & <-).
  assert (Hall : sent (link w') = concat (map Ipc.encode (Ipc.Connect ssid port :: answers)))
    by (cbn in Ha; by rewrite Ha, Hs, Hsent).
  exists w'. split_and!; [done|done|exact Hall|]. intros Hfit arriving Harr.
  apply Ipc.stream_roundtrip; [by rewrite Harr|exact Hfit|]. vm_compute. discriminate.
Qed.

(** *** The commands that only wait *)

(** Every event up to the daemon's reply is shown, and the reply is the result. *)
Fixpoint replies (ms : list ServerMessage) (e : Stop IpcError) (t : Terminal) : Terminal * exec (Stop CliError) Response :=
  match ms with
  | [] => (t, Err (ends e))
  | MEvent event :: ms => replies ms e (match progress event with Some text => shows text t | None => t end)
  | MResponse (RError message) :: _ => (t, Err (Fails (EIpc (Daemon message))))
  | MResponse response :: _ => (t, Ok response)
  end.

Lemma request_loop ms e fuel w :
  client_inbox (link w) (map Ipc.Message ms) e -> (length ms < fuel)%nat ->
  let '(t, r) := replies ms e (term w) in ends_as w (message_loop fuel request_step w) t [] r.
Proof using Type.
  revert fuel w. induction ms as [|m ms IH]; intros fuel w Hin Hf; (destruct fuel as [|fuel]; [cbn in Hf; lia|]).
  { destruct (loop_end fuel request_step w e Hin) as (c & Hs & ->). by apply ends_as_now. }
  destruct (loop_next fuel request_step w m _ e Hin) as (c & Hin' & Hs & Hr & ->).
  destruct m as [event|response]; [|destruct response; cbn [replies]; by apply ends_as_now]. cbn [replies].
  set (t := match progress event with Some text => shows text (term w) | None => term w end).
  assert (Hstep : request_step (MEvent event) (set_link c w) = (set_term t (set_link c w), Ok None)).
  { subst t. cbn [request_step]. unfold report. by destruct event. }
  rewrite Hstep. specialize (IH fuel (set_term t (set_link c w)) Hin').
  cbn [term set_term] in IH. destruct (replies ms e t) as [t' r].
  apply (ends_as_after _ (set_link c w) _ _ []); [cbn; by rewrite app_nil_r|]. apply IH. cbn in Hf. lia.
Qed.

Theorem request_replies request ms e w :
  roomy (room (link w)) -> receives (link w) ms e ->
  let '(t, r) := replies ms e (term w) in
  exists w', Client_request request w = (w', r) /\ term w' = t
    /\ sent (link w') = sent (link w) ++ Ipc.encode request.
Proof using Type*.
  intros Hroom Hrec. destruct (on_client_send w request Hroom) as (c & Hsend & Hs & Hr & Hi & Hd).
  assert (Hrec' : receives c ms e) by (unfold receives in *; by rewrite Hi, Hd).
  destruct (receives_inbox c ms e Hrec') as [Hin Hlen].
  pose proof (request_loop ms e (S (octets_left c)) (set_link c w) Hin ltac:(lia)) as Hloop.
  cbn [term set_link link] in Hloop. unfold Client_request. rewrite (call_bind_ok _ _ _ _ _ Hsend).
  change (loop_messages request_step (set_link c w)) with (message_loop (S (octets_left c)) request_step (set_link c w)).
  destruct (replies ms e (term w)) as [t r]. destruct (message_loop _ _ _) as [w' r']. destruct Hloop as (<- & Ha & <-).
  exists w'. split_and!; [done..|]. cbn in Ha. by rewrite Ha, Hs, app_nil_r.
Qed.

(** [caw shutdown] succeeds when the daemon says so, and when it is gone before
    it could. *)
Corollary shutdown_ends ms e w :
  socket_fault w = None -> connect_fault w = None -> roomy (room (link w)) -> receives (link w) ms e ->
  snd (shutdown w) =
  match snd (replies ms e (term w)) with
  | Ok ROk | Err (Fails (EIpc Closed)) => Ok tt
  | Ok _ => Err (Fails (EIpc Unexpected))
  | Err e => Err e
  | Panic => Panic
  end.
Proof using Type*.
  intros Hsock Hconn Hroom Hrec. unfold shutdown. rewrite (call_bind_ok _ _ _ _ _ (Client_connect_up w Hsock Hconn)).
  pose proof (request_replies Ipc.Shutdown ms e w Hroom Hrec) as Hrep.
  destruct (replies ms e (term w)) as [t r]. destruct Hrep as (w' & -> & _ & _). cbn [snd].
  destruct r as [response|[error|]|]; [by destruct response| |done|done].
  destruct error as [ipc| | |]; [by destruct ipc|done|done|done].
Qed.

(** *** Secrets *)

(** The questions among messages, by token, in the order asked. *)
Definition questions (ms : list ServerMessage) : list Z :=
  omap (fun m => match m with MEvent (NeedSecret token _ _) => Some token | _ => None end) ms.

(** Only secrets are sent, and they answer the questions in order, each once. *)
Lemma answers_in_order ssid ms e t :
  let '(_, answers, r) := dialogue ssid ms e t in
  Forall (fun a => match a with Ipc.Secret _ _ => True | _ => False end) answers
  /\ omap (fun a => match a with Ipc.Secret token _ => Some token | _ => None end) answers `prefix_of` questions ms.
Proof using Type.
  assert (Hnone : forall l : list Z, Forall (fun a => match a with Ipc.Secret _ _ => True | _ => False end) []
    /\ omap (fun a => match a with Ipc.Secret token _ => Some token | _ => None end) [] `prefix_of` l)
    by (intros l; split; [constructor|apply prefix_nil]).
  revert t. induction ms as [|m ms IH]; intros t; cbn [dialogue]; [apply Hnone|].
  destruct m as [event|response]; [|destruct response; apply Hnone].
  destruct event as [| | | | | |token prompt kind]; try apply IH; [apply Hnone|].
  destruct (ask (prompt ++ ascii_of ": ") (echo_for kind) t) as [t' [value|[]|]]; try apply Hnone.
  specialize (IH t'). destruct (dialogue ssid ms e t') as [[t2 answers] r]. destruct IH as [Hf Hp]. cbn. split.
  - by constructor.
  - by apply prefix_cons.
Qed.
End exchange.

(** ** A conversation

    Messages are written as the digits of a number; any injective coding
    without line endings would do. *)
Module CliDemo.
#[global] Instance kind_dec : EqDecision SecretKind.
Proof. solve_decision. Defined.
#[global] Instance network_dec : EqDecision NetworkSummary.
Proof. solve_decision. Defined.
#[global] Instance status_dec : EqDecision ConnectionStatus.
Proof. solve_decision. Defined.
#[global] Instance port_dec : EqDecision PortSummary.
Proof. solve_decision. Defined.
#[global] Instance event_dec : EqDecision Event.
Proof. solve_decision. Defined.
#[global] Instance response_dec : EqDecision Response.
Proof. solve_decision. Defined.
#[global] Instance message_dec : EqDecision ServerMessage.
Proof. solve_decision. Defined.
#[global] Instance request_dec : EqDecision Ipc.Request.
Proof. solve_decision. Defined.

#[global] Instance kind_countable : Countable SecretKind.
Proof.
  refine (inj_countable' (fun k => match k with Passphrase => 0%nat | Username => 1%nat | Password => 2%nat end)
    (fun n => match n with 0%nat => Passphrase | 1%nat => Username | _ => Password end) _).
  by intros [].
Defined.
#[global] Instance network_countable : Countable NetworkSummary.
Proof.
  refine (inj_countable' (fun n => (ssid n, bssid n, signal_dbm n, freq_mhz n, security n, known n))
    (fun '(a, b, c, d, e, f) => Build_NetworkSummary a b c d e f) _).
  by intros [].
Defined.
#[global] Instance status_countable : Countable ConnectionStatus.
Proof.
  refine (inj_countable' (fun s => (st_port s, st_ssid s, st_state s, st_addrs s))
    (fun '(a, b, c, d) => Build_ConnectionStatus a b c d) _).
  by intros [].
Defined.
#[global] Instance port_countable : Countable PortSummary.
Proof.
  refine (inj_countable' (fun p => (p_name p, p_mac p, p_up p, p_carrier p, p_wireless p, p_addrs p))
    (fun '(a, b, c, d, e, f) => Build_PortSummary a b c d e f) _).
  by intros [].
Defined.
#[global] Instance event_countable : Countable Event.
Proof.
  refine (inj_countable' (fun e => match e with
      | Scanning => inl 0%nat | Authenticating => inl 1%nat | Configuring => inl 2%nat | Connected => inl 3%nat
      | Associating b => inr (inl (true, b)) | Failed r => inr (inl (false, r))
      | NeedSecret t p k => inr (inr (t, p, k)) end)
    (fun s => match s with
      | inl 0%nat => Scanning | inl 1%nat => Authenticating | inl 2%nat => Configuring | inl _ => Connected
      | inr (inl (true, b)) => Associating b | inr (inl (false, r)) => Failed r
      | inr (inr (t, p, k)) => NeedSecret t p k end) _).
  by intros [].
Defined.
#[global] Instance response_countable : Countable Response.
Proof.
  refine (inj_countable' (fun r => match r with
      | ROk => inl None | RError m => inl (Some m) | RPorts l => inr (inl l) | RNetworks l => inr (inr (inl l))
      | RStatus s => inr (inr (inr s)) end)
    (fun s => match s with
      | inl None => ROk | inl (Some m) => RError m | inr (inl l) => RPorts l | inr (inr (inl l)) => RNetworks l
      | inr (inr (inr s)) => RStatus s end) _).
  by intros [].
Defined.
#[global] Instance message_countable : Countable ServerMessage.
Proof.
  refine (inj_countable' (fun m => match m with MEvent e => inl e | MResponse r => inr r end)
    (fun s => match s with inl e => MEvent e | inr r => MResponse r end) _).
  by intros [].
Defined.
#[global] Instance request_countable : Countable Ipc.Request.
Proof.
  refine (inj_countable' (fun r => match r with
      | Ipc.ListPorts => inl 0%nat | Ipc.Status => inl 1%nat | Ipc.Shutdown => inl 2%nat
      | Ipc.PortInfo n => inr (inl (0%nat, n, true)) | Ipc.PortUp n u => inr (inl (1%nat, n, u))
      | Ipc.Disconnect n => inr (inl (2%nat, n, true)) | Ipc.Forget n => inr (inl (3%nat, n, true))
      | Ipc.Scan p => inr (inr (inl ([], p, true))) | Ipc.Connect n p => inr (inr (inl (n, p, false)))
      | Ipc.Secret t v => inr (inr (inr (t, v))) end)
    (fun s => match s with
      | inl 0%nat => Ipc.ListPorts | inl 1%nat => Ipc.Status | inl _ => Ipc.Shutdown
      | inr (inl (0%nat, n, _)) => Ipc.PortInfo n | inr (inl (1%nat, n, u)) => Ipc.PortUp n u
      | inr (inl (2%nat, n, _)) => Ipc.Disconnect n | inr (inl (_, n, _)) => Ipc.Forget n
      | inr (inr (inl (n, p, scan))) => if scan : bool then Ipc.Scan p else Ipc.Connect n p
      | inr (inr (inr (t, v))) => Ipc.Secret t v end) _).
  by intros [].
Defined.

Fixpoint digits (p : positive) : bytes :=
  match p with xH => [49] | xO p => 48 :: digits p | xI p => 49 :: digits p end.
Fixpoint undigits (l : bytes) : positive :=
  match l with [] | [_] => xH | b :: l => if b =? 48 then xO (undigits l) else xI (undigits l) end.

Lemma digits_spec p : undigits (digits p) = p /\ Forall (fun b => b = 48 \/ b = 49) (digits p) /\ digits p <> [].
Proof.
  induction p as [p (IH & Hd & Hne)|p (IH & Hd & Hne)|]; cbn [digits]; split_and!; try done; try (constructor; auto).
  - cbn [undigits]. destruct (digits p) as [|b l] eqn:Hp; [done|]. by rewrite IH.
  - cbn [undigits]. destruct (digits p) as [|b l] eqn:Hp; [done|]. by rewrite IH.
Qed.

#[global] Instance wire {T} `{Countable T} : Ipc.Wire T :=
  {| Ipc.to_vec m := digits (countable.encode m); Ipc.from_slice l := countable.decode (undigits l) |}.
#[global] Instance wire_ok {T} `{Countable T} : Ipc.WireOk T.
Proof.
  split; intros m; destruct (digits_spec (countable.encode m)) as (Hu & Hd & Hne); cbn [Ipc.to_vec Ipc.from_slice wire].
  - rewrite Forall_forall in Hd. split; intros Hin; destruct (Hd _ Hin); lia.
  - destruct (digits (countable.encode m)) as [|b l]; [done|]. apply Forall_cons in Hd as [[->| ->] _]; done.
  - rewrite Hu. apply decode_encode.
Qed.

(** The daemon asks for a passphrase and connects; its messages come in three
    pieces with a signal between them, and the socket takes the request in two. *)
Definition messages : list ServerMessage :=
  [MEvent Scanning; MEvent (NeedSecret 7 [80] Passphrase); MEvent Connected; MResponse ROk].
Definition stream : bytes := concat (map Ipc.encode messages).
Definition typed_at : Terminal := set_keys [] (map Typed [104; 105; 13]) PromptDemo.at_keyboard.
Definition world : World :=
  Build_World typed_at None None
    (Build_Client [Got (take 5 stream); ReadSignal; Got (take 30 (drop 5 stream)); Got (drop 35 stream)]
       [Took 3; WriteSignal] [] []) None [].
End CliDemo.

Lemma connect_is_dialogue_witness :
  exists w, connect [110] None CliDemo.world = (w, Ok tt)
    /\ sent (link w) = concat (map Ipc.encode [Ipc.Connect [110] None; Ipc.Secret 7 [104; 105]])
    /\ log (term w) = [ToStderr (ascii_of "scanning" ++ [10]); ToStderr [80; 58; 32]; KeyRead 104 false;
                       KeyRead 105 false; KeyRead 13 false; ToStderr [10]; ToStderr (ascii_of "connected to n" ++ [10])].
Proof.
  pose proof (connect_is_dialogue [110] None CliDemo.messages Waits CliDemo.world) as H.
  assert (Hd : exists t, dialogue [110] CliDemo.messages Waits (term CliDemo.world) = (t, [Ipc.Secret 7 [104; 105]], Ok tt)
    /\ log t = [ToStderr (ascii_of "scanning" ++ [10]); ToStderr [80; 58; 32]; KeyRead 104 false;
               KeyRead 105 false; KeyRead 13 false; ToStderr [10]; ToStderr (ascii_of "connected to n" ++ [10])])
    by (vm_compute; eexists; split; reflexivity).
  destruct Hd as (t & Hd & Ht). rewrite Hd in H. destruct H as (w & Hc & <- & Hs & _).
  - reflexivity.
  - reflexivity.
  - by repeat constructor.
  - reflexivity.
  - split; [reflexivity|]. split; [vm_compute; reflexivity|]. split; [|reflexivity].
    repeat constructor; vm_compute; discriminate.
  - by exists w.
Defined.
