(* ===== verification/TestsDot11.v ===== *)
(** * The tests of [caw-80211], on the model

    The tests the crate carries in its lib.rs, translated as they stand and
    evaluated.  They say nothing the theorems of [Dot11] do not; they say that the
    definitions those theorems are about give the values the authors of the
    program wrote down. *)
From S2P Require Import Prelude Text Dot11.
From S2P Require Words.

(** WPA2-PSK: CCMP group and pairwise, one PSK AKM, no MFP. *)
Definition WPA2_PSK : bytes :=
  [0x30; 0x14; 0x01; 0x00; 0x00; 0x0f; 0xac; 0x04; 0x01; 0x00; 0x00; 0x0f; 0xac; 0x04; 0x01; 0x00; 0x00; 0x0f; 0xac; 0x02; 0x00; 0x00].
Definition WPA3_SAE : bytes :=
  [0x30; 0x14; 0x01; 0x00; 0x00; 0x0f; 0xac; 0x04; 0x01; 0x00; 0x00; 0x0f; 0xac; 0x04; 0x01; 0x00; 0x00; 0x0f; 0xac; 0x08; 0xc0; 0x00].
Definition WPA2_WPA3 : bytes :=
  [0x30; 0x18; 0x01; 0x00; 0x00; 0x0f; 0xac; 0x04; 0x01; 0x00; 0x00; 0x0f; 0xac; 0x04; 0x02; 0x00; 0x00; 0x0f; 0xac; 0x02;
   0x00; 0x0f; 0xac; 0x08; 0x40; 0x00].
Definition WPA2_ENTERPRISE : bytes :=
  [0x30; 0x14; 0x01; 0x00; 0x00; 0x0f; 0xac; 0x04; 0x01; 0x00; 0x00; 0x0f; 0xac; 0x04; 0x01; 0x00; 0x00; 0x0f; 0xac; 0x01; 0x00; 0x00].
Definition WPA1_PSK : bytes :=
  [0xdd; 0x16; 0x00; 0x50; 0xf2; 0x01; 0x01; 0x00; 0x00; 0x50; 0xf2; 0x02; 0x01; 0x00; 0x00; 0x50; 0xf2; 0x02;
   0x01; 0x00; 0x00; 0x50; 0xf2; 0x02].

(** What the test asks of the element, if it parses. *)
Definition rsn_of (element : bytes) (P : RsnIe -> Prop) : Prop :=
  match RsnIe_parse element with Ok rsn => P rsn | _ => False end.
Definition security_of (body : bytes) : Security := BeaconIes_security (BeaconIes_parse body) true.

Definition walks_elements : Prop :=
  map (fun e => (el_id e, el_payload e)) (Ies ([0x00; 0x03] ++ ascii_of "caw" ++ [0x03; 0x01; 0x06]))
  = [(0, ascii_of "caw"); (3, [6])].
Definition truncated_element_stops_iteration : Prop :=
  Ies [0x30; 0x14; 0x01; 0x00] = []
  /\ map el_id (Ies ([0x00; 0x03] ++ ascii_of "caw" ++ [0x30; 0x14; 0x01; 0x00])) = [EID_SSID]
  /\ Ies [0x30] = [].
Definition truncated_rsn_classifies_without_panicking : Prop :=
  let info := BeaconIes_parse [0x30; 0x14; 0x01; 0x00] in
  b_rsn info = None /\ BeaconIes_security info true = Wep /\ BeaconIes_security info false = Open.
Definition hidden_ssid : Prop :=
  ssid_is_hidden <$> b_ssid (BeaconIes_parse [0x00; 0x00]) = Some true
  /\ ssid_display <$> b_ssid (BeaconIes_parse [0x00; 0x00]) = Some (ascii_of "<hidden>")
  /\ ssid_is_hidden <$> b_ssid (BeaconIes_parse [0x00; 0x04; 0x00; 0x00; 0x00; 0x00]) = Some true.
Definition ssid_is_bytes_not_a_string : Prop :=
  b_ssid (BeaconIes_parse [0x00; 0x03; 0xff; 0xfe; 0x41]) = Some [0xff; 0xfe; 0x41]
  /\ ssid_is_hidden [0xff; 0xfe; 0x41] = false
  /\ existsb (Z.eqb 0x07) (ssid_display [0x61; 0x07]) = false.
Definition ds_param_gives_channel : Prop :=
  b_channel (BeaconIes_parse [0x03; 0x01; 0x0b]) = Some 11 /\ b_channel (BeaconIes_parse [0x00; 0x00]) = None.
Definition wpa2_psk_is_parsed_and_classified : Prop :=
  rsn_of WPA2_PSK (fun rsn =>
    rsn_version rsn = 1 /\ rsn_group_cipher rsn = Ccmp128 /\ rsn_pairwise_ciphers rsn = [Ccmp128] /\ rsn_akms rsn = [Psk]
    /\ rsn_mfp_capable rsn = false /\ rsn_mfp_required rsn = false)
  /\ security_of WPA2_PSK = Wpa2Personal.
Definition wpa3_sae_requires_mfp : Prop :=
  rsn_of WPA3_SAE (fun rsn => rsn_akms rsn = [Sae] /\ rsn_mfp_capable rsn = true /\ rsn_mfp_required rsn = true)
  /\ security_of WPA3_SAE = Wpa3Personal.
Definition transition_mode_lists_both_akms : Prop :=
  rsn_of WPA2_WPA3 (fun rsn => rsn_akms rsn = [Psk; Sae] /\ rsn_mfp_capable rsn = true /\ rsn_mfp_required rsn = false)
  /\ security_of WPA2_WPA3 = Wpa2Wpa3Personal.
Definition enterprise_splits_on_mfp : Prop :=
  security_of WPA2_ENTERPRISE = Wpa2Enterprise
  /\ security_of (<[20%nat := 0xc0]> WPA2_ENTERPRISE) = Wpa3Enterprise
  /\ security_of (<[19%nat := 12]> WPA2_ENTERPRISE) = Wpa3Enterprise.
Definition owe_is_not_open : Prop :=
  security_of (<[19%nat := 18]> WPA3_SAE) = SecOwe /\ Security_is_open SecOwe = true.
Definition wpa1_only_network_is_not_shown_as_open : Prop :=
  match b_wpa (BeaconIes_parse WPA1_PSK) with
  | Some wpa => wpa_group_cipher wpa = Tkip /\ wpa_pairwise_ciphers wpa = [Tkip] /\ wpa_akms wpa = [Psk]
  | None => False
  end
  /\ security_of WPA1_PSK = Wpa1Personal
  /\ security_of (<[23%nat := 1]> WPA1_PSK) = Wpa1Enterprise.
Definition other_vendor_elements_are_not_wpa1 : Prop :=
  let info := BeaconIes_parse [0xdd; 0x07; 0x00; 0x50; 0xf2; 0x02; 0x01; 0x01; 0x00] in
  b_wpa info = None /\ BeaconIes_security info false = Open.
Definition rsn_wins_over_a_stale_wpa1_element : Prop :=
  let info := BeaconIes_parse (WPA1_PSK ++ WPA2_PSK) in
  is_some (b_wpa info) = true /\ BeaconIes_security info true = Wpa2Personal.
Definition raw_is_the_element_verbatim : Prop :=
  rsn_raw <$> b_rsn (BeaconIes_parse ([0x00; 0x03] ++ ascii_of "caw" ++ WPA2_PSK ++ [0x03; 0x01; 0x06])) = Some WPA2_PSK.
Definition missing_tail_fields_take_their_defaults : Prop :=
  let ie := [0x30; 0x06; 0x01; 0x00; 0x00; 0x0f; 0xac; 0x04] in
  rsn_of ie (fun rsn => rsn_pairwise_ciphers rsn = [Ccmp128] /\ rsn_akms rsn = [Dot1x] /\ rsn_capabilities rsn = 0)
  /\ security_of ie = Wpa2Enterprise.
Definition suite_count_that_overruns_the_element_is_clamped : Prop :=
  rsn_of [0x30; 0x0c; 0x01; 0x00; 0x00; 0x0f; 0xac; 0x04; 0x04; 0x00; 0x00; 0x0f; 0xac; 0x04]
    (fun rsn => rsn_pairwise_ciphers rsn = [Ccmp128] /\ rsn_akms rsn = [Dot1x]).
Definition unknown_suites_are_kept_not_dropped : Prop :=
  let ie := take 16 WPA2_PSK ++ [0x00; 0x40; 0x96; 0x00] ++ drop 20 WPA2_PSK in
  rsn_of ie (fun rsn => rsn_akms rsn = [AkmUnknown (0x00, 0x40, 0x96, 0x00)]) /\ security_of ie = Wep.
Definition group_management_cipher_follows_the_pmkid_list : Prop :=
  let ie := [0x30; 0x2a; 0x01; 0x00; 0x00; 0x0f; 0xac; 0x04; 0x01; 0x00; 0x00; 0x0f; 0xac; 0x04;
             0x01; 0x00; 0x00; 0x0f; 0xac; 0x08; 0xc0; 0x00; 0x01; 0x00] ++ replicate 16 0xaa ++ [0x00; 0x0f; 0xac; 0x06] in
  rsn_of ie (fun rsn => rsn_group_mgmt_cipher rsn = Some BipCmac128 /\ rsn_raw rsn = ie).
Definition unsupported_rsn_version_is_rejected : Prop := RsnIe_parse (<[2%nat := 2]> WPA2_PSK) = Err Malformed.
Definition reason_codes_have_names_and_gaps_do_not : Prop :=
  Words.reason_text 3 = Some "the station is leaving the network"%string
  /\ match Words.reason_text 15 with Some t => is_some (String.index 0 "passphrase" t) = true | None => False end
  /\ Words.reason_text 0 = None /\ Words.reason_text 28 = None /\ Words.reason_text 65535 = None.

Lemma dot11_tests_pass : Forall id
  [walks_elements; truncated_element_stops_iteration; truncated_rsn_classifies_without_panicking; hidden_ssid;
   ssid_is_bytes_not_a_string; ds_param_gives_channel; wpa2_psk_is_parsed_and_classified; wpa3_sae_requires_mfp;
   transition_mode_lists_both_akms; enterprise_splits_on_mfp; owe_is_not_open; wpa1_only_network_is_not_shown_as_open;
   other_vendor_elements_are_not_wpa1; rsn_wins_over_a_stale_wpa1_element; raw_is_the_element_verbatim;
   missing_tail_fields_take_their_defaults; suite_count_that_overruns_the_element_is_clamped;
   unknown_suites_are_kept_not_dropped; group_management_cipher_follows_the_pmkid_list;
   unsupported_rsn_version_is_rejected; reason_codes_have_names_and_gaps_do_not].
Proof. run_tests. Qed.
