(* ===== verification/TestsNetlink.v ===== *)
(** * The tests of the netlink crates, on the model

    What [caw-netlink], [caw-nl80211], [caw-rtnl] and the daemon's links.rs test of
    themselves, translated and evaluated on hosts of either byte order.  [attr]
    writes an attribute on its own, as there, so that the builder and the parser
    cannot agree by mistake. *)
From S2P Require Import Prelude Text Bytes Netlink Nl80211 Wiphy NlMsg.
From S2P Require Dot11 Rtnl Links TestsDot11.

Section tests.
Context {he : HostEndian}.

(** ** caw-netlink *)

Definition aligns_to_four : Prop := map align [0; 1; 4; 5]%nat = [0; 4; 4; 8]%nat.
Definition builder_patches_length_and_pads : Prop :=
  let msg := MsgBuilder_finish (MsgBuilder_attr_str (MsgBuilder_new 18 NLM_F_REQUEST 7) 3 (ascii_of "eth0")) in
  length msg = 28%nat /\ ne_decode (take 4 msg) = 28 /\ ne_decode (take 2 (drop 4 msg)) = 18.
Definition attrs_round_trip : Prop :=
  let msg := MsgBuilder_finish (MsgBuilder_attr_u32 (MsgBuilder_attr_str (MsgBuilder_new 0 0 0) 3 (ascii_of "wlan0")) 13 1500) in
  match Message_parse msg with
  | Ok parsed => match Message_attrs parsed 0 with
                 | [name; mtu] => attr_str_of name = Some (ascii_of "wlan0") /\ attr_u32_of mtu = Some 1500
                 | _ => False
                 end
  | _ => False
  end.
Definition malformed_attr_length_terminates_iteration : Prop := Attrs (replicate 8 0) = [].

(** ** cawd, links.rs *)

(** [struct ifinfomsg] *)
Definition ifinfomsg (ifindex flags : Z) : bytes :=
  replicate 4 0 ++ ne_encode 4 ifindex ++ ne_encode 4 flags ++ replicate 4 0.
Definition a_link_that_is_up_with_a_cable : Prop :=
  Links.LinkEvent_decode Links.RTM_NEWLINK
    (ifinfomsg 3 (Z.lor (Z.lor Links.IFF_UP Links.IFF_LOWER_UP) Links.IFF_RUNNING)) = Some (Links.Changed 3 true true).
Definition a_link_that_is_up_without_one : Prop :=
  Links.LinkEvent_decode Links.RTM_NEWLINK (ifinfomsg 3 Links.IFF_UP) = Some (Links.Changed 3 true false).
Definition a_link_going_away : Prop :=
  Links.LinkEvent_decode Links.RTM_DELLINK (ifinfomsg 7 Links.IFF_UP) = Some (Links.Removed 7).
Definition an_address_change_names_its_interface : Prop :=
  let body := replicate 4 0 ++ ne_encode 4 9 in
  Links.LinkEvent_decode Links.RTM_NEWADDR body = Some (Links.AddressChanged 9)
  /\ Links.LinkEvent_decode Links.RTM_DELADDR body = Some (Links.AddressChanged 9).
Definition truncated_and_uninteresting_messages_are_ignored : Prop :=
  Links.LinkEvent_decode Links.RTM_NEWLINK (replicate 4 0) = None
  /\ Links.LinkEvent_decode Links.RTM_NEWADDR (replicate 2 0) = None
  /\ Links.LinkEvent_decode 24 (replicate 32 0) = None.

(** ** caw-rtnl *)

Definition ifinfomsg_layout : Prop :=
  let b := Rtnl.ifinfomsg Rtnl.AF_UNSPEC 3 Rtnl.IFF_UP Rtnl.IFF_UP in
  length b = 16%nat /\ map (fun i => ne_decode (take 4 (drop i b))) [4; 8; 12]%nat = [3; Rtnl.IFF_UP; Rtnl.IFF_UP].
Definition formats_mac : Prop := Rtnl.format_mac [0x02; 0; 0; 0; 0x01; 0] = ascii_of "02:00:00:00:01:00".
Definition parses_both_families : Prop :=
  Rtnl.parse_ip Rtnl.AF_INET [192; 168; 1; 5] = Some (Rtnl.V4 0xC0A80105)
  /\ is_some (Rtnl.parse_ip Rtnl.AF_INET6 (replicate 16 0)) = true
  /\ Rtnl.parse_ip Rtnl.AF_INET [1; 2; 3] = None.

(** ** caw-nl80211 *)

Definition NLA_F_NESTED : Z := 0x8000.
Definition attr (kind : Z) (payload : bytes) : bytes :=
  let n := (4 + length payload)%nat in
  pad_to (align n) 0 (ne_encode 2 (Z.of_nat n) ++ ne_encode 2 kind ++ payload).
Definition word (v : Z) : bytes := ne_encode 4 v.
Definition half (v : Z) : bytes := ne_encode 2 v.
Definition body (cmd : Z) (parts : list bytes) : bytes := genlmsghdr cmd 0 ++ concat parts.
(** The body of a request, if its length is the message's. *)
Definition built_body (msg : bytes) (P : bytes -> Prop) : Prop := ne_decode (take 4 msg) = len msg /\ P (drop 16 msg).
Definition get (payload : bytes) (kind : Z) : option bytes := attr_payload <$> attr_find (NAttrs_of_body payload) kind.
Definition get_u32 (payload : bytes) (kind : Z) : option Z := attr_find (NAttrs_of_body payload) kind ≫= attr_u32_of.
Definition get_u8 (payload : bytes) (kind : Z) : option Z := attr_find (NAttrs_of_body payload) kind ≫= attr_u8_of.
Definition message (payload : bytes) : Message :=
  {| msg_len := 16 + len payload; msg_kind := 28; msg_flags := 0; msg_seq := 1; msg_pid := 0; msg_payload := payload |}.
Definition RSN_WPA2_PSK : bytes := TestsDot11.WPA2_PSK.
Definition AP : bytes := [0x02; 0; 0; 0; 0x01; 0].

Definition nest_round_trips_through_attrs : Prop :=
  let nest := Nest_attr (Nest_attr (Nest_attr (Nest_attr [] NL80211_KEY_DEFAULT_TYPE_UNICAST [7])
                NL80211_ATTR_IFINDEX (word 3)) NL80211_ATTR_SSID (ascii_of "caw")) NL80211_ATTR_PRIVACY [] in
  match NAttrs nest with
  | [a; b; c; d] => attr_u8_of a = Some 7 /\ attr_u32_of b = Some 3 /\ attr_payload c = ascii_of "caw"
                    /\ attr_payload d = [] /\ attr_kind d = NL80211_ATTR_PRIVACY
  | _ => False
  end.
Definition nested_flag_is_masked_off_the_type : Prop :=
  is_some (attr_find (NAttrs (attr (Z.lor NL80211_ATTR_BSS NLA_F_NESTED) [0; 0; 0; 0])) NL80211_ATTR_BSS) = true.
Definition malformed_attribute_length_terminates_iteration : Prop :=
  NAttrs (replicate 8 0) = [] /\ NAttrs [0xff; 0xff; 0x01; 0x00] = [].

Definition group (name : string) (id : Z) : bytes :=
  attr CTRL_ATTR_MCAST_GRP_NAME (ascii_of name ++ [0]) ++ attr CTRL_ATTR_MCAST_GRP_ID (word id).
Definition family_reply_yields_id_and_group_ids : Prop :=
  let groups := attr 1 (group "config" 3) ++ attr 2 (group "scan" 4) ++ attr 3 (group "regulatory" 5) ++ attr 4 (group "mlme" 6) in
  Family_parse (body 1 [attr CTRL_ATTR_FAMILY_NAME (ascii_of "nl80211" ++ [0]); attr CTRL_ATTR_FAMILY_ID (half 28);
                        attr (Z.lor CTRL_ATTR_MCAST_GROUPS NLA_F_NESTED) groups])
  = Some {| f_id := 28; f_groups := {| g_scan := Some 4; g_mlme := Some 6; g_config := Some 3 |} |}.
Definition family_without_an_id_is_not_a_family : Prop :=
  Family_parse (body 1 [attr CTRL_ATTR_FAMILY_NAME (ascii_of "nl80211" ++ [0])]) = None.
Definition group_mask_covers_the_subscribed_groups : Prop :=
  mask {| g_scan := Some 4; g_mlme := Some 6; g_config := Some 3 |} = Ok (Z.lor (Z.lor (Z.shiftl 1 3) (Z.shiftl 1 5)) (Z.shiftl 1 2))
  /\ mask {| g_scan := None; g_mlme := None; g_config := None |} = Ok 0
  /\ mask {| g_scan := Some 32; g_mlme := None; g_config := None |} = Ok (Z.shiftl 1 31)
  /\ map (fun id => mask {| g_scan := Some id; g_mlme := None; g_config := None |}) [0; 33]
     = [Err ("scan"%string, 0); Err ("scan"%string, 33)].
Definition ext_feature_bits_are_indexed_from_the_first_byte : Prop :=
  let psk_only := [0x00; 0x80; 0x00; 0x00; 0x00] in
  let dot1x_and_sae := [0x00; 0x00; 0x01; 0x00; 0x40] in
  map (ExtFeatures_has psk_only) [15; 16; 38] = [true; false; false]
  /\ map (ExtFeatures_has dot1x_and_sae) [15; 16; 38] = [false; true; true]
  /\ [NL80211_EXT_FEATURE_4WAY_HANDSHAKE_STA_PSK; NL80211_EXT_FEATURE_4WAY_HANDSHAKE_STA_1X; NL80211_EXT_FEATURE_SAE_OFFLOAD]
     = [15; 16; 38]
  /\ ExtFeatures_has [0xff] NL80211_EXT_FEATURE_SAE_OFFLOAD = false /\ ExtFeatures_has [] 0 = false.

Definition NL80211_IFTYPE_STATION : Z := 2.
Definition split_wiphy_dump_merges_into_one_phy : Prop :=
  let names := message (body 3 [attr NL80211_ATTR_WIPHY (word 0); attr NL80211_ATTR_WIPHY_NAME (ascii_of "phy0" ++ [0]);
    attr (Z.lor NL80211_ATTR_SUPPORTED_IFTYPES NLA_F_NESTED) (attr NL80211_IFTYPE_STATION [] ++ attr NL80211_IFTYPE_AP [])]) in
  let features := message (body 3 [attr NL80211_ATTR_WIPHY (word 0); attr NL80211_ATTR_EXT_FEATURES [0x00; 0x80; 0x00; 0x00; 0x40]]) in
  match WiphyChunk_parse names, WiphyChunk_parse features with
  | Some n, Some f => merge_into f (into_wiphy n)
      = {| w_index := 0; w_name := ascii_of "phy0"; w_supports_ap := true;
           w_offloads_4way_psk := true; w_offloads_4way_1x := false; w_offloads_sae := true |}
  | _, _ => False
  end.
Definition interface_parses_ifindex_wiphy_and_mac : Prop :=
  Interface_parse (message (body 7 [attr NL80211_ATTR_IFINDEX (word 7); attr NL80211_ATTR_WIPHY (word 1);
    attr NL80211_ATTR_IFNAME (ascii_of "wlan0" ++ [0]); attr NL80211_ATTR_IFTYPE (word NL80211_IFTYPE_STATION); attr NL80211_ATTR_MAC AP]))
  = Some {| i_ifindex := 7; i_wiphy := 1; i_name := ascii_of "wlan0"; i_iftype := Station; i_mac := Some AP |}.
Definition wdev_without_a_netdev_is_skipped : Prop :=
  Interface_parse (message (body 7 [attr NL80211_ATTR_WIPHY (word 1)])) = None.

(** A WPA2-PSK network on channel 1, as a scan dump delivers it. *)
Definition captured_bss : bytes :=
  concat [attr NL80211_BSS_BSSID AP; attr NL80211_BSS_FREQUENCY (word 2412); attr NL80211_BSS_CAPABILITY (half 0x0411);
    attr NL80211_BSS_INFORMATION_ELEMENTS ([0x00; 0x08] ++ ascii_of "caw-test" ++ [0x03; 0x01; 0x01] ++ RSN_WPA2_PSK);
    attr NL80211_BSS_SIGNAL_MBM (word (2 ^ 32 - 4550)); attr NL80211_BSS_SEEN_MS_AGO (word 120)].
Definition bss_parses_from_a_scan_dump : Prop :=
  match Bss_parse captured_bss with
  | Some bss => bss_bssid bss = AP /\ bss_ssid bss = ascii_of "caw-test" /\ bss_freq_mhz bss = 2412 /\ bss_signal_dbm bss = -46
      /\ bss_last_seen_ms bss = 120 /\ bss_security bss = Dot11.Wpa2Personal
      /\ match bss_rsn bss with
         | Some rsn => Dot11.rsn_raw rsn = RSN_WPA2_PSK /\ Dot11.rsn_akms rsn = [Dot11.Psk]
             /\ cipher_suite (Dot11.rsn_group_cipher rsn) = Some WLAN_CIPHER_SUITE_CCMP
             /\ map akm_suite (Dot11.rsn_akms rsn) = [ieee 2]
         | None => False
         end
  | None => False
  end.
Definition scan_dump_message_finds_its_nested_bss : Prop :=
  (fun b => bss_ssid b) <$> bss_of (message (body 34 [attr 46 (word 1); attr (Z.lor NL80211_ATTR_BSS NLA_F_NESTED) captured_bss]))
  = Some (ascii_of "caw-test").
Definition bss_without_a_bssid_is_not_a_bss : Prop := Bss_parse (attr NL80211_BSS_FREQUENCY (word 2412)) = None.
Definition a_bss_with_no_signal_sorts_last : Prop :=
  match Bss_parse (attr NL80211_BSS_BSSID (replicate 6 0)) with
  | Some bss => bss_signal_dbm bss = UNKNOWN_SIGNAL /\ (bss_signal_dbm bss <? -100) = true /\ bss_security bss = Dot11.Open
  | None => False
  end.
Definition signal_rounds_to_nearest_dbm : Prop :=
  map mbm_to_dbm [-4500; -4550; -4549; -4551; -9000; 0; 4550] = [-45; -46; -45; -46; -90; 0; 46].

Definition connect_carries_the_negotiated_suites : Prop :=
  let bytes := connect 28 9 7
    {| c_ssid := ascii_of "caw-test"; c_bssid := Some AP; c_freq_mhz := Some 2412; c_auth_type := NL80211_AUTHTYPE_OPEN_SYSTEM;
       c_wpa_versions := NL80211_WPA_VERSION_2; c_pairwise_ciphers := [WLAN_CIPHER_SUITE_CCMP];
       c_group_cipher := Some WLAN_CIPHER_SUITE_CCMP; c_akms := [ieee 2]; c_mfp := None; c_ies := RSN_WPA2_PSK |} in
  ne_decode (take 2 (drop 4 bytes)) = 28
  /\ built_body bytes (fun p => take 4 p = [NL80211_CMD_CONNECT; 0; 0; 0]
    /\ get_u32 p NL80211_ATTR_IFINDEX = Some 7 /\ get p NL80211_ATTR_SSID = Some (ascii_of "caw-test")
    /\ get p NL80211_ATTR_MAC = Some AP /\ get_u32 p NL80211_ATTR_WIPHY_FREQ = Some 2412
    /\ get_u32 p NL80211_ATTR_WPA_VERSIONS = Some NL80211_WPA_VERSION_2
    /\ get_u32 p NL80211_ATTR_CIPHER_SUITE_GROUP = Some WLAN_CIPHER_SUITE_CCMP
    /\ get_u32 p NL80211_ATTR_AKM_SUITES = Some (ieee 2)
    /\ length <$> get p NL80211_ATTR_CIPHER_SUITES_PAIRWISE = Some 4%nat
    /\ get_u32 p NL80211_ATTR_CIPHER_SUITES_PAIRWISE = Some WLAN_CIPHER_SUITE_CCMP
    /\ get p NL80211_ATTR_PRIVACY = Some [] /\ get p NL80211_ATTR_USE_MFP = None
    /\ get p NL80211_ATTR_IE = Some RSN_WPA2_PSK).
Definition authenticate_carries_the_frame_body_from_the_sequence_number : Prop :=
  let data := [0x01; 0x00; 0x7e; 0x00; 0x13; 0x00] in
  built_body (authenticate 28 3 7 (ascii_of "sae") AP 5180 NL80211_AUTHTYPE_SAE data) (fun p =>
    take 4 p = [NL80211_CMD_AUTHENTICATE; 0; 0; 0]
    /\ get_u32 p NL80211_ATTR_IFINDEX = Some 7 /\ get p NL80211_ATTR_MAC = Some AP
    /\ get_u32 p NL80211_ATTR_WIPHY_FREQ = Some 5180 /\ get p NL80211_ATTR_SSID = Some (ascii_of "sae")
    /\ get_u32 p NL80211_ATTR_AUTH_TYPE = Some NL80211_AUTHTYPE_SAE /\ get p NL80211_ATTR_AUTH_DATA = Some data).
Definition sae_connect : Connect :=
  {| c_ssid := ascii_of "sae"; c_bssid := Some AP; c_freq_mhz := Some 5180; c_auth_type := NL80211_AUTHTYPE_SAE;
     c_wpa_versions := NL80211_WPA_VERSION_3; c_pairwise_ciphers := [WLAN_CIPHER_SUITE_CCMP];
     c_group_cipher := Some WLAN_CIPHER_SUITE_CCMP; c_akms := [ieee 8]; c_mfp := Some NL80211_MFP_REQUIRED; c_ies := RSN_WPA2_PSK |}.
Definition associate_carries_the_suites_but_not_the_authentication : Prop :=
  built_body (associate 28 4 7 sae_connect) (fun p =>
    take 4 p = [NL80211_CMD_ASSOCIATE; 0; 0; 0] /\ get p NL80211_ATTR_MAC = Some AP
    /\ get_u32 p NL80211_ATTR_WIPHY_FREQ = Some 5180 /\ get_u32 p NL80211_ATTR_AKM_SUITES = Some (ieee 8)
    /\ get_u32 p NL80211_ATTR_USE_MFP = Some NL80211_MFP_REQUIRED /\ get p NL80211_ATTR_IE = Some RSN_WPA2_PSK
    /\ get p NL80211_ATTR_AUTH_TYPE = None /\ get p NL80211_ATTR_PRIVACY = None).
Definition an_open_network_connects_without_privacy : Prop :=
  built_body (connect 28 1 7 {| c_ssid := ascii_of "open"; c_bssid := None; c_freq_mhz := None;
      c_auth_type := NL80211_AUTHTYPE_OPEN_SYSTEM; c_wpa_versions := 0; c_pairwise_ciphers := []; c_group_cipher := None;
      c_akms := []; c_mfp := None; c_ies := [] |}) (fun p =>
    get p NL80211_ATTR_PRIVACY = None /\ get p NL80211_ATTR_WPA_VERSIONS = None /\ get p NL80211_ATTR_IE = None
    /\ get_u32 p NL80211_ATTR_AUTH_TYPE = Some NL80211_AUTHTYPE_OPEN_SYSTEM).
Definition wpa3_connects_with_sae_and_mandatory_mfp : Prop :=
  built_body (connect 28 1 7 sae_connect) (fun p =>
    get_u32 p NL80211_ATTR_AUTH_TYPE = Some NL80211_AUTHTYPE_SAE /\ get_u32 p NL80211_ATTR_USE_MFP = Some NL80211_MFP_REQUIRED).
Definition scan_entries (p : bytes) : option (list bytes) := (fun n => map attr_payload (NAttrs n)) <$> get p NL80211_ATTR_SCAN_SSIDS.
Definition a_scan_with_no_ssid_still_probes : Prop :=
  built_body (trigger_scan 28 1 7 []) (fun p => scan_entries p = Some [[]])
  /\ built_body (trigger_scan 28 1 7 [ascii_of "one"; ascii_of "two"]) (fun p => scan_entries p = Some [ascii_of "one"; ascii_of "two"]).
Definition pairwise_key_goes_in_at_index_zero : Prop :=
  built_body (new_pairwise_key 28 1 7 AP WLAN_CIPHER_SUITE_CCMP (replicate 16 0xab)) (fun p =>
    take 1 p = [NL80211_CMD_NEW_KEY] /\ get_u8 p NL80211_ATTR_KEY_IDX = Some 0
    /\ get p NL80211_ATTR_KEY_DATA = Some (replicate 16 0xab) /\ get_u32 p NL80211_ATTR_KEY_CIPHER = Some WLAN_CIPHER_SUITE_CCMP
    /\ get_u32 p NL80211_ATTR_KEY_TYPE = Some NL80211_KEYTYPE_PAIRWISE /\ get p NL80211_ATTR_MAC = Some AP).
Definition group_key_carries_its_replay_counter_and_no_peer : Prop :=
  built_body (new_group_key 28 1 7 2 WLAN_CIPHER_SUITE_CCMP (replicate 16 0xcd) [1; 2; 3; 4; 5; 6]) (fun p =>
    get_u8 p NL80211_ATTR_KEY_IDX = Some 2 /\ get p NL80211_ATTR_KEY_SEQ = Some [1; 2; 3; 4; 5; 6]
    /\ get_u32 p NL80211_ATTR_KEY_TYPE = Some NL80211_KEYTYPE_GROUP /\ get p NL80211_ATTR_MAC = None).
Definition default_types (p : bytes) : option (list Z) := (fun n => map attr_kind (NAttrs n)) <$> get p NL80211_ATTR_KEY_DEFAULT_TYPES.
Definition default_key_names_the_traffic_it_covers : Prop :=
  built_body (set_default_key 28 1 7 2 Multicast) (fun p =>
    take 1 p = [NL80211_CMD_SET_KEY] /\ get_u8 p NL80211_ATTR_KEY_IDX = Some 2 /\ get p NL80211_ATTR_KEY_DEFAULT = Some []
    /\ default_types p = Some [NL80211_KEY_DEFAULT_TYPE_MULTICAST])
  /\ built_body (set_default_key 28 1 7 0 Both) (fun p =>
    default_types p = Some [NL80211_KEY_DEFAULT_TYPE_UNICAST; NL80211_KEY_DEFAULT_TYPE_MULTICAST]).
Definition disconnect_reason_is_sixteen_bits : Prop :=
  built_body (disconnect 28 1 7 3) (fun p =>
    length <$> get p NL80211_ATTR_REASON_CODE = Some 2%nat /\ (attr_find (NAttrs_of_body p) NL80211_ATTR_REASON_CODE ≫= u16_of) = Some 3).
Definition power_save_is_a_u32_state_on_the_interface : Prop :=
  built_body (set_power_save 28 1 7 false) (fun p =>
    take 1 p = [NL80211_CMD_SET_POWER_SAVE]
    /\ map (fun a => (attr_kind a, attr_u32_of a, length (attr_payload a))) (NAttrs_of_body p)
       = [(NL80211_ATTR_IFINDEX, Some 7, 4%nat); (NL80211_ATTR_PS_STATE, Some NL80211_PS_DISABLED, 4%nat)])
  /\ built_body (set_power_save 28 2 7 true) (fun p => get_u32 p NL80211_ATTR_PS_STATE = Some NL80211_PS_ENABLED).

Definition events_decode_from_their_command : Prop :=
  Event_decode (body NL80211_CMD_NEW_SCAN_RESULTS [attr NL80211_ATTR_WIPHY (word 0); attr NL80211_ATTR_IFINDEX (word 7)])
    = Some (ScanComplete 0 7)
  /\ Event_decode (body NL80211_CMD_SCAN_ABORTED [attr NL80211_ATTR_IFINDEX (word 7)]) = Some (ScanAborted 0 7)
  /\ Event_decode (body NL80211_CMD_DISCONNECT [attr NL80211_ATTR_REASON_CODE (half 15); attr NL80211_ATTR_DISCONNECTED_BY_AP []])
    = Some (Disconnected 15 true)
  /\ Event_decode (body NL80211_CMD_DISCONNECT []) = Some (Disconnected 0 false)
  /\ Event_decode (body NL80211_CMD_FRAME [attr NL80211_ATTR_FRAME [0xb0; 0x00]]) = Some (Frame [0xb0; 0x00])
  /\ Event_decode (body NL80211_CMD_AUTHENTICATE [attr NL80211_ATTR_FRAME [0xb0; 0x00]]) = Some (Authenticate [0xb0; 0x00])
  /\ Event_decode (body NL80211_CMD_AUTHENTICATE [attr NL80211_ATTR_TIMED_OUT []; attr NL80211_ATTR_MAC AP]) = Some AuthTimedOut
  /\ Event_decode (body 36 []) = None /\ Event_decode [] = None.
Definition a_connect_timeout_is_not_a_success : Prop :=
  Event_decode (body NL80211_CMD_CONNECT [attr NL80211_ATTR_TIMED_OUT []; attr NL80211_ATTR_IFINDEX (word 7)]) = Some (Connected None TimedOut)
  /\ Event_decode (body NL80211_CMD_CONNECT [attr NL80211_ATTR_MAC AP]) = Some (Connected (Some AP) Success)
  /\ Event_decode (body NL80211_CMD_CONNECT [attr NL80211_ATTR_MAC AP; attr NL80211_ATTR_STATUS_CODE (half 1)])
    = Some (Connected (Some AP) (Refused 1)).
Definition external_auth_reads_bssid_not_mac : Prop :=
  Event_decode (body NL80211_CMD_EXTERNAL_AUTH [attr NL80211_ATTR_BSSID AP; attr NL80211_ATTR_SSID (ascii_of "sae-net");
      attr NL80211_ATTR_AKM_SUITES (word (ieee 8)); attr NL80211_ATTR_EXTERNAL_AUTH_ACTION (word 0)])
    = Some (ExternalAuth AP (ascii_of "sae-net") false)
  /\ Event_decode (body NL80211_CMD_EXTERNAL_AUTH [attr NL80211_ATTR_BSSID AP; attr NL80211_ATTR_SSID (ascii_of "sae-net");
      attr NL80211_ATTR_EXTERNAL_AUTH_ACTION (word NL80211_EXTERNAL_AUTH_ABORT)])
    = Some (ExternalAuth AP (ascii_of "sae-net") true).
Definition suite_selectors_match_the_rsn_element : Prop :=
  [WLAN_CIPHER_SUITE_CCMP; akm_suite Dot11.Psk; akm_suite Dot11.Sae; suite (0x00, 0x0f, 0xac) 4]
    = [0x000fac04; 0x000fac02; 0x000fac08; WLAN_CIPHER_SUITE_CCMP]
  /\ cipher_suite (Dot11.CipherUnknown (0x00, 0x50, 0xf2, 0x02)) = Some 0x0050f202
  /\ cipher_suite Dot11.UseGroup = None.

Definition netlink_tests : list Prop :=
  [aligns_to_four; builder_patches_length_and_pads; attrs_round_trip; malformed_attr_length_terminates_iteration;
   a_link_that_is_up_with_a_cable; a_link_that_is_up_without_one; a_link_going_away; an_address_change_names_its_interface;
   truncated_and_uninteresting_messages_are_ignored; ifinfomsg_layout; formats_mac; parses_both_families].
Definition nl80211_tests : list Prop :=
  [nest_round_trips_through_attrs; nested_flag_is_masked_off_the_type; malformed_attribute_length_terminates_iteration;
   family_reply_yields_id_and_group_ids; family_without_an_id_is_not_a_family; group_mask_covers_the_subscribed_groups;
   ext_feature_bits_are_indexed_from_the_first_byte; split_wiphy_dump_merges_into_one_phy;
   interface_parses_ifindex_wiphy_and_mac; wdev_without_a_netdev_is_skipped; bss_parses_from_a_scan_dump;
   scan_dump_message_finds_its_nested_bss; bss_without_a_bssid_is_not_a_bss; a_bss_with_no_signal_sorts_last;
   signal_rounds_to_nearest_dbm; connect_carries_the_negotiated_suites;
   authenticate_carries_the_frame_body_from_the_sequence_number; associate_carries_the_suites_but_not_the_authentication;
   an_open_network_connects_without_privacy; wpa3_connects_with_sae_and_mandatory_mfp; a_scan_with_no_ssid_still_probes;
   pairwise_key_goes_in_at_index_zero; group_key_carries_its_replay_counter_and_no_peer;
   default_key_names_the_traffic_it_covers; disconnect_reason_is_sixteen_bits; power_save_is_a_u32_state_on_the_interface;
   events_decode_from_their_command; a_connect_timeout_is_not_a_success; external_auth_reads_bssid_not_mac;
   suite_selectors_match_the_rsn_element].
End tests.

Lemma netlink_tests_pass : Forall id (netlink_tests (he := false) ++ netlink_tests (he := true)).
Proof. run_tests. Qed.
Lemma nl80211_tests_pass : Forall id (nl80211_tests (he := false) ++ nl80211_tests (he := true)).
Proof. run_tests. Qed.
