(* ===== verification/TestsDhcp.v ===== *)
(** * The tests of [caw-dhcp], on the model

    The tests of lib.rs, options.rs, message.rs, client.rs and ipv6.rs, translated
    and evaluated; the acknowledgement is the one the crate carries, captured from
    a server. *)
From S2P Require Import Prelude Text Bytes DhcpOptions DhcpMessage DhcpClient.
From S2P Require Ipv6.

(** An ACK captured from a server: two resolvers and a hostname, padded to 300
    octets. *)
Definition ACK_CAPTURE : bytes :=
  [0x02; 0x01; 0x06; 0x00; 0x39; 0x03; 0xf3; 0x26; 0x00; 0x00; 0x00; 0x00; 0x00; 0x00; 0x00; 0x00; 0xc0; 0xa8; 0x01; 0x18;
   0xc0; 0xa8; 0x01; 0x01; 0x00; 0x00; 0x00; 0x00; 0x5a; 0x94; 0xef; 0xe4; 0x0c; 0xee] ++ replicate 202 0
  ++ [0x63; 0x82; 0x53; 0x63; 0x35; 0x01; 0x05; 0x36; 0x04; 0xc0; 0xa8; 0x01; 0x01; 0x33; 0x04; 0x00; 0x00; 0xa8; 0xc0; 0x3a;
      0x04; 0x00; 0x00; 0x54; 0x60; 0x3b; 0x04; 0x00; 0x00; 0x93; 0xa8; 0x01; 0x04; 0xff; 0xff; 0xff; 0x00; 0x03; 0x04; 0xc0;
      0xa8; 0x01; 0x01; 0x06; 0x08; 0xc0; 0xa8; 0x01; 0x01; 0x08; 0x08; 0x08; 0x08; 0x0c; 0x05; 0x72; 0x61; 0x76; 0x65; 0x6e;
      0xff; 0x00; 0x00; 0x00].
Definition CAPTURE_MAC : bytes := [0x5a; 0x94; 0xef; 0xe4; 0x0c; 0xee].
Definition CAPTURE_XID : Z := 0x3903f326.

(** ** lib.rs *)

Definition mask_to_prefix_len : Prop :=
  map prefix_len_from_mask [0xffffff00; 0xfffff000; UNSPECIFIED; BROADCAST; 0xff00ff00; 0xffff0001]
  = [Some 24; Some 20; Some 0; Some 32; None; None].
Definition prefix_len_and_mask_agree : Prop :=
  map (fun n => mask_from_prefix_len (Z.of_nat n) ≫= prefix_len_from_mask) (seq 0 33) = map (fun n => Some (Z.of_nat n)) (seq 0 33)
  /\ mask_from_prefix_len 33 = None.

(** ** options.rs *)

Definition round_trips_every_variant : Prop :=
  let options := [OptMessageType Request; SubnetMask 0xffffff00; Router [0xc0a80101]; Dns [0x01010101; 0x09090909];
    HostName (ascii_of "corvus"); RequestedIp 0xc0a80118; LeaseTime 43200; ServerId 0xc0a80101; ParameterRequest [1; 3; 6];
    T1 21600; T2 37800; ClientId [1; 0x5a; 0x94; 0xef; 0xe4; 0x0c; 0xee]; Other 82 [0xde; 0xad]] in
  decode_into (encode_all options) [] = Ok (0, options).
Definition skips_pad_and_stops_at_end : Prop :=
  decode_into [OPT_PAD; 53; 1; 1; OPT_PAD; OPT_END; 0xff; 0xff; 0xff] [] = Ok (0, [OptMessageType Discover]).
Definition accepts_an_area_that_ends_without_the_end_option : Prop :=
  decode_into [53; 1; 5] [] = Ok (0, [OptMessageType Ack]).
Definition rejects_length_past_the_end : Prop :=
  decode_into [53; 9; 5] [] = Err Malformed /\ decode_into [53] [] = Err Malformed.
Definition rejects_wrong_length_for_a_fixed_option : Prop :=
  map (fun area => decode_into area []) [[1; 3; 255; 255; 255]; [3; 5; 1; 2; 3; 4; 5]; [53; 2; 1; 1]]
  = [Err Malformed; Err Malformed; Err Malformed].
Definition overload_is_reported_not_emitted : Prop :=
  decode_into [OPT_OVERLOAD; 1; 3; 53; 1; 5; OPT_END] [] = Ok (Z.lor OVERLOAD_FILE OVERLOAD_SNAME, [OptMessageType Ack]).
Definition is_panic {E A} (m : exec E A) : bool := match m with Panic => true | _ => false end.
Definition option_truncations_never_panic : Prop :=
  let area := encode_all [OptMessageType Ack; Dns [0x01010101]] in
  existsb (fun n => is_panic (decode_into (take n area) [])) (seq 0 (length area)) = false.

(** ** message.rs *)

Definition discovering : Message :=
  let m := Message_request 0xdeadbeef CAPTURE_MAC in
  {| op := op m; htype := htype m; hlen := hlen m; hops := hops m; xid := xid m; secs := 4; flags := FLAG_BROADCAST;
     ciaddr := ciaddr m; yiaddr := yiaddr m; siaddr := siaddr m; giaddr := giaddr m; chaddr := chaddr m;
     sname := ascii_of "corvus"; file := ascii_of "pxelinux.0";
     options := [OptMessageType Discover; RequestedIp 0xc0a80118] |}.
Definition round_trips : Prop :=
  length (Message_encode discovering) = MIN_LEN
  /\ Message_decode (Message_encode discovering) = Ok discovering
  /\ Message_encode <$> Message_decode (Message_encode discovering) = Ok (Message_encode discovering).
Definition decodes_a_captured_ack : Prop :=
  match Message_decode ACK_CAPTURE with
  | Ok msg => op msg = BOOTREPLY /\ htype msg = HTYPE_ETHERNET /\ hlen msg = 6 /\ xid msg = CAPTURE_XID
      /\ yiaddr msg = 0xc0a80118 /\ siaddr msg = 0xc0a80101 /\ take 6 (chaddr msg) = CAPTURE_MAC
      /\ sname msg = [] /\ file msg = [] /\ message_type msg = Some Ack /\ server_id msg = Some 0xc0a80101
      /\ get msg 12 = Some (HostName (ascii_of "raven"))
  | _ => False
  end.
Definition rejects_a_missing_cookie : Prop := Message_decode (<[236%nat := 0]> ACK_CAPTURE) = Err Malformed.
(** [bytes[i..i + with.len()].copy_from_slice(with)] *)
Definition put (i : nat) (with_ buf : bytes) : bytes := take i buf ++ with_ ++ drop (i + length with_) buf.
Definition reads_options_out_of_overloaded_fields : Prop :=
  let area := [OPT_OVERLOAD; 1; Z.lor OVERLOAD_FILE OVERLOAD_SNAME; OPT_END] in
  let buf := put (FIXED_LEN + 4) area (put SNAME [54; 4; 192; 168; 1; 1; OPT_END]
               (put FILE [51; 4; 0; 0; 0xa8; 0xc0; OPT_END] (Message_encode discovering))) in
  match Message_decode buf with
  | Ok msg => file msg = [] /\ sname msg = [] /\ get msg 51 = Some (LeaseTime 43200) /\ server_id msg = Some 0xc0a80101
  | _ => False
  end.
Definition message_truncations_never_panic : Prop :=
  forallb (fun n => match Message_decode (take n ACK_CAPTURE) with
                    | Panic => false
                    | Ok _ => bool_decide (FIXED_LEN + 4 <= n)%nat
                    | Err _ => true
                    end) (seq 0 (length ACK_CAPTURE)) = true.
Definition text_fields_stay_inside_their_width : Prop :=
  let m := Message_request 1 CAPTURE_MAC in
  let buf := Message_encode
    {| op := op m; htype := htype m; hlen := hlen m; hops := hops m; xid := xid m; secs := secs m; flags := flags m;
       ciaddr := ciaddr m; yiaddr := yiaddr m; siaddr := siaddr m; giaddr := giaddr m; chaddr := chaddr m;
       sname := sname m; file := replicate 400 0x78; options := options m |} in
  length buf = MIN_LEN /\ (fun m => length (file m)) <$> Message_decode buf = Ok (FIXED_LEN - FILE - 1)%nat.

(** ** client.rs *)

Definition SERVER : Z := 0xc0a80101.
Definition OFFERED : Z := 0xc0a80118.
Definition answer (op_ yiaddr_ xid_ : Z) (opts : list DhcpOption) : Message :=
  let m := Message_request xid_ CAPTURE_MAC in
  {| op := op_; htype := htype m; hlen := hlen m; hops := hops m; xid := xid m; secs := secs m; flags := flags m;
     ciaddr := ciaddr m; yiaddr := yiaddr_; siaddr := siaddr m; giaddr := giaddr m; chaddr := chaddr m;
     sname := sname m; file := file m; options := opts |}.
Definition offering (xid : Z) : bytes :=
  Message_encode (answer BOOTREPLY OFFERED xid [OptMessageType Offer; ServerId SERVER; SubnetMask 0xffffff00; LeaseTime 43200]).
Definition refusing (xid : Z) : bytes := Message_encode (answer BOOTREPLY UNSPECIFIED xid [OptMessageType Nak; ServerId SERVER]).

(** The message among the actions, and the time of an armed timer. *)
Definition sent (actions : list Action) : option Message :=
  match find_map (fun a => match a with Broadcast b | Unicast _ b => Some b | _ => None end) actions with
  | Some b => to_option (Message_decode b)
  | None => None
  end.
Definition armed (actions : list Action) (want : Timer) : option Z :=
  find_map (fun a => match a with SetTimer t secs => if bool_decide (t = want) then Some secs else None | _ => None end) actions.
Definition sent_with (actions : list Action) (P : Message -> Prop) : Prop := match sent actions with Some m => P m | None => False end.
(** The state after some inputs, and what the last of them did. *)
Definition after (c : Dhcp4) (l : list Input) : Dhcp4 := fst (run c l).
Definition last_actions (c : Dhcp4) (l : list Input) : list Action := List.last (snd (run c l)) [].
Definition fresh : Dhcp4 := Dhcp4_new CAPTURE_MAC CAPTURE_XID.
Definition named : Dhcp4 := with_hostname fresh (ascii_of "corvus").
Definition to_bound : list Input := [Start CAPTURE_XID; Datagram (offering CAPTURE_XID); Datagram ACK_CAPTURE].

Definition discover_offer_request_ack : Prop :=
  let a1 := last_actions named (take 1 to_bound) in
  let a2 := last_actions named (take 2 to_bound) in
  let a3 := last_actions named to_bound in
  map (fun n => c_state (after named (take n to_bound))) [1; 2; 3]%nat = [Selecting; Requesting; Bound]
  /\ sent_with a1 (fun m => message_type m = Some Discover /\ flags m = FLAG_BROADCAST
       /\ get m OPT_CLIENT_ID = Some (ClientId (1 :: CAPTURE_MAC)) /\ get m OPT_HOSTNAME = Some (HostName (ascii_of "corvus"))
       /\ is_some (get m OPT_PARAM_REQUEST) = true)
  /\ match armed a1 Retransmit with Some t => (0 <? t) = true | None => False end
  /\ sent_with a2 (fun m => message_type m = Some Request /\ get m 50 = Some (RequestedIp OFFERED)
       /\ server_id m = Some SERVER /\ ciaddr m = UNSPECIFIED)
  /\ map (armed a3) [Renew; Rebind; Expire] = [Some 21600; Some 37800; Some 43200]
  /\ List.last (map Some a3) None = Configured <$> c_lease (after named to_bound).
Definition captured_ack_yields_the_expected_lease : Prop :=
  c_lease (after named to_bound)
  = Some {| l_addr := 0xc0a80118; l_prefix_len := 24; l_gateway := Some SERVER; l_dns := [SERVER; 0x08080808]; l_server := SERVER;
            l_lease_secs := 43200; l_renew_secs := 21600; l_rebind_secs := 37800 |}
  /\ netmask <$> c_lease (after named to_bound) = Some 0xffffff00.
Definition renews_then_rebinds_then_expires : Prop :=
  let l1 := to_bound ++ [Timeout Renew] in let l2 := l1 ++ [Timeout Rebind] in let l3 := l2 ++ [Timeout Expire] in
  map (fun l => c_state (after named l)) [l1; l2; l3] = [Renewing; Rebinding; Init]
  /\ match last_actions named l1 with Unicast to _ :: _ => to = SERVER | _ => False end
  /\ sent_with (last_actions named l1) (fun m => ciaddr m = OFFERED /\ get m 50 = None /\ get m 54 = None)
  /\ match armed (last_actions named l1) Retransmit with Some t => (MIN_RENEW_INTERVAL <=? t) = true | None => False end
  /\ match last_actions named l2 with Broadcast _ :: _ => True | _ => False end
  /\ sent_with (last_actions named l2) (fun m => ciaddr m = OFFERED)
  /\ last_actions named l3 = [Deconfigure Expired] /\ c_lease (after named l3) = None.
Definition an_ack_while_renewing_rebinds_the_timers : Prop :=
  let l := to_bound ++ [Timeout Renew; Datagram ACK_CAPTURE] in
  c_state (after named l) = Bound /\ armed (last_actions named l) Expire = Some 43200.
Definition a_nak_drops_the_lease : Prop :=
  let l := [Start CAPTURE_XID; Datagram (offering CAPTURE_XID); Datagram (refusing CAPTURE_XID)] in
  last_actions fresh l = [Deconfigure ReasonNak] /\ c_state (after fresh l) = Init.
Definition ignores_traffic_belonging_to_another_client : Prop :=
  let own := Message_encode (answer BOOTREQUEST UNSPECIFIED CAPTURE_XID [OptMessageType Offer]) in
  let l := [Start CAPTURE_XID; Datagram (offering (Z.lxor CAPTURE_XID 1)); Datagram own] in
  drop 1 (snd (run fresh l)) = [[]; []] /\ c_state (after fresh l) = Selecting.
Definition malformed_datagrams_are_dropped_not_fatal : Prop :=
  let c := after fresh [Start CAPTURE_XID] in
  let l := map (fun n => Datagram (take n ACK_CAPTURE)) (seq 0 (length ACK_CAPTURE)) ++ [Datagram []] in
  forallb (fun a : list Action => match a with [] => true | _ => false end) (snd (run c l)) = true
  /\ c_state (after c l) = Selecting.
(** Four seconds doubling to sixty-four, a second less or more; the seconds
    climb. *)
Definition retransmission_backs_off_and_ages_the_secs_field : Prop :=
  let rounds := snd (run fresh (Start CAPTURE_XID :: replicate (Z.to_nat MAX_TRIES - 1) (Timeout Retransmit))) in
  let waits := map (fun a => default 0 (armed a Retransmit)) rounds in
  let ages := map (fun a => default 0 (secs <$> sent a)) rounds in
  forallb (fun p => bool_decide (snd p = Z.shiftl 4 (Z.of_nat (fst p)) - 1 \/ snd p = Z.shiftl 4 (Z.of_nat (fst p)) + 1))
    (combine (seq 0 4) waits) = true
  /\ forallb (fun p => fst p <? snd p) (combine ages (drop 1 ages)) = true /\ length ages = 4%nat.
Definition gives_up_when_nothing_answers : Prop :=
  let again := replicate (Z.to_nat MAX_TRIES - 1) (Timeout Retransmit) in
  let l1 := Start CAPTURE_XID :: again in
  forallb (fun a : list Action => match a with Broadcast _ :: _ => true | _ => false end) (snd (run fresh l1)) = true
  /\ last_actions fresh (l1 ++ [Timeout Retransmit]) = [Failed] /\ c_state (after fresh (l1 ++ [Timeout Retransmit])) = Init
  /\ c_lease (after fresh (l1 ++ [Timeout Retransmit])) = None
  /\ last_actions fresh (l1 ++ [Timeout Retransmit; Timeout Retransmit]) = []
  /\ let l2 := [Start CAPTURE_XID; Timeout Retransmit; Datagram (offering CAPTURE_XID)] in
     c_state (after fresh l2) = Requesting
     /\ map (fun a => sent a ≫= message_type) (snd (run (after fresh l2) again)) = replicate (Z.to_nat MAX_TRIES - 1) (Some Request)
     /\ last_actions fresh (l2 ++ again ++ [Timeout Retransmit]) = [Failed]
     /\ c_state (after fresh (l2 ++ again ++ [Timeout Retransmit])) = Init.
Definition an_ack_without_a_mask_is_not_a_lease : Prop :=
  from_ack (answer BOOTREPLY OFFERED CAPTURE_XID [OptMessageType Ack; ServerId SERVER; LeaseTime 600]) = Err (Incomplete OPT_SUBNET_MASK).
Definition server_timers_outside_the_lease_fall_back_to_the_defaults : Prop :=
  (fun l => (l_renew_secs l, l_rebind_secs l)) <$> from_ack (answer BOOTREPLY OFFERED CAPTURE_XID
    [OptMessageType Ack; ServerId SERVER; SubnetMask 0xffffff00; LeaseTime 3600; T1 7200; T2 9000]) = Ok (1800, 3150).
Definition an_infinite_lease_does_not_overflow_its_timers : Prop :=
  match from_ack (answer BOOTREPLY OFFERED CAPTURE_XID
    [OptMessageType Ack; ServerId SERVER; SubnetMask 0xffffff00; LeaseTime (2 ^ 32 - 1)]) with
  | Ok l => l_renew_secs l = (2 ^ 32 - 1) / 2 /\ (l_renew_secs l <? l_rebind_secs l) && (l_rebind_secs l <? 2 ^ 32 - 1) = true
  | _ => False
  end.
Definition a_nak_is_reported_as_such : Prop := (Message_decode (refusing CAPTURE_XID) ≫= from_ack) = Err ErrNak.

(** ** ipv6.rs *)

(** A managed advertisement with a link-layer address that is ignored, a /64 good
    for SLAAC and one resolver. *)
Definition advert : bytes :=
  [Ipv6.ROUTER_ADVERTISEMENT; 0; 0x00; 0x00; 64; 0xc0; 0x07; 0x08; 0x00; 0x00; 0x00; 0x00; 0x00; 0x00; 0x00; 0x00]
  ++ [1; 1; 0x00; 0x1c; 0x42; 0x00; 0x00; 0x08]
  ++ [Ipv6.OPT_PREFIX_INFO; 4; 64; 0xc0] ++ be_encode 4 2592000 ++ be_encode 4 604800 ++ [0; 0; 0; 0]
  ++ [0x20; 0x01; 0x0d; 0xb8; 0xac; 0xab; 0; 1; 0; 0; 0; 0; 0; 0; 0; 0]
  ++ [Ipv6.OPT_RDNSS; 3; 0; 0] ++ be_encode 4 1800 ++ [0x26; 0x06; 0x47; 0; 0x47; 0; 0; 0; 0; 0; 0; 0; 0; 0; 0x11; 0x11].
Definition CARD : bytes := [0x00; 0x1c; 0x42; 0x00; 0x00; 0x08].
Definition decodes_flags_lifetimes_and_options : Prop :=
  match Ipv6.RouterAdvert_decode advert with
  | Ok ra => Ipv6.managed ra = true /\ Ipv6.other_config ra = true /\ Ipv6.hop_limit ra = 64 /\ Ipv6.router_lifetime ra = 1800
      /\ match Ipv6.prefixes ra with
         | [p] => Ipv6.prefix_len p = 64 /\ Ipv6.on_link p = true /\ Ipv6.autonomous p = true
             /\ Ipv6.valid_lifetime p = 2592000 /\ Ipv6.preferred_lifetime p = 604800
         | _ => False
         end
      /\ Ipv6.dns ra = [[0x26; 0x06; 0x47; 0; 0x47; 0; 0; 0; 0; 0; 0; 0; 0; 0; 0x11; 0x11]]
  | _ => False
  end.
Definition rejects_anything_that_is_not_an_advertisement : Prop :=
  Ipv6.RouterAdvert_decode (<[0%nat := 133]> advert) = Err Malformed
  /\ Ipv6.RouterAdvert_decode (<[1%nat := 1]> advert) = Err Malformed.
Definition rejects_a_zero_length_option : Prop :=
  Ipv6.RouterAdvert_decode (<[(Ipv6.RA_HDR_LEN + 1)%nat := 0]> advert) = Err Malformed.
Definition rejects_an_option_running_past_the_end : Prop :=
  Ipv6.RouterAdvert_decode (<[(Ipv6.RA_HDR_LEN + 1)%nat := 40]> advert) = Err Malformed.
Definition advert_truncations_never_panic : Prop :=
  existsb (fun n => is_panic (Ipv6.RouterAdvert_decode (take n advert))) (seq 0 (length advert)) = false.
Definition eui64_matches_the_published_example : Prop :=
  Ipv6.eui64_interface_id [0x00; 0x0c; 0x29; 0x0c; 0x47; 0xd5] = [0x02; 0x0c; 0x29; 0xff; 0xfe; 0x0c; 0x47; 0xd5]
  /\ Ipv6.slaac_address ([0xfe; 0x80] ++ replicate 14 0) 64 [0x00; 0x0c; 0x29; 0x0c; 0x47; 0xd5]
     = Some ([0xfe; 0x80; 0; 0; 0; 0; 0; 0; 0x02; 0x0c; 0x29; 0xff; 0xfe; 0x0c; 0x47; 0xd5]).
Definition slaac_needs_a_64_bit_prefix : Prop :=
  let prefix := [0x20; 0x01; 0x0d; 0xb8] ++ replicate 12 0 in
  Ipv6.slaac_address prefix 48 (replicate 6 0) = None /\ Ipv6.slaac_address prefix 128 (replicate 6 0) = None.
Definition a_prefix_without_the_autonomous_flag_yields_no_address : Prop :=
  match Ipv6.RouterAdvert_decode (<[(Ipv6.RA_HDR_LEN + 8 + 3)%nat := Ipv6.PREFIX_ON_LINK]> advert) with
  | Ok ra => Ipv6.autonomous_prefix ra = None /\ map (fun p => Ipv6.slaac p CARD) (Ipv6.prefixes ra) = [None]
  | _ => False
  end.
Definition forms_an_address_from_the_advertised_prefix : Prop :=
  match Ipv6.RouterAdvert_decode advert with
  | Ok ra => (Ipv6.autonomous_prefix ra ≫= fun p => Ipv6.slaac p CARD)
             = Some [0x20; 0x01; 0x0d; 0xb8; 0xac; 0xab; 0; 1; 0x02; 0x1c; 0x42; 0xff; 0xfe; 0x00; 0x00; 0x08]
  | _ => False
  end.

Lemma dhcp_tests_pass : Forall id
  [mask_to_prefix_len; prefix_len_and_mask_agree; round_trips_every_variant; skips_pad_and_stops_at_end;
   accepts_an_area_that_ends_without_the_end_option; rejects_length_past_the_end; rejects_wrong_length_for_a_fixed_option;
   overload_is_reported_not_emitted; option_truncations_never_panic; round_trips; decodes_a_captured_ack;
   rejects_a_missing_cookie; reads_options_out_of_overloaded_fields; message_truncations_never_panic;
   text_fields_stay_inside_their_width; discover_offer_request_ack; captured_ack_yields_the_expected_lease;
   renews_then_rebinds_then_expires; an_ack_while_renewing_rebinds_the_timers; a_nak_drops_the_lease;
   ignores_traffic_belonging_to_another_client; malformed_datagrams_are_dropped_not_fatal;
   retransmission_backs_off_and_ages_the_secs_field; gives_up_when_nothing_answers; an_ack_without_a_mask_is_not_a_lease;
   server_timers_outside_the_lease_fall_back_to_the_defaults; an_infinite_lease_does_not_overflow_its_timers;
   a_nak_is_reported_as_such].
Proof. run_tests. Qed.
Lemma ipv6_tests_pass : Forall id
  [decodes_flags_lifetimes_and_options; rejects_anything_that_is_not_an_advertisement; rejects_a_zero_length_option;
   rejects_an_option_running_past_the_end; advert_truncations_never_panic; eui64_matches_the_published_example;
   slaac_needs_a_64_bit_prefix; a_prefix_without_the_autonomous_flag_yields_no_address;
   forms_an_address_from_the_advertised_prefix].
Proof. run_tests. Qed.
