(* ===== verification/TestsEap.v ===== *)
(** * The tests of the EAP layer, on the model

    The tests of [caw-eapol]'s eap/packet.rs, frag.rs, dot1x.rs, tls/pem.rs,
    tls/mod.rs, tls/provider.rs, ttls.rs and peap.rs, translated and evaluated.
    The method the 802.1X tests drive is theirs, scripted; the TLS tests run where
    no cryptographic provider is installed, as the crate's default build does. *)
From S2P Require Import Prelude Text Bytes Dot11 Crypto Eapol Calls Eap FourWay Dot1x Pem.
From S2P Require Tunnel TlsMethods.

(** What a sequence of calls returned, and what it left. *)
Fixpoint results {S E A} (ms : list (call S E A)) (s : S) : list (exec E A) * S :=
  match ms with
  | [] => ([], s)
  | m :: ms => let (s, r) := m s in let (rs, s) := results ms s in (r :: rs, s)
  end.

(** ** packet.rs *)

Definition request_round_trips : Prop :=
  let wire := [1; 0x42; 0; 7; 1] ++ ascii_of "hi" in
  EapPacket_encode (E := Error) Request 0x42 (eap_type.IDENTITY :: ascii_of "hi") = Ok wire
  /\ match EapPacket_parse wire with
     | Ok p => eap_code p = Request /\ eap_identifier p = 0x42 /\ EapPacket_eap_type p = Some eap_type.IDENTITY
               /\ EapPacket_type_data p = ascii_of "hi"
     | _ => False
     end.
Definition success_has_no_type : Prop :=
  EapPacket_encode (E := Error) Success 9 [] = Ok [3; 9; 0; 4]
  /\ match EapPacket_parse [3; 9; 0; 4] with
     | Ok p => eap_code p = Success /\ EapPacket_eap_type p = None /\ eap_data p = []
     | _ => False
     end.
Definition padding_past_the_declared_length_is_ignored : Prop :=
  match (w ← EapPacket_encode Request 1 [eap_type.IDENTITY]; EapPacket_parse (w ++ replicate 40 0)) with
  | Ok p => eap_data p = [eap_type.IDENTITY] /\ EapPacket_type_data p = []
  | _ => False
  end.
Definition rejects_a_length_that_does_not_cover_the_header : Prop := EapPacket_parse [1; 1; 0; 3] = Err Malformed.
Definition rejects_a_length_longer_than_the_buffer : Prop := EapPacket_parse [1; 1; 0; 32; 1] = Err Malformed.
Definition rejects_a_truncated_header : Prop := EapPacket_parse [1; 1; 0] = Err Malformed.
Definition rejects_an_unknown_code : Prop := EapPacket_parse [9; 1; 0; 4] = Err (UnsupportedEapCode 9).
Definition nak_names_the_method_we_can_do : Prop :=
  match EapPacket_nak 7 [eap_type.PEAP] ≫= EapPacket_parse with
  | Ok p => eap_code p = Response /\ eap_identifier p = 7 /\ EapPacket_eap_type p = Some eap_type.NAK
            /\ EapPacket_type_data p = [eap_type.PEAP]
  | _ => False
  end.
Definition nak_with_nothing_to_offer_says_type_zero : Prop :=
  EapPacket_type_data <$> to_option (EapPacket_nak 7 [] ≫= EapPacket_parse) = Some [0].

Lemma packet_tests_pass : Forall id
  [request_round_trips; success_has_no_type; padding_past_the_declared_length_is_ignored;
   rejects_a_length_that_does_not_cover_the_header; rejects_a_length_longer_than_the_buffer; rejects_a_truncated_header;
   rejects_an_unknown_code; nak_names_the_method_we_can_do; nak_with_nothing_to_offer_says_type_zero].
Proof. run_tests. Qed.

(** ** frag.rs *)

Definition frag (flags : Z) (declared : option Z) (data : bytes) : bytes :=
  flags :: from_option (be_encode 4) [] declared ++ data.
Definition push (wire : bytes) : call Reassembler Error (option bytes) :=
  fragment ← lift (Fragment_parse wire); Reassembler_push fragment.
Definition pushes (wires : list bytes) : list (exec Error (option bytes)) * bool :=
  let (rs, r) := results (map push wires) Reassembler_new in (rs, Reassembler_in_progress r).
Definition FIRST : Z := Z.lor FLAG_LENGTH_INCLUDED FLAG_MORE_FRAGMENTS.

Definition an_unfragmented_message_arrives_whole : Prop :=
  pushes [frag 0 None (ascii_of "hello")] = ([Ok (Some (ascii_of "hello"))], false).
Definition three_fragments_reassemble_in_order : Prop :=
  let a := frag FIRST (Some 9) (ascii_of "abc") in
  let b := frag FLAG_MORE_FRAGMENTS None (ascii_of "def") in
  let c := frag 0 None (ascii_of "ghi") in
  pushes [a] = ([Ok None], true)
  /\ pushes [a; b; c] = ([Ok None; Ok None; Ok (Some (ascii_of "abcdefghi"))], false).
Definition rejects_a_continuation_fragment_with_nothing_in_progress : Prop :=
  fst (pushes [frag FLAG_MORE_FRAGMENTS None (ascii_of "def")]) = [Err FragmentOutOfOrder].
Definition rejects_a_restart_in_the_middle_of_a_message : Prop :=
  let a := frag FIRST (Some 6) (ascii_of "abc") in fst (pushes [a; a]) = [Ok None; Err FragmentOutOfOrder].
Definition rejects_more_data_than_the_first_fragment_declared : Prop :=
  pushes [frag FIRST (Some 4) (ascii_of "abc"); frag 0 None (ascii_of "defgh")] = ([Ok None; Err FragmentTooLarge], false).
Definition rejects_a_final_fragment_short_of_the_declared_length : Prop :=
  fst (pushes [frag FIRST (Some 16) (ascii_of "abc"); frag 0 None (ascii_of "def")]) = [Ok None; Err FragmentTooLarge].
Definition rejects_an_absurd_declared_length : Prop :=
  fst (pushes [frag FIRST (Some (2 ^ 32 - 1)) (ascii_of "a")]) = [Err FragmentTooLarge].
Definition a_message_with_no_declared_length_still_completes : Prop :=
  pushes [frag 0 None (replicate 8 0)] = ([Ok (Some (replicate 8 0))], false).
Definition rejects_a_length_flag_with_no_length_behind_it : Prop :=
  Fragment_parse [FLAG_LENGTH_INCLUDED; 0; 0] = Err Malformed.
Definition rejects_an_empty_type_data : Prop := Fragment_parse [] = Err Malformed.
Definition version_bits_are_readable_for_mirroring : Prop :=
  match Fragment_parse [Z.lor FLAG_START 1] with
  | Ok f => Fragment_start f = true /\ Fragment_version f = 1
  | _ => False
  end.

(** The loop of [fragmenter_and_reassembler_agree]: a fragment is cut, pushed and
    acknowledged until the message is whole. *)
Fixpoint exchange_fragments (fuel : nat) (rounds : nat) (out : Fragmenter) (r : Reassembler)
  : option (bytes * nat * Fragmenter) :=
  match fuel with
  | O => None
  | S fuel =>
      match Fragmenter_next (E := Error) 0 out with
      | (out, Ok (Some wire)) =>
          match push wire r with
          | (_, Ok (Some done)) => Some (done, S rounds, out)
          | (r, Ok None) => if Fragmenter_is_empty out then None else exchange_fragments fuel (S rounds) out r
          | _ => None
          end
      | _ => None
      end
  end.
Definition fragmenter_and_reassembler_agree : Prop :=
  let message := map (fun i => Z.of_nat i mod 256) (seq 0 5000) in
  match exchange_fragments 8 0 (Fragmenter_queue message (Fragmenter_new 1398)) Reassembler_new with
  | Some (reassembled, rounds, out) =>
      reassembled = message /\ rounds = 4%nat /\ Fragmenter_is_empty out = true
      /\ snd (Fragmenter_next (E := Error) 0 out) = Ok None
  | None => False
  end.
Definition a_single_fragment_message_omits_the_length : Prop :=
  snd (Fragmenter_next (E := Error) 0 (Fragmenter_queue (ascii_of "short") (Fragmenter_new 1398)))
  = Ok (Some (0 :: ascii_of "short")).
Definition base_flags_are_carried_into_every_fragment : Prop :=
  map (fun r => to_option r ≫= fun w => w ≫= head)
    (fst (results [Fragmenter_next (E := Error) 1; Fragmenter_next 1]
            (Fragmenter_queue (ascii_of "abcdefgh") (Fragmenter_new 4))))
  = [Some (Z.lor FIRST 1); Some 1].

Definition exchange_reply (step : exec Error Incoming) : option bytes :=
  match step with Ok (Reply td) => Some td | _ => None end.
Definition on_requests (wires : list bytes) (x : Exchange) : list (exec Error Incoming) :=
  fst (results (map Exchange_on_request wires) x).
(** The exchange after [send(b"abcdefgh")], in fragments of four octets. *)
Definition half_sent : Exchange := fst (Exchange_send (E := Error) (ascii_of "abcdefgh") (Exchange_new 4 false)).

Definition a_start_flag_drops_a_partial_message : Prop :=
  on_requests [frag FIRST (Some 9) (ascii_of "abc"); [FLAG_START]; frag 0 None (ascii_of "hello")] (Exchange_new 1398 false)
  = [Ok (Reply [0]); Ok Restart; Ok (Message (ascii_of "hello"))].
Definition an_inbound_message_is_acknowledged_until_it_is_whole : Prop :=
  on_requests [frag FIRST (Some 6) (ascii_of "abc"); frag 0 None (ascii_of "def")] (Exchange_new 1398 false)
  = [Ok (Reply [0]); Ok (Message (ascii_of "abcdef"))].
Definition an_outbound_message_is_driven_by_the_peers_acknowledgements : Prop :=
  snd (Exchange_send (E := Error) (ascii_of "abcdefgh") (Exchange_new 4 false))
  = Ok (Some ([FIRST; 0; 0; 0; 8] ++ ascii_of "abcd"))
  /\ match on_requests [[0]; frag 0 None (ascii_of "ok")] half_sent with
     | [first; second] => exchange_reply first = Some (0 :: ascii_of "efgh") /\ second = Ok (Message (ascii_of "ok"))
     | _ => False
     end.
Definition rejects_data_where_an_acknowledgement_belongs : Prop :=
  on_requests [frag 0 None (ascii_of "surprise")] half_sent = [Err FragmentOutOfOrder].
Definition an_oversized_declaration_is_refused_at_the_exchange : Prop :=
  on_requests [frag FIRST (Some (2 ^ 32 - 1)) (ascii_of "a")] (Exchange_new 1398 false) = [Err FragmentTooLarge].
Definition the_peers_version_is_mirrored_only_when_the_method_has_one : Prop :=
  let peap := fst (Exchange_on_request [Z.lor FLAG_START 1] (Exchange_new 1398 true)) in
  let eap_tls := fst (Exchange_on_request [Z.lor FLAG_START 1] (Exchange_new 1398 false)) in
  ex_base_flags peap = 1 /\ Exchange_empty_reply peap = [1] /\ ex_base_flags eap_tls = 0.
Definition sending_nothing_yields_no_fragment : Prop :=
  snd (Exchange_send (E := Error) [] (Exchange_new 1398 false)) = Ok None.

Lemma frag_tests_pass : Forall id
  [an_unfragmented_message_arrives_whole; three_fragments_reassemble_in_order;
   rejects_a_continuation_fragment_with_nothing_in_progress; rejects_a_restart_in_the_middle_of_a_message;
   rejects_more_data_than_the_first_fragment_declared; rejects_a_final_fragment_short_of_the_declared_length;
   rejects_an_absurd_declared_length; a_message_with_no_declared_length_still_completes;
   rejects_a_length_flag_with_no_length_behind_it; rejects_an_empty_type_data; version_bits_are_readable_for_mirroring;
   fragmenter_and_reassembler_agree; a_single_fragment_message_omits_the_length;
   base_flags_are_carried_into_every_fragment; a_start_flag_drops_a_partial_message;
   an_inbound_message_is_acknowledged_until_it_is_whole; an_outbound_message_is_driven_by_the_peers_acknowledgements;
   rejects_data_where_an_acknowledgement_belongs; an_oversized_declaration_is_refused_at_the_exchange;
   the_peers_version_is_mirrored_only_when_the_method_has_one; sending_nothing_yields_no_fragment].
Proof. run_tests. Qed.

(** ** dot1x.rs *)

(** A method that records what it was handed and answers with a fixed script. *)
Record ScriptedMethod := {
  sm_type_code : Z; sm_seen : list bytes; sm_replies : list (option bytes); sm_msk : option bytes
}.
Definition ScriptedMethod_on_request (data : bytes) : call ScriptedMethod Error (option bytes) := fun m =>
  ({| sm_type_code := sm_type_code m; sm_seen := sm_seen m ++ [data]; sm_replies := tail (sm_replies m);
      sm_msk := sm_msk m |},
   Ok (default (Some (ascii_of "ok")) (head (sm_replies m)))).
#[export] Instance scripted : EapMethod ScriptedMethod := {
  type_code := sm_type_code; em_on_request := ScriptedMethod_on_request; msk := sm_msk
}.
Definition scripted_method (replies : list (option bytes)) (msk : option bytes) : ScriptedMethod :=
  {| sm_type_code := eap_type.PEAP; sm_seen := []; sm_replies := replies; sm_msk := msk |}.

Definition ctx : AuthContext :=
  {| ctx_ssid := ascii_of "Enterprise"; ctx_bssid := [0x02; 0; 0; 0; 1; 0]; ctx_own_mac := [0x02; 0; 0; 0; 2; 0];
     ctx_akm := Dot11.Psk |}.
Definition framed (version : Z) (t : PacketType) (packet : exec Error bytes) : bytes :=
  default [] (to_option (packet ≫= Eapol_encode version t)).
Definition request (id ty : Z) (type_data : bytes) : bytes := framed 2 PtEap (EapPacket_encode Request id (ty :: type_data)).
Definition bare (id : Z) (code : EapCode) : bytes := framed 2 PtEap (EapPacket_encode code id []).
(** The EAP packet in a [Step::Send]. *)
Definition sent (step : exec Crypto.Error Step) : option EapPacket :=
  match step with
  | Ok (Crypto.Send frame) =>
      match Eapol_parse frame with
      | Ok e => if bool_decide (eapol_packet_type e = PtEap) then to_option (EapPacket_parse (eapol_body e)) else None
      | _ => None
      end
  | _ => None
  end.
Definition a_provider (m : ScriptedMethod) : Dot1xProvider ScriptedMethod :=
  Dot1x_new (ascii_of "anonymous@example.net") m.
(** The frames a provider is handed, what it answers, and what it is afterwards. *)
Definition frames (fs : list bytes) (m : ScriptedMethod) : list (exec Crypto.Error Step) * Dot1xProvider ScriptedMethod :=
  let (dx, rs) := Dot1x_run (map InFrame fs) (a_provider m) in (rs, dx).
Definition unscripted : ScriptedMethod := scripted_method [] None.
(** The answer to one frame: its type and its data. *)
Definition typed (p : EapPacket) : option Z * bytes := (EapPacket_eap_type p, EapPacket_type_data p).
Definition answer (frame : bytes) (m : ScriptedMethod) : option (EapCode * Z * (option Z * bytes)) :=
  r ← head (fst (frames [frame] m)); p ← sent r; Some (eap_code p, eap_identifier p, typed p).

Definition runs_after_association_and_waits_for_the_authenticator : Prop :=
  pp_stage (a_provider unscripted) = PostAssoc /\ snd (pp_start (a_provider unscripted) ctx) = Ok Crypto.Wait.
Definition answers_identity_with_the_configured_identity : Prop :=
  answer (request 1 eap_type.IDENTITY []) unscripted
  = Some (Response, 1, (Some eap_type.IDENTITY, ascii_of "anonymous@example.net")).
Definition naks_a_method_it_cannot_run_and_names_the_one_it_can : Prop :=
  answer (request 2 4 [0x10]) unscripted = Some (Response, 2, (Some eap_type.NAK, [eap_type.PEAP])).
Definition dispatches_the_negotiated_method_and_prepends_its_type : Prop :=
  let frame := request 3 eap_type.PEAP [FLAG_START] in
  answer frame unscripted = Some (Response, 3, (Some eap_type.PEAP, ascii_of "ok"))
  /\ sm_seen (method (snd (frames [frame] unscripted))) = [[FLAG_START]].
Definition answers_a_notification_so_the_exchange_does_not_stall : Prop :=
  answer (request 4 eap_type.NOTIFICATION (ascii_of "hello")) unscripted
  = Some (Response, 4, (Some eap_type.NOTIFICATION, [])).
Definition a_method_that_returns_nothing_produces_no_frame : Prop :=
  fst (frames [request 5 eap_type.PEAP [0]] (scripted_method [None] None)) = [Ok Crypto.Wait].
Definition a_repeated_request_replays_the_answer_without_re_running_the_method : Prop :=
  let frame := request 6 eap_type.PEAP [0xaa] in
  match frames [frame; frame] unscripted with
  | ([first; again], dx) => is_some (sent first) = true /\ first = again /\ length (sm_seen (method dx)) = 1%nat
  | _ => False
  end.
Definition a_new_identifier_re_enters_the_method : Prop :=
  length (sm_seen (method (snd (frames [request 7 eap_type.PEAP [1]; request 8 eap_type.PEAP [2]] unscripted)))) = 2%nat.
Definition success_after_key_material_yields_the_first_half_of_the_msk : Prop :=
  let msk := map Z.of_nat (seq 0 64) in
  fst (frames [bare 9 Success] (scripted_method [] (Some msk))) = [Ok (Crypto.Done (take 32 msk))].
Definition rejects_a_success_that_arrives_before_any_key_material : Prop :=
  map is_err (fst (frames [bare 9 Success; request 10 eap_type.IDENTITY []] unscripted)) = [true; true].
Definition failure_ends_the_exchange : Prop := fst (frames [bare 9 Failure] unscripted) = [Err AuthFailed].
Definition ignores_eapol_key_frames_before_and_after_completion : Prop :=
  let key_frame := framed 2 PtKey (Ok (replicate 95 0)) in
  fst (frames [key_frame; bare 9 Success; key_frame] (scripted_method [] (Some (replicate 64 7))))
  = [Ok Crypto.Wait; Ok (Crypto.Done (replicate 32 7)); Ok Crypto.Wait].
Definition ignores_its_own_responses : Prop :=
  fst (frames [framed 2 PtEap (EapPacket_response 1 eap_type.IDENTITY (ascii_of "anonymous@example.net"))] unscripted)
  = [Ok Crypto.Wait].
Definition mirrors_the_authenticators_protocol_version : Prop :=
  match fst (frames [framed 1 PtEap (EapPacket_encode Request 1 [eap_type.IDENTITY])] unscripted) with
  | [Ok (Crypto.Send out)] => head out = Some 1
  | _ => False
  end.
Definition silence_eventually_fails_instead_of_hanging : Prop :=
  snd (Dot1x_run (replicate (Z.to_nat RETRY_LIMIT) InTimeout) (a_provider unscripted))
  = replicate (Z.to_nat RETRY_LIMIT) (Ok Crypto.Wait)
  /\ is_err (snd (Dot1x_on_timeout
       (fst (Dot1x_run (replicate (Z.to_nat RETRY_LIMIT) InTimeout) (a_provider unscripted))))) = true.
Definition rejects_a_malformed_eap_packet : Prop :=
  map is_err (fst (frames [framed 2 PtEap (Ok [1; 1; 0; 64; 1])] unscripted)) = [true].
Definition eapol_start_is_available_for_authenticators_that_need_prompting : Prop :=
  match Dot1x_eapol_start (a_provider unscripted) ≫= Eapol_parse with
  | Ok parsed => eapol_packet_type parsed = PtStart /\ eapol_body parsed = []
  | _ => False
  end.

Lemma dot1x_tests_pass : Forall id
  [runs_after_association_and_waits_for_the_authenticator; answers_identity_with_the_configured_identity;
   naks_a_method_it_cannot_run_and_names_the_one_it_can; dispatches_the_negotiated_method_and_prepends_its_type;
   answers_a_notification_so_the_exchange_does_not_stall; a_method_that_returns_nothing_produces_no_frame;
   a_repeated_request_replays_the_answer_without_re_running_the_method; a_new_identifier_re_enters_the_method;
   success_after_key_material_yields_the_first_half_of_the_msk; rejects_a_success_that_arrives_before_any_key_material;
   failure_ends_the_exchange; ignores_eapol_key_frames_before_and_after_completion; ignores_its_own_responses;
   mirrors_the_authenticators_protocol_version; silence_eventually_fails_instead_of_hanging; rejects_a_malformed_eap_packet;
   eapol_start_is_available_for_authenticators_that_need_prompting].
Proof. run_tests. Qed.

(** ** tls/pem.rs *)

Definition lines (ls : list string) : bytes := concat (map (fun l => ascii_of l ++ [10]) ls).
Definition ONE : bytes := lines ["-----BEGIN CERTIFICATE-----"; "TWFu"; "-----END CERTIFICATE-----"]%string.

Definition decodes_a_block : Prop := certificates ONE = Ok [ascii_of "Man"].
Definition decodes_every_block_in_a_bundle : Prop :=
  certificates (ONE ++ lines ["some noise between blocks"%string] ++ ONE) = Ok [ascii_of "Man"; ascii_of "Man"].
Definition handles_every_padding_length : Prop :=
  map (fun s => base64_decode (ascii_of s)) [""; "Zg=="; "Zm8="; "Zm9v"; "Zm9vYg=="; "Zm9vYmE="; "Zm9vYmFy"]%string
  = map (fun s => Ok (ascii_of s)) [""; "f"; "fo"; "foo"; "foob"; "fooba"; "foobar"]%string.
Definition ignores_the_line_wrapping_pem_adds : Prop :=
  base64_decode (ascii_of "Zm9v" ++ [10] ++ ascii_of "  Ym" ++ [9] ++ ascii_of "Fy" ++ [13; 10]) = Ok (ascii_of "foobar").
Definition rejects_junk : Prop :=
  map (fun s => is_err (base64_decode (ascii_of s))) ["Zm9*"; "Zg==Zg=="; "Z"]%string = [true; true; true].
Definition rejects_an_unterminated_block : Prop :=
  is_err (blocks (lines ["-----BEGIN CERTIFICATE-----"; "TWFu"]%string) "CERTIFICATE") = true.
Definition rejects_a_pem_file_with_no_certificate_in_it : Prop :=
  is_err (certificates (lines ["# nothing here"%string])) = true.

Lemma pem_tests_pass : Forall id
  [decodes_a_block; decodes_every_block_in_a_bundle; handles_every_padding_length; ignores_the_line_wrapping_pem_adds;
   rejects_junk; rejects_an_unterminated_block; rejects_a_pem_file_with_no_certificate_in_it].
Proof. run_tests. Qed.

(** ** tls/mod.rs and tls/provider.rs *)

(** Where no provider was installed. *)
Definition unprovided : Tunnel.TlsSetup Tunnel.TlsDemo.connection := {|
  Tunnel.CryptoProvider := unit; Tunnel.get_default := None; Tunnel.WantsVerifier := bool;
  Tunnel.ClientConfig := bool * Tunnel.Verifier;
  Tunnel.with_protocol_versions _ tls12 := Ok tls12; Tunnel.root_add _ := None;
  Tunnel.with_client_auth_cert v r _ := Ok (v, r); Tunnel.with_no_client_auth v r := (v, r);
  Tunnel.server_name_error _ := None;
  Tunnel.connection_new _ _ := Ok Tunnel.TlsDemo.fresh;
|}.
Section tls.
Import Tunnel.TlsDemo.
#[local] Existing Instance unprovided.

Definition new_config : Tunnel.TlsConfig connection := Tunnel.TlsConfig_new (ascii_of "radius.example.net").
(** [cfg.danger_accept_any_server_certificate = true] *)
Definition insecure (cfg : Tunnel.TlsConfig connection) : Tunnel.TlsConfig connection :=
  {| Tunnel.server_name := Tunnel.server_name cfg; Tunnel.ca_certificates := Tunnel.ca_certificates cfg;
     Tunnel.client_certificate := Tunnel.client_certificate cfg; Tunnel.crypto_provider := Tunnel.crypto_provider cfg;
     Tunnel.fragment_size := Tunnel.fragment_size cfg; Tunnel.danger_accept_any_server_certificate := true |}.
Definition no_provider {A} (m : exec Error A) : bool :=
  match m with Err NoCryptoProvider => true | _ => false end.

Definition a_config_with_no_ca_refuses_to_build : Prop :=
  Tunnel.danger_accept_any_server_certificate new_config = false
  /\ match Tunnel.TlsConfig_build new_config false with
     | Err (CertificateStore _) | Err NoCryptoProvider => True
     | _ => False
     end.
Definition the_insecure_switch_has_to_be_named_to_be_reached : Prop :=
  no_provider (Tunnel.TlsConfig_build (insecure new_config) false) = true.
Definition every_method_reports_a_missing_provider : Prop :=
  no_provider (TlsMethods.EapTls_new (insecure new_config)) = true
  /\ no_provider (TlsMethods.Peap_new (Ok (replicate 32 0)) (insecure new_config) (ascii_of "user") (ascii_of "pass")) = true
  /\ no_provider (TlsMethods.Ttls_new (insecure new_config) (ascii_of "user") (ascii_of "pass")) = true.
Definition a_ca_bundle_loads_from_pem : Prop :=
  Tunnel.ca_certificates <$> to_option (Tunnel.with_ca_pem ONE new_config) = Some [ascii_of "Man"].
Definition refuses_to_invent_a_provider : Prop := no_provider (Tunnel.resolve None) = true.
End tls.

Lemma tls_tests_pass : Forall id
  [a_config_with_no_ca_refuses_to_build; the_insecure_switch_has_to_be_named_to_be_reached;
   every_method_reports_a_missing_provider; a_ca_bundle_loads_from_pem; refuses_to_invent_a_provider].
Proof. run_tests. Qed.

(** ** ttls.rs and peap.rs *)

Import TlsMethods.

Definition an_avp_carries_its_code_flags_and_length : Prop :=
  encode_avp AVP_USER_NAME (ascii_of "user@example.net")
  = be_encode 4 1 ++ [AVP_FLAG_MANDATORY] ++ [0; 0; 24] ++ ascii_of "user@example.net".
Definition padding_aligns_the_next_avp_without_being_counted : Prop :=
  let wire := encode_avp AVP_USER_NAME (ascii_of "abc") in
  take 3 (drop 5 wire) = [0; 0; 11] /\ length wire = 12%nat /\ drop 11 wire = [0].
Definition a_password_is_padded_to_a_multiple_of_sixteen : Prop :=
  map (fun p => be_decode (take 3 (drop 5 (encode_avp AVP_USER_PASSWORD (padded_password (ascii_of p)))))
                - Z.of_nat AVP_HDR_LEN) ["short"; "exactly16chars!!"; "seventeen chars!!"]%string
  = [16; 16; 32].
Definition an_empty_password_still_gets_an_avp : Prop :=
  let wire := encode_avp AVP_USER_PASSWORD [] in
  length wire = AVP_HDR_LEN /\ take 3 (drop 5 wire) = [0; 0; 8].

Definition result_tlv_round_trips : Prop :=
  find_result_tlv (result_tlv TLV_RESULT_SUCCESS) = Some TLV_RESULT_SUCCESS
  /\ find_result_tlv (result_tlv TLV_RESULT_FAILURE) = Some TLV_RESULT_FAILURE.
Definition the_result_tlv_is_mandatory : Prop :=
  Z.land (default 0 (head (result_tlv TLV_RESULT_SUCCESS))) 0x80 = 0x80.
Definition finds_the_result_among_other_tlvs : Prop :=
  find_result_tlv ([0x80; 0x0c; 0x00; 0x03; 1; 2; 3] ++ result_tlv TLV_RESULT_SUCCESS) = Some TLV_RESULT_SUCCESS.
Definition ignores_a_tlv_run_with_no_result_in_it : Prop := find_result_tlv [0x80; 0x0c; 0x00; 0x02; 1; 2] = None.
Definition rejects_a_tlv_longer_than_its_buffer : Prop := find_result_tlv [0x80; 0x03; 0x00; 0x40; 0; 1] = None.

Lemma tunnelled_tests_pass : Forall id
  [an_avp_carries_its_code_flags_and_length; padding_aligns_the_next_avp_without_being_counted;
   a_password_is_padded_to_a_multiple_of_sixteen; an_empty_password_still_gets_an_avp; result_tlv_round_trips;
   the_result_tlv_is_mandatory; finds_the_result_among_other_tlvs; ignores_a_tlv_run_with_no_result_in_it;
   rejects_a_tlv_longer_than_its_buffer].
Proof. run_tests. Qed.
