(* ===== verification/TestsCore.v ===== *)
(** * The tests of [caw-core]'s leaves, on the model

    The tests of profile.rs, policy.rs and rsn.rs, with the fixtures they take from
    tests.rs, translated and evaluated.  The JSON text itself is serde's, so the
    store is run over a code of its own and what is stored is compared after it is
    read back. *)
From S2P Require Import Prelude Text Bytes Dot11 Netlink Nl80211 Profile Policy.

(** ** The fixtures of tests.rs *)

(** An RSN element as an access point would beacon it: CCMP for both keys. *)
Definition rsn_element (akms : list Akm) (mfp_required : bool) : bytes :=
  let body := le_encode 2 1 ++ be_encode 4 WLAN_CIPHER_SUITE_CCMP ++ le_encode 2 1 ++ be_encode 4 WLAN_CIPHER_SUITE_CCMP
    ++ le_encode 2 (Z.of_nat (length akms)) ++ concat (map (fun akm => be_encode 4 (akm_suite akm)) akms)
    ++ le_encode 2 (if mfp_required then 0xc0 else 0) in
  [48; len body] ++ body.
Definition rsn_of (akms : list Akm) (mfp_required : bool) : option RsnIe :=
  to_option (RsnIe_parse (rsn_element akms mfp_required)).
(** One scan result; the security level decides which AKMs the beacon carries. *)
Definition bss (bssid : Z) (ssid : string) (signal_dbm : Z) (security : Security) : Bss :=
  let rsn := match security with
    | Wpa2Personal => rsn_of [Psk] false
    | Wpa3Personal => rsn_of [Sae] true
    | Wpa2Wpa3Personal => rsn_of [Sae; Psk] false
    | Wpa2Enterprise => rsn_of [Dot1x] false
    | _ => None
    end in
  {| bss_bssid := replicate 6 bssid; bss_ssid := ascii_of ssid; bss_freq_mhz := 2437; bss_signal_dbm := signal_dbm;
     bss_last_seen_ms := 0; bss_capability := if is_some rsn then 16 else 0; bss_security := security; bss_rsn := rsn |}.

(** ** profile.rs *)

Definition psk_profile (ssid : bytes) : Profile := Profile_new ssid Wpa2Personal (Passphrase (ascii_of "ThisIsAPassword")).
Definition HomeNet : bytes := ascii_of "HomeNet".

Section store.
#[local] Instance a_json : Json := {
  to_json p := Some [Zpos (encode p)];
  from_json b := match b with [Zpos n] => decode n | _ => None end;
}.

(** [save(..).unwrap()] *)
Definition saved (p : Profile) (fs : Fs) : Fs := match save p with Ok steps => fs_run fs steps | _ => None end.
Definition written (name : bytes) (content : bytes) (fs : Fs) : Fs := <[name := content]> <$> fs.

Definition round_trips_through_the_store : Prop :=
  let fs := saved (psk_profile HomeNet) None in
  let (first, fs') := delete_profile fs HomeNet in
  load None HomeNet = Ok None /\ load fs HomeNet = Ok (Some (psk_profile HomeNet))
  /\ first = true /\ fst (delete_profile fs' HomeNet) = false.
Definition a_non_utf8_ssid_survives : Prop :=
  let ssid := [0xff; 47; 0x00; 46; 0x80] in
  let fs := saved (psk_profile ssid) None in
  load fs ssid = Ok (Some (psk_profile ssid)) /\ p_ssid (psk_profile ssid) = ssid /\ load_all fs = [psk_profile ssid].
Definition file_names_escape_what_a_path_cannot_hold : Prop :=
  map (fun s => file_name (ascii_of s)) ["HomeNet"; "../etc"; "a b"]%string
  = map ascii_of ["HomeNet.json"; "%2E%2E%2Fetc.json"; "a%20b.json"]%string
  /\ map (fun ssid => ssid_from_file_name (file_name ssid)) (map ascii_of ["HomeNet"; "../etc"; "a b"]%string ++ [[0xff; 0x00]])
     = map Some (map ascii_of ["HomeNet"; "../etc"; "a b"]%string ++ [[0xff; 0x00]])
  /\ ssid_from_file_name (ascii_of "HomeNet.json.tmp") = None /\ ssid_from_file_name (ascii_of ".json") = None.
Definition overwriting_leaves_no_debris : Prop :=
  let second := Profile_new HomeNet Wpa2Personal (Passphrase (ascii_of "another")) in
  let fs := saved second (saved (psk_profile HomeNet) None) in
  load fs HomeNet = Ok (Some second) /\ (map fst ∘ map_to_list) <$> fs = Some [ascii_of "HomeNet.json"].
Definition an_unreadable_file_does_not_hide_the_rest : Prop :=
  p_ssid <$> load_all (written (ascii_of "notes.txt") (ascii_of "ignored")
    (written (ascii_of "Broken.json") (ascii_of "{ not json") (saved (psk_profile HomeNet) None)))
  = [HomeNet].
Definition an_empty_ssid_is_refused : Prop := save (psk_profile []) = Err EmptySsid.
End store.

(** The fields of a stored profile that this crate spells itself. *)
Definition the_stored_fields_are_readable : Prop :=
  ssid_serialize (E := Error) HomeNet = Ok (ascii_of "HomeNet")
  /\ security_serialize (p_security (psk_profile HomeNet)) = ascii_of "WPA2-Personal"
  /\ p_autoconnect (psk_profile HomeNet) = true
  /\ security_serialize (p_min_security (psk_profile HomeNet)) = ascii_of "WPA2-Personal".
Definition a_transition_network_records_its_weaker_half : Prop :=
  let profile := Profile_new HomeNet Wpa2Wpa3Personal (Passphrase (ascii_of "x")) in
  p_min_security profile = Wpa2Personal
  /\ map (accepts profile) [Wpa3Personal; Wpa2Personal; Open] = [true; true; false].

Lemma profile_tests_pass : Forall id
  [round_trips_through_the_store; a_non_utf8_ssid_survives; file_names_escape_what_a_path_cannot_hold;
   overwriting_leaves_no_debris; an_unreadable_file_does_not_hide_the_rest; an_empty_ssid_is_refused;
   the_stored_fields_are_readable; a_transition_network_records_its_weaker_half].
Proof. run_tests. Qed.

(** ** policy.rs *)

Definition passphrase : Credential := Passphrase (ascii_of "ThisIsAPassword").
Definition chosen (b : option Bss) : option bytes := bss_bssid <$> b.
(** The tests hold with the feature [enterprise] and without it. *)
Definition choices (akms : list Akm) : list (option (option Akm)) :=
  map (fun enterprise => rsn ← rsn_of akms false; Some (choose_akm enterprise rsn (Some passphrase))) [false; true].
Definition pairwise (ciphers : list Cipher) : option (option Cipher) :=
  rsn ← rsn_of [Psk] false;
  Some (choose_pairwise
    {| rsn_version := rsn_version rsn; rsn_group_cipher := rsn_group_cipher rsn; rsn_pairwise_ciphers := ciphers;
       rsn_akms := rsn_akms rsn; rsn_capabilities := rsn_capabilities rsn; rsn_mfp_capable := rsn_mfp_capable rsn;
       rsn_mfp_required := rsn_mfp_required rsn; rsn_group_mgmt_cipher := rsn_group_mgmt_cipher rsn;
       rsn_raw := rsn_raw rsn |}).

Definition the_strongest_bss_wins_within_one_ssid : Prop :=
  let scan := [bss 1 "HomeNet" (-70) Wpa2Personal; bss 2 "HomeNet" (-40) Wpa2Personal; bss 3 "Other" (-20) Wpa2Personal] in
  chosen (best_bss scan HomeNet) = Some (replicate 6 2) /\ best_bss scan (ascii_of "Absent") = None.
Definition an_unknown_signal_sorts_last : Prop :=
  chosen (best_bss [bss 1 "HomeNet" UNKNOWN_SIGNAL Wpa2Personal; bss 2 "HomeNet" (-90) Wpa2Personal] HomeNet)
  = Some (replicate 6 2).
Definition a_known_network_beats_a_stronger_unknown_one : Prop :=
  chosen (fst <$> best_known [bss 1 "Cafe" (-20) Wpa2Personal; bss 2 "HomeNet" (-75) Wpa2Personal]
                    [Profile_new HomeNet Wpa2Personal passphrase])
  = Some (replicate 6 2).
Definition autoconnect_off_is_not_a_candidate : Prop :=
  best_known [bss 2 "HomeNet" (-75) Wpa2Personal]
    [{| p_ssid := HomeNet; p_security := Wpa2Personal; p_credential := passphrase; p_autoconnect := false;
        p_min_security := Wpa2Personal |}] = None.
Definition roaming_needs_a_margin : Prop :=
  roam_target [bss 1 "HomeNet" (-60) Wpa2Personal; bss 2 "HomeNet" (-55) Wpa2Personal] HomeNet (replicate 6 1) (-60) = None
  /\ chosen (roam_target [bss 1 "HomeNet" (-60) Wpa2Personal; bss 2 "HomeNet" (-40) Wpa2Personal] HomeNet (replicate 6 1) (-60))
     = Some (replicate 6 2).
Definition transition_mode_picks_sae : Prop :=
  choices [Sae; Psk] = [Some (Some Sae); Some (Some Sae)] /\ negotiated_security Sae false = Wpa3Personal.
Definition a_passphrase_is_no_use_on_an_enterprise_network : Prop := choices [Dot1x] = [Some None; Some None].
Definition fast_transition_is_never_chosen : Prop :=
  choices [FtSae; FtPsk; Psk] = [Some (Some Psk); Some (Some Psk)] /\ choices [FtSae; FtPsk] = [Some None; Some None].
Definition only_128_bit_ciphers_are_asked_for : Prop :=
  pairwise [Ccmp256; Gcmp256; Tkip] = Some None /\ pairwise [Tkip; Ccmp128] = Some (Some Ccmp128).
Definition the_ordering_puts_open_at_the_bottom : Prop :=
  map (fun '(a, b) => is_at_least a b)
    [(Wpa3Personal, Wpa2Personal); (Open, Wpa2Personal); (Wep, Wpa2Personal); (Wpa1Personal, Wpa2Personal); (Open, Open)]
  = [true; false; false; false; true].

Lemma policy_tests_pass : Forall id
  [the_strongest_bss_wins_within_one_ssid; an_unknown_signal_sorts_last; a_known_network_beats_a_stronger_unknown_one;
   autoconnect_off_is_not_a_candidate; roaming_needs_a_margin; transition_mode_picks_sae;
   a_passphrase_is_no_use_on_an_enterprise_network; fast_transition_is_never_chosen; only_128_bit_ciphers_are_asked_for;
   the_ordering_puts_open_at_the_bottom].
Proof. run_tests. Qed.

(** ** rsn.rs *)

Definition psk : StationRsn :=
  {| st_group := Ccmp128; st_pairwise := Ccmp128; st_akm := Psk; st_mfp_capable := false; st_mfp_required := false;
     st_pmkid := None; st_group_mgmt := None |}.
Definition wpa2_psk_element_is_wire_exact : Prop :=
  StationRsn_encode (E := Error) psk
  = Ok [0x30; 0x14; 0x01; 0x00; 0x00; 0x0f; 0xac; 0x04; 0x01; 0x00; 0x00; 0x0f; 0xac; 0x04;
        0x01; 0x00; 0x00; 0x0f; 0xac; 0x02; 0x00; 0x00].
Definition sae_element_carries_mfp_and_the_pmkid : Prop :=
  let sae := {| st_group := Ccmp128; st_pairwise := Ccmp128; st_akm := Sae; st_mfp_capable := true; st_mfp_required := true;
                st_pmkid := Some (replicate 16 0xab); st_group_mgmt := Some BipCmac128 |} in
  match (element ← StationRsn_encode sae; parsed ← RsnIe_parse element; Ok (element, parsed)) with
  | Ok (element, parsed) =>
      rsn_akms parsed = [Sae] /\ rsn_pairwise_ciphers parsed = [Ccmp128] /\ rsn_mfp_capable parsed = true
      /\ rsn_mfp_required parsed = true /\ rsn_group_mgmt_cipher parsed = Some BipCmac128 /\ rsn_raw parsed = element
  | _ => False
  end.
Definition every_shape_parses_back : Prop :=
  map (fun '(pmkid, group_mgmt) =>
         match StationRsn_encode (E := Error) {| st_group := Ccmp128; st_pairwise := Ccmp128; st_akm := Psk; st_mfp_capable := false;
                                    st_mfp_required := false; st_pmkid := pmkid; st_group_mgmt := group_mgmt |} with
         | Ok element => Some (rsn_group_mgmt_cipher <$> to_option (RsnIe_parse element),
                             bool_decide (element !! 1%nat = Some (len element - 2)))
         | _ => None
         end)
    [(None, None); (Some (replicate 16 1), None); (None, Some BipCmac128); (Some (replicate 16 1), Some BipCmac128)]
  = map (fun group_mgmt => Some (Some group_mgmt, true)) [None; None; Some BipCmac128; Some BipCmac128].

Lemma rsn_tests_pass : Forall id
  [wpa2_psk_element_is_wire_exact; sae_element_carries_mfp_and_the_pmkid; every_shape_parses_back].
Proof. run_tests. Qed.
