(* ===== verification/TestsDaemon.v ===== *)
(** * The tests of the daemon and the client, on the model

    The tests of [cawd]'s auth.rs, timers.rs and reactor.rs, of [caw]'s prompt.rs,
    table.rs and render.rs, and of [caw-ipc], translated and evaluated.  Those of a
    real timerfd, of clap's parser and of the JSON text are theirs to run. *)
From S2P Require Import Prelude Text.
From S2P Require Auth Timers Reactor Prompt Render Ipc.

(** A text of several lines. *)
Definition printed (ls : list string) : bytes := concat (map (fun l => ascii_of l ++ [10]) ls).

(** ** auth.rs *)

Section auth.
Import Auth.

Definition GROUP : bytes := printed ["root:x:0:"; "# a comment"; "wheel:x:998:alice"; "caw:x:975:alice,bob"; "+:::"]%string.
Definition PASSWD : bytes :=
  printed ["root:x:0:0::/root:/bin/bash"; "alice:x:1000:1000::/home/alice:/bin/bash"; "bob:x:1001:975::/home/bob:/bin/bash";
        "mallory:x:1002:1002::/home/mallory:/bin/bash"]%string.
Definition peer (uid gid : Z) : Peer := {| pid := 42; uid := uid; gid := gid |}.
Definition found (contents : bytes) (name : string) : option (Z * list bytes) :=
  g ← find_group contents (ascii_of name); Some (g_gid g, g_members g).
Definition members (l : list string) : list bytes := map ascii_of l.
Definition may (db : Database) (uid gid : Z) : bool := may_change_state db (peer uid gid) (ascii_of "caw").
(** [Database::from_text] *)
Definition from_text (group passwd : bytes) : Database := {| db_group := group; db_passwd := passwd |}.

Definition finds_a_group_and_its_members : Prop := found GROUP "caw" = Some (975, members ["alice"; "bob"]%string).
Definition a_group_with_no_members_parses_as_empty : Prop := found GROUP "root" = Some (0, []).
Definition missing_group_is_none_rather_than_a_guess : Prop := found GROUP "netdev" = None /\ found [] "caw" = None.
Definition malformed_lines_are_skipped_not_fatal : Prop :=
  found (printed ["garbage with no colons"; "caw:x"; "caw:x:not-a-number:alice"; ":::"; "+:::"; ""; "caw:x:975:alice"]%string) "caw"
  = Some (975, members ["alice"%string]).
Definition members_field_tolerates_stray_commas_and_spaces : Prop :=
  found (printed ["caw:x:975:,alice, bob,,"%string]) "caw" = Some (975, members ["alice"; "bob"]%string).
Definition resolves_a_uid_to_a_name : Prop :=
  user_name PASSWD 1000 = Some (ascii_of "alice") /\ user_name PASSWD 0 = Some (ascii_of "root")
  /\ user_name PASSWD 4242 = None /\ user_name (printed ["broken"; "alice:x:zzz:"]%string) 1000 = None.
Definition root_may_change_state : Prop := may (from_text GROUP PASSWD) 0 0 = true.
Definition primary_group_member_may_change_state : Prop := may (from_text GROUP PASSWD) 1001 975 = true.
Definition supplementary_group_member_may_change_state : Prop := may (from_text GROUP PASSWD) 1000 1000 = true.
Definition an_unrelated_user_may_not : Prop := may (from_text GROUP PASSWD) 1002 1002 = false.
Definition an_unknown_uid_may_not : Prop := may (from_text GROUP PASSWD) 4242 4242 = false.
Definition a_missing_caw_group_denies_everyone_but_root : Prop :=
  let db := from_text (printed ["root:x:0:"%string]) PASSWD in may db 0 0 = true /\ may db 1000 1000 = false.
Definition an_unreadable_database_denies : Prop :=
  let db := from_paths None None in may db 1000 1000 = false /\ may db 0 0 = true.
End auth.

Lemma auth_tests_pass : Forall id
  [finds_a_group_and_its_members; a_group_with_no_members_parses_as_empty; missing_group_is_none_rather_than_a_guess;
   malformed_lines_are_skipped_not_fatal; members_field_tolerates_stray_commas_and_spaces; resolves_a_uid_to_a_name;
   root_may_change_state; primary_group_member_may_change_state; supplementary_group_member_may_change_state;
   an_unrelated_user_may_not; an_unknown_uid_may_not; a_missing_caw_group_denies_everyone_but_root;
   an_unreadable_database_denies].
Proof. run_tests. Qed.

(** ** timers.rs *)

Inductive Key := Scan | Handshake | Dhcp.
#[export] Instance Key_eq_dec : EqDecision Key.
Proof. solve_decision. Defined.

(** Timers armed in order, now and so many seconds from now. *)
Definition armed (l : list (Key * Z)) (now : Z) : list (Timers.Entry Key) :=
  fold_left (fun ts kd => Timers.arm (fst kd) (snd kd * 1000) now ts) l [].
(** The tests' [Instant::now()]: any moment will do. *)
Definition base : Z := 123456.
Definition at_ (secs : Z) : Z := base + secs * 1000.

Definition nearest_deadline_wins : Prop :=
  Timers.next_deadline (armed [(Scan, 10); (Handshake, 1); (Dhcp, 5)] base) = Some (at_ 1).
Definition arming_twice_replaces_rather_than_duplicates : Prop :=
  let ts := armed [(Handshake, 1); (Handshake, 30)] base in
  Timers.next_deadline ts = Some (at_ 30) /\ length (fst (Timers.expired (at_ 60) ts)) = 1%nat.
Definition expiry_returns_the_due_ones_in_order_and_keeps_the_rest : Prop :=
  let (due, ts) := Timers.expired (at_ 5) (armed [(Scan, 3); (Handshake, 1); (Dhcp, 60)] base) in
  due = [Handshake; Scan] /\ Timers.next_deadline ts = Some (at_ 60).
Definition cancelling_by_predicate_keeps_what_does_not_match : Prop :=
  let ts := Timers.cancel_if (fun k => match k with Scan | Handshake => true | Dhcp => false end)
              (armed [(Scan, 3); (Handshake, 1); (Dhcp, 60)] base) in
  Timers.next_deadline ts = Some (at_ 60) /\ fst (Timers.expired (at_ 600) ts) = [Dhcp].
Definition cancelling_disarms_the_wheel_entirely_when_it_was_the_last : Prop :=
  let ts := Timers.cancel Scan (armed [(Scan, 3)] base) in
  Timers.next_deadline ts = None /\ fst (Timers.expired (at_ 600) ts) = [].

(** ** reactor.rs *)

Definition the_backoff_climbs_and_then_stops : Prop :=
  map Reactor.autoconnect_backoff [1; 2; 3; 6; 2 ^ 32 - 1; 0]
  = map (fun secs => secs * 1000)
      [Reactor.AUTOCONNECT_MIN; 20; 40; Reactor.AUTOCONNECT_MAX; Reactor.AUTOCONNECT_MAX; Reactor.AUTOCONNECT_MIN].

(** ** prompt.rs *)

Definition erase_removes_a_whole_character : Prop :=
  let buf := [97; 0xc3; 0xa9] in
  Prompt.erase_char buf = [97] /\ Prompt.erase_char [97] = [] /\ Prompt.erase_char [] = [].

Lemma timers_tests_pass : Forall id
  [nearest_deadline_wins; arming_twice_replaces_rather_than_duplicates;
   expiry_returns_the_due_ones_in_order_and_keeps_the_rest; cancelling_by_predicate_keeps_what_does_not_match;
   cancelling_disarms_the_wheel_entirely_when_it_was_the_last; the_backoff_climbs_and_then_stops;
   erase_removes_a_whole_character].
Proof. run_tests. Qed.

(** ** table.rs *)

Definition rows (cells : list (list string)) : list (list bytes) := map (map ascii_of) cells.

Definition matches_documented_ports_output : Prop :=
  Render.render (map ascii_of ["NAME"; "TYPE"; "STATE"; "MAC"; "ADDRESSES"]%string)
    (rows [["lo"; "loopback"; "up"; "-"; "127.0.0.1/8, ::1/128"];
           ["eth0"; "ethernet"; "up"; "5a:94:ef:e4:0c:ee"; "192.168.1.24/24"];
           ["wlan0"; "wireless"; "no-carrier"; "02:00:00:00:00:00"; "-"]]%string)
  = printed ["NAME   TYPE      STATE       MAC                ADDRESSES";
          "lo     loopback  up          -                  127.0.0.1/8, ::1/128";
          "eth0   ethernet  up          5a:94:ef:e4:0c:ee  192.168.1.24/24";
          "wlan0  wireless  no-carrier  02:00:00:00:00:00  -"]%string.
Definition a_column_widens_to_its_widest_cell_header_included : Prop :=
  Render.render (map ascii_of ["N"; "V"]%string) (rows [["a"; "1"]; ["longer"; "2"]]%string)
  = printed ["N       V"; "a       1"; "longer  2"]%string
  /\ Render.render (map ascii_of ["HEADER"; "V"]%string) (rows [["a"; "1"]]%string) = printed ["HEADER  V"; "a       1"]%string.
Definition non_ascii_cells_do_not_skew_the_next_column : Prop :=
  let cafe := ascii_of "caf" ++ [0xc3; 0xa9] in
  Render.render (map ascii_of ["SSID"; "SECURITY"]%string) [[cafe; ascii_of "Open"]; [ascii_of "ab"; ascii_of "Open"]]
  = printed ["SSID  SECURITY"%string] ++ cafe ++ printed ["  Open"; "ab    Open"]%string.
Definition trailing_empty_cell_leaves_no_whitespace : Prop :=
  Render.render (map ascii_of ["A"; "B"]%string) (rows [["x"; ""]; ["y"; "z"]]%string) = printed ["A  B"; "x"; "y  z"]%string.
Definition headers_alone_still_render : Prop :=
  Render.render (map ascii_of ["A"; "B"]%string) [] = printed ["A  B"%string].

(** ** render.rs *)

Section render.
Import Render.

Definition net (ssid bssid : string) (dbm freq : Z) (security : string) (known : bool) : NetworkSummary :=
  {| ssid := ascii_of ssid; bssid := ascii_of bssid; signal_dbm := dbm; freq_mhz := freq; security := ascii_of security;
     known := known |}.
(** How many times a text occurs in another ([str::matches(..).count()]). *)
Definition matches (pat s : bytes) : nat :=
  length (filter (fun i => take (length pat) (drop i s) = pat) (seq 0 (length s))).

Definition quality_words_bracket_the_planning_figures : Prop :=
  map quality [-20; -50; -51; -60; -61; -67; -68; -80; -81]
  = ["excellent"; "excellent"; "good"; "good"; "fair"; "fair"; "weak"; "weak"; "poor"]%string.
Definition signal_keeps_the_number_beside_the_word : Prop :=
  signal_cell (-42) = ascii_of "-42 dBm (excellent)" /\ signal_cell (-91) = ascii_of "-91 dBm (poor)".
Definition frequencies_map_to_channels : Prop :=
  map channel [2412; 2437; 2472; 2484; 5180; 5745; 5935; 5955; 6175]
  = map Some [(1, "2.4 GHz"); (6, "2.4 GHz"); (13, "2.4 GHz"); (14, "2.4 GHz"); (36, "5 GHz"); (149, "5 GHz");
              (2, "6 GHz"); (1, "6 GHz"); (45, "6 GHz")]%string.
Definition an_unnumbered_frequency_falls_back_to_megahertz : Prop :=
  channel 58320 = None /\ channel_cell 58320 = ascii_of "58320 MHz" /\ channel_cell 2437 = ascii_of "6 (2.4 GHz)".
Definition scan_table_sorts_by_signal_and_marks_known_networks : Prop :=
  scan_table [net "Neighbour" "aa:00:00:00:00:01" (-78) 2462 "WPA2-Personal" false;
              net "HomeNet" "aa:00:00:00:00:02" (-42) 5180 "WPA3-Personal" true;
              net "CoffeeShop" "aa:00:00:00:00:03" (-61) 2437 "Open" false]
  = printed ["SSID        SIGNAL               CHANNEL       SECURITY       KNOWN";
          "HomeNet     -42 dBm (excellent)  36 (5 GHz)    WPA3-Personal  *";
          "CoffeeShop  -61 dBm (fair)       6 (2.4 GHz)   Open";
          "Neighbour   -78 dBm (weak)       11 (2.4 GHz)  WPA2-Personal"]%string.
Definition repeated_ssids_collapse_to_their_strongest_bss : Prop :=
  let table := scan_table [net "Mesh" "aa:00:00:00:00:01" (-70) 2437 "WPA2-Personal" false;
                           net "Mesh" "aa:00:00:00:00:02" (-45) 5180 "WPA2-Personal" false;
                           net "Mesh" "aa:00:00:00:00:03" (-80) 2412 "WPA2-Personal" false] in
  length (Auth.lines table) = 2%nat /\ matches (ascii_of "-45 dBm") table = 1%nat.
Definition hidden_networks_are_named_and_kept_apart : Prop :=
  matches HIDDEN (scan_table [net "" "aa:00:00:00:00:01" (-50) 2437 "WPA2-Personal" false;
                              net "" "aa:00:00:00:00:02" (-60) 2437 "WPA2-Personal" false]) = 2%nat.
Definition status_reads_like_port_info : Prop :=
  status_block {| st_port := ascii_of "wlan0"; st_ssid := Some (ascii_of "HomeNet"); st_state := ascii_of "connected";
                  st_addrs := map ascii_of ["192.168.1.24/24"; "fe80::1/64"]%string |}
  = printed ["wlan0"; "  state      connected"; "  network    HomeNet"; "  ipv4       192.168.1.24/24";
          "  ipv6       fe80::1/64"]%string.
Definition status_shows_a_dash_for_what_is_missing : Prop :=
  status_block {| st_port := ascii_of "wlan0"; st_ssid := None; st_state := ascii_of "disconnected"; st_addrs := [] |}
  = printed ["wlan0"; "  state      disconnected"; "  network    -"; "  ipv4       -"; "  ipv6       -"]%string.
Definition progress_covers_only_the_informational_events : Prop :=
  map progress [Scanning; Associating (ascii_of "aa:bb:cc:dd:ee:ff"); Connected; Failed (ascii_of "x")]
  = [Some (ascii_of "scanning"); Some (ascii_of "associating with aa:bb:cc:dd:ee:ff"); None; None].
End render.

Lemma render_tests_pass : Forall id
  [matches_documented_ports_output; a_column_widens_to_its_widest_cell_header_included;
   non_ascii_cells_do_not_skew_the_next_column; trailing_empty_cell_leaves_no_whitespace; headers_alone_still_render;
   quality_words_bracket_the_planning_figures; signal_keeps_the_number_beside_the_word; frequencies_map_to_channels;
   an_unnumbered_frequency_falls_back_to_megahertz; scan_table_sorts_by_signal_and_marks_known_networks;
   repeated_ssids_collapse_to_their_strongest_bss; hidden_networks_are_named_and_kept_apart; status_reads_like_port_info;
   status_shows_a_dash_for_what_is_missing; progress_covers_only_the_informational_events].
Proof. run_tests. Qed.

(** ** [caw-ipc], frame.rs and lib.rs *)

Section ipc.
Import Ipc.

#[local] Instance Request_eq_dec : EqDecision Request.
Proof. solve_decision. Defined.

Definition quoted (s : string) : bytes := [34] ++ ascii_of s ++ [34].
Definition haeuser : bytes := [72; 0xc3; 0xa4] ++ ascii_of "user".
Definition password : bytes := [112; 0xc3; 0xa4] ++ ascii_of "ssw" ++ [0xc3; 0xb6] ++ ascii_of "rd with spaces".
Definition connect : Request := Connect haeuser (Some (ascii_of "wlan0")).
Definition secret : Request := Secret 9 password.
(** What serde writes for the requests of the tests, and what else it reads as one:
    the other spelling of a unit variant. *)
Definition written : list (Request * bytes) :=
  [(Status, quoted "Status"); (ListPorts, quoted "ListPorts");
   (connect, [123] ++ quoted "Connect" ++ [58; 123] ++ quoted "ssid" ++ [58; 34] ++ haeuser ++ [34; 44] ++ quoted "port"
             ++ [58] ++ quoted "wlan0" ++ [125; 125]);
   (secret, [123] ++ quoted "Secret" ++ [58; 123] ++ quoted "token" ++ [58; 57; 44] ++ quoted "value" ++ [58; 34] ++ password
            ++ [34; 125; 125])].
Definition status_object : bytes := [123] ++ quoted "Status" ++ ascii_of ":null}".
Definition wire (m : Request) : bytes := default [] (snd <$> find_first (fun rb => bool_decide (fst rb = m)) written) ++ [10].
Definition parse (line : bytes) : option Request :=
  fst <$> find_first (fun rb => bool_decide (snd rb = line)) (written ++ [(Status, status_object)]).
(** What a decoder hands out in turn, until it has nothing more, and what it holds. *)
Definition decoded (limit : Z) (buf : bytes) : list Decoded * bytes := drain parse limit buf.

Definition encode_terminates_with_exactly_one_newline : Prop :=
  last (wire Status) = Some 10 /\ length (filter (fun b => b = 10) (wire Status)) = 1%nat.
Definition decodes_two_messages_from_one_read : Prop :=
  decoded MAX_LINE (wire Status ++ wire ListPorts) = ([Message Status; Message ListPorts], []).
Definition reassembles_a_message_fed_one_byte_at_a_time : Prop :=
  let w := wire connect in
  fst (feed parse MAX_LINE [] (map (fun b => [b]) (removelast w))) = []
  /\ fst (feed parse MAX_LINE [] (map (fun b => [b]) w)) = [Message connect].
Definition skips_blank_and_crlf_terminated_lines : Prop :=
  decoded MAX_LINE ([10; 32; 32; 10] ++ status_object ++ [13; 10]) = ([Message Status], []).
Definition resynchronises_after_a_malformed_line : Prop :=
  fst (decoded MAX_LINE (ascii_of "{not json}" ++ [10] ++ wire Status)) = [Malformed (ascii_of "{not json}"); Message Status].
Definition refuses_a_line_that_never_ends : Prop := decoded 64 (replicate 65 120) = ([TooLong], []).
Definition secret_survives_a_round_trip_intact : Prop := fst (decoded MAX_LINE (wire secret)) = [Message (Secret 9 password)].
Definition blocking_read_stops_at_end_of_stream : Prop :=
  let (first, rest) := read parse (wire Status) in
  first = Ok (Some Status) /\ fst (read parse rest) = Ok None.
Definition reads_are_open_and_mutations_are_not : Prop :=
  map is_state_changing
    [Status; ListPorts; Scan None; PortInfo (ascii_of "w"); PortUp (ascii_of "w") true; Connect (ascii_of "n") None;
     Disconnect (ascii_of "n"); Shutdown]
  = [false; false; false; false; true; true; true; true].
End ipc.

Lemma ipc_tests_pass : Forall id
  [encode_terminates_with_exactly_one_newline; decodes_two_messages_from_one_read;
   reassembles_a_message_fed_one_byte_at_a_time; skips_blank_and_crlf_terminated_lines;
   resynchronises_after_a_malformed_line; refuses_a_line_that_never_ends; secret_survives_a_round_trip_intact;
   blocking_read_stops_at_end_of_stream; reads_are_open_and_mutations_are_not].
Proof. run_tests. Qed.
