(* ===== verification/Primitives.v ===== *)
(** * The published primitives, executable

    The hash functions and ciphers the sources take from RustCrypto, as their
    standards publish them: SHA-1 and SHA-256 (FIPS 180-4), HMAC (RFC 2104), PBKDF2
    (RFC 8018), AES-128 (FIPS 197) with CMAC (RFC 4493) and key wrap (RFC 3394), MD4
    (RFC 1320) and DES (FIPS 46-3).  They instantiate [CryptoPrims] and
    [MschapPrims], whose laws hold of them, so that what is proved from the laws is
    proved of these, and the published vectors can be run through the development's
    definitions.  No theorem about the program rests on this file. *)
From S2P Require Import Prelude Bytes Crypto Mschapv2.

(** ** Words of 32 bits *)

Definition low32 (x : Z) : Z := Z.land x 0xffffffff.
Definition add32 (l : list Z) : Z := low32 (fold_left Z.add l 0).
Definition not32 (x : Z) : Z := Z.lxor x 0xffffffff.
Definition rotl (n x : Z) : Z := Z.lor (low32 (Z.shiftl x n)) (Z.shiftr x (32 - n)).
Definition rotr (n x : Z) : Z := rotl (32 - n) x.
Definition xors (l : list Z) : Z := fold_left Z.lxor l 0.
Definition choice (x y z : Z) : Z := Z.lxor (Z.land x y) (Z.land (not32 x) z).
Definition majority (x y z : Z) : Z := xors [Z.land x y; Z.land x z; Z.land y z].
Definition parity (x y z : Z) : Z := xors [x; y; z].

(** The list cut in pieces of [n]. *)
Definition pieces (n : nat) (l : bytes) : list bytes :=
  map (fun i => take n (drop (i * n) l)) (seq 0 (length l / n)).
(** A message with its padding, in blocks of 64. *)
Definition blocks64 (encode_length : Z -> bytes) (m : bytes) : list bytes :=
  let zeros := ((119 - length m mod 64) mod 64)%nat in
  pieces 64 (m ++ [0x80] ++ replicate zeros 0 ++ encode_length (8 * len m)).
Definition state_add (a b : list Z) : list Z := map (fun '(x, y) => add32 [x; y]) (zip a b).

(** ** SHA-1 *)

Definition sha1_f (t : nat) : (Z -> Z -> Z -> Z) * Z :=
  if (t <? 20)%nat then (choice, 0x5a827999)
  else if (t <? 40)%nat then (parity, 0x6ed9eba1)
  else if (t <? 60)%nat then (majority, 0x8f1bbcdc)
  else (parity, 0xca62c1d6).
(** Rounds from [t] on; the window holds the next sixteen words of the schedule. *)
Fixpoint sha1_rounds (n t : nat) (window : list Z) (st : list Z) : list Z :=
  match n, window, st with
  | S n, w :: later, [a; b; c; d; e] =>
      let (f, k) := sha1_f t in
      let next := rotl 1 (xors [nth 12 later 0; nth 7 later 0; nth 1 later 0; w]) in
      sha1_rounds n (S t) (later ++ [next]) [add32 [rotl 5 a; f b c d; e; k; w]; a; rotl 30 b; c; d]
  | _, _, _ => st
  end.
Definition sha1_block (st : list Z) (block : bytes) : list Z :=
  state_add st (sha1_rounds 80 0 (map be_decode (pieces 4 block)) st).
Definition SHA1_INIT : list Z := [0x67452301; 0xefcdab89; 0x98badcfe; 0x10325476; 0xc3d2e1f0].
Definition sha1_digest (m : bytes) : bytes :=
  concat (map (be_encode 4) (fold_left sha1_block (blocks64 (be_encode 8) m) SHA1_INIT)).

(** ** SHA-256 *)

(** Its constants: 32 bits of the fractions of roots of the first primes. *)
Definition is_prime (n : nat) : bool := forallb (fun d => negb (n mod d =? 0)%nat) (seq 2 (n - 2)).
Definition primes : list Z := map Z.of_nat (filter (fun n => is_prime n = true) (seq 2 310)).
Definition cube_root (n : Z) : Z :=
  fold_left (fun r i => let r' := r + Z.shiftl 1 (Z.of_nat i) in if r' ^ 3 <=? n then r' else r) (rev (seq 0 40)) 0.
Definition SHA256_K : list Z := Eval vm_compute in map (fun p => low32 (cube_root (Z.shiftl p 96))) primes.
Definition SHA256_INIT : list Z := Eval vm_compute in map (fun p => low32 (Z.sqrt (Z.shiftl p 64))) (take 8 primes).

Fixpoint sha256_rounds (ks window st : list Z) : list Z :=
  match ks, window, st with
  | k :: ks, w :: later, [a; b; c; d; e; f; g; h] =>
      let s0 x := xors [rotr 7 x; rotr 18 x; Z.shiftr x 3] in
      let s1 x := xors [rotr 17 x; rotr 19 x; Z.shiftr x 10] in
      let next := add32 [s1 (nth 13 later 0); nth 8 later 0; s0 (nth 0 later 0); w] in
      let t1 := add32 [h; xors [rotr 6 e; rotr 11 e; rotr 25 e]; choice e f g; k; w] in
      let t2 := add32 [xors [rotr 2 a; rotr 13 a; rotr 22 a]; majority a b c] in
      sha256_rounds ks (later ++ [next]) [add32 [t1; t2]; a; b; c; add32 [d; t1]; e; f; g]
  | _, _, _ => st
  end.
Definition sha256_block (st : list Z) (block : bytes) : list Z :=
  state_add st (sha256_rounds SHA256_K (map be_decode (pieces 4 block)) st).
Definition sha256_digest (m : bytes) : bytes :=
  concat (map (be_encode 4) (fold_left sha256_block (blocks64 (be_encode 8) m) SHA256_INIT)).

(** ** HMAC and PBKDF2 *)

Definition hmac (hash : bytes -> bytes) (key m : bytes) : bytes :=
  let key := if (64 <? length key)%nat then hash key else key in
  let padded := key ++ replicate (64 - length key) 0 in
  hash (map (Z.lxor 0x5c) padded ++ hash (map (Z.lxor 0x36) padded ++ m)).

(** [rounds] times the PRF, each on the last, all of them xored together. *)
Fixpoint pbkdf2_rounds (rounds : nat) (prf : bytes -> bytes) (u acc : bytes) : bytes :=
  match rounds with
  | O => acc
  | S rounds => let u := prf u in pbkdf2_rounds rounds prf u (zip_with Z.lxor acc u)
  end.
Definition pbkdf2_block (prf : bytes -> bytes) (salt : bytes) (rounds : Z) (i : nat) : bytes :=
  let u := prf (salt ++ be_encode 4 (Z.of_nat i)) in
  pbkdf2_rounds (Z.to_nat (rounds - 1)) prf u u.
Definition pbkdf2 (hash : bytes -> bytes) (size : nat) (password salt : bytes) (rounds : Z) (n : nat) : bytes :=
  take n (concat (map (pbkdf2_block (hmac hash password) salt rounds) (seq 1 (S (n / size))))).

(** ** MD4 *)

Definition md4_order : list (nat * Z) :=
  let rows (order : list nat) (shifts : list Z) := zip order (shifts ++ shifts ++ shifts ++ shifts) in
  rows (seq 0 16) [3; 7; 11; 19]
  ++ rows [0; 4; 8; 12; 1; 5; 9; 13; 2; 6; 10; 14; 3; 7; 11; 15]%nat [3; 5; 9; 13]
  ++ rows [0; 8; 4; 12; 2; 10; 6; 14; 1; 9; 5; 13; 3; 11; 7; 15]%nat [3; 9; 11; 15].
Definition md4_f (t : nat) : (Z -> Z -> Z -> Z) * Z :=
  if (t <? 16)%nat then (choice, 0) else if (t <? 32)%nat then (majority, 0x5a827999) else (parity, 0x6ed9eba1).
Fixpoint md4_rounds (t : nat) (order : list (nat * Z)) (x st : list Z) : list Z :=
  match order, st with
  | (k, s) :: order, [a; b; c; d] =>
      let (f, constant) := md4_f t in
      md4_rounds (S t) order x [d; rotl s (add32 [a; f b c d; nth k x 0; constant]); b; c]
  | _, _ => st
  end.
Definition md4_block (st : list Z) (block : bytes) : list Z :=
  state_add st (md4_rounds 0 md4_order (map le_decode (pieces 4 block)) st).
Definition md4_digest (m : bytes) : bytes :=
  concat (map (le_encode 4)
    (fold_left md4_block (blocks64 (le_encode 8) m) [0x67452301; 0xefcdab89; 0x98badcfe; 0x10325476])).

(** ** AES-128 *)

(** The field of 256 elements, modulo x^8 + x^4 + x^3 + x + 1. *)
Definition xtime (a : Z) : Z := let d := 2 * a in if d <? 256 then d else Z.lxor d 0x11b.
Definition gmul (a b : Z) : Z :=
  fst (fold_left (fun '(acc, a) i => (if Z.testbit b i then Z.lxor acc a else acc, xtime a))
         [0; 1; 2; 3; 4; 5; 6; 7] (0, a)).
Definition octets : list Z := map Z.of_nat (seq 0 256).
Definition ginv (a : Z) : Z := default 0 (find_first (fun b => gmul a b =? 1) octets).
Definition sbox_value (a : Z) : Z :=
  let b := ginv a in
  let turn n := Z.lor (wrap 8 (Z.shiftl b n)) (Z.shiftr b (8 - n)) in
  xors [b; turn 1; turn 2; turn 3; turn 4; 0x63].
Definition SBOX : list Z := Eval vm_compute in map sbox_value octets.
Definition INV_SBOX : list Z :=
  Eval vm_compute in map (fun v => default 0 (find_first (fun a => nth (Z.to_nat a) SBOX 0 =? v) octets)) octets.
Definition sub (table : list Z) (a : Z) : Z := nth (Z.to_nat a) table 0.

(** The schedule's words, four octets each; the newest four come last. *)
Fixpoint aes_expand (rcon : list Z) (last : list Z) : list bytes :=
  last :: match rcon with
  | [] => []
  | r :: rcon =>
      let turned := match map (sub SBOX) (drop 12 last) with [a; b; c; d] => [Z.lxor b r; c; d; a] | _ => [] end in
      let w0 := zip_with Z.lxor turned (take 4 last) in
      let w1 := zip_with Z.lxor w0 (take 4 (drop 4 last)) in
      let w2 := zip_with Z.lxor w1 (take 4 (drop 8 last)) in
      let w3 := zip_with Z.lxor w2 (drop 12 last) in
      aes_expand rcon (w0 ++ w1 ++ w2 ++ w3)
  end.
Definition aes_keys (key : bytes) : list bytes :=
  aes_expand [0x01; 0x02; 0x04; 0x08; 0x10; 0x20; 0x40; 0x80; 0x1b; 0x36] key.

(** A row of the state is every fourth octet. *)
Definition permuted (order : list nat) (st : bytes) : bytes := map (fun i => nth i st 0) order.
Definition shift_rows : bytes -> bytes := permuted [0; 5; 10; 15; 4; 9; 14; 3; 8; 13; 2; 7; 12; 1; 6; 11]%nat.
Definition inv_shift_rows : bytes -> bytes := permuted [0; 13; 10; 7; 4; 1; 14; 11; 8; 5; 2; 15; 12; 9; 6; 3]%nat.
Definition mix (coefficients : list Z) (column : bytes) : bytes :=
  map (fun r => xors (zip_with gmul column (drop (4 - r) coefficients ++ take (4 - r) coefficients))) (seq 0 4).
Definition mix_columns (coefficients : list Z) (st : bytes) : bytes := concat (map (mix coefficients) (pieces 4 st)).
Definition add_key (k st : bytes) : bytes := zip_with Z.lxor k st.

Definition aes_encrypt_block (key st : bytes) : bytes :=
  match aes_keys key with
  | first :: ks =>
      let rounds := fold_left (fun st k => add_key k (mix_columns [2; 3; 1; 1] (shift_rows (map (sub SBOX) st))))
                      (removelast ks) (add_key first st) in
      add_key (default [] (last ks)) (shift_rows (map (sub SBOX) rounds))
  | [] => []
  end.
Definition aes_decrypt_block (key st : bytes) : bytes :=
  match rev (aes_keys key) with
  | final :: ks =>
      let rounds := fold_left (fun st k => mix_columns [14; 11; 13; 9] (add_key k (map (sub INV_SBOX) (inv_shift_rows st))))
                      (removelast ks) (add_key final st) in
      add_key (default [] (last ks)) (map (sub INV_SBOX) (inv_shift_rows rounds))
  | [] => []
  end.

(** *** CMAC *)

Definition cmac_double (l : bytes) : bytes :=
  let v := 2 * be_decode l in
  be_encode 16 (if v <? 2 ^ 128 then v else Z.lxor (wrap 128 v) 0x87).
Definition cmac (key m : bytes) : bytes :=
  let k1 := cmac_double (aes_encrypt_block key (replicate 16 0)) in
  let blocks := Nat.max 1 ((length m + 15) / 16) in
  let ends := drop (16 * (blocks - 1)) m in
  let final := if (length ends =? 16)%nat then add_key k1 ends
               else add_key (cmac_double k1) (ends ++ [0x80] ++ replicate (15 - length ends) 0) in
  be_encode 16 (be_decode (fold_left (fun c b => aes_encrypt_block key (zip_with Z.lxor c b))
    (pieces 16 (take (16 * (blocks - 1)) m) ++ [final]) (replicate 16 0))).

(** *** Key wrap *)

Definition KW_IV : bytes := replicate 8 0xa6.
(** One step on the register and the semiblock it takes; [t] counts from one. *)
Definition wrap_step (key : bytes) (t : Z) (a r : bytes) : bytes * bytes :=
  let b := aes_encrypt_block key (a ++ r) in (zip_with Z.lxor (take 8 b) (be_encode 8 t), drop 8 b).
Definition unwrap_step (key : bytes) (t : Z) (a r : bytes) : bytes * bytes :=
  let b := aes_decrypt_block key (zip_with Z.lxor a (be_encode 8 t) ++ r) in (take 8 b, drop 8 b).
Definition aes_kw_wrap (key plain : bytes) : bytes :=
  let n := (length plain / 8)%nat in
  let (a, rs) := fold_left (fun '(a, rs) k =>
      let i := (k mod n)%nat in
      let (a, r) := wrap_step key (Z.of_nat k + 1) a (nth i rs []) in (a, <[i := r]> rs))
    (seq 0 (6 * n)) (KW_IV, pieces 8 plain) in
  a ++ concat rs.
Definition aes_kw_unwrap (key wrapped : bytes) : option bytes :=
  let n := (length wrapped / 8 - 1)%nat in
  let (a, rs) := fold_left (fun '(a, rs) k =>
      let i := (k mod n)%nat in
      let (a, r) := unwrap_step key (Z.of_nat k + 1) a (nth i rs []) in (a, <[i := r]> rs))
    (rev (seq 0 (6 * n))) (take 8 wrapped, pieces 8 (drop 8 wrapped)) in
  if bool_decide (a = KW_IV) && (length (concat rs) + 8 =? length wrapped)%nat then Some (concat rs) else None.

(** ** DES *)

Definition DES_IP : list nat :=
  [58; 50; 42; 34; 26; 18; 10; 2; 60; 52; 44; 36; 28; 20; 12; 4; 62; 54; 46; 38; 30; 22; 14; 6; 64;
   56; 48; 40; 32; 24; 16; 8; 57; 49; 41; 33; 25; 17; 9; 1; 59; 51; 43; 35; 27; 19; 11; 3; 61; 53;
   45; 37; 29; 21; 13; 5; 63; 55; 47; 39; 31; 23; 15; 7]%nat.
Definition DES_FP : list nat :=
  [40; 8; 48; 16; 56; 24; 64; 32; 39; 7; 47; 15; 55; 23; 63; 31; 38; 6; 46; 14; 54; 22; 62; 30; 37;
   5; 45; 13; 53; 21; 61; 29; 36; 4; 44; 12; 52; 20; 60; 28; 35; 3; 43; 11; 51; 19; 59; 27; 34; 2;
   42; 10; 50; 18; 58; 26; 33; 1; 41; 9; 49; 17; 57; 25]%nat.
Definition DES_E : list nat :=
  [32; 1; 2; 3; 4; 5; 4; 5; 6; 7; 8; 9; 8; 9; 10; 11; 12; 13; 12; 13; 14; 15; 16; 17; 16; 17; 18;
   19; 20; 21; 20; 21; 22; 23; 24; 25; 24; 25; 26; 27; 28; 29; 28; 29; 30; 31; 32; 1]%nat.
Definition DES_P : list nat :=
  [16; 7; 20; 21; 29; 12; 28; 17; 1; 15; 23; 26; 5; 18; 31; 10; 2; 8; 24; 14; 32; 27; 3; 9; 19; 13;
   30; 6; 22; 11; 4; 25]%nat.
Definition DES_PC1 : list nat :=
  [57; 49; 41; 33; 25; 17; 9; 1; 58; 50; 42; 34; 26; 18; 10; 2; 59; 51; 43; 35; 27; 19; 11; 3; 60;
   52; 44; 36; 63; 55; 47; 39; 31; 23; 15; 7; 62; 54; 46; 38; 30; 22; 14; 6; 61; 53; 45; 37; 29;
   21; 13; 5; 28; 20; 12; 4]%nat.
Definition DES_PC2 : list nat :=
  [14; 17; 11; 24; 1; 5; 3; 28; 15; 6; 21; 10; 23; 19; 12; 4; 26; 8; 16; 7; 27; 20; 13; 2; 41; 52;
   31; 37; 47; 55; 30; 40; 51; 45; 33; 48; 44; 49; 39; 56; 34; 53; 46; 42; 50; 36; 29; 32]%nat.
Definition DES_S : list (list Z) :=
  [[14; 4; 13; 1; 2; 15; 11; 8; 3; 10; 6; 12; 5; 9; 0; 7; 0; 15; 7; 4; 14; 2; 13; 1; 10; 6; 12; 11;
     9; 5; 3; 8; 4; 1; 14; 8; 13; 6; 2; 11; 15; 12; 9; 7; 3; 10; 5; 0; 15; 12; 8; 2; 4; 9; 1; 7; 5;
     11; 3; 14; 10; 0; 6; 13];
   [15; 1; 8; 14; 6; 11; 3; 4; 9; 7; 2; 13; 12; 0; 5; 10; 3; 13; 4; 7; 15; 2; 8; 14; 12; 0; 1; 10;
     6; 9; 11; 5; 0; 14; 7; 11; 10; 4; 13; 1; 5; 8; 12; 6; 9; 3; 2; 15; 13; 8; 10; 1; 3; 15; 4; 2;
     11; 6; 7; 12; 0; 5; 14; 9];
   [10; 0; 9; 14; 6; 3; 15; 5; 1; 13; 12; 7; 11; 4; 2; 8; 13; 7; 0; 9; 3; 4; 6; 10; 2; 8; 5; 14; 12;
     11; 15; 1; 13; 6; 4; 9; 8; 15; 3; 0; 11; 1; 2; 12; 5; 10; 14; 7; 1; 10; 13; 0; 6; 9; 8; 7; 4;
     15; 14; 3; 11; 5; 2; 12];
   [7; 13; 14; 3; 0; 6; 9; 10; 1; 2; 8; 5; 11; 12; 4; 15; 13; 8; 11; 5; 6; 15; 0; 3; 4; 7; 2; 12; 1;
     10; 14; 9; 10; 6; 9; 0; 12; 11; 7; 13; 15; 1; 3; 14; 5; 2; 8; 4; 3; 15; 0; 6; 10; 1; 13; 8; 9;
     4; 5; 11; 12; 7; 2; 14];
   [2; 12; 4; 1; 7; 10; 11; 6; 8; 5; 3; 15; 13; 0; 14; 9; 14; 11; 2; 12; 4; 7; 13; 1; 5; 0; 15; 10;
     3; 9; 8; 6; 4; 2; 1; 11; 10; 13; 7; 8; 15; 9; 12; 5; 6; 3; 0; 14; 11; 8; 12; 7; 1; 14; 2; 13; 6;
     15; 0; 9; 10; 4; 5; 3];
   [12; 1; 10; 15; 9; 2; 6; 8; 0; 13; 3; 4; 14; 7; 5; 11; 10; 15; 4; 2; 7; 12; 9; 5; 6; 1; 13; 14;
     0; 11; 3; 8; 9; 14; 15; 5; 2; 8; 12; 3; 7; 0; 4; 10; 1; 13; 11; 6; 4; 3; 2; 12; 9; 5; 15; 10;
     11; 14; 1; 7; 6; 0; 8; 13];
   [4; 11; 2; 14; 15; 0; 8; 13; 3; 12; 9; 7; 5; 10; 6; 1; 13; 0; 11; 7; 4; 9; 1; 10; 14; 3; 5; 12;
     2; 15; 8; 6; 1; 4; 11; 13; 12; 3; 7; 14; 10; 15; 6; 8; 0; 5; 9; 2; 6; 11; 13; 8; 1; 4; 10; 7; 9;
     5; 0; 15; 14; 2; 3; 12];
   [13; 2; 8; 4; 6; 15; 11; 1; 10; 9; 3; 14; 5; 0; 12; 7; 1; 15; 13; 8; 10; 3; 7; 4; 12; 5; 6; 11;
     0; 14; 9; 2; 7; 11; 4; 1; 9; 12; 14; 2; 0; 6; 10; 13; 15; 3; 5; 8; 2; 1; 14; 7; 4; 10; 8; 13;
     15; 12; 9; 0; 3; 5; 6; 11]].

Definition to_bits (n : nat) (l : bytes) : list bool :=
  concat (map (fun v => map (fun i => Z.testbit v (Z.of_nat i)) (rev (seq 0 n))) l).
Definition of_bits (l : list bool) : Z := fold_left (fun (acc : Z) (b : bool) => 2 * acc + (if b then 1 else 0)) l 0.
Definition select (table : list nat) (l : list bool) : list bool := map (fun i => nth (i - 1) l false) table.
Definition chunks (n m : nat) (l : list bool) : list (list bool) := map (fun i => take n (drop (i * n) l)) (seq 0 m).

Definition des_sbox (table : list Z) (six : list bool) : list bool :=
  match six with
  | [a; b; c; d; e; f] => to_bits 4 [nth (Z.to_nat (16 * of_bits [a; f] + of_bits [b; c; d; e])) table 0]
  | _ => []
  end.
Definition des_f (r k : list bool) : list bool :=
  select DES_P (concat (zip_with des_sbox DES_S (chunks 6 8 (zip_with xorb (select DES_E r) k)))).
Fixpoint des_rounds (shifts : list nat) (c d l r : list bool) : list bool :=
  match shifts with
  | [] => r ++ l
  | s :: shifts =>
      let c := drop s c ++ take s c in
      let d := drop s d ++ take s d in
      des_rounds shifts c d r (zip_with xorb l (des_f r (select DES_PC2 (c ++ d))))
  end.
Definition des (key block : bytes) : bytes :=
  let k := select DES_PC1 (to_bits 8 key) in
  let b := select DES_IP (to_bits 8 block) in
  map of_bits (chunks 8 8 (select DES_FP
    (des_rounds [1; 1; 2; 2; 2; 2; 2; 2; 1; 2; 2; 2; 2; 2; 2; 1]%nat (take 28 k) (drop 28 k) (take 32 b) (drop 32 b)))).

(** ** The instances *)

#[export] Instance published_crypto : CryptoPrims := {
  hmac_sha1 := hmac sha1_digest;
  hmac_sha256 := hmac sha256_digest;
  aes128_cmac := cmac;
  aes128_kw_unwrap := aes_kw_unwrap;
  pbkdf2_hmac_sha1 := pbkdf2 sha1_digest 20;
}.
#[export] Instance published_mschap : MschapPrims := { md4 := md4_digest; sha1 := sha1_digest; des_block := des }.

(** ** Their output sizes *)

Lemma length_state_add a b : length b = length a -> length (state_add a b) = length a.
Proof. intros Hl. unfold state_add. rewrite length_map, length_zip_with. lia. Qed.

Lemma length_fold_blocks (f : list Z -> bytes -> list Z) n blocks st :
  (forall st b, length st = n -> length (f st b) = n) -> length st = n -> length (fold_left f blocks st) = n.
Proof. intros Hf. revert st. induction blocks as [|b blocks IH]; intros st Hs; cbn; auto. Qed.

Lemma length_words {A} (enc : A -> bytes) k l : (forall v, length (enc v) = k) -> length (concat (map enc l)) = (k * length l)%nat.
Proof. intros He. induction l as [|v l IH]; cbn; [lia|]. rewrite length_app, He, IH. lia. Qed.

(** The rounds of a hash: on a state of the right size, a state of that size. *)
Ltac rounds_keep_length :=
  intros; repeat match goal with |- context [match ?x with _ => _ end] => is_var x; destruct x end;
  cbn [length]; try done; repeat case_match; auto.

Lemma length_sha1_rounds n t window st : length st = 5%nat -> length (sha1_rounds n t window st) = 5%nat.
Proof. revert t window st. induction n; cbn [sha1_rounds]; rounds_keep_length. Qed.
Lemma length_sha256_rounds ks window st : length st = 8%nat -> length (sha256_rounds ks window st) = 8%nat.
Proof. revert window st. induction ks; cbn [sha256_rounds]; rounds_keep_length. Qed.
Lemma length_md4_rounds t order x st : length st = 4%nat -> length (md4_rounds t order x st) = 4%nat.
Proof. revert t st. induction order; cbn [md4_rounds]; rounds_keep_length. Qed.

Lemma length_sha1_digest m : length (sha1_digest m) = 20%nat.
Proof.
  unfold sha1_digest. rewrite (length_words _ 4) by (intros; apply length_be_encode).
  rewrite (length_fold_blocks _ 5); [done| |done]. intros st b Hs. unfold sha1_block.
  by rewrite length_state_add; rewrite ?length_sha1_rounds by done.
Qed.
Lemma length_sha256_digest m : length (sha256_digest m) = 32%nat.
Proof.
  unfold sha256_digest. rewrite (length_words _ 4) by (intros; apply length_be_encode).
  rewrite (length_fold_blocks _ 8); [done| |done]. intros st b Hs. unfold sha256_block.
  by rewrite length_state_add; rewrite ?length_sha256_rounds by done.
Qed.
Lemma length_md4_digest m : length (md4_digest m) = 16%nat.
Proof.
  unfold md4_digest. rewrite (length_words _ 4) by (intros; apply length_le_encode).
  rewrite (length_fold_blocks _ 4); [done| |done]. intros st b Hs. unfold md4_block.
  by rewrite length_state_add; rewrite ?length_md4_rounds by done.
Qed.

Lemma length_pbkdf2_rounds rounds prf u acc n :
  (forall m, length (prf m) = n) -> length acc = n -> length (pbkdf2_rounds rounds prf u acc) = n.
Proof.
  intros Hp. revert u acc. induction rounds as [|rounds IH]; intros u acc Ha; cbn; [done|].
  apply IH. rewrite length_zip_with, Hp. lia.
Qed.
Lemma length_pbkdf2 p s r n : length (pbkdf2 sha1_digest 20 p s r n) = n.
Proof.
  unfold pbkdf2. rewrite length_take.
  rewrite (length_words _ 20), length_seq.
  - pose proof (Nat.mul_succ_div_gt n 20). lia.
  - intros i. apply length_pbkdf2_rounds; intros; apply length_sha1_digest.
Qed.

Lemma length_aes_kw_unwrap k w p : aes_kw_unwrap k w = Some p -> length w = (length p + 8)%nat.
Proof. unfold aes_kw_unwrap. repeat case_match; intros; simplify_eq. bool_prop. naive_solver. Qed.

#[export] Instance published_crypto_laws : CryptoLaws.
Proof.
  split.
  - intros. apply length_sha1_digest.
  - intros. apply length_sha256_digest.
  - intros. apply length_be_encode.
  - apply length_aes_kw_unwrap.
  - apply length_pbkdf2.
Qed.
#[export] Instance published_mschap_laws : MschapLaws.
Proof.
  split.
  - apply length_md4_digest.
  - apply length_sha1_digest.
  - done.
Qed.
