(* ===== verification/TestsCrypto.v ===== *)
(** * The tests of the cryptographic layers, on the model

    The tests of [caw-crypto]'s mic.rs, kdf.rs, keywrap.rs, psk.rs and sae.rs and of
    [caw-eapol]'s eap/mschapv2.rs, translated and evaluated over the published
    primitives.  What only PBKDF2's 4096 rounds or the arithmetic of P-256 decide
    is left to the crates; SAE's exchange is run over the additive group of integers
    modulo the order of P-256, with the real hash. *)
From S2P Require Import Prelude Text Bytes Dot11 Crypto Primitives.
From S2P Require Sae Eapol Mschapv2.

(** [fn hex] of the tests: a vector as its standard prints it. *)
Definition hex (n : nat) (v : Z) : bytes := be_encode n v.

(** ** mic.rs *)

Definition rfc4493_cmac_vectors : Prop :=
  let kck := hex 16 0x2b7e151628aed2a6abf7158809cf4f3c in
  map (compute_mic kck AesCmac)
    [[];
     hex 16 0x6bc1bee22e409f96e93d7e117393172a;
     hex 40 0x6bc1bee22e409f96e93d7e117393172aae2d8a571e03ac9c9eb76fac45af8e5130c81c46a35ce411;
     hex 64 0x6bc1bee22e409f96e93d7e117393172aae2d8a571e03ac9c9eb76fac45af8e5130c81c46a35ce411e5fbc1191a0a52eff69f2445df4f9b17ad2b417be66c3710]
  = [hex 16 0xbb1d6929e95937287fa37d129b756746; hex 16 0x070a16b46b4d4144f79bdd9dd04a287c;
     hex 16 0xdfa66747de9ae63030ca32611497c827; hex 16 0x51f0bebf7e3b9d92fc49741779363cfe].
Definition rfc2202_hmac_sha1_vectors : Prop :=
  [hmac_sha1 (replicate 20 0x0b) (ascii_of "Hi There");
   hmac_sha1 (ascii_of "Jefe") (ascii_of "what do ya want for nothing?");
   hmac_sha1 (replicate 20 0x0c) (ascii_of "Test With Truncation")]
  = [hex 20 0xb617318655057264e28bc0b6fb378c8ef146be00; hex 20 0xeffcdf6ae5eb2fa2d27416d5f184df9c259a7c79;
     hex 20 0x4c1a03424b55e07fe7f27be1d58bb9324a9a5a04].
Definition version_2_is_the_hmac_truncated_to_16_bytes : Prop :=
  let kck := replicate 16 0x0c in
  let frame := ascii_of "Test With Truncation" in
  compute_mic kck HmacSha1 frame = take MIC_LEN (hmac_sha1 kck frame).
Definition verify_accepts_only_the_right_mic : Prop :=
  let kck := replicate 16 0x42 in
  let frame := ascii_of "EAPOL-Key frame with a zeroed MIC field" in
  map (fun version =>
         let mic := compute_mic kck version frame in
         let forged := <[15%nat := Z.lxor (nth 15 mic 0) 1]> mic in
         map (verify_mic kck version frame) [mic; forged; take 8 forged])
    [HmacSha1; AesCmac]
  = [[Ok tt; Err MicMismatch; Err ErrMalformed]; [Ok tt; Err MicMismatch; Err ErrMalformed]].
Definition versions_disagree : Prop :=
  let kck := replicate 16 0x42 in
  bool_decide (compute_mic kck HmacSha1 (ascii_of "frame") = compute_mic kck AesCmac (ascii_of "frame")) = false.
Definition decodes_the_version_subfield : Prop :=
  map from_key_info [0x13cb; 0x008a; 0; 1; 4; 5; 6; 7]
  = [Ok AesCmac; Ok HmacSha1] ++ replicate 6 (Err UnsupportedVersion) /\ version_bits AesCmac = 3.
Definition version_zero_follows_the_akm : Prop :=
  let kck := replicate 16 0x42 in
  from_key_info_for (Z.land 0x008a (Z.lnot 0x7)) Sae = Ok AkmDefinedCmac /\ version_bits AkmDefinedCmac = 0
  /\ from_key_info_for 0x0088 Psk = Err UnsupportedVersion /\ from_key_info_for 0x008b Sae = Ok AesCmac
  /\ compute_mic kck AkmDefinedCmac (ascii_of "frame") = compute_mic kck AesCmac (ascii_of "frame").

(** ** kdf.rs *)

Definition AA : bytes := [0x02; 0x00; 0x00; 0x00; 0x01; 0x00].
Definition SPA : bytes := [0x02; 0x00; 0x00; 0x00; 0x02; 0x00].
Definition the_pmk : Pmk := hex 32 0x0dc0d6eb90555ed6419756b9a15ec3e3209b63df707dd508d14581f8982721af.
Definition anonce : bytes := replicate 32 0x33.
Definition snonce : bytes := replicate 32 0x11.

Definition ieee_80211i_prf_vectors : Prop :=
  [prf_sha1 (replicate 20 0x0b) (ascii_of "prefix") (ascii_of "Hi There") 24;
   prf_sha1 (ascii_of "Jefe") (ascii_of "prefix") (ascii_of "what do ya want for nothing?") 24;
   prf_sha1 (replicate 20 0xaa) (ascii_of "prefix") (replicate 50 0xdd) 24]
  = [hex 24 0xbcd4c650b30b9684951829e0d75f9d54b862175ed9f00606; hex 24 0x51f4de5b33f249adf81aeb713a3c20f4fe631446fabdfa58;
     hex 24 0xe1ac546ec4cb636f9976487be5c86be17a0252ca5d8d8df1].
Definition kdf_sha256_block_layout : Prop :=
  let block i := hmac_sha256 (ascii_of "key") (le_encode 2 i ++ ascii_of "label" ++ ascii_of "data" ++ le_encode 2 384) in
  kdf_sha256 (E := Error) (ascii_of "key") (ascii_of "label") (ascii_of "data") 48 = Ok (block 1 ++ take 16 (block 2)).
Definition kdf_sha256_binds_its_length : Prop :=
  match kdf_sha256 (E := Error) (ascii_of "key") (ascii_of "label") (ascii_of "data") 16,
        kdf_sha256 (E := Error) (ascii_of "key") (ascii_of "label") (ascii_of "data") 32 with
  | Ok short, Ok long => bool_decide (short = take 16 long) = false
  | _, _ => False
  end.
Definition ptk_is_independent_of_argument_order : Prop :=
  match derive_ptk the_pmk Psk AA SPA anonce snonce, derive_ptk the_pmk Psk SPA AA snonce anonce with
  | Ok a, Ok b => kck a = kck b /\ kek a = kek b /\ tk a = tk b
  | _, _ => False
  end.
Definition ptk_layout_matches_the_standard : Prop :=
  let want := prf_sha1 the_pmk (ascii_of "Pairwise key expansion") (AA ++ SPA ++ snonce ++ anonce) 48 in
  match derive_ptk the_pmk Psk AA SPA anonce snonce with
  | Ok ptk => kck ptk = take 16 want /\ kek ptk = take 16 (drop 16 want) /\ tk ptk = take 16 (drop 32 want)
  | _ => False
  end.
Definition sha256_akms_derive_a_different_key : Prop :=
  match map (fun akm => to_option (derive_ptk the_pmk akm AA SPA anonce snonce)) [Psk; PskSha256; Sae] with
  | [Some sha1; Some sha256; Some sae] => bool_decide (kck sha1 = kck sha256) = false /\ kck sha256 = kck sae
  | _ => False
  end.
Definition rejects_akms_with_another_hierarchy : Prop :=
  let nonce := replicate 32 0 in
  map (fun akm => derive_ptk the_pmk akm AA SPA nonce nonce) [FtPsk; FtSae; Dot1xSuiteB192] = replicate 3 (Err UnsupportedAkm).

(** ** keywrap.rs *)

Definition KEK : bytes := hex 16 0x000102030405060708090A0B0C0D0E0F.
Definition WRAPPED : bytes := hex 24 0x1FA68B0A8112B447AEF34BD8FB5A7B829D3E862371D2CFE5.
Definition rfc3394_128_bit_kek : Prop := unwrap_key_data KEK WRAPPED = Ok (hex 16 0x00112233445566778899AABBCCDDEEFF).
Definition rejects_a_tampered_check_value : Prop :=
  unwrap_key_data KEK (<[0%nat := Z.lxor 0x1F 1]> WRAPPED) = Err KeyUnwrapFailed.
Definition rejects_the_wrong_kek : Prop := unwrap_key_data (replicate 16 0xff) WRAPPED = Err KeyUnwrapFailed.
Definition rejects_lengths_the_wrap_cannot_produce : Prop :=
  map (fun n => unwrap_key_data (replicate 16 0) (replicate n 0)) [0; 8; 17; 23]%nat = replicate 4 (Err ErrMalformed).
Definition round_trips_a_gtk_sized_payload : Prop :=
  let key_data := map Z.of_nat (seq 0 32) in
  unwrap_key_data (replicate 16 0x5a) (aes_kw_wrap (replicate 16 0x5a) key_data) = Ok key_data.

(** ** psk.rs *)

Definition ieee_ctx : AuthContext :=
  {| ctx_ssid := ascii_of "IEEE"; ctx_bssid := replicate 6 0; ctx_own_mac := replicate 6 0; ctx_akm := Psk |}.
Definition provider_rejects_frames_and_timeouts : Prop :=
  let p := {| psk_passphrase := ascii_of "password" |} in
  snd (pp_on_frame p ieee_ctx [1; 2; 3]) = Err Protocol /\ snd (pp_on_timeout p ieee_ctx) = Err Protocol.

Lemma keys_tests_pass : Forall id
  [rfc4493_cmac_vectors; rfc2202_hmac_sha1_vectors; version_2_is_the_hmac_truncated_to_16_bytes;
   verify_accepts_only_the_right_mic; versions_disagree; decodes_the_version_subfield; version_zero_follows_the_akm;
   ieee_80211i_prf_vectors; kdf_sha256_block_layout; kdf_sha256_binds_its_length; ptk_is_independent_of_argument_order;
   ptk_layout_matches_the_standard; sha256_akms_derive_a_different_key; rejects_akms_with_another_hierarchy;
   rfc3394_128_bit_kek; rejects_a_tampered_check_value; rejects_the_wrong_kek; rejects_lengths_the_wrap_cannot_produce;
   round_trips_a_gtk_sized_payload; provider_rejects_frames_and_timeouts].
Proof. run_tests. Qed.

(** ** eap/mschapv2.rs: the worked example of RFC 2759 *)

Section mschapv2.
Import Eapol Mschapv2.

Definition PASSWORD : bytes := ascii_of "clientPass".
Definition USERNAME : bytes := ascii_of "User".
Definition AUTH_CHALLENGE : bytes := hex 16 0x5b5d7c7d7b3f2f3e3c2c602132262628.
Definition PEER_CHALLENGE : bytes := hex 16 0x21402324255e262a28295f2b3a337c7e.
Definition CHALLENGE : bytes := hex 8 0xd02e4386bce91226.
Definition PASSWORD_HASH : bytes := hex 16 0x44ebba8d5312b8d611474411f56989ae.
Definition PASSWORD_HASH_HASH : bytes := hex 16 0x41c00c584bd2d91c4017a2a12fa59f3f.
Definition NT_RESPONSE : bytes := hex 24 0x82309ecd8d708b5ea08faa3981cd83544233114a3d85d6df.
Definition AUTHENTICATOR_RESPONSE : bytes := ascii_of "S=407A5589115FD0D6209F510FE9C04566932CDA56".

Definition rfc2759_nt_password_hash : Prop := nt_password_hash PASSWORD = PASSWORD_HASH.
Definition rfc2759_hash_nt_password_hash : Prop := hash_nt_password_hash PASSWORD_HASH = PASSWORD_HASH_HASH.
Definition rfc2759_challenge_hash : Prop := challenge_hash PEER_CHALLENGE AUTH_CHALLENGE USERNAME = CHALLENGE.
Definition rfc2759_challenge_response : Prop := challenge_response CHALLENGE PASSWORD_HASH = NT_RESPONSE.
Definition rfc2759_nt_response : Prop :=
  generate_nt_response AUTH_CHALLENGE PEER_CHALLENGE USERNAME PASSWORD = NT_RESPONSE.
Definition rfc2759_authenticator_response : Prop :=
  generate_authenticator_response PASSWORD NT_RESPONSE PEER_CHALLENGE AUTH_CHALLENGE USERNAME = AUTHENTICATOR_RESPONSE.

Definition message (op_code ms_id : Z) (body : bytes) : bytes := default [] (to_option (ms_message (E := Error) op_code ms_id body)).
Definition challenge_packet : bytes := message OP_CHALLENGE 7 ([16] ++ AUTH_CHALLENGE ++ ascii_of "radius.example.net").
Definition peer : Mschapv2 := Mschapv2_with_peer_challenge USERNAME PASSWORD PEER_CHALLENGE.
(** The peer after a challenge, and what it answers to what comes next. *)
Definition challenged : Mschapv2 := fst (Mschapv2_on_request challenge_packet peer).
Definition then_answers (m : Mschapv2) (data : bytes) : exec Error (option bytes) * bool :=
  let (m, r) := Mschapv2_on_request data m in (r, Mschapv2_authenticated m).

Definition answers_a_challenge_with_the_rfc_response : Prop :=
  snd (Mschapv2_on_request challenge_packet peer)
  = Ok (Some ([OP_RESPONSE; 7; 0; 58] ++ [RESPONSE_LEN] ++ PEER_CHALLENGE ++ replicate 8 0 ++ NT_RESPONSE ++ [0] ++ ascii_of "User")).
Definition verifies_the_servers_authenticator_response : Prop :=
  then_answers challenged (message OP_SUCCESS 8 (AUTHENTICATOR_RESPONSE ++ ascii_of " M=Welcome")) = (Ok (Some [OP_SUCCESS]), true).
Definition rejects_a_wrong_authenticator_response : Prop :=
  then_answers challenged (message OP_SUCCESS 8 (removelast AUTHENTICATOR_RESPONSE ++ ascii_of "0")) = (Err Rejected, false).
Definition rejects_a_success_with_no_authenticator_response_at_all : Prop :=
  fst (then_answers challenged (message OP_SUCCESS 8 (ascii_of "M=Welcome"))) = Err Rejected.
Definition a_failure_ends_the_exchange : Prop :=
  fst (then_answers peer (message OP_FAILURE 1 (ascii_of "E=691 R=0 C=... V=3"))) = Err Rejected.
Definition rejects_a_success_that_arrives_first : Prop :=
  fst (then_answers peer (message OP_SUCCESS 1 AUTHENTICATOR_RESPONSE)) = Err UnexpectedMessage.
Definition rejects_a_truncated_challenge : Prop :=
  is_err (fst (then_answers peer (message OP_CHALLENGE 1 ([16] ++ take 8 AUTH_CHALLENGE)))) = true.
Definition a_non_ascii_password_is_hashed_as_utf16le : Prop :=
  bool_decide (nt_password_hash [0xc3; 0xa9] = nt_password_hash [101]) = false
  /\ nt_password_hash [0xc3; 0xa9] = md4 [0xe9; 0x00].
End mschapv2.

Lemma mschapv2_tests_pass : Forall id
  [rfc2759_nt_password_hash; rfc2759_hash_nt_password_hash; rfc2759_challenge_hash; rfc2759_challenge_response;
   rfc2759_nt_response; rfc2759_authenticator_response; answers_a_challenge_with_the_rfc_response;
   verifies_the_servers_authenticator_response; rejects_a_wrong_authenticator_response;
   rejects_a_success_with_no_authenticator_response_at_all; a_failure_ends_the_exchange;
   rejects_a_success_that_arrives_first; rejects_a_truncated_challenge; a_non_ascii_password_is_hashed_as_utf16le].
Proof. run_tests. Qed.
