(* ===== verification/TestsSae.v ===== *)
(** * The tests of SAE, on the model

    The tests of [caw-crypto]'s sae.rs, translated and evaluated over the additive
    group of the integers modulo the order of P-256, which has its lengths: a point is
    named by its logarithm, with a check string in the place of the ordinate so that
    most pairs are on no point, and a checksum stands for the hash.  The map to the
    curve itself is the crate p256's, and its published vectors are not run here. *)
From S2P Require Import Prelude Text Bytes Dot11 Crypto Calls Sae.

(** ** The group *)

Definition P256_ORDER : Z := 0xffffffff00000000ffffffffffffffffbce6faada7179e84f3b9cac2fc632551.
Definition residue (v : Z) : Z := v mod P256_ORDER.
(** What stands for the ordinate of a point. *)
Definition ordinate (x : Z) : bytes := be_encode 32 (Z.lxor x (2 ^ 256 - 1)).

(** [n] octets that depend on all of the input. *)
Definition checksum (n : nat) (l : bytes) : bytes :=
  be_encode n (fold_left (fun acc b => Z.land (acc * 257 + b + 1) 0xffffffffffffffff) l 0).
#[local] Instance checksums : CryptoPrims := {
  hmac_sha1 k m := checksum 20 (k ++ m);
  hmac_sha256 k m := checksum 32 (k ++ m);
  aes128_cmac k m := checksum 16 (k ++ m);
  aes128_kw_unwrap _ _ := None;
  pbkdf2_hmac_sha1 p s r n := checksum n (p ++ s);
}.

#[local] Instance logarithms : SaeCurve := {
  Scalar := Z; Point := Z; FieldElement := Z;
  scalar_eq_dec := Z.eq_dec;
  scalar_of := residue;
  scalar_reduce b := residue (be_decode b);
  scalar_from_repr b := if (length b =? 32)%nat && (be_decode b <? P256_ORDER) then Some (be_decode b) else None;
  scalar_to_bytes := be_encode 32;
  scalar_add s t := residue (s + t);
  field_reduce b := residue (be_decode b);
  map_to_curve u := u;
  point_add P Q := residue (P + Q);
  point_neg P := residue (- P);
  point_mul P s := residue (P * s);
  is_identity P := P =? 0;
  point_xy P := if P =? 0 then None else Some (be_encode 32 P, ordinate P);
  from_sec1_bytes b :=
    match b with
    | 4 :: b =>
        let x := be_decode (take 32 b) in
        if (0 <? x) && (x <? P256_ORDER) && bool_decide (drop 32 b = ordinate x) then Some x else None
    | _ => None
    end;
  ORDER := P256_ORDER;
  hkdf_sha256 salt ikm info n := Some (checksum n (salt ++ ikm ++ info));
}.

(** ** The fixtures *)

Definition SSID : bytes := ascii_of "caw-test".
Definition STA : bytes := [0x02; 0x00; 0x00; 0x00; 0x00; 0x01].
Definition AP : bytes := [0x02; 0x00; 0x00; 0x00; 0x00; 0x02].
Definition network (ssid own peer : bytes) (akm : Akm) : AuthContext :=
  {| ctx_ssid := ssid; ctx_bssid := peer; ctx_own_mac := own; ctx_akm := akm |}.
Definition ctx (own peer : bytes) : AuthContext := network SSID own peer Dot11.Sae.
Definition the_seed (tag : Z) : bytes := map (fun i => (Z.of_nat i * 7 + tag) mod 256) (seq 0 SEED_LEN).
(** [SaeProvider::with_seed(password, &seed(tag))] *)
Definition provider (password : string) (tag : Z) : SaeProvider := with_seed (ascii_of password) (the_seed tag).

Definition sent (r : exec Error Step) : option bytes := match r with Ok (Send frame) => Some frame | _ => None end.
Definition pmk_of (r : exec Error Step) : option bytes := match r with Ok (Done pmk) => Some pmk | _ => None end.
Definition outcome : Type := SaeProvider * exec Error Step.
(** The frame a call sent. *)
Definition frame_of (o : outcome) : bytes := default [] (sent (snd o)).
Definition started (own peer : bytes) (password : string) (tag : Z) : outcome :=
  sae_start (ctx own peer) (provider password tag).

(** The four frames of two providers run against each other, in the order the tests
    exchange them, and what each end makes of the other's confirm. *)
Record Exchanged := {
  x_commit_a : bytes; x_commit_b : bytes; x_confirm_a : bytes; x_confirm_b : bytes; x_end_a : outcome; x_end_b : outcome;
}.
Definition exchanged (a b : outcome) : Exchanged :=
  let '(a1, b1) := (sae_on_frame (frame_of b) (fst a), sae_on_frame (frame_of a) (fst b)) in
  {| x_commit_a := frame_of a; x_commit_b := frame_of b; x_confirm_a := frame_of a1; x_confirm_b := frame_of b1;
     x_end_a := sae_on_frame (frame_of b1) (fst a1); x_end_b := sae_on_frame (frame_of a1) (fst b1) |}.

Definition commit_frame (scalar element : bytes) : bytes :=
  auth_header SEQ_COMMIT STATUS_H2E ++ le_encode 2 GROUP_P256 ++ scalar ++ element.
(** The two ends most tests start. *)
Definition end_a : outcome := started STA AP "pw" 1.
Definition end_b : outcome := started AP STA "pw" 2.
Definition committed : SaeProvider := fst end_a.
Definition good_element : bytes := take ELEMENT_LEN (drop (8 + SCALAR_LEN) (frame_of end_b)).
Definition good_scalar : bytes := replicate SCALAR_LEN 0x11.
Definition good_commit : bytes := commit_frame good_scalar good_element.
(** A frame with two octets overwritten by a little-endian number. *)
Definition with_u16 (i : nat) (v : Z) (frame : bytes) : bytes := take i frame ++ le_encode 2 v ++ drop (i + 2) frame.
Definition read_u16 (i : nat) (frame : bytes) : Z := le_decode (take 2 (drop i frame)).
(** What a committed provider makes of a frame. *)
Definition on_committed (frame : bytes) : exec Error Step := snd (sae_on_frame frame committed).

(** ** The tests *)

Definition both_ends_derive_the_same_pmk : Prop :=
  let x := exchanged (started STA AP "correct horse" 1) (started AP STA "correct horse" 2) in
  let '(a, b) := (x_end_a x, x_end_b x) in
  is_some (pmk_of (snd a)) = true /\ pmk_of (snd a) = pmk_of (snd b)
  /\ pmkid (fst a) = pmkid (fst b) /\ is_some (pmkid (fst a)) = true
  /\ bool_decide (x_commit_a x = x_commit_b x) = false.
Definition a_different_password_fails_at_the_confirm : Prop :=
  let x := exchanged (started STA AP "correct horse" 1) (started AP STA "battery staple" 2) in
  bool_decide (x_confirm_a x = []) = false /\ bool_decide (x_confirm_b x = []) = false
  /\ snd (x_end_a x) = Err AuthFailed /\ snd (x_end_b x) = Err AuthFailed.
Definition the_pmk_is_bound_to_ssid_and_addresses : Prop :=
  let run ssid sta ap :=
    let a := sae_start (network ssid sta ap Dot11.Sae) (provider "pw" 1) in
    let b := sae_start (network ssid ap sta Dot11.Sae) (provider "pw" 2) in
    pmk_of (snd (sae_on_frame (frame_of (sae_on_frame (frame_of a) (fst b))) (fst (sae_on_frame (frame_of b) (fst a))))) in
  match run SSID STA AP, run (ascii_of "other-ssid") STA AP, run SSID STA [0x02; 0; 0; 0; 0; 0x03] with
  | Some base, Some elsewhere, Some other_ap =>
      bool_decide (base = elsewhere) = false /\ bool_decide (base = other_ap) = false
  | _, _, _ => False
  end.
Definition rejects_invalid_peer_commits : Prop :=
  map (fun scalar => on_committed (commit_frame scalar good_element)) [be_encode 32 0; be_encode 32 1; be_encode 32 P256_ORDER]
  = replicate 3 (Err AuthFailed)
  /\ map (fun element => on_committed (commit_frame good_scalar element))
       [<[0%nat := Z.lxor (nth 0 good_element 0) 1]> good_element; replicate ELEMENT_LEN 0; replicate ELEMENT_LEN 0xff]
     = replicate 3 (Err AuthFailed).
Definition rejects_truncated_and_foreign_frames : Prop :=
  let wrong_group := with_u16 6 20 good_commit in
  let failed := fst (sae_on_frame wrong_group committed) in
  map on_committed [[3; 0; 1; 0]; <[0%nat := 0]> good_commit; commit_frame good_scalar (take (ELEMENT_LEN - 1) good_element)]
  = replicate 3 (Err ErrMalformed)
  /\ on_committed wrong_group = Err AuthFailed
  /\ snd (sae_on_frame good_commit failed) = Err AuthFailed
  /\ snd (sae_on_timeout (fst (sae_on_frame good_commit failed))) = Err AuthFailed.
Definition rejects_a_reflected_commit : Prop := on_committed (frame_of end_a) = Err AuthFailed.
Definition refuses_an_access_point_without_h2e : Prop := on_committed (with_u16 4 STATUS_SUCCESS good_commit) = Err AuthFailed.
Definition refuses_a_rejection_status : Prop := on_committed (with_u16 4 77 good_commit) = Err AuthFailed.
Definition commit_frame_layout : Prop :=
  let frame := frame_of end_a in
  length frame = (6 + 2 + SCALAR_LEN + ELEMENT_LEN)%nat
  /\ map (fun i => read_u16 i frame) [0; 2; 4; 6]%nat = [AUTH_ALG_SAE; SEQ_COMMIT; STATUS_H2E; GROUP_P256]
  /\ is_err (decode_element (drop (8 + SCALAR_LEN) frame)) = false.
Definition confirm_frame_layout : Prop :=
  let confirm := frame_of (sae_on_frame (frame_of end_b) committed) in
  length confirm = (6 + 2 + HASH_LEN)%nat
  /\ map (fun i => read_u16 i confirm) [2; 4; 6]%nat = [SEQ_CONFIRM; STATUS_SUCCESS; 1].
Definition unexpected_frames_are_ignored : Prop :=
  let '(a, b) := (end_a, end_b) in
  let confirm_b := frame_of (sae_on_frame (frame_of a) (fst b)) in
  let a1 := sae_on_frame confirm_b (fst a) in
  let a2 := sae_on_frame (frame_of b) (fst a1) in
  let a3 := sae_on_frame (frame_of b) (fst a2) in
  let a4 := sae_on_frame confirm_b (fst a3) in
  let a5 := sae_on_frame confirm_b (fst a4) in
  snd a1 = Ok Wait /\ is_some (sent (snd a2)) = true /\ snd a3 = Ok Wait /\ is_some (pmk_of (snd a4)) = true
  /\ snd a5 = Ok Wait.
Fixpoint timeouts (n : nat) (p : SaeProvider) : list (exec Error Step) :=
  match n with O => [] | S n => let (p, r) := sae_on_timeout p in r :: timeouts n p end.
Definition retransmits_then_gives_up : Prop :=
  let (a, commit) := end_a in
  timeouts (Z.to_nat SYNC_MAX + 1) a = replicate (Z.to_nat SYNC_MAX) commit ++ [Err AuthFailed].
Definition echoes_an_anti_clogging_token : Prop :=
  let '(a, b) := (end_a, end_b) in
  let commit := frame_of a in
  let token := replicate 32 0xab in
  let request := auth_header SEQ_COMMIT STATUS_ANTI_CLOGGING ++ le_encode 2 GROUP_P256
                 ++ [EID_EXTENSION; 1 + len token; EID_EXT_ANTI_CLOGGING] ++ token in
  let again := sae_on_frame request (fst a) in
  let retry := frame_of again in
  let confirm_b := frame_of (sae_on_frame retry (fst b)) in
  let a1 := sae_on_frame (frame_of b) (fst again) in
  take (length commit) retry = commit /\ drop (length commit) retry = drop 8 request
  /\ is_some (sent (snd a1)) = true /\ is_some (pmk_of (snd (sae_on_frame confirm_b (fst a1)))) = true.
Definition rejects_a_malformed_token_container : Prop :=
  on_committed (auth_header SEQ_COMMIT STATUS_ANTI_CLOGGING ++ le_encode 2 GROUP_P256
                ++ [EID_EXTENSION; 40; EID_EXT_ANTI_CLOGGING] ++ replicate 8 0) = Err ErrMalformed.
Definition is_a_pre_association_provider : Prop :=
  pp_stage (provider "pw" 1) = PreAssoc /\ pmkid (provider "pw" 1) = None.
Definition rejects_a_non_sae_akm : Prop :=
  snd (sae_start (network SSID STA AP FtSae) (provider "pw" 1)) = Err UnsupportedAkm.
Definition rejects_being_driven_out_of_order : Prop :=
  let a := sae_on_frame [3; 0; 1; 0; 126; 0] (provider "pw" 1) in
  let b := sae_on_timeout (fst a) in
  let c := sae_start (ctx STA AP) (fst b) in
  snd a = Err Protocol /\ snd b = Err Protocol /\ is_some (sent (snd c)) = true
  /\ snd (sae_start (ctx STA AP) (fst c)) = Err Protocol.
Definition password_element_is_symmetric_and_bound : Prop :=
  let encoded {A} (m : exec Error A) (f : A -> exec Error bytes) := to_option (m ≫= f) in
  let token ssid pw := password_token ssid (ascii_of pw) in
  let element own peer := pt ← token SSID "pw"%string; password_element pt own peer in
  is_some (encoded (token SSID "pw"%string) encode_element) = true
  /\ bool_decide (encoded (token SSID "pw"%string) encode_element = encoded (token SSID "pw2"%string) encode_element) = false
  /\ bool_decide (encoded (token SSID "pw"%string) encode_element
                  = encoded (token (ascii_of "other") "pw"%string) encode_element) = false
  /\ encoded (element STA AP) encode_element = encoded (element AP STA) encode_element
  /\ bool_decide (encoded (element STA AP) encode_element
                  = encoded (element STA [0x02; 0; 0; 0; 0; 0x03]) encode_element) = false.

Lemma sae_tests_pass : Forall id
  [both_ends_derive_the_same_pmk; a_different_password_fails_at_the_confirm; the_pmk_is_bound_to_ssid_and_addresses;
   rejects_invalid_peer_commits; rejects_truncated_and_foreign_frames; rejects_a_reflected_commit;
   refuses_an_access_point_without_h2e; refuses_a_rejection_status; commit_frame_layout; confirm_frame_layout;
   unexpected_frames_are_ignored; retransmits_then_gives_up; echoes_an_anti_clogging_token;
   rejects_a_malformed_token_container; is_a_pre_association_provider; rejects_a_non_sae_akm;
   rejects_being_driven_out_of_order; password_element_is_symmetric_and_bound].
Proof. run_tests. Qed.
